(* ===== verification/_CoqProject ===== *)
-Q . S2P
Prelude.v
CLib.v
Utf8.v
JsonValue.v
JsonCompare.v
OrderedMap.v
JsonModify.v
JsonStorage.v
JsonIterator.v
JsonIteratorSpec.v
JsonGrammar.v
JsonLexer.v
JsonLexerFacts.v
JsonParser.v
JsonParserFacts.v
JsonParserSpec.v
JsonSerializer.v
JsonSerializerFacts.v
JsonLexerComplete.v
JsonParserComplete.v
JsonRoundtrip.v
JsonLexerSound.v
JsonParserSound.v
JsonInput.v
JsonProtocol.v
JsonCallback.v
JsonCallbackFacts.v
JsonCallbackSpec.v
BinaryReader.v
Ieee754.v
Dtoa.v
DtoaFacts.v
DtoaDigits.v
DtoaInterval.v
DtoaFormat.v
Strtod.v
JsonFloat.v
JsonFloatSpec.v
BinaryReaderFacts.v
Cbor.v
CborGrammar.v
CborFacts.v
CborSound.v
CborSpec.v
Msgpack.v
MsgpackGrammar.v
MsgpackFacts.v
MsgpackSound.v
MsgpackSpec.v
Bson.v
BsonFacts.v
BsonSound.v
BsonWriterFacts.v
BsonSpec.v
Ubjson.v
UbjsonGrammar.v
UbjsonFacts.v
UbjsonSound.v
UbjsonWriter.v
UbjsonWriterFacts.v
UbjsonSpec.v
JsonPointer.v
JsonConvert.v
JsonConvertSpec.v
JsonPatch.v
JsonFlatten.v
JsonPatchSpec.v
JsonDiff.v
EphSocket.v
EphInit.v
EphReserve.v
EphHandle.v
EphAttempt.v
EphStore.v
BlockCache.v
EphThread.v
FaultTrace.v
TraceTool.v
PfTrace.v
KvmPfTrace.v
