(* ===== verification/Prelude.v ===== *)
(** * Verification of libephmem and its JSON library

    The repository holds libephmem (C++ in [src/libephmem]), a client library
    that gives programs memory that may be revoked at any time ("ephemeral"
    memory), a proof-of-concept cache on top of it ([src/ubmks]), the daemon
    and the orchestrator it talks to (Rust), tracing tools ([src/bpf]) and
    experiments.  This development models libephmem, its JSON library
    [src/libephmem/json.hpp], the cache and the page-fault tracers.

    ** How the parts interact

    A program reserves memory with [libephmem_reserve]: it connects to the
    daemon once ([libephmem_init] under [std::call_once]), sends a JSON line
    over a Unix socket and reads a JSON line back.  [libephmem_alloc] maps a
    file of the ephemeral file system, tagged with a protection key.  Access
    goes through [libephmem_attempt], which enables access, arms a
    [sigsetjmp] and runs the caller's function; a page that was revoked
    raises SIGBUS, and the handler jumps back out of the attempt.
    [libephmem_put] and [libephmem_get] are copies in an attempt.  The cache
    of [src/ubmks/libephmem_poc.cpp] keeps evicted blocks in such memory.

    ** The files

    - [Prelude]: bytes, the outcome type [comp] of C++ calls (a value, a
      thrown exception with its id, a failed assertion, a buffer overrun,
      undefined behaviour, a deadly signal), its [let*] notation, tactics, hint databases, lemmas on lists.
    - [CLib]: what the code uses of the C library: [strtoull], [strtoll],
      how much [strtod] reads in a given locale, [snprintf] with [%04x],
      decimal representation.
    - [Utf8]: Unicode scalar values and their encoding; the encoder of the
      lexer.
    - [JsonValue]: [basic_json] as an inductive type over the [value_t] tags;
      objects are [std::map], sorted association lists.  The number type is
      a parameter: the class [FloatOps] holds [strtod], [isfinite] and
      [to_chars]; [JsonFloat] is its instance for [double].
    - [JsonLexer], [JsonLexerFacts]: [class lexer] with its input management
      and all of its assertions; the lemmas that every scan consumes input,
      keeps the lexer's invariant and fails no assertion.  The decimal point
      of the locale is an argument, a string; the theorems are for those of
      a single byte ([JsonParserSpec.long_decimal_point] is an example of
      what a longer one does).
    - [JsonParser], [JsonParserFacts], [JsonParserSpec]: the SAX interface as
      a class, its two instances (the DOM builder with a stack of pointers,
      which are paths here, and the acceptor), the parser's loop one turn at
      a time; totality, agreement of [accept] and [parse], agreement of the
      modes with and without exceptions.
    - [JsonSerializer], [JsonSerializerFacts]: [class serializer] with its fixed buffers; correctness of escaping and of
      integers, memory safety, and two defects of the pretty printer.
    - [JsonGrammar] (before the lexer in the order of the files),
      [JsonLexerComplete], [JsonParserComplete],
      [JsonRoundtrip]: the JSON grammar as inductive relations between texts
      and values, independent of the scanner; completeness of the parser
      with respect to it, and the round trips of [dump] and [parse].
      [JsonLexerSound], [JsonParserSound]: soundness, so that [parse]
      returns a value exactly when the input is a text of it.
    - [JsonInput]: the conversion of UTF-16 and UTF-32 text in front of the
      lexer, and its agreement with parsing UTF-8.
    - [JsonProtocol]: the order of SAX events, for any two consumers whose
      states are related; [JsonCallback], [JsonCallbackFacts],
      [JsonCallbackSpec]: the third consumer, which asks a callback of the
      program what to keep ([json_sax_dom_callback_parser]), against the DOM
      builder.
    - [BinaryReader], [BinaryReaderFacts]: what the readers
      and writers of the binary formats share: bytes in network and
      little-endian order, the SAX events with sizes, how a call ends.  The
      bit patterns of [double] and [float] are a class ([FloatBits]) with
      the laws of IEEE 754; [Ieee754] is an instance of it.
    - [Cbor], [Msgpack], [Bson], [Ubjson]: the formats, reader and (but for
      UBJSON) writer; [Ubjson] is the reader of UBJSON and of BJData, which
      share their functions; [UbjsonWriter]: their writer.  [CborGrammar],
      [MsgpackGrammar], [UbjsonGrammar], for BSON [BsonFacts]: what the texts
      are and mean; [CborFacts], [MsgpackFacts], [BsonFacts], [UbjsonFacts]:
      every text is read; [CborSound], [MsgpackSound], [BsonSound],
      [UbjsonSound]: what is read is a text; [BsonWriterFacts],
      [UbjsonWriterFacts]: what is written is a text; [CborSpec],
      [MsgpackSpec], [BsonSpec], [UbjsonSpec]: the theorems.
    - [Dtoa]: [detail::to_chars], Grisu2 with 64-bit integers in the buffer
      of the caller; [DtoaFacts]: its arithmetic and the table of cached
      powers, checked entry by entry; [DtoaDigits]: the loops over digits;
      [DtoaInterval]: the number found is between the midpoints to the
      neighbours of the floating-point number; [DtoaFormat]: the layout;
      [Strtod]: [strtod] as correct rounding, by bisection over the bit
      patterns; [JsonFloat], [JsonFloatSpec]: the instance of [FloatOps] and
      the theorems.
    - [JsonPointer]: [json_pointer]: escaping, reading and printing, checked
      access, [contains] and the operators that compare pointers.
    - [JsonCompare]: the six comparison operators on values and
      [detail::hash]; the classes [FloatCompare], [FloatOrder] and [StdHash]
      hold what they take from [double] and the standard library.
    - [OrderedMap]: [ordered_map], the objects of [ordered_json]: a vector of
      members, against a finite map and the order of its keys.
    - [JsonIterator], [JsonIteratorSpec]: iterators over values, which are
      pairs of the address of a value and a position; the constructor from a
      range, reverse iterators and [items()] with its cached index; what loops over them visit, and the
      errors and undefined steps of their misuse.
    - [JsonConvert], [JsonConvertSpec]: [to_json] and [from_json], whose
      overloads are chosen by a C++ type, as functions on a language of
      types; [get_ptr], [get_ref], [value]; typing and the round trip.
    - [JsonModify]: the member functions that change a value in
      place ([push_back], [emplace], [insert], [erase], [update],
      [merge_patch]) in a state and exception monad, so that the value a
      throwing call leaves behind is part of the model; merge patches against
      their recursive definition (RFC 7396).
    - [JsonStorage]: the memory of values: the tagged union over blocks of a
      heap, constructors, assignment, [swap], the destructor with its own
      stack, and programs of them on local variables, against the values and
      [JsonModify].
    - [JsonPatch], [JsonPatchSpec], [JsonDiff]:
      [patch_inplace], [patch] and [diff]; the refinement of RFC 6902, given
      as operations on resolved locations; patches made by [diff].
    - [JsonFlatten]: [flatten], [unflatten] and the unchecked accesses of
      pointers; the round trip.
    - [EphSocket]: [libephmem_send], [libephmem_recv], [libephmem_drain].
    - [EphInit]: the static variables, [connect_to_ephemerald],
      [libephmem_init].
    - [EphReserve]: [libephmem_reserve], composed of the transport, the
      initialisation and the JSON library.
    - [EphHandle]: [libephmem_create_file], [libephmem_alloc],
      [libephmem_free].
    - [EphAttempt]: the signal handler, [libephmem_attempt],
      [libephmem_put], [libephmem_get].
    - [EphStore]: what a client relies on, as a class: allocating, attempts,
      puts, freeing, with the contract that an attempt answers truthfully and
      leaves other memory alone; a script of answers as an instance.
    - [BlockCache]: [handle_revoked_ephmem], the main loop and the statistics
      of the cache, over any [EphStore].
    - [EphThread]: the instance of [EphStore] made of [EphHandle] and
      [EphAttempt], and the cache on it.
    - [FaultTrace]: what a page-fault tracer has to report, as a function of
      the history of calls, and the step relation of a tracer over an
      interface of two probes; [PfTrace], [KvmPfTrace]: the probes of
      [src/bpf/pf_trace.bpf.c] and [src/bpf/kvm_pf_trace.bpf.c], proved to
      refine it; [TraceTool]: the [main] both loaders share.

    ** The environment

    Kernel and daemon are scripts of answers: one list of results per system
    call, so a theorem for all scripts covers every behaviour, interruptions
    ([EINTR]), short reads and writes and hostile messages included.  In
    [EphAttempt] the script says at each memory access whether the page was
    revoked or a signal arrives.  In [BlockCache] it holds the random draws;
    the results of the attempts are those of the store.

    ** What the theorems show

    - Attempts ([EphAttempt]): for every pattern of revocations, a
      program that accesses ephemeral memory in attempts only is never
      killed; each attempt reports truthfully whether it was cut off, and
      leaves the signal mask, the handler, the protection key and all other
      memory as they should be.  [put] and [get] respect the bounds of the
      allocation, and [get] returns what [put] stored.
    - Reservation ([EphReserve]) and transport ([EphSocket]): whatever arrives
      on the socket, [libephmem_reserve] neither throws nor leaves its
      buffer, and returns at most the rounded amount; with a cooperating
      daemon it returns what was granted.
    - Resources ([EphInit], [EphHandle]): one connection per process, no descriptor,
      mapping or handle is leaked on any error path.
    - JSON text ([JsonParserSpec], [JsonParserSound], [JsonRoundtrip],
      [JsonSerializerFacts], [JsonFloatSpec]): the parser is total, accepts
      exactly the texts of the grammar and builds their values; [dump] and [parse] are inverse
      on all well-formed values, floating-point numbers bit by bit; escaping
      and integer output are exact.
    - Floating-point numbers ([JsonFloatSpec]): for every finite double the
      conversion ends within its buffer, no assertion of the source fails, at
      most 17 digits are made and no number with fewer lies between the
      bounds, and the text is read back as the same double.
    - Parsing with a callback ([JsonCallbackSpec]): it fails exactly where
      parsing without one fails, whatever the callback answers; a callback
      that keeps everything gets the value [parse] builds.
    - Binary formats ([CborSpec], [MsgpackSpec], [BsonSpec], [UbjsonSpec]):
      the readers answer on every input, accept exactly the texts of their
      grammars and build their values; what the writers write is read back;
      BSON documents carry their own length, and a name with a NUL is
      refused.  The grammar of BJData leaves out sizes that are vectors of
      dimensions: for them it is proved that the reader answers.
    - Iterators and input ([JsonIteratorSpec], [JsonInput]): loops over a
      value meet each element once with its key, forwards and backwards;
      wide text is parsed as the same text in UTF-8, and ill-formed UTF-16 is
      accepted.
    - Conversions ([JsonConvertSpec]): a conversion gives a value of the
      type asked for or one of four errors; values come back from JSON as
      they were, but for the pairs and tuples that turn into objects.
    - JSON pointers ([JsonPointer], [JsonFlatten]): they are read back from
      their text exactly, with the cause of each parse error, and resolve to the value at the end of their path, by checked
      and by unchecked access.
    - JSON documents ([JsonPatchSpec], [JsonDiff], [JsonFlatten],
      [JsonModify]): a patch does what RFC 6902 says or
      fails where it says so; the patch [diff] computes leads from the source
      to the target; the members of a flattened value are its leaves under
      the texts of their pointers, and [unflatten] undoes [flatten]; a merge patch replaces,
      removes and merges exactly the members it names.
    - Memory ([JsonStorage]): programs of constructors, assignments and
      insertions on blocks and pointers compute what they mean on values; no
      block is lost, freed twice or used after it was freed, exceptions
      included, and destructors nest at most two deep.
    - Order ([JsonCompare]): away from floating-point numbers, integers out
      of range and subtypes, [<] is a strict total order that agrees with
      [==].  Maps ([OrderedMap]): every sequence of operations keeps each key
      once, in the order of insertion, and answers as a finite map does.
    - Tracers ([PfTrace], [KvmPfTrace]): the records in the ring buffer are those the
      history of calls asks for, each fault of the traced process that
      completes undisturbed is reported with its duration.
    - Cache ([BlockCache], [EphThread]): every access returns the data of
      the block asked for; the invariant of maps, reverse maps and slots is
      preserved by every turn.  On a thread whose memory is revoked at
      arbitrary accesses the cache runs on, and is never killed.
    - Defects ([async_sigbus_disarms], [pretty_dump_overruns] and the examples
      next to the definitions): an
      asynchronous SIGBUS disarms the handler; deep pretty printing reads past
      the indentation string.

    ** Fuel and bounds

    Loops of the lexer and the parser run on fuel computed from the bytes
    left to read; the totality theorems show that it never runs out.  The
    socket loops consume one answer of the script per turn; [OutOfFuel] there
    means that the call still waits for an answer.  [size_t], [unsigned long]
    and [int] arithmetic keeps its width where it can wrap ([wrapu],
    [to_int]).

    ** What is not modelled

    Texts of exceptions and the instances of
    [json.hpp] for [float] and [long double]; callbacks that throw; the depth of the call stack; locks and other threads (the
    attempt context is thread-local, the socket is guarded by a mutex);
    printing to stderr; the C micro-benchmarks; the Rust daemons; scripts.
    Comments are not part of the grammar: the parser's totality and
    completeness cover [ignore_comments], its soundness does not. *)
From Stdlib Require Export ZArith Lia Ascii.
From stdpp Require Export base gmap strings option sorting list.

#[global] Open Scope Z_scope.

(** ** Bytes and strings

    A C++ [char] sequence ([std::string], a [char] array, the input of the
    JSON lexer) is a list of byte values; [is_byte] is the range of one. *)

Abbreviation bytes := (list Z).

Definition is_byte (b : Z) : Prop := 0 <= b < 256.

(** Byte value of a C++ character literal. *)
Definition chr (c : ascii) : Z := Z.of_nat (nat_of_ascii c).

(** The bytes of a C++ string literal. *)
Fixpoint str (s : string) : bytes :=
  match s with
  | EmptyString => []
  | String c s' => chr c :: str s'
  end.

(** JSON text in examples: an apostrophe stands for a quotation mark. *)
Definition jtext (s : string) : bytes := map (fun c => if c =? 39 then 34 else c) (str s).

(** [static_cast] to an unsigned type of [w] bits. *)
Definition wrapu (w z : Z) : Z := z mod 2 ^ w.

(** [static_cast] to a signed type of [w] bits. *)
Definition to_signed (w z : Z) : Z := let u := wrapu w z in if u <? 2 ^ (w - 1) then u else u - 2 ^ w.

(** [lo <= b <= hi], the range tests of the scanners. *)
Definition in_range (lo hi b : Z) : bool := (lo <=? b) && (b <=? hi).

(** ** Outcomes

    A C++ call returns a value, throws one of the library's exceptions (with
    its documented id), fails an assertion, breaks the bound of a fixed
    buffer, does something else that C++ leaves undefined (a conversion
    out of range, an iterator that leaves its container), or is killed by a
    signal.  Loops whose recursion is not structural run on fuel;
    [out_of_fuel] marks that it ran out, and for every entry point it is
    proved that it does not. *)

Inductive exn : Set :=
  | parse_error (id : Z)
  | type_error (id : Z)
  | out_of_range (id : Z)
  | invalid_iterator (id : Z)
  | other_error (id : Z)
  | assertion_failure
  | buffer_overrun
  | undefined_behaviour
  | killed.

#[global] Instance exn_eq_dec : EqDecision exn.
Proof. solve_decision. Defined.

Inductive comp (A : Type) : Type :=
  | Ret (a : A)
  | Throw (e : exn)
  | OutOfFuel.
Arguments Ret {A} _.
Arguments Throw {A} _.
Arguments OutOfFuel {A}.

#[global] Instance comp_eq_dec {A} `{EqDecision A} : EqDecision (comp A).
Proof. solve_decision. Defined.

Definition comp_bind {A B} (m : comp A) (f : A -> comp B) : comp B :=
  match m with
  | Ret a => f a
  | Throw e => Throw e
  | OutOfFuel => OutOfFuel
  end.

Declare Scope comp_scope.
Delimit Scope comp_scope with comp.
Notation "'let*' x ':=' m 'in' k" := (comp_bind m (fun x => k))
  (at level 10, x name, m at level 100, k at level 200) : comp_scope.
Notation "'let*' ''' p ':=' m 'in' k" :=
  (comp_bind m (fun x => match x with p => k end))
  (at level 10, p pattern, m at level 100, k at level 200) : comp_scope.
#[global] Open Scope comp_scope.

Lemma comp_bind_ret {A B} (m : comp A) (f : A -> comp B) b :
  comp_bind m f = Ret b <-> exists a, m = Ret a /\ f a = Ret b.
Proof. destruct m; naive_solver. Qed.

Lemma comp_bind_assoc {A B C} (m : comp A) (f : A -> comp B) (g : B -> comp C) :
  comp_bind (comp_bind m f) g = comp_bind m (fun a => comp_bind (f a) g).
Proof. by destruct m. Qed.

(** ** Automation *)

(** Case analysis on every boolean comparison of the goal or a hypothesis,
    with the fact it decides in the context. *)
Ltac zcases :=
  repeat match goal with
  | |- context [?a =? ?b] => destruct (Z.eqb_spec a b)
  | |- context [?a <? ?b] => destruct (Z.ltb_spec a b)
  | |- context [?a <=? ?b] => destruct (Z.leb_spec a b)
  | H : context [?a =? ?b] |- _ => destruct (Z.eqb_spec a b)
  | H : context [?a <? ?b] |- _ => destruct (Z.ltb_spec a b)
  | H : context [?a <=? ?b] |- _ => destruct (Z.leb_spec a b)
  end.

(** Split the first [match] of a hypothesis or the goal, naming the case. *)
Ltac case_match_in H :=
  match type of H with
  | context [match ?x with _ => _ end] => let E := fresh "E" in destruct x eqn:E
  end.

(** Normalise a hypothesis that says a chain of [let*] returned. *)
Ltac inv_comp H :=
  repeat (apply comp_bind_ret in H; destruct H as (? & ? & H)).

(** Linear arithmetic with division and remainder by constants. *)
Ltac dlia := Z.to_euclidean_division_equations; lia.

Lemma in_range_spec lo hi b : in_range lo hi b = true <-> lo <= b <= hi.
Proof. unfold in_range. rewrite andb_true_iff, !Z.leb_le. done. Qed.

Lemma in_range_false lo hi b : in_range lo hi b = false <-> ~ (lo <= b <= hi).
Proof. rewrite <- in_range_spec. by destruct (in_range lo hi b). Qed.

Lemma in_range_true lo hi b : lo <= b <= hi -> in_range lo hi b = true.
Proof. by rewrite in_range_spec. Qed.

Lemma in_range_out lo hi b : ~ (lo <= b <= hi) -> in_range lo hi b = false.
Proof. by rewrite in_range_false. Qed.

Lemma wrapu_small w z : 0 <= z < 2 ^ w -> wrapu w z = z.
Proof. apply Z.mod_small. Qed.

Lemma wrapu_range w z : 0 <= w -> 0 <= wrapu w z < 2 ^ w.
Proof. intros. apply Z.mod_pos_bound. lia. Qed.

Lemma to_signed_small w z : 0 < w -> - 2 ^ (w - 1) <= z < 2 ^ (w - 1) -> to_signed w z = z.
Proof.
  intros Hw Hz. unfold to_signed, wrapu. assert (2 ^ w = 2 * 2 ^ (w - 1)) as E.
  { rewrite <- Z.pow_succ_r by lia. f_equal. lia. }
  destruct (Z_lt_ge_dec z 0).
  - rewrite <- (Z.mod_unique z (2 ^ w) (-1) (z + 2 ^ w)) by lia.
    destruct (Z.ltb_spec (z + 2 ^ w) (2 ^ (w - 1))); lia.
  - rewrite Z.mod_small by lia. destruct (Z.ltb_spec z (2 ^ (w - 1))); lia.
Qed.

Create HintDb bytedb.
#[export] Hint Resolve in_range_true in_range_out : bytedb.
Create Rewrite HintDb compdb.
#[export] Hint Rewrite @comp_bind_assoc : compdb.

(** ** Lists *)

Lemma chr_range c : is_byte (chr c).
Proof.
  unfold is_byte, chr. pose proof (nat_ascii_bounded c). lia.
Qed.

Lemma str_bytes s : Forall is_byte (str s).
Proof. induction s; simpl; constructor; auto using chr_range. Qed.

Lemma jtext_bytes s : Forall is_byte (jtext s).
Proof.
  unfold jtext. apply Forall_fmap. eapply Forall_impl; [apply str_bytes|].
  intros c Hc. simpl. by destruct (c =? 39).
Qed.

(** A property of the bytes from [lo] to [hi] is decided by evaluating it on
    each of them. *)
Fixpoint check_from (lo : Z) (n : nat) (P : Z -> bool) : bool :=
  match n with
  | O => true
  | S n' => P lo && check_from (lo + 1) n' P
  end.

Lemma check_from_spec n : forall lo P, check_from lo n P = true ->
  forall b, lo <= b < lo + Z.of_nat n -> P b = true.
Proof.
  induction n as [|n IH]; intros lo P H b Hb; [lia|].
  simpl in H. apply andb_true_iff in H as [H1 H2].
  destruct (Z.eq_dec b lo) as [->|]; [done|].
  apply (IH (lo + 1)); [done|lia].
Qed.

Lemma byte_check (P : Z -> bool) : check_from 0 256 P = true ->
  forall b, is_byte b -> P b = true.
Proof. intros H b Hb. eapply check_from_spec; [exact H|]. unfold is_byte in *. lia. Qed.

(** Two successive updates of one element. *)
Lemma list_alter_alter {A} (f g : A -> A) (l : list A) i :
  alter f i (alter g i l) = alter (fun x => f (g x)) i l.
Proof. revert i. induction l as [|x l IH]; intros [|i]; csimpl; congruence. Qed.

Lemma alter_last {A} (f : A -> A) (l : list A) x : alter f (length l) (l ++ [x]) = l ++ [f x].
Proof. induction l as [|y l IH]; csimpl; congruence. Qed.

Lemma Forall2_impl_r {A B} (P Q : A -> B -> Prop) (l : list A) (k : list B) :
  Forall2 P l k -> (forall x y, y ∈ k -> P x y -> Q x y) -> Forall2 Q l k.
Proof.
  induction 1 as [|x y l k Hxy _ IH]; intros HPQ; constructor.
  - apply HPQ; [by left|done].
  - apply IH. intros. apply HPQ; [by right|done].
Qed.

(** Removing an element that was just overwritten. *)
Lemma delete_insert_same {A} (l : list A) i x : delete i (<[i := x]> l) = delete i l.
Proof. revert i. induction l as [|y l IH]; intros [|i]; csimpl; congruence. Qed.

Lemma delete_app_l {A} (l k : list A) i : (i < length l)%nat -> delete i (l ++ k) = delete i l ++ k.
Proof.
  revert i. induction l as [|y l IH]; intros [|i] Hi; simpl in Hi; csimpl; try lia; [done|].
  rewrite IH by lia. done.
Qed.
