(* ===== verification/CLib.v ===== *)
(** The C and C++ standard library functions the modelled sources call on
    digits and hexadecimal characters: [strtoull] and [strtoll] in base 10
    (called by the number scanner and by [json_pointer::array_index]), how
    much of its argument [strtod] reads, [std::to_string] of a [size_t], and [snprintf] with the ["%04x"]
    conversion.  They model standard-library behaviour, so no line of the
    repository corresponds to them. *)
From S2P Require Import Prelude.

Definition ULLONG_MAX : Z := 2 ^ 64 - 1.
Definition LLONG_MAX : Z := 2 ^ 63 - 1.
Definition LLONG_MIN : Z := - 2 ^ 63.

Definition is_digit (c : Z) : bool := in_range 48 57 c.

(** [isspace] in the "C" locale. *)
Definition is_space (c : Z) : bool := in_range 9 13 c || (c =? 32).

(** Value of a string of decimal digits. *)
Definition dec_value (ds : bytes) : Z := fold_left (fun acc d => acc * 10 + (d - 48)) ds 0.

Fixpoint take_digits (s : bytes) : bytes :=
  match s with
  | c :: s' => if is_digit c then c :: take_digits s' else []
  | [] => []
  end.

Fixpoint skip_space (s : bytes) : bytes :=
  match s with
  | c :: s' => if is_space c then skip_space s' else s
  | [] => []
  end.

(** Optional sign: whether it is a minus, and the rest. *)
Definition split_sign (s : bytes) : bool * bytes :=
  match s with
  | 45 :: s' => (true, s')
  | 43 :: s' => (false, s')
  | _ => (false, s)
  end.

(** Result of a [strto*] call: the value, the offset of [endptr] in the
    input, and whether [errno] was set to [ERANGE]. *)
Record strto := mk_strto { st_value : Z; st_end : nat; st_erange : bool }.

Definition strtoull (s : bytes) : strto :=
  let s1 := skip_space s in
  let '(neg, s2) := split_sign s1 in
  let ds := take_digits s2 in
  match ds with
  | [] => mk_strto 0 0 false
  | _ =>
      let v := dec_value ds in
      let e := (length s - length s2 + length ds)%nat in
      if ULLONG_MAX <? v then mk_strto ULLONG_MAX e true
      else mk_strto (wrapu 64 (if neg then - v else v)) e false
  end.

Definition strtoll (s : bytes) : strto :=
  let s1 := skip_space s in
  let '(neg, s2) := split_sign s1 in
  let ds := take_digits s2 in
  match ds with
  | [] => mk_strto 0 0 false
  | _ =>
      let v := if neg then - dec_value ds else dec_value ds in
      let e := (length s - length s2 + length ds)%nat in
      if LLONG_MAX <? v then mk_strto LLONG_MAX e true
      else if v <? LLONG_MIN then mk_strto LLONG_MIN e true
      else mk_strto v e false
  end.

(** The end of the subject sequence of [strtod] in a locale whose decimal
    point is the string [point]: after white space and a sign, the longest
    initial part of the form digits, [point], digits, exponent, where the
    fraction and the exponent are optional.  (Hexadecimal numbers, infinities
    and NaNs are not described: the lexer hands over a text that starts with
    a decimal digit, after a minus sign or not, and holds no [x].) *)
Definition skip_digits (s : bytes) : bytes := drop (length (take_digits s)) s.

Definition after_point (point s : bytes) : option bytes :=
  if decide (take (length point) s = point) then Some (drop (length point) s) else None.

Definition skip_fraction (point s : bytes) : bytes :=
  match after_point point s with Some s' => skip_digits s' | None => s end.

Definition fraction_digits (point s : bytes) : bytes :=
  match after_point point s with Some s' => take_digits s' | None => [] end.

Definition skip_exponent (s : bytes) : bytes :=
  match s with
  | e :: s' =>
      let '(_, s1) := split_sign s' in
      match take_digits s1 with
      | [] => s
      | _ => if (e =? 101) || (e =? 69) then skip_digits s1 else s
      end
  | [] => []
  end.

(** Offset of [endptr]: the longer of the readings with and without a
    fraction; nothing is read without a digit. *)
Definition strtod_end (point s : bytes) : nat :=
  let '(_, s1) := split_sign (skip_space s) in
  let s2 := skip_digits s1 in
  match take_digits s1 ++ fraction_digits point s2 with
  | [] => 0%nat
  | _ => (length s - Nat.min (length (skip_exponent (skip_fraction point s2))) (length (skip_exponent s2)))%nat
  end.

(** [std::to_string] of an unsigned integer. *)
Fixpoint to_dec_aux (fuel : nat) (n : Z) (acc : bytes) : bytes :=
  match fuel with
  | O => acc
  | S fuel' =>
      let acc' := (48 + n mod 10) :: acc in
      if n <? 10 then acc' else to_dec_aux fuel' (n / 10) acc'
  end.

Definition to_dec (n : Z) : bytes := to_dec_aux (S (Z.to_nat (Z.log2 n))) n [].

(** Lower-case hexadecimal digit, and ["%04x"] of a 16-bit value. *)
Definition hex_digit (d : Z) : Z := if d <? 10 then 48 + d else 87 + d.

Definition printf_04x (v : Z) : bytes :=
  [hex_digit (v / 4096 mod 16); hex_digit (v / 256 mod 16);
   hex_digit (v / 16 mod 16); hex_digit (v mod 16)].

Example strtoull_ex1 : strtoull (str "18446744073709551615") = mk_strto ULLONG_MAX 20 false.
Proof. vm_compute. reflexivity. Qed.
Example strtoull_ex2 : strtoull (str "18446744073709551616") = mk_strto ULLONG_MAX 20 true.
Proof. vm_compute. reflexivity. Qed.
Example strtoull_ex3 : strtoull (str " -1x") = mk_strto ULLONG_MAX 3 false.
Proof. vm_compute. reflexivity. Qed.
Example strtoll_ex1 : strtoll (str "-9223372036854775808") = mk_strto LLONG_MIN 20 false.
Proof. vm_compute. reflexivity. Qed.
Example strtod_end_ex1 : strtod_end (str ".") (str "-12.50e+3,") = 9%nat.
Proof. vm_compute. reflexivity. Qed.
Example strtod_end_ex2 : strtod_end (str ",") (str "1.5") = 1%nat /\ strtod_end (str ".") (str "1e+") = 1%nat.
Proof. vm_compute. done. Qed.
Example strtod_end_ex3 : strtod_end (str ".") (str ".5") = 2%nat /\ strtod_end (str ".") (str "-.") = 0%nat.
Proof. vm_compute. done. Qed.
Example to_dec_ex : to_dec 268435456 = str "268435456".
Proof. vm_compute. reflexivity. Qed.

(** ** Digits *)

Definition all_digits (s : bytes) : Prop := Forall (fun c => 48 <= c <= 57) s.

Lemma is_digit_spec c : is_digit c = true <-> 48 <= c <= 57.
Proof. apply in_range_spec. Qed.

Lemma take_digits_all s : all_digits s -> take_digits s = s.
Proof.
  induction 1 as [|c s Hc _ IH]; [done|]. simpl.
  apply is_digit_spec in Hc. by rewrite Hc, IH.
Qed.

Lemma take_digits_app ds s : all_digits ds -> take_digits (ds ++ s) = ds ++ take_digits s.
Proof.
  induction 1 as [|c ds Hc _ IH]; [done|]. simpl. apply is_digit_spec in Hc. by rewrite Hc, IH.
Qed.

Lemma skip_digits_app ds s : all_digits ds -> skip_digits (ds ++ s) = skip_digits s.
Proof.
  intros Hd. unfold skip_digits. rewrite take_digits_app, length_app, drop_app by done.
  replace (length ds + length (take_digits s) - length ds)%nat with (length (take_digits s)) by lia.
  by rewrite drop_ge by lia.
Qed.

Lemma skip_digits_stop c s : ~ 48 <= c <= 57 -> skip_digits (c :: s) = c :: s.
Proof. intros Hc. unfold skip_digits. simpl. destruct (is_digit c) eqn:E; [by apply is_digit_spec in E|done]. Qed.

Lemma skip_digits_all ds : all_digits ds -> skip_digits ds = [].
Proof. intros Hd. rewrite <- (app_nil_r ds). by rewrite skip_digits_app. Qed.

Lemma dec_value_snoc ds d : dec_value (ds ++ [d]) = dec_value ds * 10 + (d - 48).
Proof. unfold dec_value. by rewrite fold_left_app. Qed.

Lemma dec_value_nonneg ds : all_digits ds -> 0 <= dec_value ds.
Proof.
  induction ds as [|d ds IH] using rev_ind; intros H; [done|].
  rewrite dec_value_snoc. apply Forall_app in H as [H1 H2].
  inversion H2; subst. specialize (IH H1). lia.
Qed.

Lemma skip_space_digits s : all_digits s -> skip_space s = s.
Proof.
  destruct 1 as [|c s Hc _]; [done|]. simpl. unfold is_space.
  rewrite in_range_out by lia. by destruct (Z.eqb_spec c 32); [lia|].
Qed.

Lemma split_sign_digits s : all_digits s -> split_sign s = (false, s).
Proof.
  destruct 1 as [|c s Hc _]; [done|]. unfold split_sign.
  destruct c as [|p|p]; try done.
  do 6 (destruct p as [p|p|]; try done); lia.
Qed.

Lemma split_sign_digit c s : 48 <= c <= 57 -> split_sign (c :: s) = (false, c :: s).
Proof.
  intros Hc. unfold split_sign. destruct c as [|p|p]; try done.
  do 6 (destruct p as [p|p|]; try done); lia.
Qed.

Lemma skip_space_digit c s : 48 <= c <= 57 -> skip_space (c :: s) = c :: s.
Proof.
  intros Hc. simpl. unfold is_space. rewrite in_range_out by lia. by destruct (Z.eqb_spec c 32); [lia|].
Qed.

Lemma strtoull_digits s : all_digits s -> s <> [] ->
  strtoull s = if ULLONG_MAX <? dec_value s then mk_strto ULLONG_MAX (length s) true
               else mk_strto (dec_value s) (length s) false.
Proof.
  intros Hs Hne. unfold strtoull.
  rewrite skip_space_digits, split_sign_digits, take_digits_all by done.
  rewrite Nat.sub_diag. destruct s as [|c s]; [done|].
  destruct (Z.ltb_spec ULLONG_MAX (dec_value (c :: s))); [done|].
  rewrite wrapu_small; [done|]. unfold ULLONG_MAX in *.
  pose proof (dec_value_nonneg _ Hs). lia.
Qed.

Lemma strtoll_minus_digits s : all_digits s -> s <> [] ->
  strtoll (45 :: s) = if - dec_value s <? LLONG_MIN then mk_strto LLONG_MIN (S (length s)) true
                      else mk_strto (- dec_value s) (S (length s)) false.
Proof.
  intros Hs Hne. unfold strtoll. simpl skip_space. simpl split_sign. cbv beta iota.
  rewrite take_digits_all by done.
  replace (length (45%Z :: s) - length s + length s)%nat with (S (length s)) by (simpl; lia).
  destruct s as [|c s]; [done|]. pose proof (dec_value_nonneg _ Hs).
  destruct (Z.ltb_spec LLONG_MAX (- dec_value (c :: s))); [unfold LLONG_MAX in *; lia|done].
Qed.

(** ** [to_dec] *)

Lemma to_dec_aux_app fuel : forall n acc, to_dec_aux fuel n acc = to_dec_aux fuel n [] ++ acc.
Proof.
  induction fuel as [|f IH]; intros n acc; [done|]. simpl.
  destruct (n <? 10); [done|]. rewrite IH, (IH _ [_]). by rewrite <- app_assoc.
Qed.

Lemma to_dec_fuel_step n : 10 <= n ->
  (S (Z.to_nat (Z.log2 (n / 10))) <= Z.to_nat (Z.log2 n))%nat.
Proof.
  intros Hn. assert (Z.log2 (n / 10) < Z.log2 n); [|pose proof (Z.log2_nonneg (n / 10)); lia].
  assert (0 < n / 10) by (apply Z.div_str_pos; lia).
  apply Z.log2_lt_pow2; [done|].
  pose proof (Z.log2_spec n ltac:(lia)) as [_ Hlog].
  replace (2 ^ Z.succ (Z.log2 n)) with (2 * 2 ^ Z.log2 n) in Hlog
    by (rewrite Z.pow_succ_r by apply Z.log2_nonneg; lia).
  apply Z.div_lt_upper_bound; lia.
Qed.

Lemma to_dec_aux_fuel f1 : forall f2 n acc, 0 <= n ->
  (S (Z.to_nat (Z.log2 n)) <= f1)%nat -> (S (Z.to_nat (Z.log2 n)) <= f2)%nat ->
  to_dec_aux f1 n acc = to_dec_aux f2 n acc.
Proof.
  induction f1 as [|f1 IH]; intros f2 n acc Hn H1 H2; [lia|].
  destruct f2 as [|f2]; [lia|]. simpl. destruct (Z.ltb_spec n 10); [done|].
  pose proof (to_dec_fuel_step n ltac:(lia)).
  apply IH; [apply Z.div_pos; lia|lia..].
Qed.

Lemma to_dec_small n : 0 <= n < 10 -> to_dec n = [48 + n].
Proof.
  intros. unfold to_dec. simpl. destruct (Z.ltb_spec n 10); [|lia].
  by rewrite Z.mod_small by lia.
Qed.

Lemma to_dec_step n : 10 <= n -> to_dec n = to_dec (n / 10) ++ [48 + n mod 10].
Proof.
  intros. unfold to_dec at 1. simpl. destruct (Z.ltb_spec n 10); [lia|].
  rewrite to_dec_aux_app. f_equal. unfold to_dec.
  pose proof (to_dec_fuel_step n ltac:(lia)).
  apply to_dec_aux_fuel; [apply Z.div_pos; lia|lia..].
Qed.

(** Induction over the decimal digits of a number. *)
Lemma dec_ind (P : Z -> Prop) :
  (forall n, 0 <= n < 10 -> P n) ->
  (forall n, 10 <= n -> P (n / 10) -> P n) ->
  forall n, 0 <= n -> P n.
Proof.
  intros H0 HS n. pattern n. apply (well_founded_induction (Z.lt_wf 0)).
  intros m IH Hm. destruct (Z_lt_ge_dec m 10); [apply H0; lia|].
  apply HS; [lia|]. apply IH; [|apply Z.div_pos; lia].
  split; [apply Z.div_pos; lia|apply Z.div_lt; lia].
Qed.

Lemma to_dec_digits n : 0 <= n -> all_digits (to_dec n).
Proof.
  revert n. apply dec_ind; intros n H.
  - rewrite to_dec_small by done. repeat constructor; lia.
  - intros IH. rewrite to_dec_step by done. apply Forall_app. split; [done|].
    pose proof (Z.mod_pos_bound n 10 ltac:(lia)). repeat constructor; lia.
Qed.

Lemma to_dec_nonempty n : 0 <= n -> to_dec n <> [].
Proof.
  intros Hn. destruct (Z_lt_ge_dec n 10).
  - by rewrite to_dec_small by lia.
  - rewrite to_dec_step by lia. by destruct (to_dec (n / 10)).
Qed.

Lemma dec_value_to_dec n : 0 <= n -> dec_value (to_dec n) = n.
Proof.
  revert n. apply dec_ind; intros n H.
  - rewrite to_dec_small by done. unfold dec_value. simpl. lia.
  - intros IH. rewrite to_dec_step, dec_value_snoc, IH by done.
    pose proof (Z.div_mod n 10 ltac:(lia)). lia.
Qed.

(** The first digit is not a zero, except in ["0"] itself. *)
Lemma to_dec_head n : 0 < n -> exists d ds, to_dec n = d :: ds /\ 49 <= d <= 57 /\ all_digits ds.
Proof.
  intros Hn. assert (0 <= n) as Hn' by lia. revert Hn. revert n Hn'.
  apply (dec_ind (fun n => 0 < n -> _)); intros n H.
  - intros. rewrite to_dec_small by done. exists (48 + n), []. repeat split; [lia..|constructor].
  - intros IH _. destruct IH as (d & ds & E & Hd & Hds).
    { apply Z.div_str_pos. lia. }
    rewrite to_dec_step, E by done. exists d, (ds ++ [48 + n mod 10]).
    repeat split; [lia..|]. apply Forall_app. split; [done|].
    pose proof (Z.mod_pos_bound n 10 ltac:(lia)). repeat constructor; lia.
Qed.

Lemma to_dec_length n k : 0 <= n < 10 ^ Z.of_nat (S k) -> (length (to_dec n) <= S k)%nat.
Proof.
  revert n. induction k as [|k IH]; intros n Hn.
  - rewrite to_dec_small by lia. simpl. lia.
  - destruct (Z_lt_ge_dec n 10); [rewrite to_dec_small by lia; simpl; lia|].
    rewrite to_dec_step, length_app by lia. simpl.
    assert (length (to_dec (n / 10)) <= S k)%nat; [|lia]. apply IH.
    split; [apply Z.div_pos; lia|]. apply Z.div_lt_upper_bound; [lia|].
    rewrite (Nat2Z.inj_succ (S k)), Z.pow_succ_r in Hn by lia. lia.
Qed.
