(* ===== verification/Utf8.v ===== *)
(** UTF-8 as the JSON library treats it: the encoder the lexer uses for
    [\u] escapes ([lexer::scan_string]), the specification "a string is the
    concatenation of the encodings of Unicode scalar values", and the bit
    arithmetic the decoder and the encoder share. *)
From S2P Require Import Prelude.

(** ** Specification *)

(** Unicode scalar values: code points without the surrogates. *)
Definition is_scalar (cp : Z) : Prop := 0 <= cp <= 0xD7FF \/ 0xE000 <= cp <= 0x10FFFF.

(** Encoding of a code point, by arithmetic. *)
Definition utf8_encode (cp : Z) : bytes :=
  if cp <? 0x80 then [cp]
  else if cp <=? 0x7FF then [0xC0 + cp / 64; 0x80 + cp mod 64]
  else if cp <=? 0xFFFF then [0xE0 + cp / 4096; 0x80 + cp / 64 mod 64; 0x80 + cp mod 64]
  else [0xF0 + cp / 262144; 0x80 + cp / 4096 mod 64; 0x80 + cp / 64 mod 64; 0x80 + cp mod 64].

Definition utf8_encode_all (cps : list Z) : bytes := flat_map utf8_encode cps.

Definition utf8_valid (s : bytes) : Prop :=
  exists cps, Forall is_scalar cps /\ s = utf8_encode_all cps.

(** ** The encoder of the lexer

    The bytes [add]ed for a code point after a [\u] escape; [add] converts
    each to a [char]. *)
Definition codepoint_bytes (codepoint : Z) : bytes :=
  if codepoint <? 0x80 then [codepoint]
  else if codepoint <=? 0x7FF then
    [Z.lor 0xC0 (Z.shiftr codepoint 6); Z.lor 0x80 (Z.land codepoint 0x3F)]
  else if codepoint <=? 0xFFFF then
    [Z.lor 0xE0 (Z.shiftr codepoint 12);
     Z.lor 0x80 (Z.land (Z.shiftr codepoint 6) 0x3F);
     Z.lor 0x80 (Z.land codepoint 0x3F)]
  else
    [Z.lor 0xF0 (Z.shiftr codepoint 18);
     Z.lor 0x80 (Z.land (Z.shiftr codepoint 12) 0x3F);
     Z.lor 0x80 (Z.land (Z.shiftr codepoint 6) 0x3F);
     Z.lor 0x80 (Z.land codepoint 0x3F)].

(** ** Bits *)

Lemma lor_disjoint k n b : 0 <= n -> 0 <= b < 2 ^ n -> Z.lor (k * 2 ^ n) b = k * 2 ^ n + b.
Proof.
  intros Hn Hb. rewrite <- Z.shiftl_mul_pow2 by done.
  assert (Z.land (Z.shiftl k n) b = 0) as E.
  { apply Z.bits_inj'. intros i Hi. rewrite Z.land_spec, Z.bits_0.
    destruct (Z_lt_ge_dec i n).
    - by rewrite Z.shiftl_spec_low.
    - replace b with (b mod 2 ^ n) by (apply Z.mod_small; lia).
      rewrite Z.mod_pow2_bits_high, andb_false_r by lia. done. }
  rewrite <- Z.lxor_lor, <- Z.add_nocarry_lxor by done. done.
Qed.

Lemma lor_C0 b : 0 <= b < 32 -> Z.lor 0xC0 b = 0xC0 + b.
Proof. intros. by apply (lor_disjoint 6 5). Qed.
Lemma lor_E0 b : 0 <= b < 16 -> Z.lor 0xE0 b = 0xE0 + b.
Proof. intros. apply (lor_disjoint 7 5); lia. Qed.
Lemma lor_F0 b : 0 <= b < 8 -> Z.lor 0xF0 b = 0xF0 + b.
Proof. intros. apply (lor_disjoint 15 4); lia. Qed.
Lemma lor_80 b : 0 <= b < 64 -> Z.lor 0x80 b = 0x80 + b.
Proof. intros. apply (lor_disjoint 1 7); lia. Qed.
Lemma land_3F b : Z.land b 0x3F = b mod 64.
Proof. apply (Z.land_ones b 6). lia. Qed.
Lemma shiftr_div b n : 0 <= n -> Z.shiftr b n = b / 2 ^ n.
Proof. apply Z.shiftr_div_pow2. Qed.

(** The encoder of the lexer is UTF-8. *)
Lemma codepoint_bytes_encode cp : 0 <= cp <= 0x10FFFF -> codepoint_bytes cp = utf8_encode cp.
Proof.
  intros Hcp. unfold codepoint_bytes, utf8_encode.
  rewrite !land_3F, !shiftr_div by lia.
  change (2 ^ 6) with 64. change (2 ^ 12) with 4096. change (2 ^ 18) with 262144.
  pose proof (Z.mod_pos_bound cp 64). pose proof (Z.mod_pos_bound (cp / 64) 64).
  pose proof (Z.mod_pos_bound (cp / 4096) 64).
  destruct (Z.ltb_spec cp 0x80); [done|].
  destruct (Z.leb_spec cp 0x7FF); [|destruct (Z.leb_spec cp 0xFFFF)];
    rewrite ?lor_80, ?lor_C0, ?lor_E0, ?lor_F0 by
      (first [lia | split; [apply Z.div_pos; lia | apply Z.div_lt_upper_bound; lia]]); done.
Qed.

Lemma utf8_encode_bytes cp : is_scalar cp -> Forall is_byte (utf8_encode cp).
Proof.
  intros H. unfold utf8_encode, is_byte.
  assert (0 <= cp <= 0x10FFFF) by (destruct H; lia).
  pose proof (Z.mod_pos_bound cp 64). pose proof (Z.mod_pos_bound (cp / 64) 64).
  pose proof (Z.mod_pos_bound (cp / 4096) 64).
  zcases; repeat constructor; dlia.
Qed.

Lemma utf8_encode_nonempty cp : utf8_encode cp <> [].
Proof. unfold utf8_encode. by zcases. Qed.

(** ** Algebra of [utf8_valid] *)

Lemma utf8_encode_all_app a b : utf8_encode_all (a ++ b) = utf8_encode_all a ++ utf8_encode_all b.
Proof. apply flat_map_app. Qed.

Lemma utf8_valid_nil : utf8_valid [].
Proof. by exists []. Qed.

Lemma utf8_valid_app a b : utf8_valid a -> utf8_valid b -> utf8_valid (a ++ b).
Proof.
  intros (ca & Ha & ->) (cb & Hb & ->). exists (ca ++ cb).
  rewrite utf8_encode_all_app. split; [by apply Forall_app|done].
Qed.

Lemma utf8_valid_encode cp : is_scalar cp -> utf8_valid (utf8_encode cp).
Proof. intros. exists [cp]. split; [by constructor|]. simpl. by rewrite app_nil_r. Qed.

Lemma utf8_valid_ascii c : 0 <= c < 0x80 -> utf8_valid [c].
Proof.
  intros. replace [c] with (utf8_encode c).
  - apply utf8_valid_encode. left. lia.
  - unfold utf8_encode. destruct (Z.ltb_spec c 0x80); [done|lia].
Qed.

Lemma utf8_valid_bytes s : utf8_valid s -> Forall is_byte s.
Proof.
  intros (cps & H & ->). induction H; simpl; [constructor|].
  apply Forall_app. eauto using utf8_encode_bytes.
Qed.

(** Well-formed multi-byte sequences (Unicode Table 3-7) are encodings. *)
Lemma utf8_valid_2 a b : in_range 0xC2 0xDF a = true -> in_range 0x80 0xBF b = true ->
  utf8_valid [a; b].
Proof.
  rewrite !in_range_spec. intros Ha Hb. set (cp := (a - 0xC0) * 64 + (b - 0x80)).
  replace [a; b] with (utf8_encode cp).
  - apply utf8_valid_encode. left. lia.
  - unfold utf8_encode. destruct (Z.ltb_spec cp 0x80); [lia|].
    destruct (Z.leb_spec cp 0x7FF); [|lia].
    unfold cp in *. f_equal; [|f_equal]; dlia.
Qed.

Lemma utf8_valid_3 a b c : in_range 0xE0 0xEF a = true -> in_range 0x80 0xBF b = true ->
  in_range 0x80 0xBF c = true -> (a = 0xE0 -> 0xA0 <= b) -> (a = 0xED -> b <= 0x9F) ->
  utf8_valid [a; b; c].
Proof.
  rewrite !in_range_spec. intros Ha Hb Hc H1 H2.
  set (cp := (a - 0xE0) * 4096 + (b - 0x80) * 64 + (c - 0x80)).
  replace [a; b; c] with (utf8_encode cp).
  - apply utf8_valid_encode. unfold is_scalar, cp. lia.
  - unfold utf8_encode. destruct (Z.ltb_spec cp 0x80); [lia|].
    destruct (Z.leb_spec cp 0x7FF); [lia|]. destruct (Z.leb_spec cp 0xFFFF); [|lia].
    unfold cp in *. clear H1 H2. f_equal; [|f_equal; [|f_equal]]; dlia.
Qed.

Lemma utf8_valid_4 a b c d : in_range 0xF0 0xF4 a = true -> in_range 0x80 0xBF b = true ->
  in_range 0x80 0xBF c = true -> in_range 0x80 0xBF d = true ->
  (a = 0xF0 -> 0x90 <= b) -> (a = 0xF4 -> b <= 0x8F) -> utf8_valid [a; b; c; d].
Proof.
  rewrite !in_range_spec. intros Ha Hb Hc Hd H1 H2.
  set (cp := (a - 0xF0) * 262144 + (b - 0x80) * 4096 + (c - 0x80) * 64 + (d - 0x80)).
  replace [a; b; c; d] with (utf8_encode cp).
  - apply utf8_valid_encode. unfold is_scalar, cp. lia.
  - unfold utf8_encode. destruct (Z.ltb_spec cp 0x80); [lia|].
    destruct (Z.leb_spec cp 0x7FF); [lia|]. destruct (Z.leb_spec cp 0xFFFF); [lia|].
    unfold cp in *. clear H1 H2. f_equal; [|f_equal; [|f_equal; [|f_equal]]]; dlia.
Qed.

(** Shape of an encoding: what a decoder sees. *)
Inductive utf8_shape : bytes -> Prop :=
  | shape_1 c : 0 <= c < 0x80 -> utf8_shape [c]
  | shape_2 a b : 0xC2 <= a <= 0xDF -> 0x80 <= b <= 0xBF -> utf8_shape [a; b]
  | shape_3 a b c : 0xE0 <= a <= 0xEF -> 0x80 <= b <= 0xBF -> 0x80 <= c <= 0xBF ->
      (a = 0xE0 -> 0xA0 <= b) -> (a = 0xED -> b <= 0x9F) -> utf8_shape [a; b; c]
  | shape_4 a b c d : 0xF0 <= a <= 0xF4 -> 0x80 <= b <= 0xBF -> 0x80 <= c <= 0xBF ->
      0x80 <= d <= 0xBF -> (a = 0xF0 -> 0x90 <= b) -> (a = 0xF4 -> b <= 0x8F) ->
      utf8_shape [a; b; c; d].

Lemma utf8_encode_shape cp : is_scalar cp -> utf8_shape (utf8_encode cp).
Proof.
  intros H. unfold is_scalar in H. unfold utf8_encode.
  zcases; constructor; dlia.
Qed.

Create HintDb utf8.
#[export] Hint Resolve utf8_valid_nil utf8_valid_app utf8_valid_encode utf8_valid_ascii
  utf8_valid_2 utf8_valid_3 utf8_valid_4 : utf8.
