(* ===== verification/JsonValue.v ===== *)
(** The JSON value ([basic_json] of [src/libephmem/json.hpp]): its tagged
    union, the object map ([std::map] with keys in lexicographic order),
    references into a value (as paths), and the element access operators the
    parser, [json_pointer] and [libephmem] use.

    Numbers are kept at their width by the code that creates them
    ([wf_json]); a [double] is a value of a type parameter [F]. *)
From S2P Require Import Prelude Utf8.

(** [value_t] with the payload of [m_data.m_value].  [F] is
    [number_float_t]. *)
Inductive json (F : Type) : Type :=
  | value_null
  | value_object (m : list (bytes * json F))
  | value_array (l : list (json F))
  | value_string (s : bytes)
  | value_boolean (b : bool)
  | value_number_integer (z : Z)
  | value_number_unsigned (z : Z)
  | value_number_float (f : F)
  | value_binary (b : bytes) (subtype : option Z)
  | value_discarded.
Arguments value_null {F}.
Arguments value_object {F} _.
Arguments value_array {F} _.
Arguments value_string {F} _.
Arguments value_boolean {F} _.
Arguments value_number_integer {F} _.
Arguments value_number_unsigned {F} _.
Arguments value_number_float {F} _.
Arguments value_binary {F} _ _.
Arguments value_discarded {F}.

(** What the parser and the serializer use of [double]: [strtod] of the
    scanned text, [std::isfinite], and [detail::to_chars], which writes a
    finite number to the start of a buffer and returns where it ends. *)
Class FloatOps (F : Type) := {
  float_zero : F;
  strtod : bytes -> F;
  isfinite : F -> bool;
  to_chars : F -> bytes -> comp (bytes * nat)
}.

(** A concrete number type for the examples: a floating-point literal is
    represented by the number of its characters, and the long ones are not
    finite. *)
Definition example_floats : FloatOps Z := {|
  float_zero := 0;
  strtod b := Z.of_nat (length b);
  isfinite f := f <? 300;
  to_chars f buf := Ret ([48; 46; 48] ++ drop 3 buf, 3%nat)
|}.

Section Value.
Context {F : Type}.
Implicit Types (j v : json F) (m : list (bytes * json F)) (l : list (json F)).

(** Induction with hypotheses for the elements of arrays and objects. *)
Fixpoint json_ind' (P : json F -> Prop)
    (Hnull : P value_null)
    (Hobj : forall m, Forall (fun kv => P kv.2) m -> P (value_object m))
    (Harr : forall l, Forall P l -> P (value_array l))
    (Hstr : forall s, P (value_string s)) (Hbool : forall b, P (value_boolean b))
    (Hint : forall z, P (value_number_integer z))
    (Huns : forall z, P (value_number_unsigned z))
    (Hflt : forall f, P (value_number_float f))
    (Hbin : forall b t, P (value_binary b t)) (Hdis : P value_discarded) j : P j :=
  let rec := json_ind' P Hnull Hobj Harr Hstr Hbool Hint Huns Hflt Hbin Hdis in
  match j with
  | value_null => Hnull
  | value_object m => Hobj m
      ((fix go m : Forall (fun kv => P kv.2) m :=
          match m with
          | [] => Forall_nil_2 _
          | kv :: m' => Forall_cons_2 _ kv m' (rec kv.2) (go m')
          end) m)
  | value_array l => Harr l
      ((fix go l : Forall P l :=
          match l with
          | [] => Forall_nil_2 _
          | v :: l' => Forall_cons_2 _ v l' (rec v) (go l')
          end) l)
  | value_string s => Hstr s
  | value_boolean b => Hbool b
  | value_number_integer z => Hint z
  | value_number_unsigned z => Huns z
  | value_number_float f => Hflt f
  | value_binary b t => Hbin b t
  | value_discarded => Hdis
  end.

(** ** Type queries *)

Definition is_null j : bool := match j with value_null => true | _ => false end.
Definition is_object j : bool := match j with value_object _ => true | _ => false end.
Definition is_array j : bool := match j with value_array _ => true | _ => false end.
Definition is_string j : bool := match j with value_string _ => true | _ => false end.
Definition is_boolean j : bool := match j with value_boolean _ => true | _ => false end.
Definition is_number_unsigned j : bool :=
  match j with value_number_unsigned _ => true | _ => false end.
Definition is_number_float j : bool :=
  match j with value_number_float _ => true | _ => false end.
Definition is_number_integer j : bool :=
  match j with value_number_integer _ | value_number_unsigned _ => true | _ => false end.
Definition is_number j : bool := is_number_integer j || is_number_float j.
Definition is_binary j : bool := match j with value_binary _ _ => true | _ => false end.
Definition is_discarded j : bool := match j with value_discarded => true | _ => false end.
Definition is_primitive j : bool :=
  is_null j || is_string j || is_boolean j || is_number j || is_binary j.
Definition is_structured j : bool := is_array j || is_object j.

(** ** Objects: [std::map<std::string, basic_json, std::less<>>] *)

(** [operator<] of [std::string]. *)
Fixpoint key_ltb (a b : bytes) : bool :=
  match a, b with
  | _, [] => false
  | [], _ :: _ => true
  | x :: a', y :: b' => if x <? y then true else if y <? x then false else key_ltb a' b'
  end.

Definition key_lt (a b : bytes) : Prop := key_ltb a b = true.

(** [map::find] *)
Fixpoint object_find (k : bytes) m : option (json F) :=
  match m with
  | [] => None
  | (k', v) :: m' => if decide (k = k') then Some v else object_find k m'
  end.

(** [map::emplace]: inserts at the position of the key unless it is present. *)
Fixpoint object_emplace (k : bytes) v m : list (bytes * json F) :=
  match m with
  | [] => [(k, v)]
  | (k', v') :: m' =>
      if decide (k = k') then m
      else if key_ltb k k' then (k, v) :: m
      else (k', v') :: object_emplace k v m'
  end.

(** Assignment through a reference to the mapped value of a present key. *)
Fixpoint object_alter (f : json F -> json F) (k : bytes) m : list (bytes * json F) :=
  match m with
  | [] => []
  | (k', v) :: m' =>
      if decide (k = k') then (k', f v) :: m' else (k', v) :: object_alter f k m'
  end.

(** [basic_json::find] followed by the test against [end()]. *)
Definition find j (k : bytes) : option (json F) :=
  match j with value_object m => object_find k m | _ => None end.

(** [basic_json(initializer_list_t, true, value_t::array)]: an object when
    every element is an array of two whose first element is a string,
    otherwise an array. *)
Definition is_pair j : bool :=
  match j with value_array [value_string _; _] => true | _ => false end.

Definition of_initializer_list (init : list (json F)) : json F :=
  if forallb is_pair init then
    value_object (fold_left (fun m e =>
      match e with
      | value_array [value_string k; v] => object_emplace k v m
      | _ => m
      end) init [])
  else value_array init.

(** ** References

    A C++ reference into a value is the path to the element. *)
Inductive pstep := PIdx (i : nat) | PKey (k : bytes).

Definition step_get j (p : pstep) : option (json F) :=
  match p, j with
  | PIdx i, value_array l => l !! i
  | PKey k, value_object m => object_find k m
  | _, _ => None
  end.

Definition step_alter (f : json F -> json F) j (p : pstep) : json F :=
  match p, j with
  | PIdx i, value_array l => value_array (alter f i l)
  | PKey k, value_object m => value_object (object_alter f k m)
  | _, _ => j
  end.

Fixpoint path_get j (p : list pstep) : option (json F) :=
  match p with
  | [] => Some j
  | s :: p' => match step_get j s with Some v => path_get v p' | None => None end
  end.

Fixpoint path_alter (f : json F -> json F) j (p : list pstep) {struct p} : json F :=
  match p with
  | [] => f j
  | s :: p' => step_alter (fun v => path_alter f v p') j s
  end.

(** [operator[](key)]: the modified value; the reference is the key. *)
Definition index_key j (k : bytes) : comp (json F) :=
  match j with
  | value_null => Ret (value_object [(k, value_null)])
  | value_object m => Ret (value_object (object_emplace k value_null m))
  | _ => Throw (type_error 305)
  end.

(** [operator[](size_type)]: null becomes an array, an array is filled up
    with nulls to the index. *)
Definition index_idx j (i : nat) : comp (json F) :=
  match j with
  | value_null => Ret (value_array (replicate (S i) value_null))
  | value_array l => Ret (value_array (l ++ replicate (S i - length l) value_null))
  | _ => Throw (type_error 305)
  end.

(** ** The key order *)

Lemma key_ltb_irrefl a : key_ltb a a = false.
Proof. induction a as [|x a IH]; simpl; [done|]. by rewrite Z.ltb_irrefl. Qed.

Lemma key_lt_trans a b c : key_lt a b -> key_lt b c -> key_lt a c.
Proof.
  unfold key_lt. revert b c. induction a as [|x a IH]; intros [|y b] [|z c]; simpl; try done.
  destruct (Z.ltb_spec x y), (Z.ltb_spec y x), (Z.ltb_spec y z), (Z.ltb_spec z y),
    (Z.ltb_spec x z), (Z.ltb_spec z x); try done; try lia. apply IH.
Qed.

Lemma key_ltb_total a b : a <> b -> key_ltb a b = false -> key_lt b a.
Proof.
  unfold key_lt. revert b. induction a as [|x a IH]; intros [|y b]; simpl; try done.
  intros Hne. destruct (Z.ltb_spec x y), (Z.ltb_spec y x); try done; try lia.
  intros. apply IH; [|done]. intros ->. destruct Hne. f_equal. lia.
Qed.

Lemma key_lt_ne a b : key_lt a b -> a <> b.
Proof. unfold key_lt. intros H ->. by rewrite key_ltb_irrefl in H. Qed.

(** ** Objects stay sorted *)

Definition keys m : list bytes := map fst m.
Definition sorted_object m : Prop := StronglySorted key_lt (keys m).

Lemma object_find_not_in k m : k ∉ keys m -> object_find k m = None.
Proof.
  induction m as [|[k' v] m IH]; simpl; [done|]. intros H.
  apply not_elem_of_cons in H as [H1 H2]. rewrite decide_False by done. auto.
Qed.

Lemma object_emplace_keys k v m k' :
  k' ∈ keys (object_emplace k v m) -> k' = k \/ k' ∈ keys m.
Proof.
  induction m as [|[k1 v1] m IH]; simpl.
  - rewrite list_elem_of_singleton. auto.
  - repeat case_match; simpl; rewrite ?elem_of_cons; naive_solver.
Qed.

Lemma object_emplace_sorted k v m : sorted_object m -> sorted_object (object_emplace k v m).
Proof.
  unfold sorted_object. induction m as [|[k1 v1] m IH]; simpl; intros H.
  - repeat constructor.
  - inversion H as [|? ? Hs Hall]; subst. destruct (decide (k = k1)) as [->|Hne]; [done|].
    destruct (key_ltb k k1) eqn:E; simpl.
    + constructor; [done|]. constructor; [done|].
      eapply Forall_impl; [exact Hall|]. intros. by eapply key_lt_trans.
    + constructor; [auto|]. apply Forall_forall. intros k2 Hk2.
      apply object_emplace_keys in Hk2 as [->|Hk2].
      * by apply key_ltb_total.
      * rewrite Forall_forall in Hall. auto.
Qed.

Lemma object_emplace_find k v m :
  object_find k (object_emplace k v m) =
    Some (match object_find k m with Some v' => v' | None => v end)
  \/ ~ sorted_object m.
Proof.
  induction m as [|[k1 v1] m IH]; simpl.
  - left. by rewrite decide_True.
  - destruct (decide (k = k1)) as [->|Hne].
    + left. simpl. by rewrite !decide_True.
    + destruct (key_ltb k k1) eqn:E; simpl.
      * destruct (object_find k m) eqn:Ef; [|left; by rewrite decide_True].
        right. intros Hs. inversion Hs as [|? ? Hs' Hall]; subst.
        rewrite object_find_not_in in Ef; [done|]. intros Hin.
        rewrite Forall_forall in Hall. specialize (Hall _ Hin).
        eapply key_lt_trans in Hall; [|exact E]. by apply key_lt_ne in Hall.
      * rewrite decide_False by done. destruct IH as [IH|IH]; [by left|right].
        intros Hs. apply IH. by inversion Hs.
Qed.

Lemma object_alter_keys f k m : keys (object_alter f k m) = keys m.
Proof.
  induction m as [|[k1 v1] m IH]; simpl; [done|]. case_decide; simpl; congruence.
Qed.

Lemma object_alter_sorted f k m : sorted_object m -> sorted_object (object_alter f k m).
Proof. unfold sorted_object. by rewrite object_alter_keys. Qed.

Lemma object_find_alter f k m : object_find k (object_alter f k m) = f <$> object_find k m.
Proof.
  induction m as [|[k1 v1] m IH]; simpl; [done|]. case_decide; simpl; case_decide; done.
Qed.

Lemma object_alter_alter f g k m :
  object_alter f k (object_alter g k m) = object_alter (fun v => f (g v)) k m.
Proof.
  induction m as [|[k1 v1] m IH]; simpl; [done|]. case_decide; simpl; case_decide; congruence.
Qed.

Lemma object_alter_ext f g k m : (forall v, object_find k m = Some v -> f v = g v) ->
  object_alter f k m = object_alter g k m.
Proof.
  induction m as [|[k1 v1] m IH]; simpl; [done|]. intros Hfg.
  case_decide; f_equal; [by rewrite Hfg|auto].
Qed.

(** A key greater than all others goes to the end. *)
Lemma object_emplace_last k v m : Forall (fun k' => key_lt k' k) (keys m) ->
  object_emplace k v m = m ++ [(k, v)].
Proof.
  induction m as [|[k1 v1] m IH]; simpl; [done|]. intros H.
  inversion H as [|? ? H1 H2]; subst. rewrite decide_False by (intros ->; by apply key_lt_ne in H1).
  destruct (key_ltb k k1) eqn:E.
  - eapply key_lt_trans in E; [|exact H1]. by apply key_lt_ne in E.
  - by rewrite IH.
Qed.

Lemma object_alter_last f k v m : k ∉ keys m ->
  object_alter f k (m ++ [(k, v)]) = m ++ [(k, f v)].
Proof.
  induction m as [|[k1 v1] m IH]; simpl.
  - by rewrite decide_True.
  - intros H. apply not_elem_of_cons in H as [H1 H2].
    rewrite decide_False by done. by rewrite IH.
Qed.

Lemma object_find_last k v m : k ∉ keys m -> object_find k (m ++ [(k, v)]) = Some v.
Proof.
  induction m as [|[k1 v1] m IH]; simpl; intros H.
  - by rewrite decide_True.
  - apply not_elem_of_cons in H as [H1 H2]. rewrite decide_False by done. auto.
Qed.

(** ** Paths *)

Lemma path_get_app j p q : path_get j (p ++ q) =
  match path_get j p with Some v => path_get v q | None => None end.
Proof. revert j. induction p as [|s p IH]; intros j; simpl; [done|]. by destruct (step_get j s). Qed.

Lemma path_alter_app f j p q :
  path_alter f j (p ++ q) = path_alter (fun v => path_alter f v q) j p.
Proof.
  revert j. induction p as [|s p IH]; intros j; simpl; [done|].
  destruct s, j; simpl; try done; f_equal.
  - by apply list_alter_ext; auto.
  - by apply object_alter_ext; auto.
Qed.

Lemma step_get_alter f j s : step_get (step_alter f j s) s = f <$> step_get j s.
Proof.
  destruct s, j; simpl; try done.
  - by rewrite list_lookup_alter, decide_True.
  - apply object_find_alter.
Qed.

Lemma path_get_alter f j p : path_get (path_alter f j p) p = f <$> path_get j p.
Proof.
  revert j. induction p as [|s p IH]; intros j; simpl; [done|].
  rewrite step_get_alter. by destruct (step_get j s) as [v|]; simpl.
Qed.

Lemma path_alter_alter f g j p :
  path_alter f (path_alter g j p) p = path_alter (fun v => f (g v)) j p.
Proof.
  revert j. induction p as [|s p IH]; intros j; simpl; [done|].
  destruct s, j; simpl; try done; f_equal.
  - rewrite list_alter_alter. apply list_alter_ext; auto.
  - rewrite object_alter_alter. apply object_alter_ext. auto.
Qed.

Lemma path_alter_ext f g j p : (forall v, path_get j p = Some v -> f v = g v) ->
  path_alter f j p = path_alter g j p.
Proof.
  revert j. induction p as [|s p IH]; intros j H; simpl in *; [auto|].
  destruct s, j; simpl in *; try done; f_equal.
  - apply list_alter_ext; [|done]. intros v Hv. apply IH. by rewrite Hv in H.
  - apply object_alter_ext. intros v Hv. apply IH. by rewrite Hv in H.
Qed.

(** Storing what is there already. *)
Lemma path_alter_same j r v : path_get j r = Some v -> path_alter (fun _ => v) j r = j.
Proof.
  revert j. induction r as [|s r IH]; intros j; [by intros [= ->]|]. cbn [path_get path_alter].
  destruct (step_get j s) as [c|] eqn:E; [|done]. intros Hv. specialize (IH c Hv).
  destruct s as [i|k], j as [|m|l| | | | | | |]; try done; simpl in *; f_equal.
  - apply list_eq. intros i'. rewrite list_lookup_alter. case_decide; [|done]. subst. rewrite E. simpl. by rewrite IH.
  - clear -E IH. induction m as [|[k' v'] m IHm]; simpl in *; [done|].
    destruct (decide (k = k')) as [->|]; [|f_equal; by apply IHm]. injection E as ->. by rewrite IH.
Qed.

(** ** Well-formed values: what a parse produces and [dump] accepts *)

Inductive wf_json : json F -> Prop :=
  | wf_null : wf_json value_null
  | wf_object m : sorted_object m -> Forall (fun kv => utf8_valid kv.1) m ->
      Forall (fun kv => wf_json kv.2) m -> wf_json (value_object m)
  | wf_array l : Forall wf_json l -> wf_json (value_array l)
  | wf_string s : utf8_valid s -> wf_json (value_string s)
  | wf_boolean b : wf_json (value_boolean b)
  | wf_integer z : - 2 ^ 63 <= z < 2 ^ 63 -> wf_json (value_number_integer z)
  | wf_unsigned z : 0 <= z < 2 ^ 64 -> wf_json (value_number_unsigned z)
  | wf_float f : wf_json (value_number_float f).

(** The value the parser builds from the text of a value: a non-negative
    signed number is read back as an unsigned one, and a floating-point number
    that is not finite is written as null. *)
Fixpoint canonical `{FloatOps F} j : json F :=
  match j with
  | value_object m => value_object (map (fun kv => (kv.1, canonical kv.2)) m)
  | value_array l => value_array (map canonical l)
  | value_number_integer z => if z <? 0 then j else value_number_unsigned z
  | value_number_float f => if isfinite f then j else value_null
  | _ => j
  end.

(** ** [operator[]] *)

Lemma object_emplace_find_ne k k' v m : k' <> k -> object_find k' (object_emplace k v m) = object_find k' m.
Proof.
  intros Hne. induction m as [|[k1 v1] m IH]; simpl; [by rewrite decide_False|].
  destruct (decide (k = k1)) as [->|Hk]; [done|]. destruct (key_ltb k k1); simpl; [by rewrite decide_False|].
  case_decide; [done|]. apply IH.
Qed.

(** The members of an object in key order; other values have none. *)
Definition sorted_members j : Prop := match j with value_object m => sorted_object m | _ => True end.

(** [operator[]] with a key yields the member, created as null when it
    is absent; no other member changes and the keys stay sorted.  A null
    becomes an object; any other value throws [type_error.305]. *)
Theorem index_key_creates j k : sorted_members j ->
  match index_key j k with
  | Ret j' => is_object j' = true /\ sorted_members j' /\
      find j' k = Some (default value_null (find j k)) /\ forall k', k' <> k -> find j' k' = find j k'
  | Throw e => e = type_error 305 /\ is_null j = false /\ is_object j = false
  | OutOfFuel => False
  end.
Proof.
  intros Hs. destruct j as [|m| | | | | | | |]; simpl; try done.
  - split_and!; [done|repeat constructor|by rewrite decide_True|]. intros k' Hk. by rewrite decide_False.
  - split_and!; [done|by apply object_emplace_sorted| |intros; by apply object_emplace_find_ne].
    destruct (object_emplace_find k value_null m) as [->|Hn]; [|done]. by destruct (object_find k m).
Qed.

(** [operator[]] with an index yields the element; an index past the
    end first fills the array up with nulls, and a null becomes an array.
    The elements that were there stay, and any other value throws
    [type_error.305]. *)
Theorem index_idx_creates j i :
  match index_idx j i with
  | Ret j' => exists l l', (j = value_array l \/ (j = value_null /\ l = [])) /\ j' = value_array l' /\
      l' !! i = Some (default value_null (l !! i)) /\ length l' = Nat.max (length l) (S i) /\
      forall n, (n < length l)%nat -> l' !! n = l !! n
  | Throw e => e = type_error 305 /\ is_null j = false /\ is_array j = false
  | OutOfFuel => False
  end.
Proof.
  assert (forall l, (l ++ replicate (S i - length l) value_null) !! i = Some (default (@value_null F) (l !! i)) /\
    length (l ++ replicate (S i - length l) (@value_null F)) = Nat.max (length l) (S i)) as Hl.
  { intros l. rewrite length_app, length_replicate. split; [|lia].
    destruct (l !! i) as [v|] eqn:E; [by apply lookup_app_l_Some|].
    apply lookup_ge_None in E. rewrite lookup_app_r by done. apply lookup_replicate. split; [done|lia]. }
  destruct j as [| |l| | | | | | |]; simpl; try done.
  - exists [], (replicate (S i) value_null). destruct (Hl []) as [H1 H2]. simpl in H1, H2.
    split_and!; auto. intros; simpl in *; lia.
  - exists l. eexists. split_and!; [by left|reflexivity|apply (Hl l)..|]. intros. by apply lookup_app_l.
Qed.
End Value.

Lemma index_key_creates_witness :
  find (value_object [(str "a", value_boolean true); (str "b", @value_null Z)]) (str "b") = Some value_null.
Proof.
  apply (index_key_creates (value_object [(str "a", @value_boolean Z true)]) (str "b")).
  repeat constructor.
Defined.

Create HintDb json.
#[export] Hint Constructors wf_json : json.
#[export] Hint Resolve object_emplace_sorted object_alter_sorted : json.
