(* ===== verification/JsonCompare.v ===== *)
(** Comparison of values: [operator==], [operator<] and the operators made of
    them, and [detail::hash] ([src/libephmem/json.hpp], the C++17 versions),
    with the conversions between the number types they make. *)
From S2P Require Import Prelude JsonValue.

(** What the comparison uses of [double]: its own comparison, [std::isnan]
    and the conversions from the integer types. *)
Class FloatCompare (F : Type) := {
  float_eqb : F -> F -> bool;
  isnan : F -> bool;
  float_of_int : Z -> F;
  float_of_uint : Z -> F
}.

(** [operator<] of [double]. *)
Class FloatOrder (F : Type) := { float_ltb : F -> F -> bool }.

(** The example numbers compare as the integers they are. *)
Definition example_compare : FloatCompare Z := {|
  float_eqb := Z.eqb;
  isnan _ := false;
  float_of_int z := z;
  float_of_uint z := z
|}.

(** [static_cast<std::int64_t>] *)
Definition to_int64 (z : Z) : Z := to_signed 64 z.

(** [operator==] of [std::vector] and of [std::map]: equal sizes and equal
    elements. *)
Definition list_eqb {A} (f : A -> A -> bool) : list A -> list A -> bool :=
  fix go l k :=
    match l, k with
    | [], [] => true
    | x :: l, y :: k => f x y && go l k
    | _, _ => false
    end.

Section Compare.
Context {F : Type} `{FloatCompare F}.
Implicit Types (j : json F).

(** [operator==] of [byte_container_with_subtype]. *)
Definition binary_eqb (b1 : bytes) (t1 : option Z) (b2 : bytes) (t2 : option Z) : bool :=
  bool_decide (b1 = b2) && bool_decide (t1 = t2).

(** [JSON_IMPLEMENT_OPERATOR(==, true, false, false)] *)
Fixpoint json_eqb (lhs rhs : json F) : bool :=
  match lhs, rhs with
  | value_array l, value_array r => list_eqb json_eqb l r
  | value_object l, value_object r =>
      list_eqb (fun p q => bool_decide (p.1 = q.1) && json_eqb p.2 q.2) l r
  | value_null, value_null => true
  | value_string l, value_string r => bool_decide (l = r)
  | value_boolean l, value_boolean r => Bool.eqb l r
  | value_number_integer l, value_number_integer r => l =? r
  | value_number_unsigned l, value_number_unsigned r => l =? r
  | value_number_float l, value_number_float r => float_eqb l r
  | value_binary b1 t1, value_binary b2 t2 => binary_eqb b1 t1 b2 t2
  | value_number_integer l, value_number_float r => float_eqb (float_of_int l) r
  | value_number_float l, value_number_integer r => float_eqb l (float_of_int r)
  | value_number_unsigned l, value_number_float r => float_eqb (float_of_uint l) r
  | value_number_float l, value_number_unsigned r => float_eqb l (float_of_uint r)
  | value_number_unsigned l, value_number_integer r => to_int64 l =? r
  | value_number_integer l, value_number_unsigned r => l =? to_int64 r
  | _, _ => false
  end.

(** [compares_unordered]; the legacy mode is off. *)
Definition compares_unordered lhs rhs : bool :=
  (match lhs with value_number_float f => isnan f | _ => false end && is_number rhs) ||
  (match rhs with value_number_float f => isnan f | _ => false end && is_number lhs) ||
  (is_discarded lhs || is_discarded rhs).

(** [operator!=] *)
Definition json_neb lhs rhs : bool := if compares_unordered lhs rhs then false else negb (json_eqb lhs rhs).

(** ** Facts *)

Lemma list_eqb_Forall2 {A} (f : A -> A -> bool) l k :
  list_eqb f l k = true <-> Forall2 (fun x y => f x y = true) l k.
Proof.
  split.
  - revert k. induction l as [|x l IH]; intros [|y k]; simpl; try done; intros E.
    apply andb_true_iff in E as [E1 E2]. constructor; [done|by apply IH].
  - induction 1 as [|x y l k Hxy _ IH]; simpl; [done|]. by rewrite Hxy, IH.
Qed.

Lemma json_eqb_array l r :
  json_eqb (value_array l) (value_array r) = true <-> Forall2 (fun x y => json_eqb x y = true) l r.
Proof. apply list_eqb_Forall2. Qed.

Lemma json_eqb_object l r :
  json_eqb (value_object l) (value_object r) = true <->
  Forall2 (fun p q => p.1 = q.1 /\ json_eqb p.2 q.2 = true) l r.
Proof.
  simpl. rewrite list_eqb_Forall2. split; intros E; (eapply Forall2_impl; [exact E|]); intros p q.
  - intros Hpq. apply andb_true_iff in Hpq as [Hk Hv]. by apply bool_decide_eq_true in Hk.
  - intros [-> Hv]. apply andb_true_iff. split; [by apply bool_decide_eq_true|done].
Qed.

(** The elements of a self-equal container are self-equal. *)
Lemma json_eqb_array_refl l : json_eqb (value_array l) (value_array l) = true <->
  Forall (fun v => json_eqb v v = true) l.
Proof. rewrite json_eqb_array, Forall2_same_length_lookup, Forall_lookup. naive_solver. Qed.

Lemma json_eqb_object_refl m : json_eqb (value_object m) (value_object m) = true <->
  Forall (fun kv => json_eqb kv.2 kv.2 = true) m.
Proof. rewrite json_eqb_object, Forall2_same_length_lookup, Forall_lookup. naive_solver. Qed.

(** Values that hold neither a number that differs from itself nor a
    discarded value are equal to themselves. *)
Definition ordinary (j : json F) : Prop := json_eqb j j = true.

(** A number converted to [std::int64_t] by the comparison is changed when it
    does not fit: two different integers compare equal. *)
Example big_unsigned_equals_negative :
  json_eqb (value_number_unsigned (2 ^ 64 - 1)) (value_number_integer (-1)) = true.
Proof. reflexivity. Qed.
End Compare.

(** ** The order *)

(** [order] of [operator<(value_t, value_t)]; [discarded] is not in it. *)
Definition type_order {F} (j : json F) : option Z :=
  match j with
  | value_null => Some 0
  | value_boolean _ => Some 1
  | value_number_integer _ | value_number_unsigned _ | value_number_float _ => Some 2
  | value_object _ => Some 3
  | value_array _ => Some 4
  | value_string _ => Some 5
  | value_binary _ _ => Some 6
  | value_discarded => None
  end.

Definition type_ltb {F} (lhs rhs : json F) : bool :=
  match type_order lhs, type_order rhs with
  | Some l, Some r => l <? r
  | _, _ => false
  end.

(** [lhs < rhs] and [rhs < lhs] at the same time, since
    [std::lexicographical_compare] asks for both. *)
Definition both {A} (ltb : A -> A -> bool) (x y : A) : bool * bool := (ltb x y, ltb y x).

(** The comparison [c] of the first elements, then [d] of the others. *)
Definition then_cmp (c d : bool * bool) : bool * bool :=
  (if c.1 then true else if c.2 then false else d.1, if c.2 then true else if c.1 then false else d.2).

Definition lex_cmp {A} (cmp : A -> A -> bool * bool) : list A -> list A -> bool * bool :=
  fix go l k :=
    match l, k with
    | [], [] => (false, false)
    | [], _ :: _ => (true, false)
    | _ :: _, [] => (false, true)
    | x :: l, y :: k => then_cmp (cmp x y) (go l k)
    end.

(** [operator<] of [std::pair]. *)
Definition pair_cmp {A} (cmp : A -> A -> bool * bool) (p q : bytes * A) : bool * bool :=
  then_cmp (both key_ltb p.1 q.1) (cmp p.2 q.2).

Section Order.
Context {F : Type} `{FloatCompare F, FloatOrder F}.
Implicit Types (j : json F).

(** [JSON_IMPLEMENT_OPERATOR(<, false, false, operator<(lhs_type, rhs_type))],
    in both directions.  [operator<] of the binary container is the one of
    [std::vector], which does not see the subtype. *)
Fixpoint json_cmp lhs rhs : bool * bool :=
  match lhs, rhs with
  | value_array l, value_array r => lex_cmp json_cmp l r
  | value_object l, value_object r => lex_cmp (pair_cmp json_cmp) l r
  | value_null, value_null => (false, false)
  | value_string l, value_string r => both key_ltb l r
  | value_boolean l, value_boolean r => both (fun a b => negb a && b) l r
  | value_number_integer l, value_number_integer r => both Z.ltb l r
  | value_number_unsigned l, value_number_unsigned r => both Z.ltb l r
  | value_number_float l, value_number_float r => both float_ltb l r
  | value_binary b1 _, value_binary b2 _ => both key_ltb b1 b2
  | value_discarded, value_discarded => (false, false)
  | value_number_integer l, value_number_float r => both float_ltb (float_of_int l) r
  | value_number_float l, value_number_integer r => both float_ltb l (float_of_int r)
  | value_number_unsigned l, value_number_float r => both float_ltb (float_of_uint l) r
  | value_number_float l, value_number_unsigned r => both float_ltb l (float_of_uint r)
  | value_number_unsigned l, value_number_integer r => both Z.ltb (to_int64 l) r
  | value_number_integer l, value_number_unsigned r => both Z.ltb l (to_int64 r)
  | _, _ => if compares_unordered lhs rhs then (false, false) else both type_ltb lhs rhs
  end.

(** [operator<], [<=], [>] and [>=] *)
Definition json_ltb lhs rhs : bool := (json_cmp lhs rhs).1.
Definition json_leb lhs rhs : bool := if compares_unordered lhs rhs then false else negb (json_ltb rhs lhs).
Definition json_gtb lhs rhs : bool := if compares_unordered lhs rhs then false else negb (json_leb lhs rhs).
Definition json_geb lhs rhs : bool := if compares_unordered lhs rhs then false else negb (json_ltb lhs rhs).

(** [std::lexicographical_compare] *)
Fixpoint lexicographical_compare {A} (ltb : A -> A -> bool) (l k : list A) : bool :=
  match l, k with
  | _, [] => false
  | [], _ :: _ => true
  | x :: l, y :: k => if ltb x y then true else if ltb y x then false else lexicographical_compare ltb l k
  end.

(** ** The order is the one of the source *)

Definition swap {A} (c : A * A) : A * A := (c.2, c.1).

Lemma then_cmp_swap c d : then_cmp (swap c) (swap d) = swap (then_cmp c d).
Proof. by destruct c as [[] []], d. Qed.

Lemma lex_cmp_swap {A} (cmp : A -> A -> bool * bool) l : Forall (fun x => forall y, cmp y x = swap (cmp x y)) l ->
  forall k, lex_cmp cmp k l = swap (lex_cmp cmp l k).
Proof.
  induction 1 as [|x l Hx _ IH]; intros [|y k]; try done. simpl. by rewrite Hx, IH, then_cmp_swap.
Qed.

Lemma compares_unordered_sym (x y : json F) : compares_unordered y x = compares_unordered x y.
Proof. unfold compares_unordered. rewrite (orb_comm (is_discarded y)). f_equal. apply orb_comm. Qed.

Lemma json_cmp_swap x : forall y, json_cmp y x = swap (json_cmp x y).
Proof.
  induction x as [|m IH|l IH| | | | | | |] using json_ind'; intros y; destruct y as [|m'|l'| | | | | | |];
    try reflexivity; try (cbn [json_cmp]; rewrite compares_unordered_sym; by destruct (compares_unordered _ _)).
  - apply lex_cmp_swap. eapply Forall_impl; [exact IH|]. intros p Hp q. unfold pair_cmp. rewrite <- then_cmp_swap.
    by rewrite Hp.
  - by apply lex_cmp_swap.
Qed.

Lemma json_cmp_both x y : json_cmp x y = both json_ltb x y.
Proof. unfold both, json_ltb. rewrite (json_cmp_swap x y). by destruct (json_cmp x y). Qed.

Lemma lex_cmp_lexicographical {A} (ltb : A -> A -> bool) (cmp : A -> A -> bool * bool) :
  (forall x y, cmp x y = both ltb x y) -> forall l k, (lex_cmp cmp l k).1 = lexicographical_compare ltb l k.
Proof. intros E. induction l as [|x l IH]; intros [|y k]; try done. simpl. by rewrite E, IH. Qed.

(** [operator<] on arrays and on objects is the lexicographical order of
    their elements, as [std::vector] and [std::map] have it. *)
Lemma json_ltb_array l k : json_ltb (value_array l) (value_array k) = lexicographical_compare json_ltb l k.
Proof. apply lex_cmp_lexicographical, json_cmp_both. Qed.

Definition pair_ltb (p q : bytes * json F) : bool :=
  key_ltb p.1 q.1 || (negb (key_ltb q.1 p.1) && json_ltb p.2 q.2).

Lemma json_ltb_object m n : json_ltb (value_object m) (value_object n) = lexicographical_compare pair_ltb m n.
Proof.
  apply lex_cmp_lexicographical. intros p q. unfold pair_cmp. rewrite json_cmp_both.
  unfold then_cmp, both, pair_ltb. simpl. by destruct (key_ltb p.1 q.1), (key_ltb q.1 p.1).
Qed.

(** ** It is a total order

    The values it is proved for: no floating-point numbers, integers that
    fit in [int64_t], no subtypes. *)
Inductive comparable : json F -> Prop :=
  | comparable_null : comparable value_null
  | comparable_boolean b : comparable (value_boolean b)
  | comparable_integer z : - 2 ^ 63 <= z < 2 ^ 63 -> comparable (value_number_integer z)
  | comparable_unsigned z : 0 <= z < 2 ^ 63 -> comparable (value_number_unsigned z)
  | comparable_string s : comparable (value_string s)
  | comparable_binary b : comparable (value_binary b None)
  | comparable_array l : Forall comparable l -> comparable (value_array l)
  | comparable_object m : Forall (fun kv => comparable kv.2) m -> comparable (value_object m).

(** A value as a word: the order of the words is the order of the values, and
    no word is the beginning of another. *)
Definition enc_bytes (s : bytes) : list Z := flat_map (fun c => [1; c]) s ++ [0].

Fixpoint enc j : list Z :=
  match j with
  | value_null => [0]
  | value_boolean b => [1; if b then 1 else 0]
  | value_number_integer z | value_number_unsigned z => [2; z]
  | value_object m => 3 :: flat_map (fun kv => 1 :: enc_bytes kv.1 ++ enc kv.2) m ++ [0]
  | value_array l => 4 :: flat_map (fun e => 1 :: enc e) l ++ [0]
  | value_string s => 5 :: enc_bytes s
  | value_binary b _ => 6 :: enc_bytes b
  | _ => [7]
  end.

Lemma both_cons a b s t : both key_ltb (a :: s) (b :: t) = then_cmp (both Z.ltb a b) (both key_ltb s t).
Proof. unfold both, then_cmp. simpl. by destruct (Z.ltb_spec a b), (Z.ltb_spec b a); try lia. Qed.

Lemma then_cmp_assoc c d e : then_cmp (then_cmp c d) e = then_cmp c (then_cmp d e).
Proof. by destruct c as [[] []], d as [[] []], e as [[] []]. Qed.

Lemma enc_bytes_cmp a : forall b s t,
  both key_ltb (enc_bytes a ++ s) (enc_bytes b ++ t) = then_cmp (both key_ltb a b) (both key_ltb s t).
Proof.
  induction a as [|x a IH]; intros [|y b] s t; unfold enc_bytes in *; cbn [flat_map app]; rewrite ?both_cons; try done.
  rewrite IH, then_cmp_assoc. done.
Qed.

(** How the words of two elements compare, in any context. *)
Definition enc_ok x y : Prop := forall s t,
  both key_ltb (enc x ++ s) (enc y ++ t) = then_cmp (json_cmp x y) (both key_ltb s t).

Lemma enc_list_cmp {A} (e : A -> list Z) (cmp : A -> A -> bool * bool) l :
  forall k, (forall x y, x ∈ l -> y ∈ k -> forall s t,
    both key_ltb (e x ++ s) (e y ++ t) = then_cmp (cmp x y) (both key_ltb s t)) ->
  forall s t, both key_ltb ((flat_map (fun x => 1 :: e x) l ++ [0]) ++ s) ((flat_map (fun x => 1 :: e x) k ++ [0]) ++ t) =
    then_cmp (lex_cmp cmp l k) (both key_ltb s t).
Proof.
  induction l as [|x l IH]; intros [|y k] Hok s t; cbn [flat_map app]; rewrite ?both_cons; try done.
  rewrite <- !app_assoc, Hok by apply list_elem_of_here.
  cbn [lex_cmp]. rewrite then_cmp_assoc. rewrite !app_assoc, IH; [done|].
  intros x' y' Hx Hy. apply Hok; by apply list_elem_of_further.
Qed.

Lemma enc_cmp x : comparable x -> forall y, comparable y -> enc_ok x y.
Proof.
  induction x as [|m IH|l IH| | | | | | |] using json_ind'; intros Hx y Hy; inversion Hx; subst; inversion Hy; subst;
    intros s' t'; cbn [enc app json_cmp]; try (rewrite !both_cons; done);
    try (unfold to_int64; rewrite to_signed_small by lia; rewrite !both_cons; done);
    try (rewrite both_cons; apply enc_bytes_cmp).
  - (* objects *)
    rewrite both_cons. apply (enc_list_cmp (fun kv => enc_bytes kv.1 ++ enc kv.2) (pair_cmp json_cmp)).
    intros p q Hp Hq s t. unfold pair_cmp. rewrite <- !app_assoc, enc_bytes_cmp, then_cmp_assoc. f_equal.
    rewrite Forall_forall in IH. match goal with H1 : Forall _ m, H2 : Forall _ m0 |- _ =>
      rewrite Forall_forall in H1; rewrite Forall_forall in H2; apply IH; [done|by apply H1|by apply H2] end.
  - rewrite both_cons. apply enc_list_cmp. intros p q Hp Hq.
    rewrite Forall_forall in IH. match goal with H1 : Forall _ l, H2 : Forall _ l0 |- _ =>
      rewrite Forall_forall in H1; rewrite Forall_forall in H2; apply IH; [done|by apply H1|by apply H2] end.
  - rewrite !both_cons. by repeat match goal with b : bool |- _ => destruct b end.
Qed.

Lemma then_cmp_false c d : then_cmp c d = (false, false) <-> c = (false, false) /\ d = (false, false).
Proof. destruct c as [[] []], d as [[] []]; simpl; naive_solver. Qed.

Lemma both_Z_false a b : both Z.ltb a b = (false, false) <-> a = b.
Proof.
  unfold both. destruct (Z.ltb_spec a b), (Z.ltb_spec b a); split; intros E; simplify_eq; try done; lia.
Qed.

Lemma both_key_false a b : both key_ltb a b = (false, false) <-> a = b.
Proof.
  unfold both. split; [|intros ->; by rewrite key_ltb_irrefl]. intros [= E1 E2].
  destruct (decide (a = b)) as [|Hne]; [done|]. apply key_ltb_total in E1; [|done]. unfold key_lt in E1. congruence.
Qed.

Lemma lex_cmp_false {A} (eqb : A -> A -> bool) (cmp : A -> A -> bool * bool) l : forall k,
  (forall x y, x ∈ l -> y ∈ k -> eqb x y = true <-> cmp x y = (false, false)) ->
  list_eqb eqb l k = true <-> lex_cmp cmp l k = (false, false).
Proof.
  induction l as [|x l IH]; intros [|y k] Hok; try done. cbn [lex_cmp]. change (list_eqb eqb (x :: l) (y :: k))
    with (eqb x y && list_eqb eqb l k).
  rewrite andb_true_iff, then_cmp_false, Hok, IH by set_solver. done.
Qed.

(** For comparable values [==] holds when neither value is less. *)
Lemma json_eqb_cmp x : comparable x -> forall y, comparable y -> json_eqb x y = true <-> json_cmp x y = (false, false).
Proof.
  induction x as [|m IH|l IH| | | | | | |] using json_ind'; intros Hx y Hy; inversion Hx; subst; inversion Hy; subst;
    cbn [json_eqb json_cmp]; try done.
  - apply lex_cmp_false. intros p q Hp Hq. unfold pair_cmp. rewrite then_cmp_false, andb_true_iff, bool_decide_eq_true.
    rewrite both_key_false. rewrite Forall_forall in IH. match goal with H1 : Forall _ m, H2 : Forall _ m0 |- _ =>
      rewrite Forall_forall in H1; rewrite Forall_forall in H2; rewrite (IH p Hp (H1 p Hp) q.2 (H2 q Hq)) end. done.
  - apply lex_cmp_false. intros p q Hp Hq. rewrite Forall_forall in IH.
    match goal with H1 : Forall _ l, H2 : Forall _ l0 |- _ =>
      rewrite Forall_forall in H1; rewrite Forall_forall in H2; apply IH; [done|by apply H1|by apply H2] end.
  - rewrite bool_decide_eq_true, both_key_false. done.
  - repeat match goal with b : bool |- _ => destruct b end; done.
  - by rewrite both_Z_false, Z.eqb_eq.
  - by rewrite both_Z_false, Z.eqb_eq.
  - by rewrite both_Z_false, Z.eqb_eq.
  - by rewrite both_Z_false, Z.eqb_eq.
  - unfold binary_eqb. rewrite andb_true_iff, !bool_decide_eq_true, both_key_false. naive_solver.
Qed.

Lemma json_ltb_enc x y : comparable x -> comparable y -> json_ltb x y = key_ltb (enc x) (enc y).
Proof.
  intros Hx Hy. pose proof (enc_cmp x Hx y Hy [] []) as E. rewrite !app_nil_r in E. unfold both in E.
  injection E as E _. rewrite E. unfold then_cmp, json_ltb. simpl. by destruct (json_cmp x y) as [[] []].
Qed.

Lemma comparable_ordered x y : comparable x -> comparable y -> compares_unordered x y = false.
Proof. by destruct 1; destruct 1. Qed.

(** C23: the order of values.  On values without floating-point numbers,
    whose integers fit in [int64_t] and whose binary values have no subtype,
    [operator<] is a strict total order that agrees with [operator==]: it is
    transitive, exactly one of [x < y], [x == y] and [y < x] holds, and the
    four other operators are what they have to be. *)
Theorem json_order x y z : comparable x -> comparable y -> comparable z ->
  (json_ltb x y = true -> json_ltb y z = true -> json_ltb x z = true) /\
  (json_eqb x y = negb (json_ltb x y || json_ltb y x)) /\ json_ltb x y && json_ltb y x = false /\
  json_neb x y = negb (json_eqb x y) /\ json_leb x y = json_ltb x y || json_eqb x y /\
  json_gtb x y = json_ltb y x /\ json_geb x y = json_ltb y x || json_eqb x y.
Proof.
  intros Hx Hy Hz. unfold json_neb, json_gtb, json_geb, json_leb.
  rewrite (comparable_ordered x y) by done.
  assert (json_ltb x y && json_ltb y x = false) as Hasym.
  { rewrite !json_ltb_enc by done. destruct (key_ltb (enc x) (enc y)) eqn:E1, (key_ltb (enc y) (enc x)) eqn:E2; try done.
    pose proof (key_lt_trans _ _ _ E1 E2) as E. unfold key_lt in E. by rewrite key_ltb_irrefl in E. }
  assert (json_eqb x y = negb (json_ltb x y || json_ltb y x)) as Heq.
  { apply eq_true_iff_eq. rewrite json_eqb_cmp by done. rewrite json_cmp_both. unfold both.
    destruct (json_ltb x y), (json_ltb y x); simpl; naive_solver. }
  split; [rewrite !json_ltb_enc by done; apply key_lt_trans|]. rewrite Heq.
  destruct (json_ltb x y), (json_ltb y x); by split_and!.
Qed.
End Order.

(** ** [hash] *)

(** [std::hash] of the types a value holds. *)
Class StdHash (F : Type) := {
  hash_string : bytes -> Z;
  hash_bool : bool -> Z;
  hash_integer : Z -> Z;
  hash_unsigned : Z -> Z;
  hash_float : F -> Z;
  hash_byte : Z -> Z
}.

Definition combine (seed h : Z) : Z :=
  Z.lxor seed (wrapu 64 (wrapu 64 (wrapu 64 (h + 0x9e3779b9) + Z.land (Z.shiftl seed 6) (2 ^ 64 - 1)) + Z.shiftr seed 2)).

(** The value of [value_t]. *)
Definition type_index {F} (j : json F) : Z :=
  match j with
  | value_null => 0 | value_object _ => 1 | value_array _ => 2 | value_string _ => 3 | value_boolean _ => 4
  | value_number_integer _ => 5 | value_number_unsigned _ => 6 | value_number_float _ => 7 | value_binary _ _ => 8
  | value_discarded => 9
  end.

Fixpoint hash {F} `{StdHash F} (j : json F) : Z :=
  let type := type_index j in
  match j with
  | value_null | value_discarded => combine type 0
  | value_object m =>
      fold_left (fun seed kv => combine (combine seed (hash_string kv.1)) (hash kv.2)) m
        (combine type (Z.of_nat (length m)))
  | value_array l => fold_left (fun seed e => combine seed (hash e)) l (combine type (Z.of_nat (length l)))
  | value_string s => combine type (hash_string s)
  | value_boolean b => combine type (hash_bool b)
  | value_number_integer z => combine type (hash_integer z)
  | value_number_unsigned z => combine type (hash_unsigned z)
  | value_number_float f => combine type (hash_float f)
  | value_binary b subtype =>
      let seed := combine type (Z.of_nat (length b)) in
      let seed := combine seed (hash_bool (match subtype with Some _ => true | None => false end)) in
      let seed := combine seed (default (2 ^ 64 - 1) subtype) in
      fold_left (fun seed byte => combine seed (hash_byte byte)) b seed
  end.

Lemma odd_wrapu z : Z.odd (wrapu 64 z) = Z.odd z.
Proof. unfold wrapu. rewrite <- !Z.bit0_odd. by apply Z.mod_pow2_bits_low. Qed.

Lemma odd_lxor a b : Z.odd (Z.lxor a b) = xorb (Z.odd a) (Z.odd b).
Proof. by rewrite <- !Z.bit0_odd, Z.lxor_spec. Qed.

(** Equal numbers of different types have different hashes, whatever
    [std::hash] makes of integers: [std::unordered_set<json>] keeps both. *)
Theorem hash_of_equal_numbers {F} `{FloatCompare F, StdHash F} z : 0 <= z < 2 ^ 63 ->
  hash_integer z = hash_unsigned z ->
  json_eqb (value_number_integer z) (value_number_unsigned z) = true /\
  hash (value_number_integer z) <> hash (value_number_unsigned z).
Proof.
  intros Hz Eh. split; [simpl; unfold to_int64; rewrite to_signed_small by lia; by rewrite Z.eqb_refl|].
  cbn [hash type_index]. rewrite <- Eh. unfold combine. intros E%(f_equal Z.odd). revert E.
  rewrite !odd_lxor, !odd_wrapu, !Z.odd_add, !odd_wrapu, !Z.odd_add. simpl. by destruct (xorb _ _).
Qed.

(** Values that differ in their subtype only are neither less nor equal. *)
Example binary_order_ignores_subtype {F} `{FloatCompare F, FloatOrder F} :
  let x := value_binary (F:=F) [1; 2] (Some 7) in
  let y := value_binary [1; 2] None in
  json_ltb x y = false /\ json_ltb y x = false /\ json_eqb x y = false /\ json_leb x y = true /\ json_leb y x = true.
Proof. by split_and!. Qed.

#[local] Existing Instance example_compare.
#[local] Instance example_order : FloatOrder Z := {| float_ltb := Z.ltb |}.

Definition ex_small : json Z := value_object [(str "a", value_array [value_number_integer 1; value_null])].
Definition ex_large : json Z := value_object [(str "a", value_array [value_number_unsigned 1; value_boolean false])].

Lemma ex_comparable : comparable ex_small /\ comparable ex_large.
Proof. split; repeat first [constructor | lia]. Qed.

Lemma json_order_witness : json_ltb ex_small ex_large = true /\ json_gtb ex_large ex_small = true /\
  json_eqb ex_small ex_large = negb (json_ltb ex_small ex_large || json_ltb ex_large ex_small).
Proof.
  destruct ex_comparable as [Hs Hl]. destruct (json_order ex_small ex_large ex_small Hs Hl Hs) as (_ & Heq & _).
  split; [reflexivity|]. split; [reflexivity|]. exact Heq.
Defined.

Lemma hash_of_equal_numbers_witness (h : StdHash Z) : hash_integer (F:=Z) 3 = hash_unsigned (F:=Z) 3 ->
  hash (value_number_integer (F:=Z) 3) <> hash (value_number_unsigned (F:=Z) 3).
Proof. intros E. by apply (hash_of_equal_numbers 3). Defined.
