(* ===== verification/OrderedMap.v ===== *)
(** [ordered_map] of [src/libephmem/json.hpp], the object type of
    [ordered_json]: a vector of members in the order of their insertion,
    searched from the front.  Erasing constructs the later members anew in the
    places before them.  Iterators are positions, the end is the size. *)
From S2P Require Import Prelude.

Section Operations.
Context {V : Type}.
Implicit Types (k : bytes) (v : V) (m l : list (bytes * V)).

(** The loop that every operation on a key starts with: [find]. *)
Fixpoint om_find k m : nat :=
  match m with
  | [] => O
  | (k', _) :: m => if decide (k' = k) then O else S (om_find k m)
  end.

Definition om_count k m : nat := if (om_find k m =? length m)%nat then 0%nat else 1%nat.

(** The position of the member and whether it is new. *)
Definition om_emplace k v m : list (bytes * V) * (nat * bool) :=
  let it := om_find k m in
  if (it =? length m)%nat then (m ++ [(k, v)], (length m, true)) else (m, (it, false)).

(** [operator[]] with the value [T{}]; the reference is the position. *)
Definition om_index (empty : V) k m : list (bytes * V) * nat :=
  let '(m, (it, _)) := om_emplace k empty m in (m, it).

(** Assignment through the reference. *)
Definition om_assign (empty : V) k v m : list (bytes * V) :=
  let '(m, it) := om_index empty k m in alter (fun p => (p.1, v)) it m.

(** [std::out_of_range] has no number. *)
Definition om_at k m : comp V :=
  match m !! om_find k m with Some p => Ret p.2 | None => Throw (other_error 0) end.

(** [for (; next(it, d) != end(); ++it)]: the member [d] places further on
    is moved to [it]. *)
Fixpoint move_down (fuel : nat) (it d : nat) m : comp (list (bytes * V)) :=
  match fuel with
  | O => OutOfFuel
  | S fuel =>
      if (it + d =? length m)%nat then Ret m
      else
        match m !! (it + d)%nat with
        | None => Throw undefined_behaviour
        | Some p => move_down fuel (S it) d (<[it := p]> m)
        end
  end.

Definition om_erase_key k m : comp (list (bytes * V) * nat) :=
  let it := om_find k m in
  if (it =? length m)%nat then Ret (m, 0%nat)
  else
    let* m' := move_down (S (length m)) it 1 m in
    Ret (take (length m' - 1) m', 1%nat).

Definition om_erase_range (first last : nat) m : comp (list (bytes * V) * nat) :=
  if (first =? last)%nat then Ret (m, first)
  else if (last <? first)%nat then Throw undefined_behaviour
  else
    let elements_affected := (last - first)%nat in
    let* m' := move_down (S (length m)) first elements_affected m in
    Ret (take (length m' - elements_affected) m', first).

Definition om_erase (pos : nat) m : comp (list (bytes * V) * nat) := om_erase_range pos (S pos) m.

Definition om_insert (p : bytes * V) m : list (bytes * V) * (nat * bool) :=
  let it := om_find p.1 m in
  if (it =? length m)%nat then (m ++ [p], (length m, true)) else (m, (it, false)).

Definition om_insert_range l m : list (bytes * V) := fold_left (fun m p => (om_insert p m).1) l m.

(** The constructors from a range and from an initializer list construct the
    vector. *)
Definition om_of_range l : list (bytes * V) := l.

(** ** Finding *)

Lemma om_find_le k m : (om_find k m <= length m)%nat.
Proof. induction m as [|[k' v] m IH]; simpl; [lia|]. case_decide; lia. Qed.

Lemma om_find_none k m : om_find k m = length m <-> k ∉ m.*1.
Proof.
  induction m as [|[k' v] m IH]; simpl; [split; [by intros _ ?%elem_of_nil|done]|].
  rewrite not_elem_of_cons. case_decide; [naive_solver|]. rewrite <- IH. naive_solver lia.
Qed.

Lemma om_find_some k m : om_find k m <> length m -> exists v, m !! om_find k m = Some (k, v).
Proof.
  induction m as [|[k' v] m IH]; simpl; [done|]. case_decide; [subst; by exists v|]. intros Hn. apply IH. lia.
Qed.

Lemma om_find_split k m : om_find k m <> length m ->
  exists m1 v m2, m = m1 ++ (k, v) :: m2 /\ length m1 = om_find k m /\ k ∉ m1.*1.
Proof.
  induction m as [|[k' v] m IH]; simpl; [done|]. case_decide; [subst; intros _; exists [], v, m; split_and!; try done; apply not_elem_of_nil|].
  intros Hn. destruct IH as (m1 & v1 & m2 & -> & Hl & Hk); [lia|]. exists ((k', v) :: m1), v1, m2.
  simpl. rewrite not_elem_of_cons. split_and!; auto.
Qed.

(** ** Erasing *)

Lemma move_down_ok n : forall fuel it d m, (0 < d)%nat -> (it + d + n = length m)%nat -> (n < fuel)%nat ->
  exists m', move_down fuel it d m = Ret m' /\ length m' = length m /\
    take (length m' - d) m' = take it m ++ drop (it + d) m.
Proof.
  induction n as [|n IH]; intros [|fuel] it d m Hd Hn Hf; try lia; cbn [move_down].
  - rewrite (proj2 (Nat.eqb_eq _ _)) by lia. exists m. split_and!; [done|done|].
    rewrite (drop_ge m), app_nil_r by lia. f_equal. lia.
  - rewrite (proj2 (Nat.eqb_neq _ _)) by lia. destruct (lookup_lt_is_Some_2 m (it + d)) as [p Ep]; [lia|]. rewrite Ep.
    destruct (IH fuel (S it) d (<[it := p]> m)) as (m' & E & Hl & Ht); [done|rewrite length_insert; lia|lia|].
    rewrite length_insert in Hl. exists m'. split_and!; [done|done|]. rewrite Ht.
    rewrite (take_S_r _ _ p) by (apply list_lookup_insert_eq; lia).
    rewrite take_insert_ge, drop_insert_lt by lia. rewrite <- app_assoc. simpl. f_equal.
    symmetry. by apply drop_S.
Qed.

Lemma erase_range_ok first last m : (first <= last <= length m)%nat ->
  om_erase_range first last m = Ret (take first m ++ drop last m, first).
Proof.
  intros [H1 H2]. unfold om_erase_range. destruct (Nat.eqb_spec first last) as [->|Hne]; [by rewrite take_drop|].
  rewrite (proj2 (Nat.ltb_ge _ _)) by done.
  destruct (move_down_ok (length m - last) (S (length m)) first (last - first) m) as (m' & -> & _ & Ht); try lia.
  cbn [comp_bind]. rewrite Ht. by replace (first + (last - first))%nat with last by lia.
Qed.

Lemma erase_key_ok k m : om_erase_key k m =
  Ret (if (om_find k m =? length m)%nat then (m, 0%nat) else (take (om_find k m) m ++ drop (S (om_find k m)) m, 1%nat)).
Proof.
  unfold om_erase_key. destruct (Nat.eqb_spec (om_find k m) (length m)) as [|Hne]; [done|].
  pose proof (om_find_le k m).
  destruct (move_down_ok (length m - S (om_find k m)) (S (length m)) (om_find k m) 1 m) as (m' & -> & _ & Ht); try lia.
  cbn [comp_bind]. rewrite Ht. by rewrite Nat.add_1_r.
Qed.
End Operations.

(** ** The specification: a finite map and the order of the keys *)

Inductive operation (V : Type) : Type :=
  | Emplace (k : bytes) (v : V)
  | Assign (k : bytes) (v : V)              (* m[k] = v *)
  | Insert (k : bytes) (v : V)
  | InsertRange (l : list (bytes * V))
  | Erase (k : bytes)
  | EraseRange (i n : nat).                 (* n members from position i on *)
Arguments Emplace {V} _ _.
Arguments Assign {V} _ _.
Arguments Insert {V} _ _.
Arguments InsertRange {V} _.
Arguments Erase {V} _.
Arguments EraseRange {V} _ _.

Section Spec.
Context {V : Type}.
Variable empty : V.                         (* T{} *)
Implicit Types (k : bytes) (v : V) (m l : list (bytes * V)) (o : operation V).

(** The iterators of [n] members from position [i] on, cut off at the end, so
    that they are a valid range. *)
Definition range_of (i n len : nat) : nat * nat := let first := Nat.min i len in (first, Nat.min (first + n) len).

Definition run_op o m : comp (list (bytes * V)) :=
  match o with
  | Emplace k v => Ret (om_emplace k v m).1
  | Assign k v => Ret (om_assign empty k v m)
  | Insert k v => Ret (om_insert (k, v) m).1
  | InsertRange l => Ret (om_insert_range l m)
  | Erase k => let* r := om_erase_key k m in Ret r.1
  | EraseRange i n => let '(first, last) := range_of i n (length m) in
      let* r := om_erase_range first last m in Ret r.1
  end.

Fixpoint run_ops (os : list (operation V)) m : comp (list (bytes * V)) :=
  match os with
  | [] => Ret m
  | o :: os => let* m := run_op o m in run_ops os m
  end.

Record state := mk_state { members : gmap bytes V; order : list bytes }.

Definition add (k : bytes) (v : V) (s : state) : state :=
  match members s !! k with
  | Some _ => s
  | None => mk_state (<[k := v]> (members s)) (order s ++ [k])
  end.

Definition spec_op o (s : state) : state :=
  match o with
  | Emplace k v | Insert k v => add k v s
  | Assign k v => mk_state (<[k := v]> (members s)) (order (add k v s))
  | InsertRange l => fold_left (fun s p => add p.1 p.2 s) l s
  | Erase k => mk_state (delete k (members s)) (filter (fun k' => k' <> k) (order s))
  | EraseRange i n =>
      mk_state (foldr delete (members s) (take n (drop i (order s)))) (take i (order s) ++ drop (i + n) (order s))
  end.

Definition refines m (s : state) : Prop :=
  NoDup m.*1 /\ order s = m.*1 /\ members s = list_to_map m.

(** What the queries answer. *)
Definition answers m (s : state) : Prop := forall k,
  om_at k m = match members s !! k with Some v => Ret v | None => Throw (other_error 0) end /\
  om_count k m = (if members s !! k then 1%nat else 0%nat) /\
  (om_find k m = length m <-> members s !! k = None).

Lemma refines_lookup m s k : refines m s ->
  members s !! k = if (om_find k m =? length m)%nat then None else snd <$> (m !! om_find k m).
Proof.
  intros (Hd & _ & ->). destruct (Nat.eqb_spec (om_find k m) (length m)) as [E|E].
  - apply not_elem_of_list_to_map_1. by apply om_find_none.
  - destruct (om_find_some k m E) as [v Ev]. rewrite Ev. simpl. apply elem_of_list_to_map_1; [done|].
    by eapply list_elem_of_lookup_2.
Qed.

Lemma refines_answers m s : refines m s -> answers m s.
Proof.
  intros Hr k. rewrite (refines_lookup m s k Hr). unfold om_at, om_count.
  destruct (Nat.eqb_spec (om_find k m) (length m)) as [E|E].
  - rewrite E, lookup_ge_None_2 by done. done.
  - destruct (om_find_some k m E) as [v ->]. simpl. done.
Qed.

Lemma refines_new k v m s : refines m s -> om_find k m = length m ->
  refines (m ++ [(k, v)]) (mk_state (<[k := v]> (members s)) (order s ++ [k])).
Proof.
  intros (Hd & Ho & Hm) E. apply om_find_none in E. split_and!; simpl.
  - rewrite fmap_app. apply NoDup_app. split_and!; [done| |apply NoDup_singleton].
    intros x Hx ->%list_elem_of_singleton. done.
  - by rewrite fmap_app, Ho.
  - rewrite list_to_map_app, Hm. simpl. rewrite insert_union_singleton_r, insert_empty; [done|].
    by apply not_elem_of_list_to_map_1.
Qed.

Lemma refines_add k v m s : refines m s -> refines (om_insert (k, v) m).1 (add k v s).
Proof.
  intros Hr. unfold om_insert, add. rewrite (refines_lookup m s k Hr). simpl.
  destruct (Nat.eqb_spec (om_find k m) (length m)) as [E|E]; [by apply refines_new|].
  by destruct (om_find_some k m E) as [v' ->].
Qed.

Lemma alter_middle (f : bytes * V -> bytes * V) m1 p m2 : alter f (length m1) (m1 ++ p :: m2) = m1 ++ f p :: m2.
Proof. induction m1 as [|x m1 IH]; [done|]. simpl. f_equal. exact IH. Qed.

Lemma find_append k v m : om_find k m = length m -> alter (fun p => (p.1, v)) (length m) (m ++ [(k, empty)]) = m ++ [(k, v)].
Proof. intros _. by rewrite alter_middle. Qed.

Lemma refines_assign k v m s : refines m s -> refines (om_assign empty k v m) (spec_op (Assign k v) s).
Proof.
  intros Hr. unfold om_assign, om_index, om_emplace, spec_op, add. rewrite (refines_lookup m s k Hr).
  destruct (Nat.eqb_spec (om_find k m) (length m)) as [E|E].
  - rewrite find_append by done. by apply refines_new.
  - destruct (om_find_split k m E) as (m1 & v1 & m2 & -> & Hl & Hk). destruct (om_find_some _ _ E) as [v' ->].
    rewrite <- Hl, alter_middle. simpl. destruct Hr as (Hd & Ho & Hm). rewrite fmap_app in Hd, Ho.
    split_and!; simpl.
    + by rewrite fmap_app.
    + by rewrite fmap_app.
    + rewrite Hm, !list_to_map_app. simpl. apply map_eq. intros i. rewrite lookup_insert, !lookup_union.
      assert ((list_to_map m1 : gmap bytes V) !! k = None) as Hn by by apply not_elem_of_list_to_map_1.
      case_decide as Hk'; [subst i; by rewrite Hn, lookup_insert_eq|by rewrite !lookup_insert_ne].
Qed.

Lemma filter_neq_all k (l : list bytes) : k ∉ l -> filter (fun k' => k' <> k) l = l.
Proof.
  induction l as [|x l IH]; intros Hk; [done|]. apply not_elem_of_cons in Hk as [Hx Hk].
  rewrite filter_cons_True by done. by rewrite IH.
Qed.

Lemma refines_erase k m s : refines m s ->
  exists m', run_op (Erase k) m = Ret m' /\ refines m' (spec_op (Erase k) s).
Proof.
  intros (Hd & Ho & Hm). cbn [run_op spec_op]. rewrite erase_key_ok. cbn [comp_bind]. eexists. split; [done|].
  destruct (Nat.eqb_spec (om_find k m) (length m)) as [E|E]; cbn [fst].
  - apply om_find_none in E. split_and!; simpl; [done|by rewrite Ho, filter_neq_all|].
    rewrite Hm. apply delete_id. by apply not_elem_of_list_to_map_1.
  - destruct (om_find_split k m E) as (m1 & v & m2 & -> & <- & Hk).
    rewrite take_app_length, drop_app_ge, Nat.sub_succ_l, Nat.sub_diag by lia. simpl. rewrite drop_0.
    rewrite fmap_app in Hd. apply NoDup_app in Hd as (H1 & H2 & H3). cbn [fmap list_fmap fst] in H2, H3.
    apply NoDup_cons in H3 as [H3 H4]. split_and!; simpl.
    + rewrite fmap_app. apply NoDup_app. split_and!; [done| |done]. intros x Hx Hx'. apply (H2 x Hx).
      by apply list_elem_of_further.
    + rewrite Ho, !fmap_app. cbn [fmap list_fmap fst]. rewrite filter_app, filter_cons_False by naive_solver.
      by rewrite !filter_neq_all.
    + rewrite Hm, !list_to_map_app, delete_union. simpl. rewrite delete_insert_eq.
      by rewrite !delete_id by by apply not_elem_of_list_to_map_1.
Qed.

(** The three parts of a range. *)
Lemma range_of_parts {A} i n (l : list A) : let '(first, last) := range_of i n (length l) in
  (first <= last <= length l)%nat /\ take first l = take i l /\ drop last l = drop (i + n) l.
Proof.
  unfold range_of. split; [lia|]. split.
  - destruct (Nat.min_spec i (length l)) as [[_ ->]|[? ->]]; [done|]. by rewrite !take_ge by lia.
  - destruct (decide (i + n <= length l)%nat); [f_equal; lia|]. by rewrite !drop_ge by lia.
Qed.

Lemma refines_erase_range i n m s : refines m s ->
  exists m', run_op (EraseRange i n) m = Ret m' /\ refines m' (spec_op (EraseRange i n) s).
Proof.
  intros (Hd & Ho & Hm). cbn [run_op spec_op]. pose proof (range_of_parts i n m) as Hp.
  destruct (range_of i n (length m)) as [first last]. destruct Hp as (Hr & Ht & Hl).
  rewrite erase_range_ok, Ht, Hl by done. cbn [comp_bind fst]. eexists. split; [done|].
  assert (m = take i m ++ take n (drop i m) ++ drop (i + n) m) as Em by (by rewrite <- drop_drop, !take_drop).
  rewrite Ho, Hm, <- fmap_drop, <- fmap_take. revert Em.
  generalize (take n (drop i m)) as b. intros b Em.
  rewrite <- fmap_drop, <- fmap_take. revert Em. generalize (take i m) (drop (i + n) m). intros a c ->.
  rewrite !fmap_app in Hd. apply NoDup_app in Hd as (Ha & Hac & Hbc). apply NoDup_app in Hbc as (Hb & Hbc & Hc).
  assert (NoDup (a ++ c).*1) as Hac'.
  { rewrite fmap_app. apply NoDup_app. split_and!; [done| |done]. intros k Hk Hk'. apply (Hac k Hk).
    apply elem_of_app. by right. }
  split_and!; simpl; [done|by rewrite fmap_app|].
  apply map_eq. intros k. destruct (decide (k ∈ b.*1)) as [Hk|Hk].
  - rewrite lookup_foldr_delete by done. symmetry. apply not_elem_of_list_to_map_1. rewrite fmap_app, not_elem_of_app.
    split; [intros Hk'; apply (Hac k Hk'), elem_of_app; by left|by apply Hbc].
  - rewrite lookup_foldr_delete_not_elem_of by done. rewrite !list_to_map_app, !lookup_union.
    rewrite (not_elem_of_list_to_map_1 b k Hk). by rewrite (left_id_L None _).
Qed.

Lemma refines_run_op o m s : refines m s -> exists m', run_op o m = Ret m' /\ refines m' (spec_op o s).
Proof.
  destruct o as [k v|k v|k v|l|k|i n]; intros Hr; try (eexists; split; [reflexivity|]).
  - exact (refines_add k v m s Hr).
  - by apply refines_assign.
  - by apply refines_add.
  - cbn [spec_op]. unfold om_insert_range. revert m s Hr. induction l as [|[k v] l IH]; intros m s Hr; [done|].
    apply IH. by apply refines_add.
  - by apply refines_erase.
  - by apply refines_erase_range.
Qed.

Lemma refines_empty : refines [] (mk_state ∅ []).
Proof. split_and!; [apply NoDup_nil_2|done|done]. Qed.

(** C22: [ordered_map] is a map that keeps the order of insertion.
    Whatever operations run on a map without members (insertions,
    assignments, removals of a key, of an iterator and of a range of
    iterators), they all return, and after them the vector holds each key
    once, in the order in which it was first inserted since its last
    removal, with the value the operations of a finite map give it; [at],
    [count] and [find] answer as the lookups of that finite map do.  *)
Theorem ordered_map_refines os : exists m,
  run_ops os [] = Ret m /\ refines m (fold_left (fun s o => spec_op o s) os (mk_state ∅ [])) /\
  answers m (fold_left (fun s o => spec_op o s) os (mk_state ∅ [])).
Proof.
  assert (forall os m s, refines m s -> exists m', run_ops os m = Ret m' /\
    refines m' (fold_left (fun s o => spec_op o s) os s)) as Hall.
  { clear os. intros os. induction os as [|o os IH]; intros m s Hr; [by exists m|]. cbn [run_ops fold_left].
    destruct (refines_run_op o m s Hr) as (m1 & -> & Hr1). exact (IH m1 _ Hr1). }
  destruct (Hall os [] _ refines_empty) as (m & E & Hr). exists m. split_and!; [done|done|by apply refines_answers].
Qed.
End Spec.

(** The constructor from a range does not look for the keys: the map it makes
    holds a key twice, and finds it after it was erased. *)
Example range_keeps_duplicates :
  let m := om_of_range [(str "a", 1); (str "b", 2); (str "a", 3)] in
  (length m = 3%nat /\ om_insert_range m [] = [(str "a", 1); (str "b", 2)]) /\
  exists m', om_erase_key (str "a") m = Ret (m', 1%nat) /\ om_at (str "a") m' = Ret 3.
Proof. split; [done|]. eexists. split; vm_compute; reflexivity. Qed.

Example ordered_map_runs :
  run_ops 0 [Emplace (str "b") 1; Assign (str "a") 2; Emplace (str "b") 3; InsertRange [(str "c", 4); (str "a", 5)];
    Assign (str "c") 6; Erase (str "b"); Insert (str "b") 7; EraseRange 1 1; EraseRange 1 0] [] =
  Ret [(str "a", 2); (str "b", 7)].
Proof. reflexivity. Qed.

(** Erasing a range, and the end. *)
Example erase_range_runs :
  om_erase_range 1 3 [(str "a", 1); (str "b", 2); (str "c", 3); (str "d", 4)] = Ret ([(str "a", 1); (str "d", 4)], 1%nat) /\
  om_erase 2 [(str "a", 1); (str "b", 2)] = Throw undefined_behaviour.
Proof. split; reflexivity. Qed.
