(* ===== verification/JsonModify.v ===== *)
(** Modifying a value in place ([basic_json] of [src/libephmem/json.hpp]):
    [push_back], [emplace], [insert], [erase], [update], [clear], [swap], with
    the state a call that throws leaves behind, the capacity queries, and
    [merge_patch] with its meaning. *)
From S2P Require Import Prelude JsonValue.

Declare Scope modify_scope.

(** A member function that modifies [*this]: from the value before the call
    to its outcome and the value after it. *)
Definition M (F A : Type) : Type := json F -> comp A * json F.

Section Monad.
Context {F : Type}.

Definition mret {A} (a : A) : M F A := fun j => (Ret a, j).
Definition mthrow {A} (e : exn) : M F A := fun j => (Throw e, j).
Definition mlift {A} (c : comp A) : M F A := fun j => (c, j).
Definition mbind {A B} (m : M F A) (f : A -> M F B) : M F B := fun j =>
  match m j with
  | (Ret a, j) => f a j
  | (Throw e, j) => (Throw e, j)
  | (OutOfFuel, j) => (OutOfFuel, j)
  end.
Definition mget : M F (json F) := fun j => (Ret j, j).
Definition mput (j : json F) : M F unit := fun _ => (Ret tt, j).

(** A function that throws before it changes anything. *)
Definition mmod (f : json F -> comp (json F)) : M F unit := fun j =>
  match f j with
  | Ret j' => (Ret tt, j')
  | Throw e => (Throw e, j)
  | OutOfFuel => (OutOfFuel, j)
  end.

(** A call through a reference into the value. *)
Definition at_ref {A} (r : list pstep) (m : M F A) : M F A := fun j =>
  match path_get j r with
  | Some v => let '(c, v') := m v in (c, path_alter (fun _ => v') j r)
  | None => (Throw buffer_overrun, j)
  end.
End Monad.

Notation "'let!' x ':=' m 'in' k" := (mbind m (fun x => k))
  (at level 10, x name, m at level 100, k at level 200) : modify_scope.
#[global] Open Scope modify_scope.

Section Modify.
Context {F : Type}.
Implicit Types (j v : json F) (m : list (bytes * json F)) (l : list (json F)).

(** ** Capacity and lookup *)

Definition empty j : bool :=
  match j with
  | value_null => true
  | value_array l => match l with [] => true | _ => false end
  | value_object m => match m with [] => true | _ => false end
  | _ => false
  end.

Definition size j : nat :=
  match j with
  | value_null => 0
  | value_array l => length l
  | value_object m => length m
  | _ => 1
  end.

Definition contains_key j (k : bytes) : bool :=
  match find j k with Some _ => true | None => false end.

Definition count j (k : bytes) : nat := if is_object j then (if contains_key j k then 1 else 0) else 0.

(** ** Adding elements *)

(** A null is first made an empty container. *)
Definition null_to_array : M F unit := let! this := mget in if is_null this then mput (value_array []) else mret tt.
Definition null_to_object : M F unit := let! this := mget in if is_null this then mput (value_object []) else mret tt.

(** Calls of the members of [array_t] and [object_t]. *)
Definition array_do (f : list (json F) -> list (json F)) : M F unit :=
  mmod (fun j => match j with value_array l => Ret (value_array (f l)) | _ => Throw assertion_failure end).
Definition object_do (f : list (bytes * json F) -> list (bytes * json F)) : M F unit :=
  mmod (fun j => match j with value_object m => Ret (value_object (f m)) | _ => Throw assertion_failure end).

Definition push_back v : M F unit :=
  let! this := mget in
  if negb (is_null this || is_array this) then mthrow (type_error 308)
  else let! _ := null_to_array in array_do (fun l => l ++ [v]).

(** [push_back] of a pair; [map::insert] keeps a member that is there. *)
Definition push_back_pair (k : bytes) v : M F unit :=
  let! this := mget in
  if negb (is_null this || is_object this) then mthrow (type_error 308)
  else let! _ := null_to_object in object_do (object_emplace k v).

Definition push_back_init (init : list (json F)) : M F unit :=
  let! this := mget in
  match init with
  | [value_string k; v] => if is_object this then push_back_pair k v else push_back (of_initializer_list init)
  | _ => push_back (of_initializer_list init)
  end.

Definition emplace_back v : M F unit :=
  let! this := mget in
  if negb (is_null this || is_array this) then mthrow (type_error 311)
  else let! _ := null_to_array in array_do (fun l => l ++ [v]).

(** The result says whether the member was inserted. *)
Definition emplace (k : bytes) v : M F bool :=
  let! this := mget in
  if negb (is_null this || is_object this) then mthrow (type_error 311)
  else
    let! _ := null_to_object in
    let! this := mget in
    let! _ := object_do (object_emplace k v) in
    mret (negb (contains_key this k)).

(** [insert_iterator]: an iterator of the array is its distance to the
    beginning; one past the end of the array is no position of it. *)
Definition insert_iterator (pos : nat) (vs : list (json F)) : M F unit :=
  mmod (fun j =>
    match j with
    | value_array l =>
        if (pos <=? length l)%nat then Ret (value_array (take pos l ++ vs ++ drop pos l)) else Throw buffer_overrun
    | _ => Throw assertion_failure
    end).

(** [insert] of one value, of [cnt] copies, and of a range of another array.
    [fits] says whether the iterator belongs to this value. *)
Definition insert_value (fits : bool) (pos : nat) v : M F unit :=
  let! this := mget in
  if is_array this then
    if negb fits then mthrow (invalid_iterator 202) else insert_iterator pos [v]
  else mthrow (type_error 309).

Definition insert_copies (fits : bool) (pos : nat) (cnt : nat) v : M F unit :=
  let! this := mget in
  if is_array this then
    if negb fits then mthrow (invalid_iterator 202) else insert_iterator pos (replicate cnt v)
  else mthrow (type_error 309).

(** [same] says whether both ends of the range belong to one value, [own]
    whether that is this value. *)
Definition insert_range (fits same own : bool) (pos : nat) (vs : list (json F)) : M F unit :=
  let! this := mget in
  if negb (is_array this) then mthrow (type_error 309)
  else if negb fits then mthrow (invalid_iterator 202)
  else if negb same then mthrow (invalid_iterator 210)
  else if own then mthrow (invalid_iterator 211)
  else insert_iterator pos vs.

Definition insert_list (fits : bool) (pos : nat) (ilist : list (json F)) : M F unit :=
  let! this := mget in
  if negb (is_array this) then mthrow (type_error 309)
  else if negb fits then mthrow (invalid_iterator 202)
  else insert_iterator pos ilist.

(** [insert(first, last)] of the members of [other]. *)
Definition insert_members (same : bool) (other : json F) : M F unit :=
  let! this := mget in
  if negb (is_object this) then mthrow (type_error 309)
  else if negb same then mthrow (invalid_iterator 210)
  else
    match other with
    | value_object m' => object_do (fun m => fold_left (fun m kv => object_emplace kv.1 kv.2 m) m' m)
    | _ => mthrow (invalid_iterator 202)
    end.

(** ** Removing elements *)

Fixpoint object_erase (k : bytes) m : list (bytes * json F) :=
  match m with
  | [] => []
  | (k', v) :: m => if decide (k = k') then m else (k', v) :: object_erase k m
  end.

(** [erase(key)] returns the number of members removed. *)
Definition erase_key (k : bytes) : M F nat :=
  let! this := mget in
  if negb (is_object this) then mthrow (type_error 307)
  else
    let! _ := object_do (object_erase k) in
    mret (if contains_key this k then 1%nat else 0%nat).

Definition erase_idx (idx : Z) : M F unit :=
  let! this := mget in
  if is_array this then
    if Z.of_nat (size this) <=? idx then mthrow (out_of_range 401)
    else array_do (delete (Z.to_nat idx))
  else mthrow (type_error 307).

(** An iterator: the position in an array or an object, and for the other
    types [0] for [begin()] and [1] for [end()]. *)
Definition erase_iterator (fits : bool) (pos : nat) : M F unit :=
  let! this := mget in
  if negb fits then mthrow (invalid_iterator 202)
  else
    match this with
    | value_boolean _ | value_number_float _ | value_number_integer _ | value_number_unsigned _
    | value_string _ | value_binary _ _ =>
        if negb (pos =? 0)%nat then mthrow (invalid_iterator 205) else mput value_null
    | value_object m => if (pos <? length m)%nat then object_do (delete pos) else mthrow buffer_overrun
    | value_array l => if (pos <? length l)%nat then array_do (delete pos) else mthrow buffer_overrun
    | value_null | value_discarded => mthrow (type_error 307)
    end.

Definition erase_range (fits : bool) (first last : nat) : M F unit :=
  let! this := mget in
  if negb fits then mthrow (invalid_iterator 203)
  else
    match this with
    | value_boolean _ | value_number_float _ | value_number_integer _ | value_number_unsigned _
    | value_string _ | value_binary _ _ =>
        if negb (first =? 0)%nat || negb (last =? 1)%nat then mthrow (invalid_iterator 204) else mput value_null
    | value_object m =>
        if (first <=? last)%nat && (last <=? length m)%nat then object_do (fun m => take first m ++ drop last m)
        else mthrow buffer_overrun
    | value_array l =>
        if (first <=? last)%nat && (last <=? length l)%nat then array_do (fun l => take first l ++ drop last l)
        else mthrow buffer_overrun
    | value_null | value_discarded => mthrow (type_error 307)
    end.

Definition clear `{FloatOps F} j : json F :=
  match j with
  | value_number_integer _ => value_number_integer 0
  | value_number_unsigned _ => value_number_unsigned 0
  | value_number_float _ => value_number_float float_zero
  | value_boolean _ => value_boolean false
  | value_string _ => value_string []
  | value_binary _ t => value_binary [] t
  | value_array _ => value_array []
  | value_object _ => value_object []
  | value_null | value_discarded => j
  end.

(** ** [swap] with a container, which is the second part of the state *)

Definition swap_array (other : list (json F)) : M F (list (json F)) := fun j =>
  match j with value_array l => (Ret l, value_array other) | _ => (Throw (type_error 310), j) end.
Definition swap_object (other : list (bytes * json F)) : M F (list (bytes * json F)) := fun j =>
  match j with value_object m => (Ret m, value_object other) | _ => (Throw (type_error 310), j) end.
Definition swap_string (other : bytes) : M F bytes := fun j =>
  match j with value_string s => (Ret s, value_string other) | _ => (Throw (type_error 310), j) end.
Definition swap_binary (other : bytes * option Z) : M F (bytes * option Z) := fun j =>
  match j with value_binary b t => (Ret (b, t), value_binary other.1 other.2) | _ => (Throw (type_error 310), j) end.

(** [swap(binary_t::container_type&)]: the subtype stays. *)
Definition swap_container (other : bytes) : M F bytes := fun j =>
  match j with value_binary b t => (Ret b, value_binary other t) | _ => (Throw (type_error 310), j) end.

(** Swapping again with what came out restores both; a value of another type
    is left alone. *)
Lemma swap_array_twice l j : match swap_array l j with
  | (Ret other, j') => swap_array other j' = (Ret l, j)
  | (c, j') => c = Throw (type_error 310) /\ j' = j /\ is_array j = false
  end.
Proof. by destruct j. Qed.

Lemma swap_binary_twice b j : match swap_binary b j with
  | (Ret other, j') => swap_binary other j' = (Ret b, j)
  | (c, j') => c = Throw (type_error 310) /\ j' = j /\ is_binary j = false
  end.
Proof. destruct b, j; done. Qed.

(** ** Overwriting members *)

(** [operator[]] of the map and an assignment *)
Definition object_assign (k : bytes) v m : list (bytes * json F) :=
  object_alter (fun _ => v) k (object_emplace k value_null m).

(** [update(j, merge_objects)]: the members of [j] overwrite those of this
    value, or are merged into them. *)
Fixpoint update (j : json F) (merge_objects : bool) {struct j} : M F unit :=
  let! _ := null_to_object in
  let! this := mget in
  if negb (is_object this) then mthrow (type_error 312)
  else
    match j with
    | value_object m =>
        (fix loop m : M F unit :=
           match m with
           | [] => mret tt
           | (k, v) :: m =>
               let! this := mget in
               let! _ :=
                 (if merge_objects && is_object v && contains_key this k
                  then at_ref [PKey k] (update v true)
                  else object_do (object_assign k v)) in
               loop m
           end) m
    | _ => mthrow (type_error 312)
    end.

(** [merge_patch] *)
Fixpoint merge_patch (apply_patch : json F) : M F unit :=
  match apply_patch with
  | value_object m =>
      let! this := mget in
      let! _ := (if negb (is_object this) then mput (value_object []) else mret tt) in
      (fix loop m : M F unit :=
         match m with
         | [] => mret tt
         | (k, v) :: m =>
             let! _ :=
               (if is_null v then let! _ := erase_key k in mret tt
                else
                  let! _ := mmod (fun j => index_key j k) in
                  at_ref [PKey k] (merge_patch v)) in
             loop m
         end) m
  | _ => mput apply_patch
  end.

(** ** Objects as maps from keys *)

Lemma object_find_in k v m : object_find k m = Some v -> (k, v) ∈ m.
Proof.
  induction m as [|[k' v'] m IH]; simpl; [done|]. case_decide as E.
  - intros [= ->]. subst. by left.
  - intros E'. right. auto.
Qed.

Lemma object_find_keys k m : is_Some (object_find k m) <-> k ∈ keys m.
Proof.
  induction m as [|[k' v'] m IH]; simpl; [split; [by intros []|by intros ?%elem_of_nil]|].
  rewrite elem_of_cons, <- IH. case_decide; naive_solver.
Qed.

Lemma sorted_keys_lt k v m k' : sorted_object ((k, v) :: m) -> k' ∈ keys m -> key_lt k k'.
Proof. intros Hs Hin. inversion Hs as [|? ? _ Hall]; subst. by eapply Forall_forall in Hall. Qed.

Lemma sorted_find_tail k v m : sorted_object ((k, v) :: m) -> object_find k m = None.
Proof.
  intros Hs. apply object_find_not_in. intros Hin. eapply sorted_keys_lt in Hin; [|done]. by apply key_lt_ne in Hin.
Qed.

Lemma sorted_object_tail kv m : sorted_object (kv :: m) -> sorted_object m.
Proof. by inversion 1. Qed.

Lemma object_find_elem k v m : sorted_object m -> (k, v) ∈ m -> object_find k m = Some v.
Proof.
  induction m as [|[k' v'] m IH]; intros Hs Hin; [by apply elem_of_nil in Hin|]. simpl.
  apply elem_of_cons in Hin as [[= -> ->]|Hin]; [by rewrite decide_True|].
  rewrite decide_False; [apply IH; [by eapply sorted_object_tail|done]|]. intros ->.
  assert (k' ∈ keys m) as Hk by (apply (list_elem_of_fmap_2 fst) in Hin; done).
  eapply sorted_keys_lt in Hk; [|done]. by apply key_lt_ne in Hk.
Qed.

Lemma object_erase_keys k m k' : k' ∈ keys (object_erase k m) -> k' ∈ keys m.
Proof.
  induction m as [|[k1 v1] m IH]; simpl; [done|]. case_decide; simpl; rewrite !elem_of_cons; naive_solver.
Qed.

Lemma object_erase_sorted k m : sorted_object m -> sorted_object (object_erase k m).
Proof.
  induction m as [|[k1 v1] m IH]; simpl; [done|]. intros Hs. pose proof (sorted_object_tail _ _ Hs) as Ht.
  case_decide; [done|]. constructor; [by apply IH|]. apply Forall_forall. intros k' Hk'.
  apply object_erase_keys in Hk'. by eapply sorted_keys_lt.
Qed.

Lemma object_erase_find k k' m : sorted_object m ->
  object_find k' (object_erase k m) = if decide (k' = k) then None else object_find k' m.
Proof.
  induction m as [|[k1 v1] m IH]; simpl; intros Hs; [by case_decide|].
  pose proof (sorted_find_tail _ _ _ Hs) as Hn. apply sorted_object_tail in Hs.
  destruct (decide (k = k1)) as [->|Hne]; simpl.
  - destruct (decide (k' = k1)) as [->|]; done.
  - rewrite IH by done. repeat case_decide; congruence.
Qed.

Lemma object_find_alter_ne f k k' m : k' <> k -> object_find k' (object_alter f k m) = object_find k' m.
Proof.
  intros Hne. induction m as [|[k1 v1] m IH]; simpl; [done|].
  destruct (decide (k = k1)); simpl; repeat case_decide; congruence.
Qed.

Lemma object_emplace_find_eq k v m : sorted_object m ->
  object_find k (object_emplace k v m) = Some (default v (object_find k m)).
Proof. intros Hs. destruct (object_emplace_find k v m) as [->|]; [by destruct (object_find k m)|done]. Qed.

Lemma object_assign_sorted k v m : sorted_object m -> sorted_object (object_assign k v m).
Proof. intros Hs. by apply object_alter_sorted, object_emplace_sorted. Qed.

Lemma object_assign_find k v k' m : sorted_object m ->
  object_find k' (object_assign k v m) = if decide (k' = k) then Some v else object_find k' m.
Proof.
  intros Hs. unfold object_assign. case_decide as E.
  - subst. by rewrite object_find_alter, object_emplace_find_eq.
  - by rewrite object_find_alter_ne, object_emplace_find_ne.
Qed.

(** Objects with related members at every key are related member by member. *)
Lemma sorted_object_rel (R : json F -> json F -> Prop) m1 : forall m2, sorted_object m1 -> sorted_object m2 ->
  (forall k, option_Forall2 R (object_find k m1) (object_find k m2)) ->
  Forall2 (fun p q => p.1 = q.1 /\ R p.2 q.2) m1 m2.
Proof.
  induction m1 as [|[k1 v1] m1 IH]; intros [|[k2 v2] m2] H1 H2 Hf.
  - constructor.
  - specialize (Hf k2). simpl in Hf. rewrite decide_True in Hf by done. inversion Hf.
  - specialize (Hf k1). simpl in Hf. rewrite decide_True in Hf by done. inversion Hf.
  - assert (k1 = k2) as ->.
    { destruct (decide (k1 = k2)) as [|Hne]; [done|exfalso].
      assert (k1 ∈ keys ((k2, v2) :: m2) /\ k2 ∈ keys ((k1, v1) :: m1)) as [Hi1 Hi2].
      { rewrite <- !object_find_keys. pose proof (Hf k1) as F1. pose proof (Hf k2) as F2.
        simpl in F1, F2. rewrite decide_True in F1 by done.
        assert (object_find k2 ((k2, v2) :: m2) = Some v2) as E2 by (simpl; by rewrite decide_True).
        simpl in E2. rewrite E2 in F2. split; simpl; [inversion F1|inversion F2]; eauto. }
      apply elem_of_cons in Hi1 as [->|Hi1]; [done|]. apply elem_of_cons in Hi2 as [->|Hi2]; [done|].
      pose proof (sorted_keys_lt _ _ _ _ H2 Hi1). pose proof (sorted_keys_lt _ _ _ _ H1 Hi2) as Hlt.
      eapply key_lt_trans in Hlt; [|done]. by apply key_lt_ne in Hlt. }
    constructor.
    + split; [done|]. specialize (Hf k2). simpl in Hf. rewrite !decide_True in Hf by done. by inversion Hf.
    + apply IH; [by eapply sorted_object_tail..|]. intros k. specialize (Hf k). simpl in Hf.
      destruct (decide (k = k2)) as [->|]; [|done].
      rewrite (sorted_find_tail _ _ _ H1), (sorted_find_tail _ _ _ H2). constructor.
Qed.

Lemma sorted_object_ext m1 m2 : sorted_object m1 -> sorted_object m2 ->
  (forall k, object_find k m1 = object_find k m2) -> m1 = m2.
Proof.
  intros H1 H2 Hf. assert (Forall2 (fun p q => p.1 = q.1 /\ p.2 = q.2) m1 m2) as Hall.
  { apply (sorted_object_rel eq); [done..|]. intros k. rewrite Hf. destruct (object_find k m2); by constructor. }
  clear -Hall. induction Hall as [|[] [] ? ? [] _ IH]; simpl in *; congruence.
Qed.

(** ** Values a program can hold: at every depth the objects are sorted and
    the arrays are shorter than [SIZE_MAX] *)

Inductive storable : json F -> Prop :=
  | storable_object m : sorted_object m -> Forall (fun kv => storable kv.2) m -> storable (value_object m)
  | storable_array l : Z.of_nat (length l) < 2 ^ 64 - 1 -> Forall storable l -> storable (value_array l)
  | storable_other j : is_structured j = false -> storable j.

Lemma storable_object_inv m : storable (value_object m) ->
  sorted_object m /\ Forall (fun kv => storable kv.2) m.
Proof. by inversion 1. Qed.

Lemma storable_array_inv l : storable (value_array l) -> Z.of_nat (length l) < 2 ^ 64 - 1 /\ Forall storable l.
Proof. by inversion 1. Qed.

Lemma Forall_object_find (P : json F -> Prop) k v m : Forall (fun kv => P kv.2) m -> object_find k m = Some v -> P v.
Proof. intros Hm E. apply object_find_in in E. by apply (proj1 (Forall_forall _ _) Hm) in E. Qed.

Lemma Forall_object_iff (P : json F -> Prop) m : sorted_object m ->
  (forall k v, object_find k m = Some v -> P v) -> Forall (fun kv => P kv.2) m.
Proof.
  intros Hs HP. apply Forall_forall. intros [k v] Hin. simpl. apply (HP k). by apply object_find_elem.
Qed.
End Modify.

(** ** Merge patches

    [merge_patch] and its specification: what a JSON merge patch (RFC 7386)
    does to each member. *)

Section Merge.
Context {F : Type}.
Implicit Types (j v : json F) (m : list (bytes * json F)).

(** The value after the call. *)
Definition merged (p j : json F) : json F := (merge_patch p j).2.

(** One turn of the loop, and the loop. *)
Definition merge_member (k : bytes) v : M F unit :=
  if is_null v then let! _ := erase_key k in mret tt
  else let! _ := mmod (fun j => index_key j k) in at_ref [PKey k] (merge_patch v).

Fixpoint merge_loop m : M F unit :=
  match m with
  | [] => mret tt
  | (k, v) :: m => let! _ := merge_member k v in merge_loop m
  end.

Lemma merge_patch_object m : merge_patch (value_object m) =
  let! this := mget in
  let! _ := (if negb (is_object this) then mput (value_object []) else mret tt) in
  merge_loop m.
Proof. reflexivity. Qed.

Example merge_ex :
  let target := value_object [(str "a", @value_number_unsigned Z 1); (str "b", value_object [(str "c", value_null)])] in
  let patch := value_object [(str "a", value_null); (str "b", value_object [(str "d", value_boolean true)])] in
  merge_patch patch target =
  (Ret tt, value_object [(str "b", value_object [(str "c", value_null); (str "d", value_boolean true)])]).
Proof. reflexivity. Qed.

(** What becomes of the member [k] with the value [old] under the member [v]
    of a patch. *)
Definition merge_result (old patch : option (json F)) : option (json F) :=
  match patch with
  | None => old
  | Some v => if is_null v then None else Some (merged v (default value_null old))
  end.

(** The patch and the values it is merged into. *)
Definition merge_ok p : Prop := forall j, storable j ->
  merge_patch p j = (Ret tt, merged p j) /\ storable (merged p j).

Lemma merge_member_spec k v m : merge_ok v -> sorted_object m -> Forall (fun kv => storable kv.2) m ->
  exists m', merge_member k v (value_object m) = (Ret tt, value_object m') /\
    sorted_object m' /\ Forall (fun kv => storable kv.2) m' /\
    forall k', object_find k' m' =
      if decide (k' = k) then merge_result (object_find k m) (Some v) else object_find k' m.
Proof.
  intros Hv Hs Hm. unfold merge_member. destruct (is_null v) eqn:En.
  - exists (object_erase k m). split_and!; [done|by apply object_erase_sorted| |].
    + apply Forall_object_iff; [by apply object_erase_sorted|]. intros k' v'.
      rewrite object_erase_find by done. case_decide; [done|]. by apply Forall_object_find.
    + intros k'. rewrite object_erase_find by done. unfold merge_result. rewrite En. by case_decide.
  - set (old := default value_null (object_find k m)).
    assert (storable old) as Hold.
    { unfold old. destruct (object_find k m) eqn:E; [by eapply Forall_object_find in E|by apply storable_other]. }
    destruct (Hv old Hold) as [Er Hr].
    exists (object_assign k (merged v old) m).
    assert (forall k', object_find k' (object_assign k (merged v old) m) =
      if decide (k' = k) then merge_result (object_find k m) (Some v) else object_find k' m) as Hf.
    { intros k'. rewrite object_assign_find by done. unfold merge_result. by rewrite En. }
    split_and!; [|by apply object_assign_sorted| |done].
    + unfold mbind, mmod. cbn [index_key is_object]. unfold at_ref. cbn [path_get step_get].
      rewrite object_emplace_find_eq by done. fold old. rewrite Er. done.
    + apply Forall_object_iff; [by apply object_assign_sorted|]. intros k' v'. rewrite Hf. case_decide.
      * unfold merge_result. rewrite En. fold old. by intros [= <-].
      * by apply Forall_object_find.
Qed.

Lemma merge_loop_spec ps : Forall (fun kv => merge_ok kv.2) ps -> sorted_object ps ->
  forall m, sorted_object m -> Forall (fun kv => storable kv.2) m ->
  exists m', merge_loop ps (value_object m) = (Ret tt, value_object m') /\
    sorted_object m' /\ Forall (fun kv => storable kv.2) m' /\
    forall k, object_find k m' = merge_result (object_find k m) (object_find k ps).
Proof.
  induction 1 as [|[k v] ps Hv _ IH]; intros Hps m Hs Hm; [by exists m|].
  destruct (merge_member_spec k v m Hv Hs Hm) as (m1 & E1 & Hs1 & Hm1 & Hf1).
  destruct (IH (sorted_object_tail _ _ Hps) m1 Hs1 Hm1) as (m2 & E2 & Hs2 & Hm2 & Hf2).
  exists m2. split_and!; [|done..|].
  - cbn [merge_loop]. unfold mbind. by rewrite E1, E2.
  - intros k'. rewrite Hf2, Hf1. simpl. case_decide as E; [|done]. subst.
    by rewrite (sorted_find_tail _ _ _ Hps).
Qed.

Lemma merge_object m j : Forall (fun kv => merge_ok kv.2) m -> sorted_object m -> storable j ->
  exists m', merge_patch (value_object m) j = (Ret tt, value_object m') /\
    sorted_object m' /\ Forall (fun kv => storable kv.2) m' /\
    forall k, object_find k m' = merge_result (find j k) (object_find k m).
Proof.
  intros Hm Hs Hj. rewrite merge_patch_object.
  destruct (is_object j) eqn:Eo.
  - destruct j as [|mj| | | | | | | |]; try done. apply storable_object_inv in Hj as [Hsj Hmj].
    by apply merge_loop_spec.
  - unfold mbind, mget. cbn [is_object]. rewrite Eo. cbn [negb mput].
    destruct (merge_loop_spec m Hm Hs [] ltac:(constructor) ltac:(constructor)) as (m' & -> & Hs' & Hm' & Hf).
    exists m'. split_and!; [done..|]. intros k. rewrite Hf. by destruct j.
Qed.

Lemma merge_total p : storable p -> merge_ok p.
Proof.
  induction p as [|m IH|l _|s|b|z|z|f|b t|] using json_ind'; intros Hp j Hj;
    try (split; [done|exact Hp]).
  apply storable_object_inv in Hp as [Hs Hm].
  assert (Forall (fun kv => merge_ok kv.2) m) as Hok.
  { clear -IH Hm. induction IH; inversion Hm; subst; constructor; auto. }
  destruct (merge_object m j Hok Hs Hj) as (m' & E & Hs' & Hm' & _). unfold merged. rewrite E.
  split; [done|by constructor].
Qed.

Lemma merge_members m j : storable (value_object m) -> storable j ->
  is_object (merged (value_object m) j) = true /\
  forall k, find (merged (value_object m) j) k = merge_result (find j k) (object_find k m).
Proof.
  intros Hp Hj. apply storable_object_inv in Hp as [Hs Hm].
  assert (Forall (fun kv => merge_ok kv.2) m) as Hok by (eapply Forall_impl; [exact Hm|]; intros; by apply merge_total).
  destruct (merge_object m j Hok Hs Hj) as (m' & E & _ & _ & Hf). unfold merged. by rewrite E.
Qed.

Lemma merged_idem p : storable p -> forall j, storable j -> merged p (merged p j) = merged p j.
Proof.
  induction p as [|m IH|l _|s|b|z|z|f|b t|] using json_ind'; intros Hp j Hj; try done.
  pose proof (merge_total _ Hp _ Hj) as [_ H1]. pose proof (merge_total _ Hp _ H1) as [_ H2].
  destruct (merge_members m j Hp Hj) as [O1 F1]. destruct (merge_members m _ Hp H1) as [O2 F2].
  destruct (merged (value_object m) j) as [|m1| | | | | | | |] eqn:E1; try done.
  destruct (merged (value_object m) (value_object m1)) as [|m2| | | | | | | |]; try done. f_equal.
  apply storable_object_inv in H1 as [Hs1 Hm1], H2 as [Hs2 Hm2].
  apply sorted_object_ext; [done..|]. intros k. specialize (F1 k). specialize (F2 k). simpl in F1, F2.
  rewrite F2, F1. destruct (object_find k m) as [v|] eqn:Ev; [|done]. unfold merge_result.
  destruct (is_null v); [done|]. simpl. f_equal. apply storable_object_inv in Hp as [_ Hm].
  apply object_find_in in Ev. apply (proj1 (Forall_forall _ _) IH _ Ev).
  - by apply (proj1 (Forall_forall _ _) Hm _ Ev).
  - destruct (find j k) as [w|] eqn:Ew; [|by apply storable_other]. simpl.
    destruct j as [|mj| | | | | | | |]; try done. apply storable_object_inv in Hj as [_ Hmj].
    by eapply Forall_object_find in Ew.
Qed.

(** C24: [merge_patch] never throws and is idempotent; a patch that is not an
    object replaces the value, and an object patch makes the value an object
    in which every member is the old one (no member in the patch), absent
    (null in the patch), or the old one, null if absent, merged with the
    member of the patch. *)
Theorem merge_patch_spec p j : storable p -> storable j ->
  merge_patch p j = (Ret tt, merged p j) /\ storable (merged p j) /\
  merge_patch p (merged p j) = (Ret tt, merged p j) /\
  match p with
  | value_object m => is_object (merged p j) = true /\
      forall k, find (merged p j) k = merge_result (find j k) (object_find k m)
  | _ => merged p j = p
  end.
Proof.
  intros Hp Hj. destruct (merge_total p Hp j Hj) as [E Hr]. destruct (merge_total p Hp _ Hr) as [E2 _].
  split_and!; [done|done|by rewrite E2, merged_idem|]. destruct p as [|m| | | | | | | |]; try done.
  by apply merge_members.
Qed.
End Merge.

Lemma merge_patch_spec_witness :
  find (merged (value_object [(str "a", value_null); (str "c", @value_boolean Z true)])
          (value_object [(str "a", value_boolean false); (str "b", value_string [])])) (str "b") =
  Some (value_string []).
Proof.
  apply (merge_patch_spec (value_object [(str "a", value_null); (str "c", @value_boolean Z true)])
           (value_object [(str "a", value_boolean false); (str "b", value_string [])])).
  all: constructor; [repeat constructor|repeat constructor; by apply storable_other].
Defined.
