(* ===== verification/JsonStorage.v ===== *)
(** How [basic_json] of [src/libephmem/json.hpp] owns its memory: the tagged
    union [m_data], whose objects, arrays, strings and binary values are
    blocks of the heap, its constructors, assignment, [swap] and the
    destructor, which takes a value apart on a stack of its own.

    The heap is a finite map from addresses to blocks.  The buffers of the
    standard containers are part of the block of the container.  Locals are
    numbered in the order of their declaration and destroyed in the reverse
    order, also when an exception leaves the scope; allocating succeeds. *)
From S2P Require Import Prelude JsonValue JsonModify.

(** ** Data *)

Inductive value_t : Set :=
  | t_null | t_object | t_array | t_string | t_boolean | t_number_integer | t_number_unsigned | t_number_float
  | t_binary | t_discarded.

#[global] Instance value_t_eq_dec : EqDecision value_t.
Proof. solve_decision. Defined.

(** The union; its four pointers are one case. *)
Inductive json_value (F : Type) : Type :=
  | v_pointer (a : option positive)
  | v_boolean (b : bool)
  | v_number_integer (z : Z)
  | v_number_unsigned (z : Z)
  | v_number_float (f : F).
Arguments v_pointer {F} _.
Arguments v_boolean {F} _.
Arguments v_number_integer {F} _.
Arguments v_number_unsigned {F} _.
Arguments v_number_float {F} _.

Record data (F : Type) := mk_data { m_type : value_t; m_value : json_value F }.
Arguments mk_data {F} _ _.
Arguments m_type {F} _.
Arguments m_value {F} _.

(** What a pointer of the union points to. *)
Inductive block (F : Type) : Type :=
  | object_block (m : list (bytes * data F))
  | array_block (l : list (data F))
  | string_block (s : bytes)
  | binary_block (b : bytes) (subtype : option Z).
Arguments object_block {F} _.
Arguments array_block {F} _.
Arguments string_block {F} _.
Arguments binary_block {F} _ _.

Abbreviation heap F := (gmap positive (block F)).

(** [std::allocator]: the memory it returns is not in use. *)
Class Allocator (F : Type) := {
  allocate : heap F -> positive;
  allocate_fresh (h : heap F) : h !! allocate h = None
}.

Section Storage.
Context {F : Type} `{FloatOps F, Allocator F}.
Implicit Types (d : data F) (ds : list (data F)) (h : heap F) (b : block F) (t : value_t) (v : json_value F).

(** ** Blocks *)

Definition block_type b : value_t :=
  match b with
  | object_block _ => t_object
  | array_block _ => t_array
  | string_block _ => t_string
  | binary_block _ _ => t_binary
  end.

Definition children b : list (data F) :=
  match b with object_block m => map snd m | array_block l => l | _ => [] end.

Definition with_children b ds : block F :=
  match b with
  | object_block m => object_block (zip (map fst m) ds)
  | array_block _ => array_block ds
  | _ => b
  end.

(** [container->clear()] of a container whose elements are destroyed. *)
Definition cleared b : block F :=
  match b with
  | object_block _ => object_block []
  | array_block _ => array_block []
  | string_block _ => string_block []
  | binary_block _ subtype => binary_block [] subtype
  end.

(** [json_value{}] and the value source by the move constructor. *)
Definition no_value : json_value F := v_pointer None.
Definition null_data : data F := mk_data t_null no_value.

Definition is_container t : bool := match t with t_array | t_object => true | _ => false end.
Definition has_pointer t : bool := match t with t_array | t_object | t_string | t_binary => true | _ => false end.

(** Following a pointer of the union. *)
Definition pointer v : comp positive :=
  match v with v_pointer (Some a) => Ret a | _ => Throw undefined_behaviour end.

Definition read t (a : positive) h : comp (block F) :=
  match h !! a with
  | Some b => if decide (block_type b = t) then Ret b else Throw undefined_behaviour
  | None => Throw undefined_behaviour
  end.

Definition create b h : positive * heap F := let a := allocate h in (a, <[a := b]> h).

Definition deallocate (a : positive) h : comp (heap F) :=
  match h !! a with Some _ => Ret (delete a h) | None => Throw undefined_behaviour end.

Definition uninitialised d : bool :=
  has_pointer (m_type d) && match m_value d with v_pointer None => true | _ => false end.

Definition assert_invariant d : comp unit := if uninitialised d then Throw assertion_failure else Ret tt.

(** ** Construction *)

(** [json_value(value_t)] *)
Definition new_value t h : json_value F * heap F :=
  let pointer_to b := let '(a, h) := create b h in (v_pointer (Some a), h) in
  match t with
  | t_object => pointer_to (object_block [])
  | t_array => pointer_to (array_block [])
  | t_string => pointer_to (string_block [])
  | t_binary => pointer_to (binary_block [] None)
  | t_boolean => (v_boolean false, h)
  | t_number_integer => (v_number_integer 0, h)
  | t_number_unsigned => (v_number_unsigned 0, h)
  | t_number_float => (v_number_float float_zero, h)
  | t_null | t_discarded => (no_value, h)
  end.

(** [basic_json(value_t)] *)
Definition construct_type t h : comp (data F * heap F) :=
  let '(v, h) := new_value t h in
  let d := mk_data t v in
  let* _ := assert_invariant d in Ret (d, h).

(** The move constructor: the new value and what it leaves of the source. *)
Definition move d : comp (data F * data F) :=
  let* _ := assert_invariant d in Ret (d, null_data).

Fixpoint copy_all (copy : data F -> heap F -> comp (data F * heap F)) ds h : comp (list (data F) * heap F) :=
  match ds with
  | [] => Ret ([], h)
  | d :: ds =>
      let* '(d', h) := copy d h in
      let* '(ds', h) := copy_all copy ds h in Ret (d' :: ds', h)
  end.

(** The copy constructor; [fuel] is the depth of the calls. *)
Fixpoint copy (fuel : nat) d h : comp (data F * heap F) :=
  match fuel with
  | O => OutOfFuel
  | S fuel =>
      let* _ := assert_invariant d in
      match m_type d with
      | (t_object | t_array) as t =>
          let* a := pointer (m_value d) in
          let* b := read t a h in
          let '(a', h) := create (cleared b) h in
          let* '(ds, h) := copy_all (copy fuel) (children b) h in
          Ret (mk_data t (v_pointer (Some a')), <[a' := with_children b ds]> h)
      | (t_string | t_binary) as t =>
          let* a := pointer (m_value d) in
          let* b := read t a h in
          let '(a', h) := create b h in
          Ret (mk_data t (v_pointer (Some a')), h)
      | t_boolean | t_number_integer | t_number_unsigned | t_number_float => Ret (d, h)
      | (t_null | t_discarded) as t => Ret (mk_data t no_value, h)
      end
  end.

(** [basic_json(size_type, const basic_json&)] *)
Definition construct_fill (fuel cnt : nat) d h : comp (data F * heap F) :=
  let '(a, h) := create (array_block []) h in
  let* '(ds, h) := copy_all (copy fuel) (repeat d cnt) h in
  Ret (mk_data t_array (v_pointer (Some a)), <[a := array_block ds]> h).

(** ** Destruction *)

Fixpoint destroy_all (dtor : data F -> heap F -> comp (heap F)) ds h : comp (heap F) :=
  match ds with
  | [] => Ret h
  | d :: ds => let* h := dtor d h in destroy_all dtor ds h
  end.

Fixpoint move_all ds : comp (list (data F) * list (data F)) :=
  match ds with
  | [] => Ret ([], [])
  | d :: ds =>
      let* '(d, source) := move d in
      let* '(ds, sources) := move_all ds in Ret (d :: ds, source :: sources)
  end.

(** [std::move] of the elements of a container, in their order. *)
Definition move_children d h : comp (list (data F) * heap F) :=
  let* a := pointer (m_value d) in
  let* b := read (m_type d) a h in
  let* '(moved, sources) := move_all (children b) in
  Ret (moved, <[a := with_children b sources]> h).

Definition clear_container (dtor : data F -> heap F -> comp (heap F)) d h : comp (heap F) :=
  let* a := pointer (m_value d) in
  let* b := read (m_type d) a h in
  let* h := destroy_all dtor (children b) h in
  Ret (<[a := cleared b]> h).

(** [while (!stack.empty())]; the back of the vector is the head of the list.
    [dtor] is the destructor of [basic_json]. *)
Fixpoint destroy_loop (dtor : data F -> heap F -> comp (heap F)) (fuel : nat) (stack : list (data F)) h : comp (heap F) :=
  match stack with
  | [] => Ret h
  | back :: stack =>
      match fuel with
      | O => OutOfFuel
      | S fuel =>
          let* '(current_item, back) := move back in
          let* h := dtor back h in                   (* stack.pop_back() *)
          let* '(pushed, h) :=
            (if is_container (m_type current_item) then
               let* '(pushed, h) := move_children current_item h in
               let* h := clear_container dtor current_item h in Ret (pushed, h)
             else Ret ([], h)) in
          let* h := dtor current_item h in
          destroy_loop dtor fuel (rev pushed ++ stack) h
      end
  end.

(** [~basic_json], whose member [m_data] calls [m_value.destroy(m_type)]. *)
Definition destructor (destroy : data F -> heap F -> comp (heap F)) d h : comp (heap F) :=
  let* _ := assert_invariant d in destroy d h.

(** [json_value::destroy]; [depth] is the depth of its calls, [fuel] bounds
    the turns of the loop. *)
Fixpoint destroy (depth fuel : nat) d h : comp (heap F) :=
  match depth with
  | O => OutOfFuel
  | S depth =>
      let dtor := destructor (destroy depth fuel) in
      if uninitialised d then Ret h
      else
        let* h :=
          (if is_container (m_type d) then
             let* '(moved, h) := move_children d h in destroy_loop dtor fuel (rev moved) h
           else Ret h) in
        if has_pointer (m_type d) then
          let* a := pointer (m_value d) in
          let* b := read (m_type d) a h in
          let* h := destroy_all dtor (children b) h in
          deallocate a h
        else Ret h
  end.

(** ** Programs on local variables *)

Record state := mk_state { locals : list (data F); store : heap F }.

Inductive statement : Type :=
  | DeclareType (t : value_t)               (* json x(t); *)
  | DeclareString (s : bytes)               (* json x(s); *)
  | DeclareInteger (z : Z)
  | DeclareCopy (y : nat)                   (* json x(y); *)
  | DeclareMove (y : nat)                   (* json x(std::move(y)); *)
  | DeclareFill (cnt y : nat)               (* json x(cnt, y); *)
  | Assign (x y : nat)                      (* x = y; *)
  | AssignMove (x y : nat)                  (* x = std::move(y); *)
  | Swap (x y : nat)                        (* x.swap(y); *)
  | PushBack (x y : nat)                    (* x.push_back(y); *)
  | PushBackMove (x y : nat)                (* x.push_back(std::move(y)); *)
  | Emplace (x : nat) (k : bytes) (y : nat) (* x.emplace(k, y); *)
  | Clear (x : nat).                        (* x.clear(); *)

Definition local {A} (x : nat) (ds : list A) : comp A :=
  match ds !! x with Some d => Ret d | None => Throw undefined_behaviour end.

(** [std::map::emplace], with the element it made for the node. *)
Fixpoint map_emplace (k : bytes) d (m : list (bytes * data F)) : list (bytes * data F) * option (data F) :=
  match m with
  | [] => ([(k, d)], None)
  | (k', d') :: m' =>
      if decide (k = k') then (m, Some d)
      else if key_ltb k k' then ((k, d) :: m, None)
      else let '(m', rejected) := map_emplace k d m' in ((k', d') :: m', rejected)
  end.

(** A function called on the local [x] that needs a container of the type
    [t]; null becomes an empty one, another type is an error. *)
Definition transform_null (t : value_t) (x : nat) (error : Z) (st : state)
    (k : positive -> state -> comp state) : comp (state * option exn) :=
  let* d := local x (locals st) in
  if negb (bool_decide (m_type d = t_null) || bool_decide (m_type d = t)) then Ret (st, Some (type_error error))
  else
    let* st :=
      (if bool_decide (m_type d = t_null) then
         let '(v, h) := new_value t (store st) in
         let d := mk_data t v in
         let* _ := assert_invariant d in Ret (mk_state (<[x := d]> (locals st)) h)
       else Ret st) in
    let* d := local x (locals st) in
    let* a := pointer (m_value d) in
    let* st := k a st in Ret (st, None).

(** [m_value.array->push_back] *)
Definition array_push_back (a : positive) d h : comp (heap F) :=
  let* b := read t_array a h in Ret (<[a := with_children b (children b ++ [d])]> h).

(** [clear] *)
Definition clear_data (dtor : data F -> heap F -> comp (heap F)) d h : comp (data F * heap F) :=
  match m_type d with
  | t_number_integer => Ret (mk_data t_number_integer (v_number_integer 0), h)
  | t_number_unsigned => Ret (mk_data t_number_unsigned (v_number_unsigned 0), h)
  | t_number_float => Ret (mk_data t_number_float (v_number_float float_zero), h)
  | t_boolean => Ret (mk_data t_boolean (v_boolean false), h)
  | t_string | t_binary | t_array | t_object => let* h := clear_container dtor d h in Ret (d, h)
  | t_null | t_discarded => Ret (d, h)
  end.

(** [operator=(basic_json other)]: swaps with its argument, which is then
    destroyed. *)
Definition assign (dtor : data F -> heap F -> comp (heap F)) (other : data F) d h : comp (data F * heap F) :=
  let* _ := assert_invariant other in
  let '(d, other) := (other, d) in
  let* _ := assert_invariant d in
  let* h := dtor other h in Ret (d, h).

Definition swap_locals (x y : nat) ds : comp (list (data F)) :=
  let* d := local x ds in
  let* d' := local y ds in Ret (<[y := d]> (<[x := d']> ds)).

(** [push_back(const basic_json&)] *)
Definition push_back_copy (fuel x y : nat) (st : state) : comp (state * option exn) :=
  transform_null t_array x 308 st (fun a '(mk_state ds h) =>
    let* d := local y ds in
    let* '(d, h) := copy fuel d h in
    let* h := array_push_back a d h in Ret (mk_state ds h)).

(** [push_back(basic_json&&)] *)
Definition push_back_move (x y : nat) (st : state) : comp (state * option exn) :=
  transform_null t_array x 308 st (fun a '(mk_state ds h) =>
    let* d := local y ds in
    let* '(d, source) := move d in
    let* h := array_push_back a d h in
    let ds := <[y := source]> ds in
    let* d := local x ds in                      (* set_parent(array->back(), ...) *)
    let* a := pointer (m_value d) in Ret (mk_state ds h)).

(** [emplace(k, y)] *)
Definition emplace_copy (dtor : data F -> heap F -> comp (heap F)) (fuel x : nat) (k : bytes) (y : nat) (st : state) :
    comp (state * option exn) :=
  transform_null t_object x 311 st (fun a '(mk_state ds h) =>
    let* d := local y ds in
    let* '(d, h) := copy fuel d h in
    let* b := read t_object a h in
    match b with
    | object_block m =>
        let '(m, rejected) := map_emplace k d m in
        let h := <[a := object_block m]> h in
        match rejected with
        | Some d => let* h := dtor d h in Ret (mk_state ds h)
        | None => Ret (mk_state ds h)
        end
    | _ => Throw undefined_behaviour
    end).

(** A statement: the state after it and the exception it leaves with. *)
Definition exec (depth fuel : nat) (s : statement) (st : state) : comp (state * option exn) :=
  let '(mk_state ds h) := st in
  let dtor := destructor (destroy depth fuel) in
  let declare '((d, h) : data F * heap F) := Ret (mk_state (ds ++ [d]) h, None) in
  match s with
  | DeclareType t => let* r := construct_type t h in declare r
  | DeclareString s =>
      let* h := destroy depth fuel null_data h in
      let '(a, h) := create (string_block s) h in
      let d := mk_data t_string (v_pointer (Some a)) in
      let* _ := assert_invariant d in declare (d, h)
  | DeclareInteger z =>
      let* h := destroy depth fuel null_data h in
      let d := mk_data t_number_integer (v_number_integer z) in
      let* _ := assert_invariant d in declare (d, h)
  | DeclareCopy y => let* d := local y ds in let* r := copy fuel d h in declare r
  | DeclareMove y =>
      let* d := local y ds in
      let* '(d, source) := move d in
      Ret (mk_state (<[y := source]> ds ++ [d]) h, None)
  | DeclareFill cnt y => let* d := local y ds in let* r := construct_fill fuel cnt d h in declare r
  | Assign x y =>
      let* d := local y ds in
      let* '(other, h) := copy fuel d h in
      let* d := local x ds in
      let* '(d, h) := assign dtor other d h in
      Ret (mk_state (<[x := d]> ds) h, None)
  | AssignMove x y =>
      let* d := local y ds in
      let* '(other, source) := move d in
      let ds := <[y := source]> ds in
      let* d := local x ds in
      let* '(d, h) := assign dtor other d h in
      Ret (mk_state (<[x := d]> ds) h, None)
  | Swap x y => let* ds := swap_locals x y ds in Ret (mk_state ds h, None)
  | PushBack x y => push_back_copy fuel x y st
  | PushBackMove x y => push_back_move x y st
  | Emplace x k y => emplace_copy dtor fuel x k y st
  | Clear x =>
      let* d := local x ds in
      let* '(d, h) := clear_data dtor d h in
      Ret (mk_state (<[x := d]> ds) h, None)
  end.

Fixpoint run (depth fuel : nat) (ss : list statement) (st : state) : comp (state * option exn) :=
  match ss with
  | [] => Ret (st, None)
  | s :: ss =>
      let* '(st, e) := exec depth fuel s st in
      match e with Some _ => Ret (st, e) | None => run depth fuel ss st end
  end.

(** The end of the scope. *)
Definition leave (depth fuel : nat) (st : state) : comp (heap F) :=
  destroy_all (destructor (destroy depth fuel)) (rev (locals st)) (store st).

(** ** What the memory of a value is *)

(** [rep j d h]: [d] is the value [j], and owns exactly the blocks [h]. *)
Inductive rep : json F -> data F -> heap F -> Prop :=
  | rep_null v : rep value_null (mk_data t_null v) ∅
  | rep_discarded v : rep value_discarded (mk_data t_discarded v) ∅
  | rep_boolean x : rep (value_boolean x) (mk_data t_boolean (v_boolean x)) ∅
  | rep_integer z : rep (value_number_integer z) (mk_data t_number_integer (v_number_integer z)) ∅
  | rep_unsigned z : rep (value_number_unsigned z) (mk_data t_number_unsigned (v_number_unsigned z)) ∅
  | rep_float f : rep (value_number_float f) (mk_data t_number_float (v_number_float f)) ∅
  | rep_string s a : rep (value_string s) (mk_data t_string (v_pointer (Some a))) (<[a := string_block s]> ∅)
  | rep_binary x s a : rep (value_binary x s) (mk_data t_binary (v_pointer (Some a))) (<[a := binary_block x s]> ∅)
  | rep_array l ds a h : reps l ds h -> h !! a = None ->
      rep (value_array l) (mk_data t_array (v_pointer (Some a))) (<[a := array_block ds]> h)
  | rep_object m ds a h : reps (map snd m) ds h -> h !! a = None ->
      rep (value_object m) (mk_data t_object (v_pointer (Some a))) (<[a := object_block (zip (map fst m) ds)]> h)
with reps : list (json F) -> list (data F) -> heap F -> Prop :=
  | reps_nil : reps [] [] ∅
  | reps_cons j d h1 js ds h2 : rep j d h1 -> reps js ds h2 -> h1 ##ₘ h2 -> reps (j :: js) (d :: ds) (h1 ∪ h2).

Definition elements (j : json F) : list (json F) :=
  match j with value_array l => l | value_object m => map snd m | _ => [] end.

Fixpoint size (j : json F) : nat :=
  S (match j with
     | value_array l => sum_list_with size l
     | value_object m => sum_list_with (fun kv => size kv.2) m
     | _ => 0
     end).

Lemma size_elements j : size j = S (sum_list_with size (elements j)).
Proof. destruct j as [|m| | | | | | | |]; try done. simpl. f_equal. induction m as [|kv m IH]; simpl; [done|lia]. Qed.

Lemma size_rev js : sum_list_with size (rev js) = sum_list_with size js.
Proof. induction js as [|j js IH]; simpl; [done|]. rewrite sum_list_with_app. simpl. lia. Qed.

Lemma reps_length js ds h : reps js ds h -> length ds = length js.
Proof. revert ds h. induction js; inversion 1; subst; simpl; [done|]. f_equal. eauto. Qed.

(** A container, whichever it is. *)
Lemma rep_container j d h : rep j d h -> is_container (m_type d) = true ->
  exists a b h', d = mk_data (m_type d) (v_pointer (Some a)) /\ h = <[a := b]> h' /\ h' !! a = None /\
    block_type b = m_type d /\ reps (elements j) (children b) h'.
Proof.
  intros Hr. destruct Hr as [| | | | | | | |l ds a h Hr Ha|m ds a h Hr Ha]; intros Hc; try done.
  - by exists a, (array_block ds), h.
  - exists a, (object_block (zip (map fst m) ds)), h. split_and!; try done. simpl.
    assert (length ds = length m) as Hl by by rewrite (reps_length _ _ _ Hr), length_map.
    change (map snd (zip (map fst m) ds)) with ((zip m.*1 ds).*2). rewrite snd_zip; [done|]. rewrite length_fmap. lia.
Qed.

Lemma rep_string_or_binary j d h : rep j d h -> is_container (m_type d) = false -> has_pointer (m_type d) = true ->
  exists a b, d = mk_data (m_type d) (v_pointer (Some a)) /\ h = <[a := b]> ∅ /\ block_type b = m_type d /\ children b = [].
Proof. intros [] Hc Hp; try done; eauto 6. Qed.

Lemma rep_primitive j d h : rep j d h -> has_pointer (m_type d) = false -> h = ∅.
Proof. by intros []. Qed.

Lemma rep_invariant j d h : rep j d h -> assert_invariant d = Ret tt.
Proof. by intros []. Qed.

Lemma rep_initialised j d h : rep j d h -> uninitialised d = false.
Proof. by intros []. Qed.

Lemma rep_null_data : rep value_null null_data ∅.
Proof. constructor. Qed.

Lemma reps_app js1 ds1 h1 js2 ds2 h2 : reps js1 ds1 h1 -> reps js2 ds2 h2 -> h1 ##ₘ h2 ->
  reps (js1 ++ js2) (ds1 ++ ds2) (h1 ∪ h2).
Proof.
  revert ds1 h1. induction js1 as [|j js1 IH]; intros ds1 h1 Hr1 Hr2 Hd; inversion Hr1; subst; simpl.
  - by rewrite map_empty_union.
  - rewrite <- map_union_assoc. constructor; [done| |solve_map_disjoint]. apply IH; [done|done|solve_map_disjoint].
Qed.

Lemma reps_one j d h : rep j d h -> reps [j] [d] h.
Proof. intros Hr. rewrite <- (map_union_empty h). constructor; [done|constructor|solve_map_disjoint]. Qed.

Lemma reps_rev js ds h : reps js ds h -> reps (rev js) (rev ds) h.
Proof.
  revert ds h. induction js as [|j js IH]; intros ds h Hr; inversion Hr; subst; simpl; [constructor|].
  rewrite map_union_comm by done. apply reps_app; [by apply IH|by apply reps_one|by symmetry].
Qed.

(** ** Destruction gives the blocks back *)

Lemma read_ok t a b h : h !! a = Some b -> block_type b = t -> read t a h = Ret b.
Proof. intros Ha Hb. unfold read. rewrite Ha. by rewrite decide_True. Qed.

Lemma move_all_ok js ds h : reps js ds h -> move_all ds = Ret (ds, map (fun _ => null_data) ds).
Proof.
  revert ds h. induction js as [|j js IH]; intros ds h Hr; inversion Hr as [|? d ? ? ds' ? Hj Hjs]; subst; [done|]. cbn [move_all].
  unfold move. rewrite (rep_invariant _ _ _ Hj). cbn [comp_bind]. by rewrite (IH _ _ Hjs).
Qed.

Lemma children_with b ds : length ds = length (children b) -> children (with_children b ds) = ds.
Proof.
  destruct b as [m| | |]; simpl; try done; try (by destruct ds). intros Hl. change (map snd (zip (map fst m) ds)) with ((zip m.*1 ds).*2).
  rewrite snd_zip; [done|]. rewrite length_map in Hl. rewrite length_fmap. lia.
Qed.

Lemma block_type_with b ds : block_type (with_children b ds) = block_type b.
Proof. by destruct b. Qed.

Lemma block_type_cleared b : block_type (cleared b) = block_type b.
Proof. by destruct b. Qed.

Lemma children_cleared b : children (cleared b) = [].
Proof. by destruct b. Qed.

Lemma cleared_with b ds : cleared (with_children b ds) = cleared b.
Proof. by destruct b. Qed.

(** The destructor of a value without children. *)
Definition shallow d h : Prop := has_pointer (m_type d) = false \/
  exists a b, m_value d = v_pointer (Some a) /\ h !! a = Some b /\ block_type b = m_type d /\ children b = [].

Definition freed d h : heap F :=
  if has_pointer (m_type d) then match m_value d with v_pointer (Some a) => delete a h | _ => h end else h.

Lemma container_pointer t : is_container t = true -> has_pointer t = true.
Proof. by destruct t. Qed.

Lemma freed_pointer d a h : m_value d = v_pointer (Some a) -> has_pointer (m_type d) = true -> freed d h = delete a h.
Proof. intros E Hp. unfold freed. by rewrite Hp, E. Qed.

Lemma freed_string_or_binary j d h f : rep j d h -> is_container (m_type d) = false -> h ##ₘ f ->
  freed d (h ∪ f) = f /\ shallow d (h ∪ f).
Proof.
  intros Hr Hc Hd. destruct (has_pointer (m_type d)) eqn:Hp.
  - destruct (rep_string_or_binary _ _ _ Hr Hc Hp) as (a & b & Ed & -> & Eb & Ec).
    assert (m_value d = v_pointer (Some a)) as Ev by by rewrite Ed. rewrite (freed_pointer d a _ Ev Hp).
    rewrite <- insert_union_l, map_empty_union. apply map_disjoint_insert_l in Hd as [Hfa _]. split.
    + by rewrite delete_insert_id.
    + right. exists a, b. by rewrite lookup_insert_eq.
  - rewrite (rep_primitive _ _ _ Hr Hp), map_empty_union. split; [by unfold freed; rewrite Hp|by left].
Qed.

Lemma with_no_children b : children b = [] -> with_children b [] = b.
Proof. destruct b as [[]|[]| |]; done. Qed.

Lemma destructor_shallow depth fuel d h : shallow d h -> destructor (destroy (S depth) fuel) d h = Ret (freed d h).
Proof.
  intros Hs. unfold destructor, freed. destruct d as [t v]. cbn [m_type m_value] in *.
  destruct Hs as [Hp|(a & b & Ev & Ea & Eb & Ec)]; cbn [m_type m_value] in *.
  - unfold assert_invariant, uninitialised. cbn [destroy m_type m_value comp_bind]. unfold uninitialised. cbn [m_type m_value].
    rewrite Hp. cbn [andb comp_bind]. destruct t; done.
  - subst v. assert (has_pointer t = true) as Hp by (subst t; by destruct b).
    assert (uninitialised (mk_data t (v_pointer (Some a))) = false) as Hu by (unfold uninitialised; by rewrite andb_false_r).
    unfold assert_invariant. rewrite Hu. cbn [comp_bind destroy]. rewrite Hu. cbn [m_type m_value].
    rewrite Hp. unfold move_children. cbn [m_type m_value pointer comp_bind].
    rewrite (read_ok t a b h Ea Eb). cbn [comp_bind]. rewrite Ec. cbn [move_all comp_bind].
    rewrite with_no_children by done. rewrite insert_id by done.
    match goal with |- comp_bind ?x _ = _ => replace x with (Ret h) by (destruct (is_container t); [|done]; by destruct fuel) end.
    cbn [comp_bind]. rewrite (read_ok t a b h Ea Eb). cbn [comp_bind]. rewrite Ec. cbn [destroy_all comp_bind].
    unfold deallocate. by rewrite Ea.
Qed.

Lemma destroy_nulls depth fuel n h :
  destroy_all (destructor (destroy (S depth) fuel)) (repeat null_data n) h = Ret h.
Proof.
  induction n as [|n IH]; [done|]. cbn [repeat destroy_all]. rewrite destructor_shallow by by left. exact IH.
Qed.

Lemma map_const_repeat ds : map (fun _ => null_data) ds = repeat null_data (length ds).
Proof. induction ds; simpl; congruence. Qed.

(** Taking the children of a container away leaves it empty. *)
Lemma move_children_ok j d h f : rep j d h -> is_container (m_type d) = true -> h ##ₘ f ->
  exists a b h', d = mk_data (m_type d) (v_pointer (Some a)) /\ block_type b = m_type d /\
    h = <[a := b]> h' /\ h' !! a = None /\ f !! a = None /\ h' ##ₘ f /\ reps (elements j) (children b) h' /\
    move_children d (h ∪ f) = Ret (children b,
      <[a := with_children b (repeat null_data (length (children b)))]> (h' ∪ f)).
Proof.
  intros Hr Hc Hd. destruct (rep_container j d h Hr Hc) as (a & b & h' & Ed & -> & Ha & Eb & Hrs).
  exists a, b, h'. apply map_disjoint_insert_l in Hd as [Hfa Hd]. split_and!; try done.
  unfold move_children. rewrite Ed. cbn [m_value pointer comp_bind].
  rewrite <- insert_union_l. rewrite (read_ok _ a b) by (by rewrite ?lookup_insert_eq).
  cbn [comp_bind]. rewrite (move_all_ok _ _ _ Hrs). cbn [comp_bind]. rewrite insert_insert_eq. by rewrite map_const_repeat.
Qed.

Lemma clear_moved depth fuel t a b n f :
  block_type b = t -> n = length (children b) ->
  clear_container (destructor (destroy (S depth) fuel)) (mk_data t (v_pointer (Some a)))
    (<[a := with_children b (repeat null_data n)]> f) = Ret (<[a := cleared b]> f).
Proof.
  intros Eb ->. unfold clear_container. cbn [m_type m_value pointer comp_bind].
  rewrite (read_ok _ a (with_children b (repeat null_data (length (children b))))) by (by rewrite ?lookup_insert_eq, ?block_type_with).
  cbn [comp_bind]. rewrite children_with by by rewrite repeat_length.
  rewrite destroy_nulls. cbn [comp_bind]. by rewrite insert_insert_eq, cleared_with.
Qed.

(** The loop destroys everything that is on the stack. *)
Lemma destroy_loop_ok depth fuel' fuel : forall js stack h f, reps js stack h -> h ##ₘ f ->
  (sum_list_with size js <= fuel)%nat ->
  destroy_loop (destructor (destroy (S depth) fuel')) fuel stack (h ∪ f) = Ret f.
Proof.
  induction fuel as [|fuel IH]; intros [|j js] stack h f Hr Hd Hf; inversion Hr as [|? d h1 ? stack' h2 Hj Hjs Hd12]; subst;
    cbn [destroy_loop]; try (by rewrite map_empty_union); [simpl in Hf; rewrite size_elements in Hf; lia|].
  simpl in Hf. rewrite size_elements in Hf. unfold move. rewrite (rep_invariant _ _ _ Hj). cbn [comp_bind].
  rewrite destructor_shallow by by left. cbn [comp_bind freed null_data m_type has_pointer].
  apply map_disjoint_union_l in Hd as [Hd1 Hd2]. rewrite <- map_union_assoc.
  destruct (is_container (m_type d)) eqn:Hc.
  - destruct (move_children_ok j d h1 (h2 ∪ f) Hj Hc) as (a & b & h' & Ed & Eb & -> & Ha & Hfa & Hd' & Hrs & ->); [solve_map_disjoint|].
    cbn [comp_bind]. rewrite Ed at 1. rewrite clear_moved by done. cbn [comp_bind].
    rewrite destructor_shallow.
    2:{ right. exists a, (cleared b). split_and!; [by rewrite Ed|by rewrite lookup_insert_eq|by rewrite block_type_cleared|apply children_cleared]. }
    assert (m_value d = v_pointer (Some a)) as Ev by by rewrite Ed.
    cbn [comp_bind]. rewrite (freed_pointer d a) by auto using container_pointer. rewrite delete_insert_id.
    2:{ apply lookup_union_None_2; [done|done]. }
    rewrite map_union_assoc. apply (IH (rev (elements j) ++ js)).
    + apply reps_app; [by apply reps_rev|done|solve_map_disjoint].
    + solve_map_disjoint.
    + rewrite sum_list_with_app, size_rev. lia.
  - destruct (freed_string_or_binary j d h1 (h2 ∪ f) Hj Hc) as [Ef Hs]; [solve_map_disjoint|].
    cbn [comp_bind rev app]. rewrite <- map_union_assoc, (destructor_shallow _ _ _ _ Hs). cbn [comp_bind]. rewrite Ef.
    apply (IH js); [done|solve_map_disjoint|lia].
Qed.

(** The destructor frees the blocks of the value and nothing else, and its
    calls are never nested deeper than two. *)
Lemma destructor_ok depth fuel j d h f : rep j d h -> h ##ₘ f -> (size j <= fuel)%nat ->
  destructor (destroy (S (S depth)) fuel) d (h ∪ f) = Ret f.
Proof.
  intros Hr Hd Hf. unfold destructor. rewrite (rep_invariant _ _ _ Hr). cbn [comp_bind].
  destruct (is_container (m_type d)) eqn:Hc.
  - destruct (move_children_ok j d h f Hr Hc Hd) as (a & b & h' & Ed & Eb & -> & Ha & Hfa & Hd' & Hrs & Em).
    rewrite size_elements in Hf. remember (S depth) as depth1. cbn [destroy]. rewrite (rep_initialised _ _ _ Hr), Hc, Em. subst depth1.
    cbn [comp_bind]. rewrite insert_union_r by done.
    rewrite (destroy_loop_ok depth fuel fuel (rev (elements j))).
    2:{ by apply reps_rev. } 2:{ by apply map_disjoint_insert_r. } 2:{ rewrite size_rev. lia. }
    cbn [comp_bind]. replace (has_pointer (m_type d)) with true by by destruct (m_type d).
    rewrite Ed. cbn [m_type m_value pointer comp_bind].
    rewrite (read_ok _ a (with_children b (repeat null_data (length (children b))))) by (by rewrite ?lookup_insert_eq, ?block_type_with).
    cbn [comp_bind]. rewrite children_with by by rewrite repeat_length. rewrite destroy_nulls. cbn [comp_bind].
    unfold deallocate. rewrite lookup_insert_eq. by rewrite delete_insert_id.
  - destruct (freed_string_or_binary j d h f Hr Hc Hd) as [Ef Hs].
    pose proof (destructor_shallow (S depth) fuel d (h ∪ f) Hs) as E. unfold destructor in E.
    rewrite (rep_invariant _ _ _ Hr) in E. cbn [comp_bind] in E. by rewrite E, Ef.
Qed.

Lemma destroy_all_ok depth fuel js ds h f : reps js ds h -> h ##ₘ f -> (sum_list_with size js <= fuel)%nat ->
  destroy_all (destructor (destroy (S (S depth)) fuel)) ds (h ∪ f) = Ret f.
Proof.
  revert ds h. induction js as [|j js IH]; intros ds h Hr Hd Hf; inversion Hr as [|? d h1 ? ds' h2 Hj Hjs Hd12]; subst; simpl in Hf.
  - by rewrite map_empty_union.
  - cbn [destroy_all]. rewrite <- map_union_assoc. rewrite (destructor_ok depth fuel j) by (done || lia || solve_map_disjoint).
    cbn [comp_bind]. apply IH; [done|solve_map_disjoint|lia].
Qed.

(** ** Copying *)

Lemma rep_container_with j t a b h ds h' : rep j (mk_data t (v_pointer (Some a))) h -> is_container t = true ->
  h !! a = Some b -> reps (elements j) ds h' -> forall a', h' !! a' = None ->
  rep j (mk_data t (v_pointer (Some a'))) (<[a' := with_children b ds]> h').
Proof.
  intros Hr Hc Hb Hrs a' Ha'. inversion Hr as [| | | | | | | |l ds0 a0 h0 Hrs0|m ds0 a0 h0 Hrs0]; subst; try done; rewrite lookup_insert_eq in Hb;
    injection Hb as <-; cbn [with_children elements] in *.
  - by constructor.
  - assert (map fst (zip (map fst m) ds0) = map fst m) as ->; [|by constructor].
    change ((zip m.*1 ds0).*1 = m.*1). apply fst_zip. rewrite (reps_length _ _ _ Hrs0), length_map, length_fmap. lia.
Qed.

Lemma rep_flat_with j t a b h : rep j (mk_data t (v_pointer (Some a))) h -> is_container t = false ->
  h !! a = Some b -> forall a', rep j (mk_data t (v_pointer (Some a'))) (<[a' := b]> ∅).
Proof.
  intros Hr Hc Hb a'. inversion Hr; subst; try done; rewrite lookup_insert_eq in Hb; injection Hb as <-; constructor.
Qed.

Lemma copy_all_ok (cp : data F -> heap F -> comp (data F * heap F)) js :
  (forall j d h h0, j ∈ js -> rep j d h -> h ⊆ h0 -> exists d' h', cp d h0 = Ret (d', h' ∪ h0) /\ rep j d' h' /\ h' ##ₘ h0) ->
  forall ds h h0, reps js ds h -> h ⊆ h0 ->
  exists ds' h', copy_all cp ds h0 = Ret (ds', h' ∪ h0) /\ reps js ds' h' /\ h' ##ₘ h0.
Proof.
  induction js as [|j js IH]; intros Hcp ds h h0 Hr Hs; inversion Hr as [|? d h1 ? ds' h2 Hj Hjs Hd12]; subst; cbn [copy_all].
  - exists [], ∅. rewrite map_empty_union. split_and!; [done|constructor|solve_map_disjoint].
  - destruct (Hcp j d h1 h0) as (d' & h1' & -> & Hj' & Hd1); [apply list_elem_of_here|done| |].
    { etrans; [by apply map_union_subseteq_l|done]. }
    cbn [comp_bind]. destruct (IH (fun j d h h0 Hin => Hcp j d h h0 (list_elem_of_further _ _ _ Hin)) ds' h2 (h1' ∪ h0)) as (ds2 & h2' & -> & Hjs' & Hd2); [done| |].
    { etrans; [by apply map_union_subseteq_r|]. etrans; [exact Hs|]. by apply map_union_subseteq_r. }
    cbn [comp_bind]. exists (d' :: ds2), (h1' ∪ h2'). split_and!.
    + do 2 f_equal. rewrite (map_union_comm h1' h2') by solve_map_disjoint. by rewrite map_union_assoc.
    + constructor; [done|done|solve_map_disjoint].
    + solve_map_disjoint.
Qed.

(** The copy owns new blocks; nothing else has changed. *)
Lemma copy_ok fuel : forall j d h h0, rep j d h -> h ⊆ h0 -> (size j <= fuel)%nat ->
  exists d' h', copy fuel d h0 = Ret (d', h' ∪ h0) /\ rep j d' h' /\ h' ##ₘ h0.
Proof.
  induction fuel as [|fuel IH]; intros j d h h0 Hr Hs Hf; [rewrite size_elements in Hf; lia|].
  rewrite size_elements in Hf. cbn [copy]. rewrite (rep_invariant _ _ _ Hr). cbn [comp_bind].
  destruct (is_container (m_type d)) eqn:Hc.
  - destruct (rep_container j d h Hr Hc) as (a & b & h' & Ed & -> & Ha & Eb & Hrs).
    assert (h0 !! a = Some b) as Hb by (eapply lookup_weaken; [|exact Hs]; by rewrite lookup_insert_eq).
    assert (h' ⊆ h0) as Hs' by (etrans; [by apply insert_subseteq|exact Hs]).
    remember (m_type d) as t eqn:Et. clear Et. subst d. cbn [m_type m_value pointer].
    assert (exists d' hn, (let* a := pointer (v_pointer (Some a)) in
        let* b := read t a h0 in let '(a', h) := create (cleared b) h0 in
        let* '(ds, h) := copy_all (copy fuel) (children b) h in
        Ret (mk_data t (v_pointer (Some a')), <[a' := with_children b ds]> h)) = Ret (d', hn ∪ h0) /\
        rep j d' hn /\ hn ##ₘ h0) as Hres; [|by destruct t].
    cbn [pointer comp_bind]. rewrite (read_ok t a b) by done. cbn [comp_bind]. unfold create.
    pose proof (allocate_fresh h0) as Hfr. set (a' := allocate h0) in *.
    destruct (copy_all_ok (copy fuel) (elements j)) with (ds := children b) (h := h') (h0 := <[a' := cleared b]> h0) as (ds' & hs & -> & Hrs' & Hd).
    + intros j' d' hj h0' Hin Hj Hsj. apply (IH j' d' hj); [done|done|].
      pose proof (sum_list_with_in j' size (elements j) Hin). lia.
    + done.
    + etrans; [exact Hs'|]. by apply insert_subseteq.
    + cbn [comp_bind]. apply map_disjoint_insert_r in Hd as [Hsa Hd].
      exists (mk_data t (v_pointer (Some a'))), (<[a' := with_children b ds']> hs). split_and!.
      * do 2 f_equal. rewrite <- insert_union_r by done. rewrite insert_insert_eq. by rewrite insert_union_l.
      * eapply rep_container_with; [exact Hr|done|by rewrite lookup_insert_eq|done|done].
      * by apply map_disjoint_insert_l.
  - destruct (has_pointer (m_type d)) eqn:Hp.
    + destruct (rep_string_or_binary _ _ _ Hr Hc Hp) as (a & b & Ed & -> & Eb & Ec).
      assert (h0 !! a = Some b) as Hb by (eapply lookup_weaken; [|exact Hs]; by rewrite lookup_insert_eq).
      exists (mk_data (m_type d) (v_pointer (Some (allocate h0)))), (<[allocate h0 := b]> ∅). split_and!.
      * remember (m_type d) as t eqn:Et. clear Et. subst d. cbn [m_type m_value pointer].
        rewrite <- insert_union_l, map_empty_union. destruct t; try done; cbn [pointer comp_bind]; by rewrite (read_ok _ a b).
      * eapply rep_flat_with; [by rewrite <- Ed|done|by rewrite lookup_insert_eq].
      * apply map_disjoint_insert_l. split; [apply allocate_fresh|solve_map_disjoint].
    + pose proof (rep_primitive _ _ _ Hr Hp). subst h. destruct d as [t v]. cbn [m_type] in *.
      exists (if decide (t = t_null \/ t = t_discarded) then mk_data t no_value else mk_data t v), ∅.
      rewrite map_empty_union. split_and!; [by destruct t|by inversion Hr; constructor|solve_map_disjoint].
Qed.

(** ** Programs on values: what the statements mean *)

Definition json_of_type t : json F :=
  match t with
  | t_null => value_null
  | t_object => value_object []
  | t_array => value_array []
  | t_string => value_string []
  | t_boolean => value_boolean false
  | t_number_integer => value_number_integer 0
  | t_number_unsigned => value_number_unsigned 0
  | t_number_float => value_number_float float_zero
  | t_binary => value_binary [] None
  | t_discarded => value_discarded
  end.

(** A member function called on the value of [x]. *)
Definition with_local {A} (x : nat) (m : M F A) (js : list (json F)) : comp (list (json F) * option exn) :=
  let* j := local x js in
  match m j with
  | (Ret _, j) => Ret (<[x := j]> js, None)
  | (Throw e, j) => Ret (<[x := j]> js, Some e)
  | (OutOfFuel, _) => OutOfFuel
  end.

(** The value of [y] when [x] is no longer null. *)
Definition argument (x y : nat) (empty : json F) (js : list (json F)) : comp (json F) :=
  let* j := local y js in Ret (if decide (x = y) then if is_null j then empty else j else j).

Definition spec_exec (s : statement) (js : list (json F)) : comp (list (json F) * option exn) :=
  match s with
  | DeclareType t => Ret (js ++ [json_of_type t], None)
  | DeclareString s => Ret (js ++ [value_string s], None)
  | DeclareInteger z => Ret (js ++ [value_number_integer z], None)
  | DeclareCopy y => let* j := local y js in Ret (js ++ [j], None)
  | DeclareMove y => let* j := local y js in Ret (<[y := value_null]> js ++ [j], None)
  | DeclareFill cnt y => let* j := local y js in Ret (js ++ [value_array (repeat j cnt)], None)
  | Assign x y =>
      let* j := local y js in
      let* _ := local x js in Ret (<[x := j]> js, None)
  | AssignMove x y =>
      let* j := local y js in
      let* _ := local x js in Ret (<[x := j]> (<[y := value_null]> js), None)
  | Swap x y =>
      let* j := local x js in
      let* j' := local y js in Ret (<[y := j]> (<[x := j']> js), None)
  | PushBack x y => let* j := argument x y (value_array []) js in with_local x (push_back j) js
  | PushBackMove x y =>
      let* j := local y js in
      if decide (x = y) then
        if is_null j || is_array j then Throw undefined_behaviour else with_local x (push_back j) js
      else
        let* '(js, e) := with_local x (push_back j) js in
        Ret (match e with None => <[y := value_null]> js | Some _ => js end, e)
  | Emplace x k y => let* j := argument x y (value_object []) js in with_local x (emplace k j) js
  | Clear x => let* j := local x js in Ret (<[x := clear j]> js, None)
  end.

Fixpoint spec_run (ss : list statement) (js : list (json F)) : comp (list (json F) * option exn) :=
  match ss with
  | [] => Ret (js, None)
  | s :: ss =>
      let* '(js, e) := spec_exec s js in
      match e with Some _ => Ret (js, e) | None => spec_run ss js end
  end.

(** ** Locals *)

Lemma local_ok {A} x (l : list A) a : local x l = Ret a <-> l !! x = Some a.
Proof. unfold local. destruct (l !! x); naive_solver. Qed.

Lemma reps_lookup js ds h i j : reps js ds h -> js !! i = Some j ->
  exists d h1 h2, ds !! i = Some d /\ rep j d h1 /\ h = h1 ∪ h2 /\ h1 ##ₘ h2 /\
    forall j' d' h', rep j' d' h' -> h' ##ₘ h2 -> reps (<[i := j']> js) (<[i := d']> ds) (h' ∪ h2).
Proof.
  revert i ds h. induction js as [|j0 js IH]; intros [|i] ds h Hr Hi; try done; inversion Hr as [|? d h1 ? ds' h2 Hj Hjs Hd12]; subst.
  - injection Hi as ->. exists d, h1, h2. split_and!; try done. intros j' d' h' Hj' Hd'. by constructor.
  - destruct (IH i ds' h2 Hjs Hi) as (di & hi & h3 & Hdi & Hji & -> & Hd3 & Hput).
    exists di, hi, (h1 ∪ h3). split_and!; [done|done| |solve_map_disjoint|].
    + rewrite !map_union_assoc. by rewrite (map_union_comm h1 hi) by solve_map_disjoint.
    + intros j' d' h' Hj' Hd'. cbn. replace (h' ∪ (h1 ∪ h3)) with (h1 ∪ (h' ∪ h3)).
      * constructor; [done|apply Hput; [done|solve_map_disjoint]|solve_map_disjoint].
      * rewrite !map_union_assoc. by rewrite (map_union_comm h1 h') by solve_map_disjoint.
Qed.

Lemma size_local js i j : js !! i = Some j -> (size j <= sum_list_with size js)%nat.
Proof. intros Hi. apply sum_list_with_in. by eapply list_elem_of_lookup_2. Qed.

Lemma reps_declare js ds h j d h' : reps js ds h -> rep j d h' -> h' ##ₘ h -> reps (js ++ [j]) (ds ++ [d]) (h' ∪ h).
Proof.
  intros Hr Hj Hd. rewrite map_union_comm by done. apply reps_app; [done|by apply reps_one|by symmetry].
Qed.

(** Moving a local away. *)
Lemma take_ok js ds h y j : reps js ds h -> js !! y = Some j ->
  exists d h1 h2, ds !! y = Some d /\ move d = Ret (d, null_data) /\ rep j d h1 /\ h = h1 ∪ h2 /\ h1 ##ₘ h2 /\
    reps (<[y := value_null]> js) (<[y := null_data]> ds) h2.
Proof.
  intros Hr Hy. destruct (reps_lookup js ds h y j Hr Hy) as (d & h1 & h2 & Hd & Hj & -> & Hd12 & Hput).
  exists d, h1, h2. split_and!; try done.
  - unfold move. by rewrite (rep_invariant _ _ _ Hj).
  - rewrite <- (map_empty_union h2). apply Hput; [constructor|solve_map_disjoint].
Qed.

(** Storing a value in a local and destroying what it held. *)
Lemma store_local_ok depth fuel js ds h x jx j d h' : reps js ds h -> js !! x = Some jx -> rep j d h' -> h' ##ₘ h ->
  (sum_list_with size js <= fuel)%nat ->
  exists dx hn, ds !! x = Some dx /\ destructor (destroy (S (S depth)) fuel) dx (h' ∪ h) = Ret hn /\
    reps (<[x := j]> js) (<[x := d]> ds) hn.
Proof.
  intros Hr Hx Hj Hd Hf. destruct (reps_lookup js ds h x jx Hr Hx) as (dx & hx & h2 & Hdx & Hjx & -> & Hd2 & Hput).
  exists dx, (h' ∪ h2). split_and!; [done| |apply Hput; [done|solve_map_disjoint]].
  rewrite map_union_assoc, (map_union_comm h' hx), <- map_union_assoc by solve_map_disjoint.
  apply (destructor_ok depth fuel jx); [done|solve_map_disjoint|]. pose proof (size_local js x jx Hx). lia.
Qed.

(** Appending a value to the array of a local. *)
Lemma push_ok js ds h x l a j d h' : reps js ds h -> js !! x = Some (value_array l) ->
  ds !! x = Some (mk_data t_array (v_pointer (Some a))) -> rep j d h' -> h' ##ₘ h ->
  exists hn, array_push_back a d (h' ∪ h) = Ret hn /\ reps (<[x := value_array (l ++ [j])]> js) ds hn.
Proof.
  intros Hr Hx Hdx Hj Hd. destruct (reps_lookup js ds h x _ Hr Hx) as (dx & hx & h2 & Hdx' & Hjx & -> & Hd2 & Hput).
  rewrite Hdx in Hdx'. injection Hdx' as <-. inversion Hjx as [| | | | | | | |? ds0 ? h0 Hrs0 Ha|]; subst.
  apply map_disjoint_insert_l in Hd2 as [Ha2 Hd2]. apply map_disjoint_union_r in Hd as [Hd Hd']. apply map_disjoint_insert_r in Hd as [Ha' Hd].
  exists (<[a := array_block (ds0 ++ [d])]> (h0 ∪ h') ∪ h2). split.
  - unfold array_push_back. rewrite (read_ok _ a (array_block ds0)); [|by rewrite lookup_union_r, <- insert_union_l, lookup_insert_eq|done].
    cbn [comp_bind with_children children]. f_equal. rewrite map_union_assoc, <- insert_union_r by done.
    rewrite <- insert_union_l, insert_insert_eq. rewrite (map_union_comm h' h0) by done. by rewrite insert_union_l.
  - rewrite <- (list_insert_id ds x _ Hdx). apply Hput; [|apply map_disjoint_insert_l; split; [done|solve_map_disjoint]].
    constructor; [|by apply lookup_union_None_2]. apply reps_app; [done|by apply reps_one|done].
Qed.

(** ** The statements do what they mean *)

Lemma new_value_ok t h : exists d h', construct_type t h = Ret (d, h' ∪ h) /\ rep (json_of_type t) d h' /\ h' ##ₘ h /\
  new_value t h = (m_value d, h' ∪ h) /\ m_type d = t /\
  (is_container t = true -> exists a, d = mk_data t (v_pointer (Some a))).
Proof.
  assert (forall b, block_type b = t -> (forall a, rep (json_of_type t) (mk_data t (v_pointer (Some a))) (<[a := b]> ∅)) ->
    new_value t h = (v_pointer (Some (allocate h)), <[allocate h := b]> h) ->
    exists d h', construct_type t h = Ret (d, h' ∪ h) /\ rep (json_of_type t) d h' /\ h' ##ₘ h /\
      new_value t h = (m_value d, h' ∪ h) /\ m_type d = t /\
      (is_container t = true -> exists a, d = mk_data t (v_pointer (Some a)))) as Hb.
  { intros b Eb Hr En. exists (mk_data t (v_pointer (Some (allocate h)))), (<[allocate h := b]> ∅).
    rewrite <- insert_union_l, map_empty_union. split_and!; try done.
    - unfold construct_type. rewrite En. unfold assert_invariant, uninitialised. cbn [m_type m_value]. by rewrite andb_false_r.
    - apply map_disjoint_insert_l. split; [apply allocate_fresh|solve_map_disjoint].
    - intros _. by eexists. }
  destruct t; try (match goal with |- exists d h', construct_type ?t h = _ /\ _ =>
      exists (mk_data t (new_value t h).1), ∅ end; rewrite map_empty_union; split_and!;
      solve [reflexivity | constructor | solve_map_disjoint | done]).
  - apply (Hb (object_block [])); [done| |done]. intros a. apply (rep_object [] [] a ∅); [constructor|apply lookup_empty].
  - apply (Hb (array_block [])); [done| |done]. intros a. apply (rep_array [] [] a ∅); [constructor|apply lookup_empty].
  - apply (Hb (string_block [])); [done| |done]. intros a. constructor.
  - apply (Hb (binary_block [] None)); [done| |done]. intros a. constructor.
Qed.

Lemma rep_type_null j d h : rep j d h -> bool_decide (m_type d = t_null) = is_null j.
Proof. by intros []. Qed.

Lemma rep_type_array j d h : rep j d h -> bool_decide (m_type d = t_array) = is_array j.
Proof. by intros []. Qed.

Lemma rep_type_object j d h : rep j d h -> bool_decide (m_type d = t_object) = is_object j.
Proof. by intros []. Qed.

(** After [transform_null] the local is a container of the type; its pointer
    is handed on. *)
Lemma transform_null_ok t x error js ds h jx k (is_t := fun j : json F =>
    match t with t_array => is_array j | _ => is_object j end) :
  t = t_array \/ t = t_object -> reps js ds h -> js !! x = Some jx ->
  if is_null jx || is_t jx then
    let jx' := if is_null jx then json_of_type t else jx in
    exists ds1 h1 a, reps (<[x := jx']> js) ds1 h1 /\ ds1 !! x = Some (mk_data t (v_pointer (Some a))) /\
      transform_null t x error (mk_state ds h) k = let* st := k a (mk_state ds1 h1) in Ret (st, None)
  else transform_null t x error (mk_state ds h) k = Ret (mk_state ds h, Some (type_error error)).
Proof.
  intros Ht Hr Hx. destruct (reps_lookup js ds h x jx Hr Hx) as (d & h1 & h2 & Hd & Hj & -> & Hd12 & Hput).
  unfold transform_null. cbn [locals store]. rewrite (proj2 (local_ok x ds d) Hd). cbn [comp_bind].
  assert (bool_decide (m_type d = t) = is_t jx) as ->.
  { destruct Ht as [-> | ->]; [by eapply rep_type_array|by eapply rep_type_object]. }
  rewrite (rep_type_null jx d h1 Hj). destruct (is_null jx) eqn:En; cbn [orb negb].
  - destruct (new_value_ok t (h1 ∪ h2)) as (dn & hn & Ec & Hn & Hdn & Ev & Et & Hp).
    destruct Hp as [a ->]; [by destruct Ht as [-> | ->]|]. unfold construct_type in Ec. rewrite Ev in Ec |- *. cbn [m_value] in Ec |- *.
    exists (<[x := mk_data t (v_pointer (Some a))]> ds), (hn ∪ (h1 ∪ h2)), a. split_and!.
    + destruct jx; try done. inversion Hj; subst. rewrite map_empty_union. apply Hput; [done|solve_map_disjoint].
    + apply list_lookup_insert_eq. by eapply lookup_lt_Some.
    + destruct (assert_invariant (mk_data t (v_pointer (Some a)))) as [[]| |] eqn:Ei; try done. cbn [comp_bind locals].
      rewrite (proj2 (local_ok x _ (mk_data t (v_pointer (Some a))))); [done|].
      apply list_lookup_insert_eq. by eapply lookup_lt_Some.
  - destruct (is_t jx) eqn:Ej; cbn [negb]; [|done]. cbn [comp_bind locals].
    rewrite (proj2 (local_ok x ds d) Hd). cbn [comp_bind].
    assert (exists a, d = mk_data t (v_pointer (Some a))) as [a ->].
    { unfold is_t in Ej. destruct Ht as [-> | ->]; inversion Hj; subst; try done; by eexists. }
    exists ds, (h1 ∪ h2), a. split_and!; [|done|done]. by rewrite list_insert_id.
Qed.

Lemma map_emplace_ok k d j h' m : rep j d h' -> forall dm h, reps (map snd m) (map snd dm) h ->
  map fst dm = map fst m -> h' ##ₘ h ->
  (map_emplace k d dm = (dm, Some d) /\ object_emplace k j m = m) \/
  exists dm', map_emplace k d dm = (dm', None) /\ map fst dm' = map fst (object_emplace k j m) /\
    reps (map snd (object_emplace k j m)) (map snd dm') (h' ∪ h).
Proof.
  intros Hj. induction m as [|[k1 j1] m IH]; intros [|[k1' d1] dm] h Hr Ek Hd; try done; cbn [map fst snd] in *.
  - inversion Hr; subst. right. exists [(k, d)]. split_and!; [done|done|]. constructor; [done|constructor|done].
  - injection Ek as -> Ek. cbn [map_emplace object_emplace]. destruct (decide (k = k1)); [by left|].
    destruct (key_ltb k k1) eqn:El.
    + right. exists ((k, d) :: (k1, d1) :: dm). split_and!; [done|cbn; by rewrite Ek|]. by constructor.
    + inversion Hr as [|? ? h1 ? ? h2 Hj1 Hrs Hd12]; subst.
      destruct (IH dm h2 Hrs Ek) as [[-> ->]|(dm' & -> & Ek' & Hrs')]; [solve_map_disjoint|by left|].
      right. exists ((k1, d1) :: dm'). split_and!; [done|cbn; by rewrite Ek'|]. cbn [map snd].
      replace (h' ∪ (h1 ∪ h2)) with (h1 ∪ (h' ∪ h2)).
      * constructor; [done|done|solve_map_disjoint].
      * rewrite !map_union_assoc. by rewrite (map_union_comm h1 h') by solve_map_disjoint.
Qed.

(** [clear] keeps the block of the value. *)
Lemma clear_ok depth fuel j d h f : rep j d h -> h ##ₘ f -> (size j <= fuel)%nat ->
  exists d' h', clear_data (destructor (destroy (S (S depth)) fuel)) d (h ∪ f) = Ret (d', h' ∪ f) /\
    rep (clear j) d' h' /\ h' ##ₘ f.
Proof.
  intros Hr Hd Hf. destruct (has_pointer (m_type d)) eqn:Hp.
  - assert (exists a b h', d = mk_data (m_type d) (v_pointer (Some a)) /\ h = <[a := b]> h' /\ h' !! a = None /\
      block_type b = m_type d /\ reps (elements j) (children b) h') as (a & b & h' & Ed & -> & Ha & Eb & Hrs).
    { destruct (is_container (m_type d)) eqn:Hc; [by apply rep_container|].
      destruct (rep_string_or_binary j d h Hr Hc Hp) as (a & b & Ed & -> & Eb & Ec).
      exists a, b, ∅. split_and!; try done. rewrite Ec. destruct Hr; try done; constructor. }
    apply map_disjoint_insert_l in Hd as [Hfa Hd]. rewrite size_elements in Hf.
    exists d, (<[a := cleared b]> ∅). split_and!.
    + assert (clear_data (destructor (destroy (S (S depth)) fuel)) d (<[a := b]> h' ∪ f) =
        let* h := clear_container (destructor (destroy (S (S depth)) fuel)) d (<[a := b]> h' ∪ f) in Ret (d, h)) as ->
        by (unfold clear_data; by destruct (m_type d)).
      unfold clear_container. rewrite Ed at 1. cbn [m_value pointer comp_bind].
      rewrite (read_ok _ a b); [|by rewrite <- insert_union_l, lookup_insert_eq|done]. cbn [comp_bind].
      rewrite <- insert_union_l, insert_union_r by done.
      rewrite (destroy_all_ok depth fuel (elements j)); [|done|by apply map_disjoint_insert_r|lia].
      cbn [comp_bind]. by rewrite insert_insert_eq, <- insert_union_l, map_empty_union.
    + remember (m_type d) as t eqn:Et. clear Et Hrs. subst d. inversion Hr; subst; destruct b; try done; cbn [clear cleared];
        solve [apply rep_string | match goal with E : <[_ := _]> _ = <[_ := _]> _ |- _ => apply (f_equal (lookup a)) in E;
            rewrite !lookup_insert_eq in E; injection E as <- <-; apply rep_binary end | apply (rep_array [] [] a ∅); [constructor|apply lookup_empty]
          | apply (rep_object [] [] a ∅); [constructor|apply lookup_empty]].
    + apply map_disjoint_insert_l. split; [done|solve_map_disjoint].
  - pose proof (rep_primitive _ _ _ Hr Hp). subst h. rewrite map_empty_union. inversion Hr; subst; try done;
      (eexists; exists ∅; rewrite map_empty_union; split_and!; [reflexivity|constructor|solve_map_disjoint]).
Qed.

Lemma push_back_value (j v' : json F) : push_back v' j =
  match j with
  | value_null => (Ret tt, value_array [v'])
  | value_array l => (Ret tt, value_array (l ++ [v']))
  | _ => (Throw (type_error 308), j)
  end.
Proof. by destruct j. Qed.

Lemma emplace_value k (j v' : json F) : exists r, emplace k v' j =
  match j with
  | value_null => (Ret r, value_object [(k, v')])
  | value_object m => (Ret r, value_object (object_emplace k v' m))
  | _ => (Throw (type_error 311), j)
  end.
Proof. destruct j; solve [exists true; reflexivity | eexists; reflexivity]. Qed.

Lemma argument_ok x y empty js jx jy : js !! x = Some jx -> argument x y empty js = Ret jy ->
  (<[x := if is_null jx then empty else jx]> js) !! y = Some jy.
Proof.
  intros Hx E. unfold argument in E. apply comp_bind_ret in E as (j & Ej & E). apply local_ok in Ej. injection E as <-.
  destruct (decide (x = y)) as [->|Hne].
  - rewrite Hx in Ej. injection Ej as <-. apply list_lookup_insert_eq. by eapply lookup_lt_Some.
  - by rewrite list_lookup_insert_ne.
Qed.

(** A copy of a local. *)
Lemma copy_local fuel js ds h y j : reps js ds h -> js !! y = Some j -> (sum_list_with size js <= fuel)%nat ->
  exists d d' h', ds !! y = Some d /\ copy fuel d h = Ret (d', h' ∪ h) /\ rep j d' h' /\ h' ##ₘ h.
Proof.
  intros Hr Hy Hf. destruct (reps_lookup js ds h y j Hr Hy) as (d & h1 & h2 & Hd & Hj & -> & _).
  pose proof (size_local js y j Hy). destruct (copy_ok fuel j d h1 (h1 ∪ h2) Hj) as (d' & h' & E & Hj' & Hd'); [by apply map_union_subseteq_l|lia|].
  eauto 10.
Qed.

Lemma size_insert js x j jx : js !! x = Some jx -> (size j <= size jx)%nat ->
  (sum_list_with size (<[x := j]> js) <= sum_list_with size js)%nat.
Proof.
  intros Hx Hs. rewrite <- (take_drop_middle js x jx Hx), sum_list_with_app.
  rewrite insert_app_r_alt by (rewrite length_take; lia). rewrite length_take_le by (apply lookup_lt_Some in Hx; lia).
  rewrite Nat.sub_diag, sum_list_with_app. simpl. lia.
Qed.

(** What a step has to give. *)
Definition steps (c : comp (state * option exn)) (js : list (json F)) (e : option exn) : Prop :=
  exists ds h, c = Ret (mk_state ds h, e) /\ reps js ds h.

Lemma exec_push_back depth fuel x y js ds h js' e : reps js ds h -> (sum_list_with size js <= fuel)%nat ->
  spec_exec (PushBack x y) js = Ret (js', e) -> steps (exec (S (S depth)) fuel (PushBack x y) (mk_state ds h)) js' e.
Proof.
  intros Hr Hf E. cbn [spec_exec] in E. apply comp_bind_ret in E as (jy & Ey & E). unfold with_local in E.
  apply comp_bind_ret in E as (jx & Ex & E). apply local_ok in Ex. rewrite push_back_value in E. cbn [exec]. unfold push_back_copy.
  match goal with |- steps (transform_null _ _ _ _ ?k) _ _ => pose proof (transform_null_ok t_array x 308 js ds h jx k (or_introl eq_refl) Hr Ex) as Ht end. cbv beta iota zeta in Ht.
  destruct (is_null jx || is_array jx) eqn:Ec.
  2:{ rewrite Ht. assert (js' = js /\ e = Some (type_error 308)) as [-> ->]; [|by exists ds, h].
      destruct jx; try done; injection E as <- <-; by rewrite list_insert_id. }
  destruct Ht as (ds1 & h1 & a & Hr1 & Hd1 & ->).
  pose proof (argument_ok x y (value_array []) js jx jy Ex Ey) as Hy.
  destruct (copy_local fuel _ ds1 h1 y jy Hr1 Hy) as (d & d' & h' & Hd & Ecp & Hj & Hdj).
  { etrans; [apply (size_insert js x _ jx Ex); destruct jx; simpl; lia|done]. }
  rewrite (proj2 (local_ok y ds1 d) Hd). cbn [comp_bind]. rewrite Ecp. cbn [comp_bind].
  assert (exists l, (if is_null jx then json_of_type t_array else jx) = value_array l /\ js' = <[x := value_array (l ++ [jy])]> js /\ e = None) as (l & El & -> & ->).
  { destruct jx; try done; injection E as <- <-; by eexists. }
  rewrite El in Hr1. destruct (push_ok _ ds1 h1 x l a jy d' h' Hr1) as (hn & -> & Hrn); [|done|done|done|].
  { apply list_lookup_insert_eq. by eapply lookup_lt_Some. }
  cbn [comp_bind]. rewrite list_insert_insert_eq in Hrn. by exists ds1, hn.
Qed.

Lemma exec_push_back_move depth fuel x y js ds h js' e : reps js ds h ->
  spec_exec (PushBackMove x y) js = Ret (js', e) -> steps (exec (S (S depth)) fuel (PushBackMove x y) (mk_state ds h)) js' e.
Proof.
  intros Hr E. cbn [spec_exec] in E. apply comp_bind_ret in E as (jy & Ey & E). apply local_ok in Ey. cbn [exec]. unfold push_back_move.
  assert (exists jx, js !! x = Some jx) as [jx Ex].
  { destruct (decide (x = y)) as [->|]; [by eexists|]. unfold with_local in E. apply comp_bind_ret in E as ([? ?] & E & _).
    apply comp_bind_ret in E as (jx & Ex & _). exists jx. by apply local_ok. }
  match goal with |- steps (transform_null _ _ _ _ ?k) _ _ => pose proof (transform_null_ok t_array x 308 js ds h jx k (or_introl eq_refl) Hr Ex) as Ht end. cbv beta iota zeta in Ht.
  destruct (is_null jx || is_array jx) eqn:Ec.
  2:{ rewrite Ht. assert (js' = js /\ e = Some (type_error 308)) as [-> ->]; [|by exists ds, h].
      unfold with_local in E. rewrite (proj2 (local_ok x js jx) Ex) in E. cbn [comp_bind] in E. rewrite push_back_value in E.
      destruct (decide (x = y)) as [<-|]; [rewrite Ex in Ey; injection Ey as <-; rewrite Ec in E|];
        (destruct jx; try done; cbn in E; injection E as <- <-; by rewrite list_insert_id). }
  destruct (decide (x = y)) as [<-|Hne]; [rewrite Ex in Ey; injection Ey as <-; by rewrite Ec in E|].
  destruct Ht as (ds1 & h1 & a & Hr1 & Hd1 & ->).
  destruct (take_ok _ ds1 h1 y jy Hr1) as (d & h2 & h3 & Hd & Em & Hj & -> & Hdj & Hr2); [by rewrite list_lookup_insert_ne|].
  rewrite (proj2 (local_ok y ds1 d) Hd). cbn [comp_bind]. rewrite Em. cbn [comp_bind].
  unfold with_local in E. rewrite (proj2 (local_ok x js jx) Ex) in E. cbn [comp_bind] in E. rewrite push_back_value in E.
  assert (exists l, (if is_null jx then json_of_type t_array else jx) = value_array l /\
      js' = <[y := value_null]> (<[x := value_array (l ++ [jy])]> js) /\ e = None) as (l & El & -> & ->).
  { destruct jx; try done; injection E as <- <-; by eexists. }
  rewrite El in Hr2. destruct (push_ok _ (<[y := null_data]> ds1) h3 x l a jy d h2 Hr2) as (hn & -> & Hrn); [| |done|done|].
  { rewrite list_lookup_insert_ne by done. apply list_lookup_insert_eq. by eapply lookup_lt_Some. }
  { by rewrite list_lookup_insert_ne. }
  cbn [comp_bind]. rewrite (proj2 (local_ok x _ (mk_data t_array (v_pointer (Some a))))) by by rewrite list_lookup_insert_ne.
  cbn [comp_bind m_value pointer]. exists (<[y := null_data]> ds1), hn. split; [done|].
  by rewrite (list_insert_insert_ne _ x y), list_insert_insert_eq in Hrn.
Qed.

Lemma exec_emplace depth fuel x k y js ds h js' e : reps js ds h -> (2 + sum_list_with size js <= fuel)%nat ->
  spec_exec (Emplace x k y) js = Ret (js', e) -> steps (exec (S (S depth)) fuel (Emplace x k y) (mk_state ds h)) js' e.
Proof.
  intros Hr Hf E. cbn [spec_exec] in E. apply comp_bind_ret in E as (jy & Ey & E). unfold with_local in E.
  apply comp_bind_ret in E as (jx & Ex & E). apply local_ok in Ex. destruct (emplace_value k jx jy) as [r Er]. rewrite Er in E.
  cbn [exec]. unfold emplace_copy.
  match goal with |- steps (transform_null _ _ _ _ ?k) _ _ => pose proof (transform_null_ok t_object x 311 js ds h jx k (or_intror eq_refl) Hr Ex) as Ht end. cbv beta iota zeta in Ht.
  destruct (is_null jx || is_object jx) eqn:Ec.
  2:{ rewrite Ht. assert (js' = js /\ e = Some (type_error 311)) as [-> ->]; [|by exists ds, h].
      destruct jx; try done; injection E as <- <-; by rewrite list_insert_id. }
  destruct Ht as (ds1 & h1 & a & Hr1 & Hd1 & ->).
  pose proof (argument_ok x y (value_object []) js jx jy Ex Ey) as Hy.
  assert (sum_list_with size (<[x := if is_null jx then json_of_type t_object else jx]> js) <= sum_list_with size js)%nat as Hsz
    by (apply (size_insert js x _ jx Ex); destruct jx; simpl; lia).
  assert (size jy <= fuel)%nat as Hsy by (etrans; [exact (size_local _ y jy Hy)|]; etrans; [exact Hsz|]; lia).
  destruct (copy_local fuel _ ds1 h1 y jy Hr1 Hy) as (d & d' & h' & Hd & Ecp & Hj & Hdj); [lia|].
  rewrite (proj2 (local_ok y ds1 d) Hd). cbn [comp_bind]. rewrite Ecp. cbn [comp_bind].
  assert (exists m, (if is_null jx then json_of_type t_object else jx) = value_object m /\
    js' = <[x := value_object (object_emplace k jy m)]> js /\ e = None) as (m & El & -> & ->).
  { destruct jx; try done; injection E as <- <-; by eexists. }
  rewrite El in Hr1. assert (<[x := value_object m]> js !! x = Some (value_object m)) as Hx.
  { apply list_lookup_insert_eq. by eapply lookup_lt_Some. }
  destruct (reps_lookup _ ds1 h1 x _ Hr1 Hx) as (dx & hx & h2 & Hdx & Hjx & -> & Hd2 & Hput).
  rewrite Hd1 in Hdx. injection Hdx as <-. inversion Hjx as [| | | | | | | | |? ds0 ? h0 Hrs0 Ha]; subst.
  apply map_disjoint_insert_l in Hd2 as [Ha2 Hd2]. apply map_disjoint_union_r in Hdj as [Hdj Hdj']. apply map_disjoint_insert_r in Hdj as [Ha' Hdj].
  rewrite (read_ok _ a (object_block (zip (map fst m) ds0))); [|by rewrite lookup_union_r, <- insert_union_l, lookup_insert_eq|done]. cbn [comp_bind].
  assert (length ds0 = length m) as Hlen by by rewrite (reps_length _ _ _ Hrs0), length_map.
  destruct (map_emplace_ok k d' jy h' m Hj (zip (map fst m) ds0) h0) as [[-> Eo]|(dm & -> & Ek & Hrs)].
  - replace (map snd (zip (map fst m) ds0)) with ds0; [done|]. symmetry. apply snd_zip. rewrite length_map. lia.
  - apply fst_zip. rewrite length_map. lia.
  - done.
  - (* the key is there: the node is destroyed *)
    rewrite Eo. exists ds1, (<[a := object_block (zip (map fst m) ds0)]> h0 ∪ h2).
    rewrite insert_id by by rewrite lookup_union_r, <- insert_union_l, lookup_insert_eq.
    rewrite (destructor_ok depth fuel jy); [|done|apply map_disjoint_union_r; split; [by apply map_disjoint_insert_r|done]|].
    + by split.
    + exact Hsy.
  - exists ds1, (<[a := object_block dm]> (h' ∪ h0) ∪ h2). cbn [comp_bind]. split.
    + do 3 f_equal. rewrite map_union_assoc, <- insert_union_r by done. by rewrite <- !insert_union_l, insert_insert_eq.
    + rewrite <- (list_insert_id ds1 x _ Hd1), <- (list_insert_insert_eq js x _ (value_object m)). apply Hput.
      * assert (dm = zip (map fst (object_emplace k jy m)) (map snd dm)) as -> by (rewrite <- Ek; symmetry; apply zip_fst_snd).
        constructor; [done|by apply lookup_union_None_2].
      * apply map_disjoint_insert_l. split; [done|solve_map_disjoint].
Qed.

Lemma copy_repeat_ok fuel cnt j d h h0 : rep j d h -> h ⊆ h0 -> (size j <= fuel)%nat ->
  exists ds h', copy_all (copy fuel) (repeat d cnt) h0 = Ret (ds, h' ∪ h0) /\ reps (repeat j cnt) ds h' /\ h' ##ₘ h0.
Proof.
  intros Hr Hs Hf. revert h0 Hs. induction cnt as [|cnt IH]; intros h0 Hs; cbn [repeat copy_all].
  - exists [], ∅. rewrite map_empty_union. split_and!; [done|constructor|solve_map_disjoint].
  - destruct (copy_ok fuel j d h h0 Hr Hs Hf) as (d1 & h1 & -> & Hj & Hd1). cbn [comp_bind].
    destruct (IH (h1 ∪ h0)) as (ds & h2 & -> & Hjs & Hd2); [etrans; [exact Hs|by apply map_union_subseteq_r]|].
    cbn [comp_bind]. exists (d1 :: ds), (h1 ∪ h2). split_and!; [|constructor; [done|done|solve_map_disjoint]|solve_map_disjoint].
    do 2 f_equal. rewrite (map_union_comm h1 h2) by solve_map_disjoint. by rewrite map_union_assoc.
Qed.

Lemma construct_fill_ok fuel cnt j d h h0 : rep j d h -> h ⊆ h0 -> (size j <= fuel)%nat ->
  exists d' h', construct_fill fuel cnt d h0 = Ret (d', h' ∪ h0) /\ rep (value_array (repeat j cnt)) d' h' /\ h' ##ₘ h0.
Proof.
  intros Hr Hs Hf. unfold construct_fill, create. pose proof (allocate_fresh h0) as Hfr. set (a := allocate h0) in *.
  destruct (copy_repeat_ok fuel cnt j d h (<[a := array_block []]> h0) Hr) as (ds & h' & -> & Hrs & Hd); [|done|].
  { etrans; [exact Hs|]. by apply insert_subseteq. }
  apply map_disjoint_insert_r in Hd as [Ha Hd]. cbn [comp_bind].
  exists (mk_data t_array (v_pointer (Some a))), (<[a := array_block ds]> h'). split_and!; [|by constructor|by apply map_disjoint_insert_l].
  do 2 f_equal. rewrite <- insert_union_r by done. by rewrite insert_insert_eq, insert_union_l.
Qed.

Lemma steps_declare js ds h j d h' : reps js ds h -> rep j d h' -> h' ##ₘ h ->
  steps (Ret (mk_state (ds ++ [d]) (h' ∪ h), None)) (js ++ [j]) None.
Proof. intros Hr Hj Hd. eexists _, _. split; [done|]. by apply reps_declare. Qed.

(** The constructors. *)
Definition is_declaration (s : statement) : bool :=
  match s with
  | DeclareType _ | DeclareString _ | DeclareInteger _ | DeclareCopy _ | DeclareMove _ | DeclareFill _ _ => true
  | _ => false
  end.

Lemma exec_declare depth fuel s js ds h js' e : is_declaration s = true -> reps js ds h ->
  (2 + sum_list_with size js <= fuel)%nat -> spec_exec s js = Ret (js', e) ->
  steps (exec (S (S depth)) fuel s (mk_state ds h)) js' e.
Proof.
  intros Hs Hr Hf E. destruct s as [t|s|z|y|y|cnt y| | | | | | |]; try done; cbn [spec_exec] in E; cbn [exec]; try (injection E as <- <-).
  - destruct (new_value_ok t h) as (d & h' & -> & Hj & Hd & _). cbn [comp_bind]. by apply steps_declare.
  - cbn [destroy uninitialised null_data m_type has_pointer andb is_container comp_bind create]. cbn.
    replace (<[allocate h := string_block s]> h) with (<[allocate h := string_block s]> ∅ ∪ h) by (by rewrite <- insert_union_l, map_empty_union).
    apply steps_declare; [done|constructor|].
    apply map_disjoint_insert_l. split; [apply allocate_fresh|solve_map_disjoint].
  - cbn. rewrite <- (map_empty_union h). apply steps_declare; [done|constructor|solve_map_disjoint].
  - apply comp_bind_ret in E as (j & Ej & E). apply local_ok in Ej. injection E as <- <-.
    destruct (copy_local fuel js ds h y j Hr Ej) as (d & d' & h' & Hd & Ec & Hj & Hdj); [lia|].
    rewrite (proj2 (local_ok y ds d) Hd). cbn [comp_bind]. rewrite Ec. cbn [comp_bind]. by apply steps_declare.
  - apply comp_bind_ret in E as (j & Ej & E). apply local_ok in Ej. injection E as <- <-.
    destruct (take_ok js ds h y j Hr Ej) as (d & h1 & h2 & Hd & Em & Hj & -> & Hdj & Hr2).
    rewrite (proj2 (local_ok y ds d) Hd). cbn [comp_bind]. rewrite Em. cbn [comp_bind]. by apply steps_declare.
  - apply comp_bind_ret in E as (j & Ej & E). apply local_ok in Ej. injection E as <- <-.
    destruct (reps_lookup js ds h y j Hr Ej) as (d & h1 & h2 & Hd & Hj & -> & _). pose proof (size_local js y j Ej).
    destruct (construct_fill_ok fuel cnt j d h1 (h1 ∪ h2) Hj) as (d' & h' & Ec & Hj' & Hd'); [by apply map_union_subseteq_l|lia|].
    rewrite (proj2 (local_ok y ds d) Hd). cbn [comp_bind]. rewrite Ec. cbn [comp_bind]. by apply steps_declare.
Qed.

(** Assignment, [swap] and [clear]. *)
Lemma exec_assign depth fuel x y js ds h js' e : reps js ds h -> (sum_list_with size js <= fuel)%nat ->
  spec_exec (Assign x y) js = Ret (js', e) -> steps (exec (S (S depth)) fuel (Assign x y) (mk_state ds h)) js' e.
Proof.
  intros Hr Hf E. cbn [spec_exec] in E. apply comp_bind_ret in E as (j & Ej & E). apply comp_bind_ret in E as (jx & Ex & E).
  apply local_ok in Ej, Ex. injection E as <- <-. cbn [exec].
  destruct (copy_local fuel js ds h y j Hr Ej Hf) as (d & d' & h' & Hd & Ec & Hj & Hdj).
  rewrite (proj2 (local_ok y ds d) Hd). cbn [comp_bind]. rewrite Ec. cbn [comp_bind].
  destruct (store_local_ok depth fuel js ds h x jx j d' h' Hr Ex Hj Hdj Hf) as (dx & hn & Hdx & Edx & Hrn).
  rewrite (proj2 (local_ok x ds dx) Hdx). cbn [comp_bind]. unfold assign.
  rewrite (rep_invariant _ _ _ Hj). cbn [comp_bind]. rewrite Edx. cbn [comp_bind]. by eexists _, _.
Qed.

Lemma exec_assign_move depth fuel x y js ds h js' e : reps js ds h -> (sum_list_with size js <= fuel)%nat ->
  spec_exec (AssignMove x y) js = Ret (js', e) -> steps (exec (S (S depth)) fuel (AssignMove x y) (mk_state ds h)) js' e.
Proof.
  intros Hr Hf E. cbn [spec_exec] in E. apply comp_bind_ret in E as (j & Ej & E). apply comp_bind_ret in E as (jx & Ex & E).
  apply local_ok in Ej, Ex. injection E as <- <-. cbn [exec].
  destruct (take_ok js ds h y j Hr Ej) as (d & h1 & h2 & Hd & Em & Hj & -> & Hdj & Hr2).
  rewrite (proj2 (local_ok y ds d) Hd). cbn [comp_bind]. rewrite Em. cbn [comp_bind].
  assert (exists jx', <[y := value_null]> js !! x = Some jx') as [jx' Ex'].
  { apply lookup_lt_is_Some_2. rewrite length_insert. by eapply lookup_lt_Some. }
  destruct (store_local_ok depth fuel _ _ h2 x jx' j d h1 Hr2 Ex' Hj Hdj) as (dx & hn & Hdx & Edx & Hrn).
  { etrans; [apply (size_insert js y _ j Ej); rewrite (size_elements j); simpl; lia|done]. }
  rewrite (proj2 (local_ok x _ dx) Hdx). cbn [comp_bind]. unfold assign.
  rewrite (rep_invariant _ _ _ Hj). cbn [comp_bind]. rewrite Edx. cbn [comp_bind]. by eexists _, _.
Qed.

Lemma exec_swap depth fuel x y js ds h js' e : reps js ds h ->
  spec_exec (Swap x y) js = Ret (js', e) -> steps (exec (S (S depth)) fuel (Swap x y) (mk_state ds h)) js' e.
Proof.
  intros Hr E. cbn [spec_exec] in E. apply comp_bind_ret in E as (jx & Ex & E). apply comp_bind_ret in E as (jy & Ey & E).
  apply local_ok in Ex, Ey. injection E as <- <-. cbn [exec]. unfold swap_locals.
  destruct (take_ok js ds h x jx Hr Ex) as (dx & h1 & h2 & Hdx & _ & Hjx & -> & Hd12 & Hr2).
  rewrite (proj2 (local_ok x ds dx) Hdx). cbn [comp_bind].
  destruct (decide (x = y)) as [->|Hne].
  - rewrite (proj2 (local_ok y ds dx) Hdx). cbn [comp_bind]. rewrite Ey in Ex. injection Ex as ->.
    exists ds, (h1 ∪ h2). split; [by rewrite list_insert_insert_eq, list_insert_id|]. by rewrite list_insert_insert_eq, list_insert_id.
  - destruct (take_ok _ _ h2 y jy Hr2) as (dy & h3 & h4 & Hdy & _ & Hjy & -> & Hd34 & Hr4); [by rewrite list_lookup_insert_ne|].
    rewrite list_lookup_insert_ne in Hdy by done. rewrite (proj2 (local_ok y ds dy) Hdy). cbn [comp_bind].
    eexists _, _. split; [reflexivity|].
    assert (forall A (l : list A) (a b c d : A), <[y := a]> (<[x := b]> l) = <[y := a]> (<[x := b]> (<[y := c]> (<[x := d]> l)))) as Hins.
    { intros A l a b c d. by rewrite (list_insert_insert_ne _ x y), !list_insert_insert_eq by done. }
    rewrite (Hins _ js jx jy value_null value_null), (Hins _ ds dx dy null_data null_data).
    destruct (reps_lookup _ _ h4 x value_null Hr4) as (d0 & h0 & h5 & _ & Hn & -> & _ & Hput).
    { rewrite list_lookup_insert_ne by done. apply list_lookup_insert_eq. by eapply lookup_lt_Some. }
    inversion Hn; subst. rewrite map_empty_union in *. specialize (Hput jy dy h3 Hjy ltac:(solve_map_disjoint)).
    destruct (reps_lookup _ _ _ y value_null Hput) as (d0 & h0 & h6 & _ & Hn' & Eh & _ & Hput').
    { rewrite list_lookup_insert_ne by done. apply list_lookup_insert_eq. rewrite length_insert. by eapply lookup_lt_Some. }
    inversion Hn'; subst. rewrite map_empty_union in Eh. subst h6. apply Hput'; [done|solve_map_disjoint].
Qed.

Lemma exec_clear depth fuel x js ds h js' e : reps js ds h -> (sum_list_with size js <= fuel)%nat ->
  spec_exec (Clear x) js = Ret (js', e) -> steps (exec (S (S depth)) fuel (Clear x) (mk_state ds h)) js' e.
Proof.
  intros Hr Hf E. cbn [spec_exec] in E. apply comp_bind_ret in E as (j & Ej & E). apply local_ok in Ej. injection E as <- <-. cbn [exec].
  destruct (reps_lookup js ds h x j Hr Ej) as (d & h1 & h2 & Hd & Hj & -> & Hd12 & Hput). pose proof (size_local js x j Ej).
  rewrite (proj2 (local_ok x ds d) Hd). cbn [comp_bind].
  destruct (clear_ok depth fuel j d h1 h2 Hj Hd12) as (d' & h' & -> & Hj' & Hd'); [lia|]. cbn [comp_bind].
  eexists _, _. split; [reflexivity|]. by apply Hput.
Qed.

Lemma exec_ok depth fuel s js ds h js' e : reps js ds h -> (2 + sum_list_with size js <= fuel)%nat ->
  spec_exec s js = Ret (js', e) -> steps (exec (S (S depth)) fuel s (mk_state ds h)) js' e.
Proof.
  intros Hr Hf E. destruct s; try (by eapply exec_declare).
  - eapply exec_assign; [done|lia|done].
  - eapply exec_assign_move; [done|lia|done].
  - by eapply exec_swap.
  - eapply exec_push_back; [done|lia|done].
  - by eapply exec_push_back_move.
  - by eapply exec_emplace.
  - eapply exec_clear; [done|lia|done].
Qed.

(** The fuel depends on the program and its values only. *)
Lemma run_ok ss : forall js js' e, spec_run ss js = Ret (js', e) ->
  exists n, forall depth fuel ds h, (n <= fuel)%nat -> reps js ds h -> steps (run (S (S depth)) fuel ss (mk_state ds h)) js' e.
Proof.
  induction ss as [|s ss IH]; intros js js' e E; cbn [spec_run] in E.
  - injection E as <- <-. exists 0%nat. intros depth fuel ds h _ Hr. by exists ds, h.
  - apply comp_bind_ret in E as ([js1 e1] & E1 & E).
    assert (exists n, forall depth fuel ds h, (n <= fuel)%nat -> reps js1 ds h ->
      steps (match e1 with Some _ => Ret (mk_state ds h, e1) | None => run (S (S depth)) fuel ss (mk_state ds h) end) js' e) as [n Hn].
    { destruct e1 as [x|]; [|by apply IH]. injection E as <- <-. exists 0%nat. intros depth fuel ds h _ Hr. by exists ds, h. }
    exists (n + (2 + sum_list_with size js))%nat. intros depth fuel ds h Hf Hr. cbn [run].
    destruct (exec_ok depth fuel s js ds h js1 e1 Hr) as (ds1 & h1 & -> & Hr1); [lia|done|]. cbn [comp_bind].
    apply Hn; [lia|done].
Qed.

Lemma leave_ok depth fuel js ds h : reps js ds h -> (sum_list_with size js <= fuel)%nat ->
  leave (S (S depth)) fuel (mk_state ds h) = Ret ∅.
Proof.
  intros Hr Hf. unfold leave. cbn [locals store]. rewrite <- (map_union_empty h).
  apply (destroy_all_ok depth fuel (rev js)); [by apply reps_rev|solve_map_disjoint|]. by rewrite size_rev.
Qed.

(** C21: the memory of values.  A program of declarations, copies, moves,
    assignments, swaps, [push_back], [emplace] and [clear] on local variables
    computes on blocks and pointers what it means on values: with enough fuel
    it runs without touching memory it does not own, ends with the same
    exception or none, and its variables hold the values meant; and the end
    of the scope gives every block back once, with the destructors nested at
    most two deep, however deep the values are. *)
Theorem storage_refines ss js e : spec_run ss [] = Ret (js, e) ->
  exists n, forall fuel, (n <= fuel)%nat -> exists st,
    run 2 fuel ss (mk_state [] ∅) = Ret (st, e) /\ reps js (locals st) (store st) /\ leave 2 fuel st = Ret ∅.
Proof.
  intros E. destruct (run_ok ss [] js e E) as [n Hn]. exists (n + sum_list_with size js)%nat. intros fuel Hf.
  destruct (Hn 0%nat fuel [] ∅) as (ds & h & Er & Hr); [lia|constructor|]. exists (mk_state ds h).
  split_and!; [done|done|]. apply (leave_ok 0 fuel js); [done|lia].
Qed.
End Storage.

(** ** Examples *)

#[local] Existing Instance example_floats.

(** An allocator that never uses an address again below the highest one. *)
Definition next_address (h : heap Z) : positive := Pos.succ (foldr (fun p => Pos.max p.1) 1%positive (map_to_list h)).

Lemma next_address_fresh h : h !! next_address h = None.
Proof.
  apply eq_None_not_Some. intros [b Hb%elem_of_map_to_list]. unfold next_address in Hb.
  assert (forall (l : list (positive * block Z)) a b, (a, b) ∈ l -> (a <= foldr (fun p => Pos.max p.1) 1 l)%positive) as Hle.
  { induction l as [|p l IH]; intros a b' Hin; [by apply elem_of_nil in Hin|]. apply elem_of_cons in Hin as [<-|Hin]; simpl; [lia|].
    specialize (IH a b' Hin). lia. }
  apply Hle in Hb. lia.
Qed.

#[local] Instance example_allocator : Allocator Z := {| allocate_fresh := next_address_fresh |}.

Notation empty_state := (mk_state (F:=Z) [] ∅).

(** An object that holds a copy and a moved array, and an error after it. *)
Definition ex_program : list statement :=
  [DeclareString (str "text"); DeclareType t_null; PushBack 1 0; DeclareType t_null; Emplace 2 (str "k") 1;
   Emplace 2 (str "k") 0; DeclareMove 1; Swap 1 3; DeclareFill 2 2; AssignMove 0 4; Clear 1; PushBackMove 1 0;
   Assign 2 2; PushBack 3 2; PushBack 2 1].

Definition ex_values : list (json Z) :=
  let o := value_object [(str "k", value_array [value_string (str "text")])] in
  [value_null; value_array [value_array [o; o]]; o; value_array [o]; value_null].

Lemma storage_refines_witness : exists n, forall fuel, (n <= fuel)%nat -> exists st,
  run 2 fuel ex_program empty_state = Ret (st, Some (type_error 308)) /\
  reps ex_values (locals st) (store st) /\ leave 2 fuel st = Ret ∅.
Proof. apply (storage_refines ex_program). vm_compute. reflexivity. Defined.

(** [n] arrays inside each other. *)
Definition nest (n : nat) : list statement :=
  DeclareType t_null :: concat (repeat [PushBackMove 1 0; AssignMove 0 1] n).

(** Taking them apart needs two calls at a time, copying them one for each. *)
Definition blocks_left (c : comp (heap Z)) : comp nat := let* h := c in Ret (length (map_to_list h)).

Example deep_values_are_destroyed :
  let deep := DeclareInteger 7 :: nest 30 in
  (let* '(st, _) := run 2 100 deep empty_state in
   Ret (length (map_to_list (store st)), blocks_left (leave 2 100 st), blocks_left (leave 1 100 st))) =
  Ret (30%nat, Ret 0%nat, OutOfFuel) /\
  run 2 30 (deep ++ [DeclareCopy 0]) empty_state = OutOfFuel.
Proof. split; vm_compute; reflexivity. Qed.

(** A null that is appended to itself is an array by then; moved into itself
    it is gone. *)
Example push_back_itself :
  spec_run (F:=Z) [DeclareType t_null; PushBack 0 0] [] = Ret ([value_array [value_array []]], None) /\
  run 2 9 [DeclareType t_null; PushBackMove 0 0] empty_state = Throw undefined_behaviour.
Proof. split; vm_compute; reflexivity. Qed.
