(* ===== verification/JsonIterator.v ===== *)
(** Iterators of the JSON library ([src/libephmem/json.hpp]):
    [primitive_iterator_t], [internal_iterator], [iter_impl],
    [json_reverse_iterator], and the proxies of [items()].

    An iterator holds the address of the value it belongs to and a position
    of each kind.  A position of a container is its distance to the
    beginning; the position of a default-constructed container iterator is
    [None].  A step out of the range of the container is undefined in C++,
    and is [undefined_behaviour] here. *)
From S2P Require Import Prelude CLib JsonValue JsonModify.

(** ** [primitive_iterator_t] *)

Definition PTRDIFF_MIN : Z := - 2 ^ 63.
Definition PTRDIFF_MAX : Z := 2 ^ 63 - 1.

(** Arithmetic of [std::ptrdiff_t]; an overflow is undefined. *)
Definition ptrdiff (z : Z) : comp Z := if in_range PTRDIFF_MIN PTRDIFF_MAX z then Ret z else Throw undefined_behaviour.

Definition begin_value : Z := 0.
Definition end_value : Z := begin_value + 1.

Definition prim_is_begin (m_it : Z) : bool := m_it =? begin_value.
Definition prim_is_end (m_it : Z) : bool := m_it =? end_value.
Definition prim_eqb (lhs rhs : Z) : bool := lhs =? rhs.
Definition prim_ltb (lhs rhs : Z) : bool := lhs <? rhs.
Definition prim_diff (lhs rhs : Z) : comp Z := ptrdiff (lhs - rhs).
Definition prim_add (m_it n : Z) : comp Z := ptrdiff (m_it + n).
Definition prim_inc (m_it : Z) : comp Z := ptrdiff (m_it + 1).
Definition prim_dec (m_it : Z) : comp Z := ptrdiff (m_it - 1).

(** ** Iterators *)

Record internal_iterator := mk_internal {
  object_iterator : option Z;
  array_iterator : option Z;
  primitive_iterator : Z
}.

(** Value-initialized. *)
Definition internal_init : internal_iterator := mk_internal None None PTRDIFF_MIN.

Record iter_impl := mk_iter {
  m_object : option Z;          (* [None] is a null pointer *)
  m_it : internal_iterator
}.

Definition iter_default : iter_impl := mk_iter None internal_init.

Definition with_object_it (it : iter_impl) (p : option Z) : iter_impl :=
  mk_iter (m_object it) (mk_internal p (array_iterator (m_it it)) (primitive_iterator (m_it it))).
Definition with_array_it (it : iter_impl) (p : option Z) : iter_impl :=
  mk_iter (m_object it) (mk_internal (object_iterator (m_it it)) p (primitive_iterator (m_it it))).
Definition with_primitive_it (it : iter_impl) (p : Z) : iter_impl :=
  mk_iter (m_object it) (mk_internal (object_iterator (m_it it)) (array_iterator (m_it it)) p).

(** [std::advance] of an iterator of a container of [n] elements. *)
Definition advance (p : option Z) (i n : Z) : comp (option Z) :=
  match p with
  | Some p => if in_range 0 n (p + i) then Ret (Some (p + i)) else Throw undefined_behaviour
  | None => Throw undefined_behaviour
  end.

(** Comparison and difference of two iterators of one container. *)
Definition position (p : option Z) : comp Z := match p with Some p => Ret p | None => Throw undefined_behaviour end.
Definition pos_eqb (p q : option Z) : comp bool :=
  match p, q with
  | Some p, Some q => Ret (p =? q)
  | None, None => Ret true
  | _, _ => Throw undefined_behaviour
  end.

Section Iterators.
Context {F : Type}.
(** The values the iterators belong to, by address. *)
Variable mem : gmap Z (json F).
Implicit Types (it other : iter_impl) (j : json F).

(** A reference into a value. *)
Definition reference : Type := Z * list pstep.

Definition read (r : reference) : option (json F) :=
  match mem !! r.1 with Some j => path_get j r.2 | None => None end.

(** [JSON_ASSERT(m_object != nullptr)] and the value behind the pointer. *)
Definition object_of_iter it : comp (Z * json F) :=
  match m_object it with
  | None => Throw assertion_failure
  | Some a => match mem !! a with Some j => Ret (a, j) | None => Throw undefined_behaviour end
  end.

Definition iter_new (object : option Z) : comp iter_impl :=
  let it := mk_iter object internal_init in
  let* '(_, j) := object_of_iter it in
  match j with
  | value_object _ => Ret (with_object_it it None)
  | value_array _ => Ret (with_array_it it None)
  | _ => Ret (with_primitive_it it PTRDIFF_MIN)
  end.

Definition set_begin it : comp iter_impl :=
  let* '(_, j) := object_of_iter it in
  match j with
  | value_object _ => Ret (with_object_it it (Some 0))
  | value_array _ => Ret (with_array_it it (Some 0))
  | value_null => Ret (with_primitive_it it end_value)
  | _ => Ret (with_primitive_it it begin_value)
  end.

Definition set_end it : comp iter_impl :=
  let* '(_, j) := object_of_iter it in
  match j with
  | value_object m => Ret (with_object_it it (Some (Z.of_nat (length m))))
  | value_array l => Ret (with_array_it it (Some (Z.of_nat (length l))))
  | _ => Ret (with_primitive_it it end_value)
  end.

(** The member an object iterator points to, and the element an array
    iterator points to. *)
Definition object_at (m : list (bytes * json F)) (p : Z) : comp (bytes * json F) :=
  if p <? 0 then Throw undefined_behaviour
  else match m !! Z.to_nat p with Some kv => Ret kv | None => Throw undefined_behaviour end.

Definition array_at (a : Z) (l : list (json F)) (p : Z) : comp reference :=
  if in_range 0 (Z.of_nat (length l) - 1) p then Ret (a, [PIdx (Z.to_nat p)]) else Throw undefined_behaviour.

(** [operator*]; [operator->] is the address of the same value, and differs
    only in having no case of its own for null. *)
Definition iter_deref it : comp reference :=
  let* '(a, j) := object_of_iter it in
  match j with
  | value_object m =>
      let* p := position (object_iterator (m_it it)) in
      if p =? Z.of_nat (length m) then Throw assertion_failure
      else let* kv := object_at m p in Ret (a, [PKey kv.1])
  | value_array l =>
      let* p := position (array_iterator (m_it it)) in
      if p =? Z.of_nat (length l) then Throw assertion_failure else array_at a l p
  | value_null => Throw (invalid_iterator 214)
  | _ => if prim_is_begin (primitive_iterator (m_it it)) then Ret (a, []) else Throw (invalid_iterator 214)
  end.

Definition iter_arrow it : comp reference :=
  let* '(a, j) := object_of_iter it in
  match j with
  | value_object m =>
      let* p := position (object_iterator (m_it it)) in
      if p =? Z.of_nat (length m) then Throw assertion_failure
      else let* kv := object_at m p in Ret (a, [PKey kv.1])
  | value_array l =>
      let* p := position (array_iterator (m_it it)) in
      if p =? Z.of_nat (length l) then Throw assertion_failure else array_at a l p
  | _ => if prim_is_begin (primitive_iterator (m_it it)) then Ret (a, []) else Throw (invalid_iterator 214)
  end.

(** [++it] and [--it] *)
Definition iter_inc it : comp iter_impl :=
  let* '(_, j) := object_of_iter it in
  match j with
  | value_object m =>
      let* p := advance (object_iterator (m_it it)) 1 (Z.of_nat (length m)) in Ret (with_object_it it p)
  | value_array l =>
      let* p := advance (array_iterator (m_it it)) 1 (Z.of_nat (length l)) in Ret (with_array_it it p)
  | _ => let* p := prim_inc (primitive_iterator (m_it it)) in Ret (with_primitive_it it p)
  end.

Definition iter_dec it : comp iter_impl :=
  let* '(_, j) := object_of_iter it in
  match j with
  | value_object m =>
      let* p := advance (object_iterator (m_it it)) (-1) (Z.of_nat (length m)) in Ret (with_object_it it p)
  | value_array l =>
      let* p := advance (array_iterator (m_it it)) (-1) (Z.of_nat (length l)) in Ret (with_array_it it p)
  | _ => let* p := prim_dec (primitive_iterator (m_it it)) in Ret (with_primitive_it it p)
  end.

(** [it++] and [it--]: the old iterator, and the one after the step. *)
Definition iter_post_inc it : comp (iter_impl * iter_impl) :=
  let result := it in let* it := iter_inc it in Ret (result, it).
Definition iter_post_dec it : comp (iter_impl * iter_impl) :=
  let result := it in let* it := iter_dec it in Ret (result, it).

(** The comparisons. *)
Definition iter_eqb it other : comp bool :=
  if bool_decide (m_object it <> m_object other) then Throw (invalid_iterator 212)
  else
    match m_object it with
    | None => Ret true
    | Some _ =>
        let* '(_, j) := object_of_iter it in
        match j with
        | value_object _ => pos_eqb (object_iterator (m_it it)) (object_iterator (m_it other))
        | value_array _ => pos_eqb (array_iterator (m_it it)) (array_iterator (m_it other))
        | _ => Ret (prim_eqb (primitive_iterator (m_it it)) (primitive_iterator (m_it other)))
        end
    end.

Definition iter_neb it other : comp bool := let* b := iter_eqb it other in Ret (negb b).

Definition iter_ltb it other : comp bool :=
  if bool_decide (m_object it <> m_object other) then Throw (invalid_iterator 212)
  else
    match m_object it with
    | None => Ret false
    | Some _ =>
        let* '(_, j) := object_of_iter it in
        match j with
        | value_object _ => Throw (invalid_iterator 213)
        | value_array _ =>
            let* p := position (array_iterator (m_it it)) in
            let* q := position (array_iterator (m_it other)) in
            Ret (p <? q)
        | _ => Ret (prim_ltb (primitive_iterator (m_it it)) (primitive_iterator (m_it other)))
        end
    end.

Definition iter_leb it other : comp bool := let* b := iter_ltb other it in Ret (negb b).
Definition iter_gtb it other : comp bool := let* b := iter_leb it other in Ret (negb b).
Definition iter_geb it other : comp bool := let* b := iter_ltb it other in Ret (negb b).

(** [operator+=], [operator-=] and what they define. *)
Definition iter_add_assign it (i : Z) : comp iter_impl :=
  let* '(_, j) := object_of_iter it in
  match j with
  | value_object _ => Throw (invalid_iterator 209)
  | value_array l =>
      let* p := advance (array_iterator (m_it it)) i (Z.of_nat (length l)) in Ret (with_array_it it p)
  | _ => let* p := prim_add (primitive_iterator (m_it it)) i in Ret (with_primitive_it it p)
  end.

Definition iter_sub_assign it (i : Z) : comp iter_impl := let* i := ptrdiff (- i) in iter_add_assign it i.
Definition iter_add it (i : Z) : comp iter_impl := iter_add_assign it i.
Definition iter_sub it (i : Z) : comp iter_impl := iter_sub_assign it i.

Definition iter_diff it other : comp Z :=
  let* '(_, j) := object_of_iter it in
  match j with
  | value_object _ => Throw (invalid_iterator 209)
  | value_array _ =>
      let* p := position (array_iterator (m_it it)) in
      let* q := position (array_iterator (m_it other)) in
      Ret (p - q)
  | _ => prim_diff (primitive_iterator (m_it it)) (primitive_iterator (m_it other))
  end.

(** [operator[]] *)
Definition iter_index it (n : Z) : comp reference :=
  let* '(a, j) := object_of_iter it in
  match j with
  | value_object _ => Throw (invalid_iterator 208)
  | value_array l =>
      let* p := advance (array_iterator (m_it it)) n (Z.of_nat (length l)) in
      let* p := position p in
      array_at a l p
  | value_null => Throw (invalid_iterator 214)
  | _ =>
      let* n := ptrdiff (- n) in
      if primitive_iterator (m_it it) =? n then Ret (a, []) else Throw (invalid_iterator 214)
  end.

Definition iter_key it : comp bytes :=
  let* '(_, j) := object_of_iter it in
  match j with
  | value_object m =>
      let* p := position (object_iterator (m_it it)) in
      let* kv := object_at m p in Ret kv.1
  | _ => Throw (invalid_iterator 207)
  end.

Definition iter_value it : comp reference := iter_deref it.

(** [begin()] and [end()] of the value at an address. *)
Definition iter_begin (a : Z) : comp iter_impl := let* result := iter_new (Some a) in set_begin result.
Definition iter_end (a : Z) : comp iter_impl := let* result := iter_new (Some a) in set_end result.

(** ** Construction from a range *)

(** The elements from [first] to [last]; other positions are no range. *)
Definition range {A} (l : list A) (first last : option Z) : comp (list A) :=
  let* p := position first in
  let* q := position last in
  if (0 <=? p) && (p <=? q) && (q <=? Z.of_nat (length l))
  then Ret (take (Z.to_nat (q - p)) (drop (Z.to_nat p) l)) else Throw undefined_behaviour.

(** [basic_json(InputIT first, InputIT last)]; the members of a range of a
    [std::map] are in order already. *)
Definition construct_range (first last : iter_impl) : comp (json F) :=
  match m_object first, m_object last with
  | Some a, Some a' =>
      if negb (a =? a') then Throw (invalid_iterator 201)
      else
        let* '(_, j) := object_of_iter first in
        match j with
        | value_boolean _ | value_number_float _ | value_number_integer _ | value_number_unsigned _ | value_string _ =>
            if negb (prim_is_begin (primitive_iterator (m_it first))) || negb (prim_is_end (primitive_iterator (m_it last)))
            then Throw (invalid_iterator 204) else Ret j
        | value_object m => let* m := range m (object_iterator (m_it first)) (object_iterator (m_it last)) in Ret (value_object m)
        | value_array l => let* l := range l (array_iterator (m_it first)) (array_iterator (m_it last)) in Ret (value_array l)
        | value_binary _ _ => Ret j
        | value_null | value_discarded => Throw (invalid_iterator 206)
        end
  | _, _ => Throw assertion_failure
  end.

(** ** [json_reverse_iterator]

    [std::reverse_iterator] keeps the iterator after the one it points to. *)

Record json_reverse_iterator := mk_reverse { base : iter_impl }.

Definition rev_inc (r : json_reverse_iterator) : comp json_reverse_iterator :=
  let* it := iter_dec (base r) in Ret (mk_reverse it).
Definition rev_dec (r : json_reverse_iterator) : comp json_reverse_iterator :=
  let* it := iter_inc (base r) in Ret (mk_reverse it).
Definition rev_add (r : json_reverse_iterator) (i : Z) : comp json_reverse_iterator :=
  let* it := iter_sub (base r) i in Ret (mk_reverse it).
Definition rev_sub (r : json_reverse_iterator) (i : Z) : comp json_reverse_iterator :=
  let* it := iter_add (base r) i in Ret (mk_reverse it).
Definition rev_diff (r other : json_reverse_iterator) : comp Z := iter_diff (base other) (base r).
Definition rev_eqb (r other : json_reverse_iterator) : comp bool := iter_eqb (base r) (base other).
Definition rev_deref (r : json_reverse_iterator) : comp reference :=
  let* it := iter_dec (base r) in iter_deref it.
Definition rev_index (r : json_reverse_iterator) (n : Z) : comp reference := let* r := rev_add r n in rev_deref r.
Definition rev_key (r : json_reverse_iterator) : comp bytes := let* it := iter_dec (base r) in iter_key it.
Definition rev_value (r : json_reverse_iterator) : comp reference := let* it := iter_dec (base r) in iter_deref it.

Definition rbegin (a : Z) : comp json_reverse_iterator := let* it := iter_end a in Ret (mk_reverse it).
Definition rend (a : Z) : comp json_reverse_iterator := let* it := iter_begin a in Ret (mk_reverse it).

(** ** [items()] *)

Record iteration_proxy_value := mk_proxy {
  anchor : iter_impl;
  array_index : Z;
  array_index_last : Z;
  array_index_str : bytes
}.

Definition proxy_new (it : iter_impl) : iteration_proxy_value := mk_proxy it 0 0 (str "0").
Definition proxy_begin (container : Z) : comp iteration_proxy_value :=
  let* it := iter_begin container in Ret (proxy_new it).
Definition proxy_end (container : Z) : comp iteration_proxy_value :=
  let* it := iter_end container in Ret (proxy_new it).

Definition proxy_inc (x : iteration_proxy_value) : comp iteration_proxy_value :=
  let* it := iter_inc (anchor x) in
  Ret (mk_proxy it (wrapu 64 (array_index x + 1)) (array_index_last x) (array_index_str x)).

Definition proxy_neb (x o : iteration_proxy_value) : comp bool := iter_neb (anchor x) (anchor o).

(** [key()] keeps the text of the last index it was asked for. *)
Definition proxy_key (x : iteration_proxy_value) : comp (bytes * iteration_proxy_value) :=
  let* '(_, j) := object_of_iter (anchor x) in
  match j with
  | value_array _ =>
      let x :=
        if negb (array_index x =? array_index_last x)
        then mk_proxy (anchor x) (array_index x) (array_index x) (to_dec (array_index x))
        else x in
      Ret (array_index_str x, x)
  | value_object _ => let* k := iter_key (anchor x) in Ret (k, x)
  | _ => Ret ([], x)
  end.

Definition proxy_value (x : iteration_proxy_value) : comp reference := iter_value (anchor x).

End Iterators.

Arguments advance : simpl never.
Arguments ptrdiff : simpl never.
