(* ===== verification/JsonIteratorSpec.v ===== *)
(** What iterators promise: from [begin()] to [end()] they visit every
    element once, in order, with its key; backwards the same in reverse; the
    arithmetic of array iterators is that of their positions; what is
    refused is refused with the documented exception. *)
From S2P Require Import Prelude CLib JsonValue JsonModify JsonIterator.

Section Spec.
Context {F : Type}.
Variable mem : gmap Z (json F).
Implicit Types (j v : json F) (a n i : Z).

(** What is in a value, by position: a step from it, a key, the element. *)
Definition items_of j : list (bytes * json F) :=
  match j with
  | value_null => []
  | value_object m => m
  | value_array l => imap (fun idx v => (to_dec (Z.of_nat idx), v)) l
  | _ => [([], j)]
  end.

(** The iterator of the value [j] at [a] that is at position [n]. *)
Definition iter_pos a j n : iter_impl :=
  let it := mk_iter (Some a) internal_init in
  match j with
  | value_object _ => with_object_it it (Some n)
  | value_array _ => with_array_it it (Some n)
  | value_null => with_primitive_it it (end_value + n)
  | _ => with_primitive_it it n
  end.

Notation len j := (Z.of_nat (size j)).

Lemma object_of_pos a j n : mem !! a = Some j -> object_of_iter mem (iter_pos a j n) = Ret (a, j).
Proof. intros E. unfold object_of_iter. destruct j; simpl; by rewrite E. Qed.

Lemma begin_pos a j : mem !! a = Some j -> iter_begin mem a = Ret (iter_pos a j 0).
Proof.
  intros E. unfold iter_begin, iter_new, set_begin, object_of_iter. simpl. rewrite E. simpl.
  destruct j; simpl; by rewrite E.
Qed.

Lemma end_pos a j : mem !! a = Some j -> iter_end mem a = Ret (iter_pos a j (len j)).
Proof.
  intros E. unfold iter_end, iter_new, set_end, object_of_iter. simpl. rewrite E. simpl.
  destruct j; simpl; by rewrite E.
Qed.

Lemma step_in n i m : 0 <= n -> 0 <= n + i <= m -> advance (Some n) i m = Ret (Some (n + i)).
Proof. intros. unfold advance. by rewrite in_range_true by lia. Qed.

Lemma step_out n i m : ~ (0 <= n + i <= m) -> advance (Some n) i m = Throw undefined_behaviour.
Proof. intros. unfold advance. by rewrite in_range_out by lia. Qed.

Lemma ptrdiff_small z : PTRDIFF_MIN <= z <= PTRDIFF_MAX -> ptrdiff z = Ret z.
Proof. intros. unfold ptrdiff. by rewrite in_range_true. Qed.

Lemma inc_pos a j n : mem !! a = Some j -> 0 <= n < len j -> iter_inc mem (iter_pos a j n) = Ret (iter_pos a j (n + 1)).
Proof.
  intros E Hn. unfold iter_inc. rewrite (object_of_pos _ _ _ E). cbn [comp_bind].
  destruct j; simpl in Hn |- *; try (rewrite step_in by lia; done); try lia;
    unfold prim_inc; rewrite ptrdiff_small by (unfold PTRDIFF_MIN, PTRDIFF_MAX; lia); done.
Qed.

Lemma dec_pos a j n : mem !! a = Some j -> 0 <= n < len j -> iter_dec mem (iter_pos a j (n + 1)) = Ret (iter_pos a j n).
Proof.
  intros E Hn. unfold iter_dec. rewrite (object_of_pos _ _ _ E). cbn [comp_bind].
  destruct j; simpl in Hn |- *; try lia;
    try (rewrite step_in by lia; cbn [comp_bind]; by replace (n + 1 + -1) with n by lia);
    unfold prim_dec; rewrite ptrdiff_small by (unfold PTRDIFF_MIN, PTRDIFF_MAX; lia); cbn [comp_bind];
    by replace (n + 1 - 1) with n by lia.
Qed.

Lemma eqb_pos a j n i : mem !! a = Some j -> iter_eqb mem (iter_pos a j n) (iter_pos a j i) = Ret (n =? i).
Proof.
  intros E. unfold iter_eqb. assert (m_object (iter_pos a j n) = Some a /\ m_object (iter_pos a j i) = Some a) as [H1 H2]
    by (by destruct j). rewrite H1, H2. rewrite bool_decide_eq_false_2 by (intros Hx; by apply Hx).
  rewrite (object_of_pos _ _ _ E). cbn [comp_bind]. destruct j; simpl; try done.
  unfold prim_eqb, end_value, begin_value. f_equal. zcases; lia.
Qed.

(** The element at a position. *)
Lemma deref_pos a j n : mem !! a = Some j -> sorted_members j -> 0 <= n < len j ->
  exists r k v, iter_deref mem (iter_pos a j n) = Ret r /\ items_of j !! Z.to_nat n = Some (k, v) /\
    read mem r = Some v /\ (is_object j = true -> iter_key mem (iter_pos a j n) = Ret k) /\
    (is_array j = true -> k = to_dec n) /\ (is_structured j = false -> k = []).
Proof.
  intros E Hs Hn. unfold iter_deref, iter_key. rewrite (object_of_pos _ _ _ E). cbn [comp_bind].
  assert (forall r v, mem !! a = Some v -> r = (a, []) -> read mem r = Some v) as Hself.
  { intros r v Ev ->. unfold read. simpl. by rewrite Ev. }
  destruct j as [|m|l|s|b|z|z|f|b t|]; simpl in Hn, Hs |- *; try lia;
    try (assert (n = 0) as -> by lia; eexists _, _, _; split_and!; [done|done|by apply Hself|done..]).
  - destruct (Z.eqb_spec n (Z.of_nat (length m))); [lia|].
    destruct (lookup_lt_is_Some_2 m (Z.to_nat n)) as [[k v] Ek]; [lia|].
    unfold object_at. destruct (Z.ltb_spec n 0); [lia|]. rewrite Ek. cbn [comp_bind fst].
    exists (a, [PKey k]), k, v. split_and!; try done. unfold read. simpl. rewrite E. simpl.
    by rewrite (object_find_elem _ _ _ Hs (list_elem_of_lookup_2 _ _ _ Ek)).
  - destruct (Z.eqb_spec n (Z.of_nat (length l))); [lia|].
    destruct (lookup_lt_is_Some_2 l (Z.to_nat n)) as [v Ev]; [lia|].
    unfold array_at. rewrite in_range_true by lia. exists (a, [PIdx (Z.to_nat n)]), (to_dec n), v.
    split_and!; try done.
    + rewrite list_lookup_imap, Ev. simpl. by rewrite Z2Nat.id by lia.
    + unfold read. simpl. rewrite E. simpl. by rewrite Ev.
Qed.

(** ** Loops *)

(** [for (auto it = begin; it != end; ++it)] over [items()], with the key and
    the value of each turn. *)
Fixpoint for_items (fuel : nat) (x last : iteration_proxy_value) : comp (list (bytes * json F)) :=
  match fuel with
  | O => OutOfFuel
  | S fuel =>
      let* b := proxy_neb mem x last in
      if b then
        let* '(k, x) := proxy_key mem x in
        let* r := proxy_value mem x in
        match read mem r with
        | Some v =>
            let* x := proxy_inc mem x in
            let* rest := for_items fuel x last in
            Ret ((k, v) :: rest)
        | None => Throw undefined_behaviour
        end
      else Ret []
  end.

Definition loop_items (fuel : nat) a : comp (list (bytes * json F)) :=
  let* x := proxy_begin mem a in
  let* last := proxy_end mem a in
  for_items fuel x last.

(** The loop with reverse iterators. *)
Fixpoint for_reverse (fuel : nat) (r last : json_reverse_iterator) : comp (list (json F)) :=
  match fuel with
  | O => OutOfFuel
  | S fuel =>
      let* b := rev_eqb mem r last in
      if negb b then
        let* x := rev_value mem r in
        match read mem x with
        | Some v =>
            let* r := rev_inc mem r in
            let* rest := for_reverse fuel r last in
            Ret (v :: rest)
        | None => Throw undefined_behaviour
        end
      else Ret []
  end.

Definition loop_reverse (fuel : nat) a : comp (list (json F)) :=
  let* r := rbegin mem a in
  let* last := rend mem a in
  for_reverse fuel r last.

Lemma items_length j : length (items_of j) = size j.
Proof. destruct j; simpl; try done. apply length_imap. Qed.

(** The proxy at a position; its cached text belongs to its cached index. *)
Definition proxy_at a j n (x : iteration_proxy_value) : Prop :=
  anchor x = iter_pos a j n /\ array_index x = n /\ array_index_str x = to_dec (array_index_last x).

Lemma proxy_key_at a j n x k v : mem !! a = Some j -> sorted_members j -> 0 <= n < len j -> proxy_at a j n x ->
  items_of j !! Z.to_nat n = Some (k, v) ->
  exists x', proxy_key mem x = Ret (k, x') /\ proxy_at a j n x'.
Proof.
  intros E Hs Hn (Ha & Hi & Hc) Hk.
  destruct (deref_pos a j n E Hs Hn) as (r & k' & v' & _ & Hk' & _ & Ho & Hl & Hp).
  rewrite Hk in Hk'. injection Hk' as <- <-. unfold proxy_key. rewrite Ha, (object_of_pos _ _ _ E). cbn [comp_bind].
  destruct j; simpl in Hn; try lia; try (exists x; rewrite Hp by done; done).
  - exists x. by rewrite Ho.
  - rewrite Hl by done. subst n.
    destruct (Z.eqb_spec (array_index x) (array_index_last x)) as [Ei|_]; simpl.
    + exists x. split; [by rewrite Hc, Ei|by split_and!].
    + eexists. split; [done|]. by split_and!.
Qed.

Lemma for_items_at a j last fuel : mem !! a = Some j -> sorted_members j -> len j < 2 ^ 64 ->
  proxy_at a j (len j) (mk_proxy last (len j) 0 (to_dec 0)) -> forall n x, 0 <= n <= len j -> proxy_at a j n x ->
  forall y, anchor y = last -> (Z.to_nat (len j - n) < fuel)%nat ->
  for_items fuel x y = Ret (drop (Z.to_nat n) (items_of j)).
Proof.
  intros E Hs Hl (Hlast & _). simpl in Hlast. induction fuel as [|fuel IH]; intros n x Hn Hx y Hy Hf; [lia|].
  cbn [for_items]. unfold proxy_neb, iter_neb. pose proof Hx as (Ha & Hi & Hc).
  rewrite Ha, Hy, Hlast, (eqb_pos _ _ _ _ E). cbn [comp_bind]. destruct (Z.eqb_spec n (len j)) as [->|Hne]; cbn [negb].
  - by rewrite drop_ge by (rewrite items_length; lia).
  - assert (0 <= n < len j) as Hn' by lia.
    destruct (deref_pos a j n E Hs Hn') as (r & k & v & Hr & Hk & Hv & _).
    destruct (proxy_key_at a j n x k v E Hs Hn' Hx Hk) as (x' & -> & Ha' & Hi' & Hc'). cbn [comp_bind].
    unfold proxy_value, iter_value. rewrite Ha', Hr. cbn [comp_bind]. rewrite Hv. unfold proxy_inc.
    rewrite Ha', (inc_pos _ _ _ E Hn'). cbn [comp_bind].
    rewrite (IH (n + 1)); [|lia| |done|lia].
    + cbn [comp_bind]. rewrite (drop_S _ _ _ Hk). do 3 f_equal. lia.
    + split_and!; [done| |done]. simpl. rewrite Hi', wrapu_small by lia. done.
Qed.

Lemma for_reverse_at a j fuel last : mem !! a = Some j -> sorted_members j -> last = mk_reverse (iter_pos a j 0) ->
  forall n, 0 <= n <= len j -> (Z.to_nat n < fuel)%nat ->
  for_reverse fuel (mk_reverse (iter_pos a j n)) last = Ret (rev (take (Z.to_nat n) (items_of j).*2)).
Proof.
  intros E Hs ->. induction fuel as [|fuel IH]; intros n Hn Hf; [lia|].
  cbn [for_reverse]. unfold rev_eqb. cbn [base]. rewrite (eqb_pos _ _ _ _ E). cbn [comp_bind].
  destruct (Z.eqb_spec n 0) as [->|Hne]; cbn [negb]; [done|].
  assert (exists i, n = i + 1 /\ 0 <= i < len j) as (i & -> & Hi) by (exists (n - 1); lia).
  destruct (deref_pos a j i E Hs Hi) as (r & k & v & Hr & Hk & Hv & _).
  unfold rev_value, rev_inc. cbn [base]. rewrite (dec_pos _ _ _ E Hi). cbn [comp_bind]. rewrite Hr. cbn [comp_bind].
  rewrite Hv, IH by lia. cbn [comp_bind]. replace (Z.to_nat (i + 1)) with (S (Z.to_nat i)) by lia.
  rewrite (take_S_r _ _ v) by (rewrite list_lookup_fmap, Hk; done). by rewrite rev_app_distr.
Qed.

(** ** Properties *)

(** C27: iterating visits every element once.  For a value at any address, a
    loop over [items()] from [begin()] to [end()] ends, no assertion fails
    and no iterator leaves its range, and it meets exactly the elements in
    order, each with its key: the index of an array element in decimal (the
    proxy caches its text), the key of a member, the empty key for a value
    that is no container; a null has no element.  A loop with reverse
    iterators meets the same elements backwards. *)
Theorem items_visits a j fuel : mem !! a = Some j -> sorted_members j -> len j < 2 ^ 64 -> (size j < fuel)%nat ->
  loop_items fuel a = Ret (items_of j) /\ loop_reverse fuel a = Ret (rev (items_of j).*2).
Proof.
  intros E Hs Hl Hf. unfold loop_items, loop_reverse, proxy_begin, proxy_end, rbegin, rend.
  rewrite (begin_pos _ _ E), (end_pos _ _ E). cbn [comp_bind]. split.
  - rewrite (for_items_at a j (iter_pos a j (len j)) fuel E Hs Hl) with (n := 0); try done; try lia; by split_and!.
  - rewrite (for_reverse_at a j fuel _ E Hs eq_refl) by lia. rewrite Nat2Z.id, take_ge; [done|].
    by rewrite length_fmap, items_length.
Qed.

(** Array iterators are the positions of the array.  Adding, subtracting,
    distance, the six comparisons and [operator[]] compute with the positions
    [0] to [size()], and a step out of this range is undefined behaviour. *)
Theorem array_iterator_arithmetic a l n i : mem !! a = Some (value_array l) -> Z.of_nat (length l) < 2 ^ 63 ->
  0 <= n <= Z.of_nat (length l) -> 0 <= n + i <= Z.of_nat (length l) ->
  let it := iter_pos a (value_array l) n in
  let it' := iter_pos a (value_array l) (n + i) in
  iter_add mem it i = Ret it' /\ iter_sub mem it' i = Ret it /\ iter_diff mem it' it = Ret i /\
  iter_eqb mem it it' = Ret (i =? 0) /\ iter_neb mem it it' = Ret (negb (i =? 0)) /\
  iter_ltb mem it it' = Ret (0 <? i) /\ iter_leb mem it it' = Ret (0 <=? i) /\
  iter_gtb mem it it' = Ret (i <? 0) /\ iter_geb mem it it' = Ret (i <=? 0) /\
  (n + i < Z.of_nat (length l) -> iter_index mem it i = iter_deref mem it') /\
  (forall d, ~ (0 <= n + d <= Z.of_nat (length l)) -> iter_add mem it d = Throw undefined_behaviour).
Proof.
  intros E Hl Hn Hi it it'. pose proof (fun n => object_of_pos a (value_array l) n E) as Ho.
  assert (forall x y, iter_ltb mem (iter_pos a (value_array l) x) (iter_pos a (value_array l) y) = Ret (x <? y)) as Hlt.
  { intros x y. unfold iter_ltb. change (m_object (iter_pos a (value_array l) x)) with (Some a).
    change (m_object (iter_pos a (value_array l) y)) with (Some a).
    rewrite bool_decide_eq_false_2 by congruence. by rewrite Ho. }
  assert (forall x y, iter_eqb mem (iter_pos a (value_array l) x) (iter_pos a (value_array l) y) = Ret (x =? y)) as Heq
    by (intros; by apply eqb_pos).
  unfold it, it', iter_neb, iter_gtb, iter_geb, iter_leb, iter_sub, iter_sub_assign, iter_add, iter_add_assign, iter_diff, iter_index, iter_deref.
  rewrite ptrdiff_small by (unfold PTRDIFF_MIN, PTRDIFF_MAX; lia). rewrite !Heq, !Hlt, !Ho.
  cbn [comp_bind iter_pos with_array_it m_it array_iterator position].
  rewrite (step_in n i), (step_in (n + i) (- i)) by lia. cbn [comp_bind position].
  split_and!; try (f_equal; zcases; simpl; lia); try done.
  - by replace (n + i + - i) with n by lia.
  - intros Hlast. by destruct (Z.eqb_spec (n + i) (Z.of_nat (length l))); [lia|].
  - intros d Hd. by rewrite step_out.
Qed.

(** Misuse of iterators is reported.  Iterators of different values
    cannot be compared; iterators of an object have no order, no offsets and
    no [operator[]]; only they have keys; there is nothing behind an iterator
    of a null, nor behind the end of a value that is no container. *)
Theorem iterator_errors (it other : iter_impl) a j i :
  (m_object it <> m_object other ->
    iter_eqb mem it other = Throw (invalid_iterator 212) /\ iter_neb mem it other = Throw (invalid_iterator 212) /\
    iter_ltb mem it other = Throw (invalid_iterator 212) /\ iter_leb mem it other = Throw (invalid_iterator 212) /\
    iter_gtb mem it other = Throw (invalid_iterator 212) /\ iter_geb mem it other = Throw (invalid_iterator 212)) /\
  (m_object it = Some a -> mem !! a = Some j ->
    (is_object j = true -> PTRDIFF_MIN < i <= PTRDIFF_MAX ->
      (m_object other = Some a -> iter_ltb mem it other = Throw (invalid_iterator 213) /\
        iter_leb mem it other = Throw (invalid_iterator 213) /\ iter_gtb mem it other = Throw (invalid_iterator 213) /\
        iter_geb mem it other = Throw (invalid_iterator 213)) /\
      iter_add mem it i = Throw (invalid_iterator 209) /\ iter_sub mem it i = Throw (invalid_iterator 209) /\
      iter_diff mem it other = Throw (invalid_iterator 209) /\ iter_index mem it i = Throw (invalid_iterator 208)) /\
    (is_object j = false -> iter_key mem it = Throw (invalid_iterator 207)) /\
    (is_null j = true -> iter_deref mem it = Throw (invalid_iterator 214) /\ iter_index mem it i = Throw (invalid_iterator 214)) /\
    (is_structured j = false -> iter_end mem a = Ret it -> iter_deref mem it = Throw (invalid_iterator 214))).
Proof.
  split.
  - intros Hne. assert (m_object other <> m_object it) as Hne' by congruence.
    unfold iter_neb, iter_gtb, iter_leb, iter_geb, iter_eqb, iter_ltb.
    rewrite !(bool_decide_eq_true_2 _ Hne), !(bool_decide_eq_true_2 _ Hne'). done.
  - intros Ea E. assert (forall x, m_object x = Some a -> object_of_iter mem x = Ret (a, j)) as Ho.
    { intros x Ex. unfold object_of_iter. by rewrite Ex, E. }
    pose proof (Ho _ Ea) as Hit. split_and!.
    + intros Hj Hi. destruct j; try done.
      unfold iter_add, iter_sub, iter_sub_assign, iter_add_assign, iter_diff, iter_index.
      rewrite Hit, ptrdiff_small by (unfold PTRDIFF_MIN, PTRDIFF_MAX in *; lia). cbn [comp_bind]. split; [|done].
      intros Eo. unfold iter_gtb, iter_leb, iter_geb, iter_ltb.
      rewrite !bool_decide_eq_false_2 by congruence. by rewrite Ea, Eo, Hit, (Ho _ Eo).
    + intros Hj. unfold iter_key. rewrite Hit. by destruct j.
    + intros Hj. unfold iter_deref, iter_index. rewrite Hit. by destruct j.
    + intros Hj Hend. rewrite (end_pos _ _ E) in Hend. injection Hend as <-. unfold iter_deref.
      rewrite Hit. by destruct j.
Qed.

(** A value made from two iterators of another one.  Those of a container give
    the elements between them, in particular [begin()] and [end()] a copy of
    it; those of a number, boolean or string have to enclose it; null and
    discarded values have no range. *)
Theorem construct_range_spec a j p q : mem !! a = Some j -> 0 <= p <= q -> q <= len j ->
  construct_range mem (iter_pos a j p) (iter_pos a j q) =
  match j with
  | value_object m => Ret (value_object (take (Z.to_nat (q - p)) (drop (Z.to_nat p) m)))
  | value_array l => Ret (value_array (take (Z.to_nat (q - p)) (drop (Z.to_nat p) l)))
  | value_null | value_discarded => Throw (invalid_iterator 206)
  | value_binary _ _ => Ret j
  | _ => if (p =? 0) && (q =? 1) then Ret j else Throw (invalid_iterator 204)
  end.
Proof.
  intros E Hp Hq. unfold construct_range. replace (m_object (iter_pos a j p)) with (Some a) by by destruct j.
  replace (m_object (iter_pos a j q)) with (Some a) by by destruct j. rewrite Z.eqb_refl. cbn [negb].
  rewrite (object_of_pos a j p E). cbn [comp_bind].
  destruct j; simpl in Hq |- *; try done; unfold prim_is_begin, prim_is_end, end_value, begin_value; try (by zcases);
    unfold range; cbn [position comp_bind]; zcases; try lia; done.
Qed.

Lemma construct_range_whole a j : mem !! a = Some j -> is_null j = false -> is_discarded j = false ->
  (let* first := iter_begin mem a in let* last := iter_end mem a in construct_range mem first last) = Ret j.
Proof.
  intros E Hn Hd. rewrite (begin_pos a j E), (end_pos a j E). cbn [comp_bind]. rewrite construct_range_spec by (done || lia).
  destruct j; try done; simpl; by rewrite Z.sub_0_r, Nat2Z.id, firstn_all.
Qed.

(** A binary value has no check: the empty range at its end gives all of it. *)
Lemma construct_range_binary a b t : mem !! a = Some (value_binary b t) ->
  (let* last := iter_end mem a in construct_range mem last last) = Ret (value_binary b t).
Proof. intros E. rewrite (end_pos a _ E). cbn [comp_bind]. rewrite construct_range_spec by (done || simpl; lia). done. Qed.
End Spec.

(** ** Witnesses *)

(** An array at address 1 and an object at address 2. *)
Definition two_values : gmap Z (json Z) :=
  <[1 := value_array [value_boolean true; value_null; value_string (str "x")]]>
  {[2 := value_object [(str "a", value_null); (str "b", value_number_integer 7)]]}.

Lemma items_visits_witness :
  loop_items two_values 4 1 =
    Ret [(str "0", value_boolean true); (str "1", value_null); (str "2", value_string (str "x"))] /\
  loop_reverse two_values 4 1 = Ret [value_string (str "x"); value_null; value_boolean true].
Proof.
  apply (items_visits two_values 1 (value_array [value_boolean true; value_null; value_string (str "x")]) 4);
    [reflexivity|exact I|reflexivity|vm_compute; lia].
Defined.

Lemma array_iterator_arithmetic_witness :
  let it := iter_pos 1 (value_array [value_boolean true; @value_null Z; value_string (str "x")]) 1 in
  exists it', iter_add two_values it 1 = Ret it' /\ iter_diff two_values it' it = Ret 1.
Proof.
  destruct (array_iterator_arithmetic two_values 1 [value_boolean true; value_null; value_string (str "x")] 1 1)
    as (H1 & _ & H3 & _); [reflexivity|reflexivity|simpl; lia|simpl; lia|].
  eexists. split; [exact H1|exact H3].
Defined.

Lemma iterator_errors_witness :
  iter_ltb two_values (iter_pos 1 (value_array [@value_null Z]) 0) (iter_pos 2 (value_object (F:=Z) []) 0) =
    Throw (invalid_iterator 212).
Proof.
  apply (iterator_errors two_values (iter_pos 1 (value_array [@value_null Z]) 0) (iter_pos 2 (value_object (F:=Z) []) 0)
    1 value_null 0). vm_compute. congruence.
Defined.
