(* ===== verification/JsonGrammar.v ===== *)
(** The JSON text grammar (RFC 8259) with the value of each text, as the
    specification the lexer and the parser of [src/libephmem/json.hpp] are
    proved complete for, and the serializer is proved to produce.  It is
    written independently of the scanner: an inductive relation between
    values and texts. *)
From S2P Require Import Prelude CLib Utf8 JsonValue.

(** Insignificant white space. *)
Definition ws_char (c : Z) : Prop := c = 32 \/ c = 9 \/ c = 10 \/ c = 13.
Definition ws (w : bytes) : Prop := Forall ws_char w.

(** ** Strings *)

Definition hex_digit_value (c d : Z) : Prop :=
  (48 <= c <= 57 /\ d = c - 48) \/ (65 <= c <= 70 /\ d = c - 55) \/ (97 <= c <= 102 /\ d = c - 87).

(** Four hexadecimal digits and the code unit they denote. *)
Inductive hex4 : bytes -> Z -> Prop :=
  | hex4_intro a b c d va vb vc vd :
      hex_digit_value a va -> hex_digit_value b vb -> hex_digit_value c vc -> hex_digit_value d vd ->
      hex4 [a; b; c; d] (va * 4096 + vb * 256 + vc * 16 + vd).

(** One character of a string literal: its text and its bytes. *)
Inductive string_item : bytes -> bytes -> Prop :=
  | item_plain cp : is_scalar cp -> 0x20 <= cp -> cp <> 0x22 -> cp <> 0x5C ->
      string_item (utf8_encode cp) (utf8_encode cp)
  | item_escape c v : (c, v) ∈ [(34, 34); (92, 92); (47, 47); (98, 8); (102, 12); (110, 10); (114, 13); (116, 9)] ->
      string_item [92; c] [v]
  | item_unicode h cp : hex4 h cp -> ~ (0xD800 <= cp <= 0xDFFF) ->
      string_item ([92; 117] ++ h) (utf8_encode cp)
  | item_surrogates h1 h2 u1 u2 : hex4 h1 u1 -> hex4 h2 u2 ->
      0xD800 <= u1 <= 0xDBFF -> 0xDC00 <= u2 <= 0xDFFF ->
      string_item ([92; 117] ++ h1 ++ [92; 117] ++ h2)
        (utf8_encode (0x10000 + (u1 - 0xD800) * 1024 + (u2 - 0xDC00))).

(** The characters between the quotation marks. *)
Inductive string_body : bytes -> bytes -> Prop :=
  | body_nil : string_body [] []
  | body_cons t v ts vs : string_item t v -> string_body ts vs -> string_body (t ++ ts) (v ++ vs).

Definition quoted (t : bytes) : bytes := [34] ++ t ++ [34].

(** ** Numbers *)

Inductive int_part : bytes -> Prop :=
  | int_zero : int_part [48]
  | int_digits d ds : 49 <= d <= 57 -> all_digits ds -> int_part (d :: ds).

Inductive frac_part : bytes -> Prop :=
  | frac_intro d ds : 48 <= d <= 57 -> all_digits ds -> frac_part (46 :: d :: ds).

Inductive exp_part : bytes -> Prop :=
  | exp_intro e d ds : e = 101 \/ e = 69 -> 48 <= d <= 57 -> all_digits ds -> exp_part (e :: d :: ds)
  | exp_signed e s d ds : e = 101 \/ e = 69 -> s = 43 \/ s = 45 -> 48 <= d <= 57 -> all_digits ds ->
      exp_part (e :: s :: d :: ds).

(** The text handed to [strtod]: the decimal point of the locale. *)
Definition localized (decimal_point : Z) (t : bytes) : bytes :=
  map (fun c => if c =? 46 then wrapu 8 decimal_point else c) t.

Section Grammar.
Context {F : Type} `{FloatOps F}.
Variable decimal_point : Z.
Implicit Types (j : json F).

(** A number without fraction and exponent is kept as an integer of 64 bits
    when it fits, every other number is converted by [strtod]. *)
Inductive number_text : json F -> bytes -> Prop :=
  | number_unsigned ds : int_part ds -> dec_value ds < 2 ^ 64 ->
      number_text (value_number_unsigned (dec_value ds)) ds
  | number_negative ds : int_part ds -> dec_value ds <= 2 ^ 63 ->
      number_text (value_number_integer (- dec_value ds)) (45 :: ds)
  | number_big ds : int_part ds -> 2 ^ 64 <= dec_value ds -> isfinite (strtod ds) = true ->
      number_text (value_number_float (strtod ds)) ds
  | number_big_negative ds : int_part ds -> 2 ^ 63 < dec_value ds -> isfinite (strtod (45 :: ds)) = true ->
      number_text (value_number_float (strtod (45 :: ds))) (45 :: ds)
  | number_float sign ds fr ex : sign = [] \/ sign = [45] -> int_part ds ->
      fr = [] \/ frac_part fr -> ex = [] \/ exp_part ex -> fr ++ ex <> [] ->
      let t := sign ++ ds ++ fr ++ ex in
      isfinite (strtod (localized decimal_point t)) = true ->
      number_text (value_number_float (strtod (localized decimal_point t))) t.

(** ** Values *)

(** [operator[]] with assignment: the last of equal keys counts. *)
Definition object_set (m : list (bytes * json F)) (kv : bytes * json F) : list (bytes * json F) :=
  object_alter (fun _ => kv.2) kv.1 (object_emplace kv.1 value_null m).

Definition object_of (ms : list (bytes * json F)) : list (bytes * json F) := fold_left object_set ms [].

Inductive value_text : json F -> bytes -> Prop :=
  | text_null : value_text value_null (str "null")
  | text_true : value_text (value_boolean true) (str "true")
  | text_false : value_text (value_boolean false) (str "false")
  | text_number j t : number_text j t -> value_text j t
  | text_string t v : string_body t v -> value_text (value_string v) (quoted t)
  | text_empty_array w : ws w -> value_text (value_array []) ([91] ++ w ++ [93])
  | text_array l t : elements_text l t -> value_text (value_array l) ([91] ++ t ++ [93])
  | text_empty_object w : ws w -> value_text (value_object []) ([123] ++ w ++ [125])
  | text_object ms t : members_text ms t -> value_text (value_object (object_of ms)) ([123] ++ t ++ [125])
with elements_text : list (json F) -> bytes -> Prop :=
  | elements_one v w1 t w2 : ws w1 -> value_text v t -> ws w2 ->
      elements_text [v] (w1 ++ t ++ w2)
  | elements_cons v w1 t w2 l ts : ws w1 -> value_text v t -> ws w2 -> elements_text l ts ->
      elements_text (v :: l) (w1 ++ t ++ w2 ++ [44] ++ ts)
with members_text : list (bytes * json F) -> bytes -> Prop :=
  | members_one k tk v w1 w2 w3 t w4 : ws w1 -> string_body tk k -> ws w2 -> ws w3 ->
      value_text v t -> ws w4 ->
      members_text [(k, v)] (w1 ++ quoted tk ++ w2 ++ [58] ++ w3 ++ t ++ w4)
  | members_cons k tk v w1 w2 w3 t w4 ms ts : ws w1 -> string_body tk k -> ws w2 -> ws w3 ->
      value_text v t -> ws w4 -> members_text ms ts ->
      members_text ((k, v) :: ms) (w1 ++ quoted tk ++ w2 ++ [58] ++ w3 ++ t ++ w4 ++ [44] ++ ts).

(** A document. *)
Definition json_text j (t : bytes) : Prop :=
  exists w1 u w2, ws w1 /\ value_text j u /\ ws w2 /\ t = w1 ++ u ++ w2.

End Grammar.

Scheme value_text_mind := Induction for value_text Sort Prop
  with elements_text_mind := Induction for elements_text Sort Prop
  with members_text_mind := Induction for members_text Sort Prop.
Combined Scheme json_text_ind from value_text_mind, elements_text_mind, members_text_mind.
