(* ===== verification/JsonLexer.v ===== *)
(** The lexer of the JSON library ([class lexer] of
    [src/libephmem/json.hpp]): input management ([get], [unget], [add],
    [reset]), the string scanner with its escapes and UTF-8 ranges, the
    number automaton, comments, literals and [scan].  Every [JSON_ASSERT] of
    the class is a check that throws [assertion_failure].

    Every loop reads at least one character per turn and stops at the end of
    the input, so it runs with the number of characters left as fuel.  The
    position counters are [size_t] values bounded by the length of the
    input, so they are kept as unbounded integers. *)
From S2P Require Import Prelude CLib Utf8 JsonValue.

(** [lexer_base::token_type] *)
Inductive token_type : Set :=
  | uninitialized
  | literal_true
  | literal_false
  | literal_null
  | tok_string
  | tok_unsigned
  | tok_integer
  | tok_float
  | begin_array
  | begin_object
  | end_array
  | end_object
  | name_separator
  | value_separator
  | tok_parse_error
  | end_of_input
  | literal_or_value.

#[global] Instance token_type_eq_dec : EqDecision token_type.
Proof. solve_decision. Defined.

(** [lexer_base::token_type_name] *)
Definition token_type_name (t : token_type) : string :=
  match t with
  | uninitialized => "<uninitialized>"
  | literal_true => "true literal"
  | literal_false => "false literal"
  | literal_null => "null literal"
  | tok_string => "string literal"
  | tok_unsigned | tok_integer | tok_float => "number literal"
  | begin_array => "'['"
  | begin_object => "'{'"
  | end_array => "']'"
  | end_object => "'}'"
  | name_separator => "':'"
  | value_separator => "','"
  | tok_parse_error => "<parse error>"
  | end_of_input => "end of input"
  | literal_or_value => "'[', '{', or a literal"
  end.

(** [char_traits<char>::eof()] *)
Definition EOF : Z := -1.

(** ** State *)

(** Input side of the lexer: the rest of the adapter's range, the current
    character, and the bookkeeping of [position_t] and [token_string]. *)
Record input := mk_input {
  ia : bytes;
  current : Z;
  next_unget : bool;
  chars_read_total : Z;
  chars_read_current_line : Z;
  lines_read : Z;
  token_string : bytes
}.

(** The members of the lexer.  [locale_point] is the decimal point of the
    locale, the string both [localeconv] and [strtod] use. *)
Record lexer (F : Type) := mk_lexer {
  inp : input;
  ignore_comments : bool;
  locale_point : bytes;
  token_buffer : bytes;
  error_message : string;
  value_integer : Z;
  value_unsigned : Z;
  value_float : F;
  decimal_point_position : option nat
}.
Arguments mk_lexer {F} _ _ _ _ _ _ _ _ _.
Arguments inp {F} _.
Arguments ignore_comments {F} _.
Arguments locale_point {F} _.
Arguments token_buffer {F} _.
Arguments error_message {F} _.
Arguments value_integer {F} _.
Arguments value_unsigned {F} _.
Arguments value_float {F} _.
Arguments decimal_point_position {F} _.

(** Result of one turn of a scanning loop. *)
Inductive scan_step (F : Type) : Type :=
  | Continue (s : lexer F)
  | Return (t : token_type) (s : lexer F).
Arguments Continue {F} _.
Arguments Return {F} _ _.

Section Lexer.
Context {F : Type} `{FloatOps F}.
Implicit Types (s : lexer F).

Definition with_inp s (i : input) : lexer F :=
  mk_lexer i (ignore_comments s) (locale_point s) (token_buffer s) (error_message s)
    (value_integer s) (value_unsigned s) (value_float s) (decimal_point_position s).
Definition with_buffer s (b : bytes) : lexer F :=
  mk_lexer (inp s) (ignore_comments s) (locale_point s) b (error_message s)
    (value_integer s) (value_unsigned s) (value_float s) (decimal_point_position s).
Definition with_error s (e : string) : lexer F :=
  mk_lexer (inp s) (ignore_comments s) (locale_point s) (token_buffer s) e
    (value_integer s) (value_unsigned s) (value_float s) (decimal_point_position s).
Definition with_integer s (z : Z) : lexer F :=
  mk_lexer (inp s) (ignore_comments s) (locale_point s) (token_buffer s) (error_message s)
    z (value_unsigned s) (value_float s) (decimal_point_position s).
Definition with_unsigned s (z : Z) : lexer F :=
  mk_lexer (inp s) (ignore_comments s) (locale_point s) (token_buffer s) (error_message s)
    (value_integer s) z (value_float s) (decimal_point_position s).
Definition with_float s (f : F) : lexer F :=
  mk_lexer (inp s) (ignore_comments s) (locale_point s) (token_buffer s) (error_message s)
    (value_integer s) (value_unsigned s) f (decimal_point_position s).
Definition with_point s (p : option nat) : lexer F :=
  mk_lexer (inp s) (ignore_comments s) (locale_point s) (token_buffer s) (error_message s)
    (value_integer s) (value_unsigned s) (value_float s) p.

Definition cur s : Z := current (inp s).

(** [get_decimal_point]: the first byte of the decimal point of the locale,
    which the member [decimal_point_char] keeps. *)
Definition get_decimal_point (decimal_point : bytes) : Z := hd 0 decimal_point.
Definition decimal_point_char s : Z := get_decimal_point (locale_point s).

(** Constructor: nothing read yet. *)
Definition lexer_init (adapter : bytes) (ignore : bool) (decimal_point : bytes) : lexer F :=
  mk_lexer (mk_input adapter EOF false 0 0 0 []) ignore decimal_point [] "" 0 0 float_zero None.

(** ** Input management *)

(** [iterator_input_adapter::get_character] *)
Definition get_character (a : bytes) : Z * bytes :=
  match a with [] => (EOF, []) | c :: a' => (c, a') end.

Definition get_input (i : input) : input :=
  let '(c, a) := if next_unget i then (current i, ia i) else get_character (ia i) in
  let ts := if c =? EOF then token_string i else token_string i ++ [wrapu 8 c] in
  if c =? 10
  then mk_input a c false (chars_read_total i + 1) 0 (lines_read i + 1) ts
  else mk_input a c false (chars_read_total i + 1) (chars_read_current_line i + 1) (lines_read i) ts.

Definition get s : lexer F := with_inp s (get_input (inp s)).

(** The state after [unget]: the current character will be read again, the
    counters go back and [token_string] loses its last character. *)
Definition ungot (i : input) : input :=
  let ts := if current i =? EOF then token_string i else removelast (token_string i) in
  if chars_read_current_line i =? 0
  then mk_input (ia i) (current i) true (chars_read_total i - 1) (chars_read_current_line i)
         (if 0 <? lines_read i then lines_read i - 1 else lines_read i) ts
  else mk_input (ia i) (current i) true (chars_read_total i - 1) (chars_read_current_line i - 1)
         (lines_read i) ts.

(** [unget]: a character is popped from a [token_string] that an assertion
    demands not to be empty. *)
Definition unget_input (i : input) : comp input :=
  if negb (current i =? EOF) && bool_decide (token_string i = []) then Throw assertion_failure
  else Ret (ungot i).

Definition unget s : comp (lexer F) := let* i := unget_input (inp s) in Ret (with_inp s i).

Definition reset_input (i : input) : input :=
  mk_input (ia i) (current i) (next_unget i) (chars_read_total i) (chars_read_current_line i)
    (lines_read i) [wrapu 8 (current i)].

Definition reset s : lexer F :=
  with_inp (with_point (with_buffer s []) None) (reset_input (inp s)).

(** [add]: [static_cast] to [char]. *)
Definition add (c : Z) s : lexer F := with_buffer s (token_buffer s ++ [wrapu 8 c]).

Definition add_all (cs : bytes) s : lexer F := fold_left (fun s c => add c s) cs s.

(** Upper bound of the characters still to read, the fuel of the loops. *)
Definition remaining s : nat :=
  (length (ia (inp s)) + (if next_unget (inp s) then 1 else 0))%nat.

(** [get_string]: the decimal point of the locale is translated back. *)
Definition get_string s : bytes :=
  match decimal_point_position s with
  | Some p => if decimal_point_char s =? 46 then token_buffer s
              else <[p := 46]> (token_buffer s)
  | None => token_buffer s
  end.

(** [get_token_string]: control characters are printed as [<U+00xx>]. *)
Definition hex_upper (d : Z) : Z := if d <? 10 then 48 + d else 55 + d.

Definition get_token_string s : bytes :=
  flat_map (fun c =>
    if c <=? 0x1F
    then str "<U+" ++ [48; 48; hex_upper (c / 16); hex_upper (c mod 16)] ++ str ">"
    else [c]) (token_string (inp s)).

(** ** Strings *)

Fixpoint get_codepoint_loop (factors : list Z) (codepoint : Z) s : Z * lexer F :=
  match factors with
  | [] => (codepoint, s)
  | factor :: fs =>
      let s := get s in
      let c := cur s in
      if in_range 48 57 c then
        get_codepoint_loop fs (codepoint + Z.shiftl (c - 0x30) factor) s
      else if in_range 65 70 c then
        get_codepoint_loop fs (codepoint + Z.shiftl (c - 0x37) factor) s
      else if in_range 97 102 c then
        get_codepoint_loop fs (codepoint + Z.shiftl (c - 0x57) factor) s
      else (-1, s)
  end.

Definition get_codepoint s : comp (Z * lexer F) :=
  if negb (cur s =? 117) then Throw assertion_failure else
  let '(codepoint, s) := get_codepoint_loop [12; 8; 4; 0] 0 s in
  if codepoint =? -1 then Ret (-1, s)
  else if in_range 0x0000 0xFFFF codepoint then Ret (codepoint, s)
  else Throw assertion_failure.

Definition ill_formed : string := "invalid string: ill-formed UTF-8 byte".

Fixpoint next_bytes (ranges : list (Z * Z)) s : bool * lexer F :=
  match ranges with
  | [] => (true, s)
  | (lo, hi) :: rs =>
      let s := get s in
      if in_range lo hi (cur s) then next_bytes rs (add (cur s) s)
      else (false, with_error s ill_formed)
  end.

(** The list of bounds has one, two or three pairs. *)
Definition next_byte_in_range (ranges : list (Z * Z)) s : comp (bool * lexer F) :=
  if in_range 1 3 (Z.of_nat (length ranges)) then Ret (next_bytes ranges (add (cur s) s))
  else Throw assertion_failure.

Definition fail s (e : string) : scan_step F := Return tok_parse_error (with_error s e).

Definition msg_hex : string := "invalid string: '\u' must be followed by 4 hex digits".
Definition msg_high : string :=
  "invalid string: surrogate U+D800..U+DBFF must be followed by U+DC00..U+DFFF".
Definition msg_low : string :=
  "invalid string: surrogate U+DC00..U+DFFF must follow U+D800..U+DBFF".

(** The translation of a code point into bytes. *)
Definition add_codepoint (codepoint : Z) s : comp (scan_step F) :=
  if in_range 0x00 0x10FFFF codepoint then Ret (Continue (add_all (codepoint_bytes codepoint) s))
  else Throw assertion_failure.

(** [case 'u'] of the escapes: one code unit, or a surrogate pair. *)
Definition scan_unicode_escape s : comp (scan_step F) :=
  let* '(codepoint1, s) := get_codepoint s in
  if codepoint1 =? -1 then Ret (fail s msg_hex)
  else if in_range 0xD800 0xDBFF codepoint1 then
    let s := get s in
    if cur s =? 92 then
      let s := get s in
      if cur s =? 117 then
        let* '(codepoint2, s) := get_codepoint s in
        if codepoint2 =? -1 then Ret (fail s msg_hex)
        else if in_range 0xDC00 0xDFFF codepoint2 then
          let codepoint :=
            wrapu 32 (wrapu 32 (Z.shiftl codepoint1 10 + codepoint2) - 0x35FDC00) in
          add_codepoint codepoint s
        else Ret (fail s msg_high)
      else Ret (fail s msg_high)
    else Ret (fail s msg_high)
  else if in_range 0xDC00 0xDFFF codepoint1 then Ret (fail s msg_low)
  else add_codepoint codepoint1 s.

(** The [switch] after a backslash. *)
Definition scan_escape s : comp (scan_step F) :=
  let c := cur s in
  if c =? 34 then Ret (Continue (add 34 s))
  else if c =? 92 then Ret (Continue (add 92 s))
  else if c =? 47 then Ret (Continue (add 47 s))
  else if c =? 98 then Ret (Continue (add 8 s))
  else if c =? 102 then Ret (Continue (add 12 s))
  else if c =? 110 then Ret (Continue (add 10 s))
  else if c =? 114 then Ret (Continue (add 13 s))
  else if c =? 116 then Ret (Continue (add 9 s))
  else if c =? 117 then scan_unicode_escape s
  else Ret (fail s "invalid string: forbidden character after backslash").

(** Error messages of the unescaped control characters. *)
Definition control_names : list string :=
  ["0000 (NUL) must be escaped to \u0000"; "0001 (SOH) must be escaped to \u0001";
   "0002 (STX) must be escaped to \u0002"; "0003 (ETX) must be escaped to \u0003";
   "0004 (EOT) must be escaped to \u0004"; "0005 (ENQ) must be escaped to \u0005";
   "0006 (ACK) must be escaped to \u0006"; "0007 (BEL) must be escaped to \u0007";
   "0008 (BS) must be escaped to \u0008 or \b"; "0009 (HT) must be escaped to \u0009 or \t";
   "000A (LF) must be escaped to \u000A or \n"; "000B (VT) must be escaped to \u000B";
   "000C (FF) must be escaped to \u000C or \f"; "000D (CR) must be escaped to \u000D or \r";
   "000E (SO) must be escaped to \u000E"; "000F (SI) must be escaped to \u000F";
   "0010 (DLE) must be escaped to \u0010"; "0011 (DC1) must be escaped to \u0011";
   "0012 (DC2) must be escaped to \u0012"; "0013 (DC3) must be escaped to \u0013";
   "0014 (DC4) must be escaped to \u0014"; "0015 (NAK) must be escaped to \u0015";
   "0016 (SYN) must be escaped to \u0016"; "0017 (ETB) must be escaped to \u0017";
   "0018 (CAN) must be escaped to \u0018"; "0019 (EM) must be escaped to \u0019";
   "001A (SUB) must be escaped to \u001A"; "001B (ESC) must be escaped to \u001B";
   "001C (FS) must be escaped to \u001C"; "001D (GS) must be escaped to \u001D";
   "001E (RS) must be escaped to \u001E"; "001F (US) must be escaped to \u001F"]%string.

Definition control_message (c : Z) : string :=
  ("invalid string: control character U+" ++ default "" (control_names !! Z.to_nat c))%string.

(** Continuation ranges of a multi-byte lead byte; [None] for a byte that
    cannot start a sequence. *)
Definition utf8_ranges (c : Z) : option (list (Z * Z)) :=
  if in_range 0xC2 0xDF c then Some [(0x80, 0xBF)]
  else if c =? 0xE0 then Some [(0xA0, 0xBF); (0x80, 0xBF)]
  else if in_range 0xE1 0xEC c || in_range 0xEE 0xEF c then Some [(0x80, 0xBF); (0x80, 0xBF)]
  else if c =? 0xED then Some [(0x80, 0x9F); (0x80, 0xBF)]
  else if c =? 0xF0 then Some [(0x90, 0xBF); (0x80, 0xBF); (0x80, 0xBF)]
  else if in_range 0xF1 0xF3 c then Some [(0x80, 0xBF); (0x80, 0xBF); (0x80, 0xBF)]
  else if c =? 0xF4 then Some [(0x80, 0x8F); (0x80, 0xBF); (0x80, 0xBF)]
  else None.

Definition scan_string_multibyte s : comp (scan_step F) :=
  match utf8_ranges (cur s) with
  | Some ranges =>
      let* '(ok, s) := next_byte_in_range ranges s in
      Ret (if ok then Continue s else Return tok_parse_error s)
  | None => Ret (fail s ill_formed)
  end.

(** The [switch] of the loop, after [get]. *)
Definition scan_string_body s : comp (scan_step F) :=
  let c := cur s in
  if c =? EOF then Ret (fail s "invalid string: missing closing quote")
  else if c =? 34 then Ret (Return tok_string s)
  else if c =? 92 then scan_escape (get s)
  else if in_range 0 0x1F c then Ret (fail s (control_message c))
  else if in_range 0x20 0x7F c then Ret (Continue (add c s))
  else scan_string_multibyte s.

Fixpoint scan_string_loop (fuel : nat) s : comp (token_type * lexer F) :=
  match fuel with
  | O => OutOfFuel
  | S fuel =>
      let* r := scan_string_body (get s) in
      match r with
      | Continue s => scan_string_loop fuel s
      | Return t s => Ret (t, s)
      end
  end.

(** An open quote was read. *)
Definition scan_string s : comp (token_type * lexer F) :=
  let s := reset s in
  if cur s =? 34 then scan_string_loop (S (remaining s)) s else Throw assertion_failure.

(** ** Comments *)

Fixpoint scan_line_comment (fuel : nat) s : comp (bool * lexer F) :=
  match fuel with
  | O => OutOfFuel
  | S fuel =>
      let s := get s in
      if (cur s =? 10) || (cur s =? 13) || (cur s =? EOF) || (cur s =? 0) then Ret (true, s)
      else scan_line_comment fuel s
  end.

Fixpoint scan_block_comment (fuel : nat) s : comp (bool * lexer F) :=
  match fuel with
  | O => OutOfFuel
  | S fuel =>
      let s := get s in
      if (cur s =? EOF) || (cur s =? 0) then
        Ret (false, with_error s "invalid comment; missing closing '*/'")
      else if cur s =? 42 then
        let s := get s in
        if cur s =? 47 then Ret (true, s)
        else let* s := unget s in scan_block_comment fuel s
      else scan_block_comment fuel s
  end.

Definition scan_comment s : comp (bool * lexer F) :=
  let s := get s in
  if cur s =? 47 then scan_line_comment (S (remaining s)) s
  else if cur s =? 42 then scan_block_comment (S (remaining s)) s
  else Ret (false, with_error s "invalid comment; expecting '/' or '*' after '/'").

(** ** Numbers: one state per label of [scan_number] *)

Inductive num_state : Set :=
  | num_minus | num_zero | num_any1 | num_decimal1 | num_decimal2
  | num_exponent | num_sign | num_any2 | num_done.

#[export] Instance num_state_eq_dec : EqDecision num_state.
Proof. solve_decision. Defined.

Inductive num_step (F' : Type) : Type :=
  | NGoto (st : num_state) (number_type : token_type) (s : lexer F')
  | NFail (s : lexer F').
Arguments NGoto {F'} _ _ _.
Arguments NFail {F'} _.

Definition is_exp (c : Z) : bool := (c =? 101) || (c =? 69).

Definition add_point s : lexer F :=
  let s := add (decimal_point_char s) s in
  with_point s (Some (length (token_buffer s) - 1)%nat).

Definition scan_number_minus s : num_step F :=
  let s := get s in
  if cur s =? 48 then NGoto num_zero tok_integer (add (cur s) s)
  else if in_range 49 57 (cur s) then NGoto num_any1 tok_integer (add (cur s) s)
  else NFail (with_error s "invalid number; expected digit after '-'").

Definition scan_number_zero (nt : token_type) s : num_step F :=
  let s := get s in
  if cur s =? 46 then NGoto num_decimal1 nt (add_point s)
  else if is_exp (cur s) then NGoto num_exponent nt (add (cur s) s)
  else NGoto num_done nt s.

Definition scan_number_any1 (nt : token_type) s : num_step F :=
  let s := get s in
  if is_digit (cur s) then NGoto num_any1 nt (add (cur s) s)
  else if cur s =? 46 then NGoto num_decimal1 nt (add_point s)
  else if is_exp (cur s) then NGoto num_exponent nt (add (cur s) s)
  else NGoto num_done nt s.

Definition scan_number_decimal1 s : num_step F :=
  let s := get s in
  if is_digit (cur s) then NGoto num_decimal2 tok_float (add (cur s) s)
  else NFail (with_error s "invalid number; expected digit after '.'").

Definition scan_number_decimal2 (nt : token_type) s : num_step F :=
  let s := get s in
  if is_digit (cur s) then NGoto num_decimal2 nt (add (cur s) s)
  else if is_exp (cur s) then NGoto num_exponent nt (add (cur s) s)
  else NGoto num_done nt s.

Definition scan_number_exponent s : num_step F :=
  let s := get s in
  if (cur s =? 43) || (cur s =? 45) then NGoto num_sign tok_float (add (cur s) s)
  else if is_digit (cur s) then NGoto num_any2 tok_float (add (cur s) s)
  else NFail (with_error s "invalid number; expected '+', '-', or digit after exponent").

Definition scan_number_sign (nt : token_type) s : num_step F :=
  let s := get s in
  if is_digit (cur s) then NGoto num_any2 nt (add (cur s) s)
  else NFail (with_error s "invalid number; expected digit after exponent sign").

Definition scan_number_any2 (nt : token_type) s : num_step F :=
  let s := get s in
  if is_digit (cur s) then NGoto num_any2 nt (add (cur s) s)
  else NGoto num_done nt s.

Definition scan_number_label (st : num_state) (nt : token_type) s : num_step F :=
  match st with
  | num_minus => scan_number_minus s
  | num_zero => scan_number_zero nt s
  | num_any1 => scan_number_any1 nt s
  | num_decimal1 => scan_number_decimal1 s
  | num_decimal2 => scan_number_decimal2 nt s
  | num_exponent => scan_number_exponent s
  | num_sign => scan_number_sign nt s
  | num_any2 => scan_number_any2 nt s
  | num_done => NGoto num_done nt s
  end.

(** [scan_number_done]: the text is converted.  [strtod] stands for the
    conversion of the whole buffer, which the assertion on [endptr] demands:
    only the first byte of the decimal point of the locale was put in the
    buffer, [strtod] expects all of them. *)
Definition scan_number_float s : comp (token_type * lexer F) :=
  if decide (strtod_end (map (wrapu 8) (locale_point s)) (token_buffer s) = length (token_buffer s))
  then Ret (tok_float, with_float s (strtod (token_buffer s)))
  else Throw assertion_failure.

Definition scan_number_done (nt : token_type) s : comp (token_type * lexer F) :=
  let* s := unget s in
  match nt with
  | tok_unsigned =>
      let x := strtoull (token_buffer s) in
      if decide (st_end x = length (token_buffer s)) then
        if st_erange x then scan_number_float s
        else
          let s := with_unsigned s (wrapu 64 (st_value x)) in
          if value_unsigned s =? st_value x then Ret (tok_unsigned, s) else scan_number_float s
      else Throw assertion_failure
  | tok_integer =>
      let x := strtoll (token_buffer s) in
      if decide (st_end x = length (token_buffer s)) then
        if st_erange x then scan_number_float s
        else
          let s := with_integer s (st_value x) in
          if value_integer s =? st_value x then Ret (tok_integer, s) else scan_number_float s
      else Throw assertion_failure
  | _ => scan_number_float s
  end.

Fixpoint scan_number_loop (fuel : nat) (st : num_state) (nt : token_type) s :
    comp (token_type * lexer F) :=
  match st with
  | num_done => scan_number_done nt s
  | _ =>
      match fuel with
      | O => OutOfFuel
      | S fuel =>
          match scan_number_label st nt s with
          | NGoto st nt s => scan_number_loop fuel st nt s
          | NFail s => Ret (tok_parse_error, s)
          end
      end
  end.

Definition scan_number s : comp (token_type * lexer F) :=
  let s := reset s in
  let fuel := S (remaining s) in
  let c := cur s in
  if c =? 45 then scan_number_loop fuel num_minus tok_unsigned (add c s)
  else if c =? 48 then scan_number_loop fuel num_zero tok_unsigned (add c s)
  else if in_range 49 57 c then scan_number_loop fuel num_any1 tok_unsigned (add c s)
  else Throw assertion_failure.

(** ** Literals and the scanner *)

Fixpoint scan_literal_rest (text : bytes) (t : token_type) s : token_type * lexer F :=
  match text with
  | [] => (t, s)
  | c :: text =>
      let s := get s in
      if wrapu 8 (cur s) =? c then scan_literal_rest text t s
      else (tok_parse_error, with_error s "invalid literal")
  end.

(** The first character was read by [scan]. *)
Definition scan_literal (text : bytes) (t : token_type) s : comp (token_type * lexer F) :=
  if wrapu 8 (cur s) =? hd 0 text then Ret (scan_literal_rest (tail text) t s)
  else Throw assertion_failure.

Definition skip_bom s : comp (bool * lexer F) :=
  let s := get s in
  if cur s =? 0xEF then
    let s := get s in
    if cur s =? 0xBB then
      let s := get s in Ret (cur s =? 0xBF, s)
    else Ret (false, s)
  else let* s := unget s in Ret (true, s).

Definition is_ws (c : Z) : bool := (c =? 32) || (c =? 9) || (c =? 10) || (c =? 13).

Fixpoint skip_whitespace_loop (fuel : nat) s : comp (lexer F) :=
  match fuel with
  | O => OutOfFuel
  | S fuel =>
      let s := get s in
      if is_ws (cur s) then skip_whitespace_loop fuel s else Ret s
  end.

Definition skip_whitespace s : comp (lexer F) := skip_whitespace_loop (S (remaining s)) s.

(** The [while] over comments; [None] in the result is the early return of
    a parse error. *)
Fixpoint skip_comments (fuel : nat) s : comp (bool * lexer F) :=
  if ignore_comments s && (cur s =? 47) then
    match fuel with
    | O => OutOfFuel
    | S fuel =>
        let* '(ok, s) := scan_comment s in
        if ok then
          let* s := skip_whitespace s in skip_comments fuel s
        else Ret (false, s)
    end
  else Ret (true, s).

(** The [switch] on the current character. *)
Definition scan_token s : comp (token_type * lexer F) :=
  let c := cur s in
  if c =? 91 then Ret (begin_array, s)
  else if c =? 93 then Ret (end_array, s)
  else if c =? 123 then Ret (begin_object, s)
  else if c =? 125 then Ret (end_object, s)
  else if c =? 58 then Ret (name_separator, s)
  else if c =? 44 then Ret (value_separator, s)
  else if c =? 116 then scan_literal (str "true") literal_true s
  else if c =? 102 then scan_literal (str "false") literal_false s
  else if c =? 110 then scan_literal (str "null") literal_null s
  else if c =? 34 then scan_string s
  else if (c =? 45) || in_range 48 57 c then scan_number s
  else if (c =? 0) || (c =? EOF) then Ret (end_of_input, s)
  else Ret (tok_parse_error, with_error s "invalid literal").

Definition scan s : comp (token_type * lexer F) :=
  let* '(ok, s) := if chars_read_total (inp s) =? 0 then skip_bom s else Ret (true, s) in
  if ok then
    let* s := skip_whitespace s in
    let* '(ok, s) := skip_comments (S (remaining s)) s in
    if ok then scan_token s else Ret (tok_parse_error, s)
  else Ret (tok_parse_error, with_error s "invalid BOM; must be 0xEF 0xBB 0xBF if given").

End Lexer.
Arguments NGoto {F'} _ _ _.
Arguments NFail {F'} _.
Arguments get : simpl never.
Arguments unget : simpl never.
Arguments add : simpl never.
Arguments add_all : simpl never.
Arguments reset : simpl never.
Arguments get_codepoint : simpl never.
Arguments scan_string_body : simpl never.
