(* ===== verification/JsonLexerFacts.v ===== *)
(** Facts of the lexer: its loops terminate within their fuel, none of its
    assertions fails when the decimal point of the locale is a single byte,
    the characters it has not consumed are a suffix of its input, and every
    token it returns carries a valid value (a string token is well-formed
    UTF-8, an integer fits its type).

    [At s p] says the next characters [get] will deliver are [p]; [Rd s c p]
    says [c] was just read and [p] follows. *)
From S2P Require Import Prelude CLib Utf8 JsonValue JsonGrammar JsonLexer.

Section Positions.
Context {F : Type} `{FloatOps F}.
Implicit Types (s : lexer F) (p : bytes).

(** The locale the lexer works in: a decimal point of one [char]. *)
Definition single_point s : Prop := exists c, locale_point s = [c].

Definition cur_ok (c : Z) p : Prop := (c = EOF /\ p = []) \/ is_byte c.

Definition pending s : bytes :=
  if next_unget (inp s) then
    if cur s =? EOF then [] else cur s :: ia (inp s)
  else ia (inp s).

Definition At s p : Prop :=
  Forall is_byte (ia (inp s)) /\ pending s = p /\
  (next_unget (inp s) = true -> cur_ok (cur s) (ia (inp s))) /\ single_point s.

Definition Rd s (c : Z) p : Prop :=
  next_unget (inp s) = false /\ cur s = c /\ ia (inp s) = p /\ Forall is_byte p /\ cur_ok c p /\
  (c = EOF \/ token_string (inp s) <> []) /\ single_point s.

(** [unget] when its assertion holds. *)
Definition back s : lexer F := with_inp s (ungot (inp s)).

Lemma Rd_At s c p : Rd s c p -> At s p.
Proof. unfold Rd, At, pending. intros (-> & ? & -> & ? & ? & ? & ?). done. Qed.

Lemma At_bytes s p : At s p -> Forall is_byte p.
Proof.
  unfold At, pending. intros (Hb & <- & Hc & _). destruct (next_unget (inp s)); [|done].
  destruct (Hc eq_refl) as [[-> _]|Hc']; [by rewrite Z.eqb_refl|].
  destruct (Z.eqb_spec (cur s) EOF); [done|by constructor].
Qed.

Lemma get_At s p : At s p -> Rd (get s) (hd EOF p) (tail p).
Proof.
  unfold At, pending, Rd, get, cur. intros (Hb & <- & Hc & Hp).
  unfold get_input, cur in *. destruct (inp s) as [a c nu t l n ts]; simpl in *.
  assert (forall c', is_byte c' -> (if c' =? EOF then ts else ts ++ [wrapu 8 c']) <> []) as Hts.
  { intros c' Hc'. destruct (Z.eqb_spec c' EOF); [unfold is_byte, EOF in *; lia|by destruct ts]. }
  destruct nu; simpl.
  - specialize (Hc eq_refl). destruct Hc as [[-> ->]|Hc].
    + simpl. split_and!; try done; by left.
    + specialize (Hts c Hc). destruct (Z.eqb_spec c EOF); [unfold is_byte, EOF in *; lia|].
      destruct (c =? 10); simpl; split_and!; auto; by right.
  - destruct a as [|c' a]; simpl.
    + split_and!; try done; by left.
    + inversion Hb; subst. specialize (Hts c' ltac:(done)). destruct (c' =? 10); simpl; split_and!; auto; by right.
Qed.

Lemma Rd_get s c p : Rd s c p -> Rd (get s) (hd EOF p) (tail p).
Proof. intros. by eapply get_At, Rd_At. Qed.

Lemma unget_back s c p : Rd s c p -> unget s = Ret (back s).
Proof.
  intros (_ & Hc & _ & _ & _ & Ht & _). unfold unget, unget_input. unfold cur in Hc. rewrite Hc.
  destruct Ht as [-> |Ht]; [done|]. by rewrite bool_decide_false, andb_false_r.
Qed.

Lemma back_Rd s c p : Rd s c p -> At (back s) (if c =? EOF then [] else c :: p).
Proof.
  unfold Rd, At, pending, back, ungot, cur. intros (Hn & <- & <- & Hb & Hc & _ & Hp).
  destruct (inp s) as [a c nu t l n ts]; simpl in *.
  destruct (l =? 0); simpl; (split_and!; [done|done|intros _; exact Hc|exact Hp]).
Qed.

(** The other components do not matter. *)
Lemma Rd_add s c p x : Rd s c p -> Rd (add x s) c p.
Proof. done. Qed.
Lemma Rd_add_all xs : forall s c p, Rd s c p -> Rd (add_all xs s) c p.
Proof. induction xs as [|x xs IH]; intros s c p Hs; [done|]. apply IH. by apply Rd_add. Qed.
Lemma Rd_error s c p e : Rd s c p -> Rd (with_error s e) c p.
Proof. done. Qed.
Lemma Rd_reset s c p : Rd s c p -> Rd (reset s) c p.
Proof. intros (? & ? & ? & ? & ? & _ & ?). split_and!; try done. by right. Qed.

Lemma At_get s c p : At s (c :: p) -> Rd (get s) c p.
Proof. apply get_At. Qed.

Lemma At_head s c p : At s (c :: p) -> is_byte c.
Proof. intros Hs%At_bytes. by inversion Hs. Qed.

Lemma unget_get s p : At s p -> unget (get s) = Ret (back (get s)).
Proof. intros Ha. eapply unget_back, get_At, Ha. Qed.

Lemma back_get s p : At s p -> At (back (get s)) p.
Proof.
  intros Ha. pose proof (back_Rd _ _ _ (get_At _ _ Ha)) as Hu. destruct p as [|c p]; [done|].
  simpl in Hu. apply At_head in Ha. unfold is_byte in Ha. unfold EOF in Hu.
  by destruct (Z.eqb_spec c (-1)); [lia|].
Qed.

(** ** What every scan keeps *)

Definition crt s : Z := chars_read_total (inp s).

(** The configuration, and a count of characters that has not gone down. *)
Definition kept s s' : Prop :=
  ignore_comments s' = ignore_comments s /\ decimal_point_char s' = decimal_point_char s /\ crt s <= crt s'.

Lemma kept_refl s : kept s s.
Proof. by split_and!. Qed.

Lemma kept_trans s1 s2 s3 : kept s1 s2 -> kept s2 s3 -> kept s1 s3.
Proof. intros (? & ? & ?) (? & ? & ?). split_and!; [congruence..|lia]. Qed.

Lemma crt_get s : crt (get s) = crt s + 1.
Proof. unfold crt, get, get_input. simpl. destruct (next_unget (inp s)); repeat case_match; simpl; try done; congruence. Qed.

Lemma crt_back s : crt (back s) = crt s - 1.
Proof. unfold crt, back, ungot. simpl. by case_match. Qed.

Lemma kept_get s : kept s (get s).
Proof. split_and!; [done|done|rewrite crt_get; lia]. Qed.

Lemma kept_add x s : kept s (add x s).
Proof. by split_and!. Qed.

Lemma kept_add_all xs s : kept s (add_all xs s).
Proof.
  revert s. induction xs as [|x xs IH]; intros s; [apply kept_refl|].
  eapply kept_trans; [apply (kept_add x)|apply IH].
Qed.

Lemma At_add_all xs s p : At s p -> At (add_all xs s) p.
Proof. revert s. induction xs as [|x xs IH]; intros s Ha; [done|]. by apply (IH (add x s)). Qed.

End Positions.

Ltac keep := repeat first
  [ done | apply kept_refl
  | match goal with K : kept ?a ?b |- kept _ ?b => apply (kept_trans _ a b); [|exact K] end
  | match goal with
    | |- kept _ (get ?a) => apply (kept_trans _ a); [|apply kept_get]
    | |- kept _ (add ?x ?a) => apply (kept_trans _ a); [|apply kept_add]
    | |- kept _ (add_all ?xs ?a) => apply (kept_trans _ a); [|apply kept_add_all]
    end ].

Section Facts.
Context {F : Type} `{FloatOps F}.
Implicit Types (s : lexer F) (p : bytes).

(** The character that was read, when there was one. *)
Lemma read_char s p c : At s p -> cur (get s) = c -> c <> EOF -> exists p', p = c :: p' /\ Rd (get s) c p'.
Proof.
  intros Ha Hc Hne. pose proof (get_At _ _ Ha) as Hr. pose proof Hr as (_ & Hcur & _).
  destruct p as [|x p]; [simpl in Hcur; congruence|]. exists p. simpl in *. rewrite <- Hc, Hcur. by split.
Qed.

Lemma remaining_At s p : At s p -> (length p <= remaining s)%nat.
Proof.
  unfold At, pending, remaining. intros (_ & <- & _ & _).
  destruct (next_unget (inp s)); [case_match; simpl; lia|lia].
Qed.

Lemma hd_tail_cases p : (p = [] /\ hd EOF p = EOF /\ tail p = []) \/
  exists c r, p = c :: r /\ hd EOF p = c /\ tail p = r.
Proof. destruct p; naive_solver. Qed.

(** ** Buffers *)

Lemma add_buffer x s : is_byte x -> token_buffer (add x s) = token_buffer s ++ [x].
Proof. intros. unfold add. simpl. by rewrite wrapu_small. Qed.

Lemma add_all_buffer xs : forall s, Forall is_byte xs ->
  token_buffer (add_all xs s) = token_buffer s ++ xs.
Proof.
  induction xs as [|x xs IH]; intros s Hb; [by rewrite app_nil_r|].
  inversion Hb; subst. change (add_all (x :: xs) s) with (add_all xs (add x s)).
  rewrite IH, add_buffer, <- app_assoc by done. done.
Qed.

Lemma add_all_point xs : forall s,
  decimal_point_position (add_all xs s) = decimal_point_position s.
Proof. induction xs as [|x xs IH]; intros s; [done|]. apply (IH (add x s)). Qed.

(** A scanning action that keeps the string under construction valid. *)
Definition str_inv s : Prop := utf8_valid (token_buffer s) /\ decimal_point_position s = None.

Lemma str_inv_add_all xs s : utf8_valid xs -> str_inv s -> str_inv (add_all xs s).
Proof.
  intros Hx [Hs Hp]. split; [|by rewrite add_all_point].
  rewrite add_all_buffer by by apply utf8_valid_bytes. by apply utf8_valid_app.
Qed.

Lemma str_inv_add x s : 0 <= x < 0x80 -> str_inv s -> str_inv (add x s).
Proof. intros Hx. apply (str_inv_add_all [x]). by apply utf8_valid_ascii. Qed.

(** What is true of the state after one turn: the rest is a shorter or equal
    suffix and the string is valid. *)
Definition step_ok (n : nat) (r : scan_step F) : Prop :=
  match r with
  | Continue s => exists c p, Rd s c p /\ (length p <= n)%nat /\ str_inv s
  | Return t s => exists c p, Rd s c p /\ (length p <= n)%nat /\
      (t = tok_parse_error \/ t = tok_string /\ str_inv s)
  end.

(** A turn that returned, no assertion having failed. *)
Definition turned (Q : scan_step F -> Prop) (r : comp (scan_step F)) : Prop := exists x, r = Ret x /\ Q x.

Lemma turned_ret (Q : scan_step F -> Prop) x : Q x -> turned Q (Ret x).
Proof. by exists x. Qed.

Lemma turned_mono (Q R : scan_step F -> Prop) r : turned Q r -> (forall x, Q x -> R x) -> turned R r.
Proof. intros (x & -> & Hx) HQ. exists x. auto. Qed.

Lemma step_fail n s c p e : Rd s c p -> (length p <= n)%nat -> turned (step_ok n) (Ret (fail s e)).
Proof. intros Hr Hn. apply turned_ret. exists c, p. auto. Qed.

(** Value of a hexadecimal digit, the three ranges of [get_codepoint]. *)
Definition hex_value (c : Z) : option Z :=
  if in_range 48 57 c then Some (c - 0x30)
  else if in_range 65 70 c then Some (c - 0x37)
  else if in_range 97 102 c then Some (c - 0x57)
  else None.

Lemma hex_value_range c d : hex_value c = Some d -> 0 <= d < 16.
Proof.
  unfold hex_value. repeat case_match; intros [= <-];
    repeat match goal with Hr : in_range _ _ _ = true |- _ => apply in_range_spec in Hr end; lia.
Qed.

Lemma get_codepoint_loop_cons f fs cp s : get_codepoint_loop (f :: fs) cp s =
  match hex_value (cur (get s)) with
  | Some d => get_codepoint_loop fs (cp + Z.shiftl d f) (get s)
  | None => (-1, get s)
  end.
Proof. unfold hex_value. simpl. by repeat case_match. Qed.

Lemma get_codepoint_loop_ok fs : forall cp s c p, Rd s c p ->
  exists c' p', Rd (get_codepoint_loop fs cp s).2 c' p' /\ (length p' <= length p)%nat /\
    token_buffer (get_codepoint_loop fs cp s).2 = token_buffer s /\
    decimal_point_position (get_codepoint_loop fs cp s).2 = decimal_point_position s.
Proof.
  induction fs as [|f fs IH]; intros cp s c p Hr; [by exists c, p|].
  pose proof (Rd_get _ _ _ Hr) as Hg.
  assert (length (tail p) <= length p)%nat by (destruct p; simpl; lia).
  rewrite get_codepoint_loop_cons. destruct (hex_value _) as [d|].
  - destruct (IH (cp + Z.shiftl d f) _ _ _ Hg) as (c' & p' & ? & ? & ? & ?).
    exists c', p'. split_and!; [done|lia|done..].
  - exists (hd EOF p), (tail p). auto.
Qed.

Lemma get_codepoint_loop_range fs : Forall (fun f => 0 <= f) fs -> forall cp s,
  let r := (get_codepoint_loop fs cp s).1 in
  r = -1 \/ cp <= r <= cp + fold_right (fun f a => 15 * 2 ^ f + a) 0 fs.
Proof.
  induction 1 as [|f fs Hf Hfs IH]; intros cp s; cbv zeta; [right; simpl; lia|].
  rewrite get_codepoint_loop_cons. destruct (hex_value _) as [d|] eqn:Ed; [|by left].
  apply hex_value_range in Ed. specialize (IH (cp + Z.shiftl d f) (get s)). cbv zeta in IH.
  destruct IH as [IH|IH]; [by left|right]. simpl.
  rewrite Z.shiftl_mul_pow2 in * by done.
  assert (0 < 2 ^ f) by (apply Z.pow_pos_nonneg; lia). nia.
Qed.

(** The code unit after [\u], and its escape character. *)
Definition code_unit s : Z * lexer F := get_codepoint_loop [12; 8; 4; 0] 0 s.

Lemma code_unit_range s cp s' : code_unit s = (cp, s') -> cp = -1 \/ 0 <= cp <= 0xFFFF.
Proof.
  intros E. pose proof (get_codepoint_loop_range [12; 8; 4; 0]
    ltac:(repeat constructor; lia) 0 s) as Hr. unfold code_unit in E.
  change (fold_right (fun f a => 15 * 2 ^ f + a) 0 [12; 8; 4; 0]) with 65535 in Hr.
  rewrite E in Hr. simpl in Hr. lia.
Qed.

Lemma code_unit_ok s c p cp s' : code_unit s = (cp, s') -> Rd s c p ->
  exists c' p', Rd s' c' p' /\ (length p' <= length p)%nat /\
    token_buffer s' = token_buffer s /\ decimal_point_position s' = decimal_point_position s.
Proof.
  intros E Hr. destruct (get_codepoint_loop_ok [12; 8; 4; 0] 0 s c p Hr) as (c' & p' & Hx).
  unfold code_unit in E. rewrite E in Hx. eauto.
Qed.

(** The assertions of [get_codepoint] hold. *)
Lemma get_codepoint_unit s : cur s = 117 -> get_codepoint s = Ret (code_unit s).
Proof.
  intros Hc. unfold get_codepoint. rewrite Hc. simpl negb. cbv iota.
  change (get_codepoint_loop [12; 8; 4; 0] 0 s) with (code_unit s). destruct (code_unit s) as [cp s'] eqn:E.
  destruct (code_unit_range _ _ _ E) as [-> |Hr]; [done|].
  destruct (Z.eqb_spec cp (-1)); [lia|]. by rewrite in_range_true.
Qed.

Lemma add_codepoint_scalar cp s : is_scalar cp ->
  add_codepoint cp s = Ret (Continue (add_all (codepoint_bytes cp) s)).
Proof. intros Hc. unfold add_codepoint. rewrite in_range_true; [done|]. unfold is_scalar in Hc. lia. Qed.

(** The code point of a surrogate pair. *)
Definition pair_codepoint (c1 c2 : Z) : Z :=
  wrapu 32 (wrapu 32 (Z.shiftl c1 10 + c2) - 0x35FDC00).

Lemma pair_codepoint_eq c1 c2 : 0xD800 <= c1 <= 0xDBFF -> 0xDC00 <= c2 <= 0xDFFF ->
  pair_codepoint c1 c2 = 0x10000 + (c1 - 0xD800) * 1024 + (c2 - 0xDC00).
Proof.
  intros H1 H2. unfold pair_codepoint. rewrite Z.shiftl_mul_pow2 by lia.
  change (2 ^ 10) with 1024. rewrite (wrapu_small _ (c1 * 1024 + c2)) by lia.
  rewrite wrapu_small; lia.
Qed.

Lemma str_inv_same s s' : token_buffer s' = token_buffer s ->
  decimal_point_position s' = decimal_point_position s -> str_inv s -> str_inv s'.
Proof. unfold str_inv. by intros -> ->. Qed.

(** Scanning an escape: the bytes added are the encoding of a scalar value. *)
Lemma str_inv_codepoint cp s : is_scalar cp -> str_inv s -> str_inv (add_all (codepoint_bytes cp) s).
Proof.
  intros Hc. apply str_inv_add_all. rewrite codepoint_bytes_encode by (destruct Hc; lia).
  by apply utf8_valid_encode.
Qed.

Lemma scan_unicode_escape_ok s p : Rd s 117 p -> str_inv s ->
  turned (step_ok (length p)) (scan_unicode_escape s).
Proof.
  intros Hr Hs. unfold scan_unicode_escape. rewrite get_codepoint_unit by apply Hr. cbn [comp_bind].
  destruct (code_unit s) as [cp1 s1] eqn:E1.
  pose proof (code_unit_range _ _ _ E1) as Hcp1.
  destruct (code_unit_ok _ _ _ _ _ E1 Hr) as (c1 & p1 & Hr1 & Hl1 & Hb1 & Hd1).
  destruct (Z.eqb_spec cp1 (-1)); [by eapply step_fail|].
  destruct (in_range 0xD800 0xDBFF cp1) eqn:Ehi.
  - pose proof (Rd_get _ _ _ Hr1) as Hr2.
    assert (length (tail p1) <= length p1)%nat by (destruct p1; simpl; lia).
    destruct (Z.eqb_spec (cur (get s1)) 92); [|eapply step_fail; [exact Hr2|lia]].
    pose proof (Rd_get _ _ _ Hr2) as Hr3.
    assert (length (tail (tail p1)) <= length (tail p1))%nat by (destruct (tail p1); simpl; lia).
    destruct (Z.eqb_spec (cur (get (get s1))) 117); [|eapply step_fail; [exact Hr3|lia]].
    rewrite get_codepoint_unit by done. cbn [comp_bind].
    destruct (code_unit (get (get s1))) as [cp2 s2] eqn:E2.
    destruct (code_unit_ok _ _ _ _ _ E2 Hr3) as (c2 & p2 & Hr4 & Hl2 & Hb2 & Hd2).
    destruct (Z.eqb_spec cp2 (-1)); [eapply step_fail; [exact Hr4|lia]|].
    destruct (in_range 0xDC00 0xDFFF cp2) eqn:Elo; [|eapply step_fail; [exact Hr4|lia]].
    apply in_range_spec in Ehi, Elo.
    change (wrapu 32 (wrapu 32 (Z.shiftl cp1 10 + cp2) - 0x35FDC00)) with (pair_codepoint cp1 cp2).
    rewrite pair_codepoint_eq, add_codepoint_scalar by (done || (right; lia)).
    apply turned_ret. exists c2, p2. split; [by apply Rd_add_all|]. split; [lia|].
    apply str_inv_codepoint; [right; lia|]. by eapply str_inv_same, str_inv_same.
  - destruct (in_range 0xDC00 0xDFFF cp1) eqn:Elo; [by eapply step_fail|].
    apply in_range_false in Ehi, Elo. assert (is_scalar cp1) by (unfold is_scalar; lia).
    rewrite add_codepoint_scalar by done. apply turned_ret. exists c1, p1.
    split; [by apply Rd_add_all|]. split; [lia|]. apply str_inv_codepoint; [done|].
    by eapply str_inv_same.
Qed.

Lemma scan_escape_ok s c p : Rd s c p -> str_inv s -> turned (step_ok (length p)) (scan_escape s).
Proof.
  intros Hr Hs. unfold scan_escape.
  repeat match goal with |- context [if cur s =? ?k then Ret _ else _] =>
    destruct (cur s =? k);
    [apply turned_ret; exists c, p; split; [by apply Rd_add|split; [lia|apply str_inv_add; [lia|done]]]|] end.
  destruct (Z.eqb_spec (cur s) 117) as [E|]; [|by eapply step_fail].
  apply scan_unicode_escape_ok; [|done]. pose proof Hr as (_ & Hc & _). rewrite E in Hc. by subst c.
Qed.

(** A multi-byte sequence: the loop adds it whole or fails. *)
Lemma next_bytes_ok rs : forall s c p, Rd s c p -> Forall (fun r => 0 <= r.1 /\ r.2 <= 255) rs ->
  let r := next_bytes rs s in
  exists c' p', Rd r.2 c' p' /\ (length p' <= length p)%nat /\
    decimal_point_position r.2 = decimal_point_position s /\
    (r.1 = true -> exists bs, token_buffer r.2 = token_buffer s ++ bs /\
       Forall2 (fun b r => in_range r.1 r.2 b = true) bs rs).
Proof.
  induction rs as [|[lo hi] rs IH]; intros s c p Hr Hrs; cbv zeta; simpl.
  - exists c, p. split_and!; [done|lia|done|]. intros _. exists []. by rewrite app_nil_r.
  - inversion Hrs as [|? ? Hb Hrs']; subst. simpl in Hb.
    pose proof (Rd_get _ _ _ Hr) as Hg.
    assert (length (tail p) <= length p)%nat by (destruct p; simpl; lia).
    destruct (in_range lo hi (cur (get s))) eqn:E; simpl.
    + destruct (IH (add (cur (get s)) (get s)) _ _ (Rd_add _ _ _ _ Hg) Hrs')
        as (c' & p' & Hr' & Hl & Hd & Ht).
      exists c', p'. split_and!; [done|lia|done|]. intros Htrue.
      destruct (Ht Htrue) as (bs & Hbs & Hf). exists (cur (get s) :: bs).
      split; [|by constructor]. rewrite Hbs, add_buffer, <- app_assoc; [done|].
      apply in_range_spec in E. unfold is_byte. lia.
    + exists (hd EOF p), (tail p). split_and!; [exact Hg|done|done|done].
Qed.

Lemma utf8_ranges_valid c rs bs : utf8_ranges c = Some rs ->
  Forall2 (fun b r => in_range r.1 r.2 b = true) bs rs -> utf8_valid (c :: bs).
Proof.
  unfold utf8_ranges. intros E Hbs.
  repeat match type of E with (if ?b then _ else _) = _ => destruct b eqn:?; [injection E as <-|] end;
    [..|done]; repeat match goal with Hf : Forall2 _ _ _ |- _ => inversion Hf; subst; clear Hf end;
    simpl in *; rewrite ?orb_true_iff, ?in_range_spec, ?Z.eqb_eq in *;
    [apply utf8_valid_2|apply utf8_valid_3..|apply utf8_valid_4|apply utf8_valid_4|apply utf8_valid_4];
    rewrite ?in_range_spec; lia.
Qed.

(** A well-formed sequence follows the ranges of its first byte. *)
Lemma utf8_ranges_shape b bs : utf8_shape (b :: bs) -> bs <> [] ->
  exists rs, utf8_ranges b = Some rs /\ Forall2 (fun b r => in_range r.1 r.2 b = true) bs rs.
Proof.
  intros Hsh Hne. inversion Hsh; subst; [done|..]; unfold utf8_ranges;
    repeat match goal with |- context [if ?c then _ else _] => destruct c eqn:? end;
    rewrite ?orb_true_iff, ?orb_false_iff, ?in_range_spec, ?in_range_false, ?Z.eqb_eq, ?Z.eqb_neq in *;
    first [exfalso; lia | eexists; split; [done|]; repeat constructor; apply in_range_true; simpl; lia].
Qed.

Lemma utf8_ranges_bounds c rs : utf8_ranges c = Some rs ->
  0x80 <= c <= 0xFF /\ Forall (fun r => 0 <= r.1 /\ r.2 <= 255) rs.
Proof.
  unfold utf8_ranges. intros E.
  repeat match type of E with (if ?b then _ else _) = _ => destruct b eqn:?; [injection E as <-|] end;
    [..|done]; rewrite ?orb_true_iff, ?in_range_spec, ?Z.eqb_eq in *;
    (split; [lia|repeat constructor; simpl; lia]).
Qed.

(** The assertion on the number of ranges. *)
Lemma next_byte_in_range_ret c rs s : utf8_ranges c = Some rs ->
  next_byte_in_range rs s = Ret (next_bytes rs (add (cur s) s)).
Proof.
  unfold utf8_ranges. intros E.
  by repeat match type of E with (if ?b then _ else _) = _ => destruct b; [injection E as <-|] end.
Qed.

Lemma scan_string_multibyte_ok s c p : Rd s c p -> str_inv s ->
  turned (step_ok (length p)) (scan_string_multibyte s).
Proof.
  intros Hr [Hv Hp]. unfold scan_string_multibyte.
  destruct (utf8_ranges (cur s)) as [rs|] eqn:E; [|by eapply step_fail].
  destruct (utf8_ranges_bounds _ _ E) as [Hc Hrs].
  destruct (next_bytes_ok rs (add (cur s) s) c p (Rd_add _ _ _ _ Hr) Hrs)
    as (c' & p' & Hr' & Hl & Hd & Ht).
  rewrite add_buffer in Ht by (unfold is_byte; lia). rewrite (next_byte_in_range_ret _ _ _ E). cbn [comp_bind].
  destruct (next_bytes rs (add (cur s) s)) as [[] s'] eqn:En; apply turned_ret;
    simpl in *; [|exists c', p'; auto].
  exists c', p'. split; [done|]. split; [done|].
  destruct (Ht eq_refl) as (bs & Hbs & Hf). split; [|by rewrite Hd].
  rewrite Hbs, <- app_assoc.
  apply utf8_valid_app; [done|]. by eapply utf8_ranges_valid.
Qed.

Lemma step_ok_le m n r : step_ok m r -> (m <= n)%nat -> step_ok n r.
Proof. destruct r; simpl; intros (c & p & ? & ? & ?) ?; exists c, p; (split; [done|split; [lia|done]]). Qed.

Lemma scan_string_body_ok s c p : Rd s c p -> str_inv s -> turned (step_ok (length p)) (scan_string_body s).
Proof.
  intros Hr Hs. unfold scan_string_body.
  destruct (cur s =? EOF); [by eapply step_fail|].
  destruct (cur s =? 34); [apply turned_ret; exists c, p; auto|].
  destruct (cur s =? 92).
  { eapply turned_mono; [by apply (scan_escape_ok _ _ _ (Rd_get _ _ _ Hr))|].
    intros x Hx. eapply step_ok_le; [exact Hx|]. destruct p; simpl; lia. }
  destruct (in_range 0 0x1F (cur s)) eqn:E0; [by eapply step_fail|].
  destruct (in_range 0x20 0x7F (cur s)) eqn:E1; [|by eapply scan_string_multibyte_ok].
  apply in_range_spec in E1. apply turned_ret. exists c, p.
  split_and!; [by apply Rd_add|lia|apply str_inv_add; [lia|done]].
Qed.

(** ** The loops terminate *)

(** What a token carries. *)
Definition tok_ok (t : token_type) s : Prop :=
  match t with
  | tok_string => utf8_valid (get_string s)
  | tok_unsigned => 0 <= value_unsigned s < 2 ^ 64
  | tok_integer => - 2 ^ 63 <= value_integer s < 2 ^ 63
  | _ => True
  end.

(** A scan returned, left at most [n] characters, and its token is valid. *)
Definition scanned (n : nat) (r : comp (token_type * lexer F)) : Prop :=
  exists t s p, r = Ret (t, s) /\ At s p /\ (length p <= n)%nat /\ tok_ok t s.

Lemma scanned_ret n t s p : At s p -> (length p <= n)%nat -> tok_ok t s -> scanned n (Ret (t, s)).
Proof. intros. exists t, s, p. auto. Qed.

Lemma scanned_le n m r : scanned n r -> (n <= m)%nat -> scanned m r.
Proof. intros (t & s & p & ? & ? & ? & ?) ?. exists t, s, p. split_and!; [done|done|lia|done]. Qed.

Lemma tail_length p : (length (tail p) <= length p)%nat.
Proof. destruct p; simpl; lia. Qed.

Lemma tail_length_eof p : hd EOF p <> EOF -> (length p = S (length (tail p)))%nat.
Proof. by destruct p. Qed.

Lemma scan_string_loop_ok fuel : forall s p, At s p -> str_inv s -> (length p < fuel)%nat ->
  scanned (length p) (scan_string_loop fuel s).
Proof.
  induction fuel as [|fuel IH]; intros s p Ha Hs Hf; [lia|]. cbn [scan_string_loop].
  pose proof (get_At _ _ Ha) as Hg. pose proof (tail_length p).
  assert (str_inv (get s)) as Hs' by done.
  destruct (Z.eq_dec (hd EOF p) EOF) as [Heof|Hne].
  { unfold scan_string_body. pose proof Hg as (_ & Hcur & _). rewrite Hcur, Heof. simpl.
    eapply scanned_ret; [by eapply Rd_At, Rd_error|done|done]. }
  apply tail_length_eof in Hne.
  destruct (scan_string_body_ok _ _ _ Hg Hs') as (x & -> & Hb). cbn [comp_bind].
  destruct x as [s1|t s1]; simpl in Hb; destruct Hb as (c' & p' & Hr & Hl & Hi).
  - eapply scanned_le; [eapply IH; [by eapply Rd_At|done|lia]|lia].
  - eapply scanned_ret; [by eapply Rd_At|lia|]. destruct Hi as [->|[-> [Hv Hp]]]; [done|].
    simpl. unfold get_string. by rewrite Hp.
Qed.

Lemma reset_str_inv s : str_inv (reset s).
Proof. split; [apply utf8_valid_nil|done]. Qed.

Lemma scan_string_reset s : cur s = 34 ->
  scan_string s = scan_string_loop (S (remaining (reset s))) (reset s).
Proof. intros Hc. unfold scan_string. change (cur (reset s)) with (cur s). by rewrite Hc. Qed.

Lemma scan_string_ok s p : Rd s 34 p -> scanned (length p) (scan_string s).
Proof.
  intros Hr. rewrite scan_string_reset by apply Hr. apply Rd_reset, Rd_At in Hr.
  apply scan_string_loop_ok; [done|apply reset_str_inv|].
  apply remaining_At in Hr. lia.
Qed.

Lemma scan_line_comment_ok fuel : forall s p, At s p -> (length p < fuel)%nat ->
  exists b s' c' p', scan_line_comment fuel s = Ret (b, s') /\ Rd s' c' p' /\
    (length p' <= length p)%nat.
Proof.
  induction fuel as [|fuel IH]; intros s p Ha Hf; [lia|]. simpl.
  pose proof (get_At _ _ Ha) as Hg. pose proof (tail_length p).
  destruct (_ || _) eqn:E; [by exists true, (get s), (hd EOF p), (tail p)|].
  assert (hd EOF p <> EOF) as Hne.
  { intros He. destruct Hg as (_ & Hcur & _). rewrite Hcur, He in E. done. }
  apply tail_length_eof in Hne.
  destruct (IH (get s) (tail p)) as (b & s' & c' & p' & ? & ? & ?); [by eapply Rd_At|lia|].
  exists b, s', c', p'. split_and!; [done|done|lia].
Qed.

Lemma scan_block_comment_ok fuel : forall s p, At s p -> (length p < fuel)%nat ->
  exists b s' c' p', scan_block_comment fuel s = Ret (b, s') /\ Rd s' c' p' /\
    (length p' <= length p)%nat.
Proof.
  induction fuel as [|fuel IH]; intros s p Ha Hf; [lia|]. simpl.
  pose proof (get_At _ _ Ha) as Hg. pose proof (tail_length p).
  destruct ((cur (get s) =? EOF) || (cur (get s) =? 0)) eqn:E.
  { exists false, (with_error (get s) "invalid comment; missing closing '*/'"), (hd EOF p), (tail p).
    split_and!; [done|by apply Rd_error|done]. }
  assert (hd EOF p <> EOF) as Hne.
  { intros He. destruct Hg as (_ & Hcur & _). rewrite Hcur, He in E. done. }
  apply tail_length_eof in Hne.
  assert (forall s1 p1, At s1 p1 -> (length p1 <= length (tail p))%nat ->
    exists b s' c' p', scan_block_comment fuel s1 = Ret (b, s') /\ Rd s' c' p' /\
      (length p' <= length p)%nat) as Hrec.
  { intros s1 p1 Ha1 Hl1. destruct (IH s1 p1 Ha1 ltac:(lia)) as (b & s' & c' & p' & ? & ? & ?).
    exists b, s', c', p'. split_and!; [done|done|lia]. }
  destruct (cur (get s) =? 42); [|eapply Hrec; [by eapply Rd_At|lia]].
  pose proof (Rd_get _ _ _ Hg) as Hg2. pose proof (tail_length (tail p)).
  destruct (cur (get (get s)) =? 47).
  { exists true, (get (get s)), (hd EOF (tail p)), (tail (tail p)). split_and!; [done|done|lia]. }
  rewrite (unget_back _ _ _ Hg2). cbn [comp_bind]. eapply Hrec; [by apply back_Rd|].
  destruct (Z.eqb_spec (hd EOF (tail p)) EOF); [simpl; lia|].
  rewrite (tail_length_eof (tail p)) by done. simpl. lia.
Qed.

Lemma scan_comment_ok s c p : Rd s c p ->
  exists b s' c' p', scan_comment s = Ret (b, s') /\ Rd s' c' p' /\
    (length p' <= length p)%nat /\ (b = true -> (length p' < length p)%nat).
Proof.
  intros Hr. pose proof (Rd_get _ _ _ Hr) as Hg. pose proof (tail_length p). unfold scan_comment.
  pose proof (remaining_At _ _ (Rd_At _ _ _ Hg)).
  assert (forall k, k <> EOF -> cur (get s) = k -> (length p = S (length (tail p)))%nat) as Hlt.
  { intros k Hk Hc. destruct Hg as (_ & Hcur & _). apply tail_length_eof. congruence. }
  destruct (Z.eqb_spec (cur (get s)) 47) as [E|];
    [|destruct (Z.eqb_spec (cur (get s)) 42) as [E|]].
  - destruct (scan_line_comment_ok (S (remaining (get s))) _ _ (Rd_At _ _ _ Hg) ltac:(lia))
      as (b & s' & c' & p' & ? & ? & ?). apply Hlt in E; [|done].
    exists b, s', c', p'. split_and!; [done|done|lia|lia].
  - destruct (scan_block_comment_ok (S (remaining (get s))) _ _ (Rd_At _ _ _ Hg) ltac:(lia))
      as (b & s' & c' & p' & ? & ? & ?). apply Hlt in E; [|done].
    exists b, s', c', p'. split_and!; [done|done|lia|lia].
  - eexists _, _, _, _. split_and!; [done|by apply Rd_error|done|done].
Qed.

Lemma skip_whitespace_loop_ok fuel : forall s p, At s p -> (length p < fuel)%nat ->
  exists s' c' p', skip_whitespace_loop fuel s = Ret s' /\ Rd s' c' p' /\
    (length p' <= length p)%nat /\ (c' <> EOF -> (length p' < length p)%nat).
Proof.
  induction fuel as [|fuel IH]; intros s p Ha Hf; [lia|]. simpl.
  pose proof (get_At _ _ Ha) as Hg. pose proof (tail_length p).
  destruct (is_ws (cur (get s))) eqn:E.
  - assert (hd EOF p <> EOF) as Hne.
    { intros He. destruct Hg as (_ & Hcur & _). rewrite Hcur, He in E. done. }
    apply tail_length_eof in Hne.
    destruct (IH (get s) (tail p)) as (s' & c' & p' & ? & ? & ? & ?); [by eapply Rd_At|lia|].
    exists s', c', p'. split_and!; [done|done|lia|lia].
  - exists (get s), (hd EOF p), (tail p). split_and!; [done|done|done|].
    intros Hne. rewrite (tail_length_eof p Hne). lia.
Qed.

Lemma skip_whitespace_ok s p : At s p ->
  exists s' c' p', skip_whitespace s = Ret s' /\ Rd s' c' p' /\
    (length p' <= length p)%nat /\ (c' <> EOF -> (length p' < length p)%nat).
Proof.
  intros Ha. apply skip_whitespace_loop_ok; [done|]. apply remaining_At in Ha. lia.
Qed.

Lemma skip_comments_ok fuel : forall s c p, Rd s c p -> (length p < fuel)%nat ->
  exists b s' c' p', skip_comments fuel s = Ret (b, s') /\ Rd s' c' p' /\
    (length p' <= length p)%nat.
Proof.
  induction fuel as [|fuel IH]; intros s c p Hr Hf; simpl; [lia|].
  destruct (ignore_comments s && (cur s =? 47)) eqn:E;
    [|exists true, s, c, p; split_and!; [done|done|lia]].
  destruct (scan_comment_ok _ _ _ Hr) as (b & s1 & c1 & p1 & -> & Hr1 & Hl1 & Hlt1). simpl.
  destruct b; [|exists false, s1, c1, p1; split_and!; [done|done|lia]].
  specialize (Hlt1 eq_refl).
  destruct (skip_whitespace_ok _ _ (Rd_At _ _ _ Hr1)) as (s2 & c2 & p2 & -> & Hr2 & Hl2 & _). simpl.
  destruct (IH s2 c2 p2 Hr2 ltac:(lia)) as (b & s' & c' & p' & ? & ? & ?).
  exists b, s', c', p'. split_and!; [done|done|lia].
Qed.

(** ** Numbers *)

Lemma int_part_digits ds : int_part ds -> all_digits ds /\ ds <> [].
Proof.
  intros [|d ds' Hd Hds]; (split; [|done]); constructor; try lia; [constructor|done].
Qed.

Lemma localized_digits dp ds : all_digits ds -> localized dp ds = ds.
Proof.
  unfold localized. induction 1 as [|c ds Hc _ IH]; simpl; [done|]. rewrite IH.
  by destruct (Z.eqb_spec c 46); [lia|].
Qed.

Lemma localized_exp dp ex : exp_part ex -> localized dp ex = ex.
Proof.
  intros Hex. destruct Hex as [e d ds He Hd Hds|e sg d ds He Hs Hd Hds]; unfold localized; simpl;
    fold (localized dp ds); rewrite localized_digits by done;
    repeat match goal with |- context [?c =? 46] => destruct (Z.eqb_spec c 46); [lia|] end; done.
Qed.

Lemma localized_app dp a b : localized dp (a ++ b) = localized dp a ++ localized dp b.
Proof. apply map_app. Qed.

Definition is_sign (sign : bytes) : Prop := sign = [] \/ sign = [45].
Definition int_type (sign : bytes) : token_type := if decide (sign = []) then tok_unsigned else tok_integer.
Definition is_frac (fr : bytes) : Prop := fr = [] \/ frac_part fr.
Definition is_e (e : Z) : Prop := e = 101 \/ e = 69.

(** What was read when the automaton is at a label with a type. *)
Inductive num_read : num_state -> token_type -> bytes -> Prop :=
  | read_minus nt : num_read num_minus nt [45]
  | read_zero sign : is_sign sign -> num_read num_zero (int_type sign) (sign ++ [48])
  | read_any1 sign d ds : is_sign sign -> 49 <= d <= 57 -> all_digits ds ->
      num_read num_any1 (int_type sign) (sign ++ d :: ds)
  | read_decimal1 sign ds nt : is_sign sign -> int_part ds -> num_read num_decimal1 nt ((sign ++ ds) ++ [46])
  | read_decimal2 sign ds fr : is_sign sign -> int_part ds -> frac_part fr ->
      num_read num_decimal2 tok_float ((sign ++ ds) ++ fr)
  | read_exponent sign ds fr e nt : is_sign sign -> int_part ds -> is_frac fr -> is_e e ->
      num_read num_exponent nt (((sign ++ ds) ++ fr) ++ [e])
  | read_sign sign ds fr e g : is_sign sign -> int_part ds -> is_frac fr -> is_e e -> g = 43 \/ g = 45 ->
      num_read num_sign tok_float (((sign ++ ds) ++ fr) ++ [e; g])
  | read_any2 sign ds fr ex : is_sign sign -> int_part ds -> is_frac fr -> exp_part ex ->
      num_read num_any2 tok_float (((sign ++ ds) ++ fr) ++ ex)
  | read_int sign ds : is_sign sign -> int_part ds -> num_read num_done (int_type sign) (sign ++ ds)
  | read_float sign ds fr ex : is_sign sign -> int_part ds -> is_frac fr -> ex = [] \/ exp_part ex ->
      fr ++ ex <> [] -> num_read num_done tok_float (((sign ++ ds) ++ fr) ++ ex).

Lemma all_digits_snoc ds c : all_digits ds -> is_digit c = true -> all_digits (ds ++ [c]).
Proof. intros Hd Hc%is_digit_spec. apply Forall_app. split; [done|by apply Forall_singleton]. Qed.

Lemma frac_snoc fr c : frac_part fr -> is_digit c = true -> frac_part (fr ++ [c]).
Proof. intros [d ds Hd Hds] Hc. simpl. constructor; [done|by apply all_digits_snoc]. Qed.

Lemma exp_snoc ex c : exp_part ex -> is_digit c = true -> exp_part (ex ++ [c]).
Proof. intros [e d ds He Hd Hds|e g d ds He Hs Hd Hds] Hc; simpl; [apply exp_intro|apply exp_signed]; auto using all_digits_snoc. Qed.

(** The characters that lead from a label to another. *)
Lemma read_digit st nt u c : num_read st nt u -> is_digit c = true ->
  (st = num_any1 -> num_read num_any1 nt (u ++ [c])) /\
  (st = num_decimal1 \/ st = num_decimal2 -> num_read num_decimal2 tok_float (u ++ [c])) /\
  (st = num_exponent \/ st = num_sign \/ st = num_any2 -> num_read num_any2 tok_float (u ++ [c])).
Proof.
  intros Hr Hc. pose proof Hc as Hd%is_digit_spec.
  destruct Hr; (split_and!; intros Hst; try discriminate Hst; try (by destruct Hst as [|]); try (by destruct Hst as [|[|]]); clear Hst).
  - rewrite <- app_assoc. simpl. constructor; auto using all_digits_snoc.
  - rewrite <- app_assoc. repeat (done || constructor).
  - rewrite <- app_assoc. constructor; auto using frac_snoc.
  - rewrite <- app_assoc. apply read_any2; [done..|]. apply exp_intro; [done|done|constructor].
  - rewrite <- app_assoc. apply read_any2; [done..|]. apply exp_signed; [done..|constructor].
  - rewrite <- app_assoc. constructor; auto using exp_snoc.
Qed.

(** The end of a number, its fraction and its exponent. *)
Definition mantissa_read (st : num_state) : Prop := st = num_zero \/ st = num_any1 \/ st = num_decimal2.

Lemma read_mantissa st nt u : num_read st nt u -> mantissa_read st ->
  exists sign ds fr, is_sign sign /\ int_part ds /\ is_frac fr /\ u = (sign ++ ds) ++ fr /\
    (st <> num_decimal2 -> fr = [] /\ nt = int_type sign) /\ (st = num_decimal2 -> frac_part fr /\ nt = tok_float).
Proof.
  intros Hr Hst. destruct Hr; try (by destruct Hst as [|[|]]).
  - exists sign, [48], []. split_and!; try done; [constructor|by left|by rewrite app_nil_r].
  - exists sign, (d :: ds), []. split_and!; try done; [by constructor|by left|by rewrite app_nil_r].
  - exists sign, ds, fr. split_and!; try done. by right.
Qed.

Lemma read_point st nt u : num_read st nt u -> st = num_zero \/ st = num_any1 -> num_read num_decimal1 nt (u ++ [46]).
Proof.
  intros Hr Hst. destruct (read_mantissa st nt u Hr) as (sign & ds & fr & Hs & Hd & _ & -> & Hi & _).
  { unfold mantissa_read. tauto. }
  destruct Hi as [-> _]; [by destruct Hst as [-> | ->]|]. rewrite app_nil_r. by constructor.
Qed.

Lemma read_e st nt u c : num_read st nt u -> mantissa_read st -> is_exp c = true -> num_read num_exponent nt (u ++ [c]).
Proof.
  intros Hr Hst He. destruct (read_mantissa st nt u Hr Hst) as (sign & ds & fr & Hs & Hd & Hf & -> & _).
  constructor; try done. unfold is_exp in He. by rewrite orb_true_iff, !Z.eqb_eq in He.
Qed.

Lemma read_done st nt u : num_read st nt u -> mantissa_read st \/ st = num_any2 -> num_read num_done nt u.
Proof.
  intros Hr [Hst| ->].
  - destruct (read_mantissa st nt u Hr Hst) as (sign & ds & fr & Hs & Hd & Hf & -> & Hi & Hfl).
    destruct (decide (st = num_decimal2)) as [E|E].
    + destruct (Hfl E) as [Hfr ->]. rewrite <- (app_nil_r ((sign ++ ds) ++ fr)).
      constructor; auto. rewrite app_nil_r. by destruct Hfr.
    + destruct (Hi E) as [-> ->]. rewrite app_nil_r. by constructor.
  - inversion Hr; subst. constructor; auto. match goal with He : exp_part _ |- _ => destruct He end; by destruct fr.
Qed.

(** One label: a character more, or the end. *)
Definition num_turn s p (nt : token_type) (u : bytes) (r : num_step F) : Prop :=
  match r with
  | NGoto num_done nt' s' => s' = get s /\ num_read num_done nt' u
  | NGoto st' nt' s' => exists c p', p = c :: p' /\ num_read st' nt' (u ++ [c]) /\
      token_buffer s' = localized (decimal_point_char s) (u ++ [c]) /\ At s' p' /\ kept s s'
  | NFail s' => Rd s' (hd EOF p) (tail p)
  end.

Lemma turn_fail s p nt u e : At s p -> num_turn s p nt u (NFail (with_error (get s) e)).
Proof. intros Ha. by apply Rd_error, get_At. Qed.

Lemma turn_add s p nt u st' nt' : At s p -> token_buffer s = localized (decimal_point_char s) u ->
  cur (get s) <> EOF -> cur (get s) <> 46 -> st' <> num_done -> num_read st' nt' (u ++ [cur (get s)]) ->
  num_turn s p nt u (NGoto st' nt' (add (cur (get s)) (get s))).
Proof.
  intros Ha Hb Hne H46 Hst Hr. destruct (read_char s p _ Ha eq_refl Hne) as (p' & -> & Hrd).
  assert (exists c p'', cur (get s) :: p' = c :: p'' /\ num_read st' nt' (u ++ [c]) /\
    token_buffer (add (cur (get s)) (get s)) = localized (decimal_point_char s) (u ++ [c]) /\
    At (add (cur (get s)) (get s)) p'' /\ kept s (add (cur (get s)) (get s))) as Hx; [|by destruct st'].
  exists (cur (get s)), p'. split_and!; [done|done| |by eapply Rd_At, Rd_add|keep].
  pose proof (At_head _ _ _ Ha). rewrite add_buffer by done. change (token_buffer (get s)) with (token_buffer s).
  rewrite Hb, localized_app. f_equal. unfold localized. simpl. by destruct (Z.eqb_spec (cur (get s)) 46).
Qed.

Lemma turn_digit s p nt u st' nt' : At s p -> token_buffer s = localized (decimal_point_char s) u ->
  is_digit (cur (get s)) = true -> st' <> num_done -> num_read st' nt' (u ++ [cur (get s)]) ->
  num_turn s p nt u (NGoto st' nt' (add (cur (get s)) (get s))).
Proof. intros Ha Hb Hd Hst Hr. apply is_digit_spec in Hd. apply turn_add; try done; unfold EOF; lia. Qed.

Lemma turn_point s p nt u : At s p -> token_buffer s = localized (decimal_point_char s) u ->
  cur (get s) = 46 -> num_read num_decimal1 nt (u ++ [46]) ->
  num_turn s p nt u (NGoto num_decimal1 nt (add_point (get s))).
Proof.
  intros Ha Hb Hc Hr. destruct (read_char s p _ Ha Hc ltac:(done)) as (p' & -> & Hrd).
  exists 46, p'. split_and!; [done|done| |exact (Rd_At _ _ _ (Rd_add _ _ _ (decimal_point_char s) Hrd))|].
  - change (token_buffer s ++ [wrapu 8 (decimal_point_char s)] = localized (decimal_point_char s) (u ++ [46])).
    by rewrite Hb, localized_app.
  - apply (kept_trans _ (get s)); [apply kept_get|done].
Qed.

Lemma turn_exp s p st nt u : At s p -> token_buffer s = localized (decimal_point_char s) u ->
  num_read st nt u -> mantissa_read st -> is_exp (cur (get s)) = true ->
  num_turn s p nt u (NGoto num_exponent nt (add (cur (get s)) (get s))).
Proof.
  intros Ha Hb Hr Hst He. apply turn_add; try done; [..|by eapply read_e];
    unfold is_exp in He; rewrite orb_true_iff, !Z.eqb_eq in He; unfold EOF; lia.
Qed.

Lemma turn_done s p st nt u : num_read st nt u -> mantissa_read st \/ st = num_any2 ->
  num_turn s p nt u (NGoto num_done nt (get s)).
Proof. intros Hr Hst. split; [done|by eapply read_done]. Qed.

Lemma num_label_sound st nt s p u : At s p -> num_read st nt u -> st <> num_done ->
  token_buffer s = localized (decimal_point_char s) u -> num_turn s p nt u (scan_number_label st nt s).
Proof.
  intros Ha Hr Hst Hb.
  assert (forall st' nt', is_digit (cur (get s)) = true -> st' <> num_done ->
    (is_digit (cur (get s)) = true -> num_read st' nt' (u ++ [cur (get s)])) ->
    num_turn s p nt u (NGoto st' nt' (add (cur (get s)) (get s)))) as Hdig by eauto using turn_digit.
  pose proof (fun Hd => read_digit st nt u (cur (get s)) Hr Hd) as Hrd.
  destruct st; simpl; try done;
    unfold scan_number_minus, scan_number_zero, scan_number_any1, scan_number_decimal1,
      scan_number_decimal2, scan_number_exponent, scan_number_sign, scan_number_any2.
  - inversion Hr; subst u. destruct (Z.eqb_spec (cur (get s)) 48) as [E|E].
    { apply Hdig; [apply is_digit_spec; lia|done|]. intros _. rewrite E. apply (read_zero [45]). by right. }
    destruct (in_range 49 57 (cur (get s))) eqn:Ed; [|by apply turn_fail]. apply in_range_spec in Ed.
    apply Hdig; [apply is_digit_spec; lia|done|]. intros _. apply (read_any1 [45]); [by right|done|constructor].
  - destruct (Z.eqb_spec (cur (get s)) 46) as [E|_]; [apply turn_point; auto; eapply read_point; eauto|].
    destruct (is_exp (cur (get s))) eqn:Ee; [eapply turn_exp; eauto; by left|eapply turn_done; [done|]; left; by left].
  - destruct (is_digit (cur (get s))) eqn:Ed; [apply Hdig; [done..|]; intros Hd; by apply Hrd|].
    destruct (Z.eqb_spec (cur (get s)) 46) as [E|_]; [apply turn_point; auto; eapply read_point; eauto|].
    destruct (is_exp (cur (get s))) eqn:Ee; [eapply turn_exp; eauto; right; by left|eapply turn_done; [done|]; left; right; by left].
  - destruct (is_digit (cur (get s))) eqn:Ed; [|by apply turn_fail]. apply Hdig; [done..|]. intros Hd. apply Hrd; [done|by left].
  - assert (nt = tok_float) as -> by (by inversion Hr).
    destruct (is_digit (cur (get s))) eqn:Ed; [apply Hdig; [done..|]; intros Hd; apply Hrd; [done|by right]|].
    destruct (is_exp (cur (get s))) eqn:Ee; [eapply turn_exp; eauto; right; by right|eapply turn_done; [done|]; left; right; by right].
  - destruct ((cur (get s) =? 43) || (cur (get s) =? 45)) eqn:Es.
    { rewrite orb_true_iff, !Z.eqb_eq in Es. apply turn_add; try done; [unfold EOF; lia|lia|].
      inversion Hr; subst. rewrite <- app_assoc. by constructor. }
    destruct (is_digit (cur (get s))) eqn:Ed; [|by apply turn_fail]. apply Hdig; [done..|]. intros Hd. apply Hrd; [done|by left].
  - assert (nt = tok_float) as -> by (by inversion Hr).
    destruct (is_digit (cur (get s))) eqn:Ed; [|by apply turn_fail]. apply Hdig; [done..|]. intros Hd. apply Hrd; [done|right; by left].
  - assert (nt = tok_float) as -> by (by inversion Hr).
    destruct (is_digit (cur (get s))) eqn:Ed; [apply Hdig; [done..|]; intros Hd; apply Hrd; [done|right; by right]|].
    eapply turn_done; [done|by right].
Qed.

(** [strtod] reads the whole text of a number, in a locale whose decimal
    point is a single [char]. *)
Lemma exponent_end ex : ex = [] \/ exp_part ex -> skip_exponent (skip_digits ex) = [].
Proof.
  intros [-> |Hex]; [done|].
  assert (exists e x, ex = e :: x /\ (e = 101 \/ e = 69)) as (e & x & -> & He) by (destruct Hex; eauto).
  rewrite skip_digits_stop by lia.
  assert (exists ds, (split_sign x).2 = ds /\ all_digits ds /\ ds <> []) as (ds & Ex & Hds & Hne).
  { inversion Hex as [e' d ds _ Hd Hds|e' g d ds _ Hg Hd Hds]; subst.
    - exists (d :: ds). rewrite split_sign_digit by done. split_and!; [done|by constructor|done].
    - exists (d :: ds). split_and!; [by destruct Hg as [-> | ->]|by constructor|done]. }
  unfold skip_exponent. destruct (split_sign x) as [b x']. simpl in Ex. subst x'.
  rewrite take_digits_all, skip_digits_all by done. destruct ds; [done|]. by destruct He as [-> | ->].
Qed.

Lemma fraction_end c d ds ex : ~ 48 <= c <= 57 -> 48 <= d <= 57 -> all_digits ds ->
  skip_fraction [c] (skip_digits ((c :: d :: ds) ++ ex)) = skip_digits ex.
Proof.
  intros Hc Hd Hds. simpl app. rewrite skip_digits_stop by done.
  unfold skip_fraction, after_point. rewrite decide_True by done.
  apply (skip_digits_app (d :: ds)). by constructor.
Qed.

Lemma strtod_end_number c sign ds fr ex : is_sign sign -> int_part ds -> is_frac fr -> ex = [] \/ exp_part ex ->
  strtod_end [wrapu 8 c] (localized c (((sign ++ ds) ++ fr) ++ ex)) =
  length (localized c (((sign ++ ds) ++ fr) ++ ex)).
Proof.
  intros Hs Hd Hf Hx. destruct (int_part_digits ds Hd) as [Hdd Hdn].
  assert (localized c ex = ex) as Eex by (destruct Hx as [-> |Hx]; [done|by apply localized_exp]).
  rewrite !localized_app, Eex, (localized_digits _ ds) by done.
  assert (localized c sign = sign) as -> by (by destruct Hs as [-> | ->]). rewrite <- !app_assoc.
  set (lf := localized c fr). set (t := sign ++ ds ++ lf ++ ex).
  assert (exists b, split_sign (skip_space t) = (b, ds ++ lf ++ ex)) as (b & E).
  { destruct ds as [|d ds']; [done|]. apply Forall_inv in Hdd as Hd0. unfold t. destruct Hs as [-> | ->].
    - exists false. simpl app. by rewrite skip_space_digit, split_sign_digit.
    - by exists true. }
  unfold strtod_end. rewrite E, take_digits_app, skip_digits_app by done.
  destruct ds as [|d0 ds']; [done|]. simpl app. cbv iota.
  assert (skip_exponent (skip_fraction [wrapu 8 c] (skip_digits (lf ++ ex))) = [] \/
          skip_exponent (skip_digits (lf ++ ex)) = []) as Hend.
  { destruct Hf as [-> |Hfr]; [right; by apply exponent_end|].
    destruct Hfr as [d ds Hd1 Hds].
    assert (lf = wrapu 8 c :: d :: ds) as ->.
    { unfold lf, localized. simpl. destruct (Z.eqb_spec d 46); [lia|]. do 2 f_equal. by apply localized_digits. }
    destruct (is_digit (wrapu 8 c)) eqn:Ec.
    - right. apply is_digit_spec in Ec. rewrite (skip_digits_app (wrapu 8 c :: d :: ds)); [by apply exponent_end|].
      by apply Forall_cons; split; [|constructor].
    - left. rewrite fraction_end; [by apply exponent_end| |done..].
      intros Hc. apply is_digit_spec in Hc. congruence. }
  destruct Hend as [-> | ->]; simpl length; lia.
Qed.

(** The text of a complete number. *)
Lemma read_number nt u : num_read num_done nt u ->
  exists sign ds fr ex, is_sign sign /\ int_part ds /\ is_frac fr /\ (ex = [] \/ exp_part ex) /\
    u = ((sign ++ ds) ++ fr) ++ ex /\ (nt = tok_float \/ (nt = int_type sign /\ fr = [] /\ ex = [])).
Proof.
  inversion 1 as [| | | | | | | |sign ds Hs Hd|sign ds fr ex Hs Hd Hf Hx Hne]; subst.
  - exists sign, ds, [], []. rewrite !app_nil_r. split_and!; auto. by left.
  - exists sign, ds, fr, ex. split_and!; auto.
Qed.

(** A buffer that holds the text of a complete number passes the assertion
    on the end of the conversion. *)
Lemma scan_number_float_ret s nt u : single_point s -> num_read num_done nt u ->
  token_buffer s = localized (decimal_point_char s) u ->
  scan_number_float s = Ret (tok_float, with_float s (strtod (token_buffer s))).
Proof.
  intros (c & Hc) Hu Hb. destruct (read_number _ _ Hu) as (sign & ds & fr & ex & Hs & Hd & Hf & Hx & -> & _).
  unfold scan_number_float. rewrite decide_True; [done|].
  unfold decimal_point_char in Hb. rewrite Hc in *. rewrite Hb. by apply strtod_end_number.
Qed.

Lemma localized_int c sign ds : is_sign sign -> int_part ds -> localized c (sign ++ ds) = sign ++ ds.
Proof.
  intros Hs Hd. rewrite localized_app, (localized_digits _ ds) by apply int_part_digits, Hd.
  by destruct Hs as [-> | ->].
Qed.

(** [scan_number_done]: an integer that fits, or the conversion to a float. *)
Lemma scan_number_done_cases nt s c p u : Rd s c p -> num_read num_done nt u ->
  token_buffer s = localized (decimal_point_char s) u ->
  (scan_number_done nt s = Ret (tok_float, with_float (back s) (strtod (token_buffer s))) /\
   (nt = tok_float \/
    exists ds, int_part ds /\ token_buffer s = u /\
      ((u = ds /\ 2 ^ 64 <= dec_value ds) \/ (u = 45 :: ds /\ 2 ^ 63 < dec_value ds)))) \/
  exists ds, int_part ds /\
    ((u = ds /\ dec_value ds < 2 ^ 64 /\
      scan_number_done nt s = Ret (tok_unsigned, with_unsigned (back s) (dec_value ds))) \/
     (u = 45 :: ds /\ dec_value ds <= 2 ^ 63 /\
      scan_number_done nt s = Ret (tok_integer, with_integer (back s) (- dec_value ds)))).
Proof.
  intros Hr Hu Hb. unfold scan_number_done. rewrite (unget_back _ _ _ Hr). cbn [comp_bind].
  assert (scan_number_float (back s) = Ret (tok_float, with_float (back s) (strtod (token_buffer s)))) as Efl.
  { apply (scan_number_float_ret (back s) nt u); [apply (back_Rd _ _ _ Hr)|done|done]. }
  change (token_buffer (back s)) with (token_buffer s).
  destruct (read_number _ _ Hu) as (sign & ds & fr & ex & Hs & Hd & Hf & Hx & -> & [-> |(-> & -> & ->)]);
    [left; auto|].
  rewrite !app_nil_r in *. rewrite localized_int in Hb by done.
  destruct (int_part_digits ds Hd) as [Hdd Hdn]. pose proof (dec_value_nonneg _ Hdd).
  destruct Hs as [-> | ->]; simpl in Hb; rewrite Hb; cbn [int_type].
  - change (int_type []) with tok_unsigned. cbv iota. rewrite strtoull_digits by done. unfold ULLONG_MAX.
    destruct (Z.ltb_spec (2 ^ 64 - 1) (dec_value ds)); simpl; rewrite decide_True by done.
    + left. rewrite <- Hb at 1. split; [by rewrite Hb in Efl |-*|]. right. exists ds. split_and!; auto. left. split; [done|lia].
    + right. exists ds. split; [done|left]. rewrite wrapu_small, Z.eqb_refl by lia. split_and!; [done|lia|done].
  - change (int_type [45]) with tok_integer. cbv iota. rewrite strtoll_minus_digits by done. unfold LLONG_MIN.
    destruct (Z.ltb_spec (- dec_value ds) (- 2 ^ 63)); simpl; rewrite decide_True by done.
    + left. split; [by rewrite Hb in Efl|]. right. exists ds. split_and!; auto. right. split; [done|lia].
    + right. exists ds. split; [done|right]. rewrite Z.eqb_refl. split_and!; [done|lia|done].
Qed.

Lemma scan_number_done_ok nt s p u : At s p -> num_read num_done nt u ->
  token_buffer s = localized (decimal_point_char s) u -> scanned (length p) (scan_number_done nt (get s)).
Proof.
  intros Ha Hu Hb. pose proof (back_get s p Ha) as Hk.
  destruct (scan_number_done_cases nt (get s) _ _ u (get_At _ _ Ha) Hu Hb)
    as [[-> _]|(ds & Hd & [(_ & ? & ->)|(_ & ? & ->)])];
    (eapply scanned_ret; [exact Hk|done|]); [done|..];
    destruct (int_part_digits ds Hd) as [Hdd _]; pose proof (dec_value_nonneg _ Hdd); simpl; lia.
Qed.

(** The loop: a character per turn until [num_done]. *)
Lemma scan_number_loop_ok fuel : forall st nt s p u, At s p -> st <> num_done -> num_read st nt u ->
  token_buffer s = localized (decimal_point_char s) u -> (length p < fuel)%nat ->
  scanned (length p) (scan_number_loop fuel st nt s).
Proof.
  induction fuel as [|fuel IH]; intros st nt s p u Ha Hst Hu Hb Hf; [lia|].
  pose proof (num_label_sound st nt s p u Ha Hu Hst Hb) as Hl. pose proof (tail_length p).
  replace (scan_number_loop (S fuel) st nt s) with
    (match scan_number_label st nt s with
     | NGoto st nt s => scan_number_loop fuel st nt s
     | NFail s => Ret (tok_parse_error, s)
     end) by (by destruct st).
  destruct (scan_number_label st nt s) as [st' nt' s'|s'].
  - destruct (decide (st' = num_done)) as [->|Hne].
    + destruct Hl as [-> Hd]. replace (scan_number_loop fuel num_done nt' (get s))
        with (scan_number_done nt' (get s)) by (by destruct fuel).
      by eapply scan_number_done_ok.
    + assert (exists c p', p = c :: p' /\ num_read st' nt' (u ++ [c]) /\
        token_buffer s' = localized (decimal_point_char s) (u ++ [c]) /\ At s' p' /\ kept s s')
        as (c & p' & -> & Hr' & Hb' & Ha' & (_ & Hd' & _)) by (by destruct st').
      rewrite <- Hd' in Hb'. simpl in Hf.
      eapply scanned_le; [eapply IH; [exact Ha'|done|done|done|lia]|simpl; lia].
  - eapply scanned_ret; [eapply Rd_At, Hl|done|done].
Qed.

(** The state [scan_number] starts the automaton in. *)
Lemma number_start s c p : Rd s c p -> (c =? 45) || in_range 48 57 c = true ->
  exists st, num_read st tok_unsigned [c] /\ st <> num_done /\
    scan_number s = scan_number_loop (S (remaining (reset s))) st tok_unsigned (add c (reset s)) /\
    At (add c (reset s)) p /\
    token_buffer (add c (reset s)) = localized (decimal_point_char (add c (reset s))) [c].
Proof.
  intros Hr Hc. unfold scan_number. change (cur (reset s)) with (cur s). rewrite (proj1 (proj2 Hr)).
  rewrite orb_true_iff, Z.eqb_eq, in_range_spec in Hc.
  assert (At (add c (reset s)) p) as Ha by (eapply Rd_At, Rd_add, Rd_reset, Hr).
  assert (token_buffer (add c (reset s)) = localized (decimal_point_char (add c (reset s))) [c]) as Hb.
  { rewrite add_buffer by (unfold is_byte; lia). unfold localized. simpl. by destruct (Z.eqb_spec c 46); [lia|]. }
  destruct (Z.eqb_spec c 45) as [->|]; [exists num_minus; split_and!; done || constructor|].
  destruct (Z.eqb_spec c 48) as [->|].
  { exists num_zero. split_and!; try done. apply (read_zero []). by left. }
  rewrite in_range_true by lia. exists num_any1. split_and!; try done.
  apply (read_any1 []); [by left|lia|constructor].
Qed.

Lemma scan_number_ok s c p : Rd s c p -> (c =? 45) || in_range 48 57 c = true ->
  scanned (length p) (scan_number s).
Proof.
  intros Hr Hc. destruct (number_start s c p Hr Hc) as (st & Hu & Hst & -> & Ha & Hb).
  eapply scan_number_loop_ok; [done..|].
  pose proof (remaining_At _ _ (Rd_At _ _ _ (Rd_reset _ _ _ Hr))). lia.
Qed.
(** ** [scan] *)

Lemma scan_literal_rest_ok text t : tok_ok t = (fun _ => True) -> forall s c p, Rd s c p ->
  scanned (length p) (Ret (scan_literal_rest text t s)).
Proof.
  intros Ht. induction text as [|x text IH]; intros s c p Hr; simpl.
  - eapply scanned_ret; [by eapply Rd_At|done|by rewrite Ht].
  - pose proof (Rd_get _ _ _ Hr) as Hg. pose proof (tail_length p).
    destruct (wrapu 8 (cur (get s)) =? x).
    + eapply scanned_le; [by eapply IH|done].
    + eapply scanned_ret; [eapply Rd_At, Rd_error, Hg|done|done].
Qed.

Lemma scan_literal_ret text t s : wrapu 8 (cur s) = hd 0 text ->
  scan_literal text t s = Ret (scan_literal_rest (tail text) t s).
Proof. intros Hc. unfold scan_literal. by rewrite Hc, Z.eqb_refl. Qed.

Lemma scan_token_ok s c p : Rd s c p -> scanned (length p) (scan_token s).
Proof.
  intros Hr. unfold scan_token. pose proof Hr as (_ & Hcur & _). rewrite Hcur.
  assert (forall t, tok_ok t = (fun _ => True) -> scanned (length p) (Ret (t, s))) as Hret.
  { intros t Ht. eapply scanned_ret; [by eapply Rd_At|done|by rewrite Ht]. }
  repeat match goal with
  | |- scanned _ (if ?c =? ?k then Ret _ else _) => destruct (c =? k); [by apply Hret|]
  end.
  do 3 (match goal with |- context [c =? ?k] => destruct (Z.eqb_spec c k) as [->|] end;
    [rewrite scan_literal_ret by (by rewrite Hcur); by eapply scan_literal_rest_ok|]).
  destruct (Z.eqb_spec c 34) as [->|]; [by apply scan_string_ok|].
  destruct ((c =? 45) || in_range 48 57 c) eqn:En; [by eapply scan_number_ok|].
  destruct ((c =? 0) || (c =? EOF)); [by apply Hret|].
  eapply scanned_ret; [by eapply Rd_At, Rd_error|done|done].
Qed.

Lemma skip_bom_ok s p : At s p ->
  exists b s' p', skip_bom s = Ret (b, s') /\ At s' p' /\ (length p' <= length p)%nat.
Proof.
  intros Ha. pose proof (get_At _ _ Ha) as H1. pose proof (Rd_get _ _ _ H1) as H2.
  pose proof (Rd_get _ _ _ H2) as H3. unfold skip_bom.
  pose proof (tail_length p). pose proof (tail_length (tail p)). pose proof (tail_length (tail (tail p))).
  destruct (cur (get s) =? 0xEF).
  - destruct (cur (get (get s)) =? 0xBB); eexists _, _, _;
      (split; [reflexivity|split; [by eapply Rd_At|lia]]).
  - rewrite (unget_get _ _ Ha). eexists _, _, p. split; [reflexivity|]. split; [by apply back_get|lia].
Qed.

Lemma scan_ok s p : At s p ->
  exists t s' p', scan s = Ret (t, s') /\ At s' p' /\ (length p' <= length p)%nat /\ tok_ok t s' /\
    (t <> end_of_input -> t <> tok_parse_error -> (length p' < length p)%nat).
Proof.
  intros Ha. unfold scan.
  assert (exists b s1 p1, (if chars_read_total (inp s) =? 0 then skip_bom s else Ret (true, s)) = Ret (b, s1)
    /\ At s1 p1 /\ (length p1 <= length p)%nat) as (b & s1 & p1 & -> & Ha1 & Hl1).
  { destruct (chars_read_total (inp s) =? 0); [by apply skip_bom_ok|by exists true, s, p]. }
  cbn [comp_bind]. destruct b; [|eexists _, _, p1; by split_and!].
  destruct (skip_whitespace_ok _ _ Ha1) as (s2 & c2 & p2 & -> & Hr2 & Hl2 & Hlt2). simpl.
  pose proof (remaining_At _ _ (Rd_At _ _ _ Hr2)).
  destruct (skip_comments_ok (S (remaining s2)) _ _ _ Hr2 ltac:(lia)) as (b & s3 & c3 & p3 & E3 & Hr3 & Hl3).
  simpl in E3. rewrite E3. simpl.
  destruct b; [|eexists _, _, p3; split_and!; [done|by eapply Rd_At|lia|done|done]].
  destruct (scan_token_ok _ _ _ Hr3) as (t & s4 & p4 & E4 & Ha4 & Hl4 & Ht4).
  exists t, s4, p4. split_and!; [done|done|lia|done|]. intros Heoi Herr.
  destruct (Z.eq_dec c2 EOF) as [->|Hne]; [|specialize (Hlt2 Hne); lia].
  exfalso. destruct Hr2 as (_ & Hc2 & _).
  rewrite Hc2, andb_false_r in E3. injection E3 as <-.
  unfold scan_token in E4. rewrite Hc2 in E4. simpl in E4. by injection E4 as <- _.
Qed.

(** Scanning neither throws nor runs out of fuel. *)
Lemma lexer_init_At a ignore dp : Forall is_byte a -> At (lexer_init a ignore [dp]) a.
Proof. intros. split_and!; try done. by exists dp. Qed.

End Facts.
