(* ===== verification/JsonParser.v ===== *)
(** The parser of the JSON library: the SAX interface it drives
    ([json_sax]), the DOM builder [json_sax_dom_parser] and the
    [json_sax_acceptor] that implement it, and [class parser], all of
    [src/libephmem/json.hpp].

    The DOM builder keeps pointers into the value under construction; a
    pointer is the path to the element it points to.  The text of exception
    messages is not modelled, only the kind and the id of the exception. *)
From S2P Require Import Prelude Utf8 JsonValue JsonLexer.

(** ** The SAX interface

    [start_object] and [start_array] are always called with the unknown
    size, so their [excessive size] test is false. *)
Class Sax (F S : Type) := {
  sax_null : S -> comp (bool * S);
  sax_boolean : bool -> S -> comp (bool * S);
  sax_number_integer : Z -> S -> comp (bool * S);
  sax_number_unsigned : Z -> S -> comp (bool * S);
  sax_number_float : F -> bytes -> S -> comp (bool * S);
  sax_string : bytes -> S -> comp (bool * S);
  sax_start_object : S -> comp (bool * S);
  sax_key : bytes -> S -> comp (bool * S);
  sax_end_object : S -> comp (bool * S);
  sax_start_array : S -> comp (bool * S);
  sax_end_array : S -> comp (bool * S);
  sax_parse_error : Z -> bytes -> exn -> S -> comp (bool * S)
}.

(** ** [json_sax_dom_parser] *)

Section Dom.
Context {F : Type}.

Record dom := mk_dom {
  root : json F;
  ref_stack : list (list pstep);        (* the back of the vector first *)
  object_element : option (list pstep);
  errored : bool;
  allow_exceptions : bool
}.

Definition dom_init (result : json F) (allow : bool) : dom :=
  mk_dom result [] None false allow.

Definition with_root (d : dom) (r : json F) : dom :=
  mk_dom r (ref_stack d) (object_element d) (errored d) (allow_exceptions d).
Definition with_stack (d : dom) (st : list (list pstep)) : dom :=
  mk_dom (root d) st (object_element d) (errored d) (allow_exceptions d).

(** [*ref_stack.back()] *)
Definition back_value (d : dom) : option (json F) :=
  match ref_stack d with
  | [] => None
  | p :: _ => path_get (root d) p
  end.

(** [handle_value]: the pointer to the stored value, and the new state. *)
Definition handle_value (v : json F) (d : dom) : comp (list pstep * dom) :=
  match ref_stack d with
  | [] => Ret ([], with_root d v)
  | p :: _ =>
      match path_get (root d) p with
      | Some (value_array l) =>
          Ret (p ++ [PIdx (length l)],
               with_root d (path_alter (fun _ => value_array (l ++ [v])) (root d) p))
      | Some (value_object _) =>
          match object_element d with
          | Some e => Ret (e, with_root d (path_alter (fun _ => v) (root d) e))
          | None => Throw assertion_failure
          end
      | _ => Throw assertion_failure
      end
  end.

Definition dom_value (v : json F) (d : dom) : comp (bool * dom) :=
  let* '(_, d) := handle_value v d in Ret (true, d).

Definition dom_start (v : json F) (d : dom) : comp (bool * dom) :=
  let* '(p, d) := handle_value v d in Ret (true, with_stack d (p :: ref_stack d)).

Definition dom_start_object (d : dom) : comp (bool * dom) := dom_start (value_object []) d.
Definition dom_start_array (d : dom) : comp (bool * dom) := dom_start (value_array []) d.

Definition dom_key (k : bytes) (d : dom) : comp (bool * dom) :=
  match ref_stack d with
  | [] => Throw assertion_failure
  | p :: _ =>
      match path_get (root d) p with
      | Some (value_object m) =>
          Ret (true,
            mk_dom (path_alter (fun _ => value_object (object_emplace k value_null m)) (root d) p)
              (ref_stack d) (Some (p ++ [PKey k])) (errored d) (allow_exceptions d))
      | _ => Throw assertion_failure
      end
  end.

Definition dom_end_object (d : dom) : comp (bool * dom) :=
  match ref_stack d, back_value d with
  | _ :: st, Some (value_object _) => Ret (true, with_stack d st)
  | _, _ => Throw assertion_failure
  end.

Definition dom_end_array (d : dom) : comp (bool * dom) :=
  match ref_stack d, back_value d with
  | _ :: st, Some (value_array _) => Ret (true, with_stack d st)
  | _, _ => Throw assertion_failure
  end.

Definition dom_parse_error (ex : exn) (d : dom) : comp (bool * dom) :=
  if allow_exceptions d then Throw ex
  else Ret (false, mk_dom (root d) (ref_stack d) (object_element d) true (allow_exceptions d)).

#[export] Instance dom_sax : Sax F dom := {
  sax_null := dom_value value_null;
  sax_boolean b := dom_value (value_boolean b);
  sax_number_integer z := dom_value (value_number_integer z);
  sax_number_unsigned z := dom_value (value_number_unsigned z);
  sax_number_float f _ := dom_value (value_number_float f);
  sax_string s := dom_value (value_string s);
  sax_start_object := dom_start_object;
  sax_key := dom_key;
  sax_end_object := dom_end_object;
  sax_start_array := dom_start_array;
  sax_end_array := dom_end_array;
  sax_parse_error _ _ ex := dom_parse_error ex
}.
End Dom.
Arguments dom F : clear implicits.

(** ** [json_sax_acceptor]: accepts every event but an error. *)
Record acceptor := mk_acceptor {}.

#[export] Instance acceptor_sax {F} : Sax F acceptor := {
  sax_null s := Ret (true, s);
  sax_boolean _ s := Ret (true, s);
  sax_number_integer _ s := Ret (true, s);
  sax_number_unsigned _ s := Ret (true, s);
  sax_number_float _ _ s := Ret (true, s);
  sax_string _ s := Ret (true, s);
  sax_start_object s := Ret (true, s);
  sax_key _ s := Ret (true, s);
  sax_end_object s := Ret (true, s);
  sax_start_array s := Ret (true, s);
  sax_end_array s := Ret (true, s);
  sax_parse_error _ _ _ s := Ret (false, s)
}.

(** ** [class parser] *)

(** The variables of [sax_parse_internal] and the parser's members.  The
    back of [states] is the head of the list; [true] is an array. *)
Record parser (F S : Type) := mk_parser {
  states : list bool;
  skip_to_state_evaluation : bool;
  last_token : token_type;
  m_lexer : lexer F;
  sax : S
}.
Arguments mk_parser {F S} _ _ _ _ _.
Arguments states {F S} _.
Arguments skip_to_state_evaluation {F S} _.
Arguments last_token {F S} _.
Arguments m_lexer {F S} _.
Arguments sax {F S} _.

(** How a part of the loop body ends: [return b], [continue], or falling
    through to the evaluation of the state. *)
Inductive flow (P : Type) : Type :=
  | FReturn (b : bool) (p : P)
  | FContinue (p : P)
  | FBreak (p : P).
Arguments FReturn {P} _ _.
Arguments FContinue {P} _.
Arguments FBreak {P} _.

Section Parser.
Context {F S : Type} `{FloatOps F} `{Sax F S}.
Notation parser := (parser F S).
Implicit Types (p : parser).

Definition with_sax p (s : S) : parser :=
  mk_parser (states p) (skip_to_state_evaluation p) (last_token p) (m_lexer p) s.
Definition with_states p (st : list bool) : parser :=
  mk_parser st (skip_to_state_evaluation p) (last_token p) (m_lexer p) (sax p).
Definition with_skip p (b : bool) : parser :=
  mk_parser (states p) b (last_token p) (m_lexer p) (sax p).

(** [get_token] *)
Definition get_token p : comp parser :=
  let* '(t, l) := scan (m_lexer p) in
  Ret (mk_parser (states p) (skip_to_state_evaluation p) t l (sax p)).

(** [return sax->parse_error(...)] *)
Definition error_return (ex : exn) p : comp (flow parser) :=
  let* '(b, s) := sax_parse_error (chars_read_total (inp (m_lexer p)))
                    (get_token_string (m_lexer p)) ex (sax p) in
  Ret (FReturn b (with_sax p s)).

(** [if (!sax->event(...)) return false;] followed by [k]. *)
Definition event (ev : S -> comp (bool * S)) p (k : parser -> comp (flow parser)) :
    comp (flow parser) :=
  let* '(b, s) := ev (sax p) in
  if b then k (with_sax p s) else Ret (FReturn false (with_sax p s)).

(** A key and the separator after it, when the key is [last_token]; then
    [k]. *)
Definition parse_key p (k : parser -> comp (flow parser)) : comp (flow parser) :=
  if decide (last_token p = tok_string) then
    event (sax_key (get_string (m_lexer p))) p (fun p =>
      let* p := get_token p in
      if decide (last_token p = name_separator) then k p
      else error_return (parse_error 101) p)
  else error_return (parse_error 101) p.

Definition parse_begin_object p : comp (flow parser) :=
  event sax_start_object p (fun p =>
    let* p := get_token p in
    if decide (last_token p = end_object) then
      event sax_end_object p (fun p => Ret (FBreak p))
    else
      parse_key p (fun p =>
        let p := with_states p (false :: states p) in
        let* p := get_token p in
        Ret (FContinue p))).

Definition parse_begin_array p : comp (flow parser) :=
  event sax_start_array p (fun p =>
    let* p := get_token p in
    if decide (last_token p = end_array) then
      event sax_end_array p (fun p => Ret (FBreak p))
    else Ret (FContinue (with_states p (true :: states p)))).

(** The [switch] on [last_token]. *)
Definition parse_value_phase p : comp (flow parser) :=
  let break p := Ret (FBreak p) in
  match last_token p with
  | begin_object => parse_begin_object p
  | begin_array => parse_begin_array p
  | tok_float =>
      let res := value_float (m_lexer p) in
      if isfinite res then
        event (sax_number_float res (get_string (m_lexer p))) p break
      else error_return (out_of_range 406) p
  | literal_false => event (sax_boolean false) p break
  | literal_null => event sax_null p break
  | literal_true => event (sax_boolean true) p break
  | tok_integer => event (sax_number_integer (value_integer (m_lexer p))) p break
  | tok_string => event (sax_string (get_string (m_lexer p))) p break
  | tok_unsigned => event (sax_number_unsigned (value_unsigned (m_lexer p))) p break
  | tok_parse_error => error_return (parse_error 101) p
  | end_of_input => error_return (parse_error 101) p
  | uninitialized | end_array | end_object | name_separator | value_separator
  | literal_or_value => error_return (parse_error 101) p
  end.

(** The end of a container: the state is popped and evaluated again. *)
Definition close_container (ev : S -> comp (bool * S)) p : comp (flow parser) :=
  event ev p (fun p => Ret (FContinue (with_skip (with_states p (tail (states p))) true))).

Definition parse_array_state p : comp (flow parser) :=
  let* p := get_token p in
  if decide (last_token p = value_separator) then
    let* p := get_token p in Ret (FContinue p)
  else if decide (last_token p = end_array) then close_container sax_end_array p
  else error_return (parse_error 101) p.

Definition parse_object_state p : comp (flow parser) :=
  let* p := get_token p in
  if decide (last_token p = value_separator) then
    let* p := get_token p in
    parse_key p (fun p => let* p := get_token p in Ret (FContinue p))
  else if decide (last_token p = end_object) then close_container sax_end_object p
  else error_return (parse_error 101) p.

(** After a value: done, next element, or end of the container. *)
Definition parse_state_phase p : comp (flow parser) :=
  match states p with
  | [] => Ret (FReturn true p)
  | true :: _ => parse_array_state p
  | false :: _ => parse_object_state p
  end.

(** One turn of the [while (true)] loop. *)
Definition parse_turn p : comp (flow parser) :=
  if skip_to_state_evaluation p then parse_state_phase (with_skip p false)
  else
    let* f := parse_value_phase p in
    match f with
    | FBreak p => parse_state_phase p
    | f => Ret f
    end.

Fixpoint sax_parse_loop (fuel : nat) p : comp (bool * parser) :=
  match fuel with
  | O => OutOfFuel
  | Datatypes.S fuel =>
      let* f := parse_turn p in
      match f with
      | FReturn b p => Ret (b, p)
      | FContinue p | FBreak p => sax_parse_loop fuel p
      end
  end.

(** Fuel: one turn per character left, and two for the end. *)
Definition sax_parse_internal p : comp (bool * parser) :=
  sax_parse_loop (Datatypes.S (Datatypes.S (remaining (m_lexer p)))) (with_skip (with_states p []) false).

(** [parser(adapter, nullptr, allow_exceptions, skip_comments)] *)
Definition parser_init (adapter : bytes) (skip_comments : bool) (decimal_point : bytes) (s : S) :
    comp parser :=
  get_token (mk_parser [] false uninitialized (lexer_init adapter skip_comments decimal_point) s).

(** [sax_parse] *)
Definition sax_parse (strict : bool) p : comp (bool * parser) :=
  let* '(result, p) := sax_parse_internal p in
  if result && strict then
    let* p := get_token p in
    if decide (last_token p = end_of_input) then Ret (result, p)
    else
      let* '(b, s) := sax_parse_error (chars_read_total (inp (m_lexer p)))
                        (get_token_string (m_lexer p)) (parse_error 101) (sax p) in
      Ret (b, with_sax p s)
  else Ret (result, p).
End Parser.

Section Entry.
Context {F : Type} `{FloatOps F}.

(** [parser::parse] without a callback: the errors are in the builder. *)
Definition parser_parse (strict : bool) (p : parser F (dom F)) : comp (json F) :=
  let* '(_, p) := sax_parse_internal p in
  let* p :=
    (if strict then
       let* p := get_token p in
       if decide (last_token p = end_of_input) then Ret p
       else
         let* '(_, d) := dom_parse_error (parse_error 101) (sax p) in
         Ret (with_sax p d)
     else Ret p) in
  if errored (sax p) then Ret value_discarded else Ret (root (sax p)).

(** [basic_json::parse(i, nullptr, allow_exceptions, ignore_comments)] *)
Definition json_parse (i : bytes) (allow ignore : bool) (decimal_point : bytes) : comp (json F) :=
  let* p := parser_init i ignore decimal_point (dom_init value_null allow) in
  parser_parse true p.

(** [basic_json::accept(i, ignore_comments)] *)
Definition json_accept (i : bytes) (ignore : bool) (decimal_point : bytes) : comp bool :=
  let* p := parser_init i ignore decimal_point (mk_acceptor) in
  let* '(b, _) := sax_parse true p in Ret b.
End Entry.
