(* ===== verification/JsonParserFacts.v ===== *)
(** Facts of the parser: the DOM builder's assertions never fail and keep
    the value well-formed; the loop of [sax_parse_internal] terminates
    within its fuel; and the builder and the acceptor, driven by the same
    input, take the same decisions. *)
From S2P Require Import Prelude CLib Utf8 JsonValue JsonLexer JsonLexerFacts JsonParser.

(** ** The DOM builder *)

Section DomFacts.
Context {F : Type}.
Implicit Types (d : dom F) (v j : json F) (p q : list pstep).

Definition has_kind (b : bool) v : Prop := (if b then is_array v else is_object v) = true.

Definition kind_at j (b : bool) p : Prop := exists v, path_get j p = Some v /\ has_kind b v.

(** The pointers of the stack: each extends the one below by one step. *)
Inductive chain : list (list pstep) -> Prop :=
  | chain_nil : chain []
  | chain_base : chain [[]]
  | chain_cons p s st : chain (p :: st) -> chain ((p ++ [s]) :: p :: st).

Definition dom_inv (sts : list bool) d : Prop :=
  chain (ref_stack d) /\ Forall2 (kind_at (root d)) sts (ref_stack d) /\ wf_json (root d).

(** A value can be stored: nothing is open, an array is open, or an object
    with a key. *)
Definition ready d : Prop :=
  match ref_stack d with
  | [] => True
  | p :: _ =>
      match path_get (root d) p with
      | Some (value_array _) => True
      | Some (value_object _) => exists k, object_element d = Some (p ++ [PKey k]) /\
          is_Some (path_get (root d) (p ++ [PKey k]))
      | _ => False
      end
  end.

(** The root after [handle_value v]. *)
Definition place v d : json F :=
  match ref_stack d with
  | [] => v
  | p :: _ =>
      match path_get (root d) p, object_element d with
      | Some (value_array l), _ => path_alter (fun _ => value_array (l ++ [v])) (root d) p
      | Some (value_object _), Some e => path_alter (fun _ => v) (root d) e
      | _, _ => root d
      end
  end.

(** Where it is stored. *)
Definition slot d : list pstep :=
  match ref_stack d with
  | [] => []
  | p :: _ =>
      match path_get (root d) p, object_element d with
      | Some (value_array l), _ => p ++ [PIdx (length l)]
      | _, Some e => e
      | _, None => []
      end
  end.

Lemma handle_value_ready v d : ready d -> handle_value v d = Ret (slot d, with_root d (place v d)).
Proof.
  unfold ready, handle_value, place, slot. destruct (ref_stack d) as [|p st]; [done|].
  destruct (path_get (root d) p) as [[]|]; try done. by intros (k & -> & _).
Qed.

Lemma path_get_snoc j p s : path_get j (p ++ [s]) =
  match path_get j p with Some v => step_get v s | None => None end.
Proof. rewrite path_get_app. destruct (path_get j p) as [v|]; [|done]. simpl. by destruct (step_get v s). Qed.

Lemma slot_place v d : ready d -> path_get (place v d) (slot d) = Some v.
Proof.
  unfold ready, place, slot. destruct (ref_stack d) as [|p st]; [done|].
  destruct (path_get (root d) p) as [j|] eqn:E; [|done]. destruct j as [|m|l| | | | | | |]; try done.
  - intros (k & -> & [w Hw]). by rewrite path_get_alter, Hw.
  - intros _. rewrite path_get_snoc, path_get_alter, E. simpl. by rewrite list_lookup_middle.
Qed.

(** Changing the stored value afterwards is storing the changed value. *)
Lemma place_alter f v d : ready d -> path_alter f (place v d) (slot d) = place (f v) d.
Proof.
  unfold ready, place, slot. destruct (ref_stack d) as [|p st]; [done|].
  destruct (path_get (root d) p) as [j|] eqn:E; [|done]. destruct j as [|m|l| | | | | | |]; try done.
  - intros (k & -> & _). by rewrite path_alter_alter.
  - intros _. rewrite path_alter_app, path_alter_alter. apply path_alter_ext.
    intros w _. simpl. by rewrite alter_last.
Qed.

Lemma has_kind_step_alter b f v s : has_kind b v -> has_kind b (step_alter f v s).
Proof. by destruct b, v, s. Qed.

Lemma kind_alter f j b q r :
  (r = [] -> forall v, path_get j q = Some v -> has_kind b v -> has_kind b (f v)) ->
  kind_at j b q -> kind_at (path_alter f j (q ++ r)) b q.
Proof.
  intros Hf (v & Hv & Hk). exists (path_alter f v r).
  rewrite path_alter_app, path_get_alter, Hv. split; [done|].
  destruct r as [|s r]; simpl; [by apply Hf|by apply has_kind_step_alter].
Qed.

Lemma chain_prefix st : chain st -> forall p, head st = Some p ->
  forall q, q ∈ st -> exists r, p = q ++ r.
Proof.
  induction 1 as [| |p s st Hc IH]; simpl; intros p' [= <-] q Hq.
  - apply list_elem_of_singleton in Hq as ->. by exists [].
  - apply elem_of_cons in Hq as [->|Hq]; [exists []; by rewrite app_nil_r|].
    destruct (IH p eq_refl q Hq) as [r ->]. exists (r ++ [s]). by rewrite app_assoc.
Qed.

(** Storing a value keeps the kinds of the open containers. *)
Lemma kinds_place sts v d : ready d -> chain (ref_stack d) ->
  Forall2 (kind_at (root d)) sts (ref_stack d) -> Forall2 (kind_at (place v d)) sts (ref_stack d).
Proof.
  unfold ready, place. intros Hr Hc Hk.
  destruct (ref_stack d) as [|p st] eqn:Est; [by inversion Hk; constructor|].
  assert (forall q, q ∈ p :: st -> exists r, p = q ++ r) as Hpre by by apply chain_prefix.
  destruct (path_get (root d) p) as [j|] eqn:E; [|done]. destruct j as [|m|l| | | | | | |]; try done.
  - destruct Hr as (k & -> & _).
    eapply Forall2_impl_r; [exact Hk|]. intros b q Hq Hb.
    destruct (Hpre q Hq) as [r ->]. rewrite <- app_assoc. apply kind_alter; [by destruct r|done].
  - eapply Forall2_impl_r; [exact Hk|]. intros b q Hq Hb.
    destruct (Hpre q Hq) as [r ->]. apply kind_alter; [|done].
    intros -> w Hw Hkw. rewrite app_nil_r, Hw in E. injection E as ->. by destruct b.
Qed.

(** ** Well-formedness *)

Lemma object_find_wf k m v : wf_json (value_object m) -> object_find k m = Some v -> wf_json v.
Proof.
  inversion 1 as [|m' _ _ Hall| | | | | |]; subst. clear H. induction Hall as [|[k' w] m Hw _ IH]; simpl; [done|].
  case_decide; [by intros [= <-]|done].
Qed.

Lemma object_alter_values (P : json F -> Prop) f k m : Forall (fun kv => P kv.2) m ->
  (forall v, object_find k m = Some v -> P v -> P (f v)) ->
  Forall (fun kv => P kv.2) (object_alter f k m).
Proof.
  induction 1 as [|[k' v] m Hv Hm IH]; simpl; intros Hf; [constructor|].
  case_decide; constructor; simpl; auto.
Qed.

Lemma keys_forall (P : bytes -> Prop) (m : list (bytes * json F)) :
  Forall (fun kv => P kv.1) m <-> Forall P (keys m).
Proof. unfold keys. by rewrite Forall_fmap. Qed.

Lemma wf_step_get j s v : wf_json j -> step_get j s = Some v -> wf_json v.
Proof.
  destruct s as [i|k], j as [|m|l| | | | | | |]; simpl; try done.
  - inversion 1 as [| |? Hall| | | | |]; subst. intros Hi. by eapply (Forall_lookup_1 wf_json).
  - intros Hm Hf. by eapply object_find_wf.
Qed.

Lemma wf_step_alter f j s : wf_json j -> (forall v, step_get j s = Some v -> wf_json v -> wf_json (f v)) ->
  wf_json (step_alter f j s).
Proof.
  destruct s as [i|k], j as [|m|l| | | | | | |]; simpl; try done; inversion 1; subst; intros Hf; constructor.
  - apply Forall_lookup. intros i' v. rewrite list_lookup_alter. case_decide.
    + subst. destruct (l !! i') as [w|] eqn:E; [|done]. simpl. intros [= <-].
      apply Hf; [done|]. eapply Forall_lookup_1; eauto.
    + by apply Forall_lookup_1.
  - by apply object_alter_sorted.
  - apply keys_forall. rewrite object_alter_keys. by apply keys_forall.
  - by apply object_alter_values.
Qed.

Lemma wf_path_alter f p : forall j, wf_json j ->
  (forall v, path_get j p = Some v -> wf_json v -> wf_json (f v)) -> wf_json (path_alter f j p).
Proof.
  induction p as [|s p IH]; intros j Hj Hf; simpl in *; [by apply Hf|].
  apply wf_step_alter; [done|]. intros v Hv Hwv. apply IH; [done|].
  intros w Hw. apply Hf. by rewrite Hv.
Qed.

Lemma wf_path_get p : forall j v, wf_json j -> path_get j p = Some v -> wf_json v.
Proof.
  induction p as [|s p IH]; intros j v Hj; simpl; [by intros [= <-]|].
  destruct (step_get j s) as [w|] eqn:E; [|done]. eauto using wf_step_get.
Qed.

Lemma wf_array_snoc l v : wf_json (value_array l) -> wf_json v -> wf_json (value_array (l ++ [v])).
Proof. inversion 1; subst. constructor. apply Forall_app. split; [done|by apply Forall_singleton]. Qed.

Lemma wf_object_emplace k v m : wf_json (value_object m) -> utf8_valid k -> wf_json v ->
  wf_json (value_object (object_emplace k v m)).
Proof.
  inversion 1 as [|m' Hs Hk Hv| | | | | |]; subst. intros Hu Hw. constructor.
  - by apply object_emplace_sorted.
  - clear Hv Hs H. induction Hk as [|[k' v'] m Hk' Hm IH]; simpl; [by repeat constructor|].
    repeat case_match; repeat constructor; auto.
  - clear Hk Hs H. induction Hv as [|[k' v'] m Hk' Hm IH]; simpl; [by repeat constructor|].
    repeat case_match; repeat constructor; auto.
Qed.

Lemma place_wf v d : wf_json (root d) -> wf_json v -> wf_json (place v d).
Proof.
  intros Hr Hv. unfold place. destruct (ref_stack d) as [|p st]; [done|].
  destruct (path_get (root d) p) as [j|] eqn:E; [|done].
  pose proof (wf_path_get _ _ _ Hr E) as Hj.
  destruct j as [|m|l| | | | | | |]; try done.
  - destruct (object_element d); [|done]. by apply wf_path_alter.
  - apply wf_path_alter; [done|]. intros. by apply wf_array_snoc.
Qed.

(** ** The events *)

Definition same_flags d d' : Prop :=
  errored d' = errored d /\ allow_exceptions d' = allow_exceptions d.

Lemma place_inv sts v d : dom_inv sts d -> ready d -> wf_json v -> dom_inv sts (with_root d (place v d)).
Proof.
  intros (Hc & Hk & Hw) Hr Hv. unfold dom_inv; simpl. split_and!; [done|by apply kinds_place|by apply place_wf].
Qed.

Lemma slot_chain d : ready d -> chain (ref_stack d) -> chain (slot d :: ref_stack d).
Proof.
  unfold ready, slot. destruct (ref_stack d) as [|p st]; [constructor|].
  destruct (path_get (root d) p) as [j|]; [|done]. destruct j as [|m|l| | | | | | |]; try done.
  - intros (k & -> & _). by constructor.
  - intros _. by constructor.
Qed.

Lemma dom_value_ok sts v d : dom_inv sts d -> ready d -> wf_json v ->
  exists d', dom_value v d = Ret (true, d') /\ dom_inv sts d' /\ same_flags d d'.
Proof.
  intros Hi Hr Hv. unfold dom_value. rewrite handle_value_ready by done.
  eexists. split; [reflexivity|]. split; [by apply place_inv|done].
Qed.

Lemma dom_start_ok sts v d b : dom_inv sts d -> ready d -> wf_json v -> has_kind b v ->
  exists d', dom_start v d = Ret (true, d') /\ dom_inv (b :: sts) d' /\ same_flags d d' /\
    ref_stack d' = slot d :: ref_stack d /\ root d' = place v d.
Proof.
  intros Hi Hr Hv Hb. unfold dom_start. rewrite handle_value_ready by done.
  eexists. split; [reflexivity|]. split; [|done].
  destruct (place_inv _ _ _ Hi Hr Hv) as (Hc & Hk & Hw). unfold dom_inv; simpl in *. split_and!; [by apply slot_chain| |done].
  constructor; [|done]. exists v. split; [by apply slot_place|done].
Qed.

Lemma ready_array sts d : dom_inv (true :: sts) d -> ready d.
Proof.
  intros (_ & Hk & _). unfold ready. inversion Hk as [|? ? ? ? (v & Hv & Hb)]; subst.
  rewrite Hv. by destruct v.
Qed.

Lemma dom_key_ok sts k d : dom_inv (false :: sts) d -> utf8_valid k ->
  exists d', dom_key k d = Ret (true, d') /\ dom_inv (false :: sts) d' /\ same_flags d d' /\ ready d'.
Proof.
  intros (Hc & Hk & Hw) Hu. unfold dom_key.
  destruct (ref_stack d) as [|p st] eqn:Est; [by inversion Hk|].
  assert (kind_at (root d) false p) as (v & Hv & Hb) by by inversion Hk.
  rewrite Hv. destruct v as [|m| | | | | | | |]; try done. eexists. split; [reflexivity|].
  pose proof (wf_path_get _ _ _ Hw Hv) as Hwm. split_and!; [|done|].
  - unfold dom_inv; simpl. split_and!; [done| |].
    + eapply Forall2_impl_r; [exact Hk|]. intros b q Hq Hb'.
      destruct (chain_prefix _ Hc p eq_refl q Hq) as [r ->]. apply kind_alter; [|done].
      intros -> w Hw' Hkw. rewrite app_nil_r in Hv. rewrite Hw' in Hv. injection Hv as ->. by destruct b.
    + apply wf_path_alter; [done|]. intros. apply wf_object_emplace; [done|done|constructor].
  - unfold ready; simpl. rewrite path_get_alter, Hv. simpl. exists k. split; [done|].
    rewrite path_get_snoc, path_get_alter, Hv. simpl.
    inversion Hwm; subst. destruct (object_emplace_find k value_null m) as [->|?]; [done|done].
Qed.

Lemma dom_end_ok b sts d : dom_inv (b :: sts) d ->
  exists d', (if b then dom_end_array d else dom_end_object d) = Ret (true, d') /\
    dom_inv sts d' /\ same_flags d d' /\ root d' = root d /\ ref_stack d' = tail (ref_stack d).
Proof.
  intros (Hc & Hk & Hw). unfold dom_end_array, dom_end_object, back_value.
  destruct (ref_stack d) as [|p st] eqn:Est; [by inversion Hk|].
  inversion Hk as [|? ? ? ? (v & Hv & Hb) Hk']; subst. rewrite Hv.
  exists (with_stack d st). split; [by destruct b, v|]. split; [|done].
  unfold dom_inv; simpl. split_and!; [|done|done]. inversion Hc; subst; [constructor|done].
Qed.

End DomFacts.

Section NoBreak.
Context {F S : Type} `{FloatOps F} `{Sax F S}.
Implicit Types (p : parser F S).

(** The evaluation of the state never falls through. *)
Definition no_break (r : comp (flow (parser F S))) : Prop :=
  match r with Ret (FBreak _) => False | _ => True end.

Lemma no_break_bind {A} (m : comp A) (k : A -> comp (flow (parser F S))) : (forall a, no_break (k a)) -> no_break (comp_bind m k).
Proof. by destruct m; simpl. Qed.

Lemma no_break_event (ev : S -> comp (bool * S)) p k : (forall p, no_break (k p)) -> no_break (event ev p k).
Proof. intros Hk. apply no_break_bind. intros [[] d]; [apply Hk|done]. Qed.

Lemma no_break_error ex p : no_break (error_return ex p).
Proof. apply no_break_bind. by intros []. Qed.

Lemma no_break_key p k : (forall p, no_break (k p)) -> no_break (parse_key p k).
Proof.
  intros Hk. unfold parse_key. case_decide; [|apply no_break_error].
  apply no_break_event. intros p'. apply no_break_bind. intros p2.
  case_decide; [apply Hk|apply no_break_error].
Qed.

Lemma parse_state_phase_no_break p : no_break (parse_state_phase p).
Proof.
  unfold parse_state_phase. destruct (states p) as [|[] sts]; [done|..]; apply no_break_bind; intros p1;
    (case_decide; [|case_decide; [by apply no_break_event|apply no_break_error]]);
    apply no_break_bind; intros p2; [done|].
  apply no_break_key. intros p3. by apply no_break_bind.
Qed.

Lemma parse_turn_no_break p : no_break (parse_turn p).
Proof.
  unfold parse_turn. destruct (skip_to_state_evaluation p); [apply parse_state_phase_no_break|].
  apply no_break_bind. intros []; [done|done|apply parse_state_phase_no_break].
Qed.
End NoBreak.

(** ** The loop, driving the builder

    [n] bounds the turns left: two per character read ahead of, and one for
    a token that ends the parse. *)

Section Loop.
Context {F : Type} `{FloatOps F}.
Variable allow : bool.
Notation dparser := (parser F (dom F)).
Implicit Types (p : dparser) (q : bytes).

Definition bad (t : token_type) : bool :=
  match t with end_of_input | tok_parse_error => true | _ => false end.

Definition tok_bound (t : token_type) q (n : nat) : Prop :=
  (length q + (if bad t then 1 else 2) <= n)%nat.

(** The builder agrees with the open containers, no error so far. *)
Definition running (sts : list bool) p : Prop :=
  dom_inv sts (sax p) /\ errored (sax p) = false /\ allow_exceptions (sax p) = allow.

(** Before the evaluation of the state. *)
Definition SP (n : nat) p : Prop :=
  running (states p) p /\ exists q, At (m_lexer p) q /\ (length q + 1 <= n)%nat.

(** Before a value, whose first token has been read. *)
Definition VP (n : nat) p : Prop :=
  running (states p) p /\ ready (sax p) /\ tok_ok (last_token p) (m_lexer p) /\
  exists q, At (m_lexer p) q /\ tok_bound (last_token p) q n.

Definition finished (b : bool) p : Prop :=
  errored (sax p) = negb b /\ allow_exceptions (sax p) = allow /\ wf_json (root (sax p)) /\
  (b = false -> allow = false) /\ exists q, At (m_lexer p) q.

Definition syntax_exn (e : exn) : Prop := e = parse_error 101 \/ e = out_of_range 406.

Definition flow_ok (n : nat) (r : comp (flow dparser)) : Prop :=
  match r with
  | Ret (FReturn b p) => finished b p
  | Ret (FContinue p) => if skip_to_state_evaluation p then SP n p else VP n p
  | Ret (FBreak p) => SP n p /\ skip_to_state_evaluation p = false
  | Throw e => allow = true /\ syntax_exn e
  | OutOfFuel => False
  end.

Lemma SP_mono n m p : (n <= m)%nat -> SP n p -> SP m p.
Proof. intros ? (? & q & ? & ?). split; [done|]. exists q. split; [done|lia]. Qed.

Lemma VP_mono n m p : (n <= m)%nat -> VP n p -> VP m p.
Proof.
  unfold VP, tok_bound. intros ? (? & ? & ? & q & ? & ?). split_and!; try done. exists q. split; [done|lia].
Qed.

(** Reading a token. *)
Lemma get_token_ok p q n : At (m_lexer p) q -> (length q + 1 <= n)%nat ->
  exists t l q', get_token p = Ret (mk_parser (states p) (skip_to_state_evaluation p) t l (sax p)) /\
    At l q' /\ tok_ok t l /\ tok_bound t q' n.
Proof.
  intros Hq Hn. destruct (scan_ok _ _ Hq) as (t & l & q' & Hs & Hq' & Hle & Hok & Hlt).
  unfold get_token. rewrite Hs. exists t, l, q'. split_and!; try done.
  unfold tok_bound. destruct t; simpl; try (specialize (Hlt ltac:(done) ltac:(done))); lia.
Qed.

Lemma error_return_ok n ex p sts q : running sts p -> At (m_lexer p) q -> syntax_exn ex ->
  flow_ok n (error_return ex p).
Proof.
  intros (Hi & He & Ha) Hq Hex. unfold error_return. simpl. unfold dom_parse_error.
  destruct (allow_exceptions (sax p)) eqn:E; simpl; [by rewrite <- Ha|].
  split_and!; simpl; [done|congruence|apply Hi|congruence|by exists q].
Qed.

Lemma syntax_101 : syntax_exn (parse_error 101).
Proof. by left. Qed.
Lemma syntax_406 : syntax_exn (out_of_range 406).
Proof. by right. Qed.

Lemma event_ok n ev p k d' : ev (sax p) = Ret (true, d') -> flow_ok n (k (with_sax p d')) ->
  flow_ok n (event ev p k).
Proof. intros He Hk. unfold event. by rewrite He. Qed.

(** A value event in the value phase. *)
Lemma value_event_ok n v ev p : VP (S n) p -> bad (last_token p) = false ->
  skip_to_state_evaluation p = false -> wf_json v ->
  (forall d, ev d = dom_value v d) ->
  flow_ok n (event ev p (fun p => Ret (FBreak p))).
Proof.
  intros ((Hi & He & Ha) & Hr & _ & q & Hq & Hb) Hbad Hs Hw Hev.
  destruct (dom_value_ok _ _ _ Hi Hr Hw) as (d' & Hd & Hi' & He' & Ha').
  eapply event_ok; [by rewrite Hev|]. simpl. split; [|done]. split.
  - split_and!; simpl; [done|congruence|congruence].
  - exists q. split; [done|]. unfold tok_bound in Hb. rewrite Hbad in Hb. lia.
Qed.

(** A key, read as [last_token], then the separator and [k]. *)
Lemma parse_key_ok n p k sts q : running (false :: sts) p -> At (m_lexer p) q ->
  tok_ok (last_token p) (m_lexer p) -> tok_bound (last_token p) q n ->
  (forall p' q', running (false :: sts) p' -> ready (sax p') -> At (m_lexer p') q' ->
     (length q' + 3 <= n)%nat -> states p' = states p ->
     skip_to_state_evaluation p' = skip_to_state_evaluation p -> flow_ok n (k p')) ->
  flow_ok n (parse_key p k).
Proof.
  intros Hrun Hq Hok Hb Hk. unfold parse_key.
  case_decide as Ht; [|by eapply error_return_ok; eauto using syntax_101].
  rewrite Ht in Hok, Hb. unfold tok_bound in Hb; simpl in Hok, Hb. destruct Hrun as (Hi & He & Ha).
  destruct (dom_key_ok _ _ _ Hi Hok) as (d' & Hd & Hi' & (He' & Ha') & Hr').
  eapply event_ok; [exact Hd|].
  destruct (get_token_ok (with_sax p d') q (n - 1) Hq) as (t & l & q' & -> & Hq' & Hok' & Hb'); [lia|].
  simpl. assert (running (false :: sts) (mk_parser (states p) (skip_to_state_evaluation p) t l d')) as Hrun.
  { split_and!; simpl; [done|congruence|congruence]. }
  case_decide as Ht'; [|by eapply error_return_ok; eauto using syntax_101].
  simpl in Ht'. subst t. unfold tok_bound in Hb'; simpl in Hb'. eapply Hk; simpl; eauto. lia.
Qed.

Lemma parse_begin_object_ok n p : VP (S n) p -> last_token p = begin_object ->
  skip_to_state_evaluation p = false -> flow_ok n (parse_begin_object p).
Proof.
  intros ((Hi & He & Ha) & Hr & _ & q & Hq & Hb) Ht Hs. rewrite Ht in Hb. unfold tok_bound in Hb; simpl in Hb.
  destruct (dom_start_ok (states p) (value_object []) (sax p) false) as (d' & Hd & Hi' & (He' & Ha') & _); try done.
  { by constructor; [constructor|..]. }
  unfold parse_begin_object. eapply event_ok; [exact Hd|].
  destruct (get_token_ok (with_sax p d') q n Hq) as (t & l & q' & -> & Hq' & Hok' & Hb'); [lia|].
  simpl. assert (running (false :: states p) (mk_parser (states p) (skip_to_state_evaluation p) t l d')) as Hrun.
  { split_and!; simpl; [done|congruence|congruence]. }
  case_decide as Hend; simpl in Hend.
  - subst t. destruct (dom_end_ok _ _ _ Hi') as (d2 & Hd2 & Hi2 & (He2 & Ha2) & _).
    eapply event_ok; [exact Hd2|]. simpl. split; [|done]. split.
    + split_and!; simpl; [done|congruence|congruence].
    + exists q'. unfold tok_bound in Hb'; simpl in Hb'. split; [done|lia].
  - eapply parse_key_ok; [done|done|done|done|].
    intros p2 q2 (Hi2 & He2 & Ha2) Hr2 Hq2 Hl2 Hst2 Hsk2. simpl in Hst2, Hsk2.
    destruct (get_token_ok (with_states p2 (false :: states p2)) q2 n Hq2)
      as (t3 & l3 & q3 & -> & Hq3 & Hok3 & Hb3); [lia|].
    simpl. rewrite Hsk2, Hs. split_and!; simpl; try done; [|by exists q3].
    split_and!; simpl; congruence.
Qed.

Lemma parse_begin_array_ok n p : VP (S n) p -> last_token p = begin_array ->
  skip_to_state_evaluation p = false -> flow_ok n (parse_begin_array p).
Proof.
  intros ((Hi & He & Ha) & Hr & _ & q & Hq & Hb) Ht Hs. rewrite Ht in Hb. unfold tok_bound in Hb; simpl in Hb.
  destruct (dom_start_ok (states p) (value_array []) (sax p) true) as (d' & Hd & Hi' & (He' & Ha') & _); try done.
  { by constructor. }
  unfold parse_begin_array. eapply event_ok; [exact Hd|].
  destruct (get_token_ok (with_sax p d') q n Hq) as (t & l & q' & -> & Hq' & Hok' & Hb'); [lia|].
  simpl. case_decide as Hend; simpl in Hend.
  - subst t. destruct (dom_end_ok _ _ _ Hi') as (d2 & Hd2 & Hi2 & (He2 & Ha2) & _).
    eapply event_ok; [exact Hd2|]. simpl. split; [|done]. split.
    + split_and!; simpl; [done|congruence|congruence].
    + exists q'. unfold tok_bound in Hb'; simpl in Hb'. split; [done|lia].
  - simpl. rewrite Hs. split_and!; simpl; [|by eapply ready_array|done|by exists q'].
    split_and!; simpl; [done|congruence|congruence].
Qed.

Lemma parse_value_phase_ok n p : VP (S n) p -> skip_to_state_evaluation p = false ->
  flow_ok n (parse_value_phase p).
Proof.
  intros Hv Hs. pose proof Hv as (Hrun & Hr & Hok & q & Hq & Hb). unfold parse_value_phase.
  assert (Herr : forall e, syntax_exn e -> flow_ok n (error_return e p))
    by (intros; by eapply error_return_ok).
  destruct (last_token p) eqn:Ht; simpl in Hok;
    try (apply Herr, syntax_101);
    try (eapply value_event_ok; [done|by rewrite Ht|done| |done]; by constructor).
  - destruct (isfinite _); [|apply Herr, syntax_406].
    eapply value_event_ok; [done|by rewrite Ht|done| |done]. by constructor.
  - by apply parse_begin_array_ok.
  - by apply parse_begin_object_ok.
Qed.

(** The end of a container. *)
Lemma close_ok n b sts p q : running (b :: sts) p -> states p = b :: sts -> At (m_lexer p) q ->
  (length q + 1 <= n)%nat ->
  flow_ok n (close_container (if b then sax_end_array else sax_end_object) p).
Proof.
  intros (Hi & He & Ha) Hst Hq Hl. destruct (dom_end_ok _ _ _ Hi) as (d2 & Hd2 & Hi2 & (He2 & Ha2) & _).
  unfold close_container. eapply event_ok; [destruct b; exact Hd2|]. simpl. split.
  - rewrite Hst. split_and!; simpl; [done|congruence|congruence].
  - by exists q.
Qed.

Lemma parse_array_state_ok n p sts : SP (S n) p -> states p = true :: sts ->
  skip_to_state_evaluation p = false -> flow_ok n (parse_array_state p).
Proof.
  intros (Hrun & q & Hq & Hl) Hst Hs. unfold parse_array_state.
  destruct (get_token_ok p q (S n) Hq) as (t & l & q' & -> & Hq' & Hok' & Hb'); [lia|].
  simpl. assert (running (true :: sts) (mk_parser (states p) (skip_to_state_evaluation p) t l (sax p))) as Hrun'.
  { rewrite Hst in Hrun. done. }
  unfold tok_bound in Hb'.
  case_decide as Ht; simpl in Ht; [subst t; simpl in Hb'|case_decide as Ht2; simpl in Ht2; [subst t; simpl in Hb'|]].
  - destruct (get_token_ok (mk_parser (states p) (skip_to_state_evaluation p) value_separator l (sax p)) q' n Hq')
      as (t3 & l3 & q3 & -> & Hq3 & Hok3 & Hb3); [lia|].
    simpl. rewrite Hs. split_and!; simpl; [|destruct Hrun'; by eapply ready_array|done|by exists q3].
    by rewrite Hst.
  - eapply (close_ok n true); [done|done|exact Hq'|lia].
  - eapply error_return_ok; [done|done|apply syntax_101].
Qed.

Lemma parse_object_state_ok n p sts : SP (S n) p -> states p = false :: sts ->
  skip_to_state_evaluation p = false -> flow_ok n (parse_object_state p).
Proof.
  intros (Hrun & q & Hq & Hl) Hst Hs. unfold parse_object_state.
  destruct (get_token_ok p q (S n) Hq) as (t & l & q' & -> & Hq' & Hok' & Hb'); [lia|].
  simpl. assert (running (false :: sts) (mk_parser (states p) (skip_to_state_evaluation p) t l (sax p))) as Hrun'.
  { rewrite Hst in Hrun. done. }
  unfold tok_bound in Hb'.
  case_decide as Ht; simpl in Ht; [subst t; simpl in Hb'|case_decide as Ht2; simpl in Ht2; [subst t; simpl in Hb'|]].
  - destruct (get_token_ok (mk_parser (states p) (skip_to_state_evaluation p) value_separator l (sax p)) q' n Hq')
      as (t3 & l3 & q3 & -> & Hq3 & Hok3 & Hb3); [lia|].
    simpl. eapply parse_key_ok; [done|exact Hq3|done|done|].
    intros p4 q4 (Hi4 & He4 & Ha4) Hr4 Hq4 Hl4 Hst4 Hsk4. simpl in Hst4, Hsk4.
    destruct (get_token_ok p4 q4 n Hq4) as (t5 & l5 & q5 & -> & Hq5 & Hok5 & Hb5); [lia|].
    simpl. rewrite Hsk4, Hs. split_and!; simpl; try done; [|by exists q5].
    rewrite Hst4, Hst. done.
  - eapply (close_ok n false); [done|done|exact Hq'|lia].
  - eapply error_return_ok; [done|done|apply syntax_101].
Qed.

Lemma parse_state_phase_ok n p : SP (S n) p -> skip_to_state_evaluation p = false ->
  flow_ok n (parse_state_phase p).
Proof.
  intros Hp Hs. unfold parse_state_phase. destruct (states p) as [|[] sts] eqn:Hst.
  - destruct Hp as ((Hi & He & Ha) & q & Hq & _). simpl. split_and!; try done; [apply Hi|by exists q].
  - by eapply parse_array_state_ok.
  - by eapply parse_object_state_ok.
Qed.

Lemma parse_turn_ok n p : (if skip_to_state_evaluation p then SP (S n) p else VP (S n) p) ->
  match parse_turn p with Ret (FBreak _) => True | r => flow_ok n r end.
Proof.
  intros Hp. unfold parse_turn. destruct (skip_to_state_evaluation p) eqn:Hs.
  - pose proof (parse_state_phase_ok n (with_skip p false) Hp eq_refl) as Hf.
    by destruct (parse_state_phase (with_skip p false)) as [[]| |].
  - pose proof (parse_value_phase_ok n p Hp Hs) as Hf.
    destruct (parse_value_phase p) as [[b p'|p'|p']| |]; try done. simpl.
    destruct Hf as [Hsp Hsk]. pose proof (parse_state_phase_ok n p' (SP_mono _ _ _ (Nat.le_succ_diag_r n) Hsp) Hsk) as Hf.
    by destruct (parse_state_phase p') as [[]| |].
Qed.

(** The result of the loop. *)
Definition loop_ok (r : comp (bool * dparser)) : Prop :=
  match r with
  | Ret (b, p) => finished b p
  | Throw e => allow = true /\ syntax_exn e
  | OutOfFuel => False
  end.

Lemma sax_parse_loop_ok fuel : forall p,
  (if skip_to_state_evaluation p then SP fuel p else VP fuel p) -> loop_ok (sax_parse_loop fuel p).
Proof.
  induction fuel as [|n IH]; intros p Hp.
  - exfalso. destruct (skip_to_state_evaluation p).
    + destruct Hp as (_ & q & _ & Hl). lia.
    + destruct Hp as (_ & _ & _ & q & _ & Hl). unfold tok_bound in Hl. destruct (bad _); lia.
  - simpl. pose proof (parse_turn_ok n p Hp) as Ht. pose proof (parse_turn_no_break p) as Hnb.
    destruct (parse_turn p) as [[b p'|p'|p']| |]; simpl in *; try done; by apply IH.
Qed.

End Loop.

(** ** The entry points *)

Section Entry.
Context {F : Type} `{FloatOps F}.
Notation dparser := (parser F (dom F)).

(** The parser after its constructor. *)
Lemma parser_init_ok {S} i ignore dp (d : S) : Forall is_byte i ->
  exists t l q, parser_init i ignore [dp] d = Ret (mk_parser [] false t l d) /\
    At l q /\ tok_ok t l /\ (length q <= length i)%nat.
Proof.
  intros Hi. destruct (scan_ok _ _ (lexer_init_At i ignore dp Hi)) as (t & l & q & Hs & Hq & Hl & Hok & _).
  exists t, l, q. unfold parser_init, get_token. simpl. by rewrite Hs.
Qed.

Lemma dom_init_inv allow : dom_inv [] (dom_init (F:=F) value_null allow).
Proof. split_and!; [constructor|constructor|constructor]. Qed.

Lemma sax_parse_internal_ok allow i ignore dp p : Forall is_byte i ->
  parser_init i ignore [dp] (dom_init (F:=F) value_null allow) = Ret p ->
  loop_ok allow (sax_parse_internal p).
Proof.
  intros Hi Hp. destruct (parser_init_ok i ignore dp (dom_init (F:=F) value_null allow) Hi)
    as (t & l & q & Hp' & Hq & Hok & Hl). rewrite Hp' in Hp. injection Hp as <-.
  apply sax_parse_loop_ok. simpl. split_and!; simpl; try done.
  - split_and!; [apply dom_init_inv|done|done].
  - exists q. split; [done|]. pose proof (remaining_At _ _ Hq). unfold tok_bound. destruct (bad t); lia.
Qed.

(** The end of a strict parse, from a finished loop. *)
Lemma get_token_total {S} (p : parser F S) q : At (m_lexer p) q ->
  exists t l q', get_token p = Ret (mk_parser (states p) (skip_to_state_evaluation p) t l (sax p)) /\ At l q'.
Proof.
  intros Hq. destruct (scan_ok _ _ Hq) as (t & l & q' & Hs & Hq' & _).
  exists t, l, q'. unfold get_token. by rewrite Hs.
Qed.

Definition parsed_ok (allow : bool) (r : comp (json F)) : Prop :=
  match r with
  | Ret j => wf_json j \/ (allow = false /\ j = value_discarded)
  | Throw e => allow = true /\ syntax_exn e
  | OutOfFuel => False
  end.

Lemma json_parse_ok i allow ignore dp : Forall is_byte i -> parsed_ok allow (json_parse i allow ignore [dp]).
Proof.
  intros Hi. unfold json_parse, parser_parse.
  destruct (parser_init_ok i ignore dp (dom_init (F:=F) value_null allow) Hi) as (t & l & q & Hp & _).
  rewrite Hp. simpl. pose proof (sax_parse_internal_ok allow _ _ _ _ Hi Hp) as Hl.
  destruct (sax_parse_internal _) as [[b p]| |]; simpl in *; try done.
  destruct Hl as (He & Ha & Hw & Hb & q' & Hq').
  destruct (get_token_total p q' Hq') as (t2 & l2 & q2 & -> & _). simpl.
  case_decide as Ht.
  - simpl. rewrite He. destruct b; simpl; auto.
  - unfold dom_parse_error; simpl. rewrite Ha. destruct allow; simpl; [split; [done|by left]|auto].
Qed.
End Entry.

(** ** Two SAX consumers in lockstep

    [sim] relates what two consumers return: they agree, or the first one
    threw where the second one rejects. *)

Section Lockstep.
Context {F S1 S2 : Type} `{FloatOps F} `{Sax F S1} `{Sax F S2}.
Variable R : S1 -> S2 -> Prop.

Definition sim {A1 A2} (Q : A1 -> A2 -> Prop) (rejected : A2 -> Prop) (r1 : comp A1) (r2 : comp A2) : Prop :=
  match r1 with
  | Ret x1 => exists x2, r2 = Ret x2 /\ Q x1 x2
  | Throw e => syntax_exn e -> exists x2, r2 = Ret x2 /\ rejected x2
  | OutOfFuel => True
  end.

Definition sim_event (r1 : comp (bool * S1)) (r2 : comp (bool * S2)) : Prop :=
  sim (fun x1 x2 => x1.1 = x2.1 /\ R x1.2 x2.2) (fun x2 => x2.1 = false) r1 r2.

(** Corresponding events of corresponding consumers. *)
Record lockstep : Prop := {
  sim_null s1 s2 : R s1 s2 -> sim_event (sax_null s1) (sax_null s2);
  sim_boolean b s1 s2 : R s1 s2 -> sim_event (sax_boolean b s1) (sax_boolean b s2);
  sim_integer z s1 s2 : R s1 s2 -> sim_event (sax_number_integer z s1) (sax_number_integer z s2);
  sim_unsigned z s1 s2 : R s1 s2 -> sim_event (sax_number_unsigned z s1) (sax_number_unsigned z s2);
  sim_float f b s1 s2 : R s1 s2 -> sim_event (sax_number_float f b s1) (sax_number_float f b s2);
  sim_string b s1 s2 : R s1 s2 -> sim_event (sax_string b s1) (sax_string b s2);
  sim_start_object s1 s2 : R s1 s2 -> sim_event (sax_start_object s1) (sax_start_object s2);
  sim_key b s1 s2 : R s1 s2 -> sim_event (sax_key b s1) (sax_key b s2);
  sim_end_object s1 s2 : R s1 s2 -> sim_event (sax_end_object s1) (sax_end_object s2);
  sim_start_array s1 s2 : R s1 s2 -> sim_event (sax_start_array s1) (sax_start_array s2);
  sim_end_array s1 s2 : R s1 s2 -> sim_event (sax_end_array s1) (sax_end_array s2);
  sim_error z b e s1 s2 : R s1 s2 -> syntax_exn e ->
    sim_event (sax_parse_error z b e s1) (sax_parse_error z b e s2)
}.

Context (L : lockstep).
Notation P1 := (parser F S1).
Notation P2 := (parser F S2).

(** The same parser around another consumer. *)
Definition same_parser (p1 : P1) (p2 : P2) : Prop :=
  states p1 = states p2 /\ skip_to_state_evaluation p1 = skip_to_state_evaluation p2 /\
  last_token p1 = last_token p2 /\ m_lexer p1 = m_lexer p2 /\ R (sax p1) (sax p2) /\
  exists q, At (m_lexer p1) q.

Definition same_flow (f1 : flow P1) (f2 : flow P2) : Prop :=
  match f1, f2 with
  | FReturn b1 p1, FReturn b2 p2 => b1 = b2 /\ same_parser p1 p2
  | FContinue p1, FContinue p2 => same_parser p1 p2
  | FBreak p1, FBreak p2 => same_parser p1 p2
  | _, _ => False
  end.

Definition rejecting (f : flow P2) : Prop := exists p2, f = FReturn false p2.

Definition sim_flow := sim same_flow rejecting.

Lemma sim_get_token p1 p2 k1 k2 : same_parser p1 p2 ->
  (forall p1 p2, same_parser p1 p2 -> sim_flow (k1 p1) (k2 p2)) ->
  sim_flow (comp_bind (get_token p1) k1) (comp_bind (get_token p2) k2).
Proof.
  intros (E1 & E2 & E3 & E4 & HR & q & Hq) Hk. unfold get_token. rewrite <- E4.
  destruct (scan_ok _ _ Hq) as (t & l & q' & -> & Hq' & _).
  simpl. apply Hk. split_and!; simpl; try done. by exists q'.
Qed.

Lemma sim_event_bind ev1 ev2 p1 p2 k1 k2 : same_parser p1 p2 ->
  sim_event (ev1 (sax p1)) (ev2 (sax p2)) ->
  (forall p1 p2, same_parser p1 p2 -> sim_flow (k1 p1) (k2 p2)) ->
  sim_flow (event ev1 p1 k1) (event ev2 p2 k2).
Proof.
  intros (E1 & E2 & E3 & E4 & HR & Hq) Hev Hk. unfold event.
  destruct (ev1 (sax p1)) as [[b1 d1]|e|]; simpl in *; [| |done].
  - destruct Hev as ([b2 d2] & -> & Eb & HR'). simpl in *. subst b2.
    assert (same_parser (with_sax p1 d1) (with_sax p2 d2)) by done.
    destruct b1; [by apply Hk|]. by eexists.
  - intros Hs. destruct (Hev Hs) as ([b2 d2] & -> & Eb). simpl in *. subst b2.
    eexists. split; [done|]. by eexists.
Qed.

Lemma sim_error_return e p1 p2 : same_parser p1 p2 -> syntax_exn e ->
  sim_flow (error_return e p1) (error_return e p2).
Proof.
  intros (E1 & E2 & E3 & E4 & HR & Hq) He. unfold error_return. rewrite <- E4.
  pose proof (sim_error L (chars_read_total (inp (m_lexer p1))) (get_token_string (m_lexer p1)) e _ _ HR He) as Hev.
  destruct (sax_parse_error _ _ _ (sax p1)) as [[b1 d1]|e'|]; simpl in *; [| |done].
  - destruct Hev as ([b2 d2] & -> & Eb & HR'). simpl in *. subst b2. eexists. by split.
  - intros Hs. destruct (Hev Hs) as ([b2 d2] & -> & Eb). simpl in *. subst b2.
    eexists. split; [done|]. by eexists.
Qed.

Lemma sim_ret f1 f2 : same_flow f1 f2 -> sim_flow (Ret f1) (Ret f2).
Proof. intros. by exists f2. Qed.

Hint Resolve sim_error_return syntax_101 syntax_406 : core.

Lemma sim_parse_key p1 p2 k1 k2 : same_parser p1 p2 ->
  (forall p1 p2, same_parser p1 p2 -> sim_flow (k1 p1) (k2 p2)) ->
  sim_flow (parse_key p1 k1) (parse_key p2 k2).
Proof.
  intros Hp Hk. pose proof Hp as (_ & _ & E3 & E4 & HR & _). unfold parse_key. rewrite <- E3, <- E4.
  case_decide; [|auto]. apply sim_event_bind; [done|by apply sim_key|].
  intros p1' p2' Hp'. apply sim_get_token; [done|]. intros p1'' p2'' Hp''.
  pose proof Hp'' as (_ & _ & E & _). rewrite <- E. case_decide; auto.
Qed.

Lemma same_with_states p1 p2 st1 st2 : same_parser p1 p2 -> st1 = st2 ->
  same_parser (with_states p1 st1) (with_states p2 st2).
Proof. by intros (? & ? & ? & ? & ? & ?) ->. Qed.

Lemma same_with_skip p1 p2 b : same_parser p1 p2 -> same_parser (with_skip p1 b) (with_skip p2 b).
Proof. by intros (? & ? & ? & ? & ? & ?). Qed.

Lemma sim_begin_object p1 p2 : same_parser p1 p2 ->
  sim_flow (parse_begin_object p1) (parse_begin_object p2).
Proof.
  intros Hp. apply sim_event_bind; [done|by apply sim_start_object, Hp|].
  intros a1 a2 Ha. apply sim_get_token; [done|]. intros b1 b2 Hb.
  pose proof Hb as (_ & _ & E & _). rewrite <- E. case_decide.
  - apply sim_event_bind; [done|by apply sim_end_object, Hb|]. intros. by apply sim_ret.
  - apply sim_parse_key; [done|]. intros c1 c2 Hc. apply sim_get_token.
    + apply same_with_states; [done|]. by rewrite (proj1 Hc).
    + intros. by apply sim_ret.
Qed.

Lemma sim_begin_array p1 p2 : same_parser p1 p2 ->
  sim_flow (parse_begin_array p1) (parse_begin_array p2).
Proof.
  intros Hp. apply sim_event_bind; [done|by apply sim_start_array, Hp|].
  intros a1 a2 Ha. apply sim_get_token; [done|]. intros b1 b2 Hb.
  pose proof Hb as (_ & _ & E & _). rewrite <- E. case_decide.
  - apply sim_event_bind; [done|by apply sim_end_array, Hb|]. intros. by apply sim_ret.
  - apply sim_ret. apply same_with_states; [done|]. by rewrite (proj1 Hb).
Qed.

Lemma sim_value_phase p1 p2 : same_parser p1 p2 ->
  sim_flow (parse_value_phase p1) (parse_value_phase p2).
Proof.
  intros Hp. pose proof Hp as (_ & _ & E3 & E4 & HR & _). unfold parse_value_phase. rewrite <- E3, <- E4.
  assert (Hb : forall p1 p2, same_parser p1 p2 -> sim_flow (Ret (FBreak p1)) (Ret (FBreak p2)))
    by (intros; by apply sim_ret).
  destruct (last_token p1); auto using sim_begin_object, sim_begin_array;
    try (apply sim_event_bind; [done| |done];
         auto using sim_boolean, sim_null, sim_string, sim_integer, sim_unsigned, L).
  destruct (isfinite _); [|auto]. apply sim_event_bind; [done|by apply sim_float|done].
Qed.

Lemma sim_close ev1 ev2 p1 p2 : same_parser p1 p2 ->
  sim_event (ev1 (sax p1)) (ev2 (sax p2)) ->
  sim_flow (close_container ev1 p1) (close_container ev2 p2).
Proof.
  intros Hp He. apply sim_event_bind; [done|done|]. intros a1 a2 Ha. apply sim_ret.
  apply same_with_skip, same_with_states; [done|]. by rewrite (proj1 Ha).
Qed.

Lemma sim_state_phase p1 p2 : same_parser p1 p2 ->
  sim_flow (parse_state_phase p1) (parse_state_phase p2).
Proof.
  intros Hp. unfold parse_state_phase. rewrite <- (proj1 Hp).
  assert (Hc : forall p1 p2, same_parser p1 p2 -> sim_flow (Ret (FContinue p1)) (Ret (FContinue p2)))
    by (intros; by apply sim_ret).
  destruct (states p1) as [|[] sts]; [by apply sim_ret|..]; apply sim_get_token; [done| |done|];
    intros a1 a2 Ha; pose proof Ha as (_ & _ & E & _ & HR & _); rewrite <- E;
    (case_decide; [|case_decide; [apply sim_close; auto using sim_end_array, sim_end_object, L|auto]]);
    apply sim_get_token; auto.
  intros b1 b2 Hb. apply sim_parse_key; [done|]. intros. by apply sim_get_token.
Qed.

Lemma sim_turn p1 p2 : same_parser p1 p2 -> sim_flow (parse_turn p1) (parse_turn p2).
Proof.
  intros Hp. unfold parse_turn. rewrite <- (proj1 (proj2 Hp)).
  destruct (skip_to_state_evaluation p1); [by apply sim_state_phase, same_with_skip|].
  pose proof (sim_value_phase _ _ Hp) as Hv.
  destruct (parse_value_phase p1) as [f1|e|]; simpl in Hv; [| |done].
  - destruct Hv as (f2 & -> & Hf). destruct f1, f2; try done; [by apply sim_ret|by apply sim_ret|].
    by apply sim_state_phase.
  - intros He. destruct (Hv He) as (f2 & -> & p2' & ->). eexists. split; [done|]. by eexists.
Qed.

Lemma sim_loop fuel : forall p1 p2, same_parser p1 p2 ->
  sim (fun r1 r2 => r1.1 = r2.1 /\ same_parser r1.2 r2.2) (fun r2 => r2.1 = false)
    (sax_parse_loop fuel p1) (sax_parse_loop fuel p2).
Proof.
  induction fuel as [|n IH]; intros p1 p2 Hp; simpl; [done|].
  pose proof (sim_turn _ _ Hp) as Ht. destruct (parse_turn p1) as [f1|e|]; simpl in *; [| |done].
  - destruct Ht as (f2 & -> & Hf). destruct f1 as [b1 q1|q1|q1], f2 as [b2 q2|q2|q2]; simpl in *; try done; auto.
    by exists (b2, q2).
  - intros He. destruct (Ht He) as (f2 & -> & p2' & ->). simpl. by exists (false, p2').
Qed.

Lemma sim_internal i ignore dp s1 s2 p1 p2 : Forall is_byte i -> R s1 s2 ->
  parser_init i ignore [dp] s1 = Ret p1 -> parser_init i ignore [dp] s2 = Ret p2 ->
  sim (fun r1 r2 => r1.1 = r2.1 /\ same_parser r1.2 r2.2) (fun r2 => r2.1 = false)
    (sax_parse_internal p1) (sax_parse_internal p2).
Proof.
  intros Hi HR Hp1 Hp2. destruct (parser_init_ok i ignore dp s1 Hi) as (t & l & q & E & Hq & _).
  unfold parser_init, get_token in *. simpl in *.
  destruct (scan _) as [[t' l']| |]; try done. simplify_eq/=. apply sim_loop.
  split_and!; try done. by exists q.
Qed.
End Lockstep.
