(* ===== verification/JsonParserSpec.v ===== *)
(** What [basic_json::parse] and [basic_json::accept] promise: a parse always
    ends with a well-formed value or a documented exception, the two forms
    of error reporting agree, and the acceptor accepts exactly what the
    parser parses. *)
From S2P Require Import Prelude Utf8 JsonValue JsonLexer JsonLexerFacts JsonParser JsonParserFacts.

#[local] Existing Instance example_floats.

Section Spec.
Context {F : Type} `{FloatOps F}.

Lemma dom_value_cases (v : json F) d :
  dom_value v d = Throw assertion_failure \/
  exists r, dom_value v d = Ret (true, with_root d r).
Proof.
  unfold dom_value, handle_value. repeat case_match; simpl; eauto.
Qed.

Lemma dom_start_cases (v : json F) d :
  dom_start v d = Throw assertion_failure \/
  exists r st, dom_start v d = Ret (true, with_stack (with_root d r) st).
Proof.
  unfold dom_start, handle_value. repeat case_match; simpl; eauto.
Qed.

Lemma not_syntax_assertion : ~ syntax_exn assertion_failure.
Proof. by intros [|]. Qed.

(** The acceptor follows the builder. *)
Lemma builder_acceptor : lockstep (F:=F) (fun (_ : dom F) (_ : acceptor) => True).
Proof.
  assert (Hend : forall d : dom F, forall r : comp (bool * dom F),
    r = Throw assertion_failure \/ (exists d', r = Ret (true, d')) -> forall s : acceptor,
    sim_event (fun (_ : dom F) (_ : acceptor) => True) r (Ret (true, s))).
  { intros d r [->|(d' & ->)] s; [by intros []%not_syntax_assertion|by eexists]. }
  split; intros; cbn [sax_null sax_boolean sax_number_integer sax_number_unsigned sax_number_float
    sax_string sax_start_object sax_key sax_end_object sax_start_array sax_end_array sax_parse_error
    dom_sax acceptor_sax]; try (apply Hend; [exact s1|]).
  1-6: match goal with |- dom_value ?v ?d = _ \/ _ => destruct (dom_value_cases v d) as [?|(? & ?)]; eauto end.
  - destruct (dom_start_cases (value_object []) s1) as [?|(? & ? & ?)]; eauto.
  - unfold dom_key. repeat case_match; eauto.
  - unfold dom_end_object. repeat case_match; eauto.
  - destruct (dom_start_cases (value_array []) s1) as [?|(? & ? & ?)]; eauto.
  - unfold dom_end_array. repeat case_match; eauto.
  - unfold dom_parse_error. destruct (allow_exceptions s1); [intros _|]; by eexists.
Qed.

(** A builder that throws and one that does not. *)
Definition quiet (d1 d2 : dom F) : Prop :=
  d2 = mk_dom (root d1) (ref_stack d1) (object_element d1) (errored d1) false /\
  allow_exceptions d1 = true.

Ltac quiet_cases :=
  simpl; repeat case_match; simpl;
  first [by intros []%not_syntax_assertion | by eexists | intros _; by eexists].

Lemma builder_quiet : lockstep (F:=F) quiet.
Proof.
  split; cbn [sax_null sax_boolean sax_number_integer sax_number_unsigned sax_number_float
    sax_string sax_start_object sax_key sax_end_object sax_start_array sax_end_array sax_parse_error
    dom_sax];
  intros; match goal with Hq : quiet ?d1 _ |- _ =>
    destruct d1 as [r st oe er al]; destruct Hq as [-> Ha]; simpl in Ha; subst al end;
  unfold dom_start_object, dom_start_array, dom_value, dom_start, handle_value, dom_key,
    dom_end_object, dom_end_array, back_value, dom_parse_error; quiet_cases.
Qed.

(** The acceptor accepts what the quiet parser does not discard. *)
Lemma accept_parse i ignore dp : Forall is_byte i ->
  exists j, json_parse (F:=F) i false ignore [dp] = Ret j /\
    json_accept (F:=F) i ignore [dp] = Ret (negb (is_discarded j)).
Proof.
  intros Hi. unfold json_parse, json_accept, parser_parse, sax_parse.
  destruct (parser_init_ok i ignore dp (dom_init (F:=F) value_null false) Hi) as (t & l & q & Hp & _).
  destruct (parser_init_ok i ignore dp mk_acceptor Hi) as (t' & l' & q' & Hp' & _).
  pose proof (sim_internal _ builder_acceptor i ignore dp _ _ _ _ Hi I Hp Hp') as Hsim.
  rewrite Hp, Hp'. cbn [comp_bind].
  pose proof (sax_parse_internal_ok false _ _ _ _ Hi Hp) as Hl.
  destruct (sax_parse_internal _) as [[b1 p1]| |]; cbn in Hl; [|by destruct Hl|done].
  destruct Hsim as ([b2 p2] & -> & Eb & Hsame). cbn in Eb. subst b2.
  destruct Hl as (He & Ha & Hw & _ & q1 & Hq1). cbn [fst snd comp_bind] in *.
  destruct Hsame as (_ & _ & _ & E4 & _ & _).
  destruct (get_token_total p1 q1 Hq1) as (t1 & l1 & q1' & Ht1 & _).
  assert (get_token p2 = Ret (mk_parser (states p2) (skip_to_state_evaluation p2) t1 l1 (sax p2))) as Ht2.
  { unfold get_token in *. rewrite <- E4. destruct (scan _) as [[]| |]; simpl in *; congruence. }
  rewrite Ht1, Ht2. assert (Hnd : is_discarded (root (sax p1)) = false).
  { by inversion Hw. }
  unfold dom_parse_error. cbn. rewrite Ha. case_decide; cbn; rewrite ?He; destruct b1; cbn; rewrite ?Hnd; eauto.
  eexists. split; [reflexivity|]. cbn. by rewrite Hnd.
Qed.

(** ** Properties *)

(** C7: [basic_json::parse] is total: on every byte sequence it returns a
    well-formed value (sorted objects without duplicate keys, valid UTF-8
    strings, integers of their width), or, according to
    [allow_exceptions], throws [parse_error.101] or [out_of_range.406] or
    returns the discarded value; the fuel of every loop is enough, and none
    of the assertions of the lexer (on the escapes, code points and byte
    ranges of strings, on the first characters of tokens, on the end of every
    conversion of a number and on [unget]) and of the DOM builder fails, in a
    locale whose decimal point is a single [char] [dp], as in the "C" locale;
    in a locale with a longer one the assertion after [strtod] does fail
    ([long_decimal_point]). *)
Theorem parse_total i allow ignore dp : Forall is_byte i ->
  match json_parse (F:=F) i allow ignore [dp] with
  | Ret j => wf_json j \/ (allow = false /\ j = value_discarded)
  | Throw e => allow = true /\ (e = parse_error 101 \/ e = out_of_range 406)
  | OutOfFuel => False
  end.
Proof. apply json_parse_ok. Qed.

(** C12: [basic_json::accept] returns, and it accepts exactly the inputs
    that [parse] without exceptions does not discard. (The decimal point
    of the locale is a single byte [dp].) *)
Theorem accept_iff_parse i ignore dp : Forall is_byte i ->
  exists j, json_parse (F:=F) i false ignore [dp] = Ret j /\
    json_accept (F:=F) i ignore [dp] = Ret (negb (is_discarded j)).
Proof. apply accept_parse. Qed.

(** What the throwing parse returns, from the quiet one. *)
Lemma parse_quiet i ignore dp : Forall is_byte i ->
  exists j, json_parse (F:=F) i false ignore [dp] = Ret j /\
    match json_parse (F:=F) i true ignore [dp] with
    | Ret j' => j' = j /\ j <> value_discarded
    | Throw e => j = value_discarded
    | OutOfFuel => False
    end.
Proof.
  intros Hi. unfold json_parse, parser_parse.
  destruct (parser_init_ok i ignore dp (dom_init (F:=F) value_null true) Hi) as (t & l & q & Hp & _).
  destruct (parser_init_ok i ignore dp (dom_init (F:=F) value_null false) Hi) as (t' & l' & q' & Hp' & _).
  assert (quiet (dom_init value_null true) (dom_init value_null false)) as Hquiet by done.
  pose proof (sim_internal _ builder_quiet i ignore dp _ _ _ _ Hi Hquiet Hp Hp') as Hsim.
  rewrite Hp, Hp'. cbn [comp_bind].
  pose proof (sax_parse_internal_ok true _ _ _ _ Hi Hp) as Hl.
  pose proof (sax_parse_internal_ok false _ _ _ _ Hi Hp') as Hl'.
  destruct (sax_parse_internal (mk_parser [] false t l _)) as [[b1 p1]|e|]; cbn in Hl; [| |done].
  - destruct Hsim as ([b2 p2] & E2 & Eb & Hsame). rewrite E2 in *. cbn in Eb. subst b2.
    destruct Hl as (He & Ha & Hw & Hb & q1 & Hq1). cbn [fst snd comp_bind] in *.
    destruct b1; [|by specialize (Hb eq_refl)].
    destruct Hsame as (_ & _ & _ & E4 & [E5 _] & _).
    destruct (get_token_total p1 q1 Hq1) as (t1 & l1 & q1' & Ht1 & _).
    assert (get_token p2 = Ret (mk_parser (states p2) (skip_to_state_evaluation p2) t1 l1 (sax p2))) as Ht2.
    { unfold get_token in *. rewrite <- E4. destruct (scan _) as [[]| |]; simpl in *; congruence. }
    rewrite Ht1, Ht2, E5. unfold dom_parse_error. cbn. rewrite Ha.
    case_decide; cbn; rewrite ?He; cbn; [|eauto]. eexists. split; [done|]. split; [done|].
    intros Hd. by rewrite Hd in Hw; inversion Hw.
  - destruct Hl as [_ Hs]. destruct (Hsim Hs) as ([b2 p2] & E2 & Eb). rewrite E2 in *. cbn in Eb. subst b2.
    destruct Hl' as (He & Ha & Hw & Hb & q1 & Hq1). cbn [fst snd comp_bind] in *.
    destruct (get_token_total p2 q1 Hq1) as (t1 & l1 & q1' & -> & _).
    unfold dom_parse_error. cbn. rewrite Ha. case_decide; cbn; rewrite ?He; eauto.
Qed.

(** With exceptions enabled, [parse] returns [j] exactly when the quiet
    parse returns [j] and [j] is not discarded: the two error-reporting
    modes decide the same language and build the same value. *)
Theorem parse_modes_agree i ignore dp j : Forall is_byte i ->
  json_parse (F:=F) i true ignore [dp] = Ret j <->
  (json_parse (F:=F) i false ignore [dp] = Ret j /\ j <> value_discarded).
Proof.
  intros Hi. destruct (parse_quiet i ignore dp Hi) as (j' & -> & Hq).
  destruct (json_parse i true ignore [dp]) as [j2|e|]; [|naive_solver|done].
  destruct Hq as [-> Hd]. split; [intros [= ->]; done|intros [[= ->] _]; done].
Qed.

End Spec.

(** ** Witnesses *)

Definition sample : bytes := jtext "{'b': [1, -2, 1.5e3], 'a': 'x\u00e9'} ".

Lemma parse_total_witness :
  Forall is_byte sample /\
  match json_parse (F:=Z) sample true false [46] with
  | Ret j => wf_json j \/ (true = false /\ j = value_discarded)
  | Throw e => true = true /\ (e = parse_error 101 \/ e = out_of_range 406)
  | OutOfFuel => False
  end.
Proof. split; [apply jtext_bytes|apply (parse_total sample), jtext_bytes]. Defined.

Lemma accept_iff_parse_witness :
  Forall is_byte sample /\
  exists j, json_parse (F:=Z) sample false false [46] = Ret j /\
    json_accept (F:=Z) sample false [46] = Ret (negb (is_discarded j)).
Proof. split; [apply jtext_bytes|apply (accept_iff_parse sample), jtext_bytes]. Defined.

Lemma parse_modes_agree_witness :
  Forall is_byte (str "[1,]") /\
  (json_parse (F:=Z) (str "[1,]") true false [46] = Ret value_null <->
   (json_parse (F:=Z) (str "[1,]") false false [46] = Ret value_null /\
    @value_null Z <> value_discarded)).
Proof. split; [apply str_bytes|apply (parse_modes_agree (str "[1,]")), str_bytes]. Defined.

Example sample_parses :
  json_parse (F:=Z) sample true false [46] =
  Ret (value_object
    [(str "a", value_string [120; 0xC3; 0xA9]);
     (str "b", value_array [value_number_unsigned 1; value_number_integer (-2); value_number_float 5])]).
Proof. vm_compute. reflexivity. Qed.

(** A locale with the Arabic decimal separator U+066B, of two bytes: only the
    first one is put into the text that is converted. *)
Example long_decimal_point :
  json_parse (F:=Z) (str "[1.5]") true false [0xD9; 0xAB] = Throw assertion_failure /\
  json_parse (F:=Z) (str "[15e1]") true false [0xD9; 0xAB] = Ret (value_array [value_number_float 4]).
Proof. split; vm_compute; reflexivity. Qed.

Example overflowing_float : json_parse (F:=Z) (replicate 300 49) true false [46] = Throw (out_of_range 406).
Proof. vm_compute. reflexivity. Qed.
