(* ===== verification/JsonSerializer.v ===== *)
(** The serializer of the JSON library ([class serializer] of
    [src/libephmem/json.hpp] and [basic_json::dump]): the UTF-8 decoder
    table, the escaping of strings through a buffer of 512 bytes, the
    conversion of integers in a buffer of 64 bytes, and the compact and the
    pretty printer.

    An access outside a fixed buffer is the outcome [Throw buffer_overrun].
    The conversion of floating-point numbers ([detail::to_chars]) is the
    class method [to_chars]; for [double] it is [Dtoa.to_chars]. *)
From S2P Require Import Prelude CLib Utf8 JsonValue.

(** [error_handler_t] *)
Inductive error_handler_t : Set := strict | replace | ignore.

(** ** [decode]: the table of the UTF-8 automaton *)

Definition UTF8_ACCEPT : Z := 0.
Definition UTF8_REJECT : Z := 1.

Definition utf8d : list Z :=
  replicate 128 0 ++                                     (* 00..7F *)
  replicate 16 1 ++ replicate 16 9 ++                    (* 80..9F *)
  replicate 32 7 ++                                      (* A0..BF *)
  [8; 8] ++ replicate 30 2 ++                            (* C0..DF *)
  [0xA; 3; 3; 3; 3; 3; 3; 3; 3; 3; 3; 3; 3; 4; 3; 3] ++  (* E0..EF *)
  [0xB; 6; 6; 6; 5; 8; 8; 8; 8; 8; 8; 8; 8; 8; 8; 8] ++  (* F0..FF *)
  [0; 1; 2; 3; 5; 8; 7; 1; 1; 1; 4; 6; 1; 1; 1; 1] ++    (* s0..s0 *)
  [1; 1; 1; 1; 1; 1; 1; 1; 1; 1; 1; 1; 1; 1; 1; 1;
   1; 0; 1; 1; 1; 1; 1; 0; 1; 0; 1; 1; 1; 1; 1; 1] ++    (* s1..s2 *)
  [1; 2; 1; 1; 1; 1; 1; 2; 1; 2; 1; 1; 1; 1; 1; 1;
   1; 1; 1; 1; 1; 1; 1; 2; 1; 1; 1; 1; 1; 1; 1; 1] ++    (* s3..s4 *)
  [1; 2; 1; 1; 1; 1; 1; 1; 1; 2; 1; 1; 1; 1; 1; 1;
   1; 1; 1; 1; 1; 1; 1; 3; 1; 3; 1; 1; 1; 1; 1; 1] ++    (* s5..s6 *)
  [1; 3; 1; 1; 1; 1; 1; 3; 1; 3; 1; 1; 1; 1; 1; 1;
   1; 3; 1; 1; 1; 1; 1; 1; 1; 1; 1; 1; 1; 1; 1; 1].       (* s7..s8 *)

(** The new [state] (also the return value) and [codep]. *)
Definition decode (state codep byte : Z) : comp (Z * Z) :=
  match utf8d !! Z.to_nat byte with
  | None => Throw assertion_failure
  | Some type =>
      let codep :=
        if state =? UTF8_ACCEPT then Z.land (Z.shiftr 0xFF type) byte
        else Z.lor (Z.land byte 0x3F) (wrapu 32 (Z.shiftl codep 6)) in
      match utf8d !! Z.to_nat (256 + state * 16 + type) with
      | None => Throw assertion_failure
      | Some state => Ret (state, codep)
      end
  end.

(** ** [dump_escaped] *)

(** The local variables and [string_buffer], of which the first [bytes]
    elements are kept, and the output. *)
Record escaper := mk_escaper {
  codepoint : Z;
  state : Z;
  string_buffer : bytes;
  bytes_after_last_accept : nat;
  undumped_chars : nat;
  output : bytes
}.

Definition with_decoded (e : escaper) (st cp : Z) : escaper :=
  mk_escaper cp st (string_buffer e) (bytes_after_last_accept e) (undumped_chars e) (output e).
Definition with_state (e : escaper) (st : Z) : escaper :=
  mk_escaper (codepoint e) st (string_buffer e) (bytes_after_last_accept e) (undumped_chars e) (output e).
Definition with_string_buffer (e : escaper) (b : bytes) : escaper :=
  mk_escaper (codepoint e) (state e) b (bytes_after_last_accept e) (undumped_chars e) (output e).
Definition with_undumped (e : escaper) (n : nat) : escaper :=
  mk_escaper (codepoint e) (state e) (string_buffer e) (bytes_after_last_accept e) n (output e).
Definition with_accept (e : escaper) (n : nat) : escaper :=
  mk_escaper (codepoint e) (state e) (string_buffer e) n (undumped_chars e) (output e).
Definition with_output (e : escaper) (x : bytes) : escaper :=
  mk_escaper (codepoint e) (state e) (string_buffer e) (bytes_after_last_accept e) (undumped_chars e) x.

(** Characters stored from [string_buffer[bytes]] on; [snprintf] stores
    [extra] one more, its terminator. *)
Definition put (bs : bytes) (extra : nat) (e : escaper) : comp escaper :=
  if (length (string_buffer e) + length bs + extra <=? 512)%nat
  then Ret (with_string_buffer e (string_buffer e ++ bs))
  else Throw buffer_overrun.

(** Write the buffer when fewer than 13 bytes are left. *)
Definition flush (e : escaper) : escaper :=
  if (512 - length (string_buffer e) <? 13)%nat
  then with_output (with_string_buffer e []) (output e ++ string_buffer e)
  else e.

(** The [switch] on a decoded code point; [c] is [s[i]]. *)
Definition escape_codepoint (ensure_ascii : bool) (c : Z) (e : escaper) : comp escaper :=
  let cp := codepoint e in
  if cp =? 0x08 then put (str "\b") 0 e
  else if cp =? 0x09 then put (str "\t") 0 e
  else if cp =? 0x0A then put (str "\n") 0 e
  else if cp =? 0x0C then put (str "\f") 0 e
  else if cp =? 0x0D then put (str "\r") 0 e
  else if cp =? 0x22 then put [92; 34] 0 e
  else if cp =? 0x5C then put [92; 92] 0 e
  else if (cp <=? 0x1F) || (ensure_ascii && (0x7F <=? cp)) then
    if cp <=? 0xFFFF then put (str "\u" ++ printf_04x (wrapu 16 cp)) 1 e
    else
      put (str "\u" ++ printf_04x (wrapu 16 (wrapu 32 (0xD7C0 + Z.shiftr cp 10))) ++
           str "\u" ++ printf_04x (wrapu 16 (wrapu 32 (0xDC00 + Z.land cp 0x3FF)))) 1 e
  else put [c] 0 e.

Definition escape_accept (ensure_ascii : bool) (c : Z) (e : escaper) : comp escaper :=
  let* e := escape_codepoint ensure_ascii c e in
  let e := flush e in
  Ret (with_undumped (with_accept e (length (string_buffer e))) 0).

Definition replacement (ensure_ascii : bool) : bytes :=
  if ensure_ascii then str "\ufffd" else [0xEF; 0xBF; 0xBD].

(** An invalid byte: whether it is read again, and the new state. *)
Definition escape_reject (handler : error_handler_t) (ensure_ascii : bool) (e : escaper) :
    comp (bool * escaper) :=
  match handler with
  | strict => Throw (type_error 316)
  | _ =>
      let again := (0 <? undumped_chars e)%nat in
      let e := with_string_buffer e (take (bytes_after_last_accept e) (string_buffer e)) in
      let* e :=
        match handler with
        | replace =>
            let* e := put (replacement ensure_ascii) 0 e in
            let e := flush e in
            Ret (with_accept e (length (string_buffer e)))
        | _ => Ret e
        end in
      Ret (again, with_state (with_undumped e 0) UTF8_ACCEPT)
  end.

(** An incomplete code point. *)
Definition escape_incomplete (ensure_ascii : bool) (c : Z) (e : escaper) : comp escaper :=
  let* e := (if ensure_ascii then Ret e else put [c] 0 e) in
  Ret (with_undumped e (S (undumped_chars e))).

(** One turn of the loop on the byte [c]; the result says whether [i] was
    decremented. *)
Definition escape_byte (handler : error_handler_t) (ensure_ascii : bool) (c : Z) (e : escaper) :
    comp (bool * escaper) :=
  let byte := wrapu 8 c in
  let* '(st, cp) := decode (state e) (codepoint e) byte in
  let e := with_decoded e st cp in
  if st =? UTF8_ACCEPT then
    let* e := escape_accept ensure_ascii c e in Ret (false, e)
  else if st =? UTF8_REJECT then escape_reject handler ensure_ascii e
  else let* e := escape_incomplete ensure_ascii c e in Ret (false, e).

Fixpoint dump_escaped_loop (fuel : nat) (handler : error_handler_t) (ensure_ascii : bool)
    (s : bytes) (e : escaper) : comp escaper :=
  match s with
  | [] => Ret e
  | c :: s' =>
      match fuel with
      | O => OutOfFuel
      | S fuel =>
          let* '(again, e) := escape_byte handler ensure_ascii c e in
          dump_escaped_loop fuel handler ensure_ascii (if again then s else s') e
      end
  end.

(** The end of the string. *)
Definition dump_escaped_end (handler : error_handler_t) (ensure_ascii : bool) (e : escaper) :
    comp bytes :=
  if state e =? UTF8_ACCEPT then
    Ret (if (0 <? length (string_buffer e))%nat then output e ++ string_buffer e else output e)
  else
    let accepted := take (bytes_after_last_accept e) (string_buffer e) in
    match handler with
    | strict => Throw (type_error 316)
    | ignore => Ret (output e ++ accepted)
    | replace => Ret (output e ++ accepted ++ replacement ensure_ascii)
    end.

(** The output after the escaped string.  Fuel: a byte is read at most
    twice. *)
Definition dump_escaped (handler : error_handler_t) (ensure_ascii : bool) (s : bytes) (o : bytes) :
    comp bytes :=
  let* e := dump_escaped_loop (S (2 * length s)) handler ensure_ascii s
              (mk_escaper 0 UTF8_ACCEPT [] 0 0 o) in
  dump_escaped_end handler ensure_ascii e.

(** ** Integers *)

Fixpoint count_digits_loop (fuel : nat) (x : Z) (n_digits : Z) : comp Z :=
  match fuel with
  | O => OutOfFuel
  | S fuel =>
      if x <? 10 then Ret n_digits
      else if x <? 100 then Ret (n_digits + 1)
      else if x <? 1000 then Ret (n_digits + 2)
      else if x <? 10000 then Ret (n_digits + 3)
      else count_digits_loop fuel (x / 10000) (n_digits + 4)
  end.

(** Fuel: a 64-bit number has at most 20 digits. *)
Definition count_digits (x : Z) : comp Z := count_digits_loop 6 x 1.

Definition is_negative_number (x : Z) : bool := x <? 0.

(** The overload for signed numbers. *)
Definition remove_sign (x : Z) : Z := wrapu 64 (wrapu 64 (- (x + 1)) + 1).

(** [digits_to_99[i]] *)
Definition digits_to_99 (i : Z) : Z * Z := (48 + i / 10, 48 + i mod 10).

(** [*(--buffer_ptr) = c] *)
Definition store_back (c : Z) (b : nat * bytes) : comp (nat * bytes) :=
  match b.1 with
  | O => Throw buffer_overrun
  | S p => if (p <? length b.2)%nat then Ret (p, <[p := c]> b.2) else Throw buffer_overrun
  end.

Definition store_pair (i : Z) (b : nat * bytes) : comp (nat * bytes) :=
  let* b := store_back (digits_to_99 i).2 b in store_back (digits_to_99 i).1 b.

(** The [while] over pairs of digits, and the last one or two digits. *)
Fixpoint store_digits (fuel : nat) (abs_value : Z) (b : nat * bytes) : comp (nat * bytes) :=
  match fuel with
  | O => OutOfFuel
  | S fuel =>
      if 100 <=? abs_value then
        let* b := store_pair (abs_value mod 100) b in
        store_digits fuel (abs_value / 100) b
      else if 10 <=? abs_value then store_pair abs_value b
      else store_back (48 + abs_value) b
  end.

(** The characters written and the new [number_buffer]. *)
Definition dump_integer (x : Z) (number_buffer : bytes) : comp (bytes * bytes) :=
  if x =? 0 then Ret ([48], number_buffer)
  else
    let* '(abs_value, n_chars, number_buffer) :=
      (if is_negative_number x then
         let abs_value := remove_sign x in
         let* n := count_digits abs_value in
         Ret (abs_value, 1 + n, <[0%nat := 45]> number_buffer)
       else
         let abs_value := wrapu 64 x in
         let* n := count_digits abs_value in
         Ret (abs_value, n, number_buffer)) in
    if n_chars <? Z.of_nat (length number_buffer) - 1 then
      let* '(_, number_buffer) := store_digits 11 abs_value (Z.to_nat n_chars, number_buffer) in
      Ret (take (Z.to_nat n_chars) number_buffer, number_buffer)
    else Throw assertion_failure.

(** ** [dump] *)

(** The output [o], and the members that change: [number_buffer] and
    [indent_string]. *)
Record serializer := mk_serializer {
  o : bytes;
  number_buffer : bytes;
  indent_string : bytes
}.

Definition write_characters (bs : bytes) (s : serializer) : serializer :=
  mk_serializer (o s ++ bs) (number_buffer s) (indent_string s).

(** [write_characters(indent_string.c_str(), n)]: up to the terminator. *)
Definition write_indent (n : Z) (s : serializer) : comp serializer :=
  if n <=? Z.of_nat (length (indent_string s)) + 1
  then Ret (write_characters (take (Z.to_nat n) (indent_string s ++ [0])) s)
  else Throw buffer_overrun.

(** [if (indent_string.size() < new_indent) indent_string.resize(...)] *)
Definition grow_indent (new_indent : Z) (s : serializer) : serializer :=
  if Z.of_nat (length (indent_string s)) <? new_indent
  then mk_serializer (o s) (number_buffer s)
         (indent_string s ++ replicate (length (indent_string s)) 32)
  else s.

Definition write_integer (x : Z) (s : serializer) : comp serializer :=
  let* '(bs, nb) := dump_integer x (number_buffer s) in
  Ret (mk_serializer (o s ++ bs) nb (indent_string s)).

Section Dump.
Context {F : Type} `{FloatOps F}.
Variables (handler : error_handler_t) (ensure_ascii : bool) (indent_step : Z).
Implicit Types (s : serializer).

Definition write_escaped (k : bytes) s : comp serializer :=
  let* x := dump_escaped handler ensure_ascii k (o s) in
  Ret (mk_serializer x (number_buffer s) (indent_string s)).

(** [dump_float]: the overload for IEEE numbers, which are written to
    [number_buffer]. *)
Definition dump_float (x : F) s : comp serializer :=
  if isfinite x then
    let* '(buf, e) := to_chars x (number_buffer s) in
    Ret (mk_serializer (o s ++ take e buf) buf (indent_string s))
  else Ret (write_characters (str "null") s).

Section Nested.
(** The recursive call, with [current_indent]. *)
Variable rec : json F -> Z -> serializer -> comp serializer.

(** A member: quoted key, separator, value. *)
Definition dump_member (separator : bytes) (kv : bytes * json F) (indent : Z) s : comp serializer :=
  let s := write_characters [34] s in
  let* s := write_escaped kv.1 s in
  let s := write_characters separator s in
  rec kv.2 indent s.

Definition compact_members (current_indent : Z) :=
  fix go (m : list (bytes * json F)) s : comp serializer :=
    match m with
    | [] => Throw assertion_failure
    | [kv] => dump_member [34; 58] kv current_indent s
    | kv :: m =>
        let* s := dump_member [34; 58] kv current_indent s in
        go m (write_characters (str ",") s)
    end.

Definition dump_object_compact (m : list (bytes * json F)) (current_indent : Z) s : comp serializer :=
  let* s := compact_members current_indent m (write_characters (str "{") s) in
  Ret (write_characters (str "}") s).

Definition pretty_members (new_indent : Z) :=
  fix go (m : list (bytes * json F)) s : comp serializer :=
    match m with
    | [] => Throw assertion_failure
    | [kv] =>
        let* s := write_indent new_indent s in
        dump_member [34; 58; 32] kv new_indent s
    | kv :: m =>
        let* s := write_indent new_indent s in
        let* s := dump_member [34; 58; 32] kv new_indent s in
        go m (write_characters [44; 10] s)
    end.

Definition dump_object_pretty (m : list (bytes * json F)) (current_indent : Z) s : comp serializer :=
  let s := write_characters [123; 10] s in
  let new_indent := wrapu 32 (current_indent + indent_step) in
  let s := grow_indent new_indent s in
  let* s := pretty_members new_indent m s in
  let s := write_characters [10] s in
  let* s := write_indent current_indent s in
  Ret (write_characters (str "}") s).

Definition compact_elements (current_indent : Z) :=
  fix go (l : list (json F)) s : comp serializer :=
    match l with
    | [] => Throw assertion_failure
    | [v] => rec v current_indent s
    | v :: l =>
        let* s := rec v current_indent s in
        go l (write_characters (str ",") s)
    end.

Definition dump_array_compact (l : list (json F)) (current_indent : Z) s : comp serializer :=
  let* s := compact_elements current_indent l (write_characters (str "[") s) in
  Ret (write_characters (str "]") s).

Definition pretty_elements (new_indent : Z) :=
  fix go (l : list (json F)) s : comp serializer :=
    match l with
    | [] => Throw assertion_failure
    | [v] =>
        let* s := write_indent new_indent s in
        rec v new_indent s
    | v :: l =>
        let* s := write_indent new_indent s in
        let* s := rec v new_indent s in
        go l (write_characters [44; 10] s)
    end.

Definition dump_array_pretty (l : list (json F)) (current_indent : Z) s : comp serializer :=
  let s := write_characters [91; 10] s in
  let new_indent := wrapu 32 (current_indent + indent_step) in
  let s := grow_indent new_indent s in
  let* s := pretty_elements new_indent l s in
  let s := write_characters [10] s in
  let* s := write_indent current_indent s in
  Ret (write_characters (str "]") s).
End Nested.

(** The bytes of a binary value, separated. *)
Fixpoint dump_binary_bytes (separator : bytes) (b : bytes) s : comp serializer :=
  match b with
  | [] => Ret s
  | [x] => write_integer x s
  | x :: b =>
      let* s := write_integer x s in
      dump_binary_bytes separator b (write_characters separator s)
  end.

Definition dump_subtype (subtype : option Z) s : comp serializer :=
  match subtype with
  | Some t => write_integer t s
  | None => Ret (write_characters (str "null") s)
  end.

Definition dump_binary_pretty (b : bytes) (subtype : option Z) (current_indent : Z) s :
    comp serializer :=
  let s := write_characters [123; 10] s in
  let new_indent := wrapu 32 (current_indent + indent_step) in
  let s := grow_indent new_indent s in
  let* s := write_indent new_indent s in
  let s := write_characters (jtext "'bytes': [") s in
  let* s := dump_binary_bytes (str ", ") b s in
  let s := write_characters (str "]," ++ [10]) s in
  let* s := write_indent new_indent s in
  let s := write_characters (jtext "'subtype': ") s in
  let* s := dump_subtype subtype s in
  let s := write_characters [10] s in
  let* s := write_indent current_indent s in
  Ret (write_characters (str "}") s).

Definition dump_binary_compact (b : bytes) (subtype : option Z) s : comp serializer :=
  let s := write_characters (jtext "{'bytes':[") s in
  let* s := dump_binary_bytes (str ",") b s in
  let s := write_characters (jtext "],'subtype':") s in
  let* s := dump_subtype subtype s in
  Ret (write_characters (str "}") s).

Fixpoint dump_value (pretty_print : bool) (val : json F) (current_indent : Z) s : comp serializer :=
  match val with
  | value_object [] => Ret (write_characters (str "{}") s)
  | value_object m =>
      if pretty_print then dump_object_pretty (dump_value true) m current_indent s
      else dump_object_compact (dump_value false) m current_indent s
  | value_array [] => Ret (write_characters (str "[]") s)
  | value_array l =>
      if pretty_print then dump_array_pretty (dump_value true) l current_indent s
      else dump_array_compact (dump_value false) l current_indent s
  | value_string x =>
      let s := write_characters [34] s in
      let* s := write_escaped x s in
      Ret (write_characters [34] s)
  | value_binary b t =>
      if pretty_print then dump_binary_pretty b t current_indent s
      else dump_binary_compact b t s
  | value_boolean b => Ret (write_characters (str (if b then "true" else "false")) s)
  | value_number_integer z => write_integer z s
  | value_number_unsigned z => write_integer z s
  | value_number_float f => dump_float f s
  | value_discarded => Ret (write_characters (str "<discarded>") s)
  | value_null => Ret (write_characters (str "null") s)
  end.
End Dump.

(** [serializer(adapter, indent_char, error_handler)] *)
Definition serializer_init (indent_char : Z) : serializer :=
  mk_serializer [] (replicate 64 0) (replicate 512 indent_char).

(** [basic_json::dump] *)
Definition dump {F} `{FloatOps F} (val : json F) (indent indent_char : Z) (ensure_ascii : bool)
    (handler : error_handler_t) : comp bytes :=
  let* s :=
    (if 0 <=? indent
     then dump_value handler ensure_ascii (wrapu 32 indent) true val 0 (serializer_init indent_char)
     else dump_value handler ensure_ascii 0 false val 0 (serializer_init indent_char)) in
  Ret (o s).
