(* ===== verification/JsonSerializerFacts.v ===== *)
(** Facts of the serializer: integers are printed in decimal inside the
    number buffer; the decoder table is the UTF-8 automaton; escaping never
    leaves its buffer and, on valid UTF-8, writes the escape of each code
    point. *)
From S2P Require Import Prelude CLib Utf8 JsonValue JsonLexer JsonLexerFacts JsonSerializer.

(** ** Integers *)

Lemma to_dec_length_step n : 10 <= n -> length (to_dec n) = S (length (to_dec (n / 10))).
Proof. intros. rewrite to_dec_step, length_app by done. simpl. lia. Qed.

Lemma to_dec_step_100 n : 100 <= n ->
  to_dec n = to_dec (n / 100) ++ [48 + n mod 100 / 10; 48 + n mod 10].
Proof.
  intros Hn. rewrite to_dec_step by lia. rewrite (to_dec_step (n / 10)) by dlia.
  rewrite <- app_assoc. simpl.
  replace (n / 10 / 10) with (n / 100) by (rewrite Z.div_div by lia; done).
  repeat f_equal. dlia.
Qed.

Lemma count_digits_loop_ok fuel : forall x n, 0 <= x < 10000 ^ Z.of_nat fuel -> (fuel <> 0)%nat ->
  count_digits_loop fuel x n = Ret (n + Z.of_nat (length (to_dec x)) - 1).
Proof.
  induction fuel as [|fuel IH]; intros x n Hx Hf; [done|]. simpl.
  destruct (Z.ltb_spec x 10). { rewrite to_dec_small by lia. simpl. f_equal. lia. }
  rewrite to_dec_length_step by lia.
  destruct (Z.ltb_spec x 100). { rewrite to_dec_small by dlia. simpl. f_equal. lia. }
  rewrite to_dec_length_step by dlia. rewrite Z.div_div by lia.
  destruct (Z.ltb_spec x 1000). { rewrite to_dec_small by dlia. simpl. f_equal. lia. }
  rewrite to_dec_length_step by dlia. rewrite Z.div_div by lia.
  destruct (Z.ltb_spec x 10000). { rewrite to_dec_small by dlia. simpl. f_equal. lia. }
  rewrite to_dec_length_step by dlia. rewrite Z.div_div by lia.
  rewrite Nat2Z.inj_succ, Z.pow_succ_r in Hx by lia. change (10 * 10 * 10 * 10) with 10000.
  rewrite IH; [f_equal; lia| |].
  - split; [dlia|]. apply Z.div_lt_upper_bound; lia.
  - intros ->. simpl in Hx. lia.
Qed.

Lemma count_digits_ok x : 0 <= x < 2 ^ 64 -> count_digits x = Ret (Z.of_nat (length (to_dec x))).
Proof.
  intros. unfold count_digits. rewrite count_digits_loop_ok; [f_equal; lia| |done].
  change (10000 ^ Z.of_nat 6) with (10 ^ 24). lia.
Qed.

(** Storing backwards: [p] is the position of [buffer_ptr]. *)
Lemma store_back_ok c p buf : (S p <= length buf)%nat ->
  store_back c (S p, buf) = Ret (p, take p buf ++ c :: drop (S p) buf).
Proof.
  intros. unfold store_back; simpl. destruct (Nat.ltb_spec p (length buf)); [|lia].
  by rewrite insert_take_drop by lia.
Qed.

Lemma store_pair_ok i p buf : (S (S p) <= length buf)%nat ->
  store_pair i (S (S p), buf) =
    Ret (p, take p buf ++ [48 + i / 10; 48 + i mod 10] ++ drop (S (S p)) buf).
Proof.
  intros. unfold store_pair. rewrite store_back_ok by lia. simpl comp_bind.
  assert (length (take (S p) buf) = S p) as Ht by (rewrite length_take; lia).
  rewrite store_back_ok.
  - rewrite take_app_le, take_take, Nat.min_l by lia. by rewrite drop_app_length'.
  - rewrite length_app, Ht. simpl. lia.
Qed.

Lemma store_digits_ok fuel : forall v p buf, 0 <= v < 100 ^ Z.of_nat fuel -> (fuel <> 0)%nat ->
  (p + length (to_dec v) <= length buf)%nat ->
  store_digits fuel v ((p + length (to_dec v))%nat, buf) =
    Ret (p, take p buf ++ to_dec v ++ drop (p + length (to_dec v)) buf).
Proof.
  induction fuel as [|fuel IH]; intros v p buf Hv Hf Hl; [done|]. simpl.
  rewrite Nat2Z.inj_succ, Z.pow_succ_r in Hv by lia.
  destruct (Z.leb_spec 100 v).
  - rewrite to_dec_step_100 in * by done. set (q := to_dec (v / 100)) in *.
    rewrite length_app in *. simpl length in *.
    replace (p + (length q + 2))%nat with (S (S (p + length q))) in * by lia.
    rewrite store_pair_ok by lia. simpl comp_bind.
    replace (v mod 100 mod 10) with (v mod 10) by dlia.
    set (d := [48 + v mod 100 / 10; 48 + v mod 10]).
    assert (length (take (p + length q) buf) = p + length q)%nat as Ht by (rewrite length_take; lia).
    change (v mod 100 / 10) with (v mod 100 / 10).
    rewrite IH; fold q.
    + rewrite take_app_le, take_take, Nat.min_l by lia.
      rewrite drop_app_ge, Ht by lia. rewrite Nat.sub_diag. by rewrite <- !app_assoc.
    + split; [dlia|]. apply Z.div_lt_upper_bound; lia.
    + intros ->. simpl in Hv. lia.
    + rewrite length_app, Ht. lia.
  - destruct (Z.leb_spec 10 v).
    + rewrite to_dec_step, to_dec_small in * by dlia. rewrite length_app in *. simpl length in *.
      replace (p + (1 + 1))%nat with (S (S p)) in * by lia.
      by rewrite store_pair_ok by lia.
    + rewrite to_dec_small in * by lia. simpl length in *.
      replace (p + 1)%nat with (S p) in * by lia. by rewrite store_back_ok by lia.
Qed.

(** The decimal text of a signed number. *)
Definition int_text (x : Z) : bytes := if x <? 0 then 45 :: to_dec (- x) else to_dec x.

Lemma remove_sign_ok x : - 2 ^ 63 <= x < 0 -> remove_sign x = - x.
Proof. intros. unfold remove_sign. rewrite (wrapu_small 64 (- (x + 1))), wrapu_small by lia. lia. Qed.

Lemma dump_integer_ok x nb : length nb = 64%nat -> - 2 ^ 63 <= x < 2 ^ 64 ->
  exists nb', dump_integer x nb = Ret (int_text x, nb') /\ length nb' = 64%nat.
Proof.
  intros Hnb Hx. unfold dump_integer, is_negative_number, int_text.
  destruct (Z.eqb_spec x 0) as [->|Hx0]; [by exists nb|].
  assert (forall v, 0 <= v < 2 ^ 64 -> (length (to_dec v) <= 20)%nat) as H20.
  { intros v Hv. apply to_dec_length. change (10 ^ Z.of_nat 20) with 100000000000000000000. lia. }
  assert (100 ^ Z.of_nat 11 = 10 ^ 22) as Epow by done.
  destruct (Z.ltb_spec x 0).
  - rewrite remove_sign_ok by lia. rewrite count_digits_ok by lia. cbn [comp_bind].
    specialize (H20 (- x) ltac:(lia)). rewrite length_insert, Hnb.
    destruct (Z.ltb_spec (1 + Z.of_nat (length (to_dec (- x)))) (Z.of_nat 64 - 1)); [|lia].
    replace (Z.to_nat _) with (1 + length (to_dec (- x)))%nat by lia.
    rewrite store_digits_ok; [|lia|done|rewrite length_insert; lia]. cbn [comp_bind].
    generalize dependent (to_dec (- x)). intros ds _ Hds. eexists. split.
    + f_equal. f_equal. destruct nb as [|b nb]; [discriminate Hnb|].
      change (<[0%nat:=45]> (b :: nb)) with (45 :: nb). simpl. by rewrite take_app_length.
    + destruct nb as [|b nb]; [discriminate Hnb|]. simpl in *.
      rewrite length_app, length_drop. simpl. lia.
  - rewrite wrapu_small by lia. rewrite count_digits_ok by lia. cbn [comp_bind].
    specialize (H20 x ltac:(lia)). rewrite Hnb.
    destruct (Z.ltb_spec (Z.of_nat (length (to_dec x))) (Z.of_nat 64 - 1)); [|lia].
    replace (Z.to_nat _) with (0 + length (to_dec x))%nat by lia.
    rewrite store_digits_ok; [|lia|done|lia]. cbn [comp_bind].
    rewrite take_0. generalize dependent (to_dec x). intros ds _ Hds. simpl.
    eexists. split; [by rewrite take_app_length|]. rewrite length_app, length_drop. lia.
Qed.

(** ** The decoder table *)

(** What the states mean: the ranges the next bytes must be in. *)
Definition st_ranges (st : Z) : list (Z * Z) :=
  if st =? 2 then [(0x80, 0xBF)]
  else if st =? 3 then [(0x80, 0xBF); (0x80, 0xBF)]
  else if st =? 4 then [(0xA0, 0xBF); (0x80, 0xBF)]
  else if st =? 5 then [(0x80, 0x9F); (0x80, 0xBF)]
  else if st =? 6 then [(0x90, 0xBF); (0x80, 0xBF); (0x80, 0xBF)]
  else if st =? 7 then [(0x80, 0xBF); (0x80, 0xBF); (0x80, 0xBF)]
  else if st =? 8 then [(0x80, 0x8F); (0x80, 0xBF); (0x80, 0xBF)]
  else [].

Definition lead_bits (b : Z) : Z :=
  if b <? 0x80 then b else if b <? 0xE0 then b - 0xC0 else if b <? 0xF0 then b - 0xE0 else b - 0xF0.

Definition lead_check (b : Z) : bool :=
  match decode 0 0 b with
  | Ret (st, c) =>
      if b <? 0x80 then (st =? 0) && (c =? b)
      else if st =? 1 then bool_decide (utf8_ranges b = None)
      else bool_decide (utf8_ranges b = Some (st_ranges st)) && in_range 2 8 st && (c =? lead_bits b)
  | _ => false
  end.

Definition cont_check (st b : Z) : bool :=
  match decode st 0 b, st_ranges st with
  | Ret (st', c), r :: rs =>
      if in_range r.1 r.2 b then
        bool_decide (st_ranges st' = rs) && (if decide (rs = []) then st' =? 0 else in_range 2 8 st')
        && in_range 0x80 0xBF b
      else st' =? 1
  | _, _ => false
  end.

(** The new state does not depend on [codep]. *)
Lemma decode_state st c b :
  match decode st 0 b with
  | Ret (st', _) => exists c', decode st c b = Ret (st', c')
  | Throw e => decode st c b = Throw e
  | OutOfFuel => False
  end.
Proof. unfold decode. destruct (utf8d !! _); [|done]. destruct (utf8d !! _); [|done]. eauto. Qed.

Lemma decode_lead_check b : is_byte b -> lead_check b = true.
Proof. revert b. apply byte_check. vm_compute. reflexivity. Qed.

Lemma decode_cont_check st b : in_range 2 8 st = true -> is_byte b -> cont_check st b = true.
Proof.
  intros Hst Hb. revert b Hb. apply byte_check. apply in_range_spec in Hst.
  assert (st = 2 \/ st = 3 \/ st = 4 \/ st = 5 \/ st = 6 \/ st = 7 \/ st = 8) as Hc by lia.
  destruct Hc as [->|[->|[->|[->|[->|[->| ->]]]]]]; vm_compute; reflexivity.
Qed.

(** The first byte of a code point. *)
Lemma decode_lead c b : is_byte b ->
  exists st c', decode 0 c b = Ret (st, c') /\
    ((b < 0x80 /\ st = 0 /\ c' = b) \/ (0x80 <= b /\ st = 1 /\ utf8_ranges b = None) \/
     (0x80 <= b /\ 2 <= st <= 8 /\ utf8_ranges b = Some (st_ranges st) /\ c' = lead_bits b)).
Proof.
  intros Hb. pose proof (decode_lead_check b Hb) as Hc. unfold lead_check in Hc.
  replace (decode 0 c b) with (decode 0 0 b) by (unfold decode; simpl; done).
  destruct (decode 0 0 b) as [[st c']| |]; try done. exists st, c'. split; [done|].
  destruct (Z.ltb_spec b 0x80).
  - left. lia.
  - right. destruct (Z.eqb_spec st 1) as [->|].
    + left. by apply bool_decide_eq_true in Hc.
    + right. rewrite !andb_true_iff, bool_decide_eq_true, in_range_spec in Hc. split_and!; try lia; apply Hc.
Qed.

Lemma decode_bits st c b : st <> 0 -> in_range 0x80 0xBF b = true -> 0 <= c < 2 ^ 24 ->
  forall st' c', decode st c b = Ret (st', c') -> c' = c * 64 + (b - 0x80).
Proof.
  intros Hst Hb Hc st' c'. apply in_range_spec in Hb. unfold decode.
  destruct (utf8d !! _); [|done]. destruct (utf8d !! _); [|done].
  unfold UTF8_ACCEPT. destruct (Z.eqb_spec st 0); [done|]. intros [= _ <-].
  rewrite Z.shiftl_mul_pow2, wrapu_small by lia. rewrite Z.lor_comm, land_3F.
  rewrite lor_disjoint by (try lia; apply (Z.mod_pos_bound b 64); lia).
  change (2 ^ 6) with 64. replace (b mod 64) with (b - 0x80); [done|].
  apply Z.mod_unique with 2; lia.
Qed.

(** A later byte. *)
Lemma decode_cont st c b : in_range 2 8 st = true -> is_byte b ->
  exists r rs st' c', st_ranges st = r :: rs /\ decode st c b = Ret (st', c') /\
    (if in_range r.1 r.2 b then
       st_ranges st' = rs /\ in_range 0x80 0xBF b = true /\
       (if decide (rs = []) then st' = 0 else in_range 2 8 st' = true)
     else st' = 1).
Proof.
  intros Hst Hb. pose proof (decode_cont_check st b Hst Hb) as Hc. unfold cont_check in Hc.
  pose proof (decode_state st c b) as Hd. destruct (decode st 0 b) as [[st' c0]| |]; try done.
  destruct Hd as [c' Hd]. destruct (st_ranges st) as [|r rs]; [done|].
  exists r, rs, st', c'. split_and!; [done|done|].
  destruct (in_range r.1 r.2 b); [|lia].
  rewrite !andb_true_iff, bool_decide_eq_true in Hc. destruct Hc as [[-> Hc] ->].
  split_and!; [done|done|]. case_decide; [lia|done].
Qed.

(** ** Code points, one at a time *)

(** The escape of a code point: the specification of [dump_escaped]. *)
Definition escape_text (ensure_ascii : bool) (cp : Z) : bytes :=
  if cp =? 0x08 then str "\b"
  else if cp =? 0x09 then str "\t"
  else if cp =? 0x0A then str "\n"
  else if cp =? 0x0C then str "\f"
  else if cp =? 0x0D then str "\r"
  else if cp =? 0x22 then [92; 34]
  else if cp =? 0x5C then [92; 92]
  else if (cp <=? 0x1F) || (ensure_ascii && (0x7F <=? cp)) then
    if cp <=? 0xFFFF then str "\u" ++ printf_04x cp
    else str "\u" ++ printf_04x (0xD800 + (cp - 0x10000) / 1024) ++
         str "\u" ++ printf_04x (0xDC00 + (cp - 0x10000) mod 1024)
  else utf8_encode cp.

Definition escape_all (ensure_ascii : bool) (cps : list Z) : bytes :=
  flat_map (escape_text ensure_ascii) cps.

(** Everything written so far, buffer included. *)
Definition written (e : escaper) : bytes := output e ++ string_buffer e.

(** Between two code points. *)
Definition clean (e : escaper) : Prop :=
  state e = 0 /\ bytes_after_last_accept e = length (string_buffer e) /\ undumped_chars e = 0%nat /\
  (length (string_buffer e) <= 499)%nat.

Lemma flush_ok e : written (flush e) = written e /\ (length (string_buffer (flush e)) <= 499)%nat /\
  state (flush e) = state e.
Proof.
  unfold flush, written. destruct (Nat.ltb_spec (512 - length (string_buffer e)) 13); simpl.
  - rewrite app_nil_r. split_and!; [done|lia|done].
  - split_and!; [done|lia|done].
Qed.

Lemma put_ok bs extra e : (length (string_buffer e) + length bs + extra <= 512)%nat ->
  put bs extra e = Ret (with_string_buffer e (string_buffer e ++ bs)).
Proof. intros. unfold put. by rewrite (proj2 (Nat.leb_le _ _)). Qed.

(** The surrogate pair of a supplementary code point. *)
Lemma surrogates cp : 0x10000 <= cp <= 0x10FFFF ->
  wrapu 16 (wrapu 32 (0xD7C0 + Z.shiftr cp 10)) = 0xD800 + (cp - 0x10000) / 1024 /\
  wrapu 16 (wrapu 32 (0xDC00 + Z.land cp 0x3FF)) = 0xDC00 + (cp - 0x10000) mod 1024.
Proof.
  intros. rewrite shiftr_div by lia. change (2 ^ 10) with 1024.
  assert (Z.land cp 0x3FF = cp mod 1024) as -> by (apply (Z.land_ones cp 10); lia).
  unfold wrapu. change (2 ^ 16) with 65536. change (2 ^ 32) with 4294967296. split; dlia.
Qed.

(** What an accepted code point appends: for a multi-byte one that is not
    escaped, its last byte [c]. *)
Definition accept_text (ensure_ascii : bool) (cp c : Z) : bytes :=
  if (0x80 <=? cp) && negb ensure_ascii then [c] else escape_text ensure_ascii cp.

Lemma escape_text_length ensure cp : (length (escape_text ensure cp) <= 12)%nat.
Proof. unfold escape_text, utf8_encode. repeat case_match; simpl; lia. Qed.

Lemma escape_codepoint_ok ensure c e : let cp := codepoint e in 0 <= cp <= 0x10FFFF ->
  (cp < 0x80 -> c = cp) ->
  (length (string_buffer e) + (if ((0x80 <=? cp)%Z && negb ensure) then 1 else 13) <= 512)%nat ->
  escape_codepoint ensure c e =
    Ret (with_string_buffer e (string_buffer e ++ accept_text ensure cp c)).
Proof.
  intros cp Hcp Hc Hroom. unfold escape_codepoint, accept_text, escape_text. fold cp.
  destruct (Z.leb_spec 0x80 cp).
  - do 7 (match goal with |- context [cp =? ?k] => destruct (Z.eqb_spec cp k); [lia|] end). destruct (Z.leb_spec cp 0x1F); [lia|].
    destruct ensure; simpl in *; [|by rewrite put_ok by (simpl; lia)].
    destruct (Z.leb_spec 0x7F cp); [|lia]. destruct (Z.leb_spec cp 0xFFFF).
    + rewrite (wrapu_small 16) by lia. by rewrite put_ok by (simpl; lia).
    + destruct (surrogates cp) as [-> ->]; [lia|]. by rewrite put_ok by (simpl; lia).
  - rewrite Hc by done. simpl in *. unfold utf8_encode.
    destruct (Z.ltb_spec cp 0x80); [|lia]. destruct (Z.leb_spec cp 0xFFFF); [|lia].
    rewrite (wrapu_small 16) by lia.
    repeat match goal with |- context [if ?b then _ else _] => destruct b end; by rewrite put_ok by (simpl; lia).
Qed.

Lemma escape_accept_ok ensure c e : let cp := codepoint e in 0 <= cp <= 0x10FFFF ->
  (cp < 0x80 -> c = cp) -> state e = 0 ->
  (length (string_buffer e) + (if ((0x80 <=? cp)%Z && negb ensure) then 1 else 13) <= 512)%nat ->
  exists e', escape_accept ensure c e = Ret e' /\ clean e' /\
    written e' = written e ++ accept_text ensure cp c.
Proof.
  intros cp Hcp Hc Hst Hroom. unfold escape_accept. rewrite escape_codepoint_ok by done. cbn [comp_bind].
  set (e1 := with_string_buffer e _). destruct (flush_ok e1) as (Hw & Hl & Hs).
  eexists. split; [done|]. split; [unfold clean; simpl; by rewrite Hs|].
  change (written (flush e1) = written e ++ accept_text ensure cp c). rewrite Hw. unfold written, e1. simpl.
  by rewrite app_assoc.
Qed.

(** The loop on the bytes after the first one of a code point. *)
Definition cont_value (c : Z) (bs : bytes) : Z := fold_left (fun c b => c * 64 + (b - 0x80)) bs c.

Lemma loop_cont handler ensure s : forall rs bs e fuel, rs <> [] ->
  st_ranges (state e) = rs -> in_range 2 8 (state e) = true -> Forall is_byte bs ->
  Forall2 (fun b r => in_range r.1 r.2 b = true) bs rs ->
  0 <= codepoint e -> (codepoint e + 1) * 64 ^ Z.of_nat (length rs) <= 2 ^ 24 ->
  (length (string_buffer e) + length bs <= 503)%nat ->
  exists e1 c, dump_escaped_loop (length bs + fuel) handler ensure (bs ++ s) e =
      (let* e2 := escape_accept ensure c e1 in dump_escaped_loop fuel handler ensure s e2) /\
    state e1 = 0 /\ codepoint e1 = cont_value (codepoint e) bs /\ last bs = Some c /\
    output e1 = output e /\
    string_buffer e1 = string_buffer e ++ (if ensure then [] else removelast bs).
Proof.
  induction rs as [|r rs IH]; intros bs e fuel Hne Hrs Hst Hbs Hf Hc0 Hc Hl; [done|].
  inversion Hf as [|b ? bs' ? Hb Hf']; subst. apply Forall_cons in Hbs as [Hbb Hbs].
  cbn [length Nat.add app dump_escaped_loop]. unfold escape_byte. rewrite wrapu_small by done.
  destruct (decode_cont (state e) (codepoint e) b Hst Hbb) as (r' & rs' & st' & c' & E & Hd & Hin).
  rewrite Hrs in E. injection E as <- <-. rewrite Hb in Hin. destruct Hin as (Hrs' & H80 & Hst').
  rewrite Hd. cbn [comp_bind]. apply in_range_spec in Hst.
  assert (0 < 64 ^ Z.of_nat (length rs)) by lia.
  cbn [length] in Hc. rewrite Nat2Z.inj_succ, Z.pow_succ_r in Hc by lia.
  apply decode_bits in Hd; [|lia|done|nia]. apply in_range_spec in H80. subst c'.
  case_decide as Hnil.
  - subst st' rs. inversion Hf'; subst. simpl.
    exists (with_decoded e 0 (codepoint e * 64 + (b - 0x80))), b.
    split_and!; try done; [|by destruct ensure; rewrite ?app_nil_r].
    destruct (escape_accept _ _ _); done.
  - assert (st' <> 0 /\ st' <> 1) as [H0 H1] by (apply in_range_spec in Hst'; lia).
    unfold UTF8_ACCEPT, UTF8_REJECT. destruct (Z.eqb_spec st' 0); [done|]. destruct (Z.eqb_spec st' 1); [done|].
    assert (bs' <> []) as Hbs' by (intros ->; inversion Hf'; by subst).
    assert (exists e1, escape_incomplete ensure b (with_decoded e st' (codepoint e * 64 + (b - 128))) = Ret e1 /\
      state e1 = st' /\ codepoint e1 = codepoint e * 64 + (b - 0x80) /\ output e1 = output e /\
      string_buffer e1 = string_buffer e ++ (if ensure then [] else [b])) as (e1 & -> & Es & Ec & Eo & Eb).
    { unfold escape_incomplete. destruct ensure; cbn [comp_bind].
      - eexists. split; [done|]. by rewrite app_nil_r.
      - rewrite put_ok by (simpl in *; lia). by eexists. }
    cbn [comp_bind]. destruct (IH bs' e1 fuel) as (e2 & c & -> & ? & Ec2 & Hlast & Eo2 & Eb2); try done.
    + by rewrite Es.
    + by rewrite Es.
    + rewrite Ec. lia.
    + rewrite Ec. nia.
    + rewrite Eb, length_app. destruct ensure; simpl in *; lia.
    + exists e2, c. split_and!; try done.
      * by rewrite Ec2, Ec.
      * by destruct bs'.
      * congruence.
      * rewrite Eb2, Eb. destruct ensure; rewrite <- app_assoc; [done|]. by destruct bs'.
Qed.

(** A multi-byte encoding, byte by byte. *)
Lemma utf8_encode_multi cp : is_scalar cp -> 0x80 <= cp ->
  exists b bs rs, utf8_encode cp = b :: bs /\ 0x80 <= b < 256 /\ Forall is_byte bs /\
    utf8_ranges b = Some rs /\ bs <> [] /\ Forall2 (fun b r => in_range r.1 r.2 b = true) bs rs /\
    cont_value (lead_bits b) bs = cp /\
    0 <= lead_bits b /\ (lead_bits b + 1) * 64 ^ Z.of_nat (length bs) <= 2 ^ 24.
Proof.
  intros Hs Hcp. pose proof (utf8_encode_bytes cp Hs) as Hb. pose proof (utf8_encode_shape cp Hs) as Hsh.
  assert (exists b bs, utf8_encode cp = b :: bs /\ 0x80 <= b /\ bs <> [] /\ cont_value (lead_bits b) bs = cp /\
    0 <= lead_bits b /\ (lead_bits b + 1) * 64 ^ Z.of_nat (length bs) <= 2 ^ 24)
    as (b & bs & E & Hb80 & Hne & Hv & Hl).
  { clear Hb Hsh. unfold is_scalar in Hs. unfold utf8_encode.
    destruct (Z.ltb_spec cp 0x80); [lia|]. destruct (Z.leb_spec cp 0x7FF); [|destruct (Z.leb_spec cp 0xFFFF)];
      (eexists _, _; split; [done|]); unfold cont_value, lead_bits; simpl;
      (split_and!; [dlia|done|zcases; dlia..]). }
  rewrite E in *. destruct (utf8_ranges_shape b bs Hsh Hne) as (rs & Er & Hf).
  apply Forall_cons in Hb as [Hb Hbs]. unfold is_byte in Hb.
  exists b, bs, rs. split_and!; try done; lia.
Qed.

Lemma escape_text_plain cp : 0x80 <= cp -> escape_text false cp = utf8_encode cp.
Proof.
  intros. unfold escape_text.
  do 7 (match goal with |- context [cp =? ?k] => destruct (Z.eqb_spec cp k); [lia|] end).
  by destruct (Z.leb_spec cp 0x1F); [lia|].
Qed.

(** A code point is read and its escape written. *)
(** One-byte code points: the byte is decoded and escaped at once. *)
Lemma loop_ascii handler ensure s cp e fuel : 0 <= cp < 0x80 -> clean e ->
  exists e', dump_escaped_loop (length (utf8_encode cp) + fuel) handler ensure (utf8_encode cp ++ s) e =
      dump_escaped_loop fuel handler ensure s e' /\
    clean e' /\ written e' = written e ++ escape_text ensure cp.
Proof.
  intros Hcp (Hst & Ha & Hu & Hl).
  assert (utf8_encode cp = [cp]) as -> by (unfold utf8_encode; destruct (Z.ltb_spec cp 0x80); [done|lia]).
  cbn [length Nat.add app dump_escaped_loop]. unfold escape_byte. rewrite wrapu_small by lia.
  destruct (decode_lead (codepoint e) cp) as (st & c' & Hd & Hc); [unfold is_byte; lia|].
  rewrite Hst, Hd. cbn [comp_bind]. destruct Hc as [(_ & -> & ->)|Hc]; [|lia].
  destruct (escape_accept_ok ensure cp (with_decoded e 0 cp)) as (e' & He & Hcl & Hw); simpl; try done.
  { lia. }
  { destruct (_ && _); lia. }
  unfold UTF8_ACCEPT. simpl. rewrite He. simpl. exists e'. split_and!; [done|done|].
  rewrite Hw. unfold accept_text; simpl. by destruct (Z.leb_spec 128 cp); [lia|].
Qed.

(** A lead byte is buffered, unless the output is to be ASCII. *)
Lemma escape_incomplete_ok (ensure : bool) b e : (length (string_buffer e) < 512)%nat ->
  exists e1, escape_incomplete ensure b e = Ret e1 /\
    state e1 = state e /\ codepoint e1 = codepoint e /\ output e1 = output e /\
    string_buffer e1 = string_buffer e ++ (if ensure then [] else [b]).
Proof.
  intros Hl. unfold escape_incomplete. destruct ensure; cbn [comp_bind].
  - eexists. split; [done|]. by rewrite app_nil_r.
  - rewrite put_ok by (simpl in *; lia). by eexists.
Qed.

Lemma loop_codepoint handler ensure s cp e fuel : is_scalar cp -> clean e ->
  exists e', dump_escaped_loop (length (utf8_encode cp) + fuel) handler ensure (utf8_encode cp ++ s) e =
      dump_escaped_loop fuel handler ensure s e' /\
    clean e' /\ written e' = written e ++ escape_text ensure cp.
Proof.
  intros Hs He. assert (0 <= cp <= 0x10FFFF) as Hcp by (destruct Hs; lia).
  destruct (Z_lt_ge_dec cp 0x80).
  - apply loop_ascii; [lia|done].
  - destruct He as (Hst & Ha & Hu & Hl). destruct (utf8_encode_multi cp Hs ltac:(lia)) as (b & bs & rs & E & Hb & Hbs & Hr & Hne & Hf & Hv & Hl0 & Hl1).
    rewrite E. cbn [length Nat.add app dump_escaped_loop]. unfold escape_byte. rewrite wrapu_small by lia.
    destruct (decode_lead (codepoint e) b) as (st & c' & Hd & Hc); [unfold is_byte; lia|].
    rewrite Hst, Hd. cbn [comp_bind].
    destruct Hc as [(? & _)|[(_ & _ & ?)|(_ & Hst' & Hr' & ->)]]; [lia|congruence|].
    rewrite Hr in Hr'. injection Hr' as Hrs.
    unfold UTF8_ACCEPT, UTF8_REJECT. destruct (Z.eqb_spec st 0); [lia|]. destruct (Z.eqb_spec st 1); [lia|].
    destruct (escape_incomplete_ok ensure b (with_decoded e st (lead_bits b)))
      as (e1 & -> & Es & Ec & Eo & Eb); [simpl; lia|]. simpl in Es, Ec, Eo, Eb.
    assert (length bs <= 3)%nat as Hbs3.
    { assert (length (utf8_encode cp) <= 4)%nat as H4 by (unfold utf8_encode; repeat case_match; simpl; lia).
      rewrite E in H4. simpl in H4. lia. }
    cbn [comp_bind]. destruct (loop_cont handler ensure s rs bs e1 fuel) as (e2 & c & -> & Hs2 & Hc2 & Hlast & Ho2 & Hb2).
    + intros ->. inversion Hf. by subst.
    + by rewrite Es.
    + rewrite Es. by apply in_range_true.
    + done.
    + done.
    + by rewrite Ec.
    + rewrite Ec. by rewrite <- (Forall2_length _ _ _ Hf).
    + rewrite Eb, length_app. destruct ensure; simpl; lia.
    + rewrite Ec, Hv in Hc2. apply last_Some in Hlast as [l ->]. rewrite removelast_last in Hb2.
      rewrite length_app in Hbs3. simpl in Hbs3.
      destruct (escape_accept_ok ensure c e2) as (e3 & -> & Hcl & Hw); rewrite ?Hc2; try done; try lia.
      { rewrite Hb2, Eb, !length_app. destruct ensure; simpl; rewrite ?andb_false_r; simpl; [lia|].
        destruct (Z.leb_spec 128 cp); simpl; lia. }
      cbn [comp_bind]. exists e3. split_and!; [done|done|]. rewrite Hw, Hc2. unfold written, accept_text.
      rewrite Ho2, Hb2, Eo, Eb. destruct (Z.leb_spec 128 cp); [|lia].
      destruct ensure; simpl; [by rewrite !app_nil_r|].
      rewrite escape_text_plain, E by lia. rewrite <- !app_assoc. done.
Qed.

Lemma loop_codepoints handler ensure cps : Forall is_scalar cps -> forall e fuel, clean e ->
  exists e', dump_escaped_loop (length (utf8_encode_all cps) + fuel) handler ensure (utf8_encode_all cps) e =
      Ret e' /\ clean e' /\ written e' = written e ++ escape_all ensure cps.
Proof.
  induction 1 as [|cp cps Hcp _ IH]; intros e fuel He; simpl.
  - exists e. split_and!; [by destruct fuel|done|by rewrite app_nil_r].
  - rewrite length_app, <- Nat.add_assoc.
    destruct (loop_codepoint handler ensure (utf8_encode_all cps) cp e (length (utf8_encode_all cps) + fuel) Hcp He)
      as (e1 & -> & He1 & Hw1).
    destruct (IH e1 fuel He1) as (e2 & -> & He2 & Hw2). exists e2. split_and!; [done|done|].
    by rewrite Hw2, Hw1, <- app_assoc.
Qed.

(** On valid UTF-8 every handler writes the escapes. *)
Lemma dump_escaped_valid handler ensure cps out : Forall is_scalar cps ->
  dump_escaped handler ensure (utf8_encode_all cps) out = Ret (out ++ escape_all ensure cps).
Proof.
  intros Hcps. unfold dump_escaped.
  replace (S (2 * length (utf8_encode_all cps)))
    with (length (utf8_encode_all cps) + S (length (utf8_encode_all cps)))%nat by lia.
  destruct (loop_codepoints handler ensure cps Hcps (mk_escaper 0 UTF8_ACCEPT [] 0 0 out)
    (S (length (utf8_encode_all cps)))) as (e & -> & (Hst & _) & Hw); [unfold clean; simpl; split_and!; [done|done|done|lia]|].
  cbn [comp_bind]. unfold dump_escaped_end. rewrite Hst. simpl. f_equal.
  unfold written in Hw; simpl in Hw. rewrite app_nil_r in Hw. rewrite <- Hw.
  destruct (Nat.ltb_spec 0 (length (string_buffer e))); [done|].
  by destruct (string_buffer e); [rewrite app_nil_r|simpl in *; lia].
Qed.

(** ** Arbitrary bytes *)

Definition buffer_inv (ensure : bool) (e : escaper) : Prop :=
  (state e = 0 \/ in_range 2 8 (state e) = true) /\
  (bytes_after_last_accept e <= 499)%nat /\
  (length (string_buffer e) <= bytes_after_last_accept e + (if ensure then 0 else undumped_chars e))%nat /\
  (state e = 0 -> undumped_chars e = 0%nat) /\
  (state e <> 0 -> (1 <= undumped_chars e)%nat /\
     (undumped_chars e + length (st_ranges (state e)) <= 4)%nat).

Lemma escape_codepoint_total (ensure : bool) c e :
  (length (string_buffer e) + (if ensure then 13 else 7) <= 512)%nat ->
  exists b, escape_codepoint ensure c e = Ret (with_string_buffer e b).
Proof.
  intros Hl. unfold escape_codepoint. repeat case_match; try (rewrite put_ok by (simpl; lia); by eexists).
Qed.

Lemma st_ranges_short st : (length (st_ranges st) <= 3)%nat.
Proof. unfold st_ranges. repeat case_match; simpl; lia. Qed.

Lemma st_ranges_nonempty st : in_range 2 8 st = true -> (1 <= length (st_ranges st))%nat.
Proof. rewrite in_range_spec. unfold st_ranges. intros. zcases; simpl; lia. Qed.

Lemma escape_accept_total (ensure : bool) c e :
  (length (string_buffer e) + (if ensure then 13 else 7) <= 512)%nat -> state e = 0 ->
  exists e', escape_accept ensure c e = Ret e' /\ buffer_inv ensure e' /\ undumped_chars e' = 0%nat.
Proof.
  intros Hl Hst. unfold escape_accept. destruct (escape_codepoint_total ensure c e Hl) as (b & ->).
  cbn [comp_bind]. destruct (flush_ok (with_string_buffer e b)) as (_ & Hb & Hs).
  eexists. split; [done|]. unfold buffer_inv; simpl. split; [|done]. rewrite Hs. simpl.
  split_and!; [by left|done|lia|done|done].
Qed.

(** One turn: no access outside the buffer, and the invariant is kept; a
    byte is read again only to start afresh. *)
Definition turn_ok (handler : error_handler_t) (ensure : bool) (e : escaper) (r : comp (bool * escaper)) : Prop :=
  match r with
  | Ret (again, e') => buffer_inv ensure e' /\
      (again = true -> (1 <= undumped_chars e)%nat /\ undumped_chars e' = 0%nat)
  | Throw ex => handler = strict /\ ex = type_error 316
  | OutOfFuel => False
  end.

Lemma escape_reject_total handler ensure e : (bytes_after_last_accept e <= 499)%nat ->
  turn_ok handler ensure e (escape_reject handler ensure e).
Proof.
  intros Ha. unfold escape_reject. destruct handler; [done|..]; cbn [comp_bind].
  - rewrite put_ok by (destruct ensure; simpl; rewrite length_take; lia). cbn [comp_bind].
    match goal with |- context [flush ?e0] => destruct (flush_ok e0) as (_ & Hb & _); set (e1 := flush e0) in * end.
    simpl. unfold buffer_inv; simpl. split_and!; try done; [by left|lia|].
    intros Hd%Nat.ltb_lt. split; [lia|done].
  - simpl. unfold buffer_inv; simpl. split_and!; try done; [by left|rewrite length_take; lia|].
    intros Hd%Nat.ltb_lt. split; [lia|done].
Qed.

Lemma escape_byte_total handler ensure c e : is_byte c -> buffer_inv ensure e ->
  turn_ok handler ensure e (escape_byte handler ensure c e).
Proof.
  intros Hc (Hst & Ha & Hl & Hu0 & Hu). unfold escape_byte. rewrite wrapu_small by done.
  assert (exists st cp, decode (state e) (codepoint e) c = Ret (st, cp) /\
    (st = 0 \/ st = 1 \/ (in_range 2 8 st = true /\ (undumped_chars e + length (st_ranges st) <= 3)%nat)))
    as (st & cp & -> & Hcase).
  { destruct Hst as [Hst|Hst].
    - rewrite Hst. destruct (decode_lead (codepoint e) c Hc) as (st & cp & -> & H). exists st, cp. split; [done|].
      destruct H as [(_ & -> & _)|[(_ & -> & _)|(_ & H & _)]]; auto. right. right.
      split; [by apply in_range_true|]. rewrite Hu0 by done. apply st_ranges_short.
    - destruct (decode_cont (state e) (codepoint e) c Hst Hc) as (r & rs & st & cp & E & -> & H).
      exists st, cp. split; [done|]. destruct (in_range r.1 r.2 c); [|auto].
      destruct H as (Hrs & _ & H). case_decide as Hd; [auto|]. right. right. split; [done|].
      apply in_range_spec in Hst. destruct Hu as [_ Hu]; [lia|]. rewrite E in Hu. simpl in Hu. rewrite Hrs. lia. }
  cbn [comp_bind]. unfold UTF8_ACCEPT, UTF8_REJECT.
  assert (undumped_chars e <= 3)%nat as H3.
  { destruct (decide (state e = 0)) as [H0|H0]; [rewrite Hu0 by done; lia|].
    destruct Hst as [?|Hst]; [done|]. pose proof (st_ranges_nonempty _ Hst). specialize (Hu H0). lia. }
  destruct (Z.eqb_spec st 0) as [->|H0]; [|destruct (Z.eqb_spec st 1) as [->|H1]].
  - destruct (escape_accept_total ensure c (with_decoded e 0 cp)) as (e' & -> & Hi & _); simpl;
      [destruct ensure; lia|done|]. done.
  - apply (escape_reject_total handler ensure (with_decoded e 1 cp)). done.
  - destruct Hcase as [?|[?|[Hr Hn]]]; [done|done|]. unfold escape_incomplete.
    destruct ensure; cbn [comp_bind].
    + simpl. unfold buffer_inv; simpl. split_and!; try done; try lia. by right.
    + rewrite put_ok by (simpl; lia). simpl. unfold buffer_inv; simpl. rewrite length_app; simpl.
      split_and!; try done; try lia. by right.
Qed.

(** The fuel bound: twice the bytes left, and one turn more for a byte that
    may be read again. *)
Lemma dump_escaped_loop_total handler ensure fuel : forall s e, Forall is_byte s -> buffer_inv ensure e ->
  (2 * length s + (if (0 <? undumped_chars e)%nat then 1 else 0) < fuel)%nat ->
  match dump_escaped_loop fuel handler ensure s e with
  | Ret e' => buffer_inv ensure e'
  | Throw ex => handler = strict /\ ex = type_error 316
  | OutOfFuel => False
  end.
Proof.
  induction fuel as [|fuel IH]; intros s e Hs He Hf; [lia|].
  destruct s as [|c s]; simpl; [done|]. inversion Hs as [|? ? Hc Hs']; subst.
  pose proof (escape_byte_total handler ensure c e Hc He) as Ht.
  destruct (escape_byte handler ensure c e) as [[again e']| |]; simpl in *; [|done|done].
  destruct Ht as [Hi Hag]. destruct again.
  - destruct Hag as [H1 H0]; [done|]. apply IH; [done|done|]. rewrite H0. simpl.
    destruct (Nat.ltb_spec 0 (undumped_chars e)); lia.
  - apply IH; [done|done|]. destruct (0 <? undumped_chars e')%nat; lia.
Qed.

Lemma dump_escaped_total handler ensure s out : Forall is_byte s ->
  (exists out', dump_escaped handler ensure s out = Ret out') \/
  (handler = strict /\ dump_escaped handler ensure s out = Throw (type_error 316)).
Proof.
  intros Hs. unfold dump_escaped. set (e0 := mk_escaper 0 UTF8_ACCEPT [] 0 0 out).
  pose proof (dump_escaped_loop_total handler ensure (S (2 * length s)) s e0 Hs) as Hl.
  destruct (dump_escaped_loop _ handler ensure s e0) as [e|ex|]; cbn [comp_bind].
  - unfold dump_escaped_end. destruct (state e =? UTF8_ACCEPT); [eauto|]. destruct handler; eauto.
  - destruct Hl as [-> ->]; [|simpl; lia|auto]. unfold buffer_inv; simpl. split_and!; try done; try lia. by left.
  - destruct Hl; [|simpl; lia]. unfold buffer_inv; simpl. split_and!; try done; try lia. by left.
Qed.

(** ** Strict mode decides UTF-8 *)

Lemma put_state bs extra e e' : put bs extra e = Ret e' -> state e' = state e.
Proof. unfold put. case_match; [|done]. by intros [= <-]. Qed.

Lemma escape_codepoint_state ensure c e e' : escape_codepoint ensure c e = Ret e' -> state e' = state e.
Proof. unfold escape_codepoint. repeat case_match; apply put_state. Qed.

Lemma escape_byte_strict ensure c e again e' : escape_byte strict ensure c e = Ret (again, e') ->
  again = false /\ exists cp, decode (state e) (codepoint e) (wrapu 8 c) = Ret (state e', cp) /\ state e' <> 1.
Proof.
  unfold escape_byte. destruct (decode _ _ _) as [[st cp]| |]; try done. cbn [comp_bind].
  unfold UTF8_ACCEPT, UTF8_REJECT. destruct (Z.eqb_spec st 0) as [->|]; [|destruct (Z.eqb_spec st 1) as [->|]; [done|]].
  - unfold escape_accept. intros H. inv_comp H. injection H as <- <-.
    match goal with H : comp_bind _ _ = Ret _ |- _ => inv_comp H; injection H as <- end.
    split; [done|]. exists cp. destruct (flush_ok x0) as (_ & _ & Hs). simpl.
    apply escape_codepoint_state in H. rewrite Hs, H. simpl. done.
  - unfold escape_incomplete. intros H. inv_comp H. injection H as <- <-.
    match goal with H : comp_bind _ _ = Ret _ |- _ => inv_comp H; injection H as <- end.
    split; [done|]. exists cp. simpl. destruct ensure; [by simplify_eq/=|]. apply put_state in H. by rewrite H.
Qed.

Lemma strict_valid ensure s : Forall is_byte s -> forall fuel e e',
  dump_escaped_loop fuel strict ensure s e = Ret e' -> state e' = 0 ->
  state e = 0 \/ in_range 2 8 (state e) = true ->
  if decide (state e = 0) then utf8_valid s
  else exists bs s', s = bs ++ s' /\
    Forall2 (fun b r => in_range r.1 r.2 b = true) bs (st_ranges (state e)) /\ utf8_valid s'.
Proof.
  induction 1 as [|c s Hc _ IH]; intros fuel e e' Hl He' He.
  - destruct fuel; injection Hl as <-; rewrite decide_True by done; apply utf8_valid_nil.
  - destruct fuel as [|fuel]; [done|]. cbn [dump_escaped_loop] in Hl.
    apply comp_bind_ret in Hl as ([again e1] & Hb & Hl). apply escape_byte_strict in Hb as (-> & cp & Hd & H1).
    rewrite wrapu_small in Hd by done. specialize (IH fuel e1 e' Hl He'). destruct (decide (state e = 0)) as [H0|H0].
    + rewrite H0 in Hd. destruct (decode_lead (codepoint e) c Hc) as (st & c' & Hd' & Hcase).
            rewrite Hd in Hd'. injection Hd' as Est _.
      destruct Hcase as [(Hlt & -> & _)|[(_ & -> & _)|(_ & Hst & Hr & _)]]; [|done|].
      * rewrite decide_True in IH by done. specialize (IH (or_introl Est)). unfold is_byte in Hc.
        apply (utf8_valid_app [c]); [apply utf8_valid_ascii; lia|done].
      * rewrite decide_False in IH by lia. rewrite Est in IH.
        destruct IH as (bs & s' & -> & Hf & Hv); [right; by apply in_range_true|].
        apply (utf8_valid_app (c :: bs)); [by eapply utf8_ranges_valid|done].
    + destruct He as [?|He]; [done|].
      destruct (decode_cont (state e) (codepoint e) c He Hc) as (r & rs & st & c' & Er & Hd' & Hcase).
      rewrite Hd in Hd'. injection Hd' as Est _. rewrite Er.
      destruct (in_range r.1 r.2 c) eqn:Ein; [|by subst]. destruct Hcase as (Hrs & _ & Hst).
      destruct (decide (rs = [])) as [Hnil|Hnil].
      * subst rs st. rewrite decide_True in IH by done. exists [c], s. rewrite Hnil.
        split_and!; [done|by repeat constructor|]. apply IH. by left.
      * rewrite Est in IH. apply in_range_spec in Hst. rewrite decide_False in IH by lia. apply (in_range_true 2 8) in Hst.
        destruct IH as (bs & s' & -> & Hf & Hv); [by right|]. rewrite Hrs in Hf.
        exists (c :: bs), s'. split_and!; [done|by constructor|done].
Qed.

Lemma dump_escaped_strict_valid ensure s out out' : Forall is_byte s ->
  dump_escaped strict ensure s out = Ret out' -> utf8_valid s.
Proof.
  intros Hs H. apply comp_bind_ret in H as (e & Hl & He). unfold dump_escaped_end in He.
  destruct (Z.eqb_spec (state e) UTF8_ACCEPT) as [Hst|]; [|done].
  apply (strict_valid ensure s Hs) in Hl; simpl in *; auto.
Qed.

(** ** What the serializer promises

    Strict mode rejects exactly the strings that are not UTF-8, no handler
    ever leaves the string buffer, integers are written in decimal; and two
    limits of the indentation buffer. *)

#[local] Existing Instance example_floats.

(** [dump_escaped] with the strict handler returns exactly on valid
    UTF-8, where it appends the escape of each code point, and throws
    [type_error.316] on every other byte string. *)
Theorem dump_escaped_strict ensure s out : Forall is_byte s ->
  (forall cps, Forall is_scalar cps -> s = utf8_encode_all cps ->
     dump_escaped strict ensure s out = Ret (out ++ escape_all ensure cps)) /\
  (~ utf8_valid s -> dump_escaped strict ensure s out = Throw (type_error 316)).
Proof.
  intros Hs. split.
  - intros cps Hc ->. by apply dump_escaped_valid.
  - intros Hn. destruct (dump_escaped_total strict ensure s out Hs) as [[out' E]|[_ E]]; [|done].
    destruct Hn. by eapply dump_escaped_strict_valid.
Qed.

Lemma dump_escaped_strict_witness :
  Forall is_byte [0xC3; 0xA9; 0x0A] /\
  dump_escaped strict true [0xC3; 0xA9; 0x0A] [] = Ret (str "\u00e9\n").
Proof.
  assert (Forall is_byte [0xC3; 0xA9; 0x0A]) as Hb by (repeat constructor; lia).
  split; [exact Hb|].
  apply (proj1 (dump_escaped_strict true [0xC3; 0xA9; 0x0A] [] Hb) [0xE9; 0x0A]).
  - repeat (apply Forall_cons_2; [left; lia|]); apply Forall_nil_2; exact I.
  - reflexivity.
Defined.

(** With the [ignore] and [replace] handlers [dump_escaped] returns for
    every byte string, with the strict one it returns or throws
    [type_error.316]; in particular no access leaves the 512 bytes of
    [string_buffer], terminators of [snprintf] included, and re-reading of
    rejected bytes terminates. *)
Theorem dump_escaped_safe handler ensure s out : Forall is_byte s ->
  (exists out', dump_escaped handler ensure s out = Ret out') \/
  (handler = strict /\ dump_escaped handler ensure s out = Throw (type_error 316)).
Proof. apply dump_escaped_total. Qed.

Lemma dump_escaped_safe_witness :
  Forall is_byte [0xF0; 0x9F; 0x41; 0xFF] /\
  ((exists out', dump_escaped replace true [0xF0; 0x9F; 0x41; 0xFF] [] = Ret out') \/
   (replace = strict /\ dump_escaped replace true [0xF0; 0x9F; 0x41; 0xFF] [] = Throw (type_error 316))).
Proof.
  assert (Forall is_byte [0xF0; 0x9F; 0x41; 0xFF]) as Hb by (repeat constructor; lia).
  split; [exact Hb|apply (dump_escaped_safe replace true _ [] Hb)].
Defined.

(** [dump_integer] writes the decimal representation of every 64-bit
    number, signed or unsigned, within [number_buffer]: the digit count is
    right, no store leaves the buffer and no assertion fails. *)
Theorem dump_integer_decimal x nb : length nb = 64%nat -> - 2 ^ 63 <= x < 2 ^ 64 ->
  exists nb', dump_integer x nb =
    Ret (if x <? 0 then 45 :: to_dec (- x) else to_dec x, nb') /\ length nb' = 64%nat.
Proof. apply dump_integer_ok. Qed.

Lemma dump_integer_decimal_witness :
  exists nb', dump_integer (- 2 ^ 63) (replicate 64 0) = Ret (str "-9223372036854775808", nb') /\
    length nb' = 64%nat.
Proof.
  apply (dump_integer_decimal (- 2 ^ 63) (replicate 64 0)); [reflexivity|lia].
Defined.

(** ** The indentation string *)

Section Indent.
Context {F : Type} `{FloatOps F}.
Variables (c : Z) (ensure : bool) (handler : error_handler_t).

(** The string after the one growth that a container causes. *)
Lemma grow_indent_init n out nb : 512 < n ->
  grow_indent n (mk_serializer out nb (replicate 512 c)) =
    mk_serializer out nb (replicate 512 c ++ replicate 512 32).
Proof.
  intros Hn. unfold grow_indent. cbn [indent_string]. rewrite length_replicate.
  destruct (Z.ltb_spec (Z.of_nat 512) n); [done|lia].
Qed.

Lemma grown_length : Z.of_nat (length (replicate 512 c ++ replicate 512 32)) = 1024.
Proof. by rewrite length_app, !length_replicate. Qed.

(** The indentation string is doubled at most once per container, so for
    every indentation of more than 1025 columns pretty printing of a nested
    value reads past its end. *)
Theorem pretty_dump_overruns (v : json F) indent : 1025 < indent < 2 ^ 31 ->
  dump (value_array [v]) indent c ensure handler = Throw buffer_overrun.
Proof.
  intros Hi. unfold dump. destruct (Z.leb_spec 0 indent); [|lia]. cbn [dump_value].
  unfold dump_array_pretty, serializer_init, write_characters.
  rewrite Z.add_0_l, !wrapu_small by lia. cbn [o number_buffer indent_string].
  rewrite grow_indent_init by lia. cbn [pretty_elements]. unfold write_indent. cbn [indent_string].
  rewrite grown_length. by destruct (Z.leb_spec indent (1024 + 1)); [lia|].
Qed.

(** The indentation string is extended with spaces and not with the
    indentation character that was asked for: from column 513 on the
    indentation consists of spaces. *)
Theorem pretty_dump_fills_spaces indent : 512 < indent <= 1024 ->
  dump (value_array [@value_null F]) indent c ensure handler =
    Ret ([91; 10] ++ replicate 512 c ++ replicate (Z.to_nat (indent - 512)) 32 ++ str "null" ++ [10; 93]).
Proof.
  intros Hi. unfold dump. destruct (Z.leb_spec 0 indent); [|lia]. cbn [dump_value].
  unfold dump_array_pretty, serializer_init, write_characters.
  rewrite Z.add_0_l, !wrapu_small by lia. cbn [o number_buffer indent_string].
  rewrite grow_indent_init by lia. cbn [pretty_elements]. unfold write_indent. cbn [indent_string].
  rewrite grown_length. destruct (Z.leb_spec indent (1024 + 1)); [|lia].
  cbn [comp_bind dump_value]. unfold write_characters. cbn [comp_bind o number_buffer indent_string].
  rewrite grown_length.
  change (0 <=? 1024 + 1) with true. cbn [comp_bind o take]. f_equal.
  rewrite take_app_le by (rewrite length_app, !length_replicate; lia).
  rewrite take_app_ge by (rewrite length_replicate; lia). rewrite length_replicate, take_replicate.
  replace (512 `min` 512)%nat with 512%nat by done.
  replace ((Z.to_nat indent - 512) `min` 512)%nat with (Z.to_nat (indent - 512)) by lia.
  by rewrite app_nil_l, app_nil_r, <- !app_assoc.
Qed.
End Indent.

Lemma pretty_dump_overruns_witness :
  dump (F:=Z) (value_array [value_null]) 1026 32 false strict = Throw buffer_overrun.
Proof. apply (pretty_dump_overruns 32 false strict value_null 1026). lia. Defined.

Lemma pretty_dump_fills_spaces_witness :
  dump (F:=Z) (value_array [value_null]) 513 9 false strict =
    Ret ([91; 10] ++ replicate 512 9 ++ [32] ++ str "null" ++ [10; 93]).
Proof. apply (pretty_dump_fills_spaces 9 false strict 513). lia. Defined.
