(* ===== verification/JsonLexerComplete.v ===== *)
(** The lexer accepts the grammar: scanning the text of a token of
    [JsonGrammar] returns that token with its value and stops right after
    it. *)
From S2P Require Import Prelude CLib Utf8 JsonValue JsonGrammar JsonLexer JsonLexerFacts.

Section Complete.
Context {F : Type} `{FloatOps F}.
Implicit Types (s : lexer F) (p r : bytes).

(** What scanning one piece of text does: the rest [p] is ahead, [bs] was
    added to the buffer. *)
Definition Scanned s s' (bs p : bytes) : Prop :=
  At s' p /\ token_buffer s' = token_buffer s ++ bs /\
  decimal_point_position s' = decimal_point_position s /\
  decimal_point_char s' = decimal_point_char s.

Lemma Scanned_trans s1 s2 s3 a b p q : Scanned s1 s2 a p -> Scanned s2 s3 b q -> Scanned s1 s3 (a ++ b) q.
Proof.
  intros (_ & E1 & P1 & D1) (Ha & E2 & P2 & D2). split_and!; [done| |congruence|congruence].
  by rewrite E2, E1, app_assoc.
Qed.

Lemma Scanned_add s c p : Rd s c p -> is_byte c -> Scanned s (add c s) [c] p.
Proof. intros Hr Hc. split_and!; [eapply Rd_At, Rd_add, Hr|by apply add_buffer|done|done]. Qed.

(** ** Strings *)

Lemma hex_value_digit c d : hex_digit_value c d -> hex_value c = Some d.
Proof.
  unfold hex_value. intros [[Hc ->]|[[Hc ->]|[Hc ->]]].
  - by rewrite in_range_true by lia.
  - by rewrite in_range_out, in_range_true by lia.
  - by rewrite !in_range_out, in_range_true by lia.
Qed.

Lemma code_unit_hex4 h cp s p : hex4 h cp -> At s (h ++ p) ->
  exists s' c, code_unit s = (cp, s') /\ Scanned s s' [] p /\ Rd s' c p.
Proof.
  intros Hh Ha. destruct Hh as [a b c d va vb vc vd H1 H2 H3 H4]. simpl in Ha. unfold code_unit.
  apply At_get in Ha as R1. pose proof (At_get _ _ _ (Rd_At _ _ _ R1)) as R2.
  pose proof (At_get _ _ _ (Rd_At _ _ _ R2)) as R3. pose proof (At_get _ _ _ (Rd_At _ _ _ R3)) as R4.
  rewrite get_codepoint_loop_cons, (proj1 (proj2 R1)), (hex_value_digit _ _ H1).
  rewrite get_codepoint_loop_cons, (proj1 (proj2 R2)), (hex_value_digit _ _ H2).
  rewrite get_codepoint_loop_cons, (proj1 (proj2 R3)), (hex_value_digit _ _ H3).
  rewrite get_codepoint_loop_cons, (proj1 (proj2 R4)), (hex_value_digit _ _ H4).
  eexists _, d. split; [simpl; f_equal; rewrite !Z.shiftl_mul_pow2 by lia; lia|]. split; [|done].
  split_and!; [by eapply Rd_At|by rewrite app_nil_r|done|done].
Qed.

Lemma next_bytes_complete rs : forall bs s c p, Rd s c (bs ++ p) -> Forall is_byte bs ->
  Forall2 (fun b rg => in_range rg.1 rg.2 b = true) bs rs ->
  exists s', next_bytes rs s = (true, s') /\ Scanned s s' bs p.
Proof.
  induction rs as [|[lo hi] rs IH]; intros bs s c p Hr Hb Hf; inversion Hf as [|b ? bs' ? Hin Hf']; subst; simpl.
  - exists s. split; [done|]. split_and!; [by eapply Rd_At|by rewrite app_nil_r|done|done].
  - apply Forall_cons in Hb as [Hb Hbs]. apply Rd_At in Hr. simpl in Hr. apply At_get in Hr.
    simpl in Hin. rewrite (proj1 (proj2 Hr)), Hin. pose proof (Scanned_add _ _ _ Hr Hb) as Hs.
    destruct (IH bs' (add b (get s)) b p (Rd_add _ _ _ _ Hr) Hbs Hf') as (s' & -> & Hs').
    exists s'. split; [done|]. apply (Scanned_trans _ _ _ [b] bs' _ _ Hs Hs').
Qed.

(** A multi-byte character in a string. *)
Lemma scan_string_multibyte_complete b bs s p : utf8_shape (b :: bs) -> bs <> [] -> Forall is_byte (b :: bs) ->
  Rd s b (bs ++ p) -> exists s', scan_string_multibyte s = Ret (Continue s') /\ Scanned s s' (b :: bs) p.
Proof.
  intros Hsh Hne [Hb Hbs]%Forall_cons Hr. destruct (utf8_ranges_shape b bs Hsh Hne) as (rs & Er & Hf).
  unfold scan_string_multibyte. rewrite (proj1 (proj2 Hr)), Er, (next_byte_in_range_ret _ _ _ Er), (proj1 (proj2 Hr)).
  cbn [comp_bind].
  pose proof (Scanned_add _ _ _ Hr Hb) as Hs.
  destruct (next_bytes_complete rs bs (add b s) b p (Rd_add _ _ _ _ Hr) Hbs Hf) as (s' & -> & Hs').
  exists s'. split; [done|]. apply (Scanned_trans _ _ _ [b] bs _ _ Hs Hs').
Qed.

Lemma scan_escape_complete c v s p : Rd s c p ->
  (c, v) ∈ [(34, 34); (92, 92); (47, 47); (98, 8); (102, 12); (110, 10); (114, 13); (116, 9)] ->
  exists s', scan_escape s = Ret (Continue s') /\ Scanned s s' [v] p.
Proof.
  intros Hr Hin. unfold scan_escape. rewrite (proj1 (proj2 Hr)).
  assert (Scanned s (add v s) [v] p) as Hs.
  { split_and!; [eapply Rd_At, Rd_add, Hr| |done|done]. apply add_buffer. unfold is_byte.
    repeat (apply elem_of_cons in Hin as [[= -> ->]|Hin]; [lia|]). by apply elem_of_nil in Hin. }
  repeat (apply elem_of_cons in Hin as [[= -> ->]|Hin]; [simpl; eauto|]). by apply elem_of_nil in Hin.
Qed.

Lemma Scanned_codepoint cp s c p : is_scalar cp -> Rd s c p ->
  Scanned s (add_all (codepoint_bytes cp) s) (utf8_encode cp) p.
Proof.
  intros Hcp Hr. rewrite codepoint_bytes_encode by (destruct Hcp; lia).
  split_and!; [eapply Rd_At, Rd_add_all, Hr| |apply add_all_point|].
  - by apply add_all_buffer, utf8_encode_bytes.
  - generalize (utf8_encode cp). clear. intros bs. revert s.
    induction bs as [|b bs IH]; intros s; [done|]. exact (IH (add b s)).
Qed.

Lemma hex_digit_value_range c d : hex_digit_value c d -> 0 <= d < 16.
Proof. unfold hex_digit_value. lia. Qed.

Lemma hex4_range h cp : hex4 h cp -> 0 <= cp <= 0xFFFF.
Proof.
  intros [a b c d va vb vc vd H1 H2 H3 H4].
  apply hex_digit_value_range in H1, H2, H3, H4. lia.
Qed.

Lemma scan_unicode_escape_complete h cp s p : hex4 h cp -> ~ (0xD800 <= cp <= 0xDFFF) -> Rd s 117 (h ++ p) ->
  exists s', scan_unicode_escape s = Ret (Continue s') /\ Scanned s s' (utf8_encode cp) p.
Proof.
  intros Hh Hcp Hr. pose proof (proj1 (proj2 Hr)) as Hu. apply Rd_At in Hr. pose proof (hex4_range _ _ Hh).
  destruct (code_unit_hex4 _ _ _ _ Hh Hr) as (s1 & c1 & E & Hs & Hr1).
  unfold scan_unicode_escape. rewrite get_codepoint_unit, E by done. cbn [comp_bind].
  destruct (Z.eqb_spec cp (-1)); [lia|].
  rewrite !in_range_out, add_codepoint_scalar by (unfold is_scalar; lia). eexists. split; [done|].
  eapply (Scanned_trans _ _ _ []); [done|]. eapply Scanned_codepoint; [|done]. unfold is_scalar. lia.
Qed.

Lemma scan_surrogates_complete h1 h2 u1 u2 s p : hex4 h1 u1 -> hex4 h2 u2 ->
  0xD800 <= u1 <= 0xDBFF -> 0xDC00 <= u2 <= 0xDFFF -> Rd s 117 (h1 ++ [92; 117] ++ h2 ++ p) ->
  exists s', scan_unicode_escape s = Ret (Continue s') /\
    Scanned s s' (utf8_encode (0x10000 + (u1 - 0xD800) * 1024 + (u2 - 0xDC00))) p.
Proof.
  intros H1 H2 Hu1 Hu2 Hr. pose proof (proj1 (proj2 Hr)) as Hu. apply Rd_At in Hr.
  destruct (code_unit_hex4 _ _ _ _ H1 Hr) as (s1 & c1 & E1 & Hs1 & Hr1).
  unfold scan_unicode_escape. rewrite get_codepoint_unit, E1 by done. cbn [comp_bind]. destruct (Z.eqb_spec u1 (-1)); [lia|]. rewrite in_range_true by lia.
  apply Rd_At, At_get in Hr1 as R1. rewrite (proj1 (proj2 R1)). simpl.
  apply Rd_At, At_get in R1 as R2. rewrite (proj1 (proj2 R2)). simpl.
  destruct (code_unit_hex4 _ _ _ _ H2 (Rd_At _ _ _ R2)) as (s2 & c2 & E2 & Hs2 & Hr2).
  rewrite get_codepoint_unit, E2 by apply R2. cbn [comp_bind].
  destruct (Z.eqb_spec u2 (-1)); [lia|]. rewrite in_range_true by lia. change (wrapu 32 (wrapu 32 (Z.shiftl u1 10 + u2) - 56613888)) with (pair_codepoint u1 u2).
  rewrite pair_codepoint_eq, add_codepoint_scalar by (done || (right; lia)). eexists. split; [done|].
  assert (Scanned s s2 [] p) as Hs.
  { destruct Hs1 as (_ & Eb & Ep & Ed), Hs2 as (Ha & Eb' & Ep' & Ed').
    split_and!; [done|rewrite Eb', app_nil_r; exact Eb|rewrite Ep'; exact Ep|rewrite Ed'; exact Ed]. }
  eapply (Scanned_trans _ _ _ []); [done|]. eapply Scanned_codepoint; [|done]. unfold is_scalar. lia.
Qed.

(** One character of a string. *)
Lemma Scanned_get s s' bs p : Scanned (get s) s' bs p -> Scanned s s' bs p.
Proof. done. Qed.

Lemma scan_string_item t v s p : string_item t v -> At s (t ++ p) ->
  exists s', scan_string_body (get s) = Ret (Continue s') /\ Scanned s s' v p.
Proof.
  intros Ht Ha. destruct Ht as [cp Hcp H20 H22 H5C|c v Hin|h cp Hh Hcp|h1 h2 u1 u2 Hh1 Hh2 Hu1 Hu2].
  - pose proof (utf8_encode_shape cp Hcp) as Hsh. pose proof (utf8_encode_bytes cp Hcp) as Hb.
    destruct (utf8_encode cp) as [|b bs] eqn:E; [by apply utf8_encode_nonempty in E|].
    simpl in Ha. apply At_get in Ha. unfold scan_string_body. rewrite (proj1 (proj2 Ha)).
    apply Forall_cons in Hb as Hbb. destruct Hbb as [Hb0 _]. unfold is_byte in Hb0. unfold EOF.
    destruct (Z_lt_ge_dec cp 0x80).
    + unfold utf8_encode in E. destruct (Z.ltb_spec cp 0x80); [|lia]. injection E as -> <-.
      destruct (Z.eqb_spec b (-1)); [lia|]. destruct (Z.eqb_spec b 34); [lia|]. destruct (Z.eqb_spec b 92); [lia|].
      rewrite in_range_out, in_range_true by lia. eexists. split; [done|]. by apply Scanned_get, Scanned_add.
    + assert (0x80 <= b /\ bs <> []) as [H80 Hne].
      { unfold utf8_encode, is_scalar in *. zcases; try lia; injection E as <- <-; split; try done; dlia. }
      destruct (Z.eqb_spec b (-1)); [lia|]. destruct (Z.eqb_spec b 34); [lia|]. destruct (Z.eqb_spec b 92); [lia|].
      rewrite !in_range_out by lia.
      destruct (scan_string_multibyte_complete b bs (get s) p Hsh Hne Hb Ha) as (s' & -> & Hs). eauto.
  - simpl in Ha. apply At_get in Ha. unfold scan_string_body. rewrite (proj1 (proj2 Ha)). simpl.
    apply Rd_At, At_get in Ha. destruct (scan_escape_complete c v _ p Ha Hin) as (s' & -> & Hs). eauto.
  - simpl in Ha. apply At_get in Ha. unfold scan_string_body. rewrite (proj1 (proj2 Ha)). simpl.
    apply Rd_At, At_get in Ha. unfold scan_escape. rewrite (proj1 (proj2 Ha)). simpl.
    destruct (scan_unicode_escape_complete h cp _ p Hh Hcp Ha) as (s' & -> & Hs). eauto.
  - simpl in Ha. apply At_get in Ha. unfold scan_string_body. rewrite (proj1 (proj2 Ha)). simpl.
    apply Rd_At, At_get in Ha. unfold scan_escape. rewrite (proj1 (proj2 Ha)). simpl.
    rewrite <- app_assoc in Ha.
    destruct (scan_surrogates_complete h1 h2 u1 u2 _ p Hh1 Hh2 Hu1 Hu2 Ha) as (s' & -> & Hs). eauto.
Qed.

Lemma string_item_nonempty t v : string_item t v -> (0 < length t)%nat.
Proof.
  intros [cp| | |]; simpl; try lia. destruct (utf8_encode cp) eqn:E; simpl; [by apply utf8_encode_nonempty in E|lia].
Qed.

Lemma scan_string_loop_complete t v : string_body t v -> forall s p fuel, At s (t ++ [34] ++ p) ->
  (length t < fuel)%nat ->
  exists s', scan_string_loop fuel s = Ret (tok_string, s') /\ Scanned s s' v p.
Proof.
  induction 1 as [|t v ts vs Ht _ IH]; intros s p [|fuel] Ha Hf; simpl in Hf; try lia.
  - simpl in Ha. apply At_get in Ha. simpl. unfold scan_string_body. rewrite (proj1 (proj2 Ha)). simpl.
    eexists. split; [done|]. split_and!; [by eapply Rd_At|by rewrite app_nil_r|done|done].
  - rewrite <- app_assoc in Ha. pose proof (string_item_nonempty _ _ Ht). rewrite length_app in Hf.
    destruct (scan_string_item _ _ _ _ Ht Ha) as (s1 & E & Hs1). cbn [scan_string_loop]. rewrite E. cbn [comp_bind].
    destruct (IH s1 p fuel) as (s2 & -> & Hs2); [by apply Hs1|lia|].
    exists s2. split; [done|]. by eapply Scanned_trans.
Qed.

Lemma scan_string_complete t v s p : string_body t v -> Rd s 34 (t ++ [34] ++ p) ->
  exists s', scan_string s = Ret (tok_string, s') /\ At s' p /\ get_string s' = v /\
    decimal_point_char s' = decimal_point_char s.
Proof.
  intros Ht Hr. rewrite scan_string_reset by apply Hr. apply Rd_reset, Rd_At in Hr.
  destruct (scan_string_loop_complete t v Ht (reset s) p (S (remaining (reset s))) Hr) as (s' & -> & Ha & Eb & Ep & Ed).
  { apply remaining_At in Hr. rewrite length_app in Hr. lia. }
  exists s'. split_and!; [done|done| |done]. unfold get_string. rewrite Ep. exact Eb.
Qed.

(** ** Numbers *)

(** What may follow a number: nothing that would continue it. *)
Definition follow p : Prop :=
  is_digit (hd EOF p) = false /\ hd EOF p <> 46 /\ is_exp (hd EOF p) = false.

(** The labels that loop over digits. *)
Definition digit_label (st : num_state) (nt : token_type) : Prop :=
  st = num_any1 \/ (st = num_decimal2 /\ nt = tok_float) \/ (st = num_any2 /\ nt = tok_float).

Lemma run_digit st nt s d p fuel : digit_label st nt -> 48 <= d <= 57 -> At s (d :: p) ->
  exists s', scan_number_loop (S fuel) st nt s = scan_number_loop fuel st nt s' /\
    At s' p /\ token_buffer s' = token_buffer s ++ [d] /\ decimal_point_char s' = decimal_point_char s.
Proof.
  intros Hst Hd Ha. pose proof (At_head _ _ _ Ha) as Hb. apply At_get in Ha as Hr.
  exists (add d (get s)). split; [|split_and!; [eapply Rd_At, Rd_add, Hr|by rewrite add_buffer|done]].
  destruct Hst as [->|[[-> ->]|[-> ->]]]; cbn [scan_number_loop scan_number_label];
    unfold scan_number_any1, scan_number_decimal2, scan_number_any2;
    rewrite (proj1 (proj2 Hr)), (proj2 (is_digit_spec d)) by done; done.
Qed.

Lemma run_digits st nt ds : digit_label st nt -> all_digits ds -> forall s p fuel, At s (ds ++ p) ->
  exists s', scan_number_loop (length ds + fuel) st nt s = scan_number_loop fuel st nt s' /\
    At s' p /\ token_buffer s' = token_buffer s ++ ds /\ decimal_point_char s' = decimal_point_char s.
Proof.
  intros Hst. induction 1 as [|d ds Hd _ IH]; intros s p fuel Ha.
  - exists s. split_and!; [done|done|by rewrite app_nil_r|done].
  - simpl in Ha. cbn [length Nat.add].
    destruct (run_digit st nt s d (ds ++ p) (length ds + fuel) Hst Hd Ha) as (s1 & -> & Ha1 & E1 & D1).
    destruct (IH s1 p fuel Ha1) as (s2 & -> & Ha2 & E2 & D2). exists s2.
    split_and!; [done|done| |congruence]. by rewrite E2, E1, <- app_assoc.
Qed.

(** The labels after the integer part. *)
Definition int_label (st : num_state) : Prop := st = num_zero \/ st = num_any1.

Lemma run_frac st nt fr s p fuel : int_label st -> frac_part fr -> At s (fr ++ p) ->
  exists s', scan_number_loop (length fr + fuel) st nt s = scan_number_loop fuel num_decimal2 tok_float s' /\
    At s' p /\ token_buffer s' = token_buffer s ++ localized (decimal_point_char s) fr /\
    decimal_point_char s' = decimal_point_char s.
Proof.
  intros Hst [d ds Hd Hds] Ha. simpl in Ha. cbn [length Nat.add].
  pose proof (At_get _ _ _ Ha) as Hr.
  set (s1 := add_point (get s)).
  assert (Rd s1 46 (d :: ds ++ p)) as Hr1.
  { exact (Rd_add _ _ _ (decimal_point_char (get s)) Hr). }
  assert (scan_number_loop (S (S (length ds + fuel))) st nt s =
          scan_number_loop (S (length ds + fuel)) num_decimal1 nt s1) as ->.
  { destruct Hst as [-> | ->]; cbn [scan_number_loop scan_number_label];
      unfold scan_number_zero, scan_number_any1; rewrite (proj1 (proj2 Hr)); done. }
  pose proof (Rd_get _ _ _ Hr1) as Hr3. simpl in Hr3.
  assert (scan_number_loop (S (length ds + fuel)) num_decimal1 nt s1 =
          scan_number_loop (length ds + fuel) num_decimal2 tok_float (add d (get s1))) as ->.
  { cbn [scan_number_loop scan_number_label]. unfold scan_number_decimal1.
    rewrite (proj1 (proj2 Hr3)), (proj2 (is_digit_spec d)) by done. done. }
  destruct (run_digits num_decimal2 tok_float ds ltac:(right; left; done) Hds (add d (get s1)) p fuel)
    as (s2 & -> & Ha2 & E2 & D2); [eapply Rd_At, Rd_add, Hr3|].
  exists s2. split_and!; [done|done| |by rewrite D2].
  assert (localized (decimal_point_char s) (46 :: d :: ds) = wrapu 8 (decimal_point_char s) :: d :: ds) as ->.
  { unfold localized. simpl. destruct (Z.eqb_spec d 46); [lia|]. do 2 f_equal.
    clear -Hds. induction Hds as [|c ds Hc _ IH]; simpl; [done|]. rewrite IH. by destruct (Z.eqb_spec c 46); [lia|]. }
  rewrite E2, add_buffer by (unfold is_byte; lia). unfold s1, add_point. simpl.
  rewrite <- !app_assoc. done.
Qed.

Definition mantissa_label (st : num_state) : Prop := int_label st \/ st = num_decimal2.

Lemma run_exp st nt ex s p fuel : mantissa_label st -> exp_part ex -> At s (ex ++ p) ->
  exists s', scan_number_loop (length ex + fuel) st nt s = scan_number_loop fuel num_any2 tok_float s' /\
    At s' p /\ token_buffer s' = token_buffer s ++ ex /\ decimal_point_char s' = decimal_point_char s.
Proof.
  intros Hst Hex Ha.
  assert (exists e rest, ex = e :: rest /\ (e = 101 \/ e = 69)) as (e & rest & Eex & He)
    by (destruct Hex; eauto).
  rewrite Eex in Ha. simpl in Ha. pose proof (At_head _ _ _ Ha) as Hbe. apply At_get in Ha as Hr.
  assert (scan_number_loop (length ex + fuel) st nt s =
          scan_number_loop (length rest + fuel) num_exponent nt (add e (get s))) as ->.
  { rewrite Eex. cbn [length Nat.add]. destruct Hst as [[-> | ->] | ->]; cbn [scan_number_loop scan_number_label];
      unfold scan_number_zero, scan_number_any1, scan_number_decimal2; rewrite (proj1 (proj2 Hr));
      by destruct He as [-> | ->]. }
  assert (token_buffer (add e (get s)) = token_buffer s ++ [e]) as Eb by (by rewrite add_buffer).
  assert (decimal_point_char (add e (get s)) = decimal_point_char s) as Ed by done.
  apply (Rd_add _ _ _ e), Rd_At in Hr. revert Hr Eb Ed. generalize (add e (get s)). intros s1 Hr Eb Ed.
  destruct Hex as [e' d ds _ Hd Hds|e' sg d ds _ Hsg Hd Hds]; injection Eex as -> <-; simpl in Hr; cbn [length Nat.add].
  - pose proof (At_head _ _ _ Hr) as Hbd. apply At_get in Hr as Hr1.
    assert (scan_number_loop (S (length ds + fuel)) num_exponent nt s1 =
            scan_number_loop (length ds + fuel) num_any2 tok_float (add d (get s1))) as ->.
    { cbn [scan_number_loop scan_number_label]. unfold scan_number_exponent. rewrite (proj1 (proj2 Hr1)).
      destruct (Z.eqb_spec d 43); [lia|]. destruct (Z.eqb_spec d 45); [lia|].
      by rewrite (proj2 (is_digit_spec d)). }
    destruct (run_digits num_any2 tok_float ds ltac:(right; right; done) Hds (add d (get s1)) p fuel)
      as (s2 & -> & Ha2 & E2 & D2); [eapply Rd_At, Rd_add, Hr1|].
    exists s2. split_and!; [done|done| |by rewrite D2]. rewrite E2, add_buffer by done.
    change (token_buffer (get s1)) with (token_buffer s1). by rewrite Eb, <- !app_assoc.
  - pose proof (At_head _ _ _ Hr) as Hbs. apply At_get in Hr as Hr1. pose proof (Rd_get _ _ _ (Rd_add _ _ _ sg Hr1)) as Hr2.
    simpl in Hr2.
    assert (scan_number_loop (S (S (length ds + fuel))) num_exponent nt s1 =
            scan_number_loop (length ds + fuel) num_any2 tok_float (add d (get (add sg (get s1))))) as ->.
    { cbn [scan_number_loop scan_number_label]. unfold scan_number_exponent. rewrite (proj1 (proj2 Hr1)).
      assert ((sg =? 43) || (sg =? 45) = true) as -> by (by destruct Hsg as [-> | ->]).
      cbn [scan_number_loop scan_number_label]. unfold scan_number_sign. rewrite (proj1 (proj2 Hr2)).
      by rewrite (proj2 (is_digit_spec d)). }
    destruct (run_digits num_any2 tok_float ds ltac:(right; right; done) Hds (add d (get (add sg (get s1)))) p fuel)
      as (s2 & -> & Ha2 & E2 & D2); [eapply Rd_At, Rd_add, Hr2|].
    exists s2. split_and!; [done|done| |by rewrite D2]. rewrite E2, add_buffer by (unfold is_byte; lia).
    change (token_buffer (get (add sg (get s1)))) with (token_buffer (add sg (get s1))).
    rewrite add_buffer by done. change (token_buffer (get s1)) with (token_buffer s1). by rewrite Eb, <- !app_assoc.
Qed.

(** The first digits of a number. *)
Lemma int_part_run ds : int_part ds -> exists d rest st,
  ds = d :: rest /\ all_digits rest /\ int_label st /\ 48 <= d <= 57 /\
  ((st = num_zero /\ d = 48 /\ rest = []) \/ (st = num_any1 /\ 49 <= d <= 57)).
Proof.
  intros [|d ds' Hd Hds].
  - exists 48, [], num_zero. split_and!; first [done|by left|by constructor|lia].
  - exists d, ds', num_any1. split_and!; first [done|by right|lia].
Qed.

Lemma run_rest st nt rest s p fuel : int_label st -> all_digits rest -> (st = num_zero -> rest = []) ->
  At s (rest ++ p) ->
  exists s', scan_number_loop (length rest + fuel) st nt s = scan_number_loop fuel st nt s' /\
    At s' p /\ token_buffer s' = token_buffer s ++ rest /\ decimal_point_char s' = decimal_point_char s.
Proof.
  intros [-> | ->] Hr H0 Ha; [|by apply run_digits; [left|..]].
  rewrite H0 in * by done. exists s. split_and!; [done|done|by rewrite app_nil_r|done].
Qed.

Lemma run_int sign ds c rest s p : sign = [] \/ sign = [45] -> int_part ds ->
  c :: rest = sign ++ ds ++ p -> Rd s c rest ->
  exists st s' fuel, scan_number s =
      scan_number_loop fuel st (if decide (sign = []) then tok_unsigned else tok_integer) s' /\
    int_label st /\ At s' p /\ token_buffer s' = sign ++ ds /\
    decimal_point_char s' = decimal_point_char s /\ (length p < fuel)%nat.
Proof.
  intros Hsign Hds Ec Hr. destruct (int_part_run ds Hds) as (d & ds' & st & -> & Hds' & Hst & Hd & Hcase).
  apply Rd_reset in Hr. assert (is_byte c) as Hbc.
  { destruct Hsign as [-> | ->]; injection Ec as -> _; unfold is_byte; lia. }
  assert (st = num_zero -> ds' = []) as Hz by (destruct Hcase as [(_ & _ & ->)|[-> _]]; done).
  unfold scan_number. change (cur (reset s)) with (current (inp (reset s))).
  replace (current (inp (reset s))) with c by (symmetry; apply Hr).
  set (n := remaining (reset s)). assert (length rest <= n)%nat as Hn by apply (remaining_At _ _ (Rd_At _ _ _ Hr)).
  assert (token_buffer (add c (reset s)) = [c]) as Eb by (by rewrite add_buffer).
  pose proof (Rd_add _ _ _ c Hr) as Hr1. revert Hr1 Eb.
  assert (decimal_point_char (add c (reset s)) = decimal_point_char s) as Ed by done.
  revert Ed. generalize (add c (reset s)). intros s1 Ed Hr1 Eb. apply Rd_At in Hr1.
  destruct Hsign as [-> | ->]; injection Ec as -> ->; simpl in Hn, Hr1; rewrite ?length_app in Hn; simpl in Hn.
  - destruct (run_rest st tok_unsigned ds' s1 p (S n - length ds') Hst Hds' Hz Hr1) as (s2 & E & Ha & E2 & D2).
    exists st, s2, (S n - length ds')%nat. split_and!; [|done|done|by rewrite E2, Eb|congruence|lia].
    rewrite decide_True by done. rewrite <- E. replace (length ds' + (S n - length ds'))%nat with (S n) by lia.
    destruct (Z.eqb_spec d 45); [lia|].
    destruct Hcase as [(-> & -> & ->)|[-> Hd']]; [done|].
    destruct (Z.eqb_spec d 48); [lia|]. by rewrite in_range_true by lia.
  - rewrite decide_False by done. simpl in Hr1, Hn. pose proof (At_get _ _ _ Hr1) as Hr2.
    destruct (run_rest st tok_integer ds' (add d (get s1)) p (n - length ds') Hst Hds' Hz) as (s2 & E & Ha & E2 & D2).
    { eapply Rd_At, Rd_add, Hr2. }
    exists st, s2, (n - length ds')%nat. split_and!; [|done|done| |rewrite D2; exact Ed|lia].
    + rewrite <- E. replace (length ds' + (n - length ds'))%nat with n by lia. simpl.
      unfold scan_number_minus. rewrite (proj1 (proj2 Hr2)).
      destruct Hcase as [(-> & -> & ->)|[-> Hd']]; [done|].
      destruct (Z.eqb_spec d 48); [lia|]. by rewrite in_range_true by lia.
    + rewrite E2, add_buffer by (unfold is_byte; lia). change (token_buffer (get s1)) with (token_buffer s1).
      by rewrite Eb.
Qed.

(** The end of a number. *)
Lemma run_done st nt s p fuel : mantissa_label st \/ st = num_any2 -> follow p -> At s p ->
  scan_number_loop (S fuel) st nt s = scan_number_done nt (get s).
Proof.
  intros Hst (H1 & H2 & H3) Ha. apply get_At in Ha as Hr.
  destruct Hst as [[[-> | ->] | ->] | ->]; cbn [scan_number_loop scan_number_label];
    unfold scan_number_zero, scan_number_any1, scan_number_decimal2, scan_number_any2;
    rewrite (proj1 (proj2 Hr)), ?H1, ?H3; try (destruct (Z.eqb_spec (hd EOF p) 46); [done|]); by destruct fuel.
Qed.

(** The value of a scalar token. *)
Definition token_json (t : token_type) (s : lexer F) : option (json F) :=
  match t with
  | literal_null => Some value_null
  | literal_true => Some (value_boolean true)
  | literal_false => Some (value_boolean false)
  | tok_string => Some (value_string (get_string s))
  | tok_unsigned => Some (value_number_unsigned (value_unsigned s))
  | tok_integer => Some (value_number_integer (value_integer s))
  | tok_float => if isfinite (value_float s) then Some (value_number_float (value_float s)) else None
  | _ => None
  end.

Definition scalar_scanned s p (j : json F) (r : comp (token_type * lexer F)) : Prop :=
  exists t s', r = Ret (t, s') /\ token_json t s' = Some j /\ At s' p /\
    decimal_point_char s' = decimal_point_char s.

(** The end of a number: [scan_number_done] after the character that ended
    it. *)
Lemma float_scanned s p : isfinite (strtod (token_buffer s)) = true -> At s p ->
  scalar_scanned s p (value_number_float (strtod (token_buffer s)))
    (Ret (tok_float, with_float (back (get s)) (strtod (token_buffer s)))).
Proof.
  intros Hf Ha. eexists _, _. split; [done|]. simpl. rewrite Hf. split_and!; [done|exact (back_get _ _ Ha)|done].
Qed.

Lemma int_part_no_minus ds ds' : int_part ds -> ds <> 45 :: ds'.
Proof. intros [|d rest Hd _] [= ]; lia. Qed.

Lemma done_unsigned s p ds : At s p -> int_part ds -> token_buffer s = ds ->
  scalar_scanned s p
    (if dec_value ds <? 2 ^ 64 then value_number_unsigned (dec_value ds) else value_number_float (strtod ds))
    (scan_number_done tok_unsigned (get s)) \/
  (2 ^ 64 <= dec_value ds /\ isfinite (strtod ds) = false).
Proof.
  intros Ha Hds Eb. assert (token_buffer (get s) = localized (decimal_point_char (get s)) ds) as Hb.
  { rewrite (localized_int _ [] ds); [exact Eb|by left|done]. }
  assert (num_read num_done tok_unsigned ds) as Hr by (apply (read_int []); [by left|done]).
  destruct (scan_number_done_cases _ _ _ _ _ (get_At _ _ Ha) Hr Hb)
    as [[-> [?|(ds' & Hd' & _ & [[-> Hv]|[E _]])]]|(ds' & Hd' & [(-> & Hv & ->)|(E & _)])];
    try done; try (by apply int_part_no_minus in E).
  - destruct (isfinite (strtod ds')) eqn:Ef; [left|right; split; [lia|done]].
    destruct (Z.ltb_spec (dec_value ds') (2 ^ 64)); [lia|].
    change (token_buffer (get s)) with (token_buffer s). rewrite <- Eb. apply float_scanned; [by rewrite Eb|done].
  - left. destruct (Z.ltb_spec (dec_value ds') (2 ^ 64)); [|lia].
    eexists _, _. split; [done|]. split_and!; [done|exact (back_get _ _ Ha)|done].
Qed.

Lemma done_negative s p ds : At s p -> int_part ds -> token_buffer s = 45 :: ds ->
  scalar_scanned s p
    (if dec_value ds <=? 2 ^ 63 then value_number_integer (- dec_value ds)
     else value_number_float (strtod (45 :: ds)))
    (scan_number_done tok_integer (get s)) \/
  (2 ^ 63 < dec_value ds /\ isfinite (strtod (45 :: ds)) = false).
Proof.
  intros Ha Hds Eb. assert (token_buffer (get s) = localized (decimal_point_char (get s)) (45 :: ds)) as Hb.
  { rewrite (localized_int _ [45] ds); [exact Eb|by right|done]. }
  assert (num_read num_done tok_integer (45 :: ds)) as Hr by (apply (read_int [45]); [by right|done]).
  destruct (scan_number_done_cases _ _ _ _ _ (get_At _ _ Ha) Hr Hb)
    as [[-> [?|(ds' & Hd' & _ & [[E _]|[[= ->] Hv]])]]|(ds' & Hd' & [(E & _)|([= ->] & Hv & ->)])];
    try done; try (symmetry in E; by apply int_part_no_minus in E).
  - destruct (isfinite (strtod (45 :: ds'))) eqn:Ef; [left|right; split; [lia|done]].
    destruct (Z.leb_spec (dec_value ds') (2 ^ 63)); [lia|].
    change (token_buffer (get s)) with (token_buffer s). rewrite <- Eb. apply float_scanned; [by rewrite Eb|done].
  - left. destruct (Z.leb_spec (dec_value ds') (2 ^ 63)); [|lia].
    eexists _, _. split; [done|]. split_and!; [done|exact (back_get _ _ Ha)|done].
Qed.

Lemma run_tail st nt fr ex s p fuel : int_label st -> fr = [] \/ frac_part fr -> ex = [] \/ exp_part ex ->
  fr ++ ex <> [] -> At s (fr ++ ex ++ p) -> follow p -> (length (fr ++ ex ++ p) < fuel)%nat ->
  exists s', scan_number_loop fuel st nt s = scan_number_done tok_float (get s') /\ At s' p /\
    token_buffer s' = token_buffer s ++ localized (decimal_point_char s) (fr ++ ex) /\
    decimal_point_char s' = decimal_point_char s.
Proof.
  intros Hst Hfr Hex Hne Ha Hp Hf. rewrite !length_app in Hf. destruct Hfr as [->|Hfr].
  - destruct Hex as [->|Hex]; [done|]. simpl in *.
    destruct (run_exp st nt ex s p (S (fuel - length ex - 1))) as (s1 & E & Ha1 & E1 & D1); [by left|done|done|].
    exists s1. replace (length ex + S (fuel - length ex - 1))%nat with fuel in E by lia.
    rewrite E, (run_done _ _ _ p) by (auto; by right). by rewrite localized_exp.
  - destruct (run_frac st nt fr s (ex ++ p) (S (fuel - length fr - 1)) Hst Hfr Ha) as (s1 & E & Ha1 & E1 & D1).
    replace (length fr + S (fuel - length fr - 1))%nat with fuel in E by lia. rewrite E.
    destruct Hex as [->|Hex].
    + exists s1. rewrite app_nil_r. rewrite (run_done _ _ _ p) by (auto; left; by right). done.
    + destruct (run_exp num_decimal2 tok_float ex s1 p (S (fuel - length fr - length ex - 1))) as (s2 & E' & Ha2 & E2 & D2);
        [by right|done|done|].
      replace (length ex + S (fuel - length fr - length ex - 1))%nat with (S (fuel - length fr - 1)) in E' by lia.
      exists s2. rewrite E', (run_done _ _ _ p) by (auto; by right). split_and!; [done|done| |congruence].
      by rewrite E2, E1, localized_app, (localized_exp _ ex), <- app_assoc by done.
Qed.

Lemma scalar_scanned_cfg s s' p j (r : comp (token_type * lexer F)) : decimal_point_char s' = decimal_point_char s ->
  scalar_scanned s' p j r -> scalar_scanned s p j r.
Proof. intros E (t & s1 & ? & ? & ? & ?). exists t, s1. split_and!; congruence. Qed.

Lemma scan_number_complete dp j t c rest s p : number_text dp j t -> c :: rest = t ++ p -> Rd s c rest ->
  follow p -> decimal_point_char s = dp -> scalar_scanned s p j (scan_number s).
Proof.
  intros Ht Ec Hr Hp Hdp.
  assert (Hint : forall sign ds, sign = [] \/ sign = [45] -> int_part ds -> t = sign ++ ds ->
    exists s', scan_number s = scan_number_done (if decide (sign = []) then tok_unsigned else tok_integer) (get s') /\
      At s' p /\ token_buffer s' = sign ++ ds /\ decimal_point_char s' = decimal_point_char s).
  { intros sign ds Hs Hds ->. rewrite <- app_assoc in Ec.
    destruct (run_int sign ds c rest s p Hs Hds Ec Hr) as (st & s' & fuel & E & Hst & Ha & Eb & Ed & Hf).
    destruct fuel as [|fuel]; [lia|]. exists s'. rewrite E, (run_done _ _ _ p) by (auto; left; by left). done. }
  destruct Ht as [ds Hds Hv|ds Hds Hv|ds Hds Hv Hfin|ds Hds Hv Hfin|sign ds fr ex Hs Hds Hfr Hex Hne t Hfin].
  - destruct (Hint [] ds (or_introl eq_refl) Hds eq_refl) as (s' & -> & Ha & Eb & Ed).
    eapply scalar_scanned_cfg; [done|].
    destruct (done_unsigned s' p ds Ha Hds Eb) as [Hd|[? _]]; [|lia].
    by destruct (Z.ltb_spec (dec_value ds) (2 ^ 64)); [|lia].
  - destruct (Hint [45] ds (or_intror eq_refl) Hds eq_refl) as (s' & -> & Ha & Eb & Ed).
    eapply scalar_scanned_cfg; [done|].
    destruct (done_negative s' p ds Ha Hds Eb) as [Hd|[? _]]; [|lia].
    by destruct (Z.leb_spec (dec_value ds) (2 ^ 63)); [|lia].
  - destruct (Hint [] ds (or_introl eq_refl) Hds eq_refl) as (s' & -> & Ha & Eb & Ed).
    eapply scalar_scanned_cfg; [done|].
    destruct (done_unsigned s' p ds Ha Hds Eb) as [Hd|[_ ?]]; [|congruence].
    by destruct (Z.ltb_spec (dec_value ds) (2 ^ 64)); [lia|].
  - destruct (Hint [45] ds (or_intror eq_refl) Hds eq_refl) as (s' & -> & Ha & Eb & Ed).
    eapply scalar_scanned_cfg; [done|].
    destruct (done_negative s' p ds Ha Hds Eb) as [Hd|[_ ?]]; [|congruence].
    by destruct (Z.leb_spec (dec_value ds) (2 ^ 63)); [lia|].
  - clear Hint. unfold t in Ec. rewrite <- !app_assoc in Ec.
    destruct (run_int sign ds c rest s (fr ++ ex ++ p) Hs Hds Ec Hr) as (st & s1 & fuel & -> & Hst & Ha & Eb & Ed & Hf).
    destruct (run_tail st (if decide (sign = []) then tok_unsigned else tok_integer) fr ex s1 p fuel)
      as (s2 & -> & Ha2 & E2 & D2); try done.
    assert (t = ((sign ++ ds) ++ fr) ++ ex) as Et by (unfold t; by rewrite <- !app_assoc).
    assert (token_buffer s2 = localized dp t) as Eb2.
    { replace t with ((sign ++ ds) ++ fr ++ ex) by (by rewrite Et, <- app_assoc).
      by rewrite E2, Eb, Ed, Hdp, (localized_app _ (sign ++ ds)), (localized_int _ sign ds). }
    assert (num_read num_done tok_float t) as Hread by (rewrite Et; by constructor).
    assert (scan_number_done tok_float (get s2) =
            Ret (tok_float, with_float (back (get s2)) (strtod (token_buffer s2)))) as ->.
    { unfold scan_number_done. rewrite (unget_get _ _ Ha2). cbn [comp_bind].
      apply (scan_number_float_ret (back (get s2)) tok_float t); [apply (back_get _ _ Ha2)|done|].
      change (token_buffer s2 = localized (decimal_point_char s2) t). congruence. }
    rewrite <- Eb2. eapply scalar_scanned_cfg; [|apply (float_scanned s2 p)].
    + congruence.
    + by rewrite Eb2.
    + done.
Qed.

(** ** [scan] *)

Lemma is_ws_spec c : is_ws c = true <-> ws_char c.
Proof. unfold is_ws, ws_char. rewrite !orb_true_iff, !Z.eqb_eq. tauto. Qed.

Lemma skip_ws_loop_complete w : ws w -> forall s p fuel, At s (w ++ p) -> is_ws (hd EOF p) = false ->
  (length w < fuel)%nat ->
  exists s', skip_whitespace_loop fuel s = Ret s' /\ Rd s' (hd EOF p) (tail p) /\
    decimal_point_char s' = decimal_point_char s.
Proof.
  induction 1 as [|c w Hc _ IH]; intros s p [|fuel] Ha Hp Hf; simpl in Hf; try lia; simpl.
  - simpl in Ha. pose proof (get_At _ _ Ha) as Hr. rewrite (proj1 (proj2 Hr)), Hp. by exists (get s).
  - simpl in Ha. apply At_get in Ha. apply is_ws_spec in Hc. rewrite (proj1 (proj2 Ha)), Hc.
    destruct (IH (get s) p fuel) as (s' & -> & Hr & Ed); [by eapply Rd_At|done|lia|]. by exists s'.
Qed.

(** [scan] goes to the first character that is not white space. *)
Lemma scan_begin s w p : At s (w ++ p) -> ws w ->
  is_ws (hd EOF p) = false -> hd EOF p <> 0xEF -> hd EOF p <> 47 ->
  exists s', scan s = scan_token s' /\ Rd s' (hd EOF p) (tail p) /\
    decimal_point_char s' = decimal_point_char s.
Proof.
  intros Ha Hw H1 H2 H3. unfold scan.
  assert (exists s1, (if chars_read_total (inp s) =? 0 then skip_bom s else Ret (true, s)) = Ret (true, s1) /\
    At s1 (w ++ p) /\ decimal_point_char s1 = decimal_point_char s) as (s1 & -> & Ha1 & Ed1).
  { destruct (_ =? 0); [|by exists s]. unfold skip_bom. pose proof (get_At _ _ Ha) as Hr.
    rewrite (proj1 (proj2 Hr)). destruct (Z.eqb_spec (hd EOF (w ++ p)) 0xEF) as [E|].
    - destruct Hw as [|c w Hc _]; simpl in E; [done|]. destruct Hc as [|[|[|]]]; lia.
    - rewrite (unget_get _ _ Ha). exists (back (get s)). split_and!; [done|by apply back_get|done]. }
  cbn [comp_bind]. unfold skip_whitespace.
  destruct (skip_ws_loop_complete w Hw s1 p (S (remaining s1)) Ha1 H1) as (s2 & -> & Hr2 & Ed2).
  { apply remaining_At in Ha1. rewrite length_app in Ha1. lia. }
  cbn [comp_bind]. exists s2. split_and!; [|done|congruence]. simpl.
  rewrite (proj1 (proj2 Hr2)). destruct (Z.eqb_spec (hd EOF p) 47); [done|]. by rewrite andb_false_r.
Qed.

(** [scan] on a text that starts with the character [c]. *)
Lemma scan_char s w c p : At s (w ++ c :: p) -> ws w -> is_ws c = false -> c <> 0xEF -> c <> 47 ->
  exists s', scan s = scan_token s' /\ Rd s' c p /\ decimal_point_char s' = decimal_point_char s.
Proof. intros. by apply (scan_begin s w (c :: p)). Qed.

Definition punctuation (c : Z) : option token_type :=
  if c =? 91 then Some begin_array else if c =? 93 then Some end_array
  else if c =? 123 then Some begin_object else if c =? 125 then Some end_object
  else if c =? 58 then Some name_separator else if c =? 44 then Some value_separator else None.

Lemma scan_punctuation s w c p t : At s (w ++ c :: p) -> ws w -> punctuation c = Some t ->
  exists s', scan s = Ret (t, s') /\ At s' p /\ decimal_point_char s' = decimal_point_char s.
Proof.
  intros Ha Hw Hc. unfold punctuation in Hc.
  assert (is_ws c = false /\ c <> 0xEF /\ c <> 47) as (H1 & H2 & H3).
  { unfold is_ws. repeat case_match; rewrite ?Z.eqb_eq in *; subst; split_and!; done || lia. }
  destruct (scan_char s w c p Ha Hw H1 H2 H3) as (s' & -> & Hr & Ed). exists s'.
  split_and!; [|by eapply Rd_At|done]. unfold scan_token. rewrite (proj1 (proj2 Hr)).
  repeat case_match; congruence.
Qed.

(** The end of the input, or a null character. *)
Definition input_end p : Prop := p = [] \/ exists g, p = 0 :: g.

Lemma scan_end s w p : At s (w ++ p) -> ws w -> input_end p ->
  exists s', scan s = Ret (end_of_input, s').
Proof.
  intros Ha Hw Hp. destruct (scan_begin s w p Ha Hw) as (s' & -> & Hr & _);
    try (by destruct Hp as [->|[g ->]]).
  exists s'. unfold scan_token. rewrite (proj1 (proj2 Hr)). by destruct Hp as [->|[g ->]].
Qed.

Lemma scan_literal_rest_complete text t : Forall is_byte text -> forall s p, At s (text ++ p) ->
  exists s', scan_literal_rest text t s = (t, s') /\ At s' p /\ decimal_point_char s' = decimal_point_char s.
Proof.
  induction 1 as [|c text Hc _ IH]; intros s p Ha; simpl; [by exists s|].
  simpl in Ha. apply At_get in Ha. rewrite (proj1 (proj2 Ha)), wrapu_small by done. rewrite Z.eqb_refl.
  destruct (IH (get s) p) as (s' & -> & ? & ?); [by eapply Rd_At|]. by exists s'.
Qed.

Lemma scan_literal_complete s w (x : string) p t j : At s (w ++ str x ++ p) -> ws w ->
  (x, t, j) ∈ [("null", literal_null, value_null); ("true", literal_true, value_boolean true);
               ("false", literal_false, value_boolean false)]%string ->
  scalar_scanned s p j (scan s).
Proof.
  intros Ha Hw Hin.
  assert (exists c rest, str x = c :: str rest /\ is_ws c = false /\ c <> 0xEF /\ c <> 47 /\
    token_json t s = Some j /\ (forall s', token_json t s' = token_json t s) /\
    forall s', cur s' = c -> scan_token s' = Ret (scan_literal_rest (str rest) t s'))
    as (c & rest & E & H1 & H2 & H3 & Hj & Hj' & Hscan).
  { repeat (apply elem_of_cons in Hin as [[= -> -> ->]|Hin]); [..|by apply elem_of_nil in Hin].
    - exists 110, "ull"%string. split_and!; try done. intros s' Hc. unfold scan_token. rewrite Hc. cbn [Z.eqb Pos.eqb]. by rewrite scan_literal_ret by (by rewrite Hc).
    - exists 116, "rue"%string. split_and!; try done. intros s' Hc. unfold scan_token. rewrite Hc. cbn [Z.eqb Pos.eqb]. by rewrite scan_literal_ret by (by rewrite Hc).
    - exists 102, "alse"%string. split_and!; try done. intros s' Hc. unfold scan_token. rewrite Hc. cbn [Z.eqb Pos.eqb]. by rewrite scan_literal_ret by (by rewrite Hc). }
  rewrite E in Ha. destruct (scan_char _ _ _ _ Ha Hw H1 H2 H3) as (s1 & -> & Hr & Ed).
  rewrite (Hscan s1 (proj1 (proj2 Hr))).
  destruct (scan_literal_rest_complete (str rest) t (str_bytes _) s1 p) as (s2 & -> & Ha2 & Ed2); [by eapply Rd_At|].
  eexists _, s2. split_and!; [done|by rewrite Hj'|done|congruence].
Qed.

Lemma scan_string_token s w t v p : At s (w ++ quoted t ++ p) -> ws w -> string_body t v ->
  exists s', scan s = Ret (tok_string, s') /\ At s' p /\ get_string s' = v /\
    decimal_point_char s' = decimal_point_char s.
Proof.
  intros Ha Hw Ht. unfold quoted in Ha. rewrite <- !app_assoc in Ha.
  destruct (scan_char s w 34 (t ++ [34] ++ p) Ha Hw) as (s1 & -> & Hr & Ed); [done..|].
  unfold scan_token. rewrite (proj1 (proj2 Hr)). simpl.
  destruct (scan_string_complete t v s1 p Ht Hr) as (s2 & -> & ? & ? & ?). exists s2. split_and!; congruence.
Qed.

Lemma int_part_head sign ds : sign = [] \/ sign = [45] -> int_part ds ->
  exists c rest, sign ++ ds = c :: rest /\ (c = 45 \/ 48 <= c <= 57).
Proof. intros [-> | ->] [|d ds' Hd Hds]; simpl; eexists _, _; (split; [done|lia]). Qed.

Lemma number_text_head dp j t : number_text dp j t -> exists c rest, t = c :: rest /\ (c = 45 \/ 48 <= c <= 57).
Proof.
  intros [ds Hds|ds Hds|ds Hds|ds Hds|sign ds fr ex Hs Hds _ _ _ t' _].
  1, 3: by apply (int_part_head [] ds); [left|].
  1, 2: by apply (int_part_head [45] ds); [right|].
  destruct (int_part_head sign ds Hs Hds) as (c & rest & E & Hc). exists c, (rest ++ fr ++ ex).
  split; [|done]. unfold t'. rewrite app_assoc, E. done.
Qed.

Lemma scan_number_token dp s w j t p : At s (w ++ t ++ p) -> ws w -> number_text dp j t -> follow p ->
  decimal_point_char s = dp -> scalar_scanned s p j (scan s).
Proof.
  intros Ha Hw Ht Hp Hdp. destruct (number_text_head _ _ _ Ht) as (c & rest & -> & Hc). simpl in Ha.
  assert (is_ws c = false) as Hnw.
  { destruct (is_ws c) eqn:E; [|done]. apply is_ws_spec in E. destruct E as [|[|[|]]]; lia. }
  destruct (scan_char s w c (rest ++ p) Ha Hw Hnw) as (s1 & -> & Hr & Ed); [lia|lia|].
  eapply scalar_scanned_cfg; [exact Ed|]. unfold scan_token. rewrite (proj1 (proj2 Hr)).
  do 10 (match goal with |- context [if c =? ?k then _ else _] => destruct (Z.eqb_spec c k); [lia|] end).
  assert ((c =? 45) || in_range 48 57 c = true) as ->.
  { rewrite orb_true_iff, Z.eqb_eq, in_range_spec. lia. }
  eapply scan_number_complete; [exact Ht|done|exact Hr|done|congruence].
Qed.

End Complete.
