(* ===== verification/JsonParserComplete.v ===== *)
(** The parser accepts the grammar: every text of [JsonGrammar] is parsed,
    to the value the grammar gives it.  The proof follows the loop of
    [sax_parse_internal] over the derivation of the text. *)
From S2P Require Import Prelude CLib Utf8 JsonValue JsonLexer JsonLexerFacts JsonParser JsonParserFacts.
From S2P Require Import JsonGrammar JsonLexerComplete.

Section Complete.
Context {F : Type} `{FloatOps F}.
Variable dp : Z.
Notation dparser := (parser F (dom F)).
Implicit Types (p : dparser) (d : dom F) (l : lexer F) (r : bytes).

(** The rest of a turn, and the turns after it, from the state phase on. *)
Definition after (n : nat) p : comp (bool * dparser) :=
  let* f := parse_state_phase p in
  match f with
  | FReturn b p => Ret (b, p)
  | FContinue p | FBreak p => sax_parse_loop n p
  end.

Lemma loop_skip n p : skip_to_state_evaluation p = true ->
  sax_parse_loop (S n) p = after n (with_skip p false).
Proof. intros Hs. cbn [sax_parse_loop]. unfold parse_turn. by rewrite Hs. Qed.

Lemma loop_break n p p' : skip_to_state_evaluation p = false -> parse_value_phase p = Ret (FBreak p') ->
  sax_parse_loop (S n) p = after n p'.
Proof. intros Hs Hv. cbn [sax_parse_loop]. unfold parse_turn. by rewrite Hs, Hv. Qed.

Lemma loop_continue n p p' : skip_to_state_evaluation p = false -> parse_value_phase p = Ret (FContinue p') ->
  sax_parse_loop (S n) p = sax_parse_loop n p'.
Proof. intros Hs Hv. cbn [sax_parse_loop]. unfold parse_turn. by rewrite Hs, Hv. Qed.

(** More fuel does not change a result. *)
Lemma loop_mono fuel m : forall p, sax_parse_loop fuel p <> OutOfFuel ->
  sax_parse_loop (fuel + m) p = sax_parse_loop fuel p.
Proof.
  induction fuel as [|fuel IH]; intros p Hne; [done|]. cbn [Nat.add sax_parse_loop] in *.
  destruct (parse_turn p) as [[]| |]; simpl in *; auto.
Qed.

(** The builder after [j] was stored where [d] was ready for it. *)
Definition placed d (j : json F) d' : Prop :=
  root d' = place j d /\ ref_stack d' = ref_stack d /\ same_flags d d'.

Definition stored (sts : list bool) d p (j : json F) r : Prop :=
  states p = sts /\ skip_to_state_evaluation p = false /\ At (m_lexer p) r /\
  decimal_point_char (m_lexer p) = dp /\ placed d j (sax p).

(** From the value phase in [sts], the loop stores [j] and goes on with [r]
    ahead. *)
Definition parses (sts : list bool) d0 (tok : token_type) l d (j : json F) r : Prop :=
  exists k p, (forall n, sax_parse_loop (S (k + n)) (mk_parser sts false tok l d) = after n p) /\
    stored sts d0 p j r.

Definition value_ok (j : json F) (t : bytes) : Prop :=
  forall l w r, At l (w ++ t ++ r) -> ws w -> follow r -> decimal_point_char l = dp ->
  exists tok l1, scan l = Ret (tok, l1) /\ tok <> end_array /\
    forall sts d, ready d -> parses sts d tok l1 d j r.

(** ** Scalars *)

Lemma scalar_ok j t : (forall l w r, At l (w ++ t ++ r) -> ws w -> follow r -> decimal_point_char l = dp ->
  scalar_scanned l r j (scan l)) -> value_ok j t.
Proof.
  intros Hscan l w r Ha Hw Hr Hd. destruct (Hscan l w r Ha Hw Hr Hd) as (tok & l1 & Hs & Hj & Ha1 & Hd1).
  exists tok, l1. split_and!; [done|by intros ->|]. intros sts d Hready.
  exists 0%nat, (mk_parser sts false tok l1 (with_root d (place j d))). split.
  - intros n. apply loop_break; [done|]. unfold parse_value_phase. simpl.
    destruct tok; simpl in Hj; try done; try (destruct (isfinite _); [|done]); injection Hj as <-;
      unfold event; simpl; unfold dom_value; rewrite handle_value_ready by done; done.
  - split_and!; simpl; try done. congruence.
Qed.

(** ** Containers under construction *)

(** [d0] is ready, and [d] is filling the container [c] stored there. *)
Definition filling d0 (c : json F) d : Prop :=
  ready d0 /\ root d = place c d0 /\ ref_stack d = slot d0 :: ref_stack d0 /\ same_flags d0 d.

Lemma filling_get d0 c d : filling d0 c d -> path_get (root d) (slot d0) = Some c.
Proof. intros (Hr & -> & _). by apply slot_place. Qed.

Lemma start_filling d c : ready d ->
  exists d', dom_start c d = Ret (true, d') /\ filling d c d'.
Proof. intros Hr. unfold dom_start. rewrite handle_value_ready by done. simpl. eexists. by split. Qed.

Lemma array_ready d0 acc d : filling d0 (value_array acc) d -> ready d.
Proof.
  intros Hf. pose proof (filling_get _ _ _ Hf) as Hg. destruct Hf as (_ & _ & Hst & _).
  unfold ready. by rewrite Hst, Hg.
Qed.

Lemma array_place d0 acc d v d' : filling d0 (value_array acc) d -> placed d v d' ->
  filling d0 (value_array (acc ++ [v])) d'.
Proof.
  intros Hf (Hr & Hst & He & Ha). pose proof (filling_get _ _ _ Hf) as Hg.
  destruct Hf as (Hrd & Hroot & Hst0 & He0 & Ha0). split_and!; [done| |congruence|].
  - rewrite Hr. unfold place at 1. rewrite Hst0, Hg, Hroot. by apply (place_alter (fun _ => value_array (acc ++ [v]))).
  - split; congruence.
Qed.

(** The key of a member: [dom_key], then the value goes to its place. *)
Lemma object_key d0 acc d k : filling d0 (value_object acc) d -> sorted_object acc ->
  exists d', dom_key k d = Ret (true, d') /\ ready d' /\
    forall v d'', placed d' v d'' -> filling d0 (value_object (object_set acc (k, v))) d''.
Proof.
  intros Hf Hs. pose proof (filling_get _ _ _ Hf) as Hg. destruct Hf as (Hrd & Hroot & Hst & He & Ha).
  unfold dom_key. rewrite Hst, Hg. eexists. split; [done|].
  set (d' := mk_dom _ _ _ _ _).
  assert (root d' = place (value_object (object_emplace k value_null acc)) d0) as Hr'.
  { simpl. rewrite Hroot. by apply (place_alter (fun _ => value_object (object_emplace k value_null acc))). }
  assert (path_get (root d') (slot d0) = Some (value_object (object_emplace k value_null acc))) as Hg'
    by (rewrite Hr'; by apply slot_place).
  split.
  - unfold ready. change (ref_stack d') with (slot d0 :: ref_stack d0). cbv iota. rewrite Hg'.
    exists k. split; [done|]. rewrite path_get_snoc, Hg'. simpl.
    by destruct (object_emplace_find k value_null acc) as [->|?].
  - intros v d'' (Hr & Hst' & He' & Ha'). split_and!; [done| |by rewrite Hst'|].
    + rewrite Hr. unfold place at 1. change (ref_stack d') with (slot d0 :: ref_stack d0). cbv iota.
      rewrite Hg'. change (object_element d') with (Some (slot d0 ++ [PKey k])). cbv iota.
      rewrite path_alter_app, Hr', place_alter by done. done.
    + simpl in *. split; congruence.
Qed.

Lemma object_set_sorted (acc : list (bytes * json F)) kv : sorted_object acc -> sorted_object (object_set acc kv).
Proof. intros. by apply object_alter_sorted, object_emplace_sorted. Qed.

(** The end of a container. *)
Lemma end_filling (b : bool) d0 c d : filling d0 c d -> has_kind b c ->
  exists d', (if b then dom_end_array d else dom_end_object d) = Ret (true, d') /\ placed d0 c d'.
Proof.
  intros Hf Hk. pose proof (filling_get _ _ _ Hf) as Hg. destruct Hf as (Hrd & Hroot & Hst & Hfl).
  exists (with_stack d (ref_stack d0)). unfold dom_end_array, dom_end_object, back_value. rewrite Hst, Hg.
  split; [by destruct b, c|]. by split_and!; [|..].
Qed.

Lemma follow_ws w c r : ws w -> c ∈ [44; 93; 125] -> follow (w ++ c :: r).
Proof.
  intros Hw Hc. destruct Hw as [|x w Hx _]; simpl.
  - repeat (apply elem_of_cons in Hc as [->|Hc]; [done|]). by apply elem_of_nil in Hc.
  - unfold follow; simpl. by destruct Hx as [->|[->|[->| ->]]].
Qed.

(** Reading a token of punctuation in the parser. *)
Lemma get_punctuation p w c r t : At (m_lexer p) (w ++ c :: r) -> ws w -> punctuation c = Some t ->
  exists l, get_token p = Ret (mk_parser (states p) (skip_to_state_evaluation p) t l (sax p)) /\ At l r /\
    decimal_point_char l = decimal_point_char (m_lexer p).
Proof.
  intros Ha Hw Hc. destruct (scan_punctuation _ _ _ _ _ Ha Hw Hc) as (l & Hs & Ha' & Hd).
  exists l. unfold get_token. by rewrite Hs.
Qed.

(** After the last element: the closing bracket. *)
Lemma after_close (b : bool) sts d0 c p w r : states p = b :: sts -> skip_to_state_evaluation p = false ->
  At (m_lexer p) (w ++ (if b then 93 else 125) :: r) -> ws w -> decimal_point_char (m_lexer p) = dp ->
  filling d0 c (sax p) -> has_kind b c ->
  exists p', (forall n, after (S n) p = after n p') /\ stored sts d0 p' c r.
Proof.
  intros Hst Hsk Ha Hw Hd Hf Hk. destruct (end_filling b _ _ _ Hf Hk) as (d' & He & Hp).
  destruct (get_punctuation p w (if b then 93 else 125) r (if b then end_array else end_object) Ha Hw)
    as (l & Hg & Hl & Hdl); [by destruct b|].
  exists (mk_parser sts false (if b then end_array else end_object) l d'). split.
  - intros n. unfold after at 1, parse_state_phase. rewrite Hst.
    destruct b; unfold parse_array_state, parse_object_state; rewrite Hg; simpl;
      unfold close_container, event; simpl; rewrite He; simpl; rewrite Hst; by apply loop_skip.
  - split_and!; simpl; try done; [congruence|apply Hp..].
Qed.

(** ** Arrays *)

Definition elements_ok (es : list (json F)) (t : bytes) : Prop :=
  forall l r, At l (t ++ 93 :: r) -> decimal_point_char l = dp ->
  exists tok l1, scan l = Ret (tok, l1) /\ tok <> end_array /\
    forall sts d0 acc d, filling d0 (value_array acc) d ->
    exists k p, (forall n, sax_parse_loop (S (k + n)) (mk_parser (true :: sts) false tok l1 d) = after n p) /\
      stored sts d0 p (value_array (acc ++ es)) r.

Lemma elements_one_ok v w1 t w2 : ws w1 -> ws w2 -> value_ok v t -> elements_ok [v] (w1 ++ t ++ w2).
Proof.
  intros Hw1 Hw2 Hv l r Ha Hd. rewrite <- !app_assoc in Ha.
  destruct (Hv l w1 (w2 ++ 93 :: r) Ha Hw1) as (tok & l1 & Hs & Hne & Hp); [by apply follow_ws; [|set_solver]|done|].
  exists tok, l1. split_and!; [done|done|]. intros sts d0 acc d Hf.
  destruct (Hp (true :: sts) d (array_ready _ _ _ Hf)) as (k & p & Hk & Hst & Hsk & Hal & Hdl & Hpl).
  destruct (after_close true sts d0 (value_array (acc ++ [v])) p w2 r) as (p' & Haf & Hsto); try done.
  { by eapply array_place. }
  exists (S k), p'. split; [|done]. intros n. replace (S (S k + n)) with (S (k + S n)) by lia. by rewrite Hk, Haf.
Qed.

Lemma elements_cons_ok v w1 t w2 es ts : ws w1 -> ws w2 -> value_ok v t -> elements_ok es ts ->
  elements_ok (v :: es) (w1 ++ t ++ w2 ++ [44] ++ ts).
Proof.
  intros Hw1 Hw2 Hv Hes l r Ha Hd. rewrite <- !app_assoc in Ha. simpl in Ha.
  destruct (Hv l w1 (w2 ++ 44 :: ts ++ 93 :: r)) as (tok & l1 & Hs & Hne & Hp); [done|done|by apply follow_ws; [|set_solver]|done|].
  exists tok, l1. split_and!; [done|done|]. intros sts d0 acc d Hf.
  destruct (Hp (true :: sts) d (array_ready _ _ _ Hf)) as (k & p & Hk & Hst & Hsk & Hal & Hdl & Hpl).
  destruct (get_punctuation p w2 44 (ts ++ 93 :: r) value_separator Hal Hw2 eq_refl) as (l2 & Hg & Ha2 & Hd2).
  destruct (Hes l2 r Ha2) as (tok3 & l3 & Hs3 & Hne3 & Hp3); [congruence|].
  destruct (Hp3 sts d0 (acc ++ [v]) (sax p)) as (k3 & p3 & Hk3 & Hsto); [by eapply array_place|].
  exists (S (k + k3)), p3. rewrite <- app_assoc in Hsto. split; [|done]. intros n.
  replace (S (S (k + k3) + n)) with (S (k + S (k3 + n))) by lia. rewrite Hk, <- Hk3.
  unfold after, parse_state_phase. rewrite Hst. unfold parse_array_state. rewrite Hg. simpl.
  unfold get_token. simpl. rewrite Hs3. simpl. by rewrite Hst, Hsk.
Qed.

Lemma scan_open l w c r t : At l (w ++ c :: r) -> ws w -> punctuation c = Some t ->
  decimal_point_char l = dp ->
  exists l1, scan l = Ret (t, l1) /\ At l1 r /\ decimal_point_char l1 = dp.
Proof.
  intros Ha Hw Hc Hd. destruct (scan_punctuation _ _ _ _ _ Ha Hw Hc) as (l1 & ? & ? & ?).
  exists l1. split_and!; congruence.
Qed.

Lemma array_ok es t : elements_ok es t -> value_ok (value_array es) ([91] ++ t ++ [93]).
Proof.
  intros Hes l w r Ha Hw _ Hd. rewrite <- !app_assoc in Ha. simpl in Ha.
  destruct (scan_open l w 91 _ begin_array Ha Hw eq_refl Hd) as (l1 & Hs & Ha1 & Hd1).
  exists begin_array, l1. split_and!; [done|done|]. intros sts d Hr.
  destruct (Hes l1 r Ha1 Hd1) as (tok & l2 & Hs2 & Hne & Hp).
  destruct (start_filling d (value_array []) Hr) as (d' & Hst & Hf).
  destruct (Hp sts d [] d' Hf) as (k & p & Hk & Hsto).
  exists (S k), p. split; [|done]. intros n. rewrite <- Hk.
  apply (loop_continue (S (k + n))); [done|]. unfold parse_value_phase. simpl. unfold parse_begin_array, event. simpl.
  unfold dom_start_array. rewrite Hst. simpl. unfold get_token. simpl. rewrite Hs2. simpl. by rewrite decide_False.
Qed.

Lemma empty_array_ok w0 : ws w0 -> value_ok (value_array []) ([91] ++ w0 ++ [93]).
Proof.
  intros Hw0 l w r Ha Hw _ Hd. rewrite <- !app_assoc in Ha. simpl in Ha.
  destruct (scan_open l w 91 _ begin_array Ha Hw eq_refl Hd) as (l1 & Hs & Ha1 & Hd1).
  destruct (scan_open l1 w0 93 r end_array Ha1 Hw0 eq_refl Hd1) as (l2 & Hs2 & Ha2 & Hd2).
  exists begin_array, l1. split_and!; [done|done|]. intros sts d Hr.
  destruct (start_filling d (value_array []) Hr) as (d' & Hst & Hf).
  destruct (end_filling true d (value_array []) d' Hf eq_refl) as (d2 & He & Hp).
  exists 0%nat, (mk_parser sts false end_array l2 d2). split; [|by split_and!; simpl; try done; apply Hp].
  intros n. apply loop_break; [done|]. unfold parse_value_phase. simpl. unfold parse_begin_array, event. simpl.
  unfold dom_start_array. rewrite Hst. simpl. unfold get_token. simpl. rewrite Hs2. simpl. by rewrite He.
Qed.

(** ** Objects *)

Definition members_ok (ms : list (bytes * json F)) (t : bytes) : Prop :=
  forall l r, At l (t ++ 125 :: r) -> decimal_point_char l = dp ->
  exists l1 l2 l3 tok, scan l = Ret (tok_string, l1) /\ scan l1 = Ret (name_separator, l2) /\
    scan l2 = Ret (tok, l3) /\
    forall sts d0 acc d, filling d0 (value_object acc) d -> sorted_object acc ->
    exists d' k p, dom_key (get_string l1) d = Ret (true, d') /\
      (forall n, sax_parse_loop (S (k + n)) (mk_parser (false :: sts) false tok l3 d') = after n p) /\
      stored sts d0 p (value_object (fold_left object_set ms acc)) r.

(** The key, the colon and the value of one member, and what follows. *)
Lemma member_run k tk v w1 w2 w3 t w4 c r l : ws w1 -> string_body tk k -> ws w2 -> ws w3 -> value_ok v t ->
  ws w4 -> c ∈ [44; 93; 125] -> At l (w1 ++ quoted tk ++ w2 ++ [58] ++ w3 ++ t ++ w4 ++ c :: r) ->
  decimal_point_char l = dp ->
  exists l1 l2 l3 tok, scan l = Ret (tok_string, l1) /\ scan l1 = Ret (name_separator, l2) /\
    scan l2 = Ret (tok, l3) /\
    forall sts d0 acc d, filling d0 (value_object acc) d -> sorted_object acc ->
    exists d' n0 p, dom_key (get_string l1) d = Ret (true, d') /\
      (forall n, sax_parse_loop (S (n0 + n)) (mk_parser (false :: sts) false tok l3 d') = after n p) /\
      states p = false :: sts /\ skip_to_state_evaluation p = false /\ At (m_lexer p) (w4 ++ c :: r) /\
      decimal_point_char (m_lexer p) = dp /\ filling d0 (value_object (object_set acc (k, v))) (sax p).
Proof.
  intros Hw1 Hk Hw2 Hw3 Hv Hw4 Hc Ha Hd.
  destruct (scan_string_token l w1 tk k _ Ha Hw1 Hk) as (l1 & Hs1 & Ha1 & Hk1 & Hd1).
  destruct (scan_open l1 w2 58 _ name_separator Ha1 Hw2 eq_refl) as (l2 & Hs2 & Ha2 & Hd2); [congruence|].
  destruct (Hv l2 w3 _ Ha2 Hw3 (follow_ws _ _ _ Hw4 Hc) Hd2) as (tok & l3 & Hs3 & _ & Hp).
  exists l1, l2, l3, tok. split_and!; [done..|]. intros sts d0 acc d Hf Hsort. rewrite Hk1.
  destruct (object_key d0 acc d k Hf Hsort) as (d' & Hkey & Hrd & Hpl).
  destruct (Hp (false :: sts) d' Hrd) as (n0 & p & Hn & Hst & Hsk & Hal & Hdl & Hplaced).
  exists d', n0, p. split_and!; try done. by apply Hpl.
Qed.

Lemma members_one_ok k tk v w1 w2 w3 t w4 : ws w1 -> string_body tk k -> ws w2 -> ws w3 -> value_ok v t ->
  ws w4 -> members_ok [(k, v)] (w1 ++ quoted tk ++ w2 ++ [58] ++ w3 ++ t ++ w4).
Proof.
  intros Hw1 Hk Hw2 Hw3 Hv Hw4 l r Ha Hd. rewrite <- !app_assoc in Ha.
  destruct (member_run k tk v w1 w2 w3 t w4 125 r l) as (l1 & l2 & l3 & tok & Hs1 & Hs2 & Hs3 & Hrun);
    [done..|set_solver|done|done|].
  exists l1, l2, l3, tok. split_and!; [done..|]. intros sts d0 acc d Hf Hsort.
  destruct (Hrun sts d0 acc d Hf Hsort) as (d' & n0 & p & Hkey & Hn & Hst & Hsk & Hal & Hdl & Hf').
  destruct (after_close false sts d0 (value_object (object_set acc (k, v))) p w4 r) as (p' & Haf & Hsto); try done.
  exists d', (S n0), p'. split_and!; [done| |done]. intros n.
  replace (S (S n0 + n)) with (S (n0 + S n)) by lia. by rewrite Hn, Haf.
Qed.

Lemma members_cons_ok k tk v w1 w2 w3 t w4 ms ts : ws w1 -> string_body tk k -> ws w2 -> ws w3 -> value_ok v t ->
  ws w4 -> members_ok ms ts ->
  members_ok ((k, v) :: ms) (w1 ++ quoted tk ++ w2 ++ [58] ++ w3 ++ t ++ w4 ++ [44] ++ ts).
Proof.
  intros Hw1 Hk Hw2 Hw3 Hv Hw4 Hms l r Ha Hd. rewrite <- !app_assoc in Ha.
  destruct (member_run k tk v w1 w2 w3 t w4 44 (ts ++ 125 :: r) l) as (l1 & l2 & l3 & tok & Hs1 & Hs2 & Hs3 & Hrun);
    [done..|set_solver|done|done|].
  exists l1, l2, l3, tok. split_and!; [done..|]. intros sts d0 acc d Hf Hsort.
  destruct (Hrun sts d0 acc d Hf Hsort) as (d' & n0 & p & Hkey & Hn & Hst & Hsk & Hal & Hdl & Hf').
  destruct (get_punctuation p w4 44 (ts ++ 125 :: r) value_separator Hal Hw4 eq_refl) as (l4 & Hg & Ha4 & Hd4).
  destruct (Hms l4 r Ha4) as (l5 & l6 & l7 & tok7 & Hs5 & Hs6 & Hs7 & Hrun'); [congruence|].
  destruct (Hrun' sts d0 _ (sax p) Hf') as (d5 & n5 & p5 & Hkey5 & Hn5 & Hsto); [by apply object_set_sorted|].
  exists d', (S (n0 + n5)), p5. split_and!; [done| |done]. intros n.
  replace (S (S (n0 + n5) + n)) with (S (n0 + S (n5 + n))) by lia. rewrite Hn, <- Hn5.
  unfold after, parse_state_phase. rewrite Hst. unfold parse_object_state. rewrite Hg. simpl.
  unfold get_token. simpl. rewrite Hs5. simpl. unfold parse_key. simpl. unfold event. simpl. rewrite Hkey5. simpl.
  unfold get_token. simpl. rewrite Hs6. simpl. rewrite Hs7. simpl. by rewrite Hst, Hsk.
Qed.

Lemma object_ok ms t : members_ok ms t -> value_ok (value_object (object_of ms)) ([123] ++ t ++ [125]).
Proof.
  intros Hms l w r Ha Hw _ Hd. rewrite <- !app_assoc in Ha. simpl in Ha.
  destruct (scan_open l w 123 _ begin_object Ha Hw eq_refl Hd) as (l1 & Hs & Ha1 & Hd1).
  exists begin_object, l1. split_and!; [done|done|]. intros sts d Hr.
  destruct (Hms l1 r Ha1 Hd1) as (l2 & l3 & l4 & tok & Hs2 & Hs3 & Hs4 & Hp).
  destruct (start_filling d (value_object []) Hr) as (d' & Hst & Hf).
  destruct (Hp sts d [] d' Hf) as (d2 & k & p & Hkey & Hk & Hsto); [constructor|].
  exists (S k), p. split; [|done]. intros n. rewrite <- Hk.
  apply (loop_continue (S (k + n))); [done|]. unfold parse_value_phase. simpl. unfold parse_begin_object, event. simpl.
  unfold dom_start_object. rewrite Hst. simpl. unfold get_token at 1. simpl. rewrite Hs2. simpl.
  unfold parse_key. simpl. unfold event. simpl. rewrite Hkey. simpl. unfold get_token. simpl. rewrite Hs3. simpl.
  by rewrite Hs4.
Qed.

Lemma empty_object_ok w0 : ws w0 -> value_ok (value_object []) ([123] ++ w0 ++ [125]).
Proof.
  intros Hw0 l w r Ha Hw _ Hd. rewrite <- !app_assoc in Ha. simpl in Ha.
  destruct (scan_open l w 123 _ begin_object Ha Hw eq_refl Hd) as (l1 & Hs & Ha1 & Hd1).
  destruct (scan_open l1 w0 125 r end_object Ha1 Hw0 eq_refl Hd1) as (l2 & Hs2 & Ha2 & Hd2).
  exists begin_object, l1. split_and!; [done|done|]. intros sts d Hr.
  destruct (start_filling d (value_object []) Hr) as (d' & Hst & Hf).
  destruct (end_filling false d (value_object []) d' Hf eq_refl) as (d2 & He & Hp).
  exists 0%nat, (mk_parser sts false end_object l2 d2). split; [|by split_and!; simpl; try done; apply Hp].
  intros n. apply loop_break; [done|]. unfold parse_value_phase. simpl. unfold parse_begin_object, event. simpl.
  unfold dom_start_object. rewrite Hst. simpl. unfold get_token. simpl. rewrite Hs2. simpl. by rewrite He.
Qed.

(** ** Every derivation *)

Lemma grammar_ok :
  (forall j t, value_text dp j t -> value_ok j t) /\
  (forall es t, elements_text dp es t -> elements_ok es t) /\
  (forall ms t, members_text dp ms t -> members_ok ms t).
Proof.
  apply (json_text_ind F H dp (fun j t _ => value_ok j t) (fun es t _ => elements_ok es t)
    (fun ms t _ => members_ok ms t)); intros;
    eauto using elements_one_ok, elements_cons_ok, members_one_ok, members_cons_ok, array_ok, object_ok,
      empty_array_ok, empty_object_ok.
  - apply scalar_ok. intros. eapply (scan_literal_complete _ _ "null" _ literal_null); [done|done|]. rewrite !elem_of_cons. tauto.
  - apply scalar_ok. intros. eapply (scan_literal_complete _ _ "true" _ literal_true); [done|done|]. rewrite !elem_of_cons. tauto.
  - apply scalar_ok. intros. eapply (scan_literal_complete _ _ "false" _ literal_false); [done|done|]. rewrite !elem_of_cons. tauto.
  - apply scalar_ok. intros. by eapply scan_number_token.
  - apply scalar_ok. intros l w r Ha Hw _ Hd.
    destruct (scan_string_token _ _ _ _ _ Ha Hw s) as (l1 & -> & ? & <- & ?). by exists tok_string, l1.
Qed.

Lemma follow_end w r : ws w -> input_end r -> follow (w ++ r).
Proof.
  intros Hw Hr. destruct Hw as [|x w Hx _]; simpl.
  - by destruct Hr as [->|[g ->]].
  - unfold follow; simpl. by destruct Hx as [->|[->|[->| ->]]].
Qed.

(** A document, followed by the end of the input or a null character, where
    the first scan starts from [l0] (behind a byte order mark, or not). *)
Lemma json_parse_from i l0 j t r allow ignore : Forall is_byte i ->
  scan (lexer_init i ignore [dp]) = scan l0 -> At l0 (t ++ r) -> decimal_point_char l0 = dp ->
  json_text dp j t -> input_end r -> json_parse i allow ignore [dp] = Ret j.
Proof.
  intros Hb Hl0 Ha Hd0 (w1 & u & w2 & Hw1 & Hu & Hw2 & ->) Hr. rewrite <- !app_assoc in Ha.
  destruct grammar_ok as (Hv & _ & _).
  destruct (Hv _ _ Hu l0 w1 (w2 ++ r) Ha Hw1 (follow_end _ _ Hw2 Hr) Hd0) as (tok & l1 & Hs & _ & Hp).
  rewrite <- Hl0 in Hs. clear Ha Hl0 Hd0 l0.
  destruct (Hp [] (dom_init value_null allow) I) as (k & p & Hk & Hst & Hsk & Hal & Hdl & Hroot & _ & He & Ha').
  unfold json_parse, parser_init, get_token. simpl. rewrite Hs. simpl. unfold parser_parse.
  set (p0 := mk_parser [] false tok l1 (dom_init value_null allow)).
  assert (parser_init i ignore [dp] (dom_init (F:=F) value_null allow) = Ret p0) as Hinit.
  { unfold parser_init, get_token. simpl. by rewrite Hs. }
  pose proof (sax_parse_internal_ok allow _ _ _ _ Hb Hinit) as Hok.
  assert (sax_parse_internal p0 = Ret (true, p)) as ->.
  { unfold sax_parse_internal in *. set (fuel := S (S _)) in *.
    rewrite <- (loop_mono fuel (S k)) by (intros E; rewrite E in Hok; done).
    change (with_skip (with_states p0 []) false) with p0.
    replace (fuel + S k)%nat with (S (k + fuel)) by lia. unfold p0. rewrite (Hk fuel).
    unfold after, parse_state_phase. by rewrite Hst. }
  simpl. destruct (scan_end _ _ _ Hal Hw2 Hr) as (l2 & Hs2). unfold get_token. rewrite Hs2. simpl.
  rewrite He. simpl. by rewrite Hroot.
Qed.

Lemma json_parse_text j t r allow ignore : json_text dp j t -> input_end r -> Forall is_byte (t ++ r) ->
  json_parse (t ++ r) allow ignore [dp] = Ret j.
Proof.
  intros Ht Hr Hb. apply (json_parse_from _ (lexer_init (t ++ r) ignore [dp]) j t r); try done.
  by apply lexer_init_At.
Qed.

End Complete.
