(* ===== verification/JsonRoundtrip.v ===== *)
(** The serializer writes texts of the grammar, so a dumped value is parsed
    back: round trip of [basic_json::dump] and [basic_json::parse]. *)
From S2P Require Import Prelude CLib Utf8 JsonValue JsonLexer JsonLexerFacts JsonParser JsonParserFacts.
From S2P Require Import JsonSerializer JsonSerializerFacts JsonGrammar JsonLexerComplete JsonParserComplete.

(** ** Strings *)

Lemma hex_digit_ok d : 0 <= d < 16 -> hex_digit_value (hex_digit d) d.
Proof. unfold hex_digit, hex_digit_value. intros. zcases; lia. Qed.

Lemma printf_04x_hex4 cp : 0 <= cp <= 0xFFFF -> hex4 (printf_04x cp) cp.
Proof.
  intros Hcp. unfold printf_04x.
  assert (cp = cp / 4096 mod 16 * 4096 + cp / 256 mod 16 * 256 + cp / 16 mod 16 * 16 + cp mod 16) as E by dlia.
  rewrite E at 5. constructor; apply hex_digit_ok; apply Z.mod_pos_bound; lia.
Qed.

Lemma utf8_encode_ascii cp : cp < 0x80 -> utf8_encode cp = [cp].
Proof. intros. unfold utf8_encode. by destruct (Z.ltb_spec cp 0x80); [|lia]. Qed.

Lemma escape_text_item ensure cp : is_scalar cp -> string_item (escape_text ensure cp) (utf8_encode cp).
Proof.
  intros Hs. unfold escape_text.
  repeat match goal with
  | |- context [cp =? ?k] => destruct (Z.eqb_spec cp k) as [->|]; [apply item_escape; set_solver|]
  end.
  destruct ((cp <=? 0x1F) || (ensure && (0x7F <=? cp))) eqn:E.
  - destruct (Z.leb_spec cp 0xFFFF).
    + apply item_unicode; [apply printf_04x_hex4|]; unfold is_scalar in Hs; lia.
    + unfold is_scalar in Hs.
      replace cp with (0x10000 + (0xD800 + (cp - 0x10000) / 1024 - 0xD800) * 1024 +
        (0xDC00 + (cp - 0x10000) mod 1024 - 0xDC00)) at 3 by dlia.
      apply item_surrogates; try apply printf_04x_hex4; dlia.
  - apply orb_false_iff in E as [E _]. apply item_plain; unfold is_scalar in *; lia.
Qed.

Lemma escape_all_body ensure cps : Forall is_scalar cps ->
  string_body (escape_all ensure cps) (utf8_encode_all cps).
Proof. induction 1; simpl; constructor; [by apply escape_text_item|done]. Qed.

(** ** Numbers *)

Lemma to_dec_int_part n : 0 <= n -> int_part (to_dec n).
Proof.
  intros Hn. destruct (decide (n = 0)) as [->|]; [constructor|].
  destruct (to_dec_head n ltac:(lia)) as (d & ds & -> & Hd & Hds). by constructor.
Qed.

Section Numbers.
Context {F : Type} `{FloatOps F}.

Lemma int_text_number dp z : - 2 ^ 63 <= z < 2 ^ 64 ->
  number_text (F:=F) dp (if z <? 0 then value_number_integer z else value_number_unsigned z) (int_text z).
Proof.
  intros Hz. unfold int_text. destruct (Z.ltb_spec z 0).
  - replace z with (- dec_value (to_dec (- z))) at 1 by (rewrite dec_value_to_dec; lia).
    constructor; [apply to_dec_int_part; lia|]. rewrite dec_value_to_dec; lia.
  - replace z with (dec_value (to_dec z)) at 1 by (rewrite dec_value_to_dec; lia).
    constructor; [apply to_dec_int_part; lia|]. rewrite dec_value_to_dec; lia.
Qed.

(** ** Objects *)

Lemma object_of_sorted_app (m1 m2 : list (bytes * json F)) : sorted_object (m1 ++ m2) ->
  fold_left object_set m2 m1 = m1 ++ m2.
Proof.
  revert m1. induction m2 as [|[k v] m2 IH]; intros m1 Hs; simpl; [by rewrite app_nil_r|].
  assert (Forall (fun k' => key_lt k' k) (keys m1)) as Hlt.
  { apply Forall_forall. intros k' Hin. unfold sorted_object, keys in Hs. rewrite map_app in Hs.
    apply StronglySorted_app in Hs as (Hx & _). apply Hx; [done|]. simpl. left. }
  assert (object_set m1 (k, v) = m1 ++ [(k, v)]) as ->.
  { unfold object_set. simpl. rewrite object_emplace_last by done. apply object_alter_last.
    intros Hin. rewrite Forall_forall in Hlt. apply Hlt, key_lt_ne in Hin. done. }
  rewrite IH; [by rewrite <- app_assoc|]. by rewrite <- app_assoc.
Qed.

Lemma object_of_sorted (m : list (bytes * json F)) : sorted_object m -> object_of m = m.
Proof. apply (object_of_sorted_app []). Qed.
End Numbers.

(** ** [dump] *)

(** What the serializer relies on to print a finite number: [to_chars] stays
    within a buffer of 64 characters and writes a text of the number. *)
Definition float_prints {F} `{FloatOps F} (dp : Z) (f : F) : Prop :=
  isfinite f = true -> forall buf, length buf = 64%nat ->
  exists buf' e, to_chars f buf = Ret (buf', e) /\ length buf' = 64%nat /\
    number_text dp (value_number_float f) (take e buf').

(** Every floating-point number in a value is printed so. *)
Inductive printable {F} `{FloatOps F} (dp : Z) : json F -> Prop :=
  | printable_null : printable dp value_null
  | printable_object m : Forall (fun kv => printable dp kv.2) m -> printable dp (value_object m)
  | printable_array l : Forall (printable dp) l -> printable dp (value_array l)
  | printable_string s : printable dp (value_string s)
  | printable_boolean b : printable dp (value_boolean b)
  | printable_integer z : printable dp (value_number_integer z)
  | printable_unsigned z : printable dp (value_number_unsigned z)
  | printable_float f : float_prints dp f -> printable dp (value_number_float f).

(** Nesting of containers. *)
Definition depth {F} : json F -> nat :=
  fix go (j : json F) : nat :=
    match j with
    | value_object m => S (foldr Nat.max 0%nat (map (fun kv => go kv.2) m))
    | value_array l => S (foldr Nat.max 0%nat (map go l))
    | _ => 0%nat
    end.

Section Dump.
Context {F : Type} `{FloatOps F}.
Variables (dp : Z) (handler : error_handler_t) (ensure : bool) (step : Z).
Implicit Types (s : serializer) (t : bytes).

(** The members that [dump] keeps in order. *)
Definition good s : Prop :=
  length (number_buffer s) = 64%nat /\ length (indent_string s) = 512%nat /\ ws (indent_string s).

(** The call returns, having written [t]. *)
Definition emits (r : comp serializer) s t : Prop :=
  exists s', r = Ret s' /\ o s' = o s ++ t /\ good s'.

Lemma emits_write bs s : good s -> emits (Ret (write_characters bs s)) s bs.
Proof. intros Hg. by eexists. Qed.

Lemma emits_integer z s : good s -> - 2 ^ 63 <= z < 2 ^ 64 -> emits (write_integer z s) s (int_text z).
Proof.
  intros (Hn & Hi & Hw) Hz. unfold write_integer.
  destruct (dump_integer_ok z (number_buffer s) Hn Hz) as (nb & -> & Hl). simpl. by eexists.
Qed.

Lemma emits_escaped k s : good s -> utf8_valid k ->
  exists t, emits (write_escaped handler ensure k s) s t /\ string_body t k.
Proof.
  intros Hg (cps & Hc & ->). exists (escape_all ensure cps). split; [|by apply escape_all_body].
  unfold write_escaped. rewrite dump_escaped_valid by done. simpl. by eexists.
Qed.

Lemma emits_indent n s : good s -> 0 <= n <= 512 -> exists w, emits (write_indent n s) s w /\ ws w.
Proof.
  intros (Hn & Hi & Hw) H0. unfold write_indent. rewrite Hi. destruct (Z.leb_spec n (Z.of_nat 512 + 1)); [|lia].
  eexists. split; [by apply emits_write; split_and!|].
  rewrite take_app_le by lia. by apply Forall_take.
Qed.

Lemma grow_indent_id n s : good s -> n <= 512 -> grow_indent n s = s.
Proof. intros (_ & Hi & _) Hn. unfold grow_indent. rewrite Hi. by destruct (Z.ltb_spec (Z.of_nat 512) n); [lia|]. Qed.

(** Room for the indentation of [j] printed at [cur]. *)
Definition fits (pretty : bool) (cur : Z) (n : nat) : Prop :=
  0 <= cur /\ (pretty = true -> 0 <= step /\ cur + step * Z.of_nat n <= 512).

Lemma fits_le pretty cur n m : fits pretty cur n -> (m <= n)%nat -> fits pretty cur m.
Proof. intros (H0 & H1) Hm. split; [done|]. intros Hp. specialize (H1 Hp). nia. Qed.

Lemma fits_deeper cur n : fits true cur (S n) -> fits true (cur + step) n /\
  wrapu 32 (cur + step) = cur + step /\ 0 <= cur <= 512 /\ 0 <= cur + step <= 512.
Proof.
  intros (H0 & H1). destruct (H1 eq_refl) as [Hs Hl]. split; [split; [lia|intros _; lia]|].
  split; [apply wrapu_small; nia|nia].
Qed.

(** What [dump_value] does to a value. *)
Definition dumps_ok (pretty : bool) (j : json F) : Prop :=
  forall cur s, good s -> fits pretty cur (depth j) ->
  exists t, emits (dump_value handler ensure step pretty j cur s) s t /\ value_text dp (canonical j) t.

Lemma fits_compact cur n m : fits false cur n -> fits false cur m.
Proof. intros [H0 _]. by split. Qed.

Lemma depth_elem (l : list (json F)) v : v ∈ l -> (depth v <= foldr Nat.max 0 (map depth l))%nat.
Proof.
  induction l as [|x l IH]; intros Hv; [by apply elem_of_nil in Hv|]. simpl.
  apply elem_of_cons in Hv as [->|Hv]; [lia|]. specialize (IH Hv). lia.
Qed.

Lemma depth_member (m : list (bytes * json F)) kv : kv ∈ m ->
  (depth kv.2 <= foldr Nat.max 0 (map (fun kv => depth kv.2) m))%nat.
Proof.
  induction m as [|x m IH]; intros Hv; [by apply elem_of_nil in Hv|]. simpl.
  apply elem_of_cons in Hv as [->|Hv]; [lia|]. specialize (IH Hv). lia.
Qed.

(** White space may be added at the end of a list. *)
Lemma elements_trail es t w : elements_text (F:=F) dp es t -> ws w -> elements_text dp es (t ++ w).
Proof.
  intros He Hw. induction He as [v w1 t w2 Hw1 Hv Hw2|v w1 t w2 es ts Hw1 Hv Hw2 _ IH].
  - rewrite <- !app_assoc. constructor; [done|done|]. by apply Forall_app.
  - rewrite <- !app_assoc. by constructor.
Qed.

Lemma members_trail ms t w : members_text (F:=F) dp ms t -> ws w -> members_text dp ms (t ++ w).
Proof.
  intros He Hw. induction He as [k tk v w1 w2 w3 t w4 ?????? |k tk v w1 w2 w3 t w4 ms ts ??????? IH].
  - rewrite <- !app_assoc. constructor; try done. by apply Forall_app.
  - rewrite <- !app_assoc. by constructor.
Qed.

Lemma ws_nil : ws [].
Proof. constructor. Qed.
Lemma ws_newline w : ws w -> ws ([10] ++ w).
Proof. intros. constructor; [unfold ws_char; tauto|done]. Qed.
Hint Resolve ws_nil ws_newline : core.

(** ** Arrays *)

Lemma compact_elements_ok (l : list (json F)) cur : l <> [] -> Forall (dumps_ok false) l ->
  forall s, good s -> fits false cur 0 ->
  exists t, emits (compact_elements (dump_value handler ensure step false) cur l s) s t /\
    elements_text dp (map canonical l) t.
Proof.
  intros Hne Hl. induction Hl as [|v l Hv Hl IH]; [done|]. intros s Hg Hf.
  destruct (Hv cur s Hg (fits_compact _ _ _ Hf)) as (t & (s1 & E1 & Eo1 & G1) & Htxt). destruct l as [|v2 l].
  - exists ([] ++ t ++ []). split; [|by constructor]. exists s1. by rewrite app_nil_r.
  - destruct (IH ltac:(done) (write_characters (str ",") s1) G1 Hf) as (ts & (s2 & E2 & Eo2 & G2) & Htxts).
    exists ([] ++ t ++ [] ++ [44] ++ ts). split; [|by constructor].
    exists s2. split_and!; [|simpl in *; by rewrite Eo2, Eo1, <- !app_assoc|done].
    cbn [compact_elements]. rewrite E1. exact E2.
Qed.

Lemma compact_array_ok (l : list (json F)) : l <> [] -> Forall (dumps_ok false) l -> dumps_ok false (value_array l).
Proof.
  intros Hne Hl cur s Hg Hf.
  destruct (compact_elements_ok l cur Hne Hl (write_characters (str "[") s) Hg (fits_compact _ _ _ Hf))
    as (t & (s1 & E1 & Eo1 & G1) & Ht).
  exists ([91] ++ t ++ [93]). split; [|by apply text_array].
  destruct l as [|v l]; [done|]. cbn [dump_value]. unfold dump_array_compact. rewrite E1.
  exists (write_characters (str "]") s1). split_and!; [done| |done]. simpl in Eo1 |- *. by rewrite Eo1, <- !app_assoc.
Qed.

Lemma pretty_elements_ok (l : list (json F)) cur n : l <> [] -> Forall (dumps_ok true) l ->
  Forall (fun v => (depth v <= n)%nat) l -> fits true cur n ->
  forall s, good s -> 
  exists t, emits (pretty_elements (dump_value handler ensure step true) cur l s) s t /\
    elements_text dp (map canonical l) ([10] ++ t).
Proof.
  intros Hne Hl Hn Hf. assert (0 <= cur <= 512) as Hc by (destruct Hf as [? Hf]; specialize (Hf eq_refl); nia).
  induction Hl as [|v l Hv Hl IH]; [done|]. intros s Hg. inversion Hn as [|? ? Hnv Hnl]; subst.
  destruct (emits_indent cur s Hg Hc) as (w & (s0 & E0 & Eo0 & G0) & Hw).
  destruct (Hv cur s0 G0 (fits_le _ _ _ _ Hf Hnv)) as (t & (s1 & E1 & Eo1 & G1) & Htxt). destruct l as [|v2 l].
  - exists (w ++ t). split.
    + exists s1. split_and!; [|by rewrite Eo1, Eo0, <- app_assoc|done]. cbn [pretty_elements]. by rewrite E0.
    + replace ([10] ++ w ++ t) with (([10] ++ w) ++ t ++ []) by (by rewrite app_nil_r, app_assoc). by constructor; auto.
  - destruct (IH ltac:(done) Hnl (write_characters [44; 10] s1) G1) as (ts & (s2 & E2 & Eo2 & G2) & Htxts).
    exists (w ++ t ++ [44; 10] ++ ts). split.
    + exists s2. split_and!; [|simpl in *; by rewrite Eo2, Eo1, Eo0, <- !app_assoc|done].
      cbn [pretty_elements]. rewrite E0. simpl. rewrite E1. exact E2.
    + replace ([10] ++ w ++ t ++ [44; 10] ++ ts) with (([10] ++ w) ++ t ++ [] ++ [44] ++ [10] ++ ts)
        by (by rewrite <- !app_assoc). by constructor; auto.
Qed.

Lemma pretty_array_ok (l : list (json F)) : l <> [] -> Forall (dumps_ok true) l -> dumps_ok true (value_array l).
Proof.
  intros Hne Hl cur s Hg Hf. destruct (fits_deeper _ _ Hf) as (Hf1 & Hwr & Hc & Hc1).
  set (s0 := write_characters [91; 10] s).
  destruct (pretty_elements_ok l (cur + step) (foldr Nat.max 0%nat (map depth l)) Hne Hl) with (s := s0)
    as (t & (s1 & E1 & Eo1 & G1) & Ht); [|exact Hf1|done|].
  { apply Forall_forall. intros v Hv. by apply depth_elem. }
  destruct (emits_indent cur (write_characters [10] s1) G1 Hc) as (w & (s2 & E2 & Eo2 & G2) & Hw).
  exists ([91] ++ (([10] ++ t) ++ ([10] ++ w)) ++ [93]). split; [|apply text_array, elements_trail; auto].
  destruct l as [|v l]; [done|]. cbn [dump_value]. unfold dump_array_pretty. fold s0.
  rewrite Hwr, grow_indent_id, E1 by (done || lia). cbn [comp_bind]. rewrite E2. cbn [comp_bind].
  exists (write_characters (str "]") s2). split_and!; [done| |done]. simpl in *. by rewrite Eo2, Eo1, <- !app_assoc.
Qed.

(** ** Objects *)

(** A member between [before] and the value: key and separator. *)
Lemma dump_member_ok pretty (gap : bytes) (kv : bytes * json F) cur s : ws gap -> utf8_valid kv.1 ->
  dumps_ok pretty kv.2 -> good s -> fits pretty cur (depth kv.2) ->
  exists tk t, emits (dump_member handler ensure (dump_value handler ensure step pretty) ([34; 58] ++ gap) kv cur s) s
      (quoted tk ++ [58] ++ gap ++ t) /\
    string_body tk kv.1 /\ value_text dp (canonical kv.2) t.
Proof.
  intros Hgap Hk Hv Hg Hf. unfold dump_member.
  destruct (emits_escaped kv.1 (write_characters [34] s) Hg Hk) as (tk & (s1 & E1 & Eo1 & G1) & Htk).
  destruct (Hv cur (write_characters ([34; 58] ++ gap) s1) G1 Hf) as (t & (s2 & E2 & Eo2 & G2) & Ht).
  exists tk, t. split_and!; [|done|done]. exists s2. rewrite E1. cbn [comp_bind]. split_and!; [exact E2| |done].
  rewrite Eo2. cbn [write_characters o]. rewrite Eo1. cbn [write_characters o]. unfold quoted.
  by rewrite <- !app_assoc.
Qed.

Definition canonical_members (m : list (bytes * json F)) : list (bytes * json F) :=
  map (fun kv => (kv.1, canonical kv.2)) m.

Lemma compact_members_ok (m : list (bytes * json F)) cur : m <> [] -> Forall (fun kv => utf8_valid kv.1) m ->
  Forall (fun kv => dumps_ok false kv.2) m -> forall s, good s -> fits false cur 0 ->
  exists t, emits (compact_members handler ensure (dump_value handler ensure step false) cur m s) s t /\
    members_text dp (canonical_members m) t.
Proof.
  intros Hne Hk Hm. induction Hm as [|[k v] m Hv Hm IH]; [done|]. intros s Hg Hf.
  inversion Hk as [|? ? Hk1 Hk2]; subst.
  destruct (dump_member_ok false [] (k, v) cur s ws_nil Hk1 Hv Hg (fits_compact _ _ _ Hf))
    as (tk & t & (s1 & E1 & Eo1 & G1) & Htk & Ht). simpl in Htk, Ht. cbn [app] in E1. destruct m as [|kv2 m].
  - exists ([] ++ quoted tk ++ [] ++ [58] ++ [] ++ t ++ []). split; [|by constructor].
    exists s1. rewrite app_nil_r. by split_and!.
  - destruct (IH ltac:(done) Hk2 (write_characters (str ",") s1) G1 Hf) as (ts & (s2 & E2 & Eo2 & G2) & Htxts).
    exists ([] ++ quoted tk ++ [] ++ [58] ++ [] ++ t ++ [] ++ [44] ++ ts). split; [|by constructor].
    exists s2. split_and!; [| |done].
    + cbn [compact_members]. rewrite E1. exact E2.
    + rewrite Eo2. cbn [write_characters o]. rewrite Eo1. unfold quoted. by rewrite <- !app_assoc.
Qed.

Lemma canonical_sorted (m : list (bytes * json F)) : sorted_object m -> sorted_object (canonical_members m).
Proof. unfold sorted_object, keys, canonical_members. by rewrite map_map. Qed.

Lemma compact_object_ok (m : list (bytes * json F)) : m <> [] -> sorted_object m ->
  Forall (fun kv => utf8_valid kv.1) m -> Forall (fun kv => dumps_ok false kv.2) m -> dumps_ok false (value_object m).
Proof.
  intros Hne Hs Hk Hm cur s Hg Hf.
  destruct (compact_members_ok m cur Hne Hk Hm (write_characters (str "{") s) Hg (fits_compact _ _ _ Hf))
    as (t & (s1 & E1 & Eo1 & G1) & Ht).
  exists ([123] ++ t ++ [125]). split.
  - destruct m as [|v m]; [done|]. cbn [dump_value]. unfold dump_object_compact. rewrite E1.
    exists (write_characters (str "}") s1). split_and!; [done| |done].
    simpl in Eo1 |- *. by rewrite Eo1, <- !app_assoc.
  - simpl canonical. fold (canonical_members m).
    rewrite <- (object_of_sorted (canonical_members m)) by by apply canonical_sorted. by apply text_object.
Qed.

Lemma pretty_members_ok (m : list (bytes * json F)) cur n : m <> [] -> Forall (fun kv => utf8_valid kv.1) m ->
  Forall (fun kv => dumps_ok true kv.2) m -> Forall (fun kv => (depth kv.2 <= n)%nat) m -> fits true cur n ->
  forall s, good s ->
  exists t, emits (pretty_members handler ensure (dump_value handler ensure step true) cur m s) s t /\
    members_text dp (canonical_members m) ([10] ++ t).
Proof.
  intros Hne Hk Hm Hn Hf. assert (0 <= cur <= 512) as Hc by (destruct Hf as [? Hf]; specialize (Hf eq_refl); nia).
  induction Hm as [|[k v] m Hv Hm IH]; [done|]. intros s Hg.
  inversion Hk as [|? ? Hk1 Hk2]; subst. inversion Hn as [|? ? Hnv Hnl]; subst.
  assert (ws [32]) as Hsp by (repeat constructor).
  destruct (emits_indent cur s Hg Hc) as (w & (s0 & E0 & Eo0 & G0) & Hw).
  destruct (dump_member_ok true [32] (k, v) cur s0 Hsp Hk1 Hv G0 (fits_le _ _ _ _ Hf Hnv))
    as (tk & t & (s1 & E1 & Eo1 & G1) & Htk & Ht). simpl in Htk, Ht. cbn [app] in E1. destruct m as [|kv2 m].
  - exists (w ++ quoted tk ++ [58] ++ [32] ++ t). split.
    + exists s1. split_and!; [|by rewrite Eo1, Eo0, <- app_assoc|done]. cbn [pretty_members]. by rewrite E0.
    + replace ([10] ++ w ++ quoted tk ++ [58] ++ [32] ++ t)
        with (([10] ++ w) ++ quoted tk ++ [] ++ [58] ++ [32] ++ t ++ []) by (by rewrite app_nil_r).
      constructor; auto.
  - destruct (IH ltac:(done) Hk2 Hnl (write_characters [44; 10] s1) G1) as (ts & (s2 & E2 & Eo2 & G2) & Htxts).
    exists (w ++ quoted tk ++ [58] ++ [32] ++ t ++ [44; 10] ++ ts). split.
    + exists s2. split_and!; [| |done].
      * cbn [pretty_members]. rewrite E0. cbn [comp_bind]. rewrite E1. exact E2.
      * rewrite Eo2. cbn [write_characters o]. rewrite Eo1, Eo0. by rewrite <- !app_assoc.
    + change ([10] ++ w ++ quoted tk ++ [58] ++ [32] ++ t ++ [44; 10] ++ ts)
        with (([10] ++ w) ++ quoted tk ++ [] ++ [58] ++ [32] ++ t ++ [] ++ [44] ++ [10] ++ ts).
      constructor; auto.
Qed.

Lemma pretty_object_ok (m : list (bytes * json F)) : m <> [] -> sorted_object m ->
  Forall (fun kv => utf8_valid kv.1) m -> Forall (fun kv => dumps_ok true kv.2) m -> dumps_ok true (value_object m).
Proof.
  intros Hne Hs Hk Hm cur s Hg Hf. destruct (fits_deeper _ _ Hf) as (Hf1 & Hwr & Hc & Hc1).
  set (s0 := write_characters [123; 10] s).
  destruct (pretty_members_ok m (cur + step) (foldr Nat.max 0%nat (map (fun kv => depth kv.2) m)) Hne Hk Hm)
    with (s := s0) as (t & (s1 & E1 & Eo1 & G1) & Ht); [|exact Hf1|done|].
  { apply Forall_forall. intros kv Hv. by apply depth_member. }
  destruct (emits_indent cur (write_characters [10] s1) G1 Hc) as (w & (s2 & E2 & Eo2 & G2) & Hw).
  exists ([123] ++ (([10] ++ t) ++ ([10] ++ w)) ++ [125]). split.
  - destruct m as [|v m]; [done|]. cbn [dump_value]. unfold dump_object_pretty. fold s0.
    rewrite Hwr, grow_indent_id, E1 by (done || lia). cbn [comp_bind]. rewrite E2. cbn [comp_bind].
    exists (write_characters (str "}") s2). split_and!; [done| |done].
    cbn [write_characters o]. rewrite Eo2. cbn [write_characters o]. rewrite Eo1. simpl. by rewrite <- !app_assoc.
  - simpl canonical. fold (canonical_members m).
    rewrite <- (object_of_sorted (canonical_members m)) by by apply canonical_sorted.
    apply text_object, members_trail; auto.
Qed.

(** ** Every value *)

Lemma emits_float f s : good s -> float_prints dp f ->
  exists t, emits (dump_float f s) s t /\ value_text dp (canonical (value_number_float f)) t.
Proof.
  intros (Hn & Hi & Hw) Hf. unfold dump_float. simpl canonical. unfold float_prints in Hf.
  destruct (isfinite f); [|exists (str "null"); split; [by apply emits_write|constructor]].
  destruct (Hf eq_refl (number_buffer s) Hn) as (buf & e & -> & Hl & Ht). exists (take e buf).
  split; [|by constructor]. cbn [comp_bind]. by eexists.
Qed.

Lemma dumps_json pretty j : wf_json j -> printable dp j -> dumps_ok pretty j.
Proof.
  induction j as [|m IH|l IH|x|b|z|z|f|x t|] using json_ind'; intros Hw Hf;
    inversion Hw as [|? Hs Hk Hv|? Hl|? Hu| |? Hz|? Hz|]; inversion Hf; subst; [..|by intros cur s Hg _; apply emits_float].
  - intros cur s Hg _. exists (str "null"). split; [by apply emits_write|constructor].
  - destruct (decide (m = [])) as [->|Hne].
    { intros cur s Hg _. exists (str "{}"). split; [by apply emits_write|]. by apply (text_empty_object _ []). }
    assert (Forall (fun kv => dumps_ok pretty kv.2) m).
    { apply Forall_forall. intros kv Hin. rewrite !Forall_forall in *. auto. }
    destruct pretty; [by apply pretty_object_ok|by apply compact_object_ok].
  - destruct (decide (l = [])) as [->|Hne].
    { intros cur s Hg _. exists (str "[]"). split; [by apply emits_write|]. by apply (text_empty_array _ []). }
    assert (Forall (dumps_ok pretty) l).
    { apply Forall_forall. intros v Hin. rewrite !Forall_forall in *. auto. }
    destruct pretty; [by apply pretty_array_ok|by apply compact_array_ok].
  - intros cur s Hg _.
    destruct (emits_escaped x (write_characters [34] s) Hg Hu) as (t & (s1 & E1 & Eo1 & G1) & Ht).
    exists (quoted t). split; [|by apply text_string]. simpl. rewrite E1.
    exists (write_characters [34] s1). split_and!; [done| |done].
    cbn [write_characters o] in Eo1 |- *. rewrite Eo1. unfold quoted. by rewrite <- !app_assoc.
  - intros cur s Hg _. exists (str (if b then "true" else "false")). split; [by apply emits_write|].
    destruct b; constructor.
  - intros cur s Hg _. exists (int_text z). split; [apply emits_integer; [done|lia]|].
    simpl. apply text_number, int_text_number. lia.
  - intros cur s Hg _. exists (int_text z). split; [apply emits_integer; [done|lia]|].
    simpl. apply text_number. pose proof (int_text_number (F:=F) dp z ltac:(lia)) as Hn.
    by destruct (Z.ltb_spec z 0); [lia|].
Qed.
End Dump.

(** ** Texts are bytes *)

Lemma all_digits_bytes ds : all_digits ds -> Forall is_byte ds.
Proof. intros H. eapply Forall_impl; [exact H|]. unfold is_byte. simpl. lia. Qed.

Lemma ws_bytes w : ws w -> Forall is_byte w.
Proof. intros H. eapply Forall_impl; [exact H|]. unfold ws_char, is_byte. simpl. lia. Qed.

Lemma hex4_bytes h cp : hex4 h cp -> Forall is_byte h.
Proof. intros [a b c d va vb vc vd]. unfold hex_digit_value, is_byte in *. repeat constructor; lia. Qed.

Lemma string_body_bytes t v : string_body t v -> Forall is_byte t.
Proof.
  induction 1 as [|t v ts vs Ht _ IH]; [constructor|]. apply Forall_app. split; [|done].
  destruct Ht as [cp Hcp|c v Hin|h cp Hh|h1 h2 u1 u2 Hh1 Hh2].
  - by apply utf8_encode_bytes.
  - repeat constructor; unfold is_byte; try lia;
      repeat (apply elem_of_cons in Hin as [[= -> ->]|Hin]; [lia|]); by apply elem_of_nil in Hin.
  - apply hex4_bytes in Hh. repeat constructor; done.
  - apply hex4_bytes in Hh1, Hh2. repeat (apply Forall_app; split); auto; repeat constructor; done.
Qed.

Lemma quoted_bytes t v : string_body t v -> Forall is_byte (quoted t).
Proof. intros Ht%string_body_bytes. unfold quoted. repeat (apply Forall_app; split); auto; repeat constructor; done. Qed.

Lemma int_part_bytes ds : int_part ds -> Forall is_byte ds.
Proof. intros H. by apply all_digits_bytes, int_part_digits. Qed.

Lemma frac_part_bytes fr : fr = [] \/ frac_part fr -> Forall is_byte fr.
Proof.
  intros [->|[d ds Hd Hds]]; [constructor|]. apply all_digits_bytes in Hds.
  repeat constructor; unfold is_byte; try lia; done.
Qed.

Lemma exp_part_bytes ex : ex = [] \/ exp_part ex -> Forall is_byte ex.
Proof.
  intros [->|[e d ds He Hd Hds|e sg d ds He Hs Hd Hds]]; [constructor|..]; apply all_digits_bytes in Hds;
    repeat constructor; unfold is_byte; try lia; done.
Qed.

Lemma utf8_valid_str x : Forall (fun c => c < 0x80) (str x) -> utf8_valid (str x).
Proof.
  intros H. assert (forall b, Forall is_byte b -> Forall (fun c => c < 0x80) b -> utf8_valid b) as Hb.
  { clear. induction 1 as [|c b Hc _ IH]; intros Hb; [apply utf8_valid_nil|].
    inversion Hb; subst. apply (utf8_valid_app [c]); [apply utf8_valid_ascii; unfold is_byte in Hc; lia|auto]. }
  apply Hb; [apply str_bytes|done].
Qed.

Section Bytes.
Context {F : Type} `{FloatOps F}.
Variable dp : Z.

Lemma number_text_bytes (j : json F) t : number_text dp j t -> Forall is_byte t.
Proof.
  assert (is_byte 45) as H45 by (unfold is_byte; lia).
  intros [ds Hds|ds Hds|ds Hds|ds Hds|sign ds fr ex Hs Hds Hfr Hex _ t' _];
    try apply Forall_cons; auto using int_part_bytes.
  unfold t'. repeat (apply Forall_app; split); auto using int_part_bytes, frac_part_bytes, exp_part_bytes.
  destruct Hs as [-> | ->]; repeat constructor; done.
Qed.

Lemma grammar_bytes :
  (forall j t, value_text (F:=F) dp j t -> Forall is_byte t) /\
  (forall es t, elements_text (F:=F) dp es t -> Forall is_byte t) /\
  (forall ms t, members_text (F:=F) dp ms t -> Forall is_byte t).
Proof.
  assert (forall c, 0 <= c < 256 -> Forall is_byte [c]) as H1 by (intros; constructor; [done|constructor]).
  apply (json_text_ind F H dp (fun j t _ => Forall is_byte t) (fun es t _ => Forall is_byte t)
    (fun ms t _ => Forall is_byte t)); intros;
    try apply str_bytes; try (by eapply number_text_bytes); try (by eapply quoted_bytes);
    repeat (apply Forall_app; split);
    solve [auto using ws_bytes | by eapply quoted_bytes | by eapply string_body_bytes | apply H1; lia].
Qed.

Lemma json_text_bytes (j : json F) t : json_text dp j t -> Forall is_byte t.
Proof.
  intros (w1 & u & w2 & Hw1 & Hu & Hw2 & ->).
  repeat (apply Forall_app; split); auto using ws_bytes. exact (proj1 grammar_bytes _ _ Hu).
Qed.
End Bytes.

(** ** Properties *)

Section Properties.
Context {F : Type} `{FloatOps F}.

(** Completeness of the parser: every JSON text of the grammar, followed
    by the end of the input or by a null character and anything after it, is
    parsed to the value the grammar assigns to it, in both error modes and
    with or without comment support. *)
Theorem parse_complete dp (j : json F) t rest allow ignore :
  json_text dp j t -> input_end rest -> Forall is_byte rest ->
  json_parse (t ++ rest) allow ignore [dp] = Ret j.
Proof.
  intros Ht Hr Hb. apply json_parse_text; [done|done|].
  apply Forall_app. split; [by eapply json_text_bytes|done].
Qed.

(** The indentation the serializer supports without growing its string. *)
Definition indent_fits (indent : Z) (j : json F) : Prop :=
  indent < 0 \/ indent * Z.of_nat (depth j) <= 512.

Lemma dump_text (j : json F) indent indent_char ensure handler dp : wf_json j -> printable dp j ->
  ws_char indent_char -> indent_fits indent j -> indent < 2 ^ 31 ->
  exists t, dump j indent indent_char ensure handler = Ret t /\ json_text dp (canonical j) t.
Proof.
  intros Hw Hf Hc Hi H31. unfold dump. set (s0 := serializer_init indent_char).
  assert (good s0) as Hg.
  { unfold good, s0, serializer_init. cbn [number_buffer indent_string]. rewrite !length_replicate.
    split_and!; [done|done|]. by apply Forall_replicate. }
  assert (forall p st, fits st p 0 (depth j) ->
    exists t, (let* s := dump_value handler ensure st p j 0 s0 in Ret (o s)) = Ret t /\
      json_text dp (canonical j) t) as Hd.
  { intros p st Hfit. destruct (dumps_json dp handler ensure st p j Hw Hf 0 s0 Hg Hfit) as (t & (s1 & -> & Eo & _) & Ht).
    exists t. split; [cbn [comp_bind]; by rewrite Eo|]. exists [], t, []. split_and!; [constructor|done|constructor|].
    by rewrite app_nil_r. }
  destruct (Z.leb_spec 0 indent); apply Hd.
  - rewrite wrapu_small by lia. split; [lia|]. intros _. destruct Hi; lia.
  - by split.
Qed.

(** Round trip: [dump] of a well-formed value whose floating-point numbers
    are printed as texts of the numbers returns, compact or with an
    indentation that fits the indent buffer, escaping or not, and parsing its
    output (up to a null character) gives the canonical value. *)
Lemma dump_parse_printable (j : json F) indent indent_char ensure handler dp allow ignore rest :
  wf_json j -> printable dp j -> ws_char indent_char -> indent_fits indent j -> indent < 2 ^ 31 ->
  input_end rest -> Forall is_byte rest ->
  exists t, dump j indent indent_char ensure handler = Ret t /\
    json_parse (t ++ rest) allow ignore [dp] = Ret (canonical j).
Proof.
  intros Hw Hf Hc Hi H31 Hr Hb.
  destruct (dump_text j indent indent_char ensure handler dp Hw Hf Hc Hi H31) as (t & E & Ht).
  exists t. split; [done|]. apply json_parse_text; [done|done|].
  apply Forall_app. split; [by eapply json_text_bytes|done].
Qed.

(** A parsed value is well-formed, so it can be dumped and parsed again. *)
Lemma parse_wf i (j : json F) ignore dp : Forall is_byte i -> json_parse i true ignore [dp] = Ret j -> wf_json j.
Proof.
  intros Hi Hp. pose proof (json_parse_ok (F:=F) i true ignore dp Hi) as Hw. rewrite Hp in Hw.
  by destruct Hw as [Hw|[? _]].
Qed.
End Properties.

(** ** Witnesses *)

#[local] Existing Instance example_floats.

Lemma parse_complete_witness :
  json_parse (F:=Z) (str " [ ] " ++ [0; 255]) true false [46] = Ret (value_array []).
Proof.
  apply (parse_complete 46 (value_array []) (str " [ ] ") [0; 255] true false).
  - exists [32], (str "[ ]"), [32]. split_and!; [repeat constructor| |repeat constructor|reflexivity].
    apply (text_empty_array 46 [32]). repeat constructor.
  - right. exists [255]. reflexivity.
  - repeat constructor; lia.
Defined.
