(* ===== verification/JsonLexerSound.v ===== *)
(** The lexer accepts only the grammar: whatever a successful scan consumed
    is white space and the text of the token it returns (without support for
    comments). *)
From S2P Require Import Prelude CLib Utf8 JsonValue JsonGrammar JsonLexer JsonLexerFacts JsonLexerComplete.

Section Sound.
Context {F : Type} `{FloatOps F}.
Implicit Types (s : lexer F) (p : bytes).

(** ** Strings *)

Lemma body_one t v : string_item t v -> string_body t v.
Proof. intros Hi. rewrite <- (app_nil_r t), <- (app_nil_r v). constructor; [done|constructor]. Qed.

Lemma body_app t1 v1 t2 v2 : string_body t1 v1 -> string_body t2 v2 -> string_body (t1 ++ t2) (v1 ++ v2).
Proof. intros H1 H2. induction H1; [done|]. rewrite <- !app_assoc. by constructor. Qed.

Lemma body_utf8 cps : Forall is_scalar cps -> Forall (fun b => 0x80 <= b) (utf8_encode_all cps) ->
  string_body (utf8_encode_all cps) (utf8_encode_all cps).
Proof.
  induction 1 as [|cp cps Hc _ IH]; intros Hb; [constructor|]. simpl in Hb |- *. apply Forall_app in Hb as [Hb1 Hb2].
  constructor; [|by apply IH].
  assert (0x80 <= cp).
  { destruct (Z_lt_ge_dec cp 0x80); [|lia]. unfold utf8_encode in Hb1. destruct (Z.ltb_spec cp 0x80); [|lia]. by inversion Hb1. }
  by apply item_plain; [|lia..].
Qed.

Lemma hex_value_sound c d : hex_value c = Some d -> hex_digit_value c d.
Proof.
  unfold hex_value, hex_digit_value. intros Hd.
  repeat match type of Hd with (if ?b then _ else _) = _ => destruct b eqn:?; [injection Hd as <-|] end; [..|done];
    repeat match goal with Hr : in_range _ _ _ = true |- _ => apply in_range_spec in Hr end; lia.
Qed.

Lemma hex_read s p d : At s p -> hex_value (cur (get s)) = Some d ->
  exists c p', p = c :: p' /\ hex_digit_value c d /\ At (get s) p'.
Proof.
  intros Ha Hd. destruct (read_char s p _ Ha eq_refl) as (p' & -> & Hr).
  { intros E. by rewrite E in Hd. }
  exists (cur (get s)), p'. split_and!; [done|by apply hex_value_sound|by eapply Rd_At].
Qed.

Lemma code_unit_sound s p cp s' : At s p -> code_unit s = (cp, s') -> cp <> -1 ->
  exists h p', p = h ++ p' /\ hex4 h cp /\ At s' p' /\ kept s s'.
Proof.
  intros Ha E Hne. unfold code_unit in E.
  rewrite get_codepoint_loop_cons in E. destruct (hex_value (cur (get s))) as [va|] eqn:E1; [|congruence].
  destruct (hex_read _ _ _ Ha E1) as (a & p1 & -> & Ha1 & A1).
  rewrite get_codepoint_loop_cons in E. destruct (hex_value (cur (get (get s)))) as [vb|] eqn:E2; [|congruence].
  destruct (hex_read _ _ _ A1 E2) as (b & p2 & -> & Hb & A2).
  rewrite get_codepoint_loop_cons in E. destruct (hex_value (cur (get (get (get s))))) as [vc|] eqn:E3; [|congruence].
  destruct (hex_read _ _ _ A2 E3) as (c & p3 & -> & Hc & A3).
  rewrite get_codepoint_loop_cons in E. destruct (hex_value (cur (get (get (get (get s)))))) as [vd|] eqn:E4; [|congruence].
  destruct (hex_read _ _ _ A3 E4) as (d & p4 & -> & Hd & A4).
  simpl in E. injection E as <- <-. exists [a; b; c; d], p4. split_and!; [done| |done|].
  - replace (0 + va ≪ 12 + vb ≪ 8 + vc ≪ 4 + vd ≪ 0) with (va * 4096 + vb * 256 + vc * 16 + vd); [by constructor|].
    rewrite !Z.shiftl_mul_pow2 by lia. lia.
  - do 3 (eapply kept_trans; [apply kept_get|]). apply kept_get.
Qed.

(** What a turn of the string scanner did, from before the character it read:
    it consumed the text of characters of the string, or its end. *)
Definition string_turn s p (r : scan_step F) : Prop :=
  match r with
  | Continue s' => exists t v p', p = t ++ p' /\ string_body t v /\ At s' p' /\ kept s s'
  | Return t s' => t = tok_parse_error \/ (t = tok_string /\ exists p', p = 34 :: p' /\ At s' p' /\ kept s s')
  end.

(** The text of an escape, after the backslash. *)
Definition escape_turn s p (r : scan_step F) (before : bytes) : Prop :=
  match r with
  | Continue s' => exists t v p', p = t ++ p' /\ string_item (before ++ t) v /\ At s' p' /\ kept s s'
  | Return t s' => t = tok_parse_error
  end.

Definition escaped s p before : comp (scan_step F) -> Prop := turned (fun r => escape_turn s p r before).

Lemma escaped_fail s p before s' e : escaped s p before (Ret (fail s' e)).
Proof. by apply turned_ret. Qed.

Lemma unicode_sound s p : At s p -> cur s = 117 -> escaped s p [92; 117] (scan_unicode_escape s).
Proof.
  intros Ha H117. unfold scan_unicode_escape. rewrite get_codepoint_unit by done. cbn [comp_bind].
  destruct (code_unit s) as [cp1 s1] eqn:E1.
  destruct (Z.eqb_spec cp1 (-1)) as [|Hne]; [apply escaped_fail|].
  destruct (code_unit_sound _ _ _ _ Ha E1 Hne) as (h1 & p1 & -> & Hh1 & A1 & K1).
  destruct (in_range 0xD800 0xDBFF cp1) eqn:Ehi.
  - destruct (Z.eqb_spec (cur (get s1)) 92) as [Ec|]; [|apply escaped_fail].
    destruct (read_char _ _ _ A1 Ec ltac:(done)) as (p2 & -> & R2).
    destruct (Z.eqb_spec (cur (get (get s1))) 117) as [Eu|]; [|apply escaped_fail].
    destruct (read_char _ _ _ (Rd_At _ _ _ R2) Eu ltac:(done)) as (p3 & -> & R3).
    rewrite get_codepoint_unit by done. cbn [comp_bind].
    destruct (code_unit (get (get s1))) as [cp2 s2] eqn:E2.
    destruct (Z.eqb_spec cp2 (-1)) as [|Hne2]; [apply escaped_fail|].
    destruct (code_unit_sound _ _ _ _ (Rd_At _ _ _ R3) E2 Hne2) as (h2 & p4 & -> & Hh2 & A4 & K4).
    destruct (in_range 0xDC00 0xDFFF cp2) eqn:Elo; [|apply escaped_fail].
    apply in_range_spec in Ehi, Elo.
    change (wrapu 32 (wrapu 32 (Z.shiftl cp1 10 + cp2) - 0x35FDC00)) with (pair_codepoint cp1 cp2).
    rewrite add_codepoint_scalar by (rewrite pair_codepoint_eq by done; right; lia).
    apply turned_ret. exists (h1 ++ [92; 117] ++ h2), (utf8_encode (0x10000 + (cp1 - 0xD800) * 1024 + (cp2 - 0xDC00))), p4.
    split_and!; [by rewrite <- !app_assoc|by apply (item_surrogates h1 h2)|by apply At_add_all|].
    keep.
  - destruct (in_range 0xDC00 0xDFFF cp1) eqn:Elo; [apply escaped_fail|]. apply in_range_false in Ehi, Elo.
    assert (is_scalar cp1) by (pose proof (hex4_range _ _ Hh1); unfold is_scalar; lia).
    rewrite add_codepoint_scalar by done. apply turned_ret. exists h1, (utf8_encode cp1), p1. split_and!; [done|apply item_unicode; [done|lia]|by apply At_add_all|keep].
Qed.

Lemma escape_sound s p : At s p -> escaped s p [92] (scan_escape (get s)).
Proof.
  intros Ha. unfold scan_escape.
  assert (forall c v, cur (get s) = c -> c <> EOF ->
    (c, v) ∈ [(34, 34); (92, 92); (47, 47); (98, 8); (102, 12); (110, 10); (114, 13); (116, 9)] ->
    escaped s p [92] (Ret (Continue (add v (get s))))) as Hesc.
  { intros c v Hc Hne Hin. apply turned_ret. destruct (read_char _ _ _ Ha Hc Hne) as (p' & -> & Hr).
    exists [c]. eexists _, p'. split_and!; [done|by apply item_escape|by eapply Rd_At, Rd_add|keep]. }
  repeat match goal with |- escaped _ _ _ (if cur (get s) =? ?k then Ret _ else _) =>
    destruct (Z.eqb_spec (cur (get s)) k) as [E|];
    [apply (Hesc _ _ E); [done|rewrite !elem_of_cons; tauto]|] end.
  destruct (Z.eqb_spec (cur (get s)) 117) as [E|]; [|apply escaped_fail].
  destruct (read_char s p _ Ha E ltac:(done)) as (p' & -> & Hr).
  eapply turned_mono; [by apply (unicode_sound _ _ (Rd_At _ _ _ Hr))|].
  intros [s'|t s'] Hu; simpl in *; [|done].
  destruct Hu as (t & v & p2 & -> & Hi & A2 & K2). exists (117 :: t). eexists _, p2.
  split_and!; [done|exact Hi|done|keep].
Qed.

Lemma next_bytes_sound rs : forall s p s', At s p -> next_bytes rs s = (true, s') ->
  Forall (fun r => 0x80 <= r.1) rs ->
  exists bs p', p = bs ++ p' /\ Forall2 (fun b r => in_range r.1 r.2 b = true) bs rs /\
    Forall (fun b => 0x80 <= b) bs /\ At s' p' /\ kept s s'.
Proof.
  induction rs as [|[lo hi] rs IH]; intros s p s' Ha E Hrs; simpl in E.
  - injection E as <-. exists [], p. by split_and!.
  - apply Forall_cons in Hrs as [Hlo Hrs]. simpl in Hlo. destruct (in_range lo hi (cur (get s))) eqn:Ein; [|done].
    apply in_range_spec in Ein as Hc.
    destruct (read_char s p _ Ha eq_refl) as (p1 & -> & Hr); [unfold EOF; lia|].
    destruct (IH _ _ _ (Rd_At _ _ _ (Rd_add _ _ _ (cur (get s)) Hr)) E Hrs) as (bs & p2 & -> & Hf & Hb & A2 & K2).
    exists (cur (get s) :: bs), p2. split_and!; [done|by constructor|constructor; [lia|done]|done|].
    keep.
Qed.

Lemma utf8_ranges_high c rs : utf8_ranges c = Some rs -> Forall (fun r => 0x80 <= r.1) rs.
Proof.
  unfold utf8_ranges. intros E.
  repeat match type of E with (if ?b then _ else _) = _ => destruct b; [injection E as <-|] end;
    [..|done]; repeat constructor; simpl; lia.
Qed.

Lemma multibyte_sound s p : At s p -> turned (string_turn s p) (scan_string_multibyte (get s)).
Proof.
  intros Ha. unfold scan_string_multibyte.
  destruct (utf8_ranges (cur (get s))) as [rs|] eqn:E; [|by apply turned_ret; left].
  destruct (utf8_ranges_bounds _ _ E) as [Hc _]. rewrite (next_byte_in_range_ret _ _ _ E). cbn [comp_bind].
  destruct (next_bytes rs _) as [[] s'] eqn:En; apply turned_ret; [|by left].
  destruct (read_char s p _ Ha eq_refl) as (p1 & -> & Hr); [unfold EOF; lia|].
  destruct (next_bytes_sound _ _ _ _ (Rd_At _ _ _ (Rd_add _ _ _ (cur (get s)) Hr)) En (utf8_ranges_high _ _ E))
    as (bs & p2 & -> & Hf & Hb & A2 & K2).
  destruct (utf8_ranges_valid _ _ _ E Hf) as (cps & Hs & Hcps).
  exists (cur (get s) :: bs). eexists _, p2. split_and!; [done| |done|keep].
  rewrite Hcps. apply body_utf8; [done|]. rewrite <- Hcps. constructor; [lia|done].
Qed.

Lemma string_body_sound s p : At s p -> turned (string_turn s p) (scan_string_body (get s)).
Proof.
  intros Ha. unfold scan_string_body.
  destruct (Z.eqb_spec (cur (get s)) EOF) as [|Hne]; [by apply turned_ret; left|].
  destruct (read_char s p _ Ha eq_refl Hne) as (p1 & -> & Hr).
  destruct (Z.eqb_spec (cur (get s)) 34) as [E|H34].
  { apply turned_ret. right. split; [done|]. exists p1. rewrite E. split_and!; [done|by eapply Rd_At|keep]. }
  destruct (Z.eqb_spec (cur (get s)) 92) as [E|H92].
  { eapply turned_mono; [apply (escape_sound _ _ (Rd_At _ _ _ Hr))|].
    intros [s'|t s'] He; simpl in *; [|by left].
    destruct He as (t & v & p2 & -> & Hi & A2 & K2). exists (92 :: t), v, p2. rewrite E.
    split_and!; [done|by apply body_one|done|keep]. }
  destruct (in_range 0 0x1F (cur (get s))) eqn:E0; [by apply turned_ret; left|].
  destruct (in_range 0x20 0x7F (cur (get s))) eqn:E1; [|by apply multibyte_sound].
  apply in_range_spec in E1. apply turned_ret. exists [cur (get s)], [cur (get s)], p1.
  split_and!; [done| |by eapply Rd_At, Rd_add|keep].
  pose proof (item_plain (cur (get s))) as Hi. unfold utf8_encode in Hi.
  destruct (Z.ltb_spec (cur (get s)) 0x80); [|lia]. apply body_one, Hi; [left; lia|lia..].
Qed.

Lemma string_loop_sound fuel : forall s p t s', At s p -> scan_string_loop fuel s = Ret (t, s') ->
  t = tok_parse_error \/
  (t = tok_string /\ exists b v p', p = b ++ [34] ++ p' /\ string_body b v /\ At s' p' /\ kept s s').
Proof.
  induction fuel as [|fuel IH]; intros s p t s' Ha E; [done|]. cbn [scan_string_loop] in E.
  destruct (string_body_sound s p Ha) as (x & Ex & Hb). rewrite Ex in E. cbn [comp_bind] in E.
  destruct x as [s1|t1 s1]; simpl in Hb.
  - destruct Hb as (b1 & v1 & p1 & -> & Hb1 & A1 & K1).
    destruct (IH _ _ _ _ A1 E) as [->|(-> & b & v & p2 & -> & Hb & A2 & K2)]; [by left|right].
    split; [done|]. exists (b1 ++ b), (v1 ++ v), p2.
    split_and!; [by rewrite <- app_assoc|by apply body_app|done|keep].
  - injection E as <- <-. destruct Hb as [->|(-> & p1 & -> & A1 & K1)]; [by left|right].
    split; [done|]. exists [], [], p1. split_and!; [done|constructor|done|done].
Qed.

Lemma string_sound s p t s' : Rd s 34 p -> scan_string s = Ret (t, s') ->
  t = tok_parse_error \/
  (t = tok_string /\ exists b v p', p = b ++ [34] ++ p' /\ string_body b v /\ At s' p' /\ kept s s').
Proof.
  intros Hr E. rewrite scan_string_reset in E by apply Hr.
  exact (string_loop_sound _ (reset s) p t s' (Rd_At _ _ _ (Rd_reset _ _ _ Hr)) E).
Qed.

(** ** Numbers *)

(** A token of a number and its text; an overflowing number has no value. *)
Definition number_token dp (t : token_type) s (u : bytes) : Prop :=
  (t = tok_unsigned \/ t = tok_integer \/ t = tok_float) /\
  ((t = tok_float -> isfinite (value_float s) = true) -> exists j : json F, number_text dp j u).

Lemma number_done_sound nt s c p t s' u : Rd s c p -> num_read num_done nt u ->
  token_buffer s = localized (decimal_point_char s) u -> scan_number_done nt s = Ret (t, s') ->
  number_token (decimal_point_char s) t s' u /\ (forall q, At (back s) q -> At s' q) /\ kept (back s) s'.
Proof.
  intros Hr Hu Hb E.
  destruct (scan_number_done_cases _ _ _ _ _ Hr Hu Hb)
    as [[Ed Hc]|(ds & Hd & [(-> & Hv & Ed)|(-> & Hv & Ed)])]; rewrite Ed in E; injection E as <- <-;
    (split; [|split; [done|split_and!; done || apply Z.le_refl]]).
  - split; [by right; right|]. simpl. intros Hfin. specialize (Hfin eq_refl).
    destruct Hc as [-> |(ds & Hd & Eb & [[-> Hv]|[-> Hv]])].
    + inversion Hu as [| | | | | | | |sign ds Hs Hd Et|sign ds fr ex Hs Hd Hf Hx Hne]; subst.
      { by destruct Hs as [-> | ->]. }
      rewrite Hb, <- !app_assoc in Hfin. rewrite <- !app_assoc. eexists. by apply number_float.
    + rewrite Eb in Hfin. eexists. by apply (number_big _ ds).
    + rewrite Eb in Hfin. eexists. by apply (number_big_negative _ ds).
  - split; [by left|]. intros _. eexists. by apply (number_unsigned _ ds).
  - split; [by right; left|]. intros _. eexists. by apply (number_negative _ ds).
Qed.

Lemma number_loop_sound fuel : forall st nt s p u t s', At s p -> num_read st nt u -> st <> num_done ->
  token_buffer s = localized (decimal_point_char s) u -> scan_number_loop fuel st nt s = Ret (t, s') ->
  t = tok_parse_error \/
  exists u' p', u ++ p = u' ++ p' /\ number_token (decimal_point_char s) t s' u' /\ At s' p' /\ kept s s'.
Proof.
  induction fuel as [|fuel IH]; intros st nt s p u t s' Ha Hr Hst Hb E; [by destruct st|].
  replace (scan_number_loop (S fuel) st nt s) with
    (match scan_number_label st nt s with
     | NGoto st nt s => scan_number_loop fuel st nt s
     | NFail s => Ret (tok_parse_error, s)
     end) in E by (by destruct st).
  pose proof (num_label_sound st nt s p u Ha Hr Hst Hb) as Hl.
  destruct (scan_number_label st nt s) as [st1 nt1 s1|s1]; [|injection E as <- <-; by left].
  destruct (decide (st1 = num_done)) as [->|Hne].
  - destruct Hl as [-> Hd]. assert (scan_number_done nt1 (get s) = Ret (t, s')) as E1 by (by destruct fuel).
    destruct (number_done_sound nt1 (get s) _ _ t s' u (get_At _ _ Ha) Hd Hb E1) as (Hn & Hi & Hk). right. exists u, p.
    split_and!; [done|exact Hn| |].
    + by apply Hi, back_get.
    + destruct Hk as (K1 & K2 & K3). split_and!; [done|done|]. rewrite crt_back, crt_get in K3. lia.
  - assert (exists c p', p = c :: p' /\ num_read st1 nt1 (u ++ [c]) /\
      token_buffer s1 = localized (decimal_point_char s) (u ++ [c]) /\ At s1 p' /\ kept s s1)
      as (c & p1 & -> & Hr1 & Hb1 & A1 & K1) by (by destruct st1).
    assert (decimal_point_char s1 = decimal_point_char s) as Hdp by apply K1.
    destruct (IH st1 nt1 s1 p1 (u ++ [c]) t s' A1 Hr1 Hne) as [->|(u' & p' & Eu & Hn & A' & K')];
      [by rewrite Hdp|done|by left|right].
    exists u', p'. rewrite <- app_assoc in Eu. rewrite Hdp in Hn. split_and!; [done..|keep].
Qed.

Lemma number_sound s c p t s' : Rd s c p -> (c =? 45) || in_range 48 57 c = true ->
  scan_number s = Ret (t, s') ->
  t = tok_parse_error \/
  exists u p', c :: p = u ++ p' /\ number_token (decimal_point_char s) t s' u /\ At s' p' /\ kept s s'.
Proof.
  intros Hr Hc E. destruct (number_start s c p Hr Hc) as (st & Hu & Hst & Es & Ha & Hb). rewrite Es in E.
  exact (number_loop_sound _ _ _ _ _ _ _ _ Ha Hu Hst Hb E).
Qed.

(** ** Literals *)

Lemma literal_rest_sound text t : Forall (fun c => 0 <= c < 128) text -> forall s p t' s', At s p ->
  scan_literal_rest text t s = (t', s') ->
  t' = tok_parse_error \/ (t' = t /\ exists p', p = text ++ p' /\ At s' p' /\ kept s s').
Proof.
  induction 1 as [|c text Hc _ IH]; intros s p t' s' Ha E; simpl in E.
  - injection E as <- <-. right. split; [done|]. exists p. split_and!; [done|done|keep].
  - destruct (Z.eqb_spec (wrapu 8 (cur (get s))) c) as [Ec|]; [|injection E as <- <-; by left].
    assert (cur (get s) <> EOF) as Hne by (intros Ee; rewrite Ee in Ec; change (wrapu 8 EOF) with 255 in Ec; lia).
    destruct (read_char s p _ Ha eq_refl Hne) as (p1 & -> & Hr). pose proof (At_head _ _ _ Ha) as Hb.
    rewrite wrapu_small in Ec by done. rewrite Ec in *.
    destruct (IH _ _ _ _ (Rd_At _ _ _ Hr) E) as [?|(-> & p2 & -> & A2 & K2)]; [by left|right].
    split; [done|]. exists p2. split_and!; [done|done|keep].
Qed.

(** ** Tokens *)

(** The text of a token, from its first character to the rest [p]. *)
Definition token_text dp (t : token_type) s (u p : bytes) : Prop :=
  match t with
  | begin_array => u = [91]
  | end_array => u = [93]
  | begin_object => u = [123]
  | end_object => u = [125]
  | name_separator => u = [58]
  | value_separator => u = [44]
  | literal_true => u = str "true"
  | literal_false => u = str "false"
  | literal_null => u = str "null"
  | tok_string => exists b v, u = quoted b /\ string_body b v
  | tok_unsigned | tok_integer | tok_float => number_token dp t s u
  | end_of_input => (u = [] /\ p = []) \/ u = [0]
  | _ => False
  end.

(** What a scan of [p] did, unless it failed. *)
Definition token_read s p (t : token_type) s' : Prop :=
  t = tok_parse_error \/
  exists u p', p = u ++ p' /\ token_text (decimal_point_char s) t s' u p' /\ At s' p' /\ kept s s'.

Definition current_text (c : Z) p : bytes := if c =? EOF then [] else c :: p.

Lemma read_one s c p t : Rd s c p -> c <> EOF -> (forall p', token_text (decimal_point_char s) t s [c] p') ->
  token_read s (current_text c p) t s.
Proof.
  intros Hr Hne Ht. right. exists [c], p. unfold current_text. destruct (Z.eqb_spec c EOF); [done|].
  split_and!; [done|done|by eapply Rd_At|keep].
Qed.

Lemma read_literal s c p (x : string) t t' s' : Rd s c p -> str x = c :: tail (str x) -> c <> EOF ->
  forallb (in_range 0 127) (str x) = true -> (forall s' p', token_text (decimal_point_char s) t s' (str x) p') ->
  scan_literal (str x) t s = Ret (t', s') -> token_read s (current_text c p) t' s'.
Proof.
  intros Hr Ex Hne Hx Ht E.
  assert (Forall (fun c => 0 <= c < 128) (str x)) as Hasc.
  { apply Forall_forall. intros c' Hc'. rewrite forallb_forall in Hx.
    apply list_elem_of_In, Hx, in_range_spec in Hc'. lia. }
  clear Hx. rename Hasc into Hx. unfold current_text. destruct (Z.eqb_spec c EOF) as [|_]; [done|].
  assert (wrapu 8 (cur s) = hd 0 (str x)) as Hcur.
  { rewrite (proj1 (proj2 Hr)), Ex. rewrite Ex in Hx. apply Forall_inv in Hx. rewrite wrapu_small; simpl; lia. }
  rewrite scan_literal_ret in E by done. injection E as E.
  rewrite Ex in Hx. apply Forall_cons in Hx as [_ Hx].
  destruct (literal_rest_sound _ t Hx s p t' s' (Rd_At _ _ _ Hr) E) as [->|(-> & p' & -> & A' & K')]; [by left|right].
  exists (str x), p'. split_and!; [by rewrite Ex at 2|done..].
Qed.

Lemma scan_token_sound s c p t s' : Rd s c p -> scan_token s = Ret (t, s') -> token_read s (current_text c p) t s'.
Proof.
  intros Hr E. unfold scan_token in E. rewrite (proj1 (proj2 Hr)) in E.
  repeat match type of E with (if c =? ?k then Ret _ else _) = _ =>
    destruct (Z.eqb_spec c k) as [->|]; [injection E as <- <-; by apply read_one|] end.
  destruct (Z.eqb_spec c 116) as [->|]; [eapply (read_literal _ _ _ "true" literal_true); [exact Hr|done..|exact E]|].
  destruct (Z.eqb_spec c 102) as [->|]; [eapply (read_literal _ _ _ "false" literal_false); [exact Hr|done..|exact E]|].
  destruct (Z.eqb_spec c 110) as [->|]; [eapply (read_literal _ _ _ "null" literal_null); [exact Hr|done..|exact E]|].
  destruct (Z.eqb_spec c 34) as [->|].
  { destruct (string_sound _ _ _ _ Hr E) as [->|(-> & b & v & p' & -> & Hb & A' & K')]; [by left|right].
    exists (quoted b), p'. split_and!; [unfold quoted, current_text; simpl; by rewrite <- app_assoc|by exists b, v|done..]. }
  destruct ((c =? 45) || in_range 48 57 c) eqn:En.
  { destruct (number_sound _ _ _ _ _ Hr En E) as [->|(u & p' & Eu & Hn & A' & K')]; [by left|right].
    exists u, p'. unfold current_text. destruct (Z.eqb_spec c EOF) as [->|]; [done|].
    split_and!; [done| |done..]. pose proof Hn as ([-> | [-> | ->]] & _); exact Hn. }
  destruct (Z.eqb_spec c 0) as [->|]; simpl in E.
  { injection E as <- <-. apply read_one; [done|done|]. by right. }
  destruct (Z.eqb_spec c EOF) as [->|]; injection E as <- <-; [|by left].
  right. exists [], []. split_and!; [done|by left| |keep].
  assert (p = []) as -> by (destruct Hr as (_ & _ & _ & _ & [[_ ->]|?] & _); [done|unfold is_byte, EOF in *; lia]).
  by eapply Rd_At.
Qed.

(** ** [scan] *)

Lemma skip_ws_sound fuel : forall s p s', At s p -> skip_whitespace_loop fuel s = Ret s' ->
  exists w c p', p = w ++ current_text c p' /\ ws w /\ Rd s' c p' /\ kept (get s) s'.
Proof.
  induction fuel as [|fuel IH]; intros s p s' Ha E; [done|]. simpl in E.
  destruct (is_ws (cur (get s))) eqn:Ew.
  - assert (cur (get s) <> EOF) as Hne by (intros Ee; by rewrite Ee in Ew).
    destruct (read_char s p _ Ha eq_refl Hne) as (p1 & -> & Hr).
    destruct (IH _ _ _ (Rd_At _ _ _ Hr) E) as (w & c & p2 & -> & Hw & Hr2 & K2).
    exists (cur (get s) :: w), c, p2. split_and!; [done| |done|keep].
    constructor; [by apply is_ws_spec|done].
  - injection E as <-. exists [], (hd EOF p), (tail p). split_and!; [|constructor|by apply get_At|keep].
    unfold current_text. destruct p as [|x p]; [done|]. simpl. pose proof (At_head _ _ _ Ha) as Hb.
    unfold is_byte, EOF in *. by destruct (Z.eqb_spec x (-1)); [lia|].
Qed.

(** [scan] after the byte order mark. *)
Definition scan_body s : comp (token_type * lexer F) :=
  let* s := skip_whitespace s in
  let* '(ok, s) := skip_comments (S (remaining s)) s in
  if ok then scan_token s else Ret (tok_parse_error, s).

(** What a scan did: white space, then a token.  The scanner has started. *)
Definition scan_read s p (t : token_type) s' : Prop :=
  t = tok_parse_error \/
  exists w u p', p = w ++ u ++ p' /\ ws w /\ token_text (decimal_point_char s) t s' u p' /\ At s' p' /\
    kept s s' /\ crt s < crt s'.

Lemma scan_body_sound s p t s' : At s p -> ignore_comments s = false -> scan_body s = Ret (t, s') ->
  scan_read s p t s'.
Proof.
  intros Ha Hi E. unfold scan_body, skip_whitespace in E.
  destruct (skip_whitespace_loop _ s) as [s1| |] eqn:Ew; [|done..].
  destruct (skip_ws_sound _ _ _ _ Ha Ew) as (w & c & p1 & -> & Hw & Hr & K1).
  assert (ignore_comments s1 = false) as Hi1 by (rewrite (proj1 K1); exact Hi).
  cbn [comp_bind] in E. simpl in E. rewrite Hi1 in E. simpl in E.
  destruct (scan_token_sound _ _ _ _ _ Hr E) as [->|(u & p2 & -> & Ht & A2 & K2)]; [by left|right].
  assert (kept s s1) as K by keep. exists w, u, p2.
  split_and!; [done|done|rewrite <- (proj1 (proj2 K)); exact Ht|done|keep|].
  destruct K1 as (_ & _ & K1), K2 as (_ & _ & K2). rewrite crt_get in K1. lia.
Qed.

Lemma scan_sound s p t s' : At s p -> ignore_comments s = false -> 0 < crt s -> scan s = Ret (t, s') ->
  scan_read s p t s'.
Proof.
  intros Ha Hi Hc E. apply scan_body_sound; [done..|]. unfold scan in E.
  change (chars_read_total (inp s)) with (crt s) in E. destruct (Z.eqb_spec (crt s) 0); [lia|done].
Qed.

(** The first scan skips a byte order mark. *)
Definition is_bom (bom : bytes) : Prop := bom = [] \/ bom = [0xEF; 0xBB; 0xBF].

Lemma skip_bom_sound s p s' : At s p -> skip_bom s = Ret (true, s') ->
  exists bom p', p = bom ++ p' /\ is_bom bom /\ At s' p' /\ kept s s'.
Proof.
  intros Ha E. unfold skip_bom in E. destruct (Z.eqb_spec (cur (get s)) 0xEF) as [E1|_].
  - destruct (read_char s p _ Ha E1 ltac:(done)) as (p1 & -> & R1).
    destruct (Z.eqb_spec (cur (get (get s))) 0xBB) as [E2|]; [|done].
    destruct (read_char _ _ _ (Rd_At _ _ _ R1) E2 ltac:(done)) as (p2 & -> & R2).
    destruct (Z.eqb_spec (cur (get (get (get s)))) 0xBF) as [E3|]; [|done]. injection E as <-.
    destruct (read_char _ _ _ (Rd_At _ _ _ R2) E3 ltac:(done)) as (p3 & -> & R3).
    exists [0xEF; 0xBB; 0xBF], p3. split_and!; [done|by right|by eapply Rd_At|keep].
  - rewrite (unget_get _ _ Ha) in E. injection E as <-. exists [], p.
    split_and!; [done|by left|by apply back_get|].
    split_and!; [done|done|]. rewrite crt_back, crt_get. lia.
Qed.

Lemma first_scan_sound i dp t s' : Forall is_byte i -> scan (lexer_init i false [dp]) = Ret (t, s') ->
  t = tok_parse_error \/
  exists bom s p, i = bom ++ p /\ is_bom bom /\ kept (lexer_init i false [dp]) s /\ scan_read s p t s'.
Proof.
  intros Hi E. pose proof (lexer_init_At i false dp Hi) as Ha. unfold scan in E. cbn [inp lexer_init chars_read_total] in E.
  rewrite Z.eqb_refl in E. destruct (skip_bom _) as [[[] s1]| |] eqn:Eb; [|injection E as <- <-; by left|done..].
  destruct (skip_bom_sound _ _ _ Ha Eb) as (bom & p & Ei & Hb & A1 & K1). right. exists bom, s1, p.
  split_and!; [done..|]. apply scan_body_sound; [done| |exact E]. by rewrite (proj1 K1).
Qed.

Lemma scan_bom p dp ignore : Forall is_byte p ->
  exists s, scan (lexer_init ([0xEF; 0xBB; 0xBF] ++ p) ignore [dp]) = scan s /\ At s p /\ decimal_point_char s = dp.
Proof.
  intros Hp. set (s0 := lexer_init ([0xEF; 0xBB; 0xBF] ++ p) ignore [dp]).
  assert (At s0 ([0xEF; 0xBB; 0xBF] ++ p)) as Ha.
  { apply lexer_init_At. apply Forall_app. split; [|done]. repeat constructor; unfold is_byte; lia. }
  simpl in Ha. exists (get (get (get s0))). split_and!; [done| |done].
  do 3 (apply At_get, Rd_At in Ha). exact Ha.
Qed.
End Sound.
