(* ===== verification/JsonParserSound.v ===== *)
(** The parser accepts only the grammar: when [sax_parse] of the acceptor
    succeeds, the input is a byte order mark if any, the text of a document
    of [JsonGrammar] and the end of the input.  With the completeness of the
    parser this determines [basic_json::parse] (without support for
    comments): it returns a value exactly when the input is a text of it. *)
From S2P Require Import Prelude CLib Utf8 JsonValue JsonLexer JsonLexerFacts JsonParser JsonParserFacts JsonParserSpec.
From S2P Require Import JsonGrammar JsonLexerComplete JsonParserComplete JsonRoundtrip JsonLexerSound.

Section Sound.
Context {F : Type} `{FloatOps F}.
Variable dp : Z.
Notation aparser := (parser F acceptor).
Implicit Types (p : aparser) (l : lexer F) (c r i t w : bytes).

(** ** Texts under construction *)

(** [t] can be put before the elements (or the members) [P]. *)
Definition extends {A} (P : list A -> bytes -> Prop) t : Prop :=
  forall (x : list A) u, P x u -> exists x', P x' (t ++ u).

(** Inside a container: it was opened with [o] where a value was expected,
    and [t] of its contents was read. *)
Definition inside {A} (o : Z) (P : list A -> bytes -> Prop) (outer : bytes -> Prop) c : Prop :=
  exists c0 w t, outer c0 /\ ws w /\ extends P t /\ c = c0 ++ w ++ [o] ++ t.

(** [c] was read, and a value is expected in the containers [sts]. *)
Fixpoint hole (sts : list bool) c : Prop :=
  match sts with
  | [] => c = []
  | true :: sts => inside 91 (elements_text (F:=F) dp) (hole sts) c
  | false :: sts => exists c1 w1 tk k w2, inside 123 (members_text (F:=F) dp) (hole sts) c1 /\
      ws w1 /\ string_body tk k /\ ws w2 /\ c = c1 ++ w1 ++ quoted tk ++ w2 ++ [58]
  end.

(** [c] was read, it ends with a value in the containers [sts]. *)
Definition filled (sts : list bool) c : Prop :=
  exists c0 w (j : json F) t, hole sts c0 /\ ws w /\ value_text dp j t /\ c = c0 ++ w ++ t.

Lemma inside_open {A} o (P : list A -> bytes -> Prop) outer c w : outer c -> ws w -> inside o P outer (c ++ w ++ [o]).
Proof. intros Hc Hw. exists c, w, []. split_and!; [done|done|intros x u Hx; by exists x|done]. Qed.

Lemma hole_filled sts c w t (j : json F) : hole sts c -> ws w -> value_text dp j t -> filled sts (c ++ w ++ t).
Proof. intros. by exists c, w, j, t. Qed.

Lemma filled_next sts c w : filled (true :: sts) c -> ws w -> hole (true :: sts) (c ++ w ++ [44]).
Proof.
  intros (c1 & w1 & j & u & (c0 & w0 & t & Hc0 & Hw0 & Ht & ->) & Hw1 & Hu & ->) Hw.
  exists c0, w0, (t ++ w1 ++ u ++ w ++ [44]). split_and!; [done|done| |by rewrite <- !app_assoc].
  intros x ts Hts. rewrite <- !app_assoc. eapply Ht. by apply elements_cons.
Qed.

Lemma filled_close_array sts c w : filled (true :: sts) c -> ws w -> filled sts (c ++ w ++ [93]).
Proof.
  intros (c1 & w1 & j & u & (c0 & w0 & t & Hc0 & Hw0 & Ht & ->) & Hw1 & Hu & ->) Hw.
  destruct (Ht _ _ (elements_one dp j w1 u w Hw1 Hu Hw)) as (x & Hx).
  exists c0, w0, (value_array x), ([91] ++ (t ++ w1 ++ u ++ w) ++ [93]).
  split_and!; [done|done|by constructor|by rewrite <- !app_assoc].
Qed.

(** The members of an object. *)
Notation in_object sts := (inside 123 (members_text (F:=F) dp) (hole sts)).

Lemma filled_next_key sts c w : filled (false :: sts) c -> ws w -> in_object sts (c ++ w ++ [44]).
Proof.
  intros (c1 & w3 & j & u & (c2 & w1 & tk & k & w2 & (c0 & w0 & t & Hc0 & Hw0 & Ht & ->) & Hw1 & Hk & Hw2 & ->) & Hw3 & Hu & ->) Hw.
  exists c0, w0, (t ++ w1 ++ quoted tk ++ w2 ++ [58] ++ w3 ++ u ++ w ++ [44]).
  split_and!; [done|done| |by rewrite <- !app_assoc].
  intros x ts Hts. rewrite <- !app_assoc. eapply Ht. by apply (members_cons dp k).
Qed.

Lemma filled_close_object sts c w : filled (false :: sts) c -> ws w -> filled sts (c ++ w ++ [125]).
Proof.
  intros (c1 & w3 & j & u & (c2 & w1 & tk & k & w2 & (c0 & w0 & t & Hc0 & Hw0 & Ht & ->) & Hw1 & Hk & Hw2 & ->) & Hw3 & Hu & ->) Hw.
  destruct (Ht _ _ (members_one dp k tk j w1 w2 w3 u w Hw1 Hk Hw2 Hw3 Hu Hw)) as (m & Hm).
  exists c0, w0, (value_object (object_of m)), ([123] ++ (t ++ w1 ++ quoted tk ++ w2 ++ [58] ++ w3 ++ u ++ w) ++ [125]).
  split_and!; [done|done|by constructor|by rewrite <- !app_assoc].
Qed.

(** ** Where the parser is in its input [i] *)

Definition ready_lexer l : Prop := ignore_comments l = false /\ decimal_point_char l = dp /\ 0 < crt l.

Lemma ready_kept l l' : ready_lexer l -> kept l l' -> ready_lexer l'.
Proof. intros (? & ? & ?) (? & ? & ?). split_and!; [congruence..|lia]. Qed.

Variable i : bytes.

(** The scanner is after [c]. *)
Definition after_text c p : Prop := exists r, i = c ++ r /\ At (m_lexer p) r /\ ready_lexer (m_lexer p).

(** A token was read after [c]. *)
Definition token_after c p : Prop :=
  last_token p = tok_parse_error \/
  exists w u r, i = c ++ w ++ u ++ r /\ ws w /\ token_text dp (last_token p) (m_lexer p) u r /\
    At (m_lexer p) r /\ ready_lexer (m_lexer p).

Lemma get_token_sound c p p' : after_text c p -> get_token p = Ret p' ->
  states p' = states p /\ skip_to_state_evaluation p' = skip_to_state_evaluation p /\ token_after c p'.
Proof.
  intros (r & Ei & Ha & Hl) E. unfold get_token in E. destruct (scan (m_lexer p)) as [[t l]| |] eqn:Es; [|done..].
  injection E as <-. split_and!; [done..|]. pose proof Hl as (Hi & Hd & Hc).
  destruct (scan_sound _ _ _ _ Ha Hi Hc Es) as [->|(w & u & r' & -> & Hw & Ht & Ha' & Hk & _)]; [by left|right].
  exists w, u, r'. rewrite Hd in Ht. split_and!; [done..|]. by eapply ready_kept.
Qed.

(** A token of punctuation. *)
Lemma token_punctuation c p x : token_after c p ->
  last_token p <> tok_parse_error ->
  (forall u r, token_text dp (last_token p) (m_lexer p) u r -> u = [x]) ->
  exists w, ws w /\ after_text (c ++ w ++ [x]) p.
Proof.
  intros [?|(w & u & r & -> & Hw & Ht & Ha & Hl)] Hne Hu; [done|]. apply Hu in Ht as ->.
  exists w. split; [done|]. exists r. split_and!; [by rewrite <- !app_assoc|done..].
Qed.

(** What a part of a turn established. *)
Definition flow_sound (f : comp (flow aparser)) : Prop :=
  match f with
  | Ret (FReturn b p) => b = true -> exists c, filled [] c /\ after_text c p
  | Ret (FBreak p) => skip_to_state_evaluation p = false /\ exists c, filled (states p) c /\ after_text c p
  | Ret (FContinue p) =>
      if skip_to_state_evaluation p then exists c, filled (states p) c /\ after_text c p
      else exists c, hole (states p) c /\ token_after c p
  | _ => True
  end.

Lemma error_sound ex p : flow_sound (error_return ex p).
Proof. done. Qed.

Lemma get_token_flow c p (k : aparser -> comp (flow aparser)) : after_text c p ->
  (forall p', states p' = states p -> skip_to_state_evaluation p' = skip_to_state_evaluation p -> token_after c p' ->
    flow_sound (k p')) ->
  flow_sound (let* p' := get_token p in k p').
Proof.
  intros Ha Hk. destruct (get_token p) as [p'| |] eqn:E; [|done..].
  destruct (get_token_sound _ _ _ Ha E) as (? & ? & ?). by apply Hk.
Qed.

(** A scalar token is a value. *)
Definition scalar_token (t : token_type) : Prop :=
  match t with
  | literal_true | literal_false | literal_null | tok_string | tok_unsigned | tok_integer | tok_float => True
  | _ => False
  end.

Lemma scalar_filled sts c p : hole sts c -> token_after c p -> scalar_token (last_token p) ->
  (last_token p = tok_float -> isfinite (value_float (m_lexer p)) = true) ->
  exists c', filled sts c' /\ after_text c' p.
Proof.
  intros Hh [E|(w & u & r & Ei & Hw & Ht & Ha & Hl)] Hs Hfin.
  { by rewrite E in Hs. }
  assert (exists j : json F, value_text dp j u) as (j & Hj).
  { destruct (last_token p); simpl in Ht; subst; try done; try (by eexists; constructor).
    { destruct Ht as (b & v & -> & Hb). eexists. by constructor. }
    all: destruct (proj2 Ht) as (j & Hj); [first [done|by intros _; apply Hfin]|exists j; by constructor]. }
  exists (c ++ w ++ u). split; [by eapply hole_filled|]. exists r. by rewrite <- !app_assoc.
Qed.

(** ** The parts of a turn *)

Lemma parse_key_sound sts c p k : in_object sts c -> token_after c p ->
  (forall p' c', states p' = states p -> skip_to_state_evaluation p' = skip_to_state_evaluation p ->
    hole (false :: sts) c' -> after_text c' p' -> flow_sound (k p')) ->
  flow_sound (parse_key p k).
Proof.
  intros Hin Htok Hk. unfold parse_key. case_decide as Es; [|done].
  destruct Htok as [?|(w & u & r & Ei & Hw & Ht & Ha & Hl)]; [congruence|]. rewrite Es in Ht.
  destruct Ht as (tk & key & -> & Htk).
  assert (after_text (c ++ w ++ quoted tk) p) as Hafter by (exists r; by rewrite <- !app_assoc).
  unfold event. cbn [sax_key acceptor_sax comp_bind].
  eapply get_token_flow; [exact Hafter|]. intros p1 Hst Hsk Ht1. case_decide as E1; [|done].
  destruct (token_punctuation _ _ 58 Ht1) as (w2 & Hw2 & Ha2); [by rewrite E1|by rewrite E1|].
  eapply Hk; [done|done| |exact Ha2]. exists c, w, tk, key, w2. split_and!; try done. by rewrite <- !app_assoc.
Qed.

Lemma begin_object_sound c p : hole (states p) c -> token_after c p -> last_token p = begin_object ->
  skip_to_state_evaluation p = false -> flow_sound (parse_begin_object p).
Proof.
  intros Hh Htok E Hskip. destruct (token_punctuation _ _ 123 Htok) as (w & Hw & Ha); [by rewrite E|by rewrite E|].
  unfold parse_begin_object, event. cbn [sax_start_object acceptor_sax comp_bind].
  eapply get_token_flow; [exact Ha|]. intros p1 Hst Hsk Ht1. cbn [states skip_to_state_evaluation with_sax] in Hst, Hsk.
  case_decide as E1.
  - destruct (token_punctuation _ _ 125 Ht1) as (w1 & Hw1 & Ha1); [by rewrite E1|by rewrite E1|].
    simpl. split; [congruence|]. exists (c ++ w ++ [123] ++ w1 ++ [125]). rewrite Hst. split.
    + by apply (hole_filled _ _ _ ([123] ++ w1 ++ [125]) (value_object [])); [..|constructor].
    + by rewrite <- !app_assoc in Ha1.
  - eapply parse_key_sound; [by apply inside_open|exact Ht1|]. intros p2 c2 Hst2 Hsk2 Hh2 Ha2.
    eapply get_token_flow; [exact Ha2|]. intros p3 Hst3 Hsk3 Ht3. simpl.
    rewrite Hsk3. cbn [with_states skip_to_state_evaluation]. rewrite Hsk2, Hsk, Hskip.
    exists c2. rewrite Hst3. cbn [with_states states]. by rewrite Hst2, Hst.
Qed.

Lemma begin_array_sound c p : hole (states p) c -> token_after c p -> last_token p = begin_array ->
  skip_to_state_evaluation p = false -> flow_sound (parse_begin_array p).
Proof.
  intros Hh Htok E Hskip. destruct (token_punctuation _ _ 91 Htok) as (w & Hw & Ha); [by rewrite E|by rewrite E|].
  unfold parse_begin_array, event. cbn [sax_start_array acceptor_sax comp_bind].
  eapply get_token_flow; [exact Ha|]. intros p1 Hst Hsk Ht1. cbn [states skip_to_state_evaluation with_sax] in Hst, Hsk.
  case_decide as E1.
  - destruct (token_punctuation _ _ 93 Ht1) as (w1 & Hw1 & Ha1); [by rewrite E1|by rewrite E1|].
    simpl. split; [congruence|]. exists (c ++ w ++ [91] ++ w1 ++ [93]). rewrite Hst. split.
    + by apply (hole_filled _ _ _ ([91] ++ w1 ++ [93]) (value_array [])); [..|constructor].
    + by rewrite <- !app_assoc in Ha1.
  - simpl. rewrite Hsk, Hskip. exists (c ++ w ++ [91]). rewrite Hst. split; [by apply inside_open|exact Ht1].
Qed.

Lemma value_phase_sound c p : hole (states p) c -> token_after c p -> skip_to_state_evaluation p = false ->
  flow_sound (parse_value_phase p).
Proof.
  intros Hh Htok Hskip. unfold parse_value_phase.
  pose proof (scalar_filled _ _ _ Hh Htok) as Hs.
  destruct (last_token p) eqn:E; try done;
    try (split; [exact Hskip|]; by apply Hs).
  - destruct (isfinite (value_float (m_lexer p))) eqn:Ef; [|done]. split; [exact Hskip|]. by apply Hs.
  - by eapply begin_array_sound.
  - by eapply begin_object_sound.
Qed.

Lemma array_state_sound c p sts : states p = true :: sts -> filled (true :: sts) c -> after_text c p ->
  skip_to_state_evaluation p = false -> flow_sound (parse_array_state p).
Proof.
  intros Hst Hf Ha Hskip. unfold parse_array_state.
  eapply get_token_flow; [exact Ha|]. intros p1 Hst1 Hsk1 Ht1. case_decide as E1; [|case_decide as E2; [|done]].
  - destruct (token_punctuation _ _ 44 Ht1) as (w & Hw & Ha1); [by rewrite E1|by rewrite E1|].
    eapply get_token_flow; [exact Ha1|]. intros p2 Hst2 Hsk2 Ht2. simpl. rewrite Hsk2, Hsk1, Hskip, Hst2, Hst1, Hst.
    eexists. split; [|exact Ht2]. by apply filled_next.
  - destruct (token_punctuation _ _ 93 Ht1) as (w & Hw & Ha1); [by rewrite E2|by rewrite E2|].
    simpl. rewrite Hst1, Hst. eexists. split; [|exact Ha1]. by apply filled_close_array.
Qed.

Lemma object_state_sound c p sts : states p = false :: sts -> filled (false :: sts) c -> after_text c p ->
  skip_to_state_evaluation p = false -> flow_sound (parse_object_state p).
Proof.
  intros Hst Hf Ha Hskip. unfold parse_object_state.
  eapply get_token_flow; [exact Ha|]. intros p1 Hst1 Hsk1 Ht1. case_decide as E1; [|case_decide as E2; [|done]].
  - destruct (token_punctuation _ _ 44 Ht1) as (w & Hw & Ha1); [by rewrite E1|by rewrite E1|].
    eapply get_token_flow; [exact Ha1|]. intros p2 Hst2 Hsk2 Ht2.
    eapply parse_key_sound; [by apply filled_next_key|exact Ht2|]. intros p3 c3 Hst3 Hsk3 Hh3 Ha3.
    eapply get_token_flow; [exact Ha3|]. intros p4 Hst4 Hsk4 Ht4. simpl.
    rewrite Hsk4, Hsk3, Hsk2, Hsk1, Hskip, Hst4, Hst3, Hst2, Hst1, Hst. by exists c3.
  - destruct (token_punctuation _ _ 125 Ht1) as (w & Hw & Ha1); [by rewrite E2|by rewrite E2|].
    simpl. rewrite Hst1, Hst. eexists. split; [|exact Ha1]. by apply filled_close_object.
Qed.

Lemma state_phase_sound c p : filled (states p) c -> after_text c p -> skip_to_state_evaluation p = false ->
  flow_sound (parse_state_phase p).
Proof.
  intros Hf Ha Hskip. unfold parse_state_phase. destruct (states p) as [|[] sts] eqn:Es.
  - intros _. by exists c.
  - by eapply array_state_sound.
  - by eapply object_state_sound.
Qed.

(** ** The loop *)

(** What holds between two turns. *)
Definition turn_ready p : Prop :=
  if skip_to_state_evaluation p then exists c, filled (states p) c /\ after_text c p
  else exists c, hole (states p) c /\ token_after c p.

Lemma turn_sound p : turn_ready p -> flow_sound (parse_turn p).
Proof.
  unfold turn_ready, parse_turn. destruct (skip_to_state_evaluation p) eqn:Es; intros (c & Hc & Ha).
  - by eapply state_phase_sound.
  - pose proof (value_phase_sound c p Hc Ha Es) as Hv. destruct (parse_value_phase p) as [[b q|q|q]| |]; try done.
    destruct Hv as (Hsk & c1 & Hf & Ha1). by eapply state_phase_sound.
Qed.

Lemma loop_sound fuel : forall p p', turn_ready p -> sax_parse_loop fuel p = Ret (true, p') ->
  exists c, filled [] c /\ after_text c p'.
Proof.
  induction fuel as [|fuel IH]; intros p p' Hp E; [done|]. cbn [sax_parse_loop] in E.
  pose proof (turn_sound p Hp) as Ht. pose proof (parse_turn_no_break p) as Hnb.
  destruct (parse_turn p) as [[b q|q|q]| |]; cbn [comp_bind] in E; try done.
  - injection E as -> <-. by apply Ht.
  - by eapply IH.
Qed.
End Sound.

Section Exact.
Context {F : Type} `{FloatOps F}.

(** A document after a byte order mark, if any. *)
Lemma json_parse_bom dp (j : json F) bom t rest allow ignore : is_bom bom -> json_text dp j t ->
  input_end rest -> Forall is_byte (t ++ rest) ->
  json_parse (bom ++ t ++ rest) allow ignore [dp] = Ret j.
Proof.
  intros [-> | ->] Ht Hr Hb; [rewrite app_nil_l; by apply (json_parse_text dp j t rest)|].
  destruct (scan_bom (F:=F) (t ++ rest) dp ignore Hb) as (s & Hs & Ha & Hd).
  eapply json_parse_from; [|exact Hs|exact Ha|exact Hd|exact Ht|exact Hr]. apply Forall_app. split; [|done].
  repeat constructor; unfold is_byte; lia.
Qed.

(** The document that was accepted. *)
Definition document dp (j : json F) (i : bytes) : Prop :=
  exists bom t rest, is_bom bom /\ json_text dp j t /\ input_end rest /\ i = bom ++ t ++ rest.

Lemma accept_sound dp i : Forall is_byte i -> json_accept (F:=F) i false [dp] = Ret true ->
  exists j, document dp j i.
Proof.
  intros Hb E. unfold json_accept, parser_init, get_token in E. cbn [m_lexer] in E.
  destruct (scan _) as [[t l]| |] eqn:Es; [|done..]. cbn [comp_bind states skip_to_state_evaluation sax] in E.
  assert (exists bom i', i = bom ++ i' /\ is_bom bom /\
    token_after dp i' [] (mk_parser (S:=acceptor) [] false t l mk_acceptor)) as (bom & i' & -> & Hbom & Htok).
  { destruct (first_scan_sound i dp t l Hb Es) as [->|(bom & s & p & -> & Hbom & Hk & Hr)].
    { exists [], i. split_and!; [done|by left|by left]. }
    exists bom, p. split_and!; [done..|]. destruct Hr as [->|(w & u & p' & -> & Hw & Ht & Ha & Hk' & Hc)]; [by left|right].
    exists w, u, p'. destruct Hk as (K1 & K2 & K3), Hk' as (K1' & K2' & K3'). simpl in K1, K2.
    rewrite K2 in Ht, K2'. split_and!; [done..|]. split_and!; [cbn in *; congruence|done|].
    change (crt (lexer_init (F:=F) (bom ++ w ++ u ++ p') false [dp])) with 0 in K3. cbn [m_lexer]. lia. }
  unfold sax_parse in E. destruct (sax_parse_internal _) as [[[] p1]| |] eqn:Ei; cbn [comp_bind andb] in E; try done.
  unfold sax_parse_internal in Ei. eapply (loop_sound dp i') in Ei; [|by exists []].
  destruct Ei as (c & (c0 & w & j & u & -> & Hw & Hu & ->) & Ha).
  destruct (get_token p1) as [p2| |] eqn:E2; cbn [comp_bind] in E; [|done..].
  destruct (get_token_sound dp i' _ _ _ Ha E2) as (_ & _ & Ht2). case_decide as Ee; [|done].
  destruct Ht2 as [?|(w2 & e & r & Er & Hw2 & Hte & _)]; [congruence|]. rewrite Ee in Hte.
  exists j, bom, (w ++ u ++ w2), (e ++ r). split_and!; [done|by exists w, u, w2| |].
  - destruct Hte as [[-> ->]| ->]; [by left|right; by exists r].
  - rewrite Er. simpl. by rewrite <- !app_assoc.
Qed.

(** C8: [basic_json::parse] (without support for comments) is exactly the
    grammar: it returns the value [j] if and only if the input is a byte
    order mark if any, a JSON text of RFC 8259 whose value is [j], and the
    end of the input (or a null character and anything). So it accepts no
    text outside the grammar, rejects none in it, and a text has one
    value. (The decimal point of the locale is a single byte [dp].) *)
Theorem parse_exact dp i (j : json F) : Forall is_byte i ->
  json_parse i true false [dp] = Ret j <-> document dp j i.
Proof.
  intros Hb. split.
  - intros Hp. destruct (proj1 (parse_modes_agree i false dp j Hb) Hp) as [Hq Hd].
    destruct (accept_parse i false dp Hb) as (j' & Hq' & Hacc). rewrite Hq in Hq'. injection Hq' as <-.
    assert (is_discarded j = false) as Hdf by (by destruct j). rewrite Hdf in Hacc.
    destruct (accept_sound dp i Hb Hacc) as (j1 & bom & t & rest & Hbom & Ht & Hr & ->).
    apply Forall_app in Hb as [_ Hb].
    pose proof (json_parse_bom dp j1 bom t rest true false Hbom Ht Hr Hb) as Hp1.
    rewrite Hp in Hp1. injection Hp1 as <-. by exists bom, t, rest.
  - intros (bom & t & rest & Hbom & Ht & Hr & ->). apply Forall_app in Hb as [_ Hb]. by apply json_parse_bom.
Qed.
End Exact.

(** ** Witnesses *)

#[local] Existing Instance example_floats.

(** A byte order mark, a document and a null character. *)
Definition bom_sample : bytes := [0xEF; 0xBB; 0xBF] ++ jtext "{'a': [1,-2]} " ++ [0; 255].

Lemma parse_exact_witness :
  Forall is_byte bom_sample /\
  (json_parse (F:=Z) bom_sample true false [46] =
     Ret (value_object [(str "a", value_array [value_number_unsigned 1; value_number_integer (-2)])]) <->
   document 46 (value_object [(str "a", value_array [value_number_unsigned 1; value_number_integer (-2)])]) bom_sample).
Proof.
  assert (Forall is_byte bom_sample) as Hb by (repeat constructor; vm_compute; congruence).
  split; [exact Hb|]. apply (parse_exact 46 bom_sample _ Hb).
Defined.

Example bom_sample_parses : json_parse (F:=Z) bom_sample true false [46] =
  Ret (value_object [(str "a", value_array [value_number_unsigned 1; value_number_integer (-2)])]).
Proof. vm_compute. reflexivity. Qed.
