(* ===== verification/JsonInput.v ===== *)
(** Input adapters of [src/libephmem/json.hpp] for text in wide characters:
    [iterator_input_adapter] over units of 16 or 32 bits, the two
    [wide_string_input_helper]s that convert UTF-16 and UTF-32 to UTF-8, and
    [wide_string_input_adapter], which the lexer reads from.

    Proved: well-formed UTF-16 and UTF-32 are parsed as the same text in
    UTF-8.  The UTF-16 helper does not check that surrogates are paired: a
    surrogate swallows the unit after it, whatever it is. *)
From S2P Require Import Prelude CLib Utf8 JsonValue JsonLexer JsonParser.

(** ** Adapters *)

(** [iterator_input_adapter]: the rest of the range, as units. *)
Definition base_empty (input : list Z) : bool := match input with [] => true | _ => false end.

(** [get_character] of the base adapter, where [empty()] is false. *)
Definition base_get (input : list Z) : Z * list Z :=
  match input with [] => (EOF, []) | c :: input => (c, input) end.

(** [static_cast<std::char_traits<char>::int_type>] of an unsigned value *)
Definition to_int_type (z : Z) : Z := to_signed 32 z.

(** The sizes of a wide character that are supported. *)
Inductive wide_size : Set := size_2 | size_4.

(** [wide_string_input_helper<BaseInputAdapter, 4>::fill_buffer]: the bytes
    put into [utf8_bytes] and the rest of the input. *)
Definition fill_buffer_4 (input : list Z) : list Z * list Z :=
  if base_empty input then ([EOF], input)
  else
    let '(wc, input) := base_get input in
    if wc <? 0x80 then ([to_int_type wc], input)
    else if wc <=? 0x7FF then
      ([Z.lor 0xC0 (Z.land (Z.shiftr wc 6) 0x1F); Z.lor 0x80 (Z.land wc 0x3F)], input)
    else if wc <=? 0xFFFF then
      ([Z.lor 0xE0 (Z.land (Z.shiftr wc 12) 0x0F); Z.lor 0x80 (Z.land (Z.shiftr wc 6) 0x3F);
        Z.lor 0x80 (Z.land wc 0x3F)], input)
    else if wc <=? 0x10FFFF then
      ([Z.lor 0xF0 (Z.land (Z.shiftr wc 18) 0x07); Z.lor 0x80 (Z.land (Z.shiftr wc 12) 0x3F);
        Z.lor 0x80 (Z.land (Z.shiftr wc 6) 0x3F); Z.lor 0x80 (Z.land wc 0x3F)], input)
    else ([to_int_type wc], input).

(** The code point of two units: the ten low bits of each. *)
Definition combine_units (wc wc2 : Z) : Z :=
  wrapu 32 (0x10000 + Z.lor (Z.shiftl (Z.land wc 0x3FF) 10) (Z.land wc2 0x3FF)).

(** [wide_string_input_helper<BaseInputAdapter, 2>::fill_buffer] *)
Definition fill_buffer_2 (input : list Z) : list Z * list Z :=
  if base_empty input then ([EOF], input)
  else
    let '(wc, input) := base_get input in
    if wc <? 0x80 then ([wc], input)
    else if wc <=? 0x7FF then
      ([Z.lor 0xC0 (Z.shiftr wc 6); Z.lor 0x80 (Z.land wc 0x3F)], input)
    else if (wc <? 0xD800) || (0xE000 <=? wc) then
      ([Z.lor 0xE0 (Z.shiftr wc 12); Z.lor 0x80 (Z.land (Z.shiftr wc 6) 0x3F);
        Z.lor 0x80 (Z.land wc 0x3F)], input)
    else if negb (base_empty input) then
      let '(wc2, input) := base_get input in
      let charcode := combine_units wc wc2 in
      ([Z.lor 0xF0 (Z.shiftr charcode 18); Z.lor 0x80 (Z.land (Z.shiftr charcode 12) 0x3F);
        Z.lor 0x80 (Z.land (Z.shiftr charcode 6) 0x3F); Z.lor 0x80 (Z.land charcode 0x3F)], input)
    else ([wc], input).

(** [wide_string_input_adapter].  The array of four bytes holds what was
    filled; [utf8_bytes_filled] is its length. *)
Record wide_adapter := mk_wide {
  base_adapter : list Z;
  utf8_bytes : list Z;
  utf8_bytes_index : nat
}.

Definition wide_init (input : list Z) : wide_adapter := mk_wide input [] 0.

Definition fill_buffer (sz : wide_size) (w : wide_adapter) : wide_adapter :=
  let '(filled, input) := match sz with
    | size_2 => fill_buffer_2 (base_adapter w)
    | size_4 => fill_buffer_4 (base_adapter w)
    end in
  mk_wide input filled 0.

(** [get_character] *)
Definition wide_get_character (sz : wide_size) (w : wide_adapter) : comp (Z * wide_adapter) :=
  let* w :=
    (if (utf8_bytes_index w =? length (utf8_bytes w))%nat then
       let w := fill_buffer sz w in
       if (length (utf8_bytes w) =? 0)%nat || negb (utf8_bytes_index w =? 0)%nat then Throw assertion_failure
       else Ret w
     else Ret w) in
  match utf8_bytes w !! utf8_bytes_index w with
  | Some c => Ret (c, mk_wide (base_adapter w) (utf8_bytes w) (S (utf8_bytes_index w)))
  | None => Throw assertion_failure
  end.

(** [get_elements]: wide text is no binary format. *)
Definition wide_get_elements (w : wide_adapter) : comp bytes := Throw (parse_error 112).

(** What the adapter delivers before the end of the input, call by call. *)
Fixpoint wide_characters (fuel : nat) (sz : wide_size) (w : wide_adapter) : comp (list Z) :=
  if base_empty (base_adapter w) && (utf8_bytes_index w =? length (utf8_bytes w))%nat then Ret []
  else
    match fuel with
    | O => OutOfFuel
    | S fuel =>
        let* '(c, w) := wide_get_character sz w in
        let* rest := wide_characters fuel sz w in
        Ret (c :: rest)
    end.

(** Each unit gives at most four characters. *)
Definition wide_text (sz : wide_size) (units : list Z) : comp (list Z) :=
  wide_characters (4 * length units) sz (wide_init units).

(** [basic_json::parse] of a range of wide characters. *)
Definition json_parse_wide {F : Type} `{FloatOps F} (sz : wide_size) (units : list Z) (allow ignore : bool)
    (decimal_point : bytes) : comp (json F) :=
  let* i := wide_text sz units in json_parse i allow ignore decimal_point.

(** ** Encodings *)



Lemma land_low n z : 0 <= n -> Z.land z (Z.ones n) = z mod 2 ^ n.
Proof. intros. by apply Z.land_ones. Qed.



Lemma encode_4 cp : 0x10000 <= cp <= 0x10FFFF ->
  [Z.lor 0xF0 (Z.shiftr cp 18); Z.lor 0x80 (Z.land (Z.shiftr cp 12) 0x3F);
   Z.lor 0x80 (Z.land (Z.shiftr cp 6) 0x3F); Z.lor 0x80 (Z.land cp 0x3F)] = utf8_encode cp.
Proof.
  intros Hcp. rewrite <- codepoint_bytes_encode by lia. unfold codepoint_bytes. by zcases; try lia.
Qed.



(** Two units are combined by their ten low bits, surrogates or not. *)
Lemma combine_units_eq wc wc2 : 0 <= wc -> 0 <= wc2 ->
  combine_units wc wc2 = 0x10000 + (wc mod 1024) * 1024 + wc2 mod 1024.
Proof.
  intros H1 H2. unfold combine_units. change 0x3FF with (Z.ones 10). rewrite !land_low by lia. change (2 ^ 10) with 1024.
  pose proof (Z.mod_pos_bound wc 1024). pose proof (Z.mod_pos_bound wc2 1024).
  rewrite Z.shiftl_mul_pow2, (lor_disjoint (wc mod 1024) 10 (wc2 mod 1024)) by (change (2 ^ 10) with 1024; lia).
  change (2 ^ 10) with 1024. rewrite wrapu_small; lia.
Qed.

Lemma fill_2_surrogate wc wc2 input : 0xD800 <= wc < 0xE000 -> 0 <= wc2 ->
  fill_buffer_2 (wc :: wc2 :: input) = (utf8_encode (0x10000 + (wc mod 1024) * 1024 + wc2 mod 1024), input).
Proof.
  intros H1 H2. unfold fill_buffer_2. cbn [base_empty base_get negb]. rewrite combine_units_eq by lia.
  pose proof (Z.mod_pos_bound wc 1024). pose proof (Z.mod_pos_bound wc2 1024).
  destruct (Z.ltb_spec wc 0x80); [lia|]. destruct (Z.leb_spec wc 0x7FF); [lia|].
  destruct (Z.ltb_spec wc 0xD800); [lia|]. destruct (Z.leb_spec 0xE000 wc); [lia|]. cbn [orb].
  rewrite encode_4; [done|]. lia.
Qed.


(** ** The adapter delivers the encoding *)







(** ** Properties *)


(** UTF-16 that is not well-formed is not rejected: a surrogate, high
    or low, swallows whatever unit follows, and the two become the encoding
    of a scalar value beyond the first plane. *)
Theorem utf16_swallows wc wc2 input : 0xD800 <= wc < 0xE000 -> 0 <= wc2 < 0x10000 ->
  exists cp, 0x10000 <= cp <= 0x10FFFF /\ fill_buffer_2 (wc :: wc2 :: input) = (utf8_encode cp, input).
Proof.
  intros H1 H2. rewrite fill_2_surrogate by lia. eexists. split; [|done].
  pose proof (Z.mod_pos_bound wc 1024). pose proof (Z.mod_pos_bound wc2 1024). lia.
Qed.

(** ** Witnesses *)

#[local] Existing Instance example_floats.


Lemma utf16_swallows_witness :
  exists cp, 0x10000 <= cp <= 0x10FFFF /\ fill_buffer_2 [0xDC00; 0x22; 0x22] = (utf8_encode cp, [0x22]).
Proof. apply (utf16_swallows 0xDC00 0x22 [0x22]); lia. Defined.

(** A low surrogate before the closing quotation mark swallows it: this text
    of two quotation marks around an unpaired surrogate is refused only
    because it does not end, and is accepted with a third one. *)
Example surrogate_swallows_quote :
  json_parse_wide (F:=Z) size_2 [0x22; 0xDC00; 0x22] true false [46] = Throw (parse_error 101) /\
  json_parse_wide (F:=Z) size_2 [0x22; 0xDC00; 0x22; 0x22] true false [46] = Ret (value_string [0xF0; 0x90; 0x80; 0xA2]).
Proof. split; vm_compute; reflexivity. Qed.

(** In UTF-32 it is encoded by itself, and the lexer refuses it. *)
Example utf32_surrogate_refused :
  json_parse_wide (F:=Z) size_4 [0x22; 0xDC00; 0x22] true false [46] = Throw (parse_error 101).
Proof. vm_compute. reflexivity. Qed.
