(* ===== verification/JsonProtocol.v ===== *)
(** Two SAX consumers behind the same parser.

    The loop of [sax_parse_internal] sends its events in a certain order: a
    value comes only where one is awaited, a key only in an object, and each
    container is closed by its own event.  A relation between two consumers
    that is indexed by the open containers ([true] for an array) and by
    whether a value is awaited, and that every event sent in this order
    preserves, holds between the consumers after every parse. *)
From S2P Require Import Prelude Utf8 JsonValue JsonLexer JsonLexerFacts JsonParser JsonParserFacts.

Section Protocol.
Context {F S1 S2 : Type} `{FloatOps F} `{Sax F S1} `{Sax F S2}.
Variable R : list bool -> bool -> S1 -> S2 -> Prop.
Variable Rejected : S1 -> S2 -> Prop.

(** Both consumers accept an event. *)
Definition both (Q : S1 -> S2 -> Prop) (r1 : comp (bool * S1)) (r2 : comp (bool * S2)) : Prop :=
  exists s1 s2, r1 = Ret (true, s1) /\ r2 = Ret (true, s2) /\ Q s1 s2.

(** Both throw the error they are told, or both reject it. *)
Definition both_fail (e : exn) (r1 : comp (bool * S1)) (r2 : comp (bool * S2)) : Prop :=
  (r1 = Throw e /\ r2 = Throw e) \/
  exists s1 s2, r1 = Ret (false, s1) /\ r2 = Ret (false, s2) /\ Rejected s1 s2.

(** The events of values that are no containers. *)
Inductive scalar_event : json F -> (S1 -> comp (bool * S1)) -> (S2 -> comp (bool * S2)) -> Prop :=
  | scalar_null : scalar_event value_null sax_null sax_null
  | scalar_boolean b : scalar_event (value_boolean b) (sax_boolean b) (sax_boolean b)
  | scalar_integer z : scalar_event (value_number_integer z) (sax_number_integer z) (sax_number_integer z)
  | scalar_unsigned z : scalar_event (value_number_unsigned z) (sax_number_unsigned z) (sax_number_unsigned z)
  | scalar_float f b : scalar_event (value_number_float f) (sax_number_float f b) (sax_number_float f b)
  | scalar_string b : scalar_event (value_string b) (sax_string b) (sax_string b).

Record protocol : Prop := {
  protocol_scalar v ev1 ev2 sts s1 s2 : scalar_event v ev1 ev2 -> wf_json v -> R sts true s1 s2 ->
    both (R sts false) (ev1 s1) (ev2 s2);
  protocol_start_object sts s1 s2 : R sts true s1 s2 ->
    both (R (false :: sts) false) (sax_start_object s1) (sax_start_object s2);
  protocol_key k sts s1 s2 : utf8_valid k -> R (false :: sts) false s1 s2 ->
    both (R (false :: sts) true) (sax_key k s1) (sax_key k s2);
  protocol_end_object sts s1 s2 : R (false :: sts) false s1 s2 ->
    both (R sts false) (sax_end_object s1) (sax_end_object s2);
  protocol_start_array sts s1 s2 : R sts true s1 s2 ->
    both (R (true :: sts) false) (sax_start_array s1) (sax_start_array s2);
  protocol_next sts s1 s2 : R (true :: sts) false s1 s2 -> R (true :: sts) true s1 s2;
  protocol_end_array sts s1 s2 : R (true :: sts) false s1 s2 ->
    both (R sts false) (sax_end_array s1) (sax_end_array s2);
  protocol_error n t e sts aw s1 s2 : R sts aw s1 s2 -> syntax_exn e ->
    both_fail e (sax_parse_error n t e s1) (sax_parse_error n t e s2)
}.

Context (P : protocol).
Notation P1 := (parser F S1).
Notation P2 := (parser F S2).

(** The same parser around the two consumers. *)
Definition around (p1 : P1) (p2 : P2) : Prop :=
  states p1 = states p2 /\ skip_to_state_evaluation p1 = skip_to_state_evaluation p2 /\
  last_token p1 = last_token p2 /\ m_lexer p1 = m_lexer p2 /\
  tok_ok (last_token p1) (m_lexer p1) /\ exists q, At (m_lexer p1) q.

Definition at_state (sts : list bool) (awaited : bool) (p1 : P1) (p2 : P2) : Prop :=
  around p1 p2 /\ R sts awaited (sax p1) (sax p2).

Definition flows (f1 : flow P1) (f2 : flow P2) : Prop :=
  match f1, f2 with
  | FReturn b1 p1, FReturn b2 p2 =>
      b1 = b2 /\ if b1 then at_state [] false p1 p2 else around p1 p2 /\ Rejected (sax p1) (sax p2)
  | FContinue p1, FContinue p2 => at_state (states p1) (negb (skip_to_state_evaluation p1)) p1 p2
  | FBreak p1, FBreak p2 => at_state (states p1) false p1 p2 /\ skip_to_state_evaluation p1 = false
  | _, _ => False
  end.

(** Equal outcomes, with related results. *)
Definition outcome {A1 A2} (Q : A1 -> A2 -> Prop) (r1 : comp A1) (r2 : comp A2) : Prop :=
  match r1, r2 with
  | Ret x1, Ret x2 => Q x1 x2
  | Throw e1, Throw e2 => e1 = e2
  | OutOfFuel, OutOfFuel => True
  | _, _ => False
  end.

Lemma protocol_get_token sts aw p1 p2 (k1 : P1 -> comp (flow P1)) (k2 : P2 -> comp (flow P2)) :
  at_state sts aw p1 p2 ->
  (forall p1' p2', at_state sts aw p1' p2' -> states p1' = states p1 ->
     skip_to_state_evaluation p1' = skip_to_state_evaluation p1 -> outcome flows (k1 p1') (k2 p2')) ->
  outcome flows (comp_bind (get_token p1) k1) (comp_bind (get_token p2) k2).
Proof.
  intros ((E1 & E2 & E3 & E4 & _ & q & Hq) & HR) Hk. unfold get_token. rewrite <- E4.
  destruct (scan_ok _ _ Hq) as (t & l & q' & -> & Hq' & _ & Hok & _). simpl.
  apply Hk; [|done|done]. split; [|done]. split_and!; simpl; try done. by exists q'.
Qed.

Lemma protocol_event ev1 ev2 Q p1 p2 k1 k2 : around p1 p2 -> both Q (ev1 (sax p1)) (ev2 (sax p2)) ->
  (forall s1 s2, Q s1 s2 -> outcome flows (k1 (with_sax p1 s1)) (k2 (with_sax p2 s2))) ->
  outcome flows (event ev1 p1 k1) (event ev2 p2 k2).
Proof. intros _ (s1 & s2 & E1 & E2 & HQ) Hk. unfold event. rewrite E1, E2. simpl. by apply Hk. Qed.

Lemma around_states f p1 p2 : around p1 p2 ->
  around (with_states p1 (f (states p1))) (with_states p2 (f (states p2))).
Proof. intros (E & ?). unfold around. simpl. by rewrite E. Qed.

Lemma around_skip b p1 p2 : around p1 p2 -> around (with_skip p1 b) (with_skip p2 b).
Proof. by intros (? & ? & ?). Qed.

Lemma protocol_error_return e sts aw p1 p2 : at_state sts aw p1 p2 -> syntax_exn e ->
  outcome flows (error_return e p1) (error_return e p2).
Proof.
  intros [Ha HR] He. unfold error_return. pose proof Ha as (_ & _ & _ & E4 & _). rewrite <- E4.
  destruct (protocol_error P (chars_read_total (inp (m_lexer p1))) (get_token_string (m_lexer p1)) e _ _ _ _ HR He)
    as [[-> ->]|(s1 & s2 & -> & -> & Hr)]; simpl; [done|]. by split.
Qed.

Lemma protocol_key_read sts p1 p2 k1 k2 : at_state (false :: sts) false p1 p2 ->
  (forall p1' p2', at_state (false :: sts) true p1' p2' -> states p1' = states p1 ->
     skip_to_state_evaluation p1' = skip_to_state_evaluation p1 -> outcome flows (k1 p1') (k2 p2')) ->
  outcome flows (parse_key p1 k1) (parse_key p2 k2).
Proof.
  intros Hs Hk. pose proof Hs as [Ha HR]. pose proof Ha as (_ & _ & E3 & E4 & Hok & _). unfold parse_key.
  rewrite <- E3, <- E4. case_decide as Ht; [|eapply protocol_error_return; [done|apply syntax_101]].
  rewrite Ht in Hok. eapply protocol_event; [done|by apply (protocol_key P)|]. intros s1 s2 HR1.
  apply (protocol_get_token (false :: sts) true); [by split|]. intros p1' p2' Hs' Hst Hsk.
  pose proof Hs' as [(_ & _ & E & _) _]. rewrite <- E.
  case_decide; [by apply Hk|]. eapply protocol_error_return; [done|apply syntax_101].
Qed.

Lemma protocol_begin_object p1 p2 : at_state (states p1) true p1 p2 -> skip_to_state_evaluation p1 = false ->
  outcome flows (parse_begin_object p1) (parse_begin_object p2).
Proof.
  intros [Ha HR] Hs. unfold parse_begin_object.
  eapply protocol_event; [done|by apply (protocol_start_object P)|]. intros s1 s2 HR1.
  apply (protocol_get_token (false :: states p1) false); [by split|]. intros q1 q2 [Hq HRq] Hst Hsk.
  pose proof Hq as (Es & Ek & E & _). rewrite <- E. case_decide.
  - eapply protocol_event; [done|by apply (protocol_end_object P)|]. intros t1 t2 HR2. simpl.
    rewrite Hst, Hsk. by split_and!.
  - apply (protocol_key_read (states p1)); [by split|]. intros u1 u2 [Hu HRu] Hst' Hsk'.
    apply (protocol_get_token (false :: states p1) true).
    { split; [by apply (around_states (cons false))|done]. }
    intros w1 w2 Hw Hst2 Hsk2. simpl in *. rewrite Hst2, Hsk2, Hst', Hsk', Hst, Hsk, Hs. done.
Qed.

Lemma protocol_begin_array p1 p2 : at_state (states p1) true p1 p2 -> skip_to_state_evaluation p1 = false ->
  outcome flows (parse_begin_array p1) (parse_begin_array p2).
Proof.
  intros [Ha HR] Hs. unfold parse_begin_array.
  eapply protocol_event; [done|by apply (protocol_start_array P)|]. intros s1 s2 HR1.
  apply (protocol_get_token (true :: states p1) false); [by split|]. intros q1 q2 [Hq HRq] Hst Hsk.
  pose proof Hq as (Es & Ek & E & _). rewrite <- E. case_decide.
  - eapply protocol_event; [done|by apply (protocol_end_array P)|]. intros t1 t2 HR2. simpl.
    rewrite Hst, Hsk. by split_and!.
  - pose proof (around_states (cons true) _ _ Hq) as Hq2. simpl in *. rewrite Hst in Hq2. rewrite Hsk, Hs, Hst.
    split; [done|by apply (protocol_next P)].
Qed.

Lemma protocol_value_phase p1 p2 : at_state (states p1) true p1 p2 -> skip_to_state_evaluation p1 = false ->
  outcome flows (parse_value_phase p1) (parse_value_phase p2).
Proof.
  intros Hp Hs. pose proof Hp as [Ha HR]. pose proof Ha as (Est & Esk & E3 & E4 & Hok & Hq).
  unfold parse_value_phase. rewrite <- E3, <- E4.
  assert (forall v ev1 ev2, scalar_event v ev1 ev2 -> wf_json v ->
    outcome flows (event ev1 p1 (fun p => Ret (FBreak p))) (event ev2 p2 (fun p => Ret (FBreak p)))) as Hscalar.
  { intros v ev1 ev2 Hev Hv. eapply protocol_event; [done|by eapply (protocol_scalar P)|]. intros s1 s2 HR1. by split. }
  assert (forall e, syntax_exn e -> outcome flows (error_return e p1) (error_return e p2)) as Herror
    by (intros; by eapply protocol_error_return).
  destruct (last_token p1) eqn:Ht; simpl in Hok; try (apply Herror, syntax_101);
    try (eapply Hscalar; [constructor|by constructor]).
  - destruct (isfinite _); [eapply Hscalar; [constructor|by constructor]|apply Herror, syntax_406].
  - by apply protocol_begin_array.
  - by apply protocol_begin_object.
Qed.

Lemma protocol_close ev1 ev2 b sts p1 p2 : at_state (b :: sts) false p1 p2 -> states p1 = b :: sts ->
  both (R sts false) (ev1 (sax p1)) (ev2 (sax p2)) ->
  outcome flows (close_container ev1 p1) (close_container ev2 p2).
Proof.
  intros [Ha HR] Hst Hev. eapply protocol_event; [done|done|]. intros s1 s2 HR1. 
  pose proof (around_states (@tail bool) _ _ Ha) as Ha'. simpl. rewrite Hst in *. split; [|done].
  by apply (around_skip true) in Ha'.
Qed.

Lemma protocol_state_phase p1 p2 : at_state (states p1) false p1 p2 -> skip_to_state_evaluation p1 = false ->
  outcome flows (parse_state_phase p1) (parse_state_phase p2).
Proof.
  intros Hp Hs. unfold parse_state_phase. rewrite <- (proj1 (proj1 Hp)).
  destruct (states p1) as [|[] sts] eqn:Est.
  - by split.
  - unfold parse_array_state. apply (protocol_get_token (true :: sts) false); [done|].
    intros q1 q2 Hq Hst Hsk. pose proof Hq as [(_ & _ & E & _) HRq]. rewrite <- E.
    case_decide; [|case_decide].
    + apply (protocol_get_token (true :: sts) false); [done|]. intros u1 u2 [Hu HRu] Hst2 Hsk2. simpl.
      rewrite Hst2, Hsk2, Hst, Hsk, Hs, Est. split; [done|by apply (protocol_next P)].
    + apply (protocol_close _ _ true sts); [done|congruence|by apply (protocol_end_array P)].
    + eapply protocol_error_return; [done|apply syntax_101].
  - unfold parse_object_state. apply (protocol_get_token (false :: sts) false); [done|].
    intros q1 q2 Hq Hst Hsk. pose proof Hq as [(_ & _ & E & _) HRq]. rewrite <- E.
    case_decide; [|case_decide].
    + apply (protocol_get_token (false :: sts) false); [done|]. intros u1 u2 Hu Hst2 Hsk2.
      apply (protocol_key_read sts); [done|]. intros w1 w2 Hw Hst3 Hsk3.
      apply (protocol_get_token (false :: sts) true); [done|]. intros x1 x2 Hx Hst4 Hsk4. simpl.
      rewrite Hst4, Hsk4, Hst3, Hsk3, Hst2, Hsk2, Hst, Hsk, Hs, Est. done.
    + apply (protocol_close _ _ false sts); [done|congruence|by apply (protocol_end_object P)].
    + eapply protocol_error_return; [done|apply syntax_101].
Qed.

Lemma protocol_turn p1 p2 : at_state (states p1) (negb (skip_to_state_evaluation p1)) p1 p2 ->
  outcome flows (parse_turn p1) (parse_turn p2).
Proof.
  intros Hp. unfold parse_turn. rewrite <- (proj1 (proj2 (proj1 Hp))).
  destruct (skip_to_state_evaluation p1) eqn:Hs.
  { apply protocol_state_phase; [|done]. split; [by apply around_skip, Hp|apply Hp]. }
  pose proof (protocol_value_phase p1 p2 Hp Hs) as Hv.
  destruct (parse_value_phase p1) as [f1| |], (parse_value_phase p2) as [f2| |]; try done. simpl in *.
  destruct f1, f2; try done. destruct Hv as [Hv Hsk]. by apply protocol_state_phase.
Qed.

Definition results (r1 : bool * P1) (r2 : bool * P2) : Prop :=
  r1.1 = r2.1 /\ around r1.2 r2.2 /\
  if r1.1 then R [] false (sax r1.2) (sax r2.2) else Rejected (sax r1.2) (sax r2.2).

Lemma protocol_loop fuel : forall p1 p2, at_state (states p1) (negb (skip_to_state_evaluation p1)) p1 p2 ->
  outcome results (sax_parse_loop fuel p1) (sax_parse_loop fuel p2).
Proof.
  induction fuel as [|n IH]; intros p1 p2 Hp; simpl; [done|].
  pose proof (protocol_turn p1 p2 Hp) as Ht. pose proof (parse_turn_no_break p1) as Hnb.
  destruct (parse_turn p1) as [f1| |], (parse_turn p2) as [f2| |]; try done. simpl in *.
  destruct f1 as [[] q1|q1|q1], f2 as [b2 q2|q2|q2]; try done; [..|by apply IH]; by destruct Ht as [<- []].
Qed.

Lemma protocol_internal i ignore dp s1 s2 p1 p2 : Forall is_byte i -> R [] true s1 s2 ->
  parser_init i ignore [dp] s1 = Ret p1 -> parser_init i ignore [dp] s2 = Ret p2 ->
  outcome results (sax_parse_internal p1) (sax_parse_internal p2).
Proof.
  intros Hi HR Hp1 Hp2. destruct (parser_init_ok i ignore dp s1 Hi) as (t & l & q & E & Hq & Hok & _).
  unfold parser_init, get_token in *. simpl in *.
  destruct (scan _) as [[t' l']| |]; try done. simplify_eq/=. apply protocol_loop.
  split; [|done]. split_and!; try done. by exists q.
Qed.
End Protocol.
