(* ===== verification/JsonCallback.v ===== *)
(** Parsing with a callback: [json_sax_dom_callback_parser] of
    [src/libephmem/json.hpp] and the branch of [parser::parse] that uses it.

    The callback is a function object: a state [C], and a function of the
    depth, the event, the value it is shown and that state.  It decides
    whether the value is kept, and may change the value, which it gets by
    reference.  Pointers into the value under construction are paths, as in
    [JsonParser]; a null pointer is [None]. *)
From S2P Require Import Prelude Utf8 JsonValue JsonLexer JsonParser.

Inductive parse_event_t := event_object_start | event_object_end | event_array_start | event_array_end
  | event_key | event_value.

Section Callback.
Context {F C : Type}.
Implicit Types (v : json F).

Definition parser_callback_t : Type := Z -> parse_event_t -> json F -> C -> bool * json F * C.

Record callback_parser := mk_callback_parser {
  cb_root : json F;
  cb_stack : list (option (list pstep));      (* ref_stack, the back first *)
  keep_stack : list bool;
  key_keep_stack : list bool;
  cb_element : option (list pstep);           (* object_element *)
  cb_errored : bool;
  callback : parser_callback_t;
  cb_allow : bool;                            (* allow_exceptions *)
  discarded : json F;
  cb_state : C
}.
Implicit Types (s : callback_parser).

(** The constructor. *)
Definition callback_init (result : json F) (cb : parser_callback_t) (allow : bool) (c : C) : callback_parser :=
  mk_callback_parser result [] [true] [] None false cb allow value_discarded c.

Definition set_root s (r : json F) : callback_parser :=
  mk_callback_parser r (cb_stack s) (keep_stack s) (key_keep_stack s) (cb_element s) (cb_errored s)
    (callback s) (cb_allow s) (discarded s) (cb_state s).
Definition set_stacks s (st : list (option (list pstep))) (ks : list bool) : callback_parser :=
  mk_callback_parser (cb_root s) st ks (key_keep_stack s) (cb_element s) (cb_errored s)
    (callback s) (cb_allow s) (discarded s) (cb_state s).
Definition set_keys s (ks : list bool) (e : option (list pstep)) : callback_parser :=
  mk_callback_parser (cb_root s) (cb_stack s) (keep_stack s) ks e (cb_errored s)
    (callback s) (cb_allow s) (discarded s) (cb_state s).
Definition set_error s : callback_parser :=
  mk_callback_parser (cb_root s) (cb_stack s) (keep_stack s) (key_keep_stack s) (cb_element s) true
    (callback s) (cb_allow s) (discarded s) (cb_state s).
Definition set_called s (d : json F) (c : C) : callback_parser :=
  mk_callback_parser (cb_root s) (cb_stack s) (keep_stack s) (key_keep_stack s) (cb_element s) (cb_errored s)
    (callback s) (cb_allow s) d c.

(** [callback(static_cast<int>(depth), event, parsed)] *)
Definition call s (depth : Z) (event : parse_event_t) v : bool * json F * callback_parser :=
  let '(keep, v, c) := callback s (to_signed 32 depth) event v (cb_state s) in
  (keep, v, set_called s (discarded s) c).

Definition depth s : Z := Z.of_nat (length (cb_stack s)).

(** The call at the beginning of a container is shown [discarded]. *)
Definition call_start s (event : parse_event_t) : bool * callback_parser :=
  let '(keep, d, s) := call s (depth s) event (discarded s) in
  (keep, set_called s d (cb_state s)).

(** The pointer to the stored value, null if it was not kept. *)
Definition cb_handle_value v (skip_callback : bool) s : comp (option (list pstep) * callback_parser) :=
  match keep_stack s with
  | [] => Throw assertion_failure
  | false :: _ => Ret (None, s)
  | true :: _ =>
      let '(keep, value, s) := if skip_callback then (true, v, s) else call s (depth s) event_value v in
      if negb keep then Ret (None, s)
      else
        match cb_stack s with
        | [] => Ret (Some [], set_root s value)
        | None :: _ => Ret (None, s)
        | Some p :: _ =>
            match path_get (cb_root s) p with
            | Some (value_array l) =>
                Ret (Some (p ++ [PIdx (length l)]),
                     set_root s (path_alter (fun _ => value_array (l ++ [value])) (cb_root s) p))
            | Some (value_object _) =>
                match key_keep_stack s with
                | [] => Throw assertion_failure
                | store_element :: ks =>
                    let s := set_keys s ks (cb_element s) in
                    if negb store_element then Ret (None, s)
                    else
                      match cb_element s with
                      | Some e => Ret (Some e, set_root s (path_alter (fun _ => value) (cb_root s) e))
                      | None => Throw assertion_failure
                      end
                end
            | _ => Throw assertion_failure
            end
        end
  end.

Definition cb_value v s : comp (bool * callback_parser) :=
  let* '(_, s) := cb_handle_value v false s in Ret (true, s).

Definition cb_start (event : parse_event_t) v s : comp (bool * callback_parser) :=
  let '(keep, s) := call_start s event in
  let s := set_stacks s (cb_stack s) (keep :: keep_stack s) in
  let* '(val, s) := cb_handle_value v true s in
  Ret (true, set_stacks s (val :: cb_stack s) (keep_stack s)).

Definition cb_start_object : callback_parser -> comp (bool * callback_parser) := cb_start event_object_start (value_object []).
Definition cb_start_array : callback_parser -> comp (bool * callback_parser) := cb_start event_array_start (value_array []).

Definition cb_key (val : bytes) s : comp (bool * callback_parser) :=
  let '(keep, _, s) := call s (depth s) event_key (value_string val) in
  let s := set_keys s (keep :: key_keep_stack s) (cb_element s) in
  match cb_stack s with
  | [] => Throw assertion_failure
  | None :: _ => Ret (true, s)
  | Some p :: _ =>
      if negb keep then Ret (true, s)
      else
        match path_get (cb_root s) p with
        | Some (value_object m) =>
            let m := object_alter (fun _ => discarded s) val (object_emplace val value_null m) in
            let s := set_root s (path_alter (fun _ => value_object m) (cb_root s) p) in
            Ret (true, set_keys s (key_keep_stack s) (Some (p ++ [PKey val])))
        | _ => Throw assertion_failure
        end
  end.

(** The call at the end of a container; the container is replaced when it is
    not kept. *)
Definition call_end (event : parse_event_t) s : comp (bool * callback_parser) :=
  match cb_stack s with
  | [] => Throw assertion_failure
  | None :: _ => Ret (true, s)
  | Some p :: _ =>
      match path_get (cb_root s) p with
      | Some v =>
          let '(keep, v, s) := call s (depth s - 1) event v in
          Ret (keep, set_root s (path_alter (fun _ => if keep then v else discarded s) (cb_root s) p))
      | None => Throw assertion_failure
      end
  end.

Definition pop_stacks s : comp callback_parser :=
  match cb_stack s, keep_stack s with
  | _ :: st, _ :: ks => Ret (set_stacks s st ks)
  | _, _ => Throw assertion_failure
  end.

(** The loop of [end_object]: the first discarded element is erased. *)
Fixpoint erase_discarded {A} (value_of : A -> json F) (l : list A) : list A :=
  match l with
  | [] => []
  | x :: l => if is_discarded (value_of x) then l else x :: erase_discarded value_of l
  end.

Definition remove_discarded v : json F :=
  match v with
  | value_array l => value_array (erase_discarded id l)
  | value_object m => value_object (erase_discarded snd m)
  | v => v
  end.

Definition cb_end_object s : comp (bool * callback_parser) :=
  let* '(_, s) := call_end event_object_end s in
  let* s := pop_stacks s in
  match cb_stack s with
  | Some p :: _ => Ret (true, set_root s (path_alter remove_discarded (cb_root s) p))
  | _ => Ret (true, s)
  end.

Definition cb_end_array s : comp (bool * callback_parser) :=
  let* '(keep, s) := call_end event_array_end s in
  let* s := pop_stacks s in
  if keep then Ret (true, s)
  else
    match cb_stack s with
    | [] => Ret (true, s)
    | None :: _ => Throw assertion_failure
    | Some p :: _ =>
        match path_get (cb_root s) p with
        | Some (value_array l) =>
            Ret (true, set_root s (path_alter (fun _ => value_array (removelast l)) (cb_root s) p))
        | Some _ => Ret (true, s)
        | None => Throw assertion_failure
        end
    end.

Definition cb_parse_error (ex : exn) s : comp (bool * callback_parser) :=
  let s := set_error s in
  if cb_allow s then Throw ex else Ret (false, s).

#[export] Instance callback_sax : Sax F callback_parser := {
  sax_null := cb_value value_null;
  sax_boolean b := cb_value (value_boolean b);
  sax_number_integer z := cb_value (value_number_integer z);
  sax_number_unsigned z := cb_value (value_number_unsigned z);
  sax_number_float f _ := cb_value (value_number_float f);
  sax_string val := cb_value (value_string val);
  sax_start_object := cb_start_object;
  sax_key := cb_key;
  sax_end_object := cb_end_object;
  sax_start_array := cb_start_array;
  sax_end_array := cb_end_array;
  sax_parse_error _ _ ex := cb_parse_error ex
}.
End Callback.
Arguments parser_callback_t F C : clear implicits.
Arguments callback_parser F C : clear implicits.

Section Entry.
Context {F C : Type} `{FloatOps F}.

(** [parser::parse] with a callback: the value and the callback's state. *)
Definition callback_parse (strict : bool) (p : parser F (callback_parser F C)) : comp (json F * C) :=
  let* '(_, p) := sax_parse_internal p in
  let* p :=
    (if strict then
       let* p := get_token p in
       if decide (last_token p = end_of_input) then Ret p
       else
         let* '(_, s) := cb_parse_error (parse_error 101) (sax p) in
         Ret (with_sax p s)
     else Ret p) in
  if cb_errored (sax p) then Ret (value_discarded, cb_state (sax p))
  else if is_discarded (cb_root (sax p)) then Ret (value_null, cb_state (sax p))
  else Ret (cb_root (sax p), cb_state (sax p)).

(** [basic_json::parse(i, cb, allow_exceptions, ignore_comments)] *)
Definition json_parse_callback (i : bytes) (cb : parser_callback_t F C) (c : C) (allow ignore : bool)
    (decimal_point : bytes) : comp (json F * C) :=
  let* p := parser_init i ignore decimal_point (callback_init value_null cb allow c) in
  callback_parse true p.
End Entry.

(** ** Examples *)

Section Examples.
#[local] Existing Instance example_floats.
Definition no_ones (_ : Z) (ev : parse_event_t) (v : json Z) (c : unit) : bool * json Z * unit :=
  (match ev, v with event_value, value_number_unsigned 1 => false | _, _ => true end, v, c).

(** Values are dropped from an array. *)
Example array_filtered : json_parse_callback (str "[1,2,1]") no_ones tt true false [46] =
  Ret (value_array [value_number_unsigned 2], tt).
Proof. vm_compute. reflexivity. Qed.

(** A member whose value is dropped stays in the object, as a discarded
    value. *)
Example member_left : json_parse_callback (jtext "{'a':1,'b':2}") no_ones tt true false [46] =
  Ret (value_object [(str "a", value_discarded); (str "b", value_number_unsigned 2)], tt).
Proof. vm_compute. reflexivity. Qed.
End Examples.
