(* ===== verification/JsonCallbackFacts.v ===== *)
(** The builder with a callback: none of its assertions fails and no null
    pointer is followed, whatever the callback decides and however it changes
    the values it is shown. *)
From S2P Require Import Prelude Utf8 JsonValue JsonLexer JsonLexerFacts JsonParser JsonParserFacts JsonProtocol JsonCallback.

Section Facts.
Context {F C : Type}.
Notation builder := (callback_parser F C).
Implicit Types (s : builder) (v : json F) (p : list pstep) (ps : list (list pstep)) (sts : list bool).

(** The pointers that are not null, as the stack of the plain builder. *)
Definition plain s ps : dom F := mk_dom (cb_root s) ps (cb_element s) (cb_errored s) (cb_allow s).

(** A key has been read; it may have been refused. *)
Definition keyed s : Prop :=
  match cb_stack s with
  | Some p :: _ =>
      match path_get (cb_root s) p with
      | Some (value_object _) =>
          match key_keep_stack s with
          | [] => False
          | false :: _ => True
          | true :: _ => exists k, cb_element s = Some (p ++ [PKey k]) /\ is_Some (path_get (cb_root s) (p ++ [PKey k]))
          end
      | _ => True
      end
  | _ => True
  end.

(** Null pointers come on top of the others. *)
Definition cb_inv sts (awaited : bool) s : Prop :=
  exists n ps, cb_stack s = replicate n None ++ map Some ps /\ chain ps /\
    Forall2 (kind_at (cb_root s)) (drop n sts) ps /\ length sts = (n + length ps)%nat /\
    (length sts < length (keep_stack s))%nat /\ (awaited = true -> keyed s).

Definition same_setup s s' : Prop := cb_errored s' = cb_errored s /\ cb_allow s' = cb_allow s.

Lemma call_set s d e v : exists keep v' c, call s d e v = (keep, v', set_called s (discarded s) c).
Proof. unfold call. destruct (callback s _ e v (cb_state s)) as [[keep v'] c]. eauto. Qed.

Lemma cb_inv_called sts aw s d c : cb_inv sts aw s -> cb_inv sts aw (set_called s d c).
Proof. done. Qed.

Lemma cb_inv_unkeyed sts aw s s' : cb_inv sts aw s -> cb_stack s' = cb_stack s -> cb_root s' = cb_root s ->
  keep_stack s' = keep_stack s -> cb_inv sts false s'.
Proof. intros (n & ps & ? & ? & ? & ? & ? & _) Es Er Ek. exists n, ps. rewrite Es, Er, Ek. by split_and!. Qed.

Lemma keep_top sts aw s : cb_inv sts aw s -> exists b ks, keep_stack s = b :: ks.
Proof. intros (n & ps & _ & _ & _ & _ & Hk & _). destruct (keep_stack s); simpl in *; [lia|eauto]. Qed.

(** Where a value would be stored. *)
Inductive top_view sts s : Prop :=
  | top_empty : cb_stack s = [] -> sts = [] -> top_view sts s
  | top_null st : cb_stack s = None :: st -> top_view sts s
  | top_some b sts' p ps v : sts = b :: sts' -> cb_stack s = map Some (p :: ps) -> chain (p :: ps) ->
      Forall2 (kind_at (cb_root s)) sts (p :: ps) -> path_get (cb_root s) p = Some v -> has_kind b v -> top_view sts s.

Lemma cb_inv_top sts aw s : cb_inv sts aw s -> top_view sts s.
Proof.
  intros (n & ps & E & Hc & Hk & Hl & _). destruct n as [|n]; [|eapply top_null; exact E].
  destruct ps as [|p ps]; simpl in *; [destruct sts; [by apply top_empty|done]|].
  rewrite drop_0 in Hk. pose proof Hk as Hk'.
  apply Forall2_cons_inv_r in Hk' as (b & sts' & (v & Hv & Hb) & _ & ->). by eapply top_some.
Qed.

(** A pointer was stored in the root: the stack keeps its kinds. *)
Definition stored_at s (val : option (list pstep)) v : Prop :=
  match val with
  | None => True
  | Some p => exists ps, cb_stack s = map Some ps /\ chain (p :: ps) /\ path_get (cb_root s) p = Some v
  end.

Lemma cb_inv_plain sts s ps : cb_stack s = map Some ps -> chain ps ->
  Forall2 (kind_at (cb_root s)) sts ps -> (length sts < length (keep_stack s))%nat -> cb_inv sts false s.
Proof. intros. exists 0%nat, ps. rewrite drop_0. split_and!; try done. by eapply Forall2_length. Qed.

Ltac handled Hf := split; [reflexivity|split; [|split; [simpl; congruence|split; [simpl; congruence|split; [exact Hf|]]]]].

(** [handle_value] when a value is awaited. *)
Lemma cb_handle_value_ok sts v (skip : bool) s : cb_inv sts true s ->
  exists val s', cb_handle_value v skip s = Ret (val, s') /\ cb_inv sts false s' /\
    cb_stack s' = cb_stack s /\ keep_stack s' = keep_stack s /\ same_setup s s' /\ (skip = true -> stored_at s' val v).
Proof.
  intros Hi. destruct (keep_top _ _ _ Hi) as (b & ks & Ek). unfold cb_handle_value. rewrite Ek.
  assert (cb_inv sts false s) as Hi0 by by eapply cb_inv_unkeyed.
  destruct b; [|by exists None, s].
  destruct (if skip then _ else _) as [[keep value] s1] eqn:Ecall.
  assert (cb_inv sts true s1 /\ cb_inv sts false s1 /\ cb_root s1 = cb_root s /\ cb_stack s1 = cb_stack s /\
    keep_stack s1 = keep_stack s /\ same_setup s s1 /\ (skip = true -> value = v)) as (Hi1 & Hi2 & Er & Es & Eks & Hf & Hval).
  { destruct skip; [by simplify_eq|]. destruct (call_set s (depth s) event_value v) as (? & ? & ? & E).
    rewrite E in Ecall. by simplify_eq. }
  clear Ecall. destruct keep; simpl; [|by exists None, s1; rewrite Eks].
  destruct (cb_inv_top _ _ _ Hi1) as [E ->|st E|b sts' p ps w -> E Hc Hk Hw Hb]; rewrite E.
  - exists (Some []), (set_root s1 value). handled Hf.
    + apply (cb_inv_plain _ _ []); [done|constructor|constructor|]. simpl. rewrite Eks, Ek. simpl. lia.
    + intros Hsk. exists []. split_and!; [done|constructor|by rewrite Hval].
  - exists None, s1. by handled Hf.
  - cbn [map]. rewrite Hw. assert (ready (plain s1 (p :: ps)) -> forall s2, cb_stack s2 = cb_stack s1 -> keep_stack s2 = keep_stack s1 ->
      cb_root s2 = place value (plain s1 (p :: ps)) -> cb_inv (b :: sts') false s2 /\
      (skip = true -> stored_at s2 (Some (slot (plain s1 (p :: ps)))) v)) as Hplace.
    { intros Hr s2 E2 Ek2 Er2. split.
      - apply (cb_inv_plain _ _ (p :: ps)); [congruence|done| |rewrite Ek2; by destruct Hi1 as (? & ? & ? & ? & ? & ? & ? & ?)].
        rewrite Er2. apply (kinds_place _ _ _ Hr Hc Hk).
      - intros Hsk. exists (p :: ps). rewrite Er2, <- Hval by done. split_and!; [congruence|by apply slot_chain|by apply slot_place]. }
    destruct w as [|m|l| | | | | | |]; try (by destruct b).
    + assert (keyed s1) as Hkey by (destruct Hi1 as (? & ? & ? & ? & ? & ? & ? & Hkey); by apply Hkey).
      unfold keyed in Hkey. rewrite E in Hkey. simpl in Hkey. rewrite Hw in Hkey.
      destruct (key_keep_stack s1) as [|store ks'] eqn:Ekk; [done|]. simpl.
      destruct store; simpl.
      * destruct Hkey as (k & Ee & Hs). rewrite Ee.
        destruct (Hplace) with (s2 := set_root (set_keys s1 ks' (Some (p ++ [PKey k]))) (path_alter (fun _ => value) (cb_root s1) (p ++ [PKey k])))
          as [Hinv Hst]; try done.
        { unfold ready. simpl. rewrite Hw. eauto. }
        { unfold place. simpl. by rewrite Hw, Ee. }
        eexists _, _. handled Hf; [done|].
        intros Hsk. specialize (Hst Hsk). unfold slot in Hst. simpl in Hst. rewrite Hw, Ee in Hst. exact Hst.
      * exists None, (set_keys s1 ks' (cb_element s1)). handled Hf; [by eapply cb_inv_unkeyed|done].
    + destruct (Hplace) with (s2 := set_root s1 (path_alter (fun _ => value_array (l ++ [value])) (cb_root s1) p)) as [Hinv Hst]; try done.
      { unfold ready. simpl. by rewrite Hw. }
      { unfold place. simpl. by rewrite Hw. }
      eexists _, _. handled Hf; [done|].
      intros Hsk. specialize (Hst Hsk). unfold slot in Hst. simpl in Hst. rewrite Hw in Hst. exact Hst.
Qed.

(** ** The events *)

Lemma same_setup_refl s : same_setup s s.
Proof. done. Qed.

Lemma same_setup_trans s1 s2 s3 : same_setup s1 s2 -> same_setup s2 s3 -> same_setup s1 s3.
Proof. intros [] []. split; congruence. Qed.

Definition steps sts aw s (r : comp (bool * builder)) : Prop :=
  exists s', r = Ret (true, s') /\ cb_inv sts aw s' /\ same_setup s s'.

Lemma cb_value_ok sts v s : cb_inv sts true s -> steps sts false s (cb_value v s).
Proof.
  intros Hi. unfold cb_value. destruct (cb_handle_value_ok sts v false s Hi) as (val & s' & -> & Hi' & _ & _ & Hf & _).
  by exists s'.
Qed.

Lemma chain_proper p ps q : chain (p :: ps) -> q ∈ ps -> exists a r, p = q ++ a :: r.
Proof.
  intros Hc Hq. inversion Hc as [| |p' a st Hc']; subst; [by apply elem_of_nil in Hq|].
  destruct (chain_prefix _ Hc' p' eq_refl q Hq) as [r ->]. rewrite <- app_assoc.
  destruct r as [|x r]; simpl; eauto.
Qed.

(** Below a pointer, a change of what it points to is not seen. *)
Lemma kinds_below f (root : json F) sts p ps : chain (p :: ps) -> Forall2 (kind_at root) sts ps ->
  Forall2 (kind_at (path_alter f root p)) sts ps.
Proof.
  intros Hc Hk. eapply Forall2_impl_r; [exact Hk|]. intros b q Hq Hb.
  destruct (chain_proper _ _ _ Hc Hq) as (a & r & ->). by apply kind_alter.
Qed.

Lemma kinds_alter f (root : json F) sts p ps : chain (p :: ps) -> Forall2 (kind_at root) sts (p :: ps) ->
  (forall b w, path_get root p = Some w -> has_kind b w -> has_kind b (f w)) ->
  Forall2 (kind_at (path_alter f root p)) sts (p :: ps).
Proof.
  intros Hc Hk Hf. apply Forall2_cons_inv_r in Hk as (b & sts' & (v & Hv & Hb) & Hk & ->).
  constructor; [|by apply kinds_below]. exists (f v). rewrite path_get_alter, Hv. split; [done|]. by apply Hf.
Qed.

Lemma chain_tail p ps : chain (p :: ps) -> chain ps.
Proof. inversion 1; [constructor|done]. Qed.

Lemma keep_length sts aw s : cb_inv sts aw s -> (length sts < length (keep_stack s))%nat.
Proof. by intros (n & ps & _ & _ & _ & _ & ? & _). Qed.

(** Nothing is null when the top is not. *)
Lemma not_null_plain sts aw s ps : cb_inv sts aw s -> cb_stack s = map Some ps ->
  chain ps /\ Forall2 (kind_at (cb_root s)) sts ps.
Proof.
  intros (n & ps' & E & Hc & Hk & _) Eps. rewrite E in Eps. destruct n as [|n]; [|by destruct ps].
  rewrite drop_0 in Hk. simpl in Eps. apply (inj (map Some)) in Eps as ->. done.
Qed.

Lemma cb_start_ok ev b v sts s : has_kind b v -> cb_inv sts true s -> steps (b :: sts) false s (cb_start ev v s).
Proof.
  intros Hb Hi. unfold cb_start, call_start. destruct (call_set s (depth s) ev (discarded s)) as (keep & d & c & ->).
  set (s1 := set_stacks _ _ _). assert (cb_inv sts true s1) as Hi1.
  { destruct Hi as (n & ps & ? & ? & ? & ? & ? & ?). exists n, ps. split_and!; try done. simpl. lia. }
  destruct (cb_handle_value_ok sts v true s1 Hi1) as (val & s2 & -> & Hi2 & Es & Eks & Hf & Hst). cbn [comp_bind].
  eexists. split; [done|]. split; [|exact Hf]. specialize (Hst eq_refl).
  assert (length (b :: sts) < length (keep_stack s2))%nat as Hks.
  { pose proof (keep_length _ _ _ Hi). rewrite Eks. simpl. lia. }
  destruct val as [p|].
  - destruct Hst as (ps & Eps & Hc & Hget). destruct (not_null_plain _ _ _ _ Hi2 Eps) as [_ Hk].
    apply (cb_inv_plain _ _ (p :: ps)); [simpl; by rewrite Eps|done|by constructor; [exists v|]|done].
  - destruct Hi2 as (n & ps & E & Hc & Hk & Hl & _). exists (S n), ps. split_and!; try done; [|simpl; lia].
    simpl. by rewrite E.
Qed.

Lemma object_emplace_is_some k v (m : list (bytes * json F)) : is_Some (object_find k (object_emplace k v m)).
Proof.
  induction m as [|[k1 v1] m IH]; simpl; [rewrite decide_True by done; eauto|]. repeat case_match; simpl; subst.
  - rewrite decide_True by done. eauto.
  - rewrite decide_True by done. eauto.
  - by rewrite decide_False.
Qed.

Lemma cb_key_ok k sts s : cb_inv (false :: sts) false s -> steps (false :: sts) true s (cb_key k s).
Proof.
  intros Hi. unfold cb_key. destruct (call_set s (depth s) event_key (value_string k)) as (keep & v & c & ->).
  destruct (cb_inv_top _ _ _ Hi) as [_ ?|st E|b sts' p ps w [= <- <-] E Hc Hk Hw Hb]; [done|..]; cbn [cb_stack set_keys set_called];
    rewrite E; cbn [map].
  - eexists. split; [done|]. split; [|done]. destruct Hi as (n & ps & ? & ? & ? & ? & ? & _). exists n, ps.
    split_and!; try done. intros _. unfold keyed. simpl. by rewrite E.
  - destruct keep; simpl.
    + rewrite Hw. destruct w as [|m| | | | | | | |]; try done. eexists. split; [done|]. split; [|done].
      exists 0%nat, (p :: ps). rewrite drop_0. split_and!; try done.
      * apply kinds_alter; [done|done|]. intros b w Hw' Hb'. rewrite Hw in Hw'. injection Hw' as <-. by destruct b.
      * simpl. f_equal. by apply Forall2_length in Hk as [= ?].
      * apply (keep_length _ _ _ Hi).
      * intros _. unfold keyed. simpl. rewrite E. simpl. rewrite path_get_alter, Hw. simpl. exists k. split; [done|].
        rewrite path_get_snoc, path_get_alter, Hw. simpl. rewrite object_find_alter.
        destruct (object_emplace_is_some k value_null m) as [x ->]. eauto.
    + eexists. split; [done|]. split; [|done]. destruct Hi as (n & ps' & ? & ? & ? & ? & ? & _). exists n, ps'.
      split_and!; try done. intros _. unfold keyed. simpl. rewrite E. simpl. rewrite Hw. by destruct w.
Qed.

(** The end of a container: the call, then the pop. *)
Lemma call_end_ok ev b sts s : cb_inv (b :: sts) false s ->
  exists keep s1 s2, call_end ev s = Ret (keep, s1) /\ pop_stacks s1 = Ret s2 /\ cb_inv sts false s2 /\
    same_setup s s2 /\ (keep = false -> exists ps, cb_stack s2 = map Some ps).
Proof.
  intros Hi. destruct (keep_top _ _ _ Hi) as (k & ks & Ek). pose proof (keep_length _ _ _ Hi) as Hl.
  rewrite Ek in Hl. simpl in Hl. unfold call_end, pop_stacks.
  destruct (cb_inv_top _ _ _ Hi) as [_ ?|st E|b' sts' p ps w [= <- <-] E Hc Hk Hw Hb]; [done|..]; rewrite E; cbn [map].
  - exists true, s, (set_stacks s st ks). rewrite E, Ek. split_and!; try done.
    destruct Hi as (n & ps & Es & Hc & Hk & Hn & _ & _). rewrite E in Es. destruct n as [|n]; [by destruct ps|].
    simpl in Es, Hk, Hn. injection Es as Es. exists n, ps. split_and!; try done; simpl; lia.
  - rewrite Hw. destruct (call_set s (depth s - 1) ev w) as (keep & v & c & ->).
    set (f := fun _ : json F => _). eexists keep, _, _. split; [reflexivity|]. simpl. rewrite E, Ek. cbn [map].
    split; [reflexivity|]. split_and!; try done; [|by exists ps].
    apply (cb_inv_plain _ _ ps); [done|by eapply chain_tail| |simpl; lia]. simpl.
    apply Forall2_cons_inv_r in Hk as (? & ? & _ & Hk & [= <- <-]). by apply kinds_below.
Qed.

Lemma has_kind_remove b v : has_kind b v -> has_kind b (remove_discarded v).
Proof. by destruct b, v. Qed.

(** A change of the container on top, of its kind. *)
Lemma cb_inv_alter f sts s p st : cb_inv sts false s -> cb_stack s = Some p :: st ->
  (forall b w, path_get (cb_root s) p = Some w -> has_kind b w -> has_kind b (f w)) ->
  cb_inv sts false (set_root s (path_alter f (cb_root s) p)).
Proof.
  intros Hi E Hf. pose proof (keep_length _ _ _ Hi) as Hl.
  destruct (cb_inv_top _ _ _ Hi) as [E'|? E'|b sts' q ps w -> E' Hc Hk Hw Hb]; rewrite E in E'; [done|done|].
  injection E' as -> ->. apply (cb_inv_plain _ _ (q :: ps)); [done|done|by apply kinds_alter|done].
Qed.

Lemma cb_end_object_ok sts s : cb_inv (false :: sts) false s -> steps sts false s (cb_end_object s).
Proof.
  intros Hi. unfold cb_end_object. destruct (call_end_ok event_object_end _ _ _ Hi) as (keep & s1 & s2 & -> & E & Hi2 & Hf & _).
  cbn [comp_bind]. rewrite E. cbn [comp_bind].
  destruct (cb_stack s2) as [|[p|] st] eqn:Est; (eexists; split; [done|]); [by split| |by split].
  split; [|done]. eapply cb_inv_alter; [done|done|]. intros. by apply has_kind_remove.
Qed.

Lemma cb_end_array_ok sts s : cb_inv (true :: sts) false s -> steps sts false s (cb_end_array s).
Proof.
  intros Hi. unfold cb_end_array. destruct (call_end_ok event_array_end _ _ _ Hi) as (keep & s1 & s2 & -> & E & Hi2 & Hf & Hnull).
  cbn [comp_bind]. rewrite E. cbn [comp_bind]. destruct keep; [eexists; by split|].
  destruct (Hnull eq_refl) as (ps & Eps). rewrite Eps.
  destruct ps as [|p ps]; cbn [map]; [eexists; by split|].
  destruct (cb_inv_top _ _ _ Hi2) as [E'|? E'|b sts' q qs w -> E' Hc Hk Hw Hb]; rewrite Eps in E'; [done|done|].
  injection E' as -> _. rewrite Hw. destruct w; (eexists; split; [done|]); try by split.
  split; [|done]. eapply cb_inv_alter; [done|by rewrite Eps|]. intros b' w Hw'. rewrite Hw in Hw'. by injection Hw' as <-.
Qed.

Lemma cb_inv_next sts s : cb_inv (true :: sts) false s -> cb_inv (true :: sts) true s.
Proof.
  intros Hi. pose proof (cb_inv_top _ _ _ Hi) as Ht. destruct Hi as (n & ps & ? & ? & ? & ? & ? & _). exists n, ps.
  split_and!; try done. intros _. unfold keyed.
  destruct Ht as [_ ?|st ->|b' sts' p qs w [= <- <-] -> Hc Hk Hw Hb]; [done|done|]. simpl. rewrite Hw. by destruct w.
Qed.

Lemma callback_init_inv cb allow c : cb_inv [] true (callback_init (F:=F) (C:=C) value_null cb allow c).
Proof. exists 0%nat, []. split_and!; simpl; try done; [constructor|lia]. Qed.
End Facts.
