(* ===== verification/JsonCallbackSpec.v ===== *)
(** What parsing with a callback promises: the callback has no influence on
    which texts are accepted and on how errors are reported, no decision and
    no change it makes leads to a failed assertion or a null pointer; and a
    callback that keeps everything changes nothing. *)
From S2P Require Import Prelude Utf8 JsonValue JsonLexer JsonLexerFacts JsonParser JsonParserFacts JsonProtocol.
From S2P Require Import JsonCallback JsonCallbackFacts.

Section Follow.
Context {F C : Type} `{FloatOps F}.
Variable allow : bool.
Notation builder := (callback_parser F C).
Implicit Types (d : dom F) (s : builder) (sts : list bool).

(** The plain builder and the builder with a callback side by side. *)
Definition follows sts (aw : bool) d s : Prop :=
  dom_inv sts d /\ (aw = true -> ready d) /\ errored d = false /\ allow_exceptions d = allow /\
  cb_inv sts aw s /\ cb_errored s = false /\ cb_allow s = allow.

Definition both_errored d s : Prop :=
  allow = false /\ errored d = true /\ allow_exceptions d = false /\ cb_errored s = true /\ cb_allow s = false.

Lemma follows_both sts sts' aw' d s ev1 ev2 aw :
  follows sts aw d s ->
  (exists d', ev1 = Ret (true, d') /\ dom_inv sts' d' /\ same_flags d d' /\ (aw' = true -> ready d')) ->
  steps sts' aw' s ev2 -> both (follows sts' aw') ev1 ev2.
Proof.
  intros (_ & _ & He & Ha & _ & Hce & Hca) (d' & -> & Hd & [Fe Fa] & Hr) (s' & -> & Hs & [Ge Ga]).
  exists d', s'. split_and!; try done. unfold follows. split_and!; try done; congruence.
Qed.

Lemma follow_protocol : protocol (F:=F) follows both_errored.
Proof.
  split.
  - intros v ev1 ev2 sts d s Hev Hv Hf. pose proof Hf as (Hd & Hr & _ & _ & Hs & _).
    assert (both (follows sts false) (dom_value v d) (cb_value v s)); [|by destruct Hev].
    eapply follows_both; [done| |by apply cb_value_ok].
    destruct (dom_value_ok _ v _ Hd (Hr eq_refl) Hv) as (d' & ? & ? & ?). by exists d'.
  - intros sts d s Hf. pose proof Hf as (Hd & Hr & _ & _ & Hs & _).
    eapply follows_both; [done| |by apply cb_start_ok].
    destruct (dom_start_ok sts (value_object []) d false Hd (Hr eq_refl)) as (d' & ? & ? & ? & _); [by constructor; [constructor|..]|done|].
    by exists d'.
  - intros k sts d s Hk Hf. pose proof Hf as (Hd & _ & _ & _ & Hs & _).
    eapply follows_both; [done| |by apply cb_key_ok].
    destruct (dom_key_ok _ k _ Hd Hk) as (d' & ? & ? & ? & ?). by exists d'.
  - intros sts d s Hf. pose proof Hf as (Hd & _ & _ & _ & Hs & _).
    eapply follows_both; [done| |by apply cb_end_object_ok].
    destruct (dom_end_ok _ _ _ Hd) as (d' & ? & ? & ? & _). by exists d'.
  - intros sts d s Hf. pose proof Hf as (Hd & Hr & _ & _ & Hs & _).
    eapply follows_both; [done| |by apply cb_start_ok].
    destruct (dom_start_ok sts (value_array []) d true Hd (Hr eq_refl)) as (d' & ? & ? & ? & _); [by constructor|done|].
    by exists d'.
  - intros sts d s (Hd & _ & ? & ? & Hs & ? & ?). split_and!; try done; [intros _; by eapply ready_array|by apply cb_inv_next].
  - intros sts d s Hf. pose proof Hf as (Hd & _ & _ & _ & Hs & _).
    eapply follows_both; [done| |by apply cb_end_array_ok].
    destruct (dom_end_ok _ _ _ Hd) as (d' & ? & ? & ? & _). by exists d'.
  - intros n t e sts aw d s (_ & _ & He & Ha & _ & Hce & Hca) _. simpl. unfold dom_parse_error, cb_parse_error. simpl.
    rewrite Ha, Hca. destruct allow eqn:Eal; [by left|right]. eexists _, _. split_and!; [done|done|]. by split_and!.
Qed.

(** From the end of the loop to the end of [parser::parse]. *)
Lemma parse_pair (R : list bool -> bool -> dom F -> builder -> Prop) i ignore dp cb c :
  protocol R both_errored -> Forall is_byte i ->
  R [] true (dom_init value_null allow) (callback_init value_null cb allow c) ->
  (forall d s, R [] false d s -> follows [] false d s) ->
  match json_parse i allow ignore [dp] with
  | Ret j => exists j' c', json_parse_callback i cb c allow ignore [dp] = Ret (j', c') /\
      ((allow = false /\ j = value_discarded /\ j' = value_discarded) \/
       exists d s, R [] false d s /\ j = root d /\ j' = if is_discarded (cb_root s) then value_null else cb_root s)
  | Throw e => json_parse_callback i cb c allow ignore [dp] = Throw e
  | OutOfFuel => False
  end.
Proof.
  intros P Hi HR HRf. pose proof (json_parse_ok i allow ignore dp Hi) as Hok. unfold json_parse, json_parse_callback in *.
  destruct (parser_init_ok i ignore dp (dom_init (F:=F) value_null allow) Hi) as (t & l & q & Hp & _).
  destruct (parser_init_ok i ignore dp (callback_init (F:=F) value_null cb allow c) Hi) as (t' & l' & q' & Hp' & _).
  pose proof (protocol_internal R both_errored P i ignore dp _ _ _ _ Hi HR Hp Hp') as Hout.
  rewrite Hp in Hok |- *. rewrite Hp'. cbn [comp_bind] in *. unfold parser_parse, callback_parse in *.
  destruct (sax_parse_internal (mk_parser [] false t l _)) as [[b1 p1]|e1|], (sax_parse_internal (mk_parser [] false t' l' _)) as [[b2 p2]|e2|];
    try done; cbn [comp_bind] in *; [|simpl in Hout; by subst].
  destruct Hout as (Eb & Ha & Hr). cbn [fst snd] in *. subst b2.
  pose proof Ha as (_ & _ & _ & E4 & _ & q1 & Hq1).
  destruct (get_token_total p1 q1 Hq1) as (t1 & l1 & q1' & Ht1 & _).
  assert (get_token p2 = Ret (mk_parser (states p2) (skip_to_state_evaluation p2) t1 l1 (sax p2))) as Ht2.
  { unfold get_token in *. rewrite <- E4. destruct (scan _) as [[]| |]; simpl in *; congruence. }
  rewrite Ht1 in *. rewrite Ht2. cbn [comp_bind last_token sax] in *.
  assert (if b1 then errored (sax p1) = false /\ cb_errored (sax p2) = false /\ allow_exceptions (sax p1) = allow /\ cb_allow (sax p2) = allow
    else both_errored (sax p1) (sax p2)) as Hflags.
  { destruct b1; [|done]. destruct (HRf _ _ Hr) as (_ & _ & ? & ? & _ & ? & ?). done. }
  unfold dom_parse_error, cb_parse_error. simpl.
  destruct b1; [destruct Hflags as (He & Hce & Hal & Hcal)|destruct Hflags as (Hal0 & He & Hal & Hce & Hcal)]; case_decide; cbn;
    rewrite ?Hal, ?Hcal, ?He, ?Hce; cbn.
  - destruct (is_discarded (cb_root (sax p2))) eqn:Ed; cbn; eexists _, _; (split; [done|]); right;
      exists (sax p1), (sax p2); by rewrite Ed.
  - destruct allow; cbn; [done|]. eexists _, _. split; [done|]. by left.
  - eexists _, _. split; [done|]. by left.
  - eexists _, _. split; [done|]. by left.
Qed.
End Follow.

(** ** A callback that keeps everything *)

Section Keep.
Context {F C : Type} `{FloatOps F}.
Variable allow : bool.
Notation builder := (callback_parser F C).
Implicit Types (d : dom F) (s : builder) (v : json F) (sts : list bool).

Definition keeps_all (cb : parser_callback_t F C) : Prop :=
  forall n ev v c, exists c', cb n ev v c = (true, v, c').

(** The value under construction, with a discarded value where the value of
    the current key is awaited. *)
Definition awaiting (aw : bool) d s : Prop :=
  match ref_stack d with
  | p :: _ =>
      match path_get (root d) p with
      | Some (value_object _) =>
          if aw then exists e ks, object_element d = Some e /\ cb_element s = Some e /\ key_keep_stack s = true :: ks /\
            cb_root s = path_alter (fun _ => value_discarded) (root d) e
          else cb_root s = root d
      | _ => cb_root s = root d
      end
  | [] => cb_root s = root d
  end.

Definition kept (aw : bool) d s : Prop :=
  keeps_all (callback s) /\ cb_stack s = map Some (ref_stack d) /\ Forall (fun b => b = true) (keep_stack s) /\
  discarded s = value_discarded /\ awaiting aw d s.

Lemma call_keeps s n e v : keeps_all (callback s) -> exists c, call s n e v = (true, v, set_called s (discarded s) c).
Proof. intros Hk. unfold call. destruct (Hk (to_signed 32 n) e v (cb_state s)) as [c ->]. eauto. Qed.

(** Both builders store the value at the same place. *)
Lemma handle_value_kept sts v (skip : bool) d s : follows allow sts true d s -> kept true d s ->
  exists s', cb_handle_value v skip s = Ret (Some (slot d), s') /\ cb_root s' = place v d /\ callback s' = callback s /\
    cb_stack s' = cb_stack s /\ keep_stack s' = keep_stack s /\ discarded s' = discarded s.
Proof.
  intros (_ & Hr & _ & _ & Hi & _) (Hcb & Est & Hks & Hd & Haw). specialize (Hr eq_refl).
  destruct (keep_top _ _ _ Hi) as (b & ks & Ek). rewrite Ek in Hks. inversion Hks as [|? ? -> _]; subst.
  unfold cb_handle_value. rewrite Ek.
  assert (exists c, (if skip then (true, v, s) else call s (depth s) event_value v) = (true, v, c) /\ cb_root c = cb_root s /\
    cb_stack c = cb_stack s /\ keep_stack c = keep_stack s /\ key_keep_stack c = key_keep_stack s /\ cb_element c = cb_element s /\
    callback c = callback s /\ discarded c = discarded s) as (s1 & -> & Er & Es & Eks & Ekk & Ee & Ecb & Ed).
  { destruct skip; [by exists s|]. destruct (call_keeps s (depth s) event_value v Hcb) as [c ->]. eexists. by split_and!. }
  cbn [negb]. rewrite Es. unfold ready, awaiting, place, slot in *. revert Hr Haw Est.
  destruct (ref_stack d) as [|p ps]; intros Hr Haw Est; cbn [map] in Est; rewrite Est.
  { eexists. split; [done|]. simpl. split_and!; congruence. }
  revert Hr Haw. destruct (path_get (root d) p) as [w|] eqn:Ew; [|done].
  destruct w as [|m|l| | | | | | |]; intros Hr Haw; try done.
  - destruct Hr as (k & Eo & _), Haw as (e & ks' & Eo' & Ece & Ekks & Ercb). rewrite Eo in Eo'. injection Eo' as <-.
    rewrite Er, Ercb, path_alter_app, path_get_alter, Ew. simpl. rewrite Ekk, Ekks. simpl. rewrite Ee, Ece.
    eexists. rewrite Eo. split; [done|]. simpl. split_and!; try congruence.
    rewrite Er, Ercb. by rewrite path_alter_alter.
  - rewrite Er, Haw, Ew. eexists. split; [done|]. simpl. split_and!; try congruence.
Qed.

Lemma awaiting_false d s : cb_root s = root d -> awaiting false d s.
Proof. intros E. unfold awaiting. by repeat case_match. Qed.

Lemma kept_root sts d s : kept false d s -> cb_root s = root d.
Proof. intros (_ & _ & _ & _ & Haw). unfold awaiting in Haw. by repeat case_match. Qed.

Lemma value_kept sts v d s d' s' : follows allow sts true d s -> kept true d s -> dom_value v d = Ret (true, d') ->
  cb_value v s = Ret (true, s') -> kept false d' s'.
Proof.
  intros Hf Hk E1 E2. pose proof Hf as (_ & Hr & _). unfold dom_value in E1. rewrite handle_value_ready in E1 by by apply Hr.
  injection E1 as <-. destruct (handle_value_kept sts v false d s Hf Hk) as (s1 & E & Er & Ecb & Es & Eks & Ed).
  unfold cb_value in E2. rewrite E in E2. injection E2 as <-. destruct Hk as (? & ? & ? & ? & _).
  split_and!; [by rewrite Ecb|by rewrite Es|by rewrite Eks|congruence|by apply awaiting_false].
Qed.

Lemma start_kept sts ev v d s d' s' : follows allow sts true d s -> kept true d s -> dom_start v d = Ret (true, d') ->
  cb_start ev v s = Ret (true, s') -> kept false d' s'.
Proof.
  intros Hf Hk E1 E2. pose proof Hf as (Hdi & Hr & He & Ha & Hi & Hce & Hca). unfold dom_start in E1.
  rewrite handle_value_ready in E1 by by apply Hr. injection E1 as <-. pose proof Hk as (Hcb & Est & Hks & Hd & Haw).
  unfold cb_start, call_start in E2. destruct (call_keeps s (depth s) ev (discarded s) Hcb) as [c Ec]. rewrite Ec in E2.
  set (s1 := set_stacks _ _ _) in E2.
  assert (follows allow sts true d s1) as Hf1.
  { split_and!; try done. destruct Hi as (n & ps & ? & ? & ? & ? & ? & ?). exists n, ps. split_and!; try done. simpl. lia. }
  assert (kept true d s1) as Hk1 by (split_and!; try done; by constructor).
  destruct (handle_value_kept sts v true d s1 Hf1 Hk1) as (s2 & E & Er & Ecb & Es & Eks & Ed). rewrite E in E2.
  injection E2 as <-. split_and!; simpl.
  - by rewrite Ecb.
  - rewrite Es. simpl. by rewrite Est.
  - rewrite Eks. by constructor.
  - by rewrite Ed.
  - by apply awaiting_false.
Qed.

Lemma key_kept sts k d s d' s' : follows allow (false :: sts) false d s -> kept false d s -> dom_key k d = Ret (true, d') ->
  cb_key k s = Ret (true, s') -> kept true d' s'.
Proof.
  intros Hf Hk E1 E2. pose proof (kept_root sts _ _ Hk) as Er. destruct Hk as (Hcb & Est & Hks & Hd & _).
  unfold dom_key in E1. destruct (ref_stack d) as [|p ps] eqn:Eps; [done|].
  destruct (path_get (root d) p) as [w|] eqn:Ew; [|done]. destruct w as [|m| | | | | | | |]; try done. injection E1 as <-.
  unfold cb_key in E2. destruct (call_keeps s (depth s) event_key (value_string k) Hcb) as [c Ec]. rewrite Ec in E2.
  simpl in E2. rewrite Est in E2. simpl in E2. rewrite Er, Ew in E2. injection E2 as <-.
  split_and!; simpl; try done.
  unfold awaiting. simpl. rewrite path_get_alter, Ew. simpl. eexists _, _. split_and!; [done|done|done|].
  simpl. rewrite path_alter_app, path_alter_alter. apply path_alter_ext. intros w _. simpl. by rewrite Hd.
Qed.

Lemma erase_kept {A} (value_of : A -> json F) l : Forall (fun x => is_discarded (value_of x) = false) l ->
  erase_discarded value_of l = l.
Proof. induction 1 as [|x l Hx _ IH]; simpl; [done|]. by rewrite Hx, IH. Qed.

Lemma wf_not_discarded v : wf_json v -> is_discarded v = false.
Proof. by inversion 1. Qed.

Lemma remove_discarded_wf v : wf_json v -> remove_discarded v = v.
Proof.
  inversion 1 as [|m _ _ Hv|l Hl| | | | |]; subst; simpl; try done; f_equal; apply erase_kept.
  - eapply Forall_impl; [exact Hv|]. intros [k w] Hw. by apply wf_not_discarded.
  - eapply Forall_impl; [exact Hl|]. intros w Hw. by apply wf_not_discarded.
Qed.

Lemma remove_discarded_root (j : json F) p : wf_json j -> path_alter remove_discarded j p = j.
Proof.
  intros Hj. destruct (path_get j p) as [w|] eqn:E.
  - rewrite <- (path_alter_same j p w E) at 2. apply path_alter_ext. intros w' E'. rewrite E in E'. injection E' as <-.
    apply remove_discarded_wf. by eapply wf_path_get.
  - revert j Hj E. induction p as [|a p IH]; intros j Hj E; [done|]. simpl in *.
    destruct (step_get j a) as [c|] eqn:Ec.
    + pose proof (wf_step_get _ _ _ Hj Ec) as Hc. rewrite <- (path_alter_same j [a] c) at 2 by (simpl; by rewrite Ec).
      change (step_alter (fun v => path_alter remove_discarded v p) j a) with (path_alter (fun v => path_alter remove_discarded v p) j [a]).
      apply path_alter_ext. intros c' Ec'. simpl in Ec'. rewrite Ec in Ec'. injection Ec' as <-. by apply IH.
    + destruct a as [i|k], j as [|m|l| | | | | | |]; simpl in *; try done; f_equal.
      * apply list_eq. intros i'. rewrite list_lookup_alter. case_decide; [|done]. subst. by rewrite Ec.
      * clear -Ec. induction m as [|[k' v] m IHm]; simpl in *; [done|]. case_decide; [done|]. by rewrite IHm.
Qed.

(** The pop at the end of a container. *)
Lemma call_end_kept b sts ev d s : follows allow (b :: sts) false d s -> kept false d s ->
  exists s1, call_end ev s = Ret (true, s1) /\ exists s2, pop_stacks s1 = Ret s2 /\
    kept false (with_stack d (tail (ref_stack d))) s2 /\ cb_root s2 = root d.
Proof.
  intros Hf Hk. pose proof (kept_root sts _ _ Hk) as Er. destruct Hk as (Hcb & Est & Hks & Hd & _).
  destruct Hf as ((_ & Hki & _) & _ & _ & _ & Hi & _). destruct (keep_top _ _ _ Hi) as (k & ks & Ek).
  apply Forall2_cons_inv_l in Hki as (p & ps & (w & Hw & _) & _ & Eps).
  unfold call_end, pop_stacks. rewrite Est, Eps. cbn [map]. rewrite Er, Hw.
  destruct (call_keeps s (depth s - 1) ev w Hcb) as [c ->]. eexists. split; [done|]. simpl. rewrite Est, Eps, Ek. simpl.
  eexists. split; [done|]. rewrite Ek in Hks. inversion Hks; subst.
  split; [|simpl; by rewrite Er; apply path_alter_same]. split_and!; simpl; try done.
  apply awaiting_false. simpl. rewrite Er. by apply path_alter_same.
Qed.

Lemma end_kept (b : bool) sts d s d' s' : follows allow (b :: sts) false d s -> kept false d s ->
  (if b then dom_end_array d else dom_end_object d) = Ret (true, d') ->
  (if b then cb_end_array s else cb_end_object s) = Ret (true, s') -> kept false d' s'.
Proof.
  intros Hf Hk E1 E2. destruct Hf as (Hdi & Hf'). destruct (dom_end_ok _ _ _ Hdi) as (d2 & E1' & _).
  assert (d' = with_stack d (tail (ref_stack d))) as ->.
  { unfold dom_end_array, dom_end_object in E1. destruct b; repeat case_match; by simplify_eq. }
  destruct (call_end_kept b sts (if b then event_array_end else event_object_end) d s) as (s1 & Ec & s2 & Ep & Hk2 & Er2); [done|done|].
  pose proof (proj2 (proj2 Hdi)) as Hw. destruct b; unfold cb_end_array, cb_end_object in E2; rewrite Ec in E2; cbn [comp_bind] in E2;
    rewrite Ep in E2; cbn [comp_bind] in E2; [by injection E2 as <-|].
  destruct (cb_stack s2) as [|[p|] st]; injection E2 as <-; try done.
  destruct Hk2 as (? & ? & ? & ? & ?). split_and!; try done. apply awaiting_false. simpl. rewrite Er2.
  by apply remove_discarded_root.
Qed.

Definition follows_kept sts aw d s : Prop := follows allow sts aw d s /\ kept aw d s.

Lemma both_kept sts aw' ev1 ev2 : both (follows allow sts aw') ev1 ev2 ->
  (forall d' s', ev1 = Ret (true, d') -> ev2 = Ret (true, s') -> kept aw' d' s') ->
  both (follows_kept sts aw') ev1 ev2.
Proof. intros (d' & s' & E1 & E2 & Hf) Hk. exists d', s'. split_and!; [done|done|]. split; [done|by apply Hk]. Qed.

Lemma kept_protocol : protocol (F:=F) (follows_kept) (both_errored allow).
Proof.
  pose proof (follow_protocol (F:=F) (C:=C) allow) as P. split.
  - intros v ev1 ev2 sts d s Hev Hv [Hf Hk]. eapply both_kept; [exact (protocol_scalar _ _ P _ _ _ _ _ _ Hev Hv Hf)|].
    intros d' s' E1 E2. destruct Hev; (eapply value_kept; [exact Hf|exact Hk|exact E1|exact E2]).
  - intros sts d s [Hf Hk]. eapply both_kept; [by apply (protocol_start_object _ _ P)|].
    intros d' s' E1 E2. eapply start_kept; [exact Hf|exact Hk|exact E1|exact E2].
  - intros k sts d s Hu [Hf Hk]. eapply both_kept; [by apply (protocol_key _ _ P)|].
    intros d' s' E1 E2. eapply key_kept; [exact Hf|exact Hk|exact E1|exact E2].
  - intros sts d s [Hf Hk]. eapply both_kept; [by apply (protocol_end_object _ _ P)|].
    intros d' s' E1 E2. eapply (end_kept false); [exact Hf|exact Hk|exact E1|exact E2].
  - intros sts d s [Hf Hk]. eapply both_kept; [by apply (protocol_start_array _ _ P)|].
    intros d' s' E1 E2. eapply start_kept; [exact Hf|exact Hk|exact E1|exact E2].
  - intros sts d s [Hf Hk]. split; [by apply (protocol_next _ _ P)|]. pose proof (kept_root sts _ _ Hk) as Er.
    destruct Hf as ((_ & Hki & _) & _). apply Forall2_cons_inv_l in Hki as (p & ps & (w & Hw & Hb) & _ & Eps).
    destruct Hk as (? & ? & ? & ? & _). split_and!; try done. unfold awaiting. rewrite Eps, Hw. by destruct w.
  - intros sts d s [Hf Hk]. eapply both_kept; [by apply (protocol_end_array _ _ P)|].
    intros d' s' E1 E2. eapply (end_kept true); [exact Hf|exact Hk|exact E1|exact E2].
  - intros n t e sts aw d s [Hf _] He. by eapply (protocol_error _ _ P).
Qed.
End Keep.

Section Spec.
Context {F C : Type} `{FloatOps F}.

(** Whatever a callback decides and however it changes the values it is
    shown, [parse] with it ends: it throws exactly where [parse] without a
    callback throws, the same error, it returns the discarded value exactly
    where that does, and otherwise a value; no assertion of the builder fails
    and no null pointer is followed. *)
Theorem callback_follows_parse i (cb : parser_callback_t F C) c allow ignore dp : Forall is_byte i ->
  match json_parse (F:=F) i allow ignore [dp] with
  | Ret j => exists j' c', json_parse_callback i cb c allow ignore [dp] = Ret (j', c') /\ is_discarded j' = is_discarded j
  | Throw e => json_parse_callback i cb c allow ignore [dp] = Throw e
  | OutOfFuel => False
  end.
Proof.
  intros Hi. pose proof (parse_pair allow (follows allow) i ignore dp cb c (follow_protocol allow) Hi) as Hp.
  destruct (json_parse i allow ignore [dp]) as [j| |]; [|apply Hp; [|done]|apply Hp; [|done]].
  2,3: split_and!; try done; [apply dom_init_inv|apply callback_init_inv].
  destruct Hp as (j' & c' & E & Hj); [|done|].
  { split_and!; try done; [apply dom_init_inv|apply callback_init_inv]. }
  exists j', c'. split; [done|]. destruct Hj as [(_ & -> & ->)|(d & s & Hf & -> & ->)]; [done|].
  assert (is_discarded (root d) = false) as ->.
  { destruct Hf as ((_ & _ & Hw) & _). by inversion Hw. }
  by destruct (is_discarded (cb_root s)) eqn:E'.
Qed.

(** C13: With a callback that keeps every value and changes none (it may
    keep a state of its own), [parse] returns the value that [parse]
    without a callback returns, and throws where that throws. (The decimal
    point of the locale is a single byte [dp].) *)
Theorem callback_keeps_parse i (cb : parser_callback_t F C) c allow ignore dp : Forall is_byte i -> keeps_all cb ->
  match json_parse (F:=F) i allow ignore [dp] with
  | Ret j => exists c', json_parse_callback i cb c allow ignore [dp] = Ret (j, c')
  | Throw e => json_parse_callback i cb c allow ignore [dp] = Throw e
  | OutOfFuel => False
  end.
Proof.
  intros Hi Hcb. pose proof (parse_pair allow (follows_kept allow) i ignore dp cb c (kept_protocol allow) Hi) as Hp.
  assert (follows_kept allow [] true (dom_init value_null allow) (callback_init value_null cb allow c)) as Hinit.
  { split; split_and!; try done; [apply dom_init_inv|apply callback_init_inv|by constructor]. }
  specialize (Hp Hinit (fun d s Hf => proj1 Hf)).
  destruct (json_parse i allow ignore [dp]) as [j| |]; [|done|done].
  destruct Hp as (j' & c' & E & [(_ & -> & ->)|(d & s & [Hf Hk] & -> & ->)]); exists c'; [done|].
  rewrite E, (kept_root [] _ _ Hk). destruct Hf as ((_ & _ & Hw) & _).
  by rewrite (wf_not_discarded _ Hw).
Qed.
End Spec.

(** ** Witnesses *)

#[local] Existing Instance example_floats.

Definition callback_sample : bytes := jtext "{'b':[1,{}],'a':1,'b':2}".

(** Counts the calls and refuses whatever is shown at an odd count. *)
Definition every_other (_ : Z) (_ : parse_event_t) (v : json Z) (n : nat) : bool * json Z * nat :=
  (Nat.even n, value_null, S n).

Lemma callback_follows_parse_witness : Forall is_byte callback_sample /\
  match json_parse (F:=Z) callback_sample true false [46] with
  | Ret j => exists j' c', json_parse_callback callback_sample every_other 0%nat true false [46] = Ret (j', c') /\
      is_discarded j' = is_discarded j
  | Throw e => json_parse_callback callback_sample every_other 0%nat true false [46] = Throw e
  | OutOfFuel => False
  end.
Proof. split; [apply jtext_bytes|]. apply (callback_follows_parse callback_sample), jtext_bytes. Defined.

Definition counting (_ : Z) (_ : parse_event_t) (v : json Z) (n : nat) : bool * json Z * nat := (true, v, S n).

Lemma callback_keeps_parse_witness : Forall is_byte callback_sample /\ keeps_all counting /\
  match json_parse (F:=Z) callback_sample true false [46] with
  | Ret j => exists c', json_parse_callback callback_sample counting 0%nat true false [46] = Ret (j, c')
  | Throw e => json_parse_callback callback_sample counting 0%nat true false [46] = Throw e
  | OutOfFuel => False
  end.
Proof.
  assert (keeps_all counting) as Hk by (intros n ev v c; by exists (S c)).
  split; [apply jtext_bytes|split; [exact Hk|]]. apply (callback_keeps_parse callback_sample); [apply jtext_bytes|exact Hk].
Defined.
