(* ===== verification/BinaryReader.v ===== *)
(** The part of [class binary_reader] of [src/libephmem/json.hpp] that all
    binary formats share: the input with its current byte, numbers in network
    order and in little-endian order, runs of bytes, the error at the end of
    the input; the SAX events that only binary formats send, and their
    implementation by the DOM builder. *)
From S2P Require Import Prelude Utf8 JsonValue JsonCompare JsonLexer JsonParser.

(** ** Numbers in memory

    [memcpy] of an unsigned integer of [w] bytes on a little-endian machine,
    and back. *)
Fixpoint le_bytes (w : nat) (n : Z) : bytes :=
  match w with
  | O => []
  | S w => n mod 256 :: le_bytes w (n / 256)
  end.

Fixpoint le_number (bs : bytes) : Z :=
  match bs with
  | [] => 0
  | b :: bs => b + 256 * le_number bs
  end.

(** With the order of the bytes reversed: network order. *)
Definition be_bytes (w : nat) (n : Z) : bytes := rev (le_bytes w n).
Definition be_number (bs : bytes) : Z := le_number (rev bs).

Lemma le_bytes_length w : forall n, length (le_bytes w n) = w.
Proof. induction w; intros n; simpl; auto. Qed.

Lemma le_bytes_bytes w : forall n, Forall is_byte (le_bytes w n).
Proof.
  induction w; intros n; simpl; constructor; auto. unfold is_byte. apply Z.mod_pos_bound. lia.
Qed.

Lemma pow8_succ w : 2 ^ (8 * Z.of_nat (S w)) = 256 * 2 ^ (8 * Z.of_nat w).
Proof. rewrite Nat2Z.inj_succ, Z.mul_succ_r, Z.pow_add_r by lia. lia. Qed.

Lemma le_number_bytes w : forall n, 0 <= n < 2 ^ (8 * Z.of_nat w) -> le_number (le_bytes w n) = n.
Proof.
  induction w as [|w IH]; intros n Hn; simpl le_bytes; simpl le_number; [simpl in Hn; lia|].
  rewrite pow8_succ in Hn. rewrite IH by dlia. dlia.
Qed.

Lemma le_number_range bs : Forall is_byte bs -> 0 <= le_number bs < 2 ^ (8 * Z.of_nat (length bs)).
Proof.
  unfold is_byte. induction 1 as [|b bs Hb _ IH]; simpl length; simpl le_number; [simpl; lia|].
  rewrite pow8_succ. lia.
Qed.

Lemma le_bytes_number bs : Forall is_byte bs -> le_bytes (length bs) (le_number bs) = bs.
Proof.
  unfold is_byte. induction 1 as [|b bs Hb _ IH]; simpl; [done|]. f_equal; [dlia|].
  replace ((b + 256 * le_number bs) / 256) with (le_number bs) by dlia. done.
Qed.

Lemma be_bytes_length w n : length (be_bytes w n) = w.
Proof. unfold be_bytes. rewrite length_rev. apply le_bytes_length. Qed.

Lemma be_bytes_bytes w n : Forall is_byte (be_bytes w n).
Proof. unfold be_bytes. apply Forall_rev, le_bytes_bytes. Qed.

Lemma be_number_bytes w n : 0 <= n < 2 ^ (8 * Z.of_nat w) -> be_number (be_bytes w n) = n.
Proof. unfold be_number, be_bytes. rewrite rev_involutive. apply le_number_bytes. Qed.

Lemma be_number_range bs : Forall is_byte bs -> 0 <= be_number bs < 2 ^ (8 * Z.of_nat (length bs)).
Proof. intros H. unfold be_number. rewrite <- length_rev. by apply le_number_range, Forall_rev. Qed.

Lemma be_bytes_number bs : Forall is_byte bs -> be_bytes (length bs) (be_number bs) = bs.
Proof.
  intros H. unfold be_bytes, be_number. rewrite <- (length_rev bs), le_bytes_number by by apply Forall_rev.
  apply rev_involutive.
Qed.

(** ** Floating-point numbers as bytes

    What the readers and writers use of [double] and [float]: their bit
    patterns, the conversions between the two types, [ldexp] and the limits
    of [float]. *)
Class FloatBits (F : Type) := {
  bits64 : F -> Z;                (* the pattern of a double *)
  of_bits64 : Z -> F;
  bits32 : F -> Z;                (* the pattern of static_cast<float>(n) *)
  of_bits32 : Z -> F;             (* a float, converted to double *)
  ldexp : Z -> Z -> F;
  infinity : F;
  quiet_NaN : F;
  float_neg : F -> F;
  isinf : F -> bool;
  float_positive : F -> bool;     (* n > 0 *)
  in_float_range : F -> bool      (* lowest() <= n && n <= max() of float *)
}.

(** What IEEE 754 says of them. *)
Class FloatBitsLaws (F : Type) `{FloatCompare F, FloatBits F} := {
  bits64_range f : 0 <= bits64 f < 2 ^ 64;
  of_bits64_bits64 f : of_bits64 (bits64 f) = f;
  bits32_range f : 0 <= bits32 f < 2 ^ 32;
  of_bits32_bits32 f : float_eqb (of_bits32 (bits32 f)) f = true -> of_bits32 (bits32 f) = f;
  isinf_sign f : isinf f = true -> f = if float_positive f then infinity else float_neg infinity
}.

Section Half.
Context {F : Type} `{FloatBits F}.
(** The value of a half-precision number, after RFC 7049, appendix D. *)
Definition half_value (byte1 byte2 : Z) : F :=
  let half := Z.shiftl byte1 8 + byte2 in
  let exp := Z.land (Z.shiftr half 10) 0x1F in
  let mant := Z.land half 0x3FF in
  let val :=
    if exp =? 0 then ldexp mant (-24)
    else if exp =? 31 then if mant =? 0 then infinity else quiet_NaN
    else ldexp (mant + 1024) (exp - 25) in
  if negb (Z.land half 0x8000 =? 0) then float_neg val else val.
End Half.

(** ** The SAX interface of the binary formats

    [start_object] and [start_array] may tell the number of elements; the
    value [unknown_size()] says that it is not known. *)
Definition unknown_size : Z := 2 ^ 64 - 1.

Class BinarySax (F S : Type) := {
  binary_sax :: Sax F S;
  sax_binary : bytes -> option Z -> S -> comp (bool * S);
  sax_start_object_len : Z -> S -> comp (bool * S);
  sax_start_array_len : Z -> S -> comp (bool * S)
}.

(** [max_size()] of a vector and of a map of values. *)
Class MaxSize := { array_max_size : Z; object_max_size : Z }.

Section DomBinary.
Context {F : Type} `{MaxSize}.

(** The check for an excessive size comes after the container was stored. *)
Definition dom_checked (len max : Z) (r : comp (bool * dom F)) : comp (bool * dom F) :=
  let* '(b, d) := r in
  if negb (len =? unknown_size) && (max <? len) then Throw (out_of_range 408) else Ret (b, d).

Definition dom_start_object_len (len : Z) (d : dom F) : comp (bool * dom F) :=
  dom_checked len object_max_size (dom_start_object d).
Definition dom_start_array_len (len : Z) (d : dom F) : comp (bool * dom F) :=
  dom_checked len array_max_size (dom_start_array d).

#[export] Instance dom_binary_sax : BinarySax F (dom F) := {
  sax_binary b t := dom_value (value_binary b t);
  sax_start_object_len := dom_start_object_len;
  sax_start_array_len := dom_start_array_len
}.
End DomBinary.

(** ** The reader *)

Record reader (S : Type) := mk_reader { ia : bytes; current : Z; chars_read : Z; sax : S }.
Arguments mk_reader {S} _ _ _ _.
Arguments ia {S} _.
Arguments current {S} _.
Arguments chars_read {S} _.
Arguments sax {S} _.

(** [a && b] on calls that change the reader; [and_let] with the result of
    the first call, which C++ returns through a reference. *)
Definition and_then {R} (m : comp (bool * R)) (k : R -> comp (bool * R)) : comp (bool * R) :=
  let* '(b, r) := m in if b then k r else Ret (false, r).
Definition and_let {A R} (m : comp (bool * A * R)) (k : A -> R -> comp (bool * R)) : comp (bool * R) :=
  let* '(b, a, r) := m in if b then k a r else Ret (false, r).

(** The same, where the second call returns a result as well. *)
Definition and_get {A B R} (d : B) (m : comp (bool * A * R)) (k : A -> R -> comp (bool * B * R)) : comp (bool * B * R) :=
  let* '(b, a, r) := m in if b then k a r else Ret (false, d, r).

Section Reader.
Context {F S : Type} `{BinarySax F S}.
Implicit Types (r : reader S).

Definition with_sax r (s : S) : reader S := mk_reader (ia r) (current r) (chars_read r) s.

(** An event sent to the SAX handler. *)
Definition event (f : S -> comp (bool * S)) r : comp (bool * reader S) :=
  let* '(b, s) := f (sax r) in Ret (b, with_sax r s).

Definition get r : reader S :=
  let '(c, a) := get_character (ia r) in mk_reader a c (chars_read r + 1) (sax r).

(** The text of the last byte, for the error: two hexadecimal digits. *)
Definition hex_digit (d : Z) : Z := if d <? 10 then 48 + d else 55 + d.
Definition get_token_string r : bytes :=
  let c := wrapu 8 (current r) in [hex_digit (c / 16); hex_digit (c mod 16)].

(** [return sax->parse_error(...)] *)
Definition error_at (token : bytes) (ex : exn) r : comp (bool * reader S) :=
  event (sax_parse_error (chars_read r) token ex) r.
Definition error_return (ex : exn) r : comp (bool * reader S) := error_at (get_token_string r) ex r.
Definition end_of_file : bytes := str "<end of file>".

(** Whether the last byte is not the end of the input. *)
Definition unexpect_eof r : comp (bool * reader S) :=
  if current r =? EOF then error_at end_of_file (parse_error 110) r else Ret (true, r).

(** [get_to]: the bytes of an object of [w] bytes; those that are missing at
    the end of the input keep their initial zero. *)
Definition get_to (w : nat) r : comp (bool * bytes * reader S) :=
  let bs := take w (ia r) in
  let r := mk_reader (drop w (ia r)) (current r) (chars_read r + Z.of_nat (length bs)) (sax r) in
  if (length bs <? w)%nat then
    let r := mk_reader (ia r) (current r) (chars_read r + 1) (sax r) in
    let* '(_, r) := error_at end_of_file (parse_error 110) r in
    Ret (false, bs ++ replicate (w - length bs) 0, r)
  else Ret (true, bs, r).

(** [get_number] of an unsigned type of [w] bytes: network order is swapped
    on a little-endian machine. *)
Definition get_number (w : nat) (little_endian : bool) r : comp (bool * Z * reader S) :=
  let* '(b, bs, r) := get_to w r in
  Ret (b, if b then (if little_endian then le_number bs else be_number bs) else le_number bs, r).

(** [get_string] and [get_binary]: [len] bytes, appended to [result]. *)
Fixpoint get_bytes_loop (fuel : nat) (len : Z) (result : bytes) r : comp (bool * bytes * reader S) :=
  if len <=? 0 then Ret (true, result, r)
  else
    match fuel with
    | O => OutOfFuel
    | Datatypes.S fuel =>
        let r := get r in
        let* '(b, r) := unexpect_eof r in
        if b then get_bytes_loop fuel (len - 1) (result ++ [wrapu 8 (current r)]) r
        else Ret (false, result, r)
    end.

Definition get_bytes (len : Z) r : comp (bool * bytes * reader S) :=
  get_bytes_loop (Datatypes.S (length (ia r))) len [] r.

(** [get_number] at the labels [first] to [first + 3] of a [switch], which
    announce a number of 1, 2, 4 or 8 bytes. *)
Definition sized_number (first : Z) r : comp (bool * Z * reader S) :=
  let c := current r in
  if c =? first then get_number 1 false r
  else if c =? first + 1 then get_number 2 false r
  else if c =? first + 2 then get_number 4 false r
  else get_number 8 false r.

(** [for (i = 0; i < len; ++i)] over the elements of a container. *)
Fixpoint counted (body : reader S -> comp (bool * reader S)) (fuel : nat) (i len : Z) r : comp (bool * reader S) :=
  if len <=? i then Ret (true, r)
  else
    match fuel with
    | O => OutOfFuel
    | Datatypes.S fuel => and_then (body r) (counted body fuel (i + 1) len)
    end.

(** [get_ignore_noop]: [get] until the byte is no ['N']. *)
Fixpoint get_noop_loop (a : bytes) (n : Z) (s : S) : reader S :=
  match a with
  | [] => mk_reader [] EOF (n + 1) s
  | c :: a => if c =? 78 then get_noop_loop a (n + 1) s else mk_reader a c (n + 1) s
  end.
Definition get_ignore_noop r : reader S := get_noop_loop (ia r) (chars_read r) (sax r).

(** The end of [sax_parse]: in strict mode nothing may follow the value.
    [next] is [get_ignore_noop] for UBJSON and BJData, else [get]. *)
Definition sax_parse_end (next : reader S -> reader S) (strict : bool) r : comp (bool * reader S) :=
  if strict then
    let r := next r in
    if current r =? EOF then Ret (true, r) else error_return (parse_error 110) r
  else Ret (true, r).
End Reader.

(** [from_cbor] and its siblings: the builder with the root it fills. *)
Definition from_binary {F} `{MaxSize} (next : reader (dom F) -> reader (dom F))
    (parse : reader (dom F) -> comp (bool * reader (dom F))) (i : bytes) (strict allow : bool) : comp (json F) :=
  let* '(res, r) := and_then (parse (mk_reader i EOF 0 (dom_init value_null allow))) (sax_parse_end (F:=F) next strict) in
  Ret (if res then root (sax r) else value_discarded).

(** ** Writing

    The part of [class binary_writer] that the formats share.  The output
    adapter appends to a byte vector, so a call that writes is modelled by the
    bytes it appends. *)

(** [write_number] of an unsigned type of [w] bytes on a little-endian
    machine: the bytes in memory, reversed unless the output is to be little
    endian.  The conversion to the type keeps the low bytes. *)
Definition write_number (w : nat) (little_endian : bool) (n : Z) : bytes :=
  if little_endian then le_bytes w n else rev (le_bytes w n).

(** [write_compact_float]: as a [float] when that loses nothing.  The
    prefixes are [get_cbor_float_prefix] or [get_msgpack_float_prefix]. *)
Definition write_compact_float {F} `{FloatCompare F, FloatBits F} (prefix_float prefix_double : Z) (n : F) : bytes :=
  if in_float_range n && float_eqb (of_bits32 (bits32 n)) n
  then [prefix_float] ++ write_number 4 false (bits32 n)
  else [prefix_double] ++ write_number 8 false (bits64 n).

Lemma write_number_be w n : write_number w false n = be_bytes w n.
Proof. done. Qed.

Lemma be_bytes_1 n : 0 <= n < 256 -> be_bytes 1 n = [n].
Proof. intros Hn. unfold be_bytes. simpl. by rewrite Z.mod_small. Qed.

(** Only the low bytes are written. *)
Lemma be_bytes_wrap w z : be_bytes w (wrapu (8 * Z.of_nat w) z) = be_bytes w z.
Proof.
  unfold be_bytes, wrapu. f_equal. revert z. induction w as [|w IH]; intros z; [done|]. cbn [le_bytes].
  replace (8 * Z.of_nat (S w)) with (8 + 8 * Z.of_nat w) by lia. rewrite Z.pow_add_r by lia. change (2 ^ 8) with 256.
  rewrite Z.rem_mul_r by lia. set (y := (z / 256) mod 2 ^ (8 * Z.of_nat w)).
  replace ((z mod 256 + 256 * y) mod 256) with (z mod 256) by dlia.
  replace ((z mod 256 + 256 * y) / 256) with y by dlia. by rewrite <- (IH (z / 256)).
Qed.

(** A number of fewer than [k] bits below a label with [k] clear bits. *)
Lemma lor_low base k n : 0 <= k -> 0 <= n < 2 ^ k -> base mod 2 ^ k = 0 -> Z.lor base n = base + n.
Proof.
  intros Hk Hn Hb. rewrite <- Z.add_lor_land. assert (Z.land base n = 0) as ->; [|lia].
  apply Z.bits_inj'. intros i Hi. rewrite Z.land_spec, Z.bits_0. destruct (Z.lt_ge_cases i k).
  - rewrite <- (Z.mod_pow2_bits_low base k i) by lia. by rewrite Hb, Z.bits_0.
  - rewrite <- (Z.mod_small n (2 ^ k)) by done. rewrite Z.mod_pow2_bits_high by lia. apply andb_false_r.
Qed.

Lemma write_number_bytes w le n : Forall is_byte (write_number w le n).
Proof. unfold write_number. destruct le; [apply le_bytes_bytes|apply Forall_rev, le_bytes_bytes]. Qed.
#[export] Hint Resolve write_number_bytes : bytedb.

Lemma write_compact_float_bytes {F} `{FloatCompare F, FloatBits F} p1 p2 (n : F) : is_byte p1 -> is_byte p2 ->
  Forall is_byte (write_compact_float p1 p2 n).
Proof. intros. unfold write_compact_float. case_match; (constructor; [done|apply write_number_bytes]). Qed.

Lemma Forall_flat_map {A} (P : Z -> Prop) (f : A -> bytes) (l : list A) :
  Forall (fun x => Forall P (f x)) l -> Forall P (flat_map f l).
Proof. induction 1; simpl; [constructor|]. apply Forall_app. by split. Qed.

(** Values changed below their keys. *)
Lemma keys_map {F} (f : json F -> json F) m : keys (map (fun kv => (kv.1, f kv.2)) m) = keys m.
Proof. unfold keys. rewrite map_map. by apply map_ext. Qed.
