(* ===== verification/Ieee754.v ===== *)
(** [double] as its 64-bit pattern (IEEE 754): a concrete type for which the
    laws the binary formats rely on are theorems.

    [static_cast<float>] rounds toward zero here; the writers use its result
    only when it is exact.  [float_of_int] is exact below 2^53. *)
From Stdlib Require Import Eqdep_dec.
From S2P Require Import Prelude JsonValue JsonCompare BinaryReader.

Record double := mk_double { pattern : Z; pattern_ok : in_range 0 (2 ^ 64 - 1) pattern = true }.

Lemma double_eq (a b : double) : pattern a = pattern b -> a = b.
Proof. destruct a as [p Hp], b as [q Hq]. simpl. intros ->. f_equal. apply UIP_dec, Bool.bool_dec. Qed.

Lemma pattern_range (a : double) : 0 <= pattern a < 2 ^ 64.
Proof. destruct a as [p Hp]. simpl. apply in_range_spec in Hp. lia. Qed.

Lemma wrapu_in_range z : in_range 0 (2 ^ 64 - 1) (wrapu 64 z) = true.
Proof. apply in_range_spec. pose proof (wrapu_range 64 z). lia. Qed.

Definition of_pattern (z : Z) : double := mk_double (wrapu 64 z) (wrapu_in_range z).

(** Sign, exponent and significand. *)
Definition sign_bit (p : Z) : bool := 2 ^ 63 <=? p.
Definition exponent (p : Z) : Z := p / 2 ^ 52 mod 2048.
Definition significand (p : Z) : Z := p mod 2 ^ 52.
Definition with_sign (s : bool) (p : Z) : Z := (if s then 2 ^ 63 else 0) + p.

(** [m * 2^e] for [0 <= m < 2^53] in the range of normal numbers. *)
Definition scaled (m e : Z) : Z :=
  if m =? 0 then 0 else let k := Z.log2 m in (k + e + 1023) * 2 ^ 52 + (m * 2 ^ (52 - k) - 2 ^ 52).

Definition widen (n : Z) : Z :=
  let s := n / 2 ^ 31 mod 2 =? 1 in
  let e := n / 2 ^ 23 mod 256 in
  let m := n mod 2 ^ 23 in
  with_sign s
    (if e =? 255 then 2047 * 2 ^ 52 + m * 2 ^ 29
     else if e =? 0 then scaled m (-149)
     else scaled (m + 2 ^ 23) (e - 150)).

Definition narrow (p : Z) : Z :=
  let e := exponent p - 1023 in
  let m := significand p in
  (if sign_bit p then 2 ^ 31 else 0) +
  (if e =? 1024 then 255 * 2 ^ 23 + m / 2 ^ 29
   else if 127 <? e then 255 * 2 ^ 23
   else if -126 <=? e then (e + 127) * 2 ^ 23 + m / 2 ^ 29
   else if -149 <=? e then (m + 2 ^ 52) / 2 ^ (52 - (e + 149))
   else 0).

Definition zero_pattern (p : Z) : bool := p mod 2 ^ 63 =? 0.
Definition nan_pattern (p : Z) : bool := (exponent p =? 2047) && negb (significand p =? 0).
Definition inf_pattern (p : Z) : bool := (p =? 2047 * 2 ^ 52) || (p =? 2 ^ 63 + 2047 * 2 ^ 52).

#[export] Instance double_compare : FloatCompare double := {
  float_eqb a b := negb (nan_pattern (pattern a)) && negb (nan_pattern (pattern b)) &&
    ((pattern a =? pattern b) || zero_pattern (pattern a) && zero_pattern (pattern b));
  isnan a := nan_pattern (pattern a);
  float_of_int z := of_pattern (with_sign (z <? 0) (scaled (Z.abs z mod 2 ^ 53) 0));
  float_of_uint z := of_pattern (scaled (z mod 2 ^ 53) 0)
}.

#[export] Instance double_bits : FloatBits double := {
  bits64 := pattern;
  of_bits64 := of_pattern;
  bits32 a := wrapu 32 (narrow (pattern a));
  of_bits32 n := of_pattern (widen n);
  ldexp m e := of_pattern (scaled m e);
  infinity := of_pattern (2047 * 2 ^ 52);
  quiet_NaN := of_pattern (2047 * 2 ^ 52 + 2 ^ 51);
  float_neg a := of_pattern (pattern a + 2 ^ 63);
  isinf a := inf_pattern (pattern a);
  float_positive a := negb (sign_bit (pattern a)) && negb (nan_pattern (pattern a)) && negb (pattern a =? 0);
  in_float_range a := negb (nan_pattern (pattern a)) && (exponent (pattern a) <=? 1023 + 127) &&
    (pattern a mod 2 ^ 63 <=? (1023 + 127) * 2 ^ 52 + (2 ^ 23 - 1) * 2 ^ 29)
}.

#[export] Instance double_laws : FloatBitsLaws double.
Proof.
  split.
  - apply pattern_range.
  - intros f. apply double_eq. simpl. apply wrapu_small, pattern_range.
  - intros f. by apply wrapu_range.
  - intros f Hf. apply double_eq. revert Hf. unfold float_eqb, double_compare.
    intros Hf. apply andb_true_iff in Hf as [_ Hf]. apply orb_true_iff in Hf as [He|Hz]; [by apply Z.eqb_eq|].
    apply andb_true_iff in Hz as [_ Hz].
    unfold zero_pattern in Hz. apply Z.eqb_eq in Hz. pose proof (pattern_range f).
    change (wrapu 64 (widen (wrapu 32 (narrow (pattern f)))) = pattern f).
    assert (pattern f = 0 \/ pattern f = 2 ^ 63) as [->| ->] by dlia; done.
  - intros f Hf. apply double_eq. revert Hf. simpl. unfold inf_pattern.
    intros Hf. apply orb_true_iff in Hf as [E|E]; apply Z.eqb_eq in E; rewrite E; done.
Qed.

(** 1.5, 0.1, -0.0, the smallest float, the largest double. *)
Example widen_ex : map widen [0x3FC00000; 0x80000000; 1; 0x7F800000] =
  [0x3FF8000000000000; 0x8000000000000000; 0x36A0000000000000; 0x7FF0000000000000].
Proof. reflexivity. Qed.

Example narrow_ex : map narrow [0x3FF8000000000000; 0x8000000000000000; 0x36A0000000000000; 0x3FB999999999999A] =
  [0x3FC00000; 0x80000000; 1; 0x3DCCCCCC].
Proof. reflexivity. Qed.

(** Sizes of [libstdc++] on a 64-bit machine, for the examples. *)
Definition example_sizes : MaxSize := {| array_max_size := 2 ^ 59 - 1; object_max_size := 2 ^ 57 - 1 |}.
