(* ===== verification/Dtoa.v ===== *)
(** Shortest decimal output of floating-point numbers ([detail::to_chars] and
    [namespace dtoa_impl] of [src/libephmem/json.hpp]): the Grisu2 algorithm
    of Loitsch with 64-bit integers, and the layout of the digits like
    printf's %g.

    The functions write into a buffer of the caller; it is passed along with
    an offset for each [char*].  A store outside of it is the outcome
    [Throw buffer_overrun], a failed [JSON_ASSERT] is [Throw
    assertion_failure].  [FloatType] is [double], the only type the library
    is instantiated with here. *)
From S2P Require Import Prelude JsonValue JsonCompare BinaryReader Ieee754.

Notation "'JSON_ASSERT' b ';;' k" := (if b then k else Throw assertion_failure)
  (at level 10, b at level 99, k at level 200) : comp_scope.

(** ** Stores through a [char*] *)

Definition store (p : nat) (c : Z) (buf : bytes) : comp bytes :=
  if (p <? length buf)%nat then Ret (<[p := c]> buf) else Throw buffer_overrun.

Definition memset (p : nat) (c : Z) (n : nat) (buf : bytes) : comp bytes :=
  if (p + n <=? length buf)%nat then Ret (take p buf ++ replicate n c ++ drop (p + n) buf)
  else Throw buffer_overrun.

Definition memmove (dst src n : nat) (buf : bytes) : comp bytes :=
  if (dst + n <=? length buf)%nat && (src + n <=? length buf)%nat
  then Ret (take dst buf ++ take n (drop src buf) ++ drop (dst + n) buf)
  else Throw buffer_overrun.

(** ** [diyfp]: f * 2^e *)

Record diyfp := mk_diyfp { diyfp_f : Z; diyfp_e : Z }.

Definition kPrecision : Z := 64.

Definition sub (x y : diyfp) : comp diyfp :=
  JSON_ASSERT diyfp_e x =? diyfp_e y ;;
  JSON_ASSERT diyfp_f y <=? diyfp_f x ;;
  Ret (mk_diyfp (wrapu 64 (diyfp_f x - diyfp_f y)) (diyfp_e x)).

Definition mul (x y : diyfp) : diyfp :=
  let u_lo := Z.land (diyfp_f x) 0xFFFFFFFF in
  let u_hi := Z.shiftr (diyfp_f x) 32 in
  let v_lo := Z.land (diyfp_f y) 0xFFFFFFFF in
  let v_hi := Z.shiftr (diyfp_f y) 32 in
  let p0 := wrapu 64 (u_lo * v_lo) in
  let p1 := wrapu 64 (u_lo * v_hi) in
  let p2 := wrapu 64 (u_hi * v_lo) in
  let p3 := wrapu 64 (u_hi * v_hi) in
  let p0_hi := Z.shiftr p0 32 in
  let p1_lo := Z.land p1 0xFFFFFFFF in
  let p1_hi := Z.shiftr p1 32 in
  let p2_lo := Z.land p2 0xFFFFFFFF in
  let p2_hi := Z.shiftr p2 32 in
  let Q := wrapu 64 (wrapu 64 (p0_hi + p1_lo) + p2_lo) in
  let Q := wrapu 64 (Q + Z.shiftl 1 (64 - 32 - 1)) in
  let h := wrapu 64 (wrapu 64 (wrapu 64 (p3 + p2_hi) + p1_hi) + Z.shiftr Q 32) in
  mk_diyfp h (diyfp_e x + diyfp_e y + 64).

(** The [while] of [normalize]. *)
Fixpoint normalize_loop (fuel : nat) (x : diyfp) : comp diyfp :=
  match fuel with
  | O => OutOfFuel
  | S fuel =>
      if Z.shiftr (diyfp_f x) 63 =? 0
      then normalize_loop fuel (mk_diyfp (wrapu 64 (Z.shiftl (diyfp_f x) 1)) (diyfp_e x - 1))
      else Ret x
  end.

(** Fuel: a number of 64 bits that is not 0 is shifted 63 times at most. *)
Definition normalize (x : diyfp) : comp diyfp :=
  JSON_ASSERT negb (diyfp_f x =? 0) ;;
  normalize_loop 64 x.

Definition normalize_to (x : diyfp) (target_exponent : Z) : comp diyfp :=
  let delta := diyfp_e x - target_exponent in
  JSON_ASSERT 0 <=? delta ;;
  JSON_ASSERT Z.shiftr (wrapu 64 (Z.shiftl (diyfp_f x) delta)) delta =? diyfp_f x ;;
  Ret (mk_diyfp (wrapu 64 (Z.shiftl (diyfp_f x) delta)) target_exponent).

(** ** [boundaries] *)

Record boundaries := mk_boundaries { w : diyfp; minus : diyfp; plus : diyfp }.

(** [std::isfinite], [std::signbit] and the comparisons with 0 of a
    [double]. *)
Definition is_finite (value : double) : bool := negb (exponent (pattern value) =? 2047).
Definition signbit (value : double) : bool := sign_bit (pattern value).
Definition is_zero (value : double) : bool := zero_pattern (pattern value).

(** [numeric_limits<double>]: 53 digits, [max_exponent] 1024. *)
Definition kBias : Z := 1024 - 1 + (53 - 1).
Definition kMinExp : Z := 1 - kBias.
Definition kHiddenBit : Z := Z.shiftl 1 (53 - 1).

Definition compute_boundaries (value : double) : comp boundaries :=
  JSON_ASSERT is_finite value ;;
  JSON_ASSERT float_positive value ;;
  let bits := pattern value in
  let E := Z.shiftr bits (53 - 1) in
  let F := Z.land bits (kHiddenBit - 1) in
  let is_denormal := E =? 0 in
  let v := if is_denormal then mk_diyfp F kMinExp
           else mk_diyfp (wrapu 64 (F + kHiddenBit)) (E - kBias) in
  let lower_boundary_is_closer := (F =? 0) && (1 <? E) in
  let m_plus := mk_diyfp (wrapu 64 (wrapu 64 (2 * diyfp_f v) + 1)) (diyfp_e v - 1) in
  let m_minus :=
    if lower_boundary_is_closer
    then mk_diyfp (wrapu 64 (wrapu 64 (4 * diyfp_f v) - 1)) (diyfp_e v - 2)
    else mk_diyfp (wrapu 64 (wrapu 64 (2 * diyfp_f v) - 1)) (diyfp_e v - 1) in
  let* w_plus := normalize m_plus in
  let* w_minus := normalize_to m_minus (diyfp_e w_plus) in
  let* w := normalize v in
  Ret (mk_boundaries w w_minus w_plus).

(** ** Cached powers of ten *)

Definition kAlpha : Z := -60.
Definition kGamma : Z := -32.

Record cached_power := mk_cached_power { cached_f : Z; cached_e : Z; cached_k : Z }.

Definition kCachedPowersMinDecExp : Z := -300.
Definition kCachedPowersDecStep : Z := 8.

Definition kCachedPowers : list cached_power := [
  mk_cached_power 0xAB70FE17C79AC6CA (-1060) (-300);
  mk_cached_power 0xFF77B1FCBEBCDC4F (-1034) (-292);
  mk_cached_power 0xBE5691EF416BD60C (-1007) (-284);
  mk_cached_power 0x8DD01FAD907FFC3C (-980) (-276);
  mk_cached_power 0xD3515C2831559A83 (-954) (-268);
  mk_cached_power 0x9D71AC8FADA6C9B5 (-927) (-260);
  mk_cached_power 0xEA9C227723EE8BCB (-901) (-252);
  mk_cached_power 0xAECC49914078536D (-874) (-244);
  mk_cached_power 0x823C12795DB6CE57 (-847) (-236);
  mk_cached_power 0xC21094364DFB5637 (-821) (-228);
  mk_cached_power 0x9096EA6F3848984F (-794) (-220);
  mk_cached_power 0xD77485CB25823AC7 (-768) (-212);
  mk_cached_power 0xA086CFCD97BF97F4 (-741) (-204);
  mk_cached_power 0xEF340A98172AACE5 (-715) (-196);
  mk_cached_power 0xB23867FB2A35B28E (-688) (-188);
  mk_cached_power 0x84C8D4DFD2C63F3B (-661) (-180);
  mk_cached_power 0xC5DD44271AD3CDBA (-635) (-172);
  mk_cached_power 0x936B9FCEBB25C996 (-608) (-164);
  mk_cached_power 0xDBAC6C247D62A584 (-582) (-156);
  mk_cached_power 0xA3AB66580D5FDAF6 (-555) (-148);
  mk_cached_power 0xF3E2F893DEC3F126 (-529) (-140);
  mk_cached_power 0xB5B5ADA8AAFF80B8 (-502) (-132);
  mk_cached_power 0x87625F056C7C4A8B (-475) (-124);
  mk_cached_power 0xC9BCFF6034C13053 (-449) (-116);
  mk_cached_power 0x964E858C91BA2655 (-422) (-108);
  mk_cached_power 0xDFF9772470297EBD (-396) (-100);
  mk_cached_power 0xA6DFBD9FB8E5B88F (-369) (-92);
  mk_cached_power 0xF8A95FCF88747D94 (-343) (-84);
  mk_cached_power 0xB94470938FA89BCF (-316) (-76);
  mk_cached_power 0x8A08F0F8BF0F156B (-289) (-68);
  mk_cached_power 0xCDB02555653131B6 (-263) (-60);
  mk_cached_power 0x993FE2C6D07B7FAC (-236) (-52);
  mk_cached_power 0xE45C10C42A2B3B06 (-210) (-44);
  mk_cached_power 0xAA242499697392D3 (-183) (-36);
  mk_cached_power 0xFD87B5F28300CA0E (-157) (-28);
  mk_cached_power 0xBCE5086492111AEB (-130) (-20);
  mk_cached_power 0x8CBCCC096F5088CC (-103) (-12);
  mk_cached_power 0xD1B71758E219652C (-77) (-4);
  mk_cached_power 0x9C40000000000000 (-50) (4);
  mk_cached_power 0xE8D4A51000000000 (-24) (12);
  mk_cached_power 0xAD78EBC5AC620000 (3) (20);
  mk_cached_power 0x813F3978F8940984 (30) (28);
  mk_cached_power 0xC097CE7BC90715B3 (56) (36);
  mk_cached_power 0x8F7E32CE7BEA5C70 (83) (44);
  mk_cached_power 0xD5D238A4ABE98068 (109) (52);
  mk_cached_power 0x9F4F2726179A2245 (136) (60);
  mk_cached_power 0xED63A231D4C4FB27 (162) (68);
  mk_cached_power 0xB0DE65388CC8ADA8 (189) (76);
  mk_cached_power 0x83C7088E1AAB65DB (216) (84);
  mk_cached_power 0xC45D1DF942711D9A (242) (92);
  mk_cached_power 0x924D692CA61BE758 (269) (100);
  mk_cached_power 0xDA01EE641A708DEA (295) (108);
  mk_cached_power 0xA26DA3999AEF774A (322) (116);
  mk_cached_power 0xF209787BB47D6B85 (348) (124);
  mk_cached_power 0xB454E4A179DD1877 (375) (132);
  mk_cached_power 0x865B86925B9BC5C2 (402) (140);
  mk_cached_power 0xC83553C5C8965D3D (428) (148);
  mk_cached_power 0x952AB45CFA97A0B3 (455) (156);
  mk_cached_power 0xDE469FBD99A05FE3 (481) (164);
  mk_cached_power 0xA59BC234DB398C25 (508) (172);
  mk_cached_power 0xF6C69A72A3989F5C (534) (180);
  mk_cached_power 0xB7DCBF5354E9BECE (561) (188);
  mk_cached_power 0x88FCF317F22241E2 (588) (196);
  mk_cached_power 0xCC20CE9BD35C78A5 (614) (204);
  mk_cached_power 0x98165AF37B2153DF (641) (212);
  mk_cached_power 0xE2A0B5DC971F303A (667) (220);
  mk_cached_power 0xA8D9D1535CE3B396 (694) (228);
  mk_cached_power 0xFB9B7CD9A4A7443C (720) (236);
  mk_cached_power 0xBB764C4CA7A44410 (747) (244);
  mk_cached_power 0x8BAB8EEFB6409C1A (774) (252);
  mk_cached_power 0xD01FEF10A657842C (800) (260);
  mk_cached_power 0x9B10A4E5E9913129 (827) (268);
  mk_cached_power 0xE7109BFBA19C0C9D (853) (276);
  mk_cached_power 0xAC2820D9623BF429 (880) (284);
  mk_cached_power 0x80444B5E7AA7CF85 (907) (292);
  mk_cached_power 0xBF21E44003ACDD2D (933) (300);
  mk_cached_power 0x8E679C2F5E44FF8F (960) (308);
  mk_cached_power 0xD433179D9C8CB841 (986) (316);
  mk_cached_power 0x9E19DB92B4E31BA9 (1013) (324)
].

Definition get_cached_power_for_binary_exponent (e : Z) : comp cached_power :=
  JSON_ASSERT -1500 <=? e ;;
  JSON_ASSERT e <=? 1500 ;;
  let f := kAlpha - e - 1 in
  let k := Z.quot (f * 78913) (Z.shiftl 1 18) + (if 0 <? f then 1 else 0) in
  let index := Z.quot (- kCachedPowersMinDecExp + k + (kCachedPowersDecStep - 1)) kCachedPowersDecStep in
  JSON_ASSERT 0 <=? index ;;
  match kCachedPowers !! Z.to_nat index with
  | None => Throw assertion_failure
  | Some cached =>
      JSON_ASSERT kAlpha <=? cached_e cached + e + 64 ;;
      JSON_ASSERT cached_e cached + e + 64 <=? kGamma ;;
      Ret cached
  end.

(** ** Digit generation *)

(** The result and [pow10]. *)
Definition find_largest_pow10 (n : Z) : nat * Z :=
  if 1000000000 <=? n then (10%nat, 1000000000)
  else if 100000000 <=? n then (9%nat, 100000000)
  else if 10000000 <=? n then (8%nat, 10000000)
  else if 1000000 <=? n then (7%nat, 1000000)
  else if 100000 <=? n then (6%nat, 100000)
  else if 10000 <=? n then (5%nat, 10000)
  else if 1000 <=? n then (4%nat, 1000)
  else if 100 <=? n then (3%nat, 100)
  else if 10 <=? n then (2%nat, 10)
  else (1%nat, 1).

(** The [while] of [grisu2_round]; [last] is the offset of [buf[len - 1]]. *)
Fixpoint grisu2_round_loop (fuel : nat) (buf : bytes) (last : nat) (dist delta rest ten_k : Z) : comp bytes :=
  match fuel with
  | O => OutOfFuel
  | S fuel =>
      if (rest <? dist) && (ten_k <=? wrapu 64 (delta - rest)) &&
         ((wrapu 64 (rest + ten_k) <? dist) ||
          (wrapu 64 (wrapu 64 (rest + ten_k) - dist) <? wrapu 64 (dist - rest)))
      then
        match buf !! last with
        | None => Throw buffer_overrun
        | Some c =>
            JSON_ASSERT negb (c =? 48) ;;
            let* buf := store last (c - 1) buf in
            grisu2_round_loop fuel buf last dist delta (wrapu 64 (rest + ten_k)) ten_k
        end
      else Ret buf
  end.

(** Fuel: a digit is decremented 9 times at most. *)
Definition grisu2_round (buf : bytes) (first len : nat) (dist delta rest ten_k : Z) : comp bytes :=
  JSON_ASSERT (1 <=? len)%nat ;;
  JSON_ASSERT dist <=? delta ;;
  JSON_ASSERT rest <=? delta ;;
  JSON_ASSERT 0 <? ten_k ;;
  grisu2_round_loop 10 buf (first + len - 1) dist delta rest ten_k.

(** The arguments that the functions below change: [buffer], [length] and
    [decimal_exponent]. *)
Record decimal := mk_decimal { buffer : bytes; len : nat; decimal_exponent : Z }.

(** [buffer[length++] = '0' + d] *)
Definition put_digit (first : nat) (d : Z) (g : decimal) : comp decimal :=
  let* buf := store (first + len g) (48 + d) (buffer g) in
  Ret (mk_decimal buf (S (len g)) (decimal_exponent g)).

(** The loop over the digits of the integral part: whether it ended with
    [return], and the result. *)
Fixpoint digit_gen_integral (n : nat) (first : nat) (one : diyfp) (p1 p2 pow10 dist delta : Z)
    (g : decimal) : comp (bool * decimal) :=
  match n with
  | O => Ret (false, g)
  | S n =>
      let d := p1 / pow10 in
      let r := p1 mod pow10 in
      JSON_ASSERT d <=? 9 ;;
      let* g := put_digit first d g in
      let rest := wrapu 64 (wrapu 64 (Z.shiftl r (- diyfp_e one)) + p2) in
      if rest <=? delta then
        let ten_n := wrapu 64 (Z.shiftl pow10 (- diyfp_e one)) in
        let* buf := grisu2_round (buffer g) first (len g) dist delta rest ten_n in
        Ret (true, mk_decimal buf (len g) (decimal_exponent g + Z.of_nat n))
      else digit_gen_integral n first one r p2 (pow10 / 10) dist delta g
  end.

(** The loop over the digits of the fractional part; [m] of them are
    stored. *)
Fixpoint digit_gen_fractional (fuel : nat) (first : nat) (one : diyfp) (p2 dist delta : Z) (m : Z)
    (g : decimal) : comp decimal :=
  match fuel with
  | O => OutOfFuel
  | S fuel =>
      JSON_ASSERT p2 <=? (2 ^ 64 - 1) / 10 ;;
      let p2 := wrapu 64 (p2 * 10) in
      let d := Z.shiftr p2 (- diyfp_e one) in
      let r := Z.land p2 (diyfp_f one - 1) in
      JSON_ASSERT d <=? 9 ;;
      let* g := put_digit first d g in
      let m := m + 1 in
      let delta := wrapu 64 (delta * 10) in
      let dist := wrapu 64 (dist * 10) in
      if r <=? delta then
        let* buf := grisu2_round (buffer g) first (len g) dist delta r (diyfp_f one) in
        Ret (mk_decimal buf (len g) (decimal_exponent g - m))
      else digit_gen_fractional fuel first one r dist delta m g
  end.

(** Fuel: [delta] is at least 1 and multiplied by 10 in every turn, [p2] stays
    below 2^60. *)
Definition grisu2_digit_gen (first : nat) (M_minus w M_plus : diyfp) (g : decimal) : comp decimal :=
  JSON_ASSERT kAlpha <=? diyfp_e M_plus ;;
  JSON_ASSERT diyfp_e M_plus <=? kGamma ;;
  let* delta := sub M_plus M_minus in
  let* dist := sub M_plus w in
  let one := mk_diyfp (wrapu 64 (Z.shiftl 1 (- diyfp_e M_plus))) (diyfp_e M_plus) in
  let p1 := wrapu 32 (Z.shiftr (diyfp_f M_plus) (- diyfp_e one)) in
  let p2 := Z.land (diyfp_f M_plus) (diyfp_f one - 1) in
  JSON_ASSERT 0 <? p1 ;;
  let '(k, pow10) := find_largest_pow10 p1 in
  let* '(returned, g) := digit_gen_integral k first one p1 p2 pow10 (diyfp_f dist) (diyfp_f delta) g in
  if returned : bool then Ret g
  else
    JSON_ASSERT diyfp_f delta <? p2 ;;
    digit_gen_fractional 20 first one p2 (diyfp_f dist) (diyfp_f delta) 0 g.

(** [grisu2(buf, len, decimal_exponent, m_minus, v, m_plus)] *)
Definition grisu2_scaled (first : nat) (m_minus v m_plus : diyfp) (g : decimal) : comp decimal :=
  JSON_ASSERT diyfp_e m_plus =? diyfp_e m_minus ;;
  JSON_ASSERT diyfp_e m_plus =? diyfp_e v ;;
  let* cached := get_cached_power_for_binary_exponent (diyfp_e m_plus) in
  let c_minus_k := mk_diyfp (cached_f cached) (cached_e cached) in
  let w := mul v c_minus_k in
  let w_minus := mul m_minus c_minus_k in
  let w_plus := mul m_plus c_minus_k in
  let M_minus := mk_diyfp (wrapu 64 (diyfp_f w_minus + 1)) (diyfp_e w_minus) in
  let M_plus := mk_diyfp (wrapu 64 (diyfp_f w_plus - 1)) (diyfp_e w_plus) in
  grisu2_digit_gen first M_minus w M_plus (mk_decimal (buffer g) (len g) (- cached_k cached)).

(** [grisu2(buf, len, decimal_exponent, value)] *)
Definition grisu2 (first : nat) (value : double) (g : decimal) : comp decimal :=
  JSON_ASSERT is_finite value ;;
  JSON_ASSERT float_positive value ;;
  let* b := compute_boundaries value in
  grisu2_scaled first (minus b) (w b) (plus b) g.

(** ** Layout *)

(** The buffer and the offset after the last character. *)
Definition append_exponent (p : nat) (e : Z) (buf : bytes) : comp (bytes * nat) :=
  JSON_ASSERT -1000 <? e ;;
  JSON_ASSERT e <? 1000 ;;
  let* buf := store p (if e <? 0 then 45 else 43) buf in
  let p := S p in
  let k := wrapu 32 (if e <? 0 then - e else e) in
  if k <? 10 then
    let* buf := store p 48 buf in
    let* buf := store (S p) (48 + k) buf in
    Ret (buf, (p + 2)%nat)
  else if k <? 100 then
    let* buf := store p (48 + k / 10) buf in
    let* buf := store (S p) (48 + k mod 10) buf in
    Ret (buf, (p + 2)%nat)
  else
    let* buf := store p (48 + k / 100) buf in
    let k := k mod 100 in
    let* buf := store (S p) (48 + k / 10) buf in
    let* buf := store (S (S p)) (48 + k mod 10) buf in
    Ret (buf, (p + 3)%nat).

Definition format_buffer (p len : nat) (decimal_exponent min_exp max_exp : Z) (buf : bytes) : comp (bytes * nat) :=
  JSON_ASSERT min_exp <? 0 ;;
  JSON_ASSERT 0 <? max_exp ;;
  let k := Z.of_nat len in
  let n := k + decimal_exponent in
  if (k <=? n) && (n <=? max_exp) then
    let* buf := memset (p + len) 48 (Z.to_nat n - len) buf in
    let* buf := store (p + Z.to_nat n) 46 buf in
    let* buf := store (p + Z.to_nat n + 1) 48 buf in
    Ret (buf, (p + (Z.to_nat n + 2))%nat)
  else if (0 <? n) && (n <=? max_exp) then
    JSON_ASSERT n <? k ;;
    let* buf := memmove (p + (Z.to_nat n + 1)) (p + Z.to_nat n) (len - Z.to_nat n) buf in
    let* buf := store (p + Z.to_nat n) 46 buf in
    Ret (buf, (p + (len + 1))%nat)
  else if (min_exp <? n) && (n <=? 0) then
    let* buf := memmove (p + (2 + Z.to_nat (- n))) p len buf in
    let* buf := store p 48 buf in
    let* buf := store (p + 1) 46 buf in
    let* buf := memset (p + 2) 48 (Z.to_nat (- n)) buf in
    Ret (buf, (p + (2 + Z.to_nat (- n) + len))%nat)
  else
    let* '(buf, p) :=
      (if (len =? 1)%nat then Ret (buf, (p + 1)%nat)
       else
         let* buf := memmove (p + 2) (p + 1) (len - 1) buf in
         let* buf := store (p + 1) 46 buf in
         Ret (buf, (p + (1 + len))%nat)) in
    let* buf := store p 101 buf in
    append_exponent (S p) (n - 1) buf.

(** [numeric_limits<double>::digits10] and [max_digits10] *)
Definition digits10 : Z := 15.
Definition max_digits10 : nat := 17.

(** [to_chars(first, last, value)]: the whole buffer starts at offset 0. *)
Definition to_chars (first last : nat) (value : double) (buf : bytes) : comp (bytes * nat) :=
  JSON_ASSERT is_finite value ;;
  let* '(value, buf, first) :=
    (if signbit value then
       let* buf := store first 45 buf in Ret (float_neg value, buf, S first)
     else Ret (value, buf, first)) in
  if is_zero value then
    let* buf := store first 48 buf in
    let* buf := store (first + 1) 46 buf in
    let* buf := store (first + 2) 48 buf in
    Ret (buf, (first + 3)%nat)
  else
    JSON_ASSERT (max_digits10 <=? last - first)%nat ;;
    let* g := grisu2 first value (mk_decimal buf 0 0) in
    JSON_ASSERT (len g <=? max_digits10)%nat ;;
    let kMinExp := -4 in
    let kMaxExp := digits10 in
    JSON_ASSERT kMaxExp + 2 <=? Z.of_nat (last - first) ;;
    JSON_ASSERT 2 + (- kMinExp - 1) + Z.of_nat max_digits10 <=? Z.of_nat (last - first) ;;
    JSON_ASSERT (max_digits10 + 6 <=? last - first)%nat ;;
    format_buffer first (len g) (decimal_exponent g) kMinExp kMaxExp (buffer g).

(** The text it writes. *)
Definition chars_of (value : double) : comp bytes :=
  let* '(buf, e) := to_chars 0 64 value (replicate 64 0) in Ret (take e buf).

(** 0.1, 1.5, -2.5e-7, 1e22, the smallest and the largest double, 123456. *)
Example to_chars_ex : map (fun p => chars_of (of_pattern p))
    [0x3FB999999999999A; 0x3FF8000000000000; 0xBE90C6F7A0B5ED8D; 0x4480F0CF064DD592; 1; 0x7FEFFFFFFFFFFFFF;
     0x40FE240000000000; 0x8000000000000000; 0x3F50624DD2F1A9FC] =
  map (fun s => Ret (str s))
    ["0.1"; "1.5"; "-2.5e-07"; "1e+22"; "5e-324"; "1.7976931348623157e+308"; "123456.0"; "-0.0"; "0.001"]%string.
Proof. vm_compute. reflexivity. Qed.
