(* ===== verification/DtoaFacts.v ===== *)
(** Lemmas on the arithmetic of Grisu2: the product is rounded, normalization
    keeps the value and terminates, the boundaries are what they are called,
    the cached powers are within half a unit of the powers of ten. *)
From Stdlib Require Import QArith Qpower Qabs Lqa.
From S2P Require Import Prelude JsonValue JsonCompare BinaryReader Ieee754 Dtoa.

#[local] Open Scope Z_scope.

(** ** 64-bit arithmetic *)

Lemma mul_spec x y : 0 <= diyfp_f x < 2 ^ 64 -> 0 <= diyfp_f y < 2 ^ 64 ->
  mul x y = mk_diyfp ((diyfp_f x * diyfp_f y + 2 ^ 63) / 2 ^ 64) (diyfp_e x + diyfp_e y + 64).
Proof.
  intros Hx Hy. unfold mul. f_equal. set (u := diyfp_f x) in *. set (v := diyfp_f y) in *.
  change 0xFFFFFFFF with (Z.ones 32). rewrite !Z.land_ones by lia.
  rewrite !Z.shiftr_div_pow2 by lia. change (Z.shiftl 1 (64 - 32 - 1)) with (2 ^ 31).
  assert (0 <= u mod 2 ^ 32 < 2 ^ 32) as H1 by dlia. assert (0 <= u / 2 ^ 32 < 2 ^ 32) as H2 by dlia.
  assert (0 <= v mod 2 ^ 32 < 2 ^ 32) as H3 by dlia. assert (0 <= v / 2 ^ 32 < 2 ^ 32) as H4 by dlia.
  assert (u = u mod 2 ^ 32 + 2 ^ 32 * (u / 2 ^ 32)) as Eu by dlia.
  assert (v = v mod 2 ^ 32 + 2 ^ 32 * (v / 2 ^ 32)) as Ev by dlia.
  revert H1 H2 H3 H4 Eu Ev. generalize (u mod 2 ^ 32) (u / 2 ^ 32) (v mod 2 ^ 32) (v / 2 ^ 32).
  intros a b c d H1 H2 H3 H4 Eu Ev.
  assert (forall p q, 0 <= p < 2 ^ 32 -> 0 <= q < 2 ^ 32 -> 0 <= p * q <= (2 ^ 32 - 1) * (2 ^ 32 - 1)) as Hpq by (intros; nia).
  assert (u * v = a * c + 2 ^ 32 * (a * d) + 2 ^ 32 * (b * c) + 2 ^ 64 * (b * d)) as -> by (rewrite Eu, Ev; ring).
  pose proof (Hpq a c H1 H3) as B0. pose proof (Hpq a d H1 H4) as B1.
  pose proof (Hpq b c H2 H3) as B2. pose proof (Hpq b d H2 H4) as B3. clear Hpq.
  revert B0 B1 B2 B3. generalize (a * c) (a * d) (b * c) (b * d). clear - u. intros p0 p1 p2 p3 B0 B1 B2 B3.
  rewrite !(wrapu_small 64 p0), !(wrapu_small 64 p1), !(wrapu_small 64 p2), !(wrapu_small 64 p3) by lia.
  rewrite !(wrapu_small 64 (p0 / _ + _)) by dlia.
  rewrite !(wrapu_small 64 (p0 / _ + _ + _)) by dlia.
  rewrite !(wrapu_small 64 (p0 / _ + _ + _ + _)) by dlia.
  rewrite !(wrapu_small 64 (p3 + _)) by dlia. rewrite !(wrapu_small 64 (p3 + _ + _)) by dlia.
  rewrite wrapu_small by dlia. dlia.
Qed.

Lemma normalize_loop_spec t fuel f e : (t < fuel)%nat -> 2 ^ 63 <= f * 2 ^ Z.of_nat t < 2 ^ 64 ->
  normalize_loop fuel (mk_diyfp f e) = Ret (mk_diyfp (f * 2 ^ Z.of_nat t) (e - Z.of_nat t)).
Proof.
  revert fuel f e. induction t as [|t IH]; intros [|fuel] f e Ht Hf; [lia| |lia|];
    cbn [normalize_loop diyfp_f diyfp_e]; rewrite Z.shiftr_div_pow2 by lia.
  - rewrite Z.mul_1_r in *. destruct (Z.eqb_spec (f / 2 ^ 63) 0); [dlia|]. do 2 f_equal. lia.
  - rewrite Nat2Z.inj_succ, Z.pow_succ_r in * by lia. rewrite Z.shiftl_mul_pow2, Z.pow_1_r by lia.
    assert (0 < 2 ^ Z.of_nat t) by (apply Z.pow_pos_nonneg; lia).
    assert (0 <= f < 2 ^ 63) as Hs by nia.
    destruct (Z.eqb_spec (f / 2 ^ 63) 0); [|dlia]. rewrite wrapu_small by lia.
    rewrite IH by (try lia; rewrite <- Z.mul_assoc; lia). do 2 f_equal; lia.
Qed.

(** The shift that moves the highest bit of [f] to bit 63. *)
Definition shift_of (f : Z) : Z := 63 - Z.log2 f.

Lemma shift_of_spec f t : 0 <= t -> 2 ^ 63 <= f * 2 ^ t < 2 ^ 64 -> shift_of f = t.
Proof.
  intros Ht Hf. unfold shift_of. assert (0 < 2 ^ t) by (apply Z.pow_pos_nonneg; lia).
  assert (0 < f) by nia. assert (Z.log2 (f * 2 ^ t) = 63) as E by (apply Z.log2_unique; lia).
  rewrite Z.log2_mul_pow2 in E by lia. lia.
Qed.

Lemma shift_of_range f : 0 < f < 2 ^ 64 -> 0 <= shift_of f < 64 /\ 2 ^ 63 <= f * 2 ^ shift_of f < 2 ^ 64.
Proof.
  intros Hf. unfold shift_of. pose proof (Z.log2_spec f ltac:(lia)) as [H1 H2].
  pose proof (Z.log2_nonneg f). assert (Z.log2 f < 64) by (apply Z.log2_lt_pow2; lia). split; [lia|].
  change (2 ^ 64) with (2 * 2 ^ 63). replace (2 ^ 63) with (2 ^ Z.log2 f * 2 ^ (63 - Z.log2 f)).
  2: { rewrite <- Z.pow_add_r by lia. f_equal. lia. }
  rewrite Z.pow_succ_r in H2 by lia. assert (0 < 2 ^ (63 - Z.log2 f)) by (apply Z.pow_pos_nonneg; lia). nia.
Qed.

(** [normalize] terminates and keeps the value. *)
Lemma normalize_spec x : 0 < diyfp_f x < 2 ^ 64 ->
  normalize x = Ret (mk_diyfp (diyfp_f x * 2 ^ shift_of (diyfp_f x)) (diyfp_e x - shift_of (diyfp_f x))).
Proof.
  destruct x as [f e]. cbn [diyfp_f diyfp_e]. intros Hf. unfold normalize. cbn [diyfp_f].
  destruct (Z.eqb_spec f 0); [lia|]. cbn [negb]. destruct (shift_of_range f Hf) as [Ht Hs].
  rewrite (normalize_loop_spec (Z.to_nat (shift_of f))) by (try lia; rewrite Z2Nat.id; lia).
  by rewrite Z2Nat.id by lia.
Qed.

Lemma normalize_to_spec x t : 0 <= t -> 0 <= diyfp_f x * 2 ^ t < 2 ^ 64 ->
  normalize_to x (diyfp_e x - t) = Ret (mk_diyfp (diyfp_f x * 2 ^ t) (diyfp_e x - t)).
Proof.
  intros Ht Hf. unfold normalize_to. replace (diyfp_e x - (diyfp_e x - t)) with t by lia.
  destruct (Z.leb_spec 0 t); [|lia]. rewrite Z.shiftl_mul_pow2, wrapu_small by lia.
  rewrite Z.shiftr_div_pow2, Z.div_mul by (try lia; apply Z.pow_nonzero; lia). by rewrite Z.eqb_refl.
Qed.

(** ** The value of a double

    [significand_of] and [exponent_of]: f and e with value f * 2^e.  In units
    of 2^-1074 every value is an integer ([double_units]). *)
Definition significand_of (p : Z) : Z := if p / 2 ^ 52 =? 0 then p mod 2 ^ 52 else p mod 2 ^ 52 + 2 ^ 52.
Definition exponent_of (p : Z) : Z := if p / 2 ^ 52 =? 0 then -1074 else p / 2 ^ 52 - 1075.
Definition double_units (p : Z) : Z := significand_of p * 2 ^ (exponent_of p + 1074).

(** Twice the boundaries, in the same units: twice the midpoints between
    neighbours. *)
Definition upper_units (p : Z) : Z := double_units p + double_units (p + 1).
Definition lower_units (p : Z) : Z := double_units (p - 1) + double_units p.

(** Patterns of positive finite numbers. *)
Definition positive_finite (p : Z) : Prop := 0 < p < 2047 * 2 ^ 52.

Lemma double_units_eq p : 0 <= p -> double_units p =
  if p / 2 ^ 52 =? 0 then p else (p mod 2 ^ 52 + 2 ^ 52) * 2 ^ (p / 2 ^ 52 - 1).
Proof.
  intros Hp. unfold double_units, significand_of, exponent_of.
  destruct (Z.eqb_spec (p / 2 ^ 52) 0); [rewrite Z.pow_0_r; dlia|]. do 2 f_equal. lia.
Qed.

Lemma double_units_succ p : 0 <= p -> double_units (p + 1) = double_units p + 2 ^ (exponent_of p + 1074).
Proof.
  intros Hp. rewrite !double_units_eq by lia. unfold exponent_of.
  assert (p mod 2 ^ 52 + 1 < 2 ^ 52 /\ (p + 1) / 2 ^ 52 = p / 2 ^ 52 /\ (p + 1) mod 2 ^ 52 = p mod 2 ^ 52 + 1 \/
    p mod 2 ^ 52 = 2 ^ 52 - 1 /\ (p + 1) / 2 ^ 52 = p / 2 ^ 52 + 1 /\ (p + 1) mod 2 ^ 52 = 0) as [(H & -> & ->)|(H & -> & ->)] by dlia.
  - destruct (Z.eqb_spec (p / 2 ^ 52) 0) as [E|E]; [done|].
    replace (p / 2 ^ 52 - 1075 + 1074) with (p / 2 ^ 52 - 1) by lia. ring.
  - rewrite H. destruct (Z.eqb_spec (p / 2 ^ 52 + 1) 0); [dlia|]. destruct (Z.eqb_spec (p / 2 ^ 52) 0) as [E|E].
    + rewrite E. change (2 ^ (0 + 1 - 1)) with 1. change (2 ^ (-1074 + 1074)) with 1. dlia.
    + assert (0 < p / 2 ^ 52) by dlia. replace (p / 2 ^ 52 + 1 - 1) with (Z.succ (p / 2 ^ 52 - 1)) by lia.
      rewrite Z.pow_succ_r by lia. replace (p / 2 ^ 52 - 1075 + 1074) with (p / 2 ^ 52 - 1) by lia. ring.
Qed.

Lemma double_units_lt p q : 0 <= p < q -> double_units p < double_units q.
Proof.
  intros Hpq. replace q with (p + 1 + Z.of_nat (Z.to_nat (q - p - 1))) by lia.
  induction (Z.to_nat (q - p - 1)) as [|n IH].
  - rewrite Z.add_0_r, double_units_succ by lia. unfold exponent_of.
    assert (0 < 2 ^ ((if p / 2 ^ 52 =? 0 then -1074 else p / 2 ^ 52 - 1075) + 1074)); [|lia].
    apply Z.pow_pos_nonneg; [lia|]. zcases; dlia.
  - rewrite Nat2Z.inj_succ. replace (p + 1 + Z.succ (Z.of_nat n)) with (p + 1 + Z.of_nat n + 1) by lia.
    rewrite double_units_succ by lia.
    assert (0 <= 2 ^ (exponent_of (p + 1 + Z.of_nat n) + 1074)); [|lia]. apply Z.pow_nonneg. lia.
Qed.

(** ** [compute_boundaries] *)

(** The predecessor is closer than the successor. *)
Definition closer (p : Z) : bool := (p mod 2 ^ 52 =? 0) && (1 <? p / 2 ^ 52).

Lemma significand_range p : positive_finite p -> 0 < significand_of p < 2 ^ 53 /\ 0 <= exponent_of p + 1074 <= 2045.
Proof. unfold positive_finite, significand_of, exponent_of. intros Hp. destruct (Z.eqb_spec (p / 2 ^ 52) 0); dlia. Qed.

Lemma closer_significand p : closer p = true -> significand_of p = 2 ^ 52 /\ 1 <= exponent_of p + 1074.
Proof.
  unfold closer, significand_of, exponent_of. intros [Hf He]%andb_true_iff.
  apply Z.eqb_eq in Hf. apply Z.ltb_lt in He. destruct (Z.eqb_spec (p / 2 ^ 52) 0); lia.
Qed.

Lemma upper_units_eq p : positive_finite p ->
  upper_units p = (2 * significand_of p + 1) * 2 ^ (exponent_of p + 1074).
Proof. intros Hp. unfold upper_units. rewrite double_units_succ by (unfold positive_finite in Hp; lia). unfold double_units. ring. Qed.

(** 4 times the lower boundary, so that both cases are integers. *)
Lemma lower_units_eq p : positive_finite p ->
  2 * lower_units p = (4 * significand_of p - (if closer p then 1 else 2)) * 2 ^ (exponent_of p + 1074).
Proof.
  intros Hp. unfold lower_units. assert (0 <= p - 1) as H0 by (unfold positive_finite in Hp; lia).
  pose proof (double_units_succ (p - 1) H0) as Hs. replace (p - 1 + 1) with p in Hs by lia.
  assert (2 * 2 ^ (exponent_of (p - 1) + 1074) = (if closer p then 1 else 2) * 2 ^ (exponent_of p + 1074)) as He.
  { unfold positive_finite in Hp. destruct (closer p) eqn:Hc.
    - assert (exponent_of p = exponent_of (p - 1) + 1 /\ 0 <= exponent_of (p - 1) + 1074) as [-> ?].
      { unfold closer in Hc. unfold exponent_of. apply andb_true_iff in Hc as [Hf Hc]. apply Z.eqb_eq in Hf. apply Z.ltb_lt in Hc.
        destruct (Z.eqb_spec (p / 2 ^ 52) 0), (Z.eqb_spec ((p - 1) / 2 ^ 52) 0); dlia. }
      replace (exponent_of (p - 1) + 1 + 1074) with (Z.succ (exponent_of (p - 1) + 1074)) by lia.
      rewrite Z.pow_succ_r by lia. ring.
    - do 2 f_equal. unfold closer in Hc. unfold exponent_of.
      apply andb_false_iff in Hc as [Hc|Hc]; [apply Z.eqb_neq in Hc|apply Z.ltb_ge in Hc];
        destruct (Z.eqb_spec (p / 2 ^ 52) 0), (Z.eqb_spec ((p - 1) / 2 ^ 52) 0); dlia. }
  unfold double_units at 2. assert (double_units p = significand_of p * 2 ^ (exponent_of p + 1074)) as Ed by done.
  lia.
Qed.

(** The shift of the upper boundary, and its relation to that of the value. *)
Lemma shift_upper f : 0 < f < 2 ^ 53 -> 10 <= shift_of (2 * f + 1) <= 62 /\ shift_of f = shift_of (2 * f + 1) + 1.
Proof.
  intros Hf. unfold shift_of. rewrite Z.log2_succ_double by lia. pose proof (Z.log2_nonneg f).
  assert (Z.log2 f < 53) by (apply Z.log2_lt_pow2; lia). lia.
Qed.

(** The numbers [compute_boundaries] returns share an exponent; they are the
    value and the midpoints to its neighbours, and far enough apart for 17
    decimal digits. *)
Record bounds_of (p : Z) (b : boundaries) : Prop := {
  b_exp : diyfp_e (w b) = diyfp_e (plus b) /\ diyfp_e (minus b) = diyfp_e (plus b);
  b_exp_range : -1137 <= diyfp_e (plus b) <= 960;
  b_plus_range : 2 ^ 63 <= diyfp_f (plus b) < 2 ^ 64;
  b_minus_pos : 0 < diyfp_f (minus b);
  b_minus_gap : diyfp_f (minus b) + 2 ^ 9 <= diyfp_f (w b);
  b_plus_gap : diyfp_f (w b) + 2 ^ 10 <= diyfp_f (plus b);
  b_wide : diyfp_f (plus b) + 7 * 10 ^ 16 <= 10 ^ 16 * (diyfp_f (plus b) - diyfp_f (minus b));
  b_plus : diyfp_f (plus b) * 2 ^ (diyfp_e (plus b) + 1138) = upper_units p * 2 ^ 63;
  b_minus : diyfp_f (minus b) * 2 ^ (diyfp_e (plus b) + 1138) = lower_units p * 2 ^ 63
}.

Lemma bounds_of_intro p f k t : positive_finite p -> f = significand_of p -> k = exponent_of p + 1074 ->
  t = shift_of (2 * f + 1) ->
  bounds_of p (mk_boundaries (mk_diyfp (f * 2 ^ (t + 1)) (k - 1075 - t))
    (mk_diyfp ((4 * f - (if closer p then 1 else 2)) * 2 ^ (t - 1)) (k - 1075 - t))
    (mk_diyfp ((2 * f + 1) * 2 ^ t) (k - 1075 - t))).
Proof.
  intros Hp -> -> ->. set (f := significand_of p). set (k := exponent_of p + 1074). set (t := shift_of (2 * f + 1)).
  destruct (significand_range p Hp) as [Hf Hk]. fold f in Hf. fold k in Hk.
  destruct (shift_upper f Hf) as [Ht _]. fold t in Ht.
  destruct (shift_of_range (2 * f + 1) ltac:(lia)) as [_ Hr]. fold t in Hr.
  assert (2 ^ 9 <= 2 ^ (t - 1)) as H9 by (apply Z.pow_le_mono_r; lia).
  replace (2 ^ t) with (2 * 2 ^ (t - 1)) in * by (rewrite <- Z.pow_succ_r by lia; f_equal; lia).
  replace (2 ^ (t + 1)) with (4 * 2 ^ (t - 1)) by (replace 4 with (2 ^ 2) by done; rewrite <- Z.pow_add_r by lia; f_equal; lia).
  set (u := 2 ^ (t - 1)) in *.
  assert (f = 2 ^ 52 \/ closer p = false) as Hc.
  { destruct (closer p) eqn:E; [left; by apply closer_significand|by right]. }
  assert (u * 2 ^ (k - 1075 - t + 1138) = 2 ^ k * 2 ^ 62) as Eu.
  { unfold u. rewrite <- !Z.pow_add_r by lia. f_equal. lia. }
  split; cbn [w minus plus diyfp_f diyfp_e].
  - done.
  - lia.
  - lia.
  - destruct (closer p); nia.
  - destruct (closer p); nia.
  - nia.
  - destruct Hc as [-> | ->]; [destruct (closer p); lia|]. nia.
  - rewrite upper_units_eq by done. fold f k. replace (2 ^ 63) with (2 * 2 ^ 62) by done. nia.
  - pose proof (lower_units_eq p Hp) as El. fold f k in El. change (2 ^ 63) with (2 * 2 ^ 62).
    rewrite Z.mul_assoc, (Z.mul_comm _ 2), El. rewrite <- !Z.mul_assoc, Eu. ring.
Qed.

Lemma compute_boundaries_spec v : positive_finite (pattern v) ->
  exists b, compute_boundaries v = Ret b /\ bounds_of (pattern v) b.
Proof.
  intros Hp. eexists. split; [|by apply (bounds_of_intro _ _ _ _ Hp eq_refl eq_refl eq_refl)]. unfold compute_boundaries.
  set (p := pattern v) in *. assert (is_finite v = true) as ->.
  { unfold is_finite, exponent. fold p. unfold positive_finite in Hp. destruct (Z.eqb_spec (p / 2 ^ 52 mod 2048) 2047); [dlia|done]. }
  assert (float_positive v = true) as ->.
  { simpl. unfold sign_bit, nan_pattern, exponent. fold p. unfold positive_finite in Hp. zcases; try dlia; done. }
  change kHiddenBit with (2 ^ 52). rewrite Z.shiftr_div_pow2 by lia. change (53 - 1) with 52.
  change (2 ^ 52 - 1) with (Z.ones 52). rewrite Z.land_ones by lia.
  destruct (significand_range p Hp) as [Hf Hk].
  assert ((if p / 2 ^ 52 =? 0 then mk_diyfp (p mod 2 ^ 52) kMinExp
    else mk_diyfp (wrapu 64 (p mod 2 ^ 52 + 2 ^ 52)) (p / 2 ^ 52 - kBias)) = mk_diyfp (significand_of p) (exponent_of p)) as ->.
  { unfold significand_of, exponent_of. destruct (p / 2 ^ 52 =? 0); [done|]. by rewrite wrapu_small by dlia. }
  fold (closer p). cbn [diyfp_f diyfp_e]. set (f := significand_of p) in *. set (k := exponent_of p) in *.
  destruct (shift_upper f Hf) as [Ht Hs].
  rewrite !(wrapu_small 64 (2 * f)), !(wrapu_small 64 (4 * f)) by lia.
  rewrite !(wrapu_small 64 (_ + 1)), !(wrapu_small 64 (_ - 1)) by lia.
  rewrite normalize_spec by (simpl; lia). cbn [comp_bind diyfp_f diyfp_e]. set (t := shift_of (2 * f + 1)) in *.
  rewrite (normalize_spec (mk_diyfp f k)) by (simpl; lia). cbn [diyfp_f diyfp_e]. rewrite Hs.
  destruct (shift_of_range (2 * f + 1) ltac:(lia)) as [_ Hr]. fold t in Hr.
  assert (2 ^ t = 2 * 2 ^ (t - 1)) as E2 by (rewrite <- Z.pow_succ_r by lia; f_equal; lia).
  assert (0 < 2 ^ (t - 1)) by (apply Z.pow_pos_nonneg; lia).
  set (m := if closer p then _ else _).
  assert (normalize_to m (k - 1 - t) =
    Ret (mk_diyfp ((4 * f - (if closer p then 1 else 2)) * 2 ^ (t - 1)) (k - 1 - t))) as ->.
  { subst m. destruct (closer p).
    - replace (k - 1 - t) with (k - 2 - (t - 1)) by lia. rewrite (normalize_to_spec (mk_diyfp _ (k - 2))); cbn [diyfp_f]; [done|lia|nia].
    - rewrite (normalize_to_spec (mk_diyfp _ (k - 1))); cbn [diyfp_f]; [|lia|nia]. do 2 f_equal. rewrite E2. ring. }
  cbn [comp_bind]. do 2 f_equal; f_equal; lia.
Qed.

(** ** The cached powers *)

(** A normalized significand and an error of half a unit at most. *)
Definition cached_ok (c : cached_power) : bool :=
  (2 ^ 63 <=? cached_f c) && (cached_f c <? 2 ^ 64) && (-300 <=? cached_k c) && (cached_k c <=? 324) &&
  Qle_bool (Qabs (inject_Z (cached_f c) * 2 ^ cached_e c - 10 ^ cached_k c)) (2 ^ cached_e c * (1 # 2)).

Lemma cached_powers_ok : forallb cached_ok kCachedPowers = true.
Proof. vm_compute. reflexivity. Qed.

Lemma cached_power_found e : -1137 <= e <= 960 ->
  match get_cached_power_for_binary_exponent e with
  | Ret c => kAlpha <= cached_e c + e + 64 <= kGamma
  | _ => False
  end.
Proof.
  intros He.
  pose proof (check_from_spec 2098 (-1137) (fun e => match get_cached_power_for_binary_exponent e with
    | Ret c => (kAlpha <=? cached_e c + e + 64) && (cached_e c + e + 64 <=? kGamma) | _ => false end)) as H.
  specialize (H ltac:(vm_compute; reflexivity) e ltac:(lia)). simpl in H.
  destruct (get_cached_power_for_binary_exponent e); [|done..]. lia.
Qed.

Lemma get_cached_power_in e c : get_cached_power_for_binary_exponent e = Ret c -> c ∈ kCachedPowers.
Proof.
  unfold get_cached_power_for_binary_exponent. repeat (case_match; try done).
  all: intros [= <-]; by eapply list_elem_of_lookup_2.
Qed.

Lemma cached_power_spec e : -1137 <= e <= 960 ->
  exists c, get_cached_power_for_binary_exponent e = Ret c /\
    2 ^ 63 <= cached_f c < 2 ^ 64 /\ -300 <= cached_k c <= 324 /\ -60 <= cached_e c + e + 64 <= -32 /\
    (Qabs (inject_Z (cached_f c) * 2 ^ cached_e c - 10 ^ cached_k c) <= 2 ^ cached_e c * (1 # 2))%Q.
Proof.
  intros He. pose proof (cached_power_found e He) as Hf.
  destruct (get_cached_power_for_binary_exponent e) as [c| |] eqn:E; try done. exists c.
  assert (cached_ok c = true) as Hc.
  { apply get_cached_power_in in E. pose proof cached_powers_ok as H.
    rewrite forallb_forall in H. apply H. by apply list_elem_of_In. }
  unfold cached_ok in Hc. rewrite !andb_true_iff in Hc. destruct Hc as [[[[H1 H2] H3] H4] H5].
  apply Qle_bool_iff in H5. unfold kAlpha, kGamma in Hf. split_and!; try done; lia.
Qed.
