(* ===== verification/DtoaDigits.v ===== *)
(** Digit generation of Grisu2: the loops terminate, no assertion fails and
    no store leaves the buffer; the digits are the shortest decimal number
    between the two bounds. *)
From S2P Require Import Prelude CLib JsonValue JsonCompare BinaryReader Ieee754 Dtoa.

(** ** The buffer *)

(** A buffer of [N] characters that starts with [t]. *)
Definition starts (N : nat) (t buf : bytes) : Prop := exists post, buf = t ++ post /\ length buf = N.

Lemma starts_length N t buf : starts N t buf -> length buf = N.
Proof. by intros (post & _ & H). Qed.

Lemma starts_take N t buf : starts N t buf -> take (length t) buf = t.
Proof. intros (post & -> & _). by rewrite take_app_length. Qed.

Lemma store_starts N t buf p c : starts N t buf -> p = length t -> (p < N)%nat ->
  exists buf', store p c buf = Ret buf' /\ starts N (t ++ [c]) buf'.
Proof.
  intros (post & -> & Hl) -> Hp. unfold store. rewrite Hl. destruct (Nat.ltb_spec (length t) N); [|lia].
  eexists. split; [done|]. rewrite length_app in Hl. destruct post as [|x post]; [simpl in Hl; lia|].
  exists post. rewrite insert_app_r_alt by lia. rewrite Nat.sub_diag. simpl.
  rewrite <- app_assoc. split; [done|]. rewrite length_app in *. simpl in *. lia.
Qed.

Lemma store_last N t buf c c' : starts N (t ++ [c]) buf ->
  exists buf', store (length t) c' buf = Ret buf' /\ starts N (t ++ [c']) buf'.
Proof.
  intros (post & -> & Hl). unfold store. rewrite Hl. rewrite !length_app in Hl. simpl in Hl.
  destruct (Nat.ltb_spec (length t) N); [|lia]. eexists. split; [done|]. exists post.
  rewrite <- !app_assoc, insert_app_r_alt by lia. rewrite Nat.sub_diag. simpl. split; [done|].
  rewrite length_app. simpl. lia.
Qed.

Lemma starts_lookup N t buf c : starts N (t ++ [c]) buf -> buf !! length t = Some c.
Proof. intros (post & -> & _). rewrite <- app_assoc. by apply list_lookup_middle. Qed.

(** ** Rounding *)

(** The last digit [d] is decremented [j < d] times, while the rest stays
    within [delta]. *)
Lemma round_loop_spec N t fuel d buf dist delta rest ten_k :
  starts N (t ++ [48 + d]) buf -> 0 <= d <= 9 -> d < Z.of_nat fuel ->
  0 <= rest <= delta -> 0 <= dist <= delta -> delta < 2 ^ 64 -> 0 < ten_k < 2 ^ 64 -> delta < rest + d * ten_k ->
  exists j buf', grisu2_round_loop fuel buf (length t) dist delta rest ten_k = Ret buf' /\
    0 <= j < d /\ rest + j * ten_k <= delta /\ starts N (t ++ [48 + d - j]) buf'.
Proof.
  revert d buf rest. induction fuel as [|fuel IH]; intros d buf rest Hb Hd Hf Hr Hi H64 Hk Hx; [lia|].
  cbn [grisu2_round_loop]. assert (0 < d) by nia.
  destruct (_ && _) eqn:Ec; [|exists 0, buf; rewrite Z.sub_0_r; split_and!; done || lia].
  apply andb_true_iff in Ec as [Ec _]. apply andb_true_iff in Ec as [E1 E2].
  apply Z.ltb_lt in E1. apply Z.leb_le in E2. rewrite wrapu_small in E2 by lia.
  rewrite (starts_lookup _ _ _ _ Hb). destruct (Z.eqb_spec (48 + d) 48); [lia|]. cbn [negb].
  destruct (store_last N t buf (48 + d) (48 + d - 1) Hb) as (buf1 & -> & Hb1). cbn [comp_bind].
  rewrite (wrapu_small 64 (rest + ten_k)) by lia.
  replace (48 + d - 1) with (48 + (d - 1)) in Hb1 by lia.
  destruct (IH (d - 1) buf1 (rest + ten_k) Hb1) as (j & buf' & -> & Hj & Hrj & Hs); try lia.
  exists (j + 1), buf'. split_and!; [done|lia..|]. by replace (48 + d - (j + 1)) with (48 + (d - 1) - j) by lia.
Qed.

Lemma grisu2_round_spec N pre ds d buf dist delta rest ten_k :
  starts N (pre ++ ds ++ [48 + d]) buf -> 0 <= d <= 9 ->
  0 <= rest <= delta -> 0 <= dist <= delta -> delta < 2 ^ 64 -> 0 < ten_k < 2 ^ 64 -> delta < rest + d * ten_k ->
  exists j buf', grisu2_round buf (length pre) (S (length ds)) dist delta rest ten_k = Ret buf' /\
    0 <= j < d /\ rest + j * ten_k <= delta /\ starts N (pre ++ ds ++ [48 + d - j]) buf'.
Proof.
  intros Hb Hd Hr Hi H64 Hk Hx. unfold grisu2_round. cbn [Nat.leb].
  destruct (Z.leb_spec dist delta); [|lia]. destruct (Z.leb_spec rest delta); [|lia].
  destruct (Z.ltb_spec 0 ten_k); [|lia].
  replace (length pre + S (length ds) - 1)%nat with (length (pre ++ ds)) by (rewrite length_app; lia).
  rewrite app_assoc in Hb. setoid_rewrite app_assoc. apply round_loop_spec; try done; lia.
Qed.

(** ** Digits *)

(** Digits without a leading zero. *)
Definition leads (ds : bytes) : Prop := all_digits ds /\ match ds with d :: _ => 49 <= d | [] => True end.

Lemma leads_snoc ds d : leads ds -> 0 <= d <= 9 -> (ds = [] -> 1 <= d) -> leads (ds ++ [48 + d]).
Proof.
  intros [Ha Hl] Hd H0. split; [apply Forall_app; split; [done|]; constructor; [lia|constructor]|].
  destruct ds; simpl; [specialize (H0 eq_refl); lia|done].
Qed.

Lemma leads_value ds : leads ds -> ds <> [] -> 10 ^ Z.of_nat (length ds - 1) <= dec_value ds.
Proof.
  induction ds as [|d ds IH] using rev_ind; intros [Ha Hl] Hn; [done|].
  apply Forall_app in Ha as [Ha Hd]. inversion Hd; subst. rewrite dec_value_snoc, length_app. simpl.
  destruct ds as [|x ds]; [simpl in *; change (dec_value []) with 0; lia|].
  replace (length (x :: ds) + 1 - 1)%nat with (S (length (x :: ds) - 1)) by (simpl; lia).
  rewrite Nat2Z.inj_succ, Z.pow_succ_r by lia. specialize (IH (conj Ha Hl) ltac:(done)). lia.
Qed.

(** The digits [ds] of [M] in units of [10 * U], with the rest [R] still above
    [Delta]: one more digit is needed, in units of [U]. *)
Record pending (M Delta U : Z) (ds : bytes) (R : Z) : Prop := {
  p_leads : leads ds;
  p_value : M = dec_value ds * (10 * U) + R;
  p_rest : 0 <= Delta < R /\ R < 10 * U;
  p_first : ds = [] -> U <= R;
  p_wide : M <= 10 ^ 16 * Delta
}.

(** What is printed: at most 17 digits, in units of [U], within [Delta] below
    [M], where no multiple of [10 * U] is. *)
Record final (M Delta U : Z) (ds : bytes) : Prop := {
  f_leads : leads ds;
  f_length : (1 <= length ds <= 17)%nat;
  f_bounds : M - Delta <= dec_value ds * U <= M;
  f_shortest : forall x, ~ (M - Delta <= x * (10 * U) <= M)
}.

Section Pending.
Context {M Delta U : Z} {ds : bytes} {R : Z} (Hp : pending M Delta U ds R).

Lemma pending_unit : 0 < U.
Proof. destruct Hp. lia. Qed.

Lemma pending_length : (length ds <= 16)%nat.
Proof.
  destruct Hp as [Hl Hv Hr Hf Hw]. destruct ds as [|d ds'] eqn:E; [simpl; lia|]. rewrite <- E in *.
  pose proof (leads_value ds Hl ltac:(by rewrite E)) as Hd.
  destruct (Nat.leb_spec (length ds) 16) as [|Hn]; [done|exfalso].
  assert (10 ^ 16 <= 10 ^ Z.of_nat (length ds - 1)) by (apply Z.pow_le_mono_r; lia). nia.
Qed.

Lemma pending_digit : 0 <= R / U <= 9 /\ (ds = [] -> 1 <= R / U) /\ R = R / U * U + R mod U /\ 0 <= R mod U < U.
Proof.
  pose proof pending_unit. destruct Hp as [Hl Hv Hr Hf Hw].
  pose proof (Z.div_mod R U ltac:(lia)). pose proof (Z.mod_pos_bound R U ltac:(lia)). split_and!; try lia.
  - apply Z.div_pos; lia.
  - assert (R / U < 10); [|lia]. apply Z.div_lt_upper_bound; lia.
  - intros E. apply Z.div_le_lower_bound; [lia|]. specialize (Hf E). lia.
Qed.

Lemma pending_leads : leads (ds ++ [48 + R / U]).
Proof. destruct pending_digit as (Hd & Hf & _). apply leads_snoc; [by destruct Hp|done..]. Qed.

Lemma pending_value : M = dec_value (ds ++ [48 + R / U]) * U + R mod U.
Proof. destruct pending_digit as (_ & _ & E & _). rewrite dec_value_snoc, (p_value _ _ _ _ _ Hp). lia. Qed.

(** The next digit of the integral part. *)
Lemma pending_integral U' : U = 10 * U' -> Delta < R mod U -> pending M Delta U' (ds ++ [48 + R / U]) (R mod U).
Proof.
  intros EU Hlt. pose proof pending_digit as (_ & _ & _ & Hm). split.
  - apply pending_leads.
  - rewrite <- EU. apply pending_value.
  - destruct Hp. lia.
  - by destruct ds.
  - apply Hp.
Qed.

(** The next digit of the fractional part: the numbers are scaled instead. *)
Lemma pending_fractional : Delta < R mod U ->
  pending (10 * M) (10 * Delta) U (ds ++ [48 + R / U]) (10 * (R mod U)).
Proof.
  intros Hlt. pose proof pending_digit as (_ & _ & _ & Hm). split.
  - apply pending_leads.
  - rewrite pending_value at 1. ring.
  - destruct Hp. lia.
  - by destruct ds.
  - pose proof (p_wide _ _ _ _ _ Hp). lia.
Qed.

(** No multiple of [10 * U] lies within [Delta] below [M]. *)
Lemma pending_none x : ~ (M - Delta <= x * (10 * U) <= M).
Proof. destruct Hp as [Hl Hv Hr Hf Hw]. intros Hx. assert (x <= dec_value ds) by nia. nia. Qed.

(** The last digit. *)
Lemma pending_final N pre buf dist : starts N (pre ++ ds ++ [48 + R / U]) buf -> 0 <= dist <= Delta -> Delta < 2 ^ 64 ->
  U < 2 ^ 64 -> R mod U <= Delta ->
  exists ds' buf', grisu2_round buf (length pre) (S (length ds)) dist Delta (R mod U) U = Ret buf' /\
    length ds' = S (length ds) /\ starts N (pre ++ ds') buf' /\ final M Delta U ds'.
Proof.
  intros Hb Hdist H64 HU Hle. pose proof pending_unit. pose proof pending_length as H16.
  pose proof pending_digit as (Hd & Hf & E & Hm). pose proof (p_rest _ _ _ _ _ Hp) as Hr.
  destruct (grisu2_round_spec N pre ds (R / U) buf dist Delta (R mod U) U Hb) as (j & buf' & -> & Hj & Hrj & Hs); try lia.
  exists (ds ++ [48 + R / U - j]), buf'. rewrite length_app. split_and!; [done|simpl; lia|done|]. split.
  - replace (48 + R / U - j) with (48 + (R / U - j)) by lia. apply leads_snoc; [apply Hp|lia..].
  - rewrite length_app. simpl. lia.
  - rewrite dec_value_snoc. pose proof (p_value _ _ _ _ _ Hp). nia.
  - apply pending_none.
Qed.
End Pending.

(** ** The loops *)

(** The digits stored so far. *)
Definition holds (N : nat) (pre ds : bytes) (g : decimal) : Prop :=
  starts N (pre ++ ds) (buffer g) /\ len g = length ds.

Lemma put_digit_spec N pre ds g d : holds N pre ds g -> (length pre + length ds < N)%nat ->
  exists g', put_digit (length pre) d g = Ret g' /\ holds N pre (ds ++ [48 + d]) g' /\
    decimal_exponent g' = decimal_exponent g.
Proof.
  intros [Hs Hl] HN. unfold put_digit.
  destruct (store_starts N (pre ++ ds) (buffer g) (length pre + len g) (48 + d) Hs) as (buf & -> & Hs').
  - rewrite length_app. lia.
  - lia.
  - cbn [comp_bind]. eexists. split_and!; [done| |done]. split; [by rewrite app_assoc|].
    cbn [len]. rewrite length_app. simpl. lia.
Qed.

(** Quotient and remainder by [pow10 * S] of the rest [p1 * S + p2]. *)
Lemma split_rest p1 p2 pow S : 0 <= p2 < S -> 0 < pow -> 0 <= p1 ->
  (p1 * S + p2) / (pow * S) = p1 / pow /\ (p1 * S + p2) mod (pow * S) = p1 mod pow * S + p2.
Proof.
  intros Hp Hpow H1. pose proof (Z.div_mod p1 pow ltac:(lia)). pose proof (Z.mod_pos_bound p1 pow Hpow).
  assert (p1 * S + p2 = pow * S * (p1 / pow) + (p1 mod pow * S + p2)) as E by nia.
  split; symmetry; [eapply Z.div_unique|eapply Z.mod_unique]; try exact E; left; nia.
Qed.

Section Loops.
Variables (N : nat) (pre : bytes) (s M Delta dist : Z).
Hypothesis (HN : (length pre + 17 <= N)%nat) (Hs : 32 <= s <= 60).
Hypothesis (Hdist : 0 <= dist <= Delta).
Let S := 2 ^ s.
Let one := mk_diyfp S (- s).

(** The result [g'] of a generation with the exponent [ex] added. *)
Definition generated (g g' : decimal) : Prop :=
  exists n m ds, 0 <= n <= 9 /\ 0 <= m <= 20 /\ holds N pre ds g' /\
    final (10 ^ m * M) (10 ^ m * Delta) (10 ^ n * S) ds /\
    decimal_exponent g' = decimal_exponent g + n - m.

Lemma S_range : 2 ^ 32 <= S <= 2 ^ 60.
Proof. unfold S. split; apply Z.pow_le_mono_r; lia. Qed.

(** One digit of the integral part. *)
Lemma integral_turn n ds p1 p2 g (pow := 10 ^ Z.of_nat n) (R := p1 * S + p2) :
  (n <= 9)%nat -> 0 <= p2 < S -> 0 <= p1 -> R < 2 ^ 64 -> pow * S < 2 ^ 64 ->
  pending M Delta (pow * S) ds R -> holds N pre ds g ->
  exists g', decimal_exponent g' = decimal_exponent g + (if R mod (pow * S) <=? Delta then Z.of_nat n else 0) /\
    digit_gen_integral (Datatypes.S n) (length pre) one p1 p2 pow dist Delta g =
      (if R mod (pow * S) <=? Delta then Ret (true, g')
       else digit_gen_integral n (length pre) one (p1 mod pow) p2 (pow / 10) dist Delta g') /\
    exists ds', holds N pre ds' g' /\
      (if R mod (pow * S) <=? Delta then final M Delta (pow * S) ds' else ds' = ds ++ [48 + R / (pow * S)]).
Proof.
  intros Hn Hp2 Hp1 Hb HU Hp Hh. pose proof S_range as HS.
  assert (0 < pow) as Hpow by (apply Z.pow_pos_nonneg; lia).
  destruct (split_rest p1 p2 pow S Hp2 Hpow Hp1) as [Ed Er]. fold R in Ed, Er.
  pose proof (pending_digit Hp) as (Hd & _ & _ & Hm). pose proof (pending_length Hp) as H16.
  pose proof (p_rest _ _ _ _ _ Hp) as Hr. pose proof (Z.mod_pos_bound p1 pow Hpow) as Hm1.
  destruct (put_digit_spec N pre ds g (p1 / pow) Hh ltac:(lia)) as (g1 & Ep & [Hh1 Hl1] & Ee).
  assert (forall k, digit_gen_integral (Datatypes.S n) (length pre) one p1 p2 pow dist Delta g = k <->
    (let* buf := if R mod (pow * S) <=? Delta
       then (let* buf := grisu2_round (buffer g1) (length pre) (len g1) dist Delta (R mod (pow * S)) (pow * S) in
             Ret (true, mk_decimal buf (len g1) (decimal_exponent g1 + Z.of_nat n)))
       else digit_gen_integral n (length pre) one (p1 mod pow) p2 (pow / 10) dist Delta g1 in Ret buf) = k) as Hk.
  { intros k. cbn [digit_gen_integral]. change (diyfp_e one) with (- s). rewrite Z.opp_involutive, Ep.
    rewrite Ed in Hd. destruct (Z.leb_spec (p1 / pow) 9); [|lia]. cbn [comp_bind].
    rewrite !Z.shiftl_mul_pow2 by lia. fold S.
    rewrite (wrapu_small 64 (p1 mod pow * S)), (wrapu_small 64 (_ * S + p2)), (wrapu_small 64 (pow * S)) by nia.
    rewrite <- Er. destruct (R mod (pow * S) <=? Delta); [by rewrite comp_bind_assoc|].
    by destruct (digit_gen_integral n _ _ _ _ _ _ _ g1). }
  rewrite <- Ed in Hh1, Hl1.
  destruct (Z.leb_spec (R mod (pow * S)) Delta) as [Hle|Hgt].
  - destruct (pending_final Hp N pre (buffer g1) dist Hh1 Hdist ltac:(lia) HU Hle) as (ds' & buf & E & El & Hb' & Hfin).
    rewrite length_app, Nat.add_comm in Hl1. simpl in Hl1.
    exists (mk_decimal buf (len g1) (decimal_exponent g1 + Z.of_nat n)). split; [cbn; lia|]. split.
    + apply Hk. by rewrite Hl1, E.
    + exists ds'. split; [|done]. split; [done|]. cbn [len]. lia.
  - exists g1. split; [lia|]. split; [|by eexists]. apply Hk. by destruct (digit_gen_integral n _ _ _ _ _ _ _ g1).
Qed.

Lemma digit_gen_integral_spec n ds p1 p2 g :
  (n <= 9)%nat -> 0 <= p2 < S -> 0 <= p1 -> p1 * S + p2 < 2 ^ 64 ->
  10 ^ Z.of_nat n * S < 2 ^ 64 ->
  pending M Delta (10 ^ Z.of_nat n * S) ds (p1 * S + p2) -> holds N pre ds g ->
  exists r g', digit_gen_integral (Datatypes.S n) (length pre) one p1 p2 (10 ^ Z.of_nat n) dist Delta g = Ret (r, g') /\
    if r : bool then generated g g'
    else decimal_exponent g' = decimal_exponent g /\ Delta < p2 /\
      exists ds', holds N pre ds' g' /\ pending (10 * M) (10 * Delta) S ds' (10 * p2).
Proof.
  revert ds p1 g. induction n as [|n IH]; intros ds p1 g Hn Hp2 Hp1 Hb HU Hp Hh; pose proof S_range as HS;
    destruct (integral_turn _ ds p1 p2 g Hn Hp2 Hp1 Hb HU Hp Hh) as (g1 & Ee & E & ds1 & Hh1 & Hd1); rewrite E; clear E;
    match type of Ee with context [?a <=? Delta] => destruct (Z.leb_spec a Delta) as [Hle|Hgt] end.
  1, 3: exists true, g1; split; [done|]; match type of Ee with context [Z.of_nat ?k] => exists (Z.of_nat k), 0, ds1 end; rewrite Z.pow_0_r, (Z.mul_1_l M), (Z.mul_1_l Delta); split_and!; done || lia.
  - exists false, g1. split; [done|]. split; [lia|]. subst ds1. change (10 ^ Z.of_nat 0) with 1 in *.
    assert ((p1 * S + p2) mod (1 * S) = p2) as Em.
    { rewrite (proj2 (split_rest p1 p2 1 S Hp2 ltac:(lia) Hp1)), Z.mod_1_r. lia. }
    rewrite Em in Hgt. split; [done|]. eexists. split; [done|].
    pose proof (pending_fractional Hp ltac:(rewrite Em; lia)) as Hp'. rewrite Em, (Z.mul_1_l S) in Hp'. by rewrite (Z.mul_1_l S).
  - set (pow := 10 ^ Z.of_nat (Datatypes.S n)) in *.
    assert (pow = 10 * 10 ^ Z.of_nat n) as Epow by (unfold pow; rewrite Nat2Z.inj_succ, Z.pow_succ_r; lia).
    assert (0 < 10 ^ Z.of_nat n) by (apply Z.pow_pos_nonneg; lia).
    destruct (split_rest p1 p2 pow S Hp2 ltac:(lia) Hp1) as [_ Er].
    pose proof (pending_integral Hp (10 ^ Z.of_nat n * S) ltac:(lia) Hgt) as Hp'. rewrite Er in Hp'.
    replace (pow / 10) with (10 ^ Z.of_nat n) by (rewrite Epow, Z.mul_comm, Z.div_mul; lia).
    pose proof (Z.mod_pos_bound p1 pow ltac:(lia)). subst ds1.
    destruct (IH _ (p1 mod pow) g1 ltac:(lia) Hp2 ltac:(lia) ltac:(nia) ltac:(nia) Hp' Hh1) as (r & g' & -> & Hg').
    exists r, g'. split; [done|]. rewrite Z.add_0_r in Ee. destruct r.
    + destruct Hg' as (n' & m & ds' & Hg'). rewrite Ee in Hg'. by exists n', m, ds'.
    + by rewrite <- Ee.
Qed.

Lemma digit_gen_fractional_spec fuel (m : nat) ds p2 g : (fuel + m = 20)%nat -> 0 < Delta -> 0 <= p2 < S ->
  pending (10 ^ (Z.of_nat m + 1) * M) (10 ^ (Z.of_nat m + 1) * Delta) S ds (10 * p2) -> holds N pre ds g ->
  exists g', digit_gen_fractional fuel (length pre) one p2 (10 ^ Z.of_nat m * dist) (10 ^ Z.of_nat m * Delta) (Z.of_nat m) g =
      Ret g' /\ generated g g'.
Proof.
  revert m ds p2 g. induction fuel as [|fuel IH]; intros m ds p2 g Hm HD Hp2 Hp Hh; pose proof S_range as HS;
    pose proof (p_rest _ _ _ _ _ Hp) as Hr; set (q := 10 ^ Z.of_nat m) in *;
    assert (10 ^ (Z.of_nat m + 1) = 10 * q) as Eq by (unfold q; rewrite Z.pow_add_r by lia; lia);
    assert (0 < q) as Hq by (apply Z.pow_pos_nonneg; lia).
  { assert (10 ^ 20 <= q) by (apply Z.pow_le_mono_r; lia). nia. }
  rewrite Eq in Hp, Hr. cbn [digit_gen_fractional]. change (diyfp_e one) with (- s). change (diyfp_f one) with S.
  rewrite Z.opp_involutive. destruct (Z.leb_spec p2 ((2 ^ 64 - 1) / 10)) as [_|]; [|dlia].
  rewrite (wrapu_small 64 (p2 * 10)) by lia. rewrite (Z.mul_comm p2), Z.shiftr_div_pow2 by lia. fold S.
  assert (Z.land (10 * p2) (S - 1) = 10 * p2 mod S) as ->.
  { unfold S. rewrite Z.sub_1_r, <- Z.ones_equiv, Z.land_ones by lia. done. }
  pose proof (pending_digit Hp) as (Hd & _ & _ & Hm'). destruct (Z.leb_spec (10 * p2 / S) 9); [|lia].
  pose proof (pending_length Hp) as H16.
  destruct (put_digit_spec N pre ds g (10 * p2 / S) Hh ltac:(lia)) as (g1 & -> & [Hh1 Hl1] & Ee). cbn [comp_bind].
  replace (q * Delta * 10) with (10 * q * Delta) by ring. replace (q * dist * 10) with (10 * q * dist) by ring.
  rewrite !wrapu_small by nia. destruct (Z.leb_spec (10 * p2 mod S) (10 * q * Delta)) as [Hle|Hgt].
  - destruct (pending_final Hp N pre (buffer g1) (10 * q * dist) Hh1 ltac:(nia) ltac:(nia) ltac:(lia) Hle)
      as (ds' & buf & E & El & Hb' & Hfin).
    rewrite length_app, Nat.add_comm in Hl1. simpl in Hl1. rewrite Hl1, E. cbn [comp_bind].
    eexists. split; [done|]. exists 0, (Z.of_nat m + 1), ds'. rewrite Eq, Z.pow_0_r, (Z.mul_1_l S).
    split_and!; [lia..| |done|cbn; lia]. split; [done|]. cbn. lia.
  - pose proof (pending_fractional Hp Hgt) as Hp'.
    specialize (IH (Datatypes.S m) (ds ++ [48 + 10 * p2 / S]) ((10 * p2) mod S) g1 ltac:(lia) HD Hm').
    rewrite Nat2Z.inj_succ in IH. replace (Z.succ (Z.of_nat m)) with (Z.of_nat m + 1) in IH by lia. rewrite Eq in IH.
    replace (10 ^ (Z.of_nat m + 1 + 1)) with (10 * (10 * q)) in IH by (rewrite Z.pow_add_r, Eq by lia; lia).
    rewrite <- !(Z.mul_assoc 10 (10 * q)) in IH.
    destruct (IH Hp' (conj Hh1 Hl1)) as (g' & -> & n' & m' & ds' & Hg').
    exists g'. split; [done|]. exists n', m', ds'. by rewrite <- Ee.
Qed.
End Loops.

Lemma find_largest_pow10_spec n : 0 < n < 2 ^ 32 ->
  exists k, find_largest_pow10 n = (S k, 10 ^ Z.of_nat k) /\ (k <= 9)%nat /\
    10 ^ Z.of_nat k <= n < 10 * 10 ^ Z.of_nat k.
Proof.
  intros Hn. unfold find_largest_pow10.
  repeat match goal with |- context [?a <=? n] => destruct (Z.leb_spec a n) end;
    match goal with |- exists k, (?n, _) = _ /\ _ => exists (pred n) end; (split; [reflexivity|]); simpl; lia.
Qed.

(** [grisu2_digit_gen]: the digits are within the bounds, not more than 17,
    and no shorter number is within the bounds. *)
Lemma grisu2_digit_gen_spec N pre s M Delta dist g :
  (length pre + 17 <= N)%nat -> 32 <= s <= 60 -> 2 ^ s <= M < 2 ^ 64 -> 0 < Delta < M -> 0 <= dist <= Delta ->
  M <= 10 ^ 16 * Delta -> holds N pre [] g ->
  exists g', grisu2_digit_gen (length pre) (mk_diyfp (M - Delta) (- s)) (mk_diyfp (M - dist) (- s)) (mk_diyfp M (- s)) g = Ret g' /\
    generated N pre s M Delta g g'.
Proof.
  intros HN Hs HM HD Hdist Hw Hh. unfold grisu2_digit_gen, sub, kAlpha, kGamma. cbn [diyfp_f diyfp_e].
  assert (2 ^ 32 <= 2 ^ s <= 2 ^ 60) as HS by (split; apply Z.pow_le_mono_r; lia).
  destruct (Z.leb_spec (-60) (- s)); [|lia]. destruct (Z.leb_spec (- s) (-32)); [|lia]. rewrite Z.eqb_refl.
  destruct (Z.leb_spec (M - Delta) M); [|lia]. destruct (Z.leb_spec (M - dist) M); [|lia]. cbn [comp_bind diyfp_f].
  replace (M - (M - Delta)) with Delta by lia. replace (M - (M - dist)) with dist by lia.
  rewrite Z.opp_involutive, (wrapu_small 64 Delta), (wrapu_small 64 dist) by lia.
  rewrite Z.shiftl_mul_pow2, Z.mul_1_l, (wrapu_small 64 (2 ^ s)) by lia. rewrite Z.shiftr_div_pow2 by lia.
  assert (Z.land M (2 ^ s - 1) = M mod 2 ^ s) as ->.
  { by rewrite Z.sub_1_r, <- Z.ones_equiv, Z.land_ones by lia. }
  assert (0 < M / 2 ^ s < 2 ^ 32) as Hp1.
  { split; [apply Z.div_str_pos; lia|]. apply Z.div_lt_upper_bound; nia. }
  rewrite wrapu_small by lia. destruct (Z.ltb_spec 0 (M / 2 ^ s)); [|lia].
  destruct (find_largest_pow10_spec _ Hp1) as (k & -> & Hk & Hpow).
  pose proof (Z.div_mod M (2 ^ s) ltac:(lia)) as EM. pose proof (Z.mod_pos_bound M (2 ^ s) ltac:(lia)) as Hm.
  assert (M / 2 ^ s * 2 ^ s + M mod 2 ^ s = M) as EM' by lia.
  assert (10 ^ Z.of_nat k * 2 ^ s <= M / 2 ^ s * 2 ^ s) as Hlo by (apply Z.mul_le_mono_nonneg_r; lia).
  assert ((M / 2 ^ s + 1) * 2 ^ s <= 10 * 10 ^ Z.of_nat k * 2 ^ s) as Hhi by (apply Z.mul_le_mono_nonneg_r; lia).
  assert (pending M Delta (10 ^ Z.of_nat k * 2 ^ s) [] (M / 2 ^ s * 2 ^ s + M mod 2 ^ s)) as Hp.
  { split; [by split; [constructor|]|change (dec_value []) with 0; lia|lia|intros _; lia|done]. }
  destruct (digit_gen_integral_spec N pre s M Delta dist HN Hs Hdist k [] (M / 2 ^ s) (M mod 2 ^ s) g)
    as (r & g1 & -> & Hg1); try done; try lia.
  cbn [comp_bind]. destruct r; [by eexists|]. destruct Hg1 as (Ee & Hlt & ds & Hh1 & Hp').
  destruct (Z.ltb_spec Delta (M mod 2 ^ s)); [|lia].
  destruct (digit_gen_fractional_spec N pre s M Delta dist HN Hs Hdist 20 0 ds (M mod 2 ^ s) g1)
    as (g' & E & n' & m' & ds' & Hg'); try done; try lia.
  rewrite !Z.pow_0_r, !Z.mul_1_l in E. exists g'. split; [done|]. exists n', m', ds'. by rewrite <- Ee.
Qed.
