(* ===== verification/DtoaInterval.v ===== *)
(** The decimal number that Grisu2 finds lies strictly between the midpoints
    to the neighbours of the floating-point number.  The products with the
    cached power are off by less than one unit; rationals state this without
    case distinctions on the signs of the exponents. *)
From Stdlib Require Import QArith Qpower Qabs Lqa.
From S2P Require Import Prelude CLib JsonValue JsonCompare BinaryReader Ieee754 Dtoa DtoaFacts DtoaDigits.

#[local] Open Scope Z_scope.

(** ** Powers as rationals *)

Lemma pow2_pos e : (0 < 2 ^ e)%Q.
Proof. by apply Qpower_0_lt. Qed.

Lemma pow10_pos e : (0 < 10 ^ e)%Q.
Proof. by apply Qpower_0_lt. Qed.

Lemma pow2_add a b : (2 ^ (a + b) == 2 ^ a * 2 ^ b)%Q.
Proof. by apply Qpower_plus. Qed.

Lemma pow10_add a b : (10 ^ (a + b) == 10 ^ a * 10 ^ b)%Q.
Proof. by apply Qpower_plus. Qed.

Lemma pow2_opp a : (2 ^ a * 2 ^ (- a) == 1)%Q.
Proof. rewrite <- pow2_add, Z.add_opp_diag_r. reflexivity. Qed.

Lemma pow10_opp a : (10 ^ a * 10 ^ (- a) == 1)%Q.
Proof. rewrite <- pow10_add, Z.add_opp_diag_r. reflexivity. Qed.

Lemma pow2_Z n : 0 <= n -> (inject_Z (2 ^ n) == 2 ^ n)%Q.
Proof. intros. by apply Zpower_Qpower. Qed.

Lemma pow10_Z n : 0 <= n -> (inject_Z (10 ^ n) == 10 ^ n)%Q.
Proof. intros. by apply Zpower_Qpower. Qed.

(** The value of digits with a decimal exponent, of a positive double, and of
    the midpoints to its neighbours. *)
Definition decimal_value (ds : bytes) (k : Z) : Q := inject_Z (dec_value ds) * 10 ^ k.
Definition double_value (p : Z) : Q := inject_Z (double_units p) * 2 ^ (-1074).
Definition upper_value (p : Z) : Q := inject_Z (upper_units p) * 2 ^ (-1075).
Definition lower_value (p : Z) : Q := inject_Z (lower_units p) * 2 ^ (-1075).

(** ** The error of the products *)

Section Product.
Variables (f E cf ce k : Z).
Hypothesis (Hf : 0 < f < 2 ^ 64).
Hypothesis (Hc : (Qabs (inject_Z cf * 2 ^ ce - 10 ^ k) <= 2 ^ ce * (1 # 2))%Q).
Let h := (f * cf + 2 ^ 63) / 2 ^ 64.

Lemma cached_bounds : ((inject_Z (2 * cf - 1)) * 2 ^ ce <= 2 * 10 ^ k /\ 2 * 10 ^ k <= inject_Z (2 * cf + 1) * 2 ^ ce)%Q.
Proof.
  apply Qabs_Qle_condition in Hc as [H1 H2]. revert H1 H2.
  replace (2 * cf - 1) with (2 * cf + - 1) by lia. rewrite !inject_Z_plus, inject_Z_mult.
  change (inject_Z (-1)) with (-1)%Q. change (inject_Z 2) with 2%Q. change (inject_Z 1) with 1%Q. split; lra.
Qed.

(** Both sides carry the factor 2^E * 2^ce. *)
Lemma product_scale : (2 ^ (E + ce + 64) == 2 ^ E * 2 ^ ce * inject_Z (2 ^ 64))%Q.
Proof. rewrite !pow2_add, (pow2_Z 64) by lia. reflexivity. Qed.

Lemma product_below : (inject_Z (h - 1) * 2 ^ (E + ce + 64) < inject_Z f * 2 ^ E * 10 ^ k)%Q.
Proof.
  destruct cached_bounds as [Hlo _]. rewrite product_scale.
  pose proof (pow2_pos E) as HE. pose proof (pow2_pos ce) as Hce.
  assert (2 * ((h - 1) * 2 ^ 64) < f * (2 * cf - 1)) as Hz.
  { unfold h. pose proof (Z.mul_div_le (f * cf + 2 ^ 63) (2 ^ 64) ltac:(lia)). lia. }
  rewrite Zlt_Qlt, !inject_Z_mult in Hz. change (inject_Z 2) with 2%Q in Hz.
  assert (0 < inject_Z f)%Q as H0 by (rewrite <- (Zlt_Qlt 0); lia).
  set (a := (2 ^ E)%Q) in *. set (b := (2 ^ ce)%Q) in *. set (t := (10 ^ k)%Q) in *.
  set (x := inject_Z (h - 1)) in *. set (y := inject_Z (2 ^ 64)) in *. set (c := inject_Z (2 * cf - 1)) in *.
  set (g := inject_Z f) in *. clearbody a b t x y c g. clear - Hlo HE Hce Hz H0.
  assert (0 < a * b)%Q as Hab by by apply Qmult_lt_0_compat.
  assert (2 * (x * y) * (a * b) < g * c * (a * b))%Q as H1 by (apply Qmult_lt_compat_r; done).
  assert (g * a * (c * b) <= g * a * (2 * t))%Q as H2 by (apply Qmult_le_l; [by apply Qmult_lt_0_compat|done]).
  lra.
Qed.

Lemma product_above : (inject_Z f * 2 ^ E * 10 ^ k < inject_Z (h + 1) * 2 ^ (E + ce + 64))%Q.
Proof.
  destruct cached_bounds as [_ Hhi]. rewrite product_scale.
  pose proof (pow2_pos E) as HE. pose proof (pow2_pos ce) as Hce.
  assert (f * (2 * cf + 1) < 2 * ((h + 1) * 2 ^ 64)) as Hz.
  { unfold h. pose proof (Z.mul_succ_div_gt (f * cf + 2 ^ 63) (2 ^ 64) ltac:(lia)). lia. }
  rewrite Zlt_Qlt, !inject_Z_mult in Hz. change (inject_Z 2) with 2%Q in Hz.
  assert (0 < inject_Z f)%Q as H0 by (rewrite <- (Zlt_Qlt 0); lia).
  set (a := (2 ^ E)%Q) in *. set (b := (2 ^ ce)%Q) in *. set (t := (10 ^ k)%Q) in *.
  set (x := inject_Z (h + 1)) in *. set (y := inject_Z (2 ^ 64)) in *. set (c := inject_Z (2 * cf + 1)) in *.
  set (g := inject_Z f) in *. clearbody a b t x y c g. clear - Hhi HE Hce Hz H0.
  assert (0 < a * b)%Q as Hab by by apply Qmult_lt_0_compat.
  assert (g * c * (a * b) < 2 * (x * y) * (a * b))%Q as H1 by (apply Qmult_lt_compat_r; done).
  assert (g * a * (2 * t) <= g * a * (c * b))%Q as H2 by (apply Qmult_le_l; [by apply Qmult_lt_0_compat|done]).
  lra.
Qed.
End Product.

(** ** [grisu2] *)

(** The bounds of the digit generation, with one exponent. *)
Lemma final_value s M Delta n m ds : 0 <= n -> 0 <= m -> 0 <= s ->
  final (10 ^ m * M) (10 ^ m * Delta) (10 ^ n * 2 ^ s) ds ->
  (inject_Z (M - Delta) * 2 ^ (- s) <= decimal_value ds (n - m) /\ decimal_value ds (n - m) <= inject_Z M * 2 ^ (- s))%Q.
Proof.
  intros Hn Hm Hs [_ _ Hb _]. unfold decimal_value. destruct Hb as [H1 H2].
  rewrite <- Z.mul_sub_distr_l in H1. rewrite Zle_Qle, !inject_Z_mult in H1, H2.
  rewrite !pow10_Z, pow2_Z in H1, H2 by done.
  replace (n - m) with (n + - m) by lia. rewrite pow10_add.
  pose proof (pow2_opp s) as E2. pose proof (pow10_opp m) as E10.
  pose proof (pow2_pos (- s)) as P2. pose proof (pow10_pos (- m)) as P10.
  set (D := inject_Z (dec_value ds)) in *. set (x := (10 ^ n)%Q) in *. set (y := (2 ^ s)%Q) in *.
  set (y' := (2 ^ (- s))%Q) in *. set (z := (10 ^ m)%Q) in *. set (z' := (10 ^ (- m))%Q) in *.
  set (a := inject_Z (M - Delta)) in *. set (b := inject_Z M) in *. clearbody D x y y' z z' a b.
  assert (0 < z' * y')%Q as Hp by (apply Qmult_lt_0_compat; done).
  assert (forall t, t * y' == z * t * (z' * y'))%Q as Ht.
  { intros t. setoid_replace (z * t * (z' * y'))%Q with (z * z' * (t * y'))%Q using relation Qeq by ring. rewrite E10. ring. }
  assert (D * (x * z') == D * (x * y) * (z' * y'))%Q as Hd.
  { setoid_replace (D * (x * y) * (z' * y'))%Q with (y * y' * (D * (x * z')))%Q using relation Qeq by ring. rewrite E2. ring. }
  rewrite (Ht a), (Ht b), Hd. split; apply Qmult_le_compat_r; try done; by apply Qlt_le_weak.
Qed.

(** Divide by the power of ten. *)
Lemma decimal_value_shift ds k j : (decimal_value ds (k + j) == decimal_value ds k * 10 ^ j)%Q.
Proof. unfold decimal_value. rewrite pow10_add. ring. Qed.

Lemma boundary_value f E u : -1137 <= E -> f * 2 ^ (E + 1138) = u * 2 ^ 63 ->
  (inject_Z f * 2 ^ E == inject_Z u * 2 ^ (-1075))%Q.
Proof.
  intros HE H. assert (inject_Z f * 2 ^ (E + 1138) == inject_Z u * 2 ^ 63)%Q as Hq.
  { rewrite <- !pow2_Z, <- !inject_Z_mult by lia. by rewrite H. }
  replace E with (E + 1138 + -1138) by lia. replace (-1075) with (63 + -1138) by lia.
  rewrite !(pow2_add _ (-1138)), !Qmult_assoc, Hq. reflexivity.
Qed.

(** Multiplying by the reciprocal of the cached power. *)
Lemma unscale_lt a b k : (a < b * 10 ^ k -> a * 10 ^ (- k) < b)%Q.
Proof.
  intros H. pose proof (pow10_opp k) as E. setoid_replace b with (b * 10 ^ k * 10 ^ (- k))%Q using relation Qeq.
  - apply Qmult_lt_compat_r; [apply pow10_pos|done].
  - rewrite <- Qmult_assoc, E. ring.
Qed.

Lemma unscale_gt a b k : (b * 10 ^ k < a -> b < a * 10 ^ (- k))%Q.
Proof.
  intros H. pose proof (pow10_opp k) as E. setoid_replace b with (b * 10 ^ k * 10 ^ (- k))%Q using relation Qeq.
  - apply Qmult_lt_compat_r; [apply pow10_pos|done].
  - rewrite <- Qmult_assoc, E. ring.
Qed.

(** The numbers handed to the digit generation: rounded products. *)
Section Scaled.
Context {p : Z} {b : boundaries} (Hb : bounds_of p b) {c : cached_power}.
Hypothesis (Hc : 2 ^ 63 <= cached_f c < 2 ^ 64).
Let h (f : Z) := (f * cached_f c + 2 ^ 63) / 2 ^ 64.

Lemma h_mono f f' g : f + 2 * g <= f' -> 0 <= g -> h f + g <= h f'.
Proof.
  intros Hf Hg. unfold h. rewrite <- (Z.div_add _ g) by lia. apply Z.div_le_mono; [lia|]. nia.
Qed.

Lemma h_range : 2 ^ 62 <= h (diyfp_f (plus b)) < 2 ^ 64.
Proof.
  pose proof (b_plus_range _ _ Hb). unfold h. split.
  - apply Z.div_le_lower_bound; [lia|]. nia.
  - apply Z.div_lt_upper_bound; [lia|]. nia.
Qed.

Lemma h_order : h (diyfp_f (minus b)) + 2 <= h (w b).(diyfp_f) /\ h (w b).(diyfp_f) + 2 <= h (diyfp_f (plus b)) /\
  0 <= h (diyfp_f (minus b)).
Proof.
  pose proof (b_minus_gap _ _ Hb). pose proof (b_plus_gap _ _ Hb). pose proof (b_minus_pos _ _ Hb).
  split_and!; try (apply h_mono; lia). unfold h. apply Z.div_pos; nia.
Qed.

Lemma h_wide : h (diyfp_f (plus b)) - 1 <= 10 ^ 16 * (h (diyfp_f (plus b)) - h (diyfp_f (minus b)) - 2).
Proof.
  pose proof (b_wide _ _ Hb) as Hw. unfold h. set (fp := diyfp_f (plus b)) in *. set (fm := diyfp_f (minus b)) in *.
  pose proof (Z.mul_div_le (fp * cached_f c + 2 ^ 63) (2 ^ 64) ltac:(lia)) as H1.
  pose proof (Z.mul_succ_div_gt (fp * cached_f c + 2 ^ 63) (2 ^ 64) ltac:(lia)) as H2.
  pose proof (Z.mul_div_le (fm * cached_f c + 2 ^ 63) (2 ^ 64) ltac:(lia)) as H3.
  set (hp := (fp * cached_f c + 2 ^ 63) / 2 ^ 64) in *. set (hm := (fm * cached_f c + 2 ^ 63) / 2 ^ 64) in *.
  set (cf := cached_f c) in *.
  assert (7 * 10 ^ 16 * 2 ^ 63 <= (10 ^ 16 * (fp - fm) - fp) * cf) by (apply Z.mul_le_mono_nonneg; lia).
  clearbody hp hm cf. lia.
Qed.
End Scaled.

(** The number found is strictly between the boundaries. *)
Record shortest_in (lo hi : Q) (ds : bytes) (k : Z) : Prop := {
  s_leads : leads ds;
  s_length : (1 <= length ds <= 17)%nat;
  s_exponent : -344 <= k <= 309;
  s_above : (lo < decimal_value ds k)%Q;
  s_below : (decimal_value ds k < hi)%Q
}.

Lemma grisu2_scaled_spec N pre p b g : bounds_of p b -> (length pre + 17 <= N)%nat -> holds N pre [] g ->
  exists ds g', grisu2_scaled (length pre) (minus b) (w b) (plus b) g = Ret g' /\ holds N pre ds g' /\
    shortest_in (lower_value p) (upper_value p) ds (decimal_exponent g').
Proof.
  intros Hb HN Hg. unfold grisu2_scaled. destruct (b_exp _ _ Hb) as [Ew Em]. rewrite Em, Ew, Z.eqb_refl.
  destruct (cached_power_spec _ (b_exp_range _ _ Hb)) as (c & -> & Hcf & Hck & Hce & Hq). cbn [comp_bind].
  pose proof (b_exp_range _ _ Hb) as HE. pose proof (b_plus_range _ _ Hb) as Hp. pose proof (b_minus_pos _ _ Hb) as Hm.
  pose proof (b_plus_gap _ _ Hb). pose proof (b_minus_gap _ _ Hb). set (E := diyfp_e (plus b)) in *.
  rewrite !mul_spec by (cbn [diyfp_f]; lia). cbn [diyfp_f diyfp_e]. rewrite Em, Ew. fold E.
  pose proof (h_range Hb Hcf) as Hr. destruct (h_order Hb Hcf) as (H1 & H2 & H3). pose proof (h_wide Hb Hcf) as Hw.
  pose proof (product_below (diyfp_f (plus b)) E (cached_f c) (cached_e c) (cached_k c) ltac:(lia) Hq) as Hlt.
  pose proof (product_above (diyfp_f (minus b)) E (cached_f c) (cached_e c) (cached_k c) ltac:(lia) Hq) as Hgt.
  set (hp := (diyfp_f (plus b) * cached_f c + 2 ^ 63) / 2 ^ 64) in *.
  set (hm := (diyfp_f (minus b) * cached_f c + 2 ^ 63) / 2 ^ 64) in *.
  set (hw := (diyfp_f (w b) * cached_f c + 2 ^ 63) / 2 ^ 64) in *.
  rewrite (wrapu_small 64 (hm + 1)), (wrapu_small 64 (hp - 1)) by lia.
  set (s := - (E + cached_e c + 64)). replace (E + cached_e c + 64) with (- s) in * by (unfold s; lia).
  assert (2 ^ s <= 2 ^ 60) as Hs60 by (apply Z.pow_le_mono_r; lia).
  destruct (grisu2_digit_gen_spec N pre s (hp - 1) (hp - hm - 2) (hp - 1 - hw)
    (mk_decimal (buffer g) (len g) (- cached_k c))) as (g' & Eg & n & m & ds & Hn & Hm' & Hh & Hf & Ee); try lia; [done|].
  replace (hp - 1 - (hp - hm - 2)) with (hm + 1) in Eg by lia. replace (hp - 1 - (hp - 1 - hw)) with hw in Eg by lia.
  exists ds, g'. split; [done|]. split; [done|]. cbn [decimal_exponent] in Ee.
  replace (decimal_exponent g') with (n - m + - cached_k c) by lia.
  destruct (final_value s (hp - 1) (hp - hm - 2) n m ds) as [F1 F2]; [lia..|done|].
  replace (hp - 1 - (hp - hm - 2)) with (hm + 1) in F1 by lia.
  destruct Hf as [Hl Hn17 _ _]. split; [done|done|lia| |].
  - rewrite decimal_value_shift. unfold lower_value. rewrite <- (boundary_value _ E _ ltac:(lia) (b_minus _ _ Hb)).
    apply unscale_gt. by eapply Qlt_le_trans.
  - rewrite decimal_value_shift. unfold upper_value. rewrite <- (boundary_value _ E _ ltac:(lia) (b_plus _ _ Hb)).
    apply unscale_lt. by eapply Qle_lt_trans.
Qed.

Lemma positive_finite_tests v : positive_finite (pattern v) -> is_finite v = true /\ float_positive v = true.
Proof.
  unfold positive_finite. intros Hp. unfold is_finite. simpl. unfold sign_bit, nan_pattern, exponent.
  set (p := pattern v) in *. destruct (Z.eqb_spec (p / 2 ^ 52 mod 2048) 2047); [dlia|]. split; [done|].
  destruct (Z.leb_spec (2 ^ 63) p); [lia|]. destruct (Z.eqb_spec p 0); [lia|done].
Qed.

Lemma grisu2_spec N pre v g : positive_finite (pattern v) -> (length pre + 17 <= N)%nat -> holds N pre [] g ->
  exists ds g', grisu2 (length pre) v g = Ret g' /\ holds N pre ds g' /\
    shortest_in (lower_value (pattern v)) (upper_value (pattern v)) ds (decimal_exponent g').
Proof.
  intros Hp HN Hg. unfold grisu2. destruct (positive_finite_tests v Hp) as [-> ->].
  destruct (compute_boundaries_spec v Hp) as (b & -> & Hb). cbn [comp_bind]. by eapply grisu2_scaled_spec.
Qed.
