(* ===== verification/DtoaFormat.v ===== *)
(** The layout of the digits: [format_buffer] and [append_exponent] move
    characters in the buffer; what they leave there is a function of the
    digits and the exponent. *)
From S2P Require Import Prelude CLib JsonValue JsonCompare BinaryReader Ieee754 Dtoa DtoaDigits.

(** ** Stores in the middle of the buffer *)

Lemma store_mid N t x u buf p c : starts N (t ++ x :: u) buf -> p = length t ->
  exists buf', store p c buf = Ret buf' /\ starts N (t ++ c :: u) buf'.
Proof.
  intros (post & -> & Hl) ->. unfold store. rewrite Hl. rewrite !length_app in Hl. simpl in Hl.
  destruct (Nat.ltb_spec (length t) N); [|lia]. eexists. split; [done|]. exists post.
  rewrite <- !app_assoc, insert_app_r_alt by lia. rewrite Nat.sub_diag. simpl. split; [done|].
  rewrite !length_app. simpl. rewrite length_app. lia.
Qed.

Lemma memset_mid N t j u buf p c n : starts N (t ++ j ++ u) buf -> p = length t -> n = length j ->
  exists buf', memset p c n buf = Ret buf' /\ starts N (t ++ replicate n c ++ u) buf'.
Proof.
  intros (post & -> & Hl) -> ->. unfold memset. rewrite Hl. rewrite !length_app in Hl.
  destruct (Nat.leb_spec (length t + length j) N); [|lia]. eexists. split; [done|]. exists post.
  rewrite <- !app_assoc, take_app_length. split.
  - do 2 f_equal. rewrite app_assoc, <- length_app. by rewrite drop_app_length.
  - simpl. rewrite !length_app, length_replicate, length_drop, !length_app. lia.
Qed.

Lemma memset_end N t buf p c n : starts N t buf -> p = length t -> (p + n <= N)%nat ->
  exists buf', memset p c n buf = Ret buf' /\ starts N (t ++ replicate n c) buf'.
Proof.
  intros (post & -> & Hl) -> Hn. rewrite length_app in Hl.
  destruct (memset_mid N t (take n post) [] (t ++ post) (length t) c n) as (buf & E & Hs).
  - exists (drop n post). rewrite app_nil_r, <- app_assoc, take_drop, length_app. split; [done|lia].
  - done.
  - rewrite length_take. lia.
  - rewrite app_nil_r in Hs. by exists buf.
Qed.

(** [u] is moved to the right by [d] characters. *)
Lemma memmove_right N t u buf p q d n : starts N (t ++ u) buf -> p = (length t + d)%nat -> q = length t -> n = length u ->
  (p + n <= N)%nat ->
  exists j buf', memmove p q n buf = Ret buf' /\ length j = d /\ starts N (t ++ j ++ u) buf'.
Proof.
  intros (post & -> & Hl) -> -> -> Hn. unfold memmove. rewrite Hl, <- app_assoc in *. rewrite !length_app in Hl.
  destruct (Nat.leb_spec (length t + d + length u) N); [|lia]. destruct (Nat.leb_spec (length t + length u) N); [|lia].
  cbn [andb]. rewrite drop_app_length, take_app_length, take_app_add.
  exists (take d (u ++ post)). eexists. split; [done|]. rewrite length_take, length_app. split; [lia|].
  exists (drop (length t + d + length u) (t ++ u ++ post)). rewrite <- !app_assoc. split; [done|].
  rewrite !length_app, length_drop, length_take, !length_app. lia.
Qed.

(** ** The exponent *)

Definition exponent_chars (e : Z) : bytes :=
  (if e <? 0 then 45 else 43) :: (if Z.abs e <? 10 then [48; 48 + Z.abs e] else to_dec (Z.abs e)).

Lemma to_dec_two k : 10 <= k < 100 -> to_dec k = [48 + k / 10; 48 + k mod 10].
Proof. intros Hk. rewrite to_dec_step, to_dec_small by dlia. done. Qed.

Lemma to_dec_three k : 100 <= k < 1000 -> to_dec k = [48 + k / 100; 48 + k mod 100 / 10; 48 + k mod 100 mod 10].
Proof.
  intros Hk. rewrite to_dec_step, to_dec_two by dlia. simpl. f_equal; [dlia|f_equal; [dlia|f_equal; dlia]].
Qed.

Lemma append_exponent_spec N t e buf : starts N t buf -> -1000 < e < 1000 -> (length t + 4 <= N)%nat ->
  exists buf', append_exponent (length t) e buf = Ret (buf', length (t ++ exponent_chars e)) /\
    starts N (t ++ exponent_chars e) buf'.
Proof.
  intros Hs He HN. unfold append_exponent, exponent_chars.
  destruct (Z.ltb_spec (-1000) e); [|lia]. destruct (Z.ltb_spec e 1000); [|lia].
  set (sg := if e <? 0 then 45 else 43).
  destruct (store_starts N t buf _ sg Hs eq_refl ltac:(lia)) as (b1 & -> & H1). cbn [comp_bind].
  replace (wrapu 32 (if e <? 0 then - e else e)) with (Z.abs e)
    by (rewrite wrapu_small; destruct (Z.ltb_spec e 0); lia).
  assert (forall c u b p, starts N (t ++ sg :: u) b -> p = (S (length t) + length u)%nat -> (length u <= 2)%nat ->
    exists b', store p c b = Ret b' /\ starts N (t ++ sg :: u ++ [c]) b') as Hput.
  { intros c u b p Hb -> Hu. destruct (store_starts N _ b (S (length t) + length u) c Hb) as (b' & E & Hb').
    - rewrite length_app. simpl. lia.
    - lia.
    - exists b'. split; [done|]. by rewrite <- app_assoc in Hb'. }
  assert (forall u, length (t ++ sg :: u) = (S (length t) + length u)%nat) as Hlen.
  { intros u. rewrite length_app. simpl. lia. }
  change (t ++ [sg]) with (t ++ sg :: []) in H1.
  destruct (Z.ltb_spec (Z.abs e) 10); [|destruct (Z.ltb_spec (Z.abs e) 100)];
    [|rewrite to_dec_two by lia|rewrite to_dec_three by lia];
  repeat match goal with
  | H : starts N (t ++ sg :: ?u) ?b |- context [store ?p ?c ?b] =>
      destruct (Hput c u b p H) as (? & -> & ?); [simpl; lia|simpl; lia|]; cbn [comp_bind app] in *
  end; eexists; (split; [|done]); do 2 f_equal; rewrite Hlen; simpl; lia.
Qed.

(** ** The layout *)

(** The characters for the digits [ds] and the exponent [k]: fixed notation
    when the decimal point is at most 15 places after the first digit and at
    most 3 zeros before it, otherwise exponential notation. *)
Definition layout (ds : bytes) (k : Z) : bytes :=
  let n := Z.of_nat (length ds) + k in
  if (0 <=? k) && (n <=? 15) then ds ++ replicate (Z.to_nat k) 48 ++ [46; 48]
  else if (0 <? n) && (n <=? 15) then take (Z.to_nat n) ds ++ 46 :: drop (Z.to_nat n) ds
  else if (-4 <? n) && (n <=? 0) then [48; 46] ++ replicate (Z.to_nat (- n)) 48 ++ ds
  else take 1 ds ++ (if (length ds =? 1)%nat then [] else 46 :: drop 1 ds) ++ 101 :: exponent_chars (n - 1).

Section Format.
Context {N : nat} {pre ds : bytes} {k : Z} {buf : bytes}.
Hypothesis (HN : (length pre + 23 <= N)%nat) (Hl : (1 <= length ds <= 17)%nat) (Hb : starts N (pre ++ ds) buf).
Let n := Z.of_nat (length ds) + k.

Lemma format_integral : 0 <= k -> n <= 15 ->
  exists buf', format_buffer (length pre) (length ds) k (-4) 15 buf = Ret (buf', length (pre ++ layout ds k)) /\
    starts N (pre ++ layout ds k) buf'.
Proof.
  intros Hk Hn. unfold format_buffer, layout. fold n.
  destruct (Z.leb_spec (Z.of_nat (length ds)) n); [|lia]. destruct (Z.leb_spec n 15); [|lia].
  destruct (Z.leb_spec 0 k); [|lia]. cbn [andb]. change (-4 <? 0) with true. change (0 <? 15) with true. cbv iota.
  destruct (memset_end N _ buf (length pre + length ds) 48 (Z.to_nat n - length ds) Hb) as (b1 & -> & Hb1);
    [by rewrite length_app|lia|]. cbn [comp_bind].
  replace (Z.to_nat n - length ds)%nat with (Z.to_nat k) in Hb1 by lia.
  destruct (store_starts N _ b1 (length pre + Z.to_nat n) 46 Hb1) as (b2 & -> & Hb2);
    [rewrite !length_app, length_replicate; lia|lia|]. cbn [comp_bind].
  destruct (store_starts N _ b2 (length pre + Z.to_nat n + 1) 48 Hb2) as (b3 & -> & Hb3);
    [rewrite !length_app, length_replicate; simpl; lia|lia|]. cbn [comp_bind].
  exists b3. rewrite <- !app_assoc in Hb3. split; [|done]. do 2 f_equal. rewrite !length_app, length_replicate. simpl. lia.
Qed.

Lemma format_point : k < 0 -> 0 < n <= 15 ->
  exists buf', format_buffer (length pre) (length ds) k (-4) 15 buf = Ret (buf', length (pre ++ layout ds k)) /\
    starts N (pre ++ layout ds k) buf'.
Proof.
  intros Hk Hn. unfold format_buffer, layout. fold n.
  destruct (Z.leb_spec (Z.of_nat (length ds)) n); [lia|]. destruct (Z.leb_spec n 15); [|lia].
  destruct (Z.leb_spec 0 k); [lia|]. destruct (Z.ltb_spec 0 n); [|lia]. destruct (Z.ltb_spec n (Z.of_nat (length ds))); [|lia].
  cbn [andb]. change (-4 <? 0) with true. change (0 <? 15) with true. cbv iota.
  rewrite <- (take_drop (Z.to_nat n) ds), app_assoc in Hb.
  assert (length (take (Z.to_nat n) ds) = Z.to_nat n) as Ht by (rewrite length_take; lia).
  destruct (memmove_right N _ _ buf (length pre + (Z.to_nat n + 1)) (length pre + Z.to_nat n) 1 (length ds - Z.to_nat n) Hb)
    as (j & b1 & -> & Hj & Hb1); [rewrite length_app; lia|rewrite length_app; lia|by rewrite length_drop|lia|]. cbn [comp_bind].
  destruct j as [|x [|]]; [done| |done]. cbn [app] in Hb1.
  destruct (store_mid N _ x _ b1 (length pre + Z.to_nat n) 46 Hb1) as (b2 & -> & Hb2); [rewrite length_app; lia|].
  cbn [comp_bind]. exists b2. rewrite <- app_assoc in Hb2. split; [|done].
  do 2 f_equal. rewrite !length_app. simpl. rewrite length_take, length_drop. lia.
Qed.

Lemma format_fraction : -4 < n <= 0 ->
  exists buf', format_buffer (length pre) (length ds) k (-4) 15 buf = Ret (buf', length (pre ++ layout ds k)) /\
    starts N (pre ++ layout ds k) buf'.
Proof.
  intros Hn. unfold format_buffer, layout. fold n.
  destruct (Z.leb_spec (Z.of_nat (length ds)) n); [lia|]. destruct (Z.leb_spec n 15); [|lia].
  destruct (Z.leb_spec 0 k); [lia|]. destruct (Z.ltb_spec 0 n); [lia|]. destruct (Z.ltb_spec (-4) n); [|lia].
  destruct (Z.leb_spec n 0); [|lia]. cbn [andb]. change (-4 <? 0) with true. change (0 <? 15) with true. cbv iota.
  destruct (memmove_right N pre ds buf (length pre + (2 + Z.to_nat (- n))) (length pre) (2 + Z.to_nat (- n)) (length ds) Hb)
    as (j & b1 & -> & Hj & Hb1); [done..|lia|]. cbn [comp_bind].
  destruct j as [|x [|y j]]; [done|done|]. simpl in Hj.
  destruct (store_mid N pre x (y :: j ++ ds) b1 (length pre) 48 Hb1 eq_refl) as (b2 & -> & Hb2). cbn [comp_bind].
  destruct (store_mid N (pre ++ [48]) y (j ++ ds) b2 (length pre + 1) 46) as (b3 & -> & Hb3);
    [by rewrite <- app_assoc|rewrite length_app; done|]. cbn [comp_bind].
  destruct (memset_mid N (pre ++ [48; 46]) j ds b3 (length pre + 2) 48 (Z.to_nat (- n))) as (b4 & -> & Hb4);
    [by rewrite <- app_assoc in *|rewrite length_app; done|lia|]. cbn [comp_bind].
  exists b4. rewrite <- app_assoc in Hb4. split; [|done].
  do 2 f_equal. rewrite !length_app, length_replicate. simpl. lia.
Qed.

Lemma format_exponential : ~ (0 < n <= 15) -> ~ (-4 < n <= 0) -> -999 < n - 1 < 999 ->
  exists buf', format_buffer (length pre) (length ds) k (-4) 15 buf = Ret (buf', length (pre ++ layout ds k)) /\
    starts N (pre ++ layout ds k) buf'.
Proof.
  intros Hn1 Hn2 He. unfold format_buffer, layout. fold n.
  replace ((Z.of_nat (length ds) <=? n) && (n <=? 15)) with false by lia.
  replace ((0 <? n) && (n <=? 15)) with false by lia. replace ((-4 <? n) && (n <=? 0)) with false by lia.
  replace ((0 <=? k) && (n <=? 15)) with false by lia.
  change (-4 <? 0) with true. change (0 <? 15) with true. cbv iota.
  set (mid := if (length ds =? 1)%nat then [] else 46 :: drop 1 ds).
  assert (exists b1, (if (length ds =? 1)%nat then Ret (buf, (length pre + 1)%nat)
      else let* buf := memmove (length pre + 2) (length pre + 1) (length ds - 1) buf in
           let* buf := store (length pre + 1) 46 buf in
           Ret (buf, (length pre + (1 + length ds))%nat)) = Ret (b1, length (pre ++ take 1 ds ++ mid)) /\
    starts N (pre ++ take 1 ds ++ mid) b1) as (b1 & -> & Hb1).
  { subst mid. destruct ds as [|d ds']; [simpl in Hl; lia|]. change (take 1 (d :: ds')) with [d]. change (drop 1 (d :: ds')) with ds'. destruct (Nat.eqb_spec (length (d :: ds')) 1) as [E|E].
    - destruct ds'; [|done]. exists buf. rewrite length_app. done.
    - destruct (memmove_right N (pre ++ [d]) ds' buf (length pre + 2) (length pre + 1) 1 (length (d :: ds') - 1))
        as (j & b1 & -> & Hj & Hb1); [by rewrite <- app_assoc|rewrite length_app; simpl; lia|rewrite length_app; done|simpl; lia|simpl in *; lia|].
      cbn [comp_bind]. destruct j as [|x [|]]; [done| |done].
      destruct (store_mid N (pre ++ [d]) x ds' b1 (length pre + 1) 46 Hb1) as (b2 & -> & Hb2); [rewrite length_app; done|].
      cbn [comp_bind]. exists b2. rewrite <- app_assoc in Hb2. split; [|done]. do 2 f_equal. rewrite length_app. simpl. lia. }
  cbn [comp_bind]. assert (length (take 1 ds ++ mid) <= 18)%nat as Hlen.
  { subst mid. rewrite length_app, length_take. destruct (length ds =? 1)%nat; cbn [length]; rewrite ?length_drop; lia. }
  destruct (store_starts N _ b1 _ 101 Hb1 eq_refl) as (b2 & -> & Hb2); [rewrite length_app; lia|]. cbn [comp_bind].
  replace (S (length (pre ++ take 1 ds ++ mid))) with (length ((pre ++ take 1 ds ++ mid) ++ [101])) by (rewrite (length_app _ [101]); simpl; lia).
  destruct (append_exponent_spec N _ (n - 1) b2 Hb2) as (b3 & -> & Hb3); [lia|rewrite (length_app _ [101]), (length_app pre); cbn [length]; lia|].
  exists b3. rewrite <- !app_assoc in *. by split.
Qed.
End Format.

(** [format_buffer] leaves the layout in the buffer, for every number of
    digits and exponent. *)
Lemma format_buffer_spec N pre ds k buf : (length pre + 23 <= N)%nat -> (1 <= length ds <= 17)%nat -> -900 <= k <= 900 ->
  starts N (pre ++ ds) buf ->
  exists buf', format_buffer (length pre) (length ds) k (-4) 15 buf = Ret (buf', length (pre ++ layout ds k)) /\
    starts N (pre ++ layout ds k) buf'.
Proof.
  intros HN Hl Hk Hb. destruct (decide (0 < Z.of_nat (length ds) + k <= 15)) as [Hn|Hn].
  - destruct (decide (0 <= k)); [apply format_integral|apply format_point]; try done; lia.
  - destruct (decide (-4 < Z.of_nat (length ds) + k <= 0)); [by apply format_fraction|].
    apply format_exponential; try done; lia.
Qed.
