(* ===== verification/Strtod.v ===== *)
(** [strtod] of the C library in the "C" locale, on the texts of JSON numbers:
    the decimal number is read exactly and rounded to the nearest [double],
    ties to the even pattern, overflow to infinity.  Models standard-library
    behaviour, so no line of the repository corresponds to it. *)
From Stdlib Require Import QArith Qpower Qabs Lqa.
From S2P Require Import Prelude CLib JsonValue JsonCompare BinaryReader Ieee754 Dtoa DtoaFacts DtoaInterval.

#[local] Open Scope Z_scope.

(** ** Reading a decimal number *)

Definition read_fraction (s : bytes) : bytes * bytes :=
  match s with
  | 46 :: s' => let ds := take_digits s' in (ds, drop (length ds) s')
  | _ => ([], s)
  end.

Definition read_exponent (s : bytes) : Z :=
  match s with
  | c :: s' =>
      if (c =? 101) || (c =? 69)
      then let '(neg, s2) := split_sign s' in
           let v := dec_value (take_digits s2) in if neg : bool then - v else v
      else 0
  | [] => 0
  end.

(** Sign, significand and decimal exponent. *)
Definition read_decimal (s : bytes) : bool * Z * Z :=
  let '(neg, s1) := split_sign s in
  let ip := take_digits s1 in
  let '(fp, s3) := read_fraction (drop (length ip) s1) in
  (neg, dec_value (ip ++ fp), read_exponent s3 - Z.of_nat (length fp)).

(** ** Rounding to the nearest double *)

Definition double_max : Z := 2047 * 2 ^ 52 - 1.

(** The greatest pattern of a value not above [q], by bisection. *)
Fixpoint search (n : nat) (p : Z) (q : Q) : Z :=
  match n with
  | O => p
  | S n =>
      let c := p + 2 ^ Z.of_nat n in
      search n (if (c <=? double_max) && Qle_bool (double_value c) q then c else p) q
  end.

(** The pattern after [double_max] is the one of infinity, and its
    [double_value] is 2^1024. *)
Definition nearest (q : Q) : Z :=
  let p := search 63 0 q in
  match Qcompare q (upper_value p) with
  | Lt => p
  | Gt => p + 1
  | Eq => if Z.even p then p else p + 1
  end.

Definition strtod_double (s : bytes) : double :=
  let '(neg, m, k) := read_decimal s in
  of_pattern (with_sign neg (nearest (inject_Z m * 10 ^ k))).

Example strtod_ex : map (fun s => pattern (strtod_double (str s)))
    ["0.1"; "1e22"; "-2.5E-7"; "5e-324"; "2e-324"; "1.7976931348623159e308"; "9007199254740993"; "-0"]%string =
  [0x3FB999999999999A; 0x4480F0CF064DD592; 0xBE90C6F7A0B5ED8D; 1; 0; 0x7FF0000000000000; 0x4340000000000000;
   0x8000000000000000].
Proof. vm_compute. reflexivity. Qed.

(** ** The search *)

Lemma double_value_mono p p' : 0 <= p <= p' -> (double_value p <= double_value p')%Q.
Proof.
  intros Hp. unfold double_value. apply Qmult_le_compat_r; [|apply Qlt_le_weak, pow2_pos].
  rewrite <- Zle_Qle. destruct (Z.eq_dec p p') as [->|]; [lia|]. pose proof (double_units_lt p p'). lia.
Qed.

Lemma search_spec n : forall p q, 0 <= p -> (double_value p <= q)%Q ->
  (forall u, p + 2 ^ Z.of_nat n <= u <= double_max -> (q < double_value u)%Q) ->
  let r := search n p q in
  p <= r /\ (double_value r <= q)%Q /\ (forall u, r < u <= double_max -> (q < double_value u)%Q) /\
  (p <= double_max -> r <= double_max).
Proof.
  induction n as [|n IH]; intros p q Hp Hq Hu; cbn [search]; cbv zeta.
  - split_and!; [lia|done| |lia]. intros u Hr. apply Hu. simpl. lia.
  - rewrite Nat2Z.inj_succ, Z.pow_succ_r in Hu by lia. assert (0 < 2 ^ Z.of_nat n) by (apply Z.pow_pos_nonneg; lia).
    destruct ((p + 2 ^ Z.of_nat n <=? double_max) && Qle_bool (double_value (p + 2 ^ Z.of_nat n)) q) eqn:E.
    + apply andb_true_iff in E as [E1%Z.leb_le E2%Qle_bool_iff].
      destruct (IH (p + 2 ^ Z.of_nat n) q) as (H1 & H2 & H3 & H4); [lia|done| |].
      * intros u Hr. apply Hu. lia.
      * split_and!; [lia|done|done|]. intros _. by apply H4.
    + apply (IH p q Hp Hq). intros u Hr. apply andb_false_iff in E as [E%Z.leb_gt|E]; [lia|].
      apply Qnot_le_lt. intros Hle. apply not_true_iff_false in E. apply E, Qle_bool_iff.
      eapply Qle_trans; [|exact Hle]. apply double_value_mono. lia.
Qed.

Lemma search_63 q : (0 <= q)%Q ->
  let r := search 63 0 q in
  0 <= r <= double_max /\ (double_value r <= q)%Q /\ (forall u, r < u <= double_max -> (q < double_value u)%Q).
Proof.
  intros Hq. destruct (search_spec 63 0 q) as (H1 & H2 & H3 & H4); [lia| | |].
  - eapply Qle_trans; [|exact Hq]. apply Qle_bool_iff. vm_compute. reflexivity.
  - intros u Hu. unfold double_max in Hu. change (Z.of_nat 63) with 63 in Hu. lia.
  - unfold double_max in *. split_and!; [lia|apply H4; lia|exact H2|exact H3].
Qed.

(** Midpoints are between the values. *)
Lemma upper_value_above p : 0 <= p -> (double_value p < upper_value p /\ upper_value p < double_value (p + 1))%Q.
Proof.
  intros Hp. unfold double_value, upper_value. pose proof (double_units_lt p (p + 1) ltac:(lia)) as Hlt.
  setoid_replace (2 ^ (-1074))%Q with (2 * 2 ^ (-1075))%Q using relation Qeq by reflexivity.
  pose proof (pow2_pos (-1075)) as Hpos. set (z := (2 ^ (-1075))%Q) in *. clearbody z.
  rewrite !Qmult_assoc. change 2%Q with (inject_Z 2). rewrite <- !inject_Z_mult.
  split; apply Qmult_lt_compat_r; try done; rewrite <- Zlt_Qlt; unfold upper_units; lia.
Qed.

Lemma lower_upper p : (lower_value p = upper_value (p - 1))%Q.
Proof. unfold lower_value, upper_value, lower_units, upper_units. do 2 f_equal. f_equal. f_equal. lia. Qed.

(** What is closer to a double than the midpoints to its neighbours is rounded
    to it. *)
Lemma nearest_between q p : positive_finite p -> (lower_value p < q)%Q -> (q < upper_value p)%Q -> nearest q = p.
Proof.
  unfold positive_finite. intros Hp Hlo Hhi. rewrite lower_upper in Hlo.
  destruct (upper_value_above (p - 1) ltac:(lia)) as [Hl1 Hl2]. replace (p - 1 + 1) with p in Hl2 by lia.
  destruct (upper_value_above p ltac:(lia)) as [Hu1 Hu2].
  assert (0 <= q)%Q as Hq.
  { apply Qlt_le_weak. eapply Qle_lt_trans; [|exact Hlo]. eapply Qle_trans; [|apply Qlt_le_weak, Hl1].
    eapply Qle_trans; [|apply (double_value_mono 0); lia]. apply Qle_bool_iff. vm_compute. reflexivity. }
  unfold nearest. destruct (search_63 q Hq) as (Hr & Hle & Hgt). generalize dependent (search 63 0 q).
  intros r Hr Hle Hgt. unfold double_max in *.
  assert (r <= p) as Hrp.
  { destruct (Z.le_gt_cases r p) as [|Hc]; [done|exfalso].
    pose proof (double_value_mono (p + 1) r ltac:(lia)). apply (Qlt_irrefl q).
    eapply Qlt_trans; [exact Hhi|]. eapply Qlt_le_trans; [exact Hu2|]. by eapply Qle_trans. }
  assert (p - 1 <= r) as Hrp1.
  { destruct (Z.le_gt_cases (p - 1) r) as [|Hc]; [done|exfalso].
    specialize (Hgt (p - 1) ltac:(lia)). apply (Qlt_irrefl q).
    eapply Qlt_trans; [exact Hgt|]. by eapply Qlt_trans. }
  destruct (Z.eq_dec r p) as [->|].
  - rewrite Qlt_alt in Hhi. by rewrite Hhi.
  - replace r with (p - 1) by lia. apply Qgt_alt in Hlo. rewrite Hlo. lia.
Qed.

Lemma nearest_zero : nearest 0 = 0.
Proof. vm_compute. reflexivity. Qed.
