(* ===== verification/JsonFloat.v ===== *)
(** [double] as the number type of the JSON library: [Dtoa.to_chars] writes a
    text of the JSON grammar that [strtod] reads back as the same number, so
    [dump] and [parse] are inverse on values with floating-point numbers
    too. *)
From Stdlib Require Import QArith Qpower Qabs Lqa.
From S2P Require Import Prelude CLib Utf8 JsonValue JsonLexer JsonLexerFacts JsonParser JsonParserFacts.
From S2P Require Import JsonSerializer JsonGrammar JsonLexerComplete JsonRoundtrip JsonCompare BinaryReader Ieee754.
From S2P Require Import Dtoa DtoaFacts DtoaDigits DtoaInterval DtoaFormat Strtod.

#[local] Open Scope Z_scope.

#[export] Instance double_ops : FloatOps double := {
  float_zero := of_pattern 0;
  strtod := strtod_double;
  isfinite := is_finite;
  to_chars value buf := Dtoa.to_chars 0 (length buf) value buf
}.

(** ** Digits *)

Lemma dec_value_app a b : dec_value (a ++ b) = dec_value a * 10 ^ Z.of_nat (length b) + dec_value b.
Proof.
  induction b as [|d b IH] using rev_ind; [rewrite app_nil_r; change (dec_value []) with 0; simpl; lia|].
  rewrite app_assoc, !dec_value_snoc, IH, length_app, Nat2Z.inj_add, Z.pow_add_r by lia. simpl. lia.
Qed.

Lemma dec_value_zeros n : dec_value (replicate n 48) = 0.
Proof.
  induction n as [|n IH]; [done|]. rewrite replicate_S_end, dec_value_snoc, IH. done.
Qed.

Lemma all_digits_zeros n : all_digits (replicate n 48).
Proof. apply Forall_replicate. lia. Qed.

(** The digits before something that is not one. *)
Lemma take_digits_stop ds u : all_digits ds -> match u with c :: _ => ~ (48 <= c <= 57) | [] => True end ->
  take_digits (ds ++ u) = ds.
Proof.
  destruct u as [|c u]; intros Hd Hc; rewrite take_digits_app by done; [apply app_nil_r|].
  simpl. assert (is_digit c = false) as -> by by apply in_range_out. apply app_nil_r.
Qed.

(** ** The exponent *)

Lemma exponent_chars_parts e : -1000 < e < 1000 ->
  exists d ds, exponent_chars e = (if e <? 0 then 45 else 43) :: d :: ds /\ 48 <= d <= 57 /\ all_digits ds /\
    dec_value (d :: ds) = Z.abs e.
Proof.
  intros He. unfold exponent_chars. destruct (Z.ltb_spec (Z.abs e) 10).
  - exists 48, [48 + Z.abs e]. split_and!; [done|lia|lia|repeat constructor; lia|].
    change ([48; 48 + Z.abs e]) with ([48] ++ [48 + Z.abs e]). rewrite dec_value_snoc. change (dec_value [48]) with 0. lia.
  - destruct (to_dec_head (Z.abs e) ltac:(lia)) as (d & ds & E & Hd & Hds). exists d, ds. rewrite E.
    split_and!; [done|lia|lia|done|]. rewrite <- E. apply dec_value_to_dec. lia.
Qed.

Lemma exponent_chars_part e : -1000 < e < 1000 -> exp_part (101 :: exponent_chars e).
Proof.
  intros He. destruct (exponent_chars_parts e He) as (d & ds & -> & Hd & Hds & _).
  constructor; [by left| |done|done]. destruct (e <? 0); [by right|by left].
Qed.

Lemma read_exponent_chars e : -1000 < e < 1000 -> read_exponent (101 :: exponent_chars e) = e.
Proof.
  intros He. destruct (exponent_chars_parts e He) as (d & ds & -> & Hd & Hds & Hv). unfold read_exponent.
  change ((101 =? 101) || (101 =? 69)) with true. cbv iota.
  assert (all_digits (d :: ds)) as Ha by by constructor.
  destruct (Z.ltb_spec e 0); cbn [split_sign]; rewrite take_digits_all, Hv by done; lia.
Qed.

(** ** The parts of a text *)

(** Integral digits, fraction and exponent, with the value they denote. *)
Record parts (t ip fp : bytes) (ex : option Z) : Prop := {
  t_text : t = ip ++ (if decide (fp = []) then [] else 46 :: fp) ++
               match ex with Some e => 101 :: exponent_chars e | None => [] end;
  t_int : int_part ip;
  t_frac : all_digits fp;
  t_exp : match ex with Some e => -1000 < e < 1000 | None => fp <> [] end
}.

Lemma read_decimal_parts neg t ip fp ex : parts t ip fp ex ->
  read_decimal ((if neg : bool then [45] else []) ++ t) =
    (neg, dec_value (ip ++ fp), default 0 ex - Z.of_nat (length fp)).
Proof.
  intros [-> Hi Hf Hx]. destruct (int_part_digits ip Hi) as [Hd Hne].
  set (tail := _ ++ match ex with Some _ => _ | None => _ end).
  assert (split_sign ((if neg then [45] else []) ++ ip ++ tail) = (neg, ip ++ tail)) as Es.
  { destruct neg; [done|]. destruct ip as [|c ip]; [done|]. cbn [app]. apply split_sign_digit. by inversion Hd. }
  unfold read_decimal. rewrite Es.
  set (xs := match ex with Some e => 101 :: exponent_chars e | None => [] end) in *.
  assert (match xs with c :: _ => ~ (48 <= c <= 57) | [] => True end) as Hxs by (subst xs; destruct ex; [lia|done]).
  assert (read_exponent xs = default 0 ex) as Hrx by (subst xs; destruct ex; [by apply read_exponent_chars|done]).
  rewrite take_digits_stop; [|done|].
  2: { subst tail. case_decide; [done|]. cbn [app]. lia. }
  rewrite drop_app_length. subst tail. case_decide as Hfp.
  - subst fp. rewrite app_nil_l. assert (read_fraction xs = ([], xs)) as ->; [|by rewrite Hrx, app_nil_r].
    subst xs. by destruct ex.
  - cbn [app]. unfold read_fraction. rewrite take_digits_stop by done. rewrite drop_app_length. by rewrite Hrx.
Qed.

Lemma parts_number t ip fp ex neg : parts t ip fp ex ->
  is_finite (strtod_double ((if neg : bool then [45] else []) ++ t)) = true ->
  number_text 46 (value_number_float (strtod_double ((if neg then [45] else []) ++ t)))
    ((if neg then [45] else []) ++ t).
Proof.
  intros [-> Hi Hf Hx] Hfin. set (fr := if decide (fp = []) then [] else 46 :: fp) in *.
  set (xs := match ex with Some e => 101 :: exponent_chars e | None => [] end) in *.
  assert (forall u, localized 46 u = u) as El.
  { intros u. unfold localized. induction u as [|c u IH]; [done|]. simpl. rewrite IH. destruct (Z.eqb_spec c 46) as [->|]; done. }
  set (sg := if neg then [45] else []) in *.
  pose proof (number_float (F:=double) 46 sg ip fr xs) as H. cbv zeta in H. rewrite El in H. apply H; clear H.
  - subst sg. destruct neg; [by right|by left].
  - done.
  - subst fr. case_decide as Hn; [by left|right]. destruct fp as [|d fp]; [done|]. inversion Hf; subst. by constructor.
  - subst xs. destruct ex; [right; by apply exponent_chars_part|by left].
  - subst fr xs. destruct ex; [by destruct (decide (fp = []))|]. by rewrite decide_False.
  - done.
Qed.

(** ** The layout of Grisu's digits *)

Lemma leads_int_part ds : leads ds -> ds <> [] -> int_part ds.
Proof.
  intros [Hd Hl] Hne. destruct ds as [|d ds]; [done|]. inversion Hd; subst. constructor; [lia|done].
Qed.

Lemma leads_take n ds : leads ds -> leads (take (S n) ds).
Proof. intros [Hd Hl]. split; [by apply Forall_take|]. by destruct ds. Qed.

Lemma leads_app ds u : leads ds -> ds <> [] -> all_digits u -> leads (ds ++ u).
Proof. intros [Hd Hl] Hne Hu. split; [by apply Forall_app|]. by destruct ds. Qed.

Lemma layout_parts ds k : leads ds -> (1 <= length ds <= 17)%nat -> -900 <= k <= 900 ->
  exists ip fp ex, parts (layout ds k) ip fp ex /\
    (inject_Z (dec_value (ip ++ fp)) * 10 ^ (default 0 ex - Z.of_nat (length fp))%Z == decimal_value ds k)%Q.
Proof.
  intros Hl Hlen Hk. assert (ds <> []) as Hne by (by intros ->; simpl in Hlen; lia).
  unfold layout, decimal_value. set (n := Z.of_nat (length ds) + k).
  destruct ((0 <=? k) && (n <=? 15)) eqn:E1; [|destruct ((0 <? n) && (n <=? 15)) eqn:E2; [|destruct ((-4 <? n) && (n <=? 0)) eqn:E3]].
  - exists (ds ++ replicate (Z.to_nat k) 48), [48], None. split.
    + split; [by rewrite <- app_assoc| |repeat constructor; lia|done].
      apply leads_int_part; [apply leads_app; auto using all_digits_zeros|by destruct ds].
    + rewrite <- app_assoc, dec_value_app. change [48] with (replicate 1 48).
      rewrite <- replicate_add, dec_value_zeros, length_replicate, Z.add_0_r, inject_Z_mult, pow10_Z by lia.
      rewrite length_replicate. cbn [default]. rewrite <- Qmult_assoc, <- pow10_add.
      replace (Z.of_nat (Z.to_nat k + 1) + (0 - Z.of_nat 1)) with k by lia. reflexivity.
  - assert (drop (Z.to_nat n) ds <> []) as Hd.
    { intros H. apply (f_equal length) in H. rewrite length_drop in H. simpl in H. lia. }
    exists (take (Z.to_nat n) ds), (drop (Z.to_nat n) ds), None. split.
    + split; [by rewrite decide_False, app_nil_r| |apply Forall_drop, Hl|done].
      apply leads_int_part; [|intros H; apply (f_equal length) in H; rewrite length_take in H; simpl in H; lia].
      replace (Z.to_nat n) with (S (Z.to_nat n - 1)) by lia. by apply leads_take.
    + rewrite take_drop, length_drop. cbn [default]. replace (0 - _) with k by lia. reflexivity.
  - exists [48], (replicate (Z.to_nat (- n)) 48 ++ ds), None. split.
    + assert (replicate (Z.to_nat (- n)) 48 ++ ds <> []) by (by destruct ds, (replicate (Z.to_nat (- n)) 48)).
      split; [by rewrite decide_False, app_nil_r|constructor| |done].
      apply Forall_app. split; [apply all_digits_zeros|apply Hl].
    + rewrite app_assoc, dec_value_app. change [48] with (replicate 1 48).
      rewrite <- replicate_add, dec_value_zeros, Z.mul_0_l, Z.add_0_l, length_app, length_replicate. cbn [default].
      replace (0 - _) with k by lia. reflexivity.
  - exists (take 1 ds), (drop 1 ds), (Some (n - 1)). split.
    + split.
      * f_equal. f_equal. destruct ds as [|d [|d' ds]]; done.
      * apply leads_int_part; [by apply leads_take|by destruct ds].
      * apply Forall_drop, Hl.
      * lia.
    + rewrite take_drop, length_drop. cbn [default]. replace (n - 1 - _) with k by lia. reflexivity.
Qed.

(** ** [to_chars] *)

Definition sign_text (neg : bool) : bytes := if neg then [45] else [].

(** Sign and magnitude of a finite number. *)
Lemma finite_parts v : is_finite v = true ->
  exists p, 0 <= p < 2047 * 2 ^ 52 /\ v = of_pattern (with_sign (signbit v) p) /\
    pattern (if signbit v then float_neg v else v) = p.
Proof.
  unfold is_finite, exponent. intros Hf. apply negb_true_iff, Z.eqb_neq in Hf. pose proof (pattern_range v) as Hv.
  exists (pattern (if signbit v then float_neg v else v)). split; [|split; [|done]].
  - unfold signbit, sign_bit. destruct (Z.leb_spec (2 ^ 63) (pattern v)).
    + change (pattern (float_neg v)) with (wrapu 64 (pattern v + 2 ^ 63)). unfold wrapu. dlia.
    + dlia.
  - apply double_eq. change (pattern (of_pattern ?z)) with (wrapu 64 z). unfold with_sign.
    unfold signbit, sign_bit. destruct (Z.leb_spec (2 ^ 63) (pattern v)).
    + change (pattern (float_neg v)) with (wrapu 64 (pattern v + 2 ^ 63)). unfold wrapu. dlia.
    + rewrite wrapu_small; lia.
Qed.

(** The digits of a positive number are read back as its pattern. *)
Lemma shortest_nearest p ds k ip fp ex : positive_finite p -> shortest_in (lower_value p) (upper_value p) ds k ->
  (inject_Z (dec_value (ip ++ fp)) * 10 ^ (default 0 ex - Z.of_nat (length fp))%Z == decimal_value ds k)%Q ->
  nearest (inject_Z (dec_value (ip ++ fp)) * 10 ^ (default 0 ex - Z.of_nat (length fp))%Z) = p.
Proof. intros Hp [_ _ _ Hlo Hhi] E. apply nearest_between; [done|by rewrite E|by rewrite E]. Qed.

(** What [to_chars] writes for a magnitude after the sign. *)
Definition magnitude_text (p : Z) (t : bytes) : Prop :=
  exists ip fp ex, parts t ip fp ex /\
    nearest (inject_Z (dec_value (ip ++ fp)) * 10 ^ (default 0 ex - Z.of_nat (length fp))%Z) = p.

Lemma zero_magnitude : magnitude_text 0 [48; 46; 48].
Proof.
  exists [48], [48], None. split; [|vm_compute; reflexivity].
  split; [done|constructor|repeat constructor; lia|done].
Qed.

Lemma to_chars_zero N pre buf : starts N pre buf -> (length pre + 3 <= N)%nat ->
  exists buf', (let* buf := store (length pre) 48 buf in
                let* buf := store (length pre + 1) 46 buf in
                let* buf := store (length pre + 2) 48 buf in
                Ret (buf, (length pre + 3)%nat)) = Ret (buf', length (pre ++ [48; 46; 48])) /\
    starts N (pre ++ [48; 46; 48]) buf'.
Proof.
  intros Hb HN. destruct (store_starts N pre buf (length pre) 48 Hb eq_refl ltac:(lia)) as (b1 & -> & H1). cbn [comp_bind].
  destruct (store_starts N _ b1 (length pre + 1) 46 H1) as (b2 & -> & H2); [by rewrite length_app|lia|]. cbn [comp_bind].
  destruct (store_starts N _ b2 (length pre + 2) 48 H2) as (b3 & -> & H3); [rewrite !length_app; simpl; lia|lia|]. cbn [comp_bind].
  exists b3. rewrite <- !app_assoc in H3. split; [by rewrite length_app|done].
Qed.

Lemma exponent_chars_length e : -1000 < e < 1000 -> (length (exponent_chars e) <= 4)%nat.
Proof.
  intros He. unfold exponent_chars. destruct (Z.ltb_spec (Z.abs e) 10); [simpl; lia|].
  pose proof (to_dec_length (Z.abs e) 2 ltac:(simpl; lia)). simpl. lia.
Qed.

Lemma layout_length ds k : (1 <= length ds <= 17)%nat -> -900 <= k <= 900 -> (length (layout ds k) <= 23)%nat.
Proof.
  intros Hl Hk. unfold layout. set (n := Z.of_nat (length ds) + k).
  destruct ((0 <=? k) && (n <=? 15)) eqn:E1; [|destruct ((0 <? n) && (n <=? 15)) eqn:E2; [|destruct ((-4 <? n) && (n <=? 0)) eqn:E3]].
  - rewrite !length_app, length_replicate. cbn [length]. lia.
  - rewrite length_app. cbn [length]. rewrite length_take, length_drop. lia.
  - rewrite !length_app, length_replicate. cbn [length]. lia.
  - pose proof (exponent_chars_length (n - 1) ltac:(lia)). rewrite !length_app, length_take. cbn [length].
    destruct (length ds =? 1)%nat; cbn [length]; rewrite ?length_drop; lia.
Qed.

(** After the sign: a magnitude that is not 0. *)
Lemma to_chars_magnitude N pre v buf : positive_finite (pattern v) -> starts N pre buf -> (length pre + 23 <= N)%nat ->
  exists t buf', magnitude_text (pattern v) t /\ (length t <= 23)%nat /\ starts N (pre ++ t) buf' /\
    (let* g := grisu2 (length pre) v (mk_decimal buf 0 0) in
     JSON_ASSERT (len g <=? max_digits10)%nat ;;
     format_buffer (length pre) (len g) (decimal_exponent g) (-4) digits10 (buffer g)) = Ret (buf', length (pre ++ t)).
Proof.
  intros Hp Hb HN. destruct (grisu2_spec N pre v (mk_decimal buf 0 0) Hp) as (ds & g & -> & [Hs Hl] & Hsh);
    [lia|split; [by rewrite app_nil_r|done]|]. destruct Hsh as [Hle Hlen Hk Hlo Hhi] eqn:Esh. cbn [comp_bind].
  rewrite Hl. unfold max_digits10. destruct (Nat.leb_spec (length ds) 17); [|lia].
  destruct (format_buffer_spec N pre ds (decimal_exponent g) (buffer g)) as (buf' & E & Hb'); [lia|lia|lia|done|].
  destruct (layout_parts ds (decimal_exponent g) Hle Hlen) as (ip & fp & ex & Hparts & Ev); [lia|].
  exists (layout ds (decimal_exponent g)), buf'. split_and!; [|apply layout_length; lia|done|done].
  exists ip, fp, ex. split; [done|]. by eapply shortest_nearest.
Qed.

Lemma to_chars_spec v buf : is_finite v = true -> length buf = 64%nat ->
  exists p t buf', v = of_pattern (with_sign (signbit v) p) /\ magnitude_text p t /\
    Dtoa.to_chars 0 64 v buf = Ret (buf', length (sign_text (signbit v) ++ t)) /\
    starts 64 (sign_text (signbit v) ++ t) buf' /\ (length (sign_text (signbit v) ++ t) <= 24)%nat.
Proof.
  intros Hf Hl. destruct (finite_parts v Hf) as (p & Hp & Ev & Ea). exists p. unfold Dtoa.to_chars. rewrite Hf.
  set (neg := signbit v) in *. set (a := if neg then float_neg v else v) in *.
  assert (exists b1, (if neg then let* buf := store 0 45 buf in Ret (float_neg v, buf, 1%nat) else Ret (v, buf, 0%nat)) =
    Ret (a, b1, length (sign_text neg)) /\ starts 64 (sign_text neg) b1) as (b1 & -> & Hb).
  { assert (starts 64 [] buf) as H0 by by exists buf. subst a. unfold sign_text. destruct neg; [|by exists buf].
    destruct (store_starts 64 [] buf 0 45 H0 eq_refl ltac:(lia)) as (b1 & -> & H1). by exists b1. }
  cbn [comp_bind]. assert (length (sign_text neg) <= 1)%nat as Hlen by (destruct neg; simpl; lia).
  unfold is_zero, zero_pattern. rewrite Ea, Z.mod_small by lia. destruct (Z.eqb_spec p 0) as [->|Hp0].
  - destruct (to_chars_zero 64 _ b1 Hb ltac:(lia)) as (b2 & E & H2). exists [48; 46; 48], b2.
    split_and!; [done|apply zero_magnitude|exact E|done|]. rewrite length_app. simpl. lia.
  - destruct (to_chars_magnitude 64 (sign_text neg) a b1) as (t & b2 & Ht & Htl & Hb2 & E);
      [rewrite Ea; unfold positive_finite; lia|done|lia|]. rewrite Ea in Ht. exists t, b2.
    split_and!; [done|done| |done|rewrite length_app; lia].
    unfold max_digits10 in *. change (digits10 + 2) with 17. change (2 + (- (-4) - 1) + Z.of_nat 17) with 22.
    destruct (Nat.leb_spec 17 (64 - length (sign_text neg))); [|lia].
    destruct (Z.leb_spec 17 (Z.of_nat (64 - length (sign_text neg)))); [|lia].
    destruct (Z.leb_spec 22 (Z.of_nat (64 - length (sign_text neg)))); [|lia].
    destruct (Nat.leb_spec (17 + 6) (64 - length (sign_text neg))); [|lia]. exact E.
Qed.

Lemma magnitude_read neg p t : magnitude_text p t ->
  strtod_double (sign_text neg ++ t) = of_pattern (with_sign neg p).
Proof.
  intros (ip & fp & ex & Hparts & E). unfold strtod_double, sign_text.
  rewrite (read_decimal_parts neg t ip fp ex Hparts). by rewrite E.
Qed.

Lemma double_prints v : float_prints 46 v.
Proof.
  intros Hf buf Hl. change (isfinite v) with (is_finite v) in Hf.
  destruct (to_chars_spec v buf Hf Hl) as (p & t & buf' & Ev & Ht & E & Hs & _).
  exists buf'. eexists. change (JsonValue.to_chars v buf) with (Dtoa.to_chars 0 (length buf) v buf). rewrite Hl. split; [exact E|]. split; [by eapply starts_length|].
  rewrite (starts_take _ _ _ Hs). pose proof (magnitude_read (signbit v) p t Ht) as Er. rewrite <- Ev in Er.
  destruct Ht as (ip & fp & ex & Hparts & _). pose proof (parts_number t ip fp ex (signbit v) Hparts) as Hn.
  fold (sign_text (signbit v)) in Hn. rewrite Er in Hn. by apply Hn.
Qed.
