(* ===== verification/JsonFloatSpec.v ===== *)
(** What the output of floating-point numbers promises: the digits are the
    shortest between two bounds, the text is a number of the JSON grammar
    that is read back as the number it was written for, and so [dump] and
    [parse] are inverse on values with floating-point numbers. *)
From Stdlib Require Import QArith Qpower Qabs Lqa.
From S2P Require Import Prelude CLib Utf8 JsonValue JsonLexer JsonLexerFacts JsonParser JsonParserFacts.
From S2P Require Import JsonSerializer JsonGrammar JsonLexerComplete JsonRoundtrip JsonCompare BinaryReader Ieee754.
From S2P Require Import Dtoa DtoaFacts DtoaDigits DtoaInterval DtoaFormat Strtod JsonFloat.

#[local] Open Scope Z_scope.

(** ** Digit generation *)

Definition diyfp_value (d : diyfp) : Q := inject_Z (diyfp_f d) * 2 ^ diyfp_e d.

Lemma final_shortest s M Delta n m ds x : 0 <= n -> 0 <= m -> 0 <= s ->
  final (10 ^ m * M) (10 ^ m * Delta) (10 ^ n * 2 ^ s) ds ->
  ~ (inject_Z (M - Delta) * 2 ^ (- s) <= inject_Z x * 10 ^ (n - m + 1) /\
     inject_Z x * 10 ^ (n - m + 1) <= inject_Z M * 2 ^ (- s))%Q.
Proof.
  intros Hn Hm Hs [_ _ _ Hb] [H1 H2]. apply (Hb x). clear Hb.
  rewrite <- Z.mul_sub_distr_l, Zle_Qle, (Zle_Qle _ (10 ^ m * M)), !inject_Z_mult, !pow10_Z, pow2_Z by done.
  change (inject_Z 10) with 10%Q. replace (n - m + 1) with (n + (- m + 1)) in * by lia. rewrite !pow10_add in H1, H2.
  change (10 ^ 1)%Q with 10%Q in H1, H2.
  pose proof (pow2_opp s) as E2. pose proof (pow10_opp m) as E10.
  pose proof (pow2_pos s) as P2. pose proof (pow10_pos m) as P10.
  set (D := inject_Z x) in *. set (a := (10 ^ n)%Q) in *. set (y := (2 ^ s)%Q) in *.
  set (y' := (2 ^ (- s))%Q) in *. set (z := (10 ^ m)%Q) in *. set (z' := (10 ^ (- m))%Q) in *.
  set (lo := inject_Z (M - Delta)) in *. set (hi := inject_Z M) in *. clearbody D a y y' z z' lo hi.
  assert (0 < z * y)%Q as Hp by by apply Qmult_lt_0_compat.
  assert (forall t, z * t == t * y' * (z * y))%Q as Ht.
  { intros t. setoid_replace (t * y' * (z * y))%Q with (y * y' * (z * t))%Q using relation Qeq by ring. rewrite E2. ring. }
  assert (D * (10 * (a * y)) == D * (a * (z' * 10)) * (z * y))%Q as Hd.
  { setoid_replace (D * (a * (z' * 10)) * (z * y))%Q with (z * z' * (D * (10 * (a * y))))%Q using relation Qeq by ring. rewrite E10. ring. }
  rewrite (Ht lo), (Ht hi), Hd. split; apply Qmult_le_compat_r; try done; by apply Qlt_le_weak.
Qed.

(** C11: [grisu2_digit_gen] is correct and optimal: for bounds M- <= w <= M+
    with a common exponent in [alpha, gamma] that leave room for 17 digits it
    returns (the loops end, no assertion fails, no store leaves the buffer)
    with at most 17 digits and an exponent of a decimal number in [M-, M+],
    and no number with a greater decimal exponent lies in [M-, M+]. *)
Theorem digit_gen_shortest N pre M_minus w M_plus g :
  diyfp_e M_minus = diyfp_e M_plus -> diyfp_e w = diyfp_e M_plus -> -60 <= diyfp_e M_plus <= -32 ->
  0 < diyfp_f M_minus < diyfp_f M_plus -> diyfp_f M_minus <= diyfp_f w <= diyfp_f M_plus ->
  2 ^ (- diyfp_e M_plus) <= diyfp_f M_plus < 2 ^ 64 ->
  diyfp_f M_plus <= 10 ^ 16 * (diyfp_f M_plus - diyfp_f M_minus) ->
  (length pre + 17 <= N)%nat -> holds N pre [] g ->
  exists g' ds k, grisu2_digit_gen (length pre) M_minus w M_plus g = Ret g' /\
    holds N pre ds g' /\ decimal_exponent g' = decimal_exponent g + k /\ leads ds /\ (1 <= length ds <= 17)%nat /\
    (diyfp_value M_minus <= decimal_value ds k /\ decimal_value ds k <= diyfp_value M_plus)%Q /\
    forall x, ~ (diyfp_value M_minus <= inject_Z x * 10 ^ (k + 1) /\ inject_Z x * 10 ^ (k + 1) <= diyfp_value M_plus)%Q.
Proof.
  destruct M_minus as [fm e], w as [fw ew], M_plus as [fp e']. unfold diyfp_value. cbn [diyfp_f diyfp_e].
  intros -> -> He Hf Hw Hp Hwide HN Hg. set (s := - e'). replace e' with (- s) in * by lia. rewrite Z.opp_involutive in Hp.
  destruct (grisu2_digit_gen_spec N pre s fp (fp - fm) (fp - fw) g HN) as (g' & E & n & m & ds & Hn & Hm & Hh & Hfin & Ee); try done; try lia.
  replace (fp - (fp - fm)) with fm in E by lia. replace (fp - (fp - fw)) with fw in E by lia.
  pose proof (final_value s fp (fp - fm) n m ds ltac:(lia) ltac:(lia) ltac:(lia) Hfin) as Hv.
  replace (fp - (fp - fm)) with fm in Hv by lia.
  exists g', ds, (n - m). destruct Hfin as [Hl H17 Hb Hsh] eqn:Ef. split_and!; try done; try lia; [by apply Hv..|].
  intros x Hx. apply (final_shortest s fp (fp - fm) n m ds x); try lia; [done|].
  by replace (fp - (fp - fm)) with fm by lia.
Qed.

Lemma digit_gen_shortest_witness :
  exists g' ds k, grisu2_digit_gen 0 (mk_diyfp (149 * 2 ^ 52) (-60)) (mk_diyfp (150 * 2 ^ 52) (-60))
      (mk_diyfp (300 * 2 ^ 52) (-60)) (mk_decimal (replicate 64 0) 0 0) = Ret g' /\
    holds 64 [] ds g' /\ decimal_exponent g' = 0 + k /\ leads ds /\ (1 <= length ds <= 17)%nat /\
    (diyfp_value (mk_diyfp (149 * 2 ^ 52) (-60)) <= decimal_value ds k /\
     decimal_value ds k <= diyfp_value (mk_diyfp (300 * 2 ^ 52) (-60)))%Q /\
    forall x, ~ (diyfp_value (mk_diyfp (149 * 2 ^ 52) (-60)) <= inject_Z x * 10 ^ (k + 1) /\
                 inject_Z x * 10 ^ (k + 1) <= diyfp_value (mk_diyfp (300 * 2 ^ 52) (-60)))%Q.
Proof.
  apply (digit_gen_shortest 64 [] (mk_diyfp (149 * 2 ^ 52) (-60)) (mk_diyfp (150 * 2 ^ 52) (-60))
    (mk_diyfp (300 * 2 ^ 52) (-60)) (mk_decimal (replicate 64 0) 0 0)); simpl diyfp_e; simpl diyfp_f; try lia; [simpl; lia|].
  split; [by exists (replicate 64 0)|done].
Defined.

(** ** [to_chars] *)

(** C10: round trip: for every finite double [to_chars] returns within the
    serializer's buffer of 64 characters, having written at most 24; the text
    is a number of the JSON grammar and [strtod] reads the same double back,
    signed zeros and denormal numbers included. *)
Theorem to_chars_roundtrip v buf : is_finite v = true -> length buf = 64%nat ->
  exists buf' e, Dtoa.to_chars 0 64 v buf = Ret (buf', e) /\ length buf' = 64%nat /\ (e <= 24)%nat /\
    number_text 46 (value_number_float v) (take e buf') /\ strtod_double (take e buf') = v.
Proof.
  intros Hf Hl. destruct (to_chars_spec v buf Hf Hl) as (p & t & buf' & Ev & Ht & E & Hs & H24).
  destruct (double_prints v Hf buf Hl) as (buf2 & e & E2 & Hl2 & Hn).
  change (JsonValue.to_chars v buf) with (Dtoa.to_chars 0 (length buf) v buf) in E2. rewrite Hl, E in E2. injection E2 as <- <-.
  exists buf'. eexists. split_and!; try done. rewrite (starts_take _ _ _ Hs), (magnitude_read _ p t Ht). done.
Qed.

(** The smallest denormal number. *)
Lemma to_chars_roundtrip_witness :
  exists buf' e, Dtoa.to_chars 0 64 (of_pattern 1) (replicate 64 0) = Ret (buf', e) /\ length buf' = 64%nat /\ (e <= 24)%nat /\
    number_text 46 (value_number_float (of_pattern 1)) (take e buf') /\ strtod_double (take e buf') = of_pattern 1.
Proof. apply (to_chars_roundtrip (of_pattern 1) (replicate 64 0)); reflexivity. Defined.

(** ** [dump] and [parse] *)

Lemma printable_double (j : json double) : wf_json j -> printable 46 j.
Proof.
  induction j as [|m IH|l IH|x|b|z|z|f|x t|] using json_ind'; intros Hw; inversion Hw; subst; constructor.
  - rewrite !Forall_forall in *. auto.
  - rewrite !Forall_forall in *. auto.
  - apply double_prints.
Qed.

(** C9: round trip: [dump] of every well-formed value returns, compact or
    with an indentation that fits the indent buffer, escaping or not, and
    parsing its output (up to a null character) gives the value back,
    floating-point numbers bit by bit; non-negative integers become
    unsigned ones, and numbers that are not finite become null. (In a
    locale with the decimal point ".", as the "C" locale.) *)
Theorem dump_parse_roundtrip (j : json double) indent indent_char ensure handler allow ignore rest :
  wf_json j -> ws_char indent_char -> indent_fits indent j -> indent < 2 ^ 31 ->
  input_end rest -> Forall is_byte rest ->
  exists t, dump j indent indent_char ensure handler = Ret t /\
    json_parse (t ++ rest) allow ignore [46] = Ret (canonical j).
Proof. intros Hw. by apply dump_parse_printable; [|apply printable_double|..]. Qed.

(** A parsed value can be dumped and parsed again: whatever text [i] was
    accepted, the value it denotes has a compact dump, and that dump is
    parsed to the same value with non-negative integers as unsigned ones. *)
Theorem parse_dump_parse i (j : json double) ignore : Forall is_byte i ->
  json_parse i true ignore [46] = Ret j ->
  exists t, dump j (-1) 32 false strict = Ret t /\ json_parse t true ignore [46] = Ret (canonical j).
Proof.
  intros Hi Hp. pose proof (parse_wf i j ignore 46 Hi Hp) as Hw.
  destruct (dump_parse_printable j (-1) 32 false strict 46 true ignore [] Hw (printable_double j Hw))
    as (t & E & Hr); [by left|by left|lia|by left|constructor|].
  rewrite app_nil_r in Hr. by exists t.
Qed.

(** ** Witnesses *)

Definition example_value : json double :=
  value_object [(str "amount", value_number_unsigned 268435456);
                (str "name", value_string [0xC3; 0xA9; 34; 10]);
                (str "neg", value_array [value_number_integer (-7); value_number_integer 7; value_null]);
                (str "rate", value_array [value_number_float (of_pattern 0x3FB999999999999A); value_number_float infinity])].

Lemma example_value_wf : wf_json example_value.
Proof.
  unfold example_value.
  constructor.
  - unfold sorted_object. repeat constructor.
  - repeat apply Forall_cons_2; try apply Forall_nil_2; apply utf8_valid_str; repeat constructor.
  - repeat apply Forall_cons_2; try apply Forall_nil_2; simpl.
    + constructor; lia.
    + constructor. exists [0xE9; 34; 10]. split; [|reflexivity].
      repeat (apply Forall_cons_2; [left; lia|]); apply Forall_nil_2; exact I.
    + repeat constructor; lia.
    + repeat constructor.
Qed.

Lemma dump_parse_roundtrip_witness :
  exists t, dump example_value 2 32 true strict = Ret t /\
    json_parse (t ++ [0; 120]) true false [46] = Ret (canonical example_value).
Proof.
  apply (dump_parse_roundtrip example_value 2 32 true strict true false [0; 120]).
  - apply example_value_wf.
  - left. reflexivity.
  - right. vm_compute. discriminate.
  - lia.
  - right. exists [120]. reflexivity.
  - repeat constructor; lia.
Defined.

Lemma parse_dump_parse_witness :
  json_parse (F:=double) (jtext "{'b': [1, -0, 1.5], 'a': null}") true false [46] =
    Ret (value_object [(str "a", value_null);
      (str "b", value_array [value_number_unsigned 1; value_number_integer 0;
         value_number_float (of_pattern 0x3FF8000000000000)])]) /\
  exists t, dump (value_object [(str "a", value_null);
      (str "b", value_array [value_number_unsigned 1; value_number_integer 0;
         value_number_float (of_pattern 0x3FF8000000000000)])]) (-1) 32 false strict = Ret t /\
    json_parse t true false [46] =
      Ret (value_object [(str "a", value_null);
        (str "b", value_array [value_number_unsigned 1; value_number_unsigned 0;
         value_number_float (of_pattern 0x3FF8000000000000)])]).
Proof.
  assert (json_parse (F:=double) (jtext "{'b': [1, -0, 1.5], 'a': null}") true false [46] =
    Ret (value_object [(str "a", value_null);
      (str "b", value_array [value_number_unsigned 1; value_number_integer 0;
         value_number_float (of_pattern 0x3FF8000000000000)])])) as E
    by (vm_compute; reflexivity).
  split; [exact E|]. apply (parse_dump_parse _ _ false (jtext_bytes _) E).
Defined.
