(* ===== verification/BinaryReaderFacts.v ===== *)
(** Facts of the shared part of the binary readers, driving the DOM builder:
    what a call does when it succeeds, and that otherwise it reports an error
    of the format. *)
From S2P Require Import Prelude Utf8 JsonValue JsonGrammar JsonLexer JsonParser JsonParserFacts JsonParserComplete BinaryReader.

(** ** The grammars

    A number after the byte that announces it. *)
Inductive sized (first : Z) : Z -> bytes -> Prop :=
  | sized_8 n : 0 <= n < 2 ^ 8 -> sized first n (first :: be_bytes 1 n)
  | sized_16 n : 0 <= n < 2 ^ 16 -> sized first n (first + 1 :: be_bytes 2 n)
  | sized_32 n : 0 <= n < 2 ^ 32 -> sized first n (first + 2 :: be_bytes 4 n)
  | sized_64 n : 0 <= n < 2 ^ 64 -> sized first n (first + 3 :: be_bytes 8 n).

(** The texts of the elements of a list, one after the other. *)
Inductive texts {X} (E : X -> bytes -> Prop) : list X -> bytes -> Prop :=
  | texts_nil : texts E [] []
  | texts_cons x t l ts : E x t -> texts E l ts -> texts E (x :: l) (t ++ ts).

Lemma sized_length first n h : sized first n h -> exists c b, h = c :: b /\ first <= c <= first + 3 /\ (1 <= length b <= 8)%nat.
Proof. destruct 1; do 2 eexists; rewrite be_bytes_length; split_and!; try done; lia. Qed.

Lemma sized_nonempty first n h : sized first n h -> h <> [].
Proof. intros Hs. by destruct (sized_length _ _ _ Hs) as (c & b & -> & _). Qed.

Lemma sized_range first n h : sized first n h -> 0 <= n < 2 ^ 64.
Proof. destruct 1; lia. Qed.

(** Decide the tests of a [switch] for a label known by its range. *)
Ltac steer :=
  repeat (match goal with
  | |- context [in_range ?a ?b ?c] =>
      first [rewrite (in_range_true a b c) by lia | rewrite (in_range_out a b c) by lia]
  | |- context [?c =? ?k] =>
      first [rewrite (proj2 (Z.eqb_eq c k)) by lia | rewrite (proj2 (Z.eqb_neq c k)) by (unfold EOF; lia)]
  end; cbn [orb andb negb]; cbv iota).

(** ** Signed numbers *)

Lemma to_signed_wrap w z : 0 < w -> - 2 ^ (w - 1) <= z < 2 ^ (w - 1) -> to_signed w (wrapu w z) = z.
Proof.
  intros Hw Hz. rewrite <- (to_signed_small w z) at 2 by done. unfold to_signed, wrapu. by rewrite Z.mod_mod by lia.
Qed.

(** An unsigned number is the two's complement of the signed one. *)
Lemma signed_number w m : 0 < w -> 0 <= m < 2 ^ w ->
  - 2 ^ (w - 1) <= to_signed w m < 2 ^ (w - 1) /\ wrapu w (to_signed w m) = m.
Proof.
  intros Hw Hm. assert (2 ^ w = 2 * 2 ^ (w - 1)) as E.
  { rewrite <- Z.pow_succ_r by lia. f_equal. lia. }
  unfold to_signed, wrapu. rewrite (Z.mod_small m) by done. destruct (Z.ltb_spec m (2 ^ (w - 1))).
  - split; [lia|]. by apply Z.mod_small.
  - split; [lia|]. replace (m - 2 ^ w) with (m + (-1) * 2 ^ w) by lia. rewrite Z.mod_add by lia. by apply Z.mod_small.
Qed.

(** ** How a call ends

    It succeeds in a state of [Q], or fails: by its result, when [silent]
    allows it, or by an exception of [failing]. *)
Section Results.
Variable silent : Prop.
Variable failing : exn -> Prop.

Definition ends {R} (Q : R -> Prop) (m : comp (bool * R)) : Prop :=
  match m with
  | Ret (true, r) => Q r
  | Ret (false, _) => silent
  | Throw e => failing e
  | OutOfFuel => False
  end.

Definition ends_let {A R} (Q : A -> R -> Prop) (m : comp (bool * A * R)) : Prop :=
  match m with
  | Ret (true, a, r) => Q a r
  | Ret (false, _, _) => silent
  | Throw e => failing e
  | OutOfFuel => False
  end.

Lemma ends_mono {R} (Q Q' : R -> Prop) m : ends Q m -> (forall x, Q x -> Q' x) -> ends Q' m.
Proof. destruct m as [[[] x]| |]; simpl; auto. Qed.

Lemma ends_then {R} (Q Q' : R -> Prop) m k : ends Q m -> (forall x, Q x -> ends Q' (k x)) -> ends Q' (and_then m k).
Proof. destruct m as [[[] x]| |]; simpl; auto. Qed.

Lemma ends_and_let {A R} (Q : A -> R -> Prop) Q' m k :
  ends_let Q m -> (forall a x, Q a x -> ends Q' (k a x)) -> ends Q' (and_let m k).
Proof. destruct m as [[[[] a] x]| |]; simpl; auto. Qed.

Lemma ends_and_get {A B R} (Q : A -> R -> Prop) (Q' : B -> R -> Prop) (d : B) (m : comp (bool * A * R)) k :
  ends_let Q m -> (forall a x, Q a x -> ends_let Q' (k a x)) -> ends_let Q' (and_get d m k).
Proof. destruct m as [[[[] a] x]| |]; simpl; auto. Qed.

Lemma ends_let_mono {A R} (Q Q' : A -> R -> Prop) m : ends_let Q m -> (forall a x, Q a x -> Q' a x) -> ends_let Q' m.
Proof. destruct m as [[[[] a] x]| |]; simpl; auto. Qed.
End Results.

Lemma ends_weaken {R} (s1 s2 : Prop) (f1 f2 : exn -> Prop) (Q : R -> Prop) m :
  ends s1 f1 Q m -> (s1 -> s2) -> (forall e, f1 e -> f2 e) -> ends s2 f2 Q m.
Proof. destruct m as [[[] x]| |]; simpl; auto. Qed.

Lemma ends_let_weaken {A R} (s1 s2 : Prop) (f1 f2 : exn -> Prop) (Q : A -> R -> Prop) m :
  ends_let s1 f1 Q m -> (s1 -> s2) -> (forall e, f1 e -> f2 e) -> ends_let s2 f2 Q m.
Proof. destruct m as [[[[] a] x]| |]; simpl; auto. Qed.

Section Facts.
Context {F : Type} `{MaxSize}.
Variable allow : bool.
Notation reader := (reader (dom F)).
Implicit Types (r : reader) (d : dom F).

(** ** Results

    A call either succeeds in a state of [Q], or fails: by an exception when
    they are allowed, else by its result.  An excessive size is always
    thrown. *)

Definition syntax_error (e : exn) : Prop := e ∈ [parse_error 110; parse_error 112; parse_error 113].

Definition failure (e : exn) : Prop := (allow = true /\ syntax_error e) \/ e = out_of_range 408.

Definition fine {R} (Q : R -> Prop) (m : comp (bool * R)) : Prop := ends (allow = false) failure Q m.
Definition fine_let {A R} (Q : A -> R -> Prop) (m : comp (bool * A * R)) : Prop := ends_let (allow = false) failure Q m.

Lemma fine_mono {R} (Q Q' : R -> Prop) m : fine Q m -> (forall x, Q x -> Q' x) -> fine Q' m.
Proof. apply ends_mono. Qed.

Lemma fine_then {R} (Q Q' : R -> Prop) m k : fine Q m -> (forall x, Q x -> fine Q' (k x)) -> fine Q' (and_then m k).
Proof. apply ends_then. Qed.

Lemma fine_and_let {A R} (Q : A -> R -> Prop) Q' m k :
  fine_let Q m -> (forall a x, Q a x -> fine Q' (k a x)) -> fine Q' (and_let m k).
Proof. apply ends_and_let. Qed.

Lemma fine_and_get {A B R} (Q : A -> R -> Prop) (Q' : B -> R -> Prop) (d : B) (m : comp (bool * A * R)) k :
  fine_let Q m -> (forall a x, Q a x -> fine_let Q' (k a x)) -> fine_let Q' (and_get d m k).
Proof. apply ends_and_get. Qed.

(** A call whose failure is not looked at. *)
Lemma fine_ignored {A R} (Q : A -> R -> Prop) (Q' : R -> Prop) (m : comp (bool * A * R)) k :
  fine_let Q m -> (forall a x, Q a x -> fine Q' (k a x)) ->
  (forall a x, m = Ret (false, a, x) -> fine Q' (k a x)) -> fine Q' (let* '(_, a, x) := m in k a x).
Proof. destruct m as [[[[] a] x]| |]; simpl; auto. Qed.

Lemma fine_let_mono {A R} (Q Q' : A -> R -> Prop) m : fine_let Q m -> (forall a x, Q a x -> Q' a x) -> fine_let Q' m.
Proof. apply ends_let_mono. Qed.

(** ** Readers *)

Definition settled d : Prop := allow_exceptions d = allow.
Definition good r : Prop := Forall is_byte (ia r) /\ settled (sax r).

Lemma good_suffix r r' t : good r -> ia r = t ++ ia r' -> settled (sax r') -> good r'.
Proof. intros [Hb _] E Hs. rewrite E in Hb. apply Forall_app in Hb as [_ Hb]. done. Qed.

Lemma settled_flags d d' : settled d -> same_flags d d' -> settled d'.
Proof. unfold settled. intros ? [? ?]. congruence. Qed.

Lemma good_placed r r' t v : good r -> ia r = t ++ ia r' -> placed (sax r) v (sax r') -> good r'.
Proof. intros Hg E (_ & _ & Hf). eapply good_suffix; [done|done|]. eapply settled_flags; [apply Hg|done]. Qed.

Lemma good_filling r r' t d0 c : good r -> settled d0 -> ia r = t ++ ia r' -> filling d0 c (sax r') -> good r'.
Proof. intros Hg Hs E (_ & _ & _ & Hf). eapply good_suffix; [done|done|]. by eapply settled_flags. Qed.

(** ** Errors *)

Lemma fine_error Q tok e r : settled (sax r) -> syntax_error e -> fine Q (error_at (F:=F) tok e r).
Proof.
  intros Ha He. unfold error_at, event. simpl. unfold dom_parse_error. rewrite Ha.
  destruct allow eqn:E; simpl; [|done]. left. by rewrite E.
Qed.

Lemma fine_error_return Q e r : settled (sax r) -> syntax_error e -> fine Q (error_return (F:=F) e r).
Proof. apply fine_error. Qed.

Lemma syntax_110 : syntax_error (parse_error 110).
Proof. unfold syntax_error. set_solver. Qed.
Lemma syntax_112 : syntax_error (parse_error 112).
Proof. unfold syntax_error. set_solver. Qed.
Lemma syntax_113 : syntax_error (parse_error 113).
Proof. unfold syntax_error. set_solver. Qed.

Lemma fine_eof r : settled (sax r) -> fine (fun r' : reader => r' = r /\ current r <> EOF) (unexpect_eof (F:=F) r).
Proof.
  intros Hs. unfold unexpect_eof. destruct (Z.eqb_spec (current r) EOF) as [E|E]; [|done].
  apply fine_error; [done|apply syntax_110].
Qed.

Lemma unexpect_eof_run r : current r <> EOF -> unexpect_eof (F:=F) r = Ret (true, r).
Proof. intros E. unfold unexpect_eof. by rewrite (proj2 (Z.eqb_neq _ _)). Qed.

(** ** Bytes *)

Lemma get_cons r b q : ia r = b :: q -> get r = mk_reader q b (chars_read r + 1) (sax r).
Proof. intros E. unfold get. by rewrite E. Qed.

Lemma get_cases r : good r ->
  (ia r = [] /\ ia (get r) = [] /\ current (get r) = EOF /\ good (get r) /\ sax (get r) = sax r) \/
  (ia r = current (get r) :: ia (get r) /\ is_byte (current (get r)) /\ good (get r) /\ sax (get r) = sax r).
Proof.
  intros [Hb Hs]. unfold get. destruct (ia r) as [|b q] eqn:E; simpl; [left|right]; unfold good; simpl; [done|].
  by inversion Hb; subst.
Qed.

Lemma byte_not_eof b : is_byte b -> b <> EOF.
Proof. unfold is_byte, EOF. lia. Qed.

(** The bytes [bs] were read, the builder is untouched. *)
Definition consumed r (bs : bytes) r' : Prop := ia r = bs ++ ia r' /\ sax r' = sax r.

Lemma consumed_good r bs r' : good r -> consumed r bs r' -> good r'.
Proof. intros Hg [E Es]. eapply good_suffix; [done|done|]. rewrite Es. apply Hg. Qed.

Lemma consumed_nil r : consumed r [] r.
Proof. done. Qed.

Lemma reads_trans r bs r1 bs' r2 : consumed r bs r1 -> consumed r1 bs' r2 -> consumed r (bs ++ bs') r2.
Proof. intros [E1 E2] [E3 E4]. split; [|congruence]. by rewrite E1, E3, app_assoc. Qed.

Lemma get_to_fine w r : good r ->
  fine_let (fun (bs : bytes) (r' : reader) => consumed r bs r' /\ length bs = w /\ Forall is_byte bs) (get_to (F:=F) w r).
Proof.
  intros [Hb Hs]. unfold get_to. destruct (Nat.ltb_spec (length (take w (ia r))) w) as [Hl|Hl].
  - set (r' := mk_reader _ _ (_ + 1) _).
    pose proof (fine_error (fun _ : reader => False) end_of_file (parse_error 110) r' Hs syntax_110) as Hf.
    destruct (error_at _ _ r') as [[[] ?]| |]; simpl in *; done.
  - simpl. rewrite length_take in *. split_and!; [|lia|by apply Forall_take].
    split; simpl; [by rewrite take_drop|done].
Qed.

Lemma get_number_fine w (le : bool) r : good r ->
  fine_let (fun (n : Z) (r' : reader) => exists bs, consumed r bs r' /\ length bs = w /\ Forall is_byte bs /\
    n = if le then le_number bs else be_number bs) (get_number (F:=F) w le r).
Proof.
  intros Hg. pose proof (get_to_fine w r Hg) as Hf. unfold get_number.
  destruct (get_to w r) as [[[[] bs] r']| |]; simpl in *; try done.
  destruct Hf as (? & ? & ?). by exists bs.
Qed.

(** When the bytes are missing, the input is at its end. *)
Lemma get_number_failed w (le : bool) r a r' : good r -> get_number (F:=F) w le r = Ret (false, a, r') ->
  ia r' = [] /\ good r' /\ (ready (sax r) -> ready (sax r')).
Proof.
  intros [Hb Hs]. unfold get_number, get_to. destruct (Nat.ltb_spec (length (take w (ia r))) w) as [Hl|Hl]; [|done].
  unfold error_at, event. simpl. unfold dom_parse_error. destruct (allow_exceptions (sax r)) eqn:Ha; simpl; [done|].
  intros [= <- <-]. simpl. rewrite length_take in Hl. rewrite drop_ge by lia. split_and!; [done| |done].
  split; [constructor|]. unfold settled in *. simpl. congruence.
Qed.

(** A number in network order. *)
Lemma get_be_fine w r : good r ->
  fine_let (fun (n : Z) (r' : reader) => consumed r (be_bytes w n) r' /\ 0 <= n < 2 ^ (8 * Z.of_nat w)) (get_number (F:=F) w false r).
Proof.
  intros Hg. eapply fine_let_mono; [by apply get_number_fine|].
  intros n r' (bs & Hc & <- & Hb & ->). rewrite be_bytes_number by done. by split; [|apply be_number_range].
Qed.

Lemma get_to_run w r bs q : ia r = bs ++ q -> length bs = w ->
  exists r', get_to (F:=F) w r = Ret (true, bs, r') /\ consumed r bs r' /\ ia r' = q.
Proof.
  intros E <-. unfold get_to. rewrite E, take_app_length, Nat.ltb_irrefl, drop_app_length.
  eexists. split; [done|]. unfold consumed; simpl. by rewrite E.
Qed.

Lemma get_be_run w r n q : ia r = be_bytes w n ++ q -> 0 <= n < 2 ^ (8 * Z.of_nat w) ->
  exists r', get_number (F:=F) w false r = Ret (true, n, r') /\ ia r' = q /\ sax r' = sax r.
Proof.
  intros E Hn. destruct (get_to_run w r _ q E (be_bytes_length _ _)) as (r' & Hg & [_ Hs] & Hq).
  exists r'. unfold get_number. rewrite Hg. simpl. by rewrite be_number_bytes.
Qed.

(** A number in little-endian order. *)
Lemma get_le_fine w r : good r ->
  fine_let (fun (n : Z) (r' : reader) => consumed r (le_bytes w n) r' /\ 0 <= n < 2 ^ (8 * Z.of_nat w)) (get_number (F:=F) w true r).
Proof.
  intros Hg. eapply fine_let_mono; [by apply get_number_fine|].
  intros n r' (bs & Hc & <- & Hb & ->). rewrite le_bytes_number by done. by split; [|apply le_number_range].
Qed.

Lemma get_le_run w r n q : ia r = le_bytes w n ++ q -> 0 <= n < 2 ^ (8 * Z.of_nat w) ->
  exists r', get_number (F:=F) w true r = Ret (true, n, r') /\ ia r' = q /\ sax r' = sax r.
Proof.
  intros E Hn. destruct (get_to_run w r _ q E (le_bytes_length _ _)) as (r' & Hg & [_ Hs] & Hq).
  exists r'. unfold get_number. rewrite Hg. simpl. by rewrite le_number_bytes.
Qed.

Lemma get_bytes_loop_fine fuel : forall len result r, good r -> 0 <= len -> (length (ia r) + 1 <= fuel)%nat ->
  fine_let (fun (s : bytes) (r' : reader) => exists t, s = result ++ t /\ consumed r t r' /\ Z.of_nat (length t) = len)
    (get_bytes_loop (F:=F) fuel len result r).
Proof.
  induction fuel as [|fuel IH]; intros len result r Hg Hlen Hfu; [lia|].
  cbn [get_bytes_loop]. destruct (Z.leb_spec len 0).
  { exists []. rewrite app_nil_r. split_and!; [done|done|simpl; lia]. }
  destruct (get_cases r Hg) as [(E & E1 & E2 & Hg' & Hs)|(E & Hb & Hg' & Hs)].
  - pose proof (fine_eof (get r) (proj2 Hg')) as Hf.
    destruct (unexpect_eof (get r)) as [[[] ?]| |]; simpl in *; naive_solver.
  - rewrite unexpect_eof_run by by apply byte_not_eof. simpl.
    eapply fine_let_mono; [apply IH; [done|lia|]|].
    + rewrite E in Hfu. simpl in Hfu. lia.
    + intros s r' (t & -> & [Et Est] & Hl). rewrite wrapu_small by exact Hb.
      exists (current (get r) :: t). rewrite <- app_assoc. split_and!; [done| |simpl; lia].
      split; [|congruence]. rewrite E. simpl. by rewrite Et.
Qed.

Lemma get_bytes_fine len r : good r -> 0 <= len ->
  fine_let (fun (s : bytes) (r' : reader) => consumed r s r' /\ Z.of_nat (length s) = len) (get_bytes (F:=F) len r).
Proof.
  intros Hg Hl. eapply fine_let_mono; [apply get_bytes_loop_fine; [done|done|lia]|].
  by intros s r' (t & -> & ? & ?).
Qed.

Lemma get_bytes_loop_run fuel : forall s result r q, ia r = s ++ q -> Forall is_byte s -> (length s <= fuel)%nat ->
  exists r', get_bytes_loop (F:=F) fuel (Z.of_nat (length s)) result r = Ret (true, result ++ s, r') /\
    ia r' = q /\ sax r' = sax r.
Proof.
  induction fuel as [|fuel IH]; intros s result r q E Hb Hf.
  { destruct s; simpl in *; [|lia]. exists r. by rewrite app_nil_r. }
  cbn [get_bytes_loop]. destruct s as [|b s]; [exists r; by rewrite app_nil_r|].
  simpl length. rewrite (proj2 (Z.leb_gt _ _)) by lia. inversion Hb as [|? ? Hb0 Hbs]; subst.
  rewrite (get_cons r b (s ++ q) E). rewrite unexpect_eof_run by by apply byte_not_eof. simpl.
  rewrite wrapu_small by exact Hb0. replace (Z.of_nat (Datatypes.S (length s)) - 1) with (Z.of_nat (length s)) by lia.
  simpl in Hf. destruct (IH s (result ++ [b]) (mk_reader (s ++ q) b (chars_read r + 1) (sax r)) q) as (r' & -> & ? & ?);
    [done|done|lia|].
  exists r'. by rewrite <- app_assoc.
Qed.

Lemma get_bytes_run len s r q : ia r = s ++ q -> Forall is_byte s -> len = Z.of_nat (length s) ->
  exists r', get_bytes (F:=F) len r = Ret (true, s, r') /\ ia r' = q /\ sax r' = sax r.
Proof.
  intros E Hb ->. unfold get_bytes. apply (get_bytes_loop_run _ s [] r q); [done|done|].
  rewrite E, length_app. lia.
Qed.

(** ** Events of the builder *)

Lemma event_value_run v r : ready (sax r) ->
  exists r', event (dom_value v) r = Ret (true, r') /\ ia r' = ia r /\ placed (sax r) v (sax r').
Proof.
  intros Hr. unfold event, dom_value. rewrite handle_value_ready by done. simpl. eexists. split; [done|]. by split_and!.
Qed.

Lemma event_value_fine v r : ready (sax r) ->
  fine (fun r' : reader => ia r' = ia r /\ placed (sax r) v (sax r')) (event (dom_value v) r).
Proof. intros Hr. by destruct (event_value_run v r Hr) as (r' & -> & ?). Qed.

Definition too_big (len max : Z) : Prop := len <> unknown_size /\ max < len.

Lemma dom_checked_run len max b d : ~ too_big len max -> dom_checked (F:=F) len max (Ret (b, d)) = Ret (b, d).
Proof.
  intros Hb. unfold dom_checked, too_big in *. simpl. destruct (Z.eqb_spec len unknown_size); [done|].
  rewrite (proj2 (Z.ltb_ge _ _)) by lia. done.
Qed.

Lemma event_start_array_run len r : ready (sax r) -> ~ too_big len array_max_size ->
  exists r', event (sax_start_array_len len) r = Ret (true, r') /\ ia r' = ia r /\
    filling (sax r) (value_array []) (sax r').
Proof.
  intros Hr Hl. destruct (start_filling (sax r) (value_array []) Hr) as (d & Hd & Hf).
  unfold event. simpl. unfold dom_start_array_len, dom_start_array. rewrite Hd, dom_checked_run by done. simpl.
  eexists. by split.
Qed.

Lemma event_start_object_run len r : ready (sax r) -> ~ too_big len object_max_size ->
  exists r', event (sax_start_object_len len) r = Ret (true, r') /\ ia r' = ia r /\
    filling (sax r) (value_object []) (sax r').
Proof.
  intros Hr Hl. destruct (start_filling (sax r) (value_object []) Hr) as (d & Hd & Hf).
  unfold event. simpl. unfold dom_start_object_len, dom_start_object. rewrite Hd, dom_checked_run by done. simpl.
  eexists. by split.
Qed.

Lemma too_big_dec len max : {too_big len max} + {~ too_big len max}.
Proof. unfold too_big. destruct (Z.eq_dec len unknown_size), (Z_lt_ge_dec max len); (left; split; lia) || (right; lia). Qed.

Lemma event_start_array_fine len r : ready (sax r) ->
  fine (fun r' : reader => ia r' = ia r /\ filling (sax r) (value_array []) (sax r') /\ ~ too_big len array_max_size)
    (event (sax_start_array_len len) r).
Proof.
  intros Hr. destruct (too_big_dec len array_max_size) as [[Hn Hm]|Hl].
  - destruct (start_filling (sax r) (value_array []) Hr) as (d & Hd & Hf). unfold event. simpl.
    unfold dom_start_array_len, dom_start_array, dom_checked. rewrite Hd. simpl.
    rewrite (proj2 (Z.eqb_neq _ _)), (proj2 (Z.ltb_lt _ _)) by done. by right.
  - by destruct (event_start_array_run len r Hr Hl) as (r' & -> & ? & ?).
Qed.

Lemma event_start_object_fine len r : ready (sax r) ->
  fine (fun r' : reader => ia r' = ia r /\ filling (sax r) (value_object []) (sax r') /\ ~ too_big len object_max_size)
    (event (sax_start_object_len len) r).
Proof.
  intros Hr. destruct (too_big_dec len object_max_size) as [[Hn Hm]|Hl].
  - destruct (start_filling (sax r) (value_object []) Hr) as (d & Hd & Hf). unfold event. simpl.
    unfold dom_start_object_len, dom_start_object, dom_checked. rewrite Hd. simpl.
    rewrite (proj2 (Z.eqb_neq _ _)), (proj2 (Z.ltb_lt _ _)) by done. by right.
  - by destruct (event_start_object_run len r Hr Hl) as (r' & -> & ? & ?).
Qed.

Lemma event_key_run d0 acc k r : filling d0 (value_object acc) (sax r) -> sorted_object acc ->
  exists r', event (dom_key k) r = Ret (true, r') /\ ia r' = ia r /\ ready (sax r') /\
    (forall v d'', placed (sax r') v d'' -> filling d0 (value_object (object_set acc (k, v))) d'') /\
    same_flags (sax r) (sax r').
Proof.
  intros Hf Hs. destruct (object_key _ _ _ k Hf Hs) as (d & Hd & ? & ?).
  unfold event. rewrite Hd. simpl. eexists. split_and!; [done|done|done|done|]. simpl.
  revert Hd. unfold dom_key. by repeat case_match; intros [= <-].
Qed.

Lemma event_end_run (b : bool) d0 c r : filling d0 c (sax r) -> has_kind b c ->
  exists r', event (if b then dom_end_array else dom_end_object) r = Ret (true, r') /\ ia r' = ia r /\
    placed d0 c (sax r').
Proof.
  intros Hf Hk. destruct (end_filling b _ _ _ Hf Hk) as (d & Hd & ?).
  unfold event. destruct b; simpl in *; rewrite Hd; simpl; eexists; by split.
Qed.

(** ** Reading what a grammar describes *)

(** The first byte of [t] has been read, the rest and [q] are ahead. *)
Definition opened r (t q : bytes) : Prop := exists b, t = current r :: b /\ ia r = b ++ q.

Lemma opened_get r t q c b : ia r = t ++ q -> t = c :: b -> opened (get r) t q /\ sax (get r) = sax r /\ current (get r) = c.
Proof. intros E ->. rewrite (get_cons r c (b ++ q) E). split; [by exists b|done]. Qed.

Lemma opened_app r h t q : h <> [] -> opened r (h ++ t) q -> opened r h (t ++ q).
Proof. intros Hh (b & Eb & Ei). destruct h as [|c h]; [done|]. injection Eb as -> <-. exists h. by rewrite Ei, app_assoc. Qed.

Lemma sized_number_run first n h r q : sized first n h -> opened r h q ->
  exists r', sized_number (F:=F) first r = Ret (true, n, r') /\ ia r' = q /\ sax r' = sax r.
Proof.
  unfold sized_number. destruct 1 as [n Hn|n Hn|n Hn|n Hn]; intros (b & [= Hc <-] & E); rewrite <- Hc; steer;
    by apply get_be_run.
Qed.

Lemma sized_opened_range first n h r q : sized first n h -> opened r h q -> first <= current r <= first + 3.
Proof. intros Hs (b & -> & _). by destruct (sized_length _ _ _ Hs) as (c & b' & [= -> _] & ? & _). Qed.

(** A value was stored, with [q] ahead. *)
Definition stores (m : comp (bool * reader)) d (v : json F) (q : bytes) : Prop :=
  exists r', m = Ret (true, r') /\ ia r' = q /\ placed d v (sax r').

Lemma event_stores v r d q : ia r = q -> sax r = d -> ready d -> stores (event (dom_value v) r) d v q.
Proof. intros <- <- Hr. destruct (event_value_run v r Hr) as (r' & ? & ? & ?). by exists r'. Qed.

(** A result was read, with [q] ahead. *)
Definition gives {A} (m : comp (bool * A * reader)) r (a : A) q : Prop :=
  exists r', m = Ret (true, a, r') /\ ia r' = q /\ sax r' = sax r.

Lemma and_get_gives {A B} (d : B) (m : comp (bool * A * reader)) k r a b q q' : gives m r a q ->
  (forall r', ia r' = q -> sax r' = sax r -> gives (k a r') r b q') -> gives (and_get d m k) r b q'.
Proof. intros (r' & -> & E & S) Hk. by apply Hk. Qed.

Lemma get_bytes_gives s r (r0 : reader) q : ia r = s ++ q -> Forall is_byte s -> sax r = sax r0 ->
  gives (get_bytes (F:=F) (Z.of_nat (length s)) r) r0 s q.
Proof.
  intros E Hb S. destruct (get_bytes_run (Z.of_nat (length s)) s r q E Hb eq_refl) as (r' & ? & ? & ?).
  exists r'. split_and!; [done|done|congruence].
Qed.

Lemma gives_stores {A} (m : comp (bool * A * reader)) k r a v q : gives m r a q -> ready (sax r) ->
  (forall r', k a r' = event (dom_value v) r') -> stores (and_let m k) (sax r) v q.
Proof. intros (r' & -> & E & S) Hr Hk. cbn [and_let comp_bind]. rewrite Hk. by apply event_stores. Qed.

(** What is read is in the grammar. *)

Lemma consumed_get r t r' : ia r = current (get r) :: ia (get r) -> consumed (get r) t r' ->
  sax (get r) = sax r -> consumed r (current (get r) :: t) r'.
Proof. intros E [E1 S1] S. split; [|congruence]. rewrite E. simpl. by rewrite E1. Qed.

Lemma sized_number_fine first r : good r -> first <= current r <= first + 3 ->
  fine_let (fun (n : Z) (r' : reader) => exists b, consumed r b r' /\ sized first n (current r :: b)) (sized_number (F:=F) first r).
Proof.
  intros Hg Hc. unfold sized_number.
  destruct (Z.eqb_spec (current r) first) as [E|E1]; [|destruct (Z.eqb_spec (current r) (first + 1)) as [E|E2];
    [|destruct (Z.eqb_spec (current r) (first + 2)) as [E|E3]; [|assert (current r = first + 3) as E by lia]]];
    rewrite E; (eapply fine_let_mono; [by apply get_be_fine|]); intros n r' [Hcs Hn];
    eexists; (split; [exact Hcs|by constructor]).
Qed.

(** ** Loops over elements

    [Inv] is what holds of the builder after the elements given. *)

Section Loops.
Context {X : Type} (E : X -> bytes -> Prop) (Inv : list X -> dom F -> Prop).
Variable body : reader -> comp (bool * reader).
Variable n : nat.

Definition element_runs (x : X) (t : bytes) : Prop := forall xs r q, Forall is_byte t -> ia r = t ++ q ->
  Inv xs (sax r) -> (length t <= n)%nat ->
  exists r', body r = Ret (true, r') /\ ia r' = q /\ Inv (xs ++ [x]) (sax r').

Definition element_fine : Prop := forall xs r, good r -> Inv xs (sax r) -> (length (ia r) <= n)%nat ->
  fine (fun r' : reader => exists x t, ia r = t ++ ia r' /\ E x t /\ good r' /\ (length (ia r') < length (ia r))%nat /\
    Inv (xs ++ [x]) (sax r')) (body r).

Lemma counted_run l t : texts (fun x t => t <> [] /\ element_runs x t) l t ->
  forall f i xs r q, Forall is_byte t -> ia r = t ++ q -> Inv xs (sax r) -> (length t <= n)%nat -> (length t <= f)%nat ->
  exists r', counted body f i (i + Z.of_nat (length l)) r = Ret (true, r') /\ ia r' = q /\ Inv (xs ++ l) (sax r').
Proof.
  induction 1 as [|x t l ts [Hne Hx] _ IH]; intros f i xs r q Hb Ei HI Hn Hf.
  - exists r. rewrite app_nil_r. split; [|done]. destruct f; cbn [counted length]; rewrite (proj2 (Z.leb_le _ _)) by lia; done.
  - apply Forall_app in Hb as [Hb1 Hb2]. rewrite length_app in Hn, Hf. rewrite <- app_assoc in Ei.
    assert (1 <= length t)%nat by (destruct t; [done|simpl; lia]).
    destruct (Hx xs r _ Hb1 Ei HI) as (r1 & Hr1 & E1 & HI1); [lia|].
    destruct f as [|f]; [lia|]. cbn [counted length]. rewrite (proj2 (Z.leb_gt _ _)) by lia. rewrite Hr1. cbn [and_then comp_bind].
    destruct (IH f (i + 1) (xs ++ [x]) r1 q) as (r2 & Hr2 & E2 & HI2); try done; [lia|lia|].
    exists r2. rewrite <- app_assoc in HI2.
    replace (i + Z.of_nat (Datatypes.S (length l))) with (i + 1 + Z.of_nat (length l)) by lia. done.
Qed.

Lemma counted_fine f : element_fine -> forall i len xs r, good r -> Inv xs (sax r) -> i <= len ->
  (length (ia r) + 1 <= f)%nat -> (length (ia r) <= n)%nat ->
  fine (fun r' : reader => exists l t, ia r = t ++ ia r' /\ texts E l t /\ i + Z.of_nat (length l) = len /\
    Inv (xs ++ l) (sax r')) (counted body f i len r).
Proof.
  intros Hel. induction f as [|f IH]; intros i len xs r Hg HI Hi Hf Hn; [lia|]. cbn [counted].
  destruct (Z.leb_spec len i).
  { exists [], []. rewrite app_nil_r. split_and!; [done|constructor|simpl; lia|done]. }
  eapply fine_then; [by apply (Hel xs)|]. intros r1 (x & t & E1 & Hx & Hg1 & Hl & HI1).
  eapply fine_mono; [apply (IH _ _ _ _ Hg1 HI1); lia|]. intros r' (l & ts & E2 & Hts & Hlen & HI2).
  exists (x :: l), (t ++ ts). rewrite <- app_assoc in HI2. split_and!; [|by constructor|simpl; lia|done].
  by rewrite E1, E2, app_assoc.
Qed.
End Loops.

(** The builder with the elements of an array, or the members of an object. *)
Definition array_inv d0 (l : list (json F)) d : Prop := filling d0 (value_array l) d.
Definition object_inv d0 (ms : list (bytes * json F)) d : Prop := filling d0 (value_object (object_of ms)) d.

Lemma object_of_snoc (ms : list (bytes * json F)) kv : object_of (ms ++ [kv]) = object_set (object_of ms) kv.
Proof. unfold object_of. by rewrite fold_left_app. Qed.

Lemma object_of_is_sorted (ms : list (bytes * json F)) : sorted_object (object_of ms).
Proof.
  induction ms as [|kv ms IH] using rev_ind; [constructor|]. rewrite object_of_snoc. by apply object_set_sorted.
Qed.

Lemma texts_impl {X} (E E' : X -> bytes -> Prop) l t : (forall x t, E x t -> E' x t) -> texts E l t -> texts E' l t.
Proof. intros HE. induction 1; constructor; auto. Qed.

(** ** The whole input

    What may follow the value in strict mode is decided by [next] at the end
    of [sax_parse]. *)

Section Whole.
Variable next : reader -> reader.
Variable tail : bytes -> Prop.

Definition next_reads : Prop := forall r, good r ->
  sax (next r) = sax r /\ (current (next r) = EOF -> tail (ia r)).
Definition next_ends : Prop := forall r, tail (ia r) -> current (next r) = EOF /\ sax (next r) = sax r.

Lemma sax_parse_end_fine strict r : next_reads -> good r ->
  fine (fun r' : reader => sax r' = sax r /\ (strict = true -> tail (ia r))) (sax_parse_end (F:=F) next strict r).
Proof.
  intros Hnext Hg. unfold sax_parse_end. destruct strict; [|done]. cbv zeta. destruct (Hnext r Hg) as [Hs Ht].
  destruct (Z.eqb_spec (current (next r)) EOF) as [E|E]; [by split; auto|].
  apply fine_error_return; [rewrite Hs; apply Hg|apply syntax_110].
Qed.

(** What a reader of a whole document may do: the value of an item at the
    beginning of the input, with a [tail] after it in strict mode; a discarded
    value, where [silent] allows it; or an exception of [failing]. *)
Definition document_ends (silent : Prop) (failing : exn -> Prop) (item : json F -> bytes -> Prop) (strict : bool)
    (i : bytes) (m : comp (json F)) : Prop :=
  match m with
  | Ret j => (exists t q, i = t ++ q /\ item j t /\ (strict = true -> tail q)) \/ (j = value_discarded /\ silent)
  | Throw e => failing e
  | OutOfFuel => False
  end.

Lemma from_binary_ends (silent : Prop) (failing : exn -> Prop) (item : json F -> bytes -> Prop) parse i strict :
  next_reads -> (allow = false -> silent) -> (forall e, failure e -> failing e) -> Forall is_byte i ->
  (forall r, good r -> ready (sax r) -> ia r = i ->
     ends silent failing (fun r' : reader => exists v t, ia r = t ++ ia r' /\ item v t /\ placed (sax r) v (sax r')) (parse r)) ->
  document_ends silent failing item strict i (from_binary next parse i strict allow).
Proof.
  intros Hnext Hsil Hfail Hb Hp. unfold from_binary. set (r0 := mk_reader _ _ _ _).
  assert (good r0) as Hg by done. specialize (Hp r0 Hg I eq_refl).
  assert (ends silent failing (fun r' : reader => exists v t q, i = t ++ q /\ item v t /\ (strict = true -> tail q) /\ root (sax r') = v)
    (and_then (parse r0) (sax_parse_end (F:=F) next strict))) as Hf.
  { eapply ends_then; [exact Hp|]. intros r (v & t & E & Hv & Hpl).
    eapply ends_weaken; [|exact Hsil|exact Hfail].
    eapply fine_mono; [apply sax_parse_end_fine; [done|by eapply good_placed]|].
    intros r' [Es Hst]. exists v, t, (ia r). rewrite Es. split_and!; try done. by destruct Hpl as [-> _]. }
  destruct (and_then _ _) as [[[] r]| |]; simpl in *; try done.
  - left. destruct Hf as (v & t & q & ? & ? & ? & ->). eauto.
  - by right.
Qed.

Lemma from_binary_run parse i q strict v : next_ends ->
  (forall r, ready (sax r) -> ia r = i ++ q -> exists r', parse r = Ret (true, r') /\ ia r' = q /\ placed (sax r) v (sax r')) ->
  (strict = true -> tail q) ->
  from_binary next parse (i ++ q) strict allow = Ret v.
Proof.
  intros Hnext Hp Hq. unfold from_binary. set (r0 := mk_reader _ _ _ _).
  destruct (Hp r0 I eq_refl) as (r' & -> & E & Hpl & _). simpl.
  assert (exists r2, sax_parse_end (F:=F) next strict r' = Ret (true, r2) /\ sax r2 = sax r') as (r2 & -> & Es).
  { unfold sax_parse_end. destruct strict; [|eauto]. destruct (Hnext r') as [Ec Es]; [rewrite E; by apply Hq|].
    cbv zeta. rewrite Ec. simpl. eauto. }
  simpl. by rewrite Es, Hpl.
Qed.
End Whole.

Definition no_bytes (q : bytes) : Prop := q = [].
Definition document : (json F -> bytes -> Prop) -> bool -> bytes -> comp (json F) -> Prop :=
  document_ends no_bytes (allow = false) failure.

Lemma get_reads : next_reads get no_bytes.
Proof.
  intros r Hg. destruct (get_cases r Hg) as [(E & _ & _ & _ & Hs)|(E & Hb & _ & Hs)]; split; try done.
  intros Ec. by apply byte_not_eof in Hb.
Qed.

Lemma get_ends : next_ends get no_bytes.
Proof. intros r E. unfold get. by rewrite E. Qed.

Lemma from_binary_fine (item : json F -> bytes -> Prop) parse i strict : Forall is_byte i ->
  (forall r, good r -> ready (sax r) -> ia r = i ->
     fine (fun r' : reader => exists v t, ia r = t ++ ia r' /\ item v t /\ placed (sax r) v (sax r')) (parse r)) ->
  document item strict i (from_binary get parse i strict allow).
Proof. apply from_binary_ends; [apply get_reads|done|done]. Qed.

(** Without anything after the value. *)
Lemma from_binary_all next parse i strict v :
  next_ends next no_bytes ->
  (forall r, ready (sax r) -> ia r = i -> exists r', parse r = Ret (true, r') /\ ia r' = [] /\ placed (sax r) v (sax r')) ->
  from_binary next parse i strict allow = Ret v.
Proof.
  intros Hnext Hp. rewrite <- (app_nil_r i). apply (from_binary_run next no_bytes); [done| |done].
  intros r Hr E. rewrite app_nil_r in E. by apply Hp.
Qed.
End Facts.
