(* ===== verification/Cbor.v ===== *)
(** CBOR: the reader and the writer of [src/libephmem/json.hpp]
    ([parse_cbor_internal], [get_cbor_string], [get_cbor_binary],
    [get_cbor_array], [get_cbor_object]; [write_cbor]).

    A byte that opens an item has its type in the three high bits; a [switch]
    over the 256 bytes is written here as the ranges of its labels. *)
From S2P Require Import Prelude Utf8 JsonValue JsonCompare JsonLexer JsonParser BinaryReader.

Inductive cbor_tag_handler_t := tag_error | tag_ignore | tag_store.

Section Reader.
Context {F S : Type} `{BinarySax F S} `{FloatBits F}.
Notation reader := (reader S).
Implicit Types (r : reader).

(** ** Strings and byte arrays *)

(** [while (get() != 0xFF)] of the indefinite strings. *)
Fixpoint cbor_chunks (chunk : reader -> comp (bool * bytes * reader)) (fuel : nat) (result : bytes) r
    : comp (bool * bytes * reader) :=
  match fuel with
  | O => OutOfFuel
  | Datatypes.S fuel =>
      let r := get r in
      if current r =? 0xFF then Ret (true, result, r)
      else
        let* '(b, s, r) := chunk r in
        if b then cbor_chunks chunk fuel (result ++ s) r else Ret (false, result, r)
  end.

(** [get_cbor_string] is this function with [base] 0x60, [get_cbor_binary]
    with 0x40. *)
Fixpoint get_cbor_chunked (base : Z) (fuel : nat) r : comp (bool * bytes * reader) :=
  match fuel with
  | O => OutOfFuel
  | Datatypes.S fuel =>
      let* '(b, r) := unexpect_eof r in
      if negb b then Ret (false, [], r)
      else
        let c := current r in
        if in_range base (base + 0x17) c then get_bytes (Z.land c 0x1F) r
        else if in_range (base + 0x18) (base + 0x1B) c then
          let* '(b, len, r) := sized_number (base + 0x18) r in
          if b then get_bytes len r else Ret (false, [], r)
        else if c =? base + 0x1F then cbor_chunks (get_cbor_chunked base fuel) fuel [] r
        else let* '(b, r) := error_return (parse_error 113) r in Ret (b, [], r)
  end.

Definition get_cbor_string : nat -> reader -> comp (bool * bytes * reader) := get_cbor_chunked 0x60.
Definition get_cbor_binary : nat -> reader -> comp (bool * bytes * reader) := get_cbor_chunked 0x40.

(** ** Arrays and objects

    [parse] is [parse_cbor_internal], with its argument [get_char]. *)

(** [while (get() != 0xFF)]; [body] finds the byte read. *)
Fixpoint until_break (body : reader -> comp (bool * reader)) (fuel : nat) r : comp (bool * reader) :=
  match fuel with
  | O => OutOfFuel
  | Datatypes.S fuel =>
      let r := get r in
      if current r =? 0xFF then Ret (true, r) else and_then (body r) (until_break body fuel)
  end.

Definition get_cbor_array (parse : bool -> reader -> comp (bool * reader)) (fuel : nat) (len : Z) r
    : comp (bool * reader) :=
  and_then (event (sax_start_array_len len) r) (fun r =>
  and_then (if negb (len =? unknown_size) then counted (parse true) fuel 0 len r
            else until_break (parse false) fuel r)
  (event sax_end_array)).

(** One member; the first byte of the key has been read. *)
Definition cbor_member (parse : bool -> reader -> comp (bool * reader)) (fuel : nat) r : comp (bool * reader) :=
  and_let (get_cbor_string fuel r) (fun key r =>
  and_then (event (sax_key key) r) (parse true)).

Definition get_cbor_object (parse : bool -> reader -> comp (bool * reader)) (fuel : nat) (len : Z) r
    : comp (bool * reader) :=
  and_then (event (sax_start_object_len len) r) (fun r =>
  and_then
    (if negb (len =? 0) then
       if negb (len =? unknown_size) then counted (fun r => cbor_member parse fuel (get r)) fuel 0 len r
       else until_break (cbor_member parse fuel) fuel r
     else Ret (true, r))
  (event sax_end_object)).

(** ** Tags, floating-point numbers, items *)

Definition cbor_binary_event (fuel : nat) (subtype : option Z) r : comp (bool * reader) :=
  and_let (get_cbor_binary fuel r) (fun b r => event (sax_binary b subtype) r).

(** Labels 0xC6 to 0xD4 and 0xD8 to 0xDB; the result of [get_number] is not
    looked at. *)
Definition cbor_tag (parse : bool -> reader -> comp (bool * reader)) (fuel : nat) (tag_handler : cbor_tag_handler_t) r
    : comp (bool * reader) :=
  match tag_handler with
  | tag_error => error_return (parse_error 112) r
  | tag_ignore =>
      if in_range 0xD8 0xDB (current r) then
        let* '(_, _, r) := sized_number 0xD8 r in parse true r
      else parse true r
  | tag_store =>
      if in_range 0xD8 0xDB (current r) then
        let* '(_, subtype, r) := sized_number 0xD8 r in
        cbor_binary_event fuel (Some subtype) (get r)
      else parse true r
  end.

Definition cbor_half r : comp (bool * reader) :=
  let r := get r in
  let byte1 := current r in
  and_then (unexpect_eof r) (fun r =>
  let r := get r in
  let byte2 := current r in
  and_then (unexpect_eof r)
  (event (sax_number_float (half_value (wrapu 8 byte1) (wrapu 8 byte2)) []))).

Definition cbor_negative (n : Z) : Z := to_signed 64 (-1 - to_signed 64 n).

(** Arrays, maps: the labels that give the number of elements. *)
Definition cbor_container (base : Z) (build : Z -> reader -> comp (bool * reader)) r : comp (bool * reader) :=
  let c := current r in
  if in_range base (base + 0x17) c then build (Z.land c 0x1F) r
  else if in_range (base + 0x18) (base + 0x1B) c then and_let (sized_number (base + 0x18) r) build
  else build unknown_size r.

(** Labels 0xF4 to 0xFB, and the bytes that open nothing. *)
Definition cbor_simple r : comp (bool * reader) :=
  let c := current r in
  if c =? 0xF4 then event (sax_boolean false) r
  else if c =? 0xF5 then event (sax_boolean true) r
  else if c =? 0xF6 then event sax_null r
  else if c =? 0xF9 then cbor_half r
  else if c =? 0xFA then
    and_let (get_number 4 false r) (fun n => event (sax_number_float (of_bits32 n) []))
  else if c =? 0xFB then
    and_let (get_number 8 false r) (fun n => event (sax_number_float (of_bits64 n) []))
  else error_return (parse_error 112) r.

(** The [switch] of [parse_cbor_internal]. *)
Definition cbor_item (parse : bool -> reader -> comp (bool * reader)) (fuel : nat) (tag_handler : cbor_tag_handler_t) r
    : comp (bool * reader) :=
  let c := current r in
  if c =? EOF then unexpect_eof r
  else if in_range 0x00 0x17 c then event (sax_number_unsigned c) r
  else if in_range 0x18 0x1B c then and_let (sized_number 0x18 r) (fun n => event (sax_number_unsigned n))
  else if in_range 0x20 0x37 c then event (sax_number_integer (to_signed 8 (0x20 - 1 - c))) r
  else if in_range 0x38 0x3B c then
    and_let (sized_number 0x38 r) (fun n => event (sax_number_integer (cbor_negative n)))
  else if in_range 0x40 0x5B c || (c =? 0x5F) then cbor_binary_event fuel None r
  else if in_range 0x60 0x7B c || (c =? 0x7F) then
    and_let (get_cbor_string fuel r) (fun s => event (sax_string s))
  else if in_range 0x80 0x9B c || (c =? 0x9F) then cbor_container 0x80 (get_cbor_array parse fuel) r
  else if in_range 0xA0 0xBB c || (c =? 0xBF) then cbor_container 0xA0 (get_cbor_object parse fuel) r
  else if in_range 0xC6 0xD4 c || in_range 0xD8 0xDB c then cbor_tag parse fuel tag_handler r
  else cbor_simple r.

Fixpoint parse_cbor_internal (fuel : nat) (tag_handler : cbor_tag_handler_t) (get_char : bool) r : comp (bool * reader) :=
  match fuel with
  | O => OutOfFuel
  | Datatypes.S fuel =>
      cbor_item (parse_cbor_internal fuel tag_handler) fuel tag_handler (if get_char then get r else r)
  end.
End Reader.

(** [from_cbor] *)
Definition from_cbor {F} `{FloatBits F, MaxSize} (i : bytes) (strict allow_exceptions : bool)
    (tag_handler : cbor_tag_handler_t) : comp (json F) :=
  from_binary get (parse_cbor_internal (length i + 2) tag_handler true) i strict allow_exceptions.

(** ** The writer *)

Section Writer.
Context {F : Type} `{FloatCompare F, FloatBits F}.

(** The least width of 1, 2, 4 or 8 bytes for [n], and [n]. *)
Definition write_sized (first n : Z) : bytes :=
  if n <=? 0xFF then [first] ++ write_number 1 false n
  else if n <=? 0xFFFF then [first + 1] ++ write_number 2 false n
  else if n <=? 0xFFFFFFFF then [first + 2] ++ write_number 4 false n
  else [first + 3] ++ write_number 8 false n.

(** The control byte with a number or a size. *)
Definition write_head (base n : Z) : bytes :=
  if n <=? 0x17 then write_number 1 false (base + n) else write_sized (base + 0x18) n.

Definition write_cbor_integer (z : Z) : bytes :=
  if 0 <=? z then write_head 0x00 z
  else let positive_number := -1 - z in write_head 0x20 positive_number.

Definition write_cbor_float (f : F) : bytes :=
  if isnan f then [0xF9; 0x7E; 0x00]
  else if isinf f then [0xF9; if float_positive f then 0x7C else 0xFC; 0x00]
  else write_compact_float 0xFA 0xFB f.

Definition write_cbor_string (s : bytes) : bytes := write_head 0x60 (Z.of_nat (length s)) ++ s.

Definition write_cbor_binary (b : bytes) (subtype : option Z) : bytes :=
  match subtype with Some t => write_sized 0xD8 t | None => [] end ++
  write_head 0x40 (Z.of_nat (length b)) ++ b.

Fixpoint write_cbor (j : json F) : bytes :=
  match j with
  | value_null => [0xF6]
  | value_boolean b => if b then [0xF5] else [0xF4]
  | value_number_integer z => write_cbor_integer z
  | value_number_unsigned n => write_head 0x00 n
  | value_number_float f => write_cbor_float f
  | value_string s => write_cbor_string s
  | value_array l => write_head 0x80 (Z.of_nat (length l)) ++ flat_map write_cbor l
  | value_binary b t => write_cbor_binary b t
  | value_object m =>
      write_head 0xA0 (Z.of_nat (length m)) ++ flat_map (fun el => write_cbor_string el.1 ++ write_cbor el.2) m
  | value_discarded => []
  end.

(** [to_cbor] into a new vector. *)
Definition to_cbor (j : json F) : bytes := write_cbor j.
End Writer.
