(* ===== verification/CborGrammar.v ===== *)
(** CBOR data items with their values, as the specification of the reader
    and the writer of [Cbor]: an inductive relation after RFC 8949, for the
    items the library knows.

    It departs from the RFC where the library does: a negative integer below
    -2^63 wraps around, a chunk of an indefinite string may be indefinite
    itself, the number of elements 2^64 - 1 means that it is not known, and
    tags are treated as the tag handler says. *)
From S2P Require Import Prelude JsonValue JsonGrammar BinaryReader BinaryReaderFacts Cbor.

(** The head of an item of type [base], with its argument; any width that
    holds the argument is accepted. *)
Inductive head (base : Z) : Z -> bytes -> Prop :=
  | head_small n : 0 <= n < 24 -> head base n [base + n]
  | head_sized n h : sized (base + 0x18) n h -> head base n h.

(** Strings and byte arrays. *)
Inductive chunked (base : Z) : bytes -> bytes -> Prop :=
  | chunked_definite s h : head base (Z.of_nat (length s)) h -> chunked base s (h ++ s)
  | chunked_indefinite s t : chunks base s t -> chunked base s ((base + 0x1F) :: t ++ [0xFF])
with chunks (base : Z) : bytes -> bytes -> Prop :=
  | chunks_nil : chunks base [] []
  | chunks_cons s1 t1 s2 t2 : chunked base s1 t1 -> chunks base s2 t2 -> chunks base (s1 ++ s2) (t1 ++ t2).

(** The start of an array or a map whose size is not told. *)
Definition indefinite (base : Z) (h : bytes) : Prop := h = [base + 0x1F] \/ head base unknown_size h.

Section Grammar.
Context {F : Type} `{FloatBits F, MaxSize}.
Variable tag_handler : cbor_tag_handler_t.

(** A half-precision number with sign bit [s], exponent [e], significand [m]. *)
Definition half_number (s : bool) (e m : Z) : F :=
  let val :=
    if e =? 0 then ldexp m (-24)
    else if e =? 31 then if m =? 0 then infinity else quiet_NaN
    else ldexp (m + 1024) (e - 25) in
  if s then float_neg val else val.

Inductive item : json F -> bytes -> Prop :=
  | item_unsigned n h : head 0x00 n h -> item (value_number_unsigned n) h
  | item_negative n h : head 0x20 n h -> item (value_number_integer (to_signed 64 (-1 - n))) h
  | item_binary s t : chunked 0x40 s t -> item (value_binary s None) t
  | item_string s t : chunked 0x60 s t -> item (value_string s) t
  | item_array l h t : head 0x80 (Z.of_nat (length l)) h -> Z.of_nat (length l) <> unknown_size ->
      Z.of_nat (length l) <= array_max_size -> items l t -> item (value_array l) (h ++ t)
  | item_array_indefinite l h t : indefinite 0x80 h -> items l t -> item (value_array l) (h ++ t ++ [0xFF])
  | item_object ms h t : head 0xA0 (Z.of_nat (length ms)) h -> Z.of_nat (length ms) <> unknown_size ->
      Z.of_nat (length ms) <= object_max_size -> members ms t -> item (value_object (object_of ms)) (h ++ t)
  | item_object_indefinite ms h t : indefinite 0xA0 h -> members ms t ->
      item (value_object (object_of ms)) (h ++ t ++ [0xFF])
  | item_small_tag c v t : tag_handler <> tag_error -> 0xC6 <= c <= 0xD4 -> item v t -> item v (c :: t)
  | item_ignored_tag n h v t : tag_handler = tag_ignore -> sized 0xD8 n h -> item v t -> item v (h ++ t)
  | item_stored_tag n h s t : tag_handler = tag_store -> sized 0xD8 n h -> chunked 0x40 s t ->
      item (value_binary s (Some n)) (h ++ t)
  | item_false : item (value_boolean false) [0xF4]
  | item_true : item (value_boolean true) [0xF5]
  | item_null : item value_null [0xF6]
  | item_half (s : bool) e m : 0 <= e < 32 -> 0 <= m < 1024 ->
      item (value_number_float (half_number s e m))
        (0xF9 :: be_bytes 2 ((if s then 1 else 0) * 2 ^ 15 + e * 2 ^ 10 + m))
  | item_single n : 0 <= n < 2 ^ 32 -> item (value_number_float (of_bits32 n)) (0xFA :: be_bytes 4 n)
  | item_double n : 0 <= n < 2 ^ 64 -> item (value_number_float (of_bits64 n)) (0xFB :: be_bytes 8 n)
with items : list (json F) -> bytes -> Prop :=
  | items_nil : items [] []
  | items_cons v t l ts : item v t -> items l ts -> items (v :: l) (t ++ ts)
with members : list (bytes * json F) -> bytes -> Prop :=
  | members_nil : members [] []
  | members_cons k tk v t ms ts : chunked 0x60 k tk -> item v t -> members ms ts ->
      members ((k, v) :: ms) (tk ++ t ++ ts).

(** The text of one member. *)
Definition member (kv : bytes * json F) (t : bytes) : Prop :=
  exists tk tv, t = tk ++ tv /\ chunked 0x60 kv.1 tk /\ item kv.2 tv.

Lemma texts_items l t : texts item l t -> items l t.
Proof. induction 1; by constructor. Qed.

Lemma texts_members ms t : texts member ms t -> members ms t.
Proof.
  induction 1 as [|[k v] t ms ts (tk & tv & -> & Hk & Hv) _ IH]; [constructor|].
  rewrite <- app_assoc. by constructor.
Qed.
End Grammar.

Scheme chunked_mind := Induction for chunked Sort Prop
  with chunks_mind := Induction for chunks Sort Prop.
Combined Scheme chunked_ind2 from chunked_mind, chunks_mind.

Scheme item_mind := Induction for item Sort Prop
  with items_mind := Induction for items Sort Prop
  with members_mind := Induction for members Sort Prop.
Combined Scheme cbor_ind from item_mind, items_mind, members_mind.

(** ** Facts *)

Lemma head_first base n h : head base n h -> exists c b, h = c :: b /\ base <= c <= base + 0x1B.
Proof.
  destruct 1 as [n Hn|n h Hs]; [by exists (base + n), []; split; [|lia]|].
  destruct (sized_length _ _ _ Hs) as (c & b & -> & Hc & _). exists c, b. split; [done|lia].
Qed.

Lemma chunked_first base s t : chunked base s t -> exists c b, t = c :: b /\ base <= c <= base + 0x1F.
Proof.
  destruct 1 as [s h Hh|s t _]; [|do 2 eexists; split; [reflexivity|lia]].
  destruct (head_first _ _ _ Hh) as (c & b & -> & Hc). exists c, (b ++ s). split; [done|lia].
Qed.

Section First.
Context {F : Type} `{FloatBits F, MaxSize}.

Lemma item_first tag_handler (v : json F) t : item tag_handler v t -> exists c b, t = c :: b /\ 0 <= c < 0xFF.
Proof.
  assert (forall base n h t, head base n h -> 0 <= base <= 0xA0 -> exists c b, h ++ t = c :: b /\ 0 <= c < 0xFF) as Hh.
  { intros base n h t' Hh Hb. destruct (head_first _ _ _ Hh) as (c & b & -> & Hc). exists c, (b ++ t'). split; [done|lia]. }
  assert (forall base s t', chunked base s t' -> 0 <= base <= 0xA0 -> exists c b, t' = c :: b /\ 0 <= c < 0xFF) as Hc.
  { intros base s t' Hh' Hb. destruct (chunked_first _ _ _ Hh') as (c & b & -> & Hc). exists c, b. split; [done|lia]. }
  assert (forall base h t, indefinite base h -> 0 <= base <= 0xA0 -> exists c b, h ++ t = c :: b /\ 0 <= c < 0xFF) as Hi.
  { intros base h t' [->|Hi] Hb; [|eauto]. exists (base + 0x1F), t'. split; [done|lia]. }
  assert (forall n h t, sized 0xD8 n h -> exists c b, h ++ t = c :: b /\ 0 <= c < 0xFF) as Hs.
  { intros n h t' Hs. destruct (sized_length _ _ _ Hs) as (c & b & -> & Hc' & _). exists c, (b ++ t'). split; [done|lia]. }
  destruct 1; first
    [ do 2 eexists; split; [reflexivity|lia] | eapply Hs; eassumption | eapply Hh; [eassumption|lia]
    | eapply Hc; [eassumption|lia] | eapply Hi; [eassumption|lia]
    | rewrite <- (app_nil_r h); eapply Hh; [eassumption|lia] ].
Qed.
End First.
