(* ===== verification/CborFacts.v ===== *)
(** The CBOR reader and the grammar: every item of [CborGrammar] is read,
    with its value ([_run]); and whatever is read is an item ([_fine]). *)
From S2P Require Import Prelude Utf8 JsonValue JsonGrammar JsonLexer JsonParser JsonParserFacts JsonParserComplete.
From S2P Require Import BinaryReader BinaryReaderFacts Cbor CborGrammar.

(** The bases of the heads with an argument in the low bits. *)
Definition base5 (base : Z) : Prop := base ∈ [0x00; 0x20; 0x40; 0x60; 0x80; 0xA0].

Lemma base5_range base : base5 base -> 0 <= base <= 0xA0.
Proof. unfold base5. intros Hb. repeat (apply elem_of_cons in Hb as [->|Hb]; [lia|]). by apply elem_of_nil in Hb. Qed.

Lemma land_low5 base c : base5 base -> base <= c <= base + 0x17 -> Z.land c 0x1F = c - base.
Proof.
  intros Hb Hc. change 0x1F with (Z.ones 5). rewrite Z.land_ones by lia. change (2 ^ 5) with 32.
  unfold base5 in Hb. repeat (apply elem_of_cons in Hb as [->|Hb]; [dlia|]). by apply elem_of_nil in Hb.
Qed.

Section Facts.
Context {F : Type} `{FloatBits F, MaxSize}.
Variable allow : bool.
Notation reader := (reader (dom F)).
Implicit Types (r : reader) (d : dom F) (v : json F) (t q s : bytes).
Notation fine := (fine allow).
Notation fine_let := (fine_let allow).
Notation good := (good allow).

(** ** Reading what the grammar describes *)

Lemma chunked_run base : base5 base -> Forall is_byte [] ->
  (forall s t, chunked base s t -> forall fuel r q, Forall is_byte t -> opened r t q -> (length t <= fuel)%nat ->
    exists r', get_cbor_chunked base fuel r = Ret (true, s, r') /\ ia r' = q /\ sax r' = sax r) /\
  (forall s t, chunks base s t -> forall fuel f acc r q, Forall is_byte t -> ia r = t ++ [0xFF] ++ q ->
    (length t <= fuel)%nat -> (length t < f)%nat ->
    exists r', cbor_chunks (get_cbor_chunked base fuel) f acc r = Ret (true, acc ++ s, r') /\ ia r' = q /\ sax r' = sax r).
Proof.
  intros Hb _. pose proof (base5_range _ Hb) as Hbr. apply chunked_ind2.
  - intros s h Hh fuel r q Hby Ho Hf. apply Forall_app in Hby as [_ Hs].
    destruct Ho as (b & Eb & Ei). rewrite Eb in Hf.
    destruct fuel as [|fuel]; simpl in Hf; [lia|]. cbn [get_cbor_chunked].
    remember (Z.of_nat (length s)) as n eqn:En. destruct Hh as [n Hn|n h Hsz].
    + injection Eb as Hc <-. rewrite unexpect_eof_run by (unfold EOF; lia). cbn [comp_bind negb]. cbv iota zeta.
      steer. rewrite (land_low5 base) by (done || lia). apply get_bytes_run; [done|done|lia].
    + destruct (sized_length _ _ _ Hsz) as (c & hb & -> & Hc & _). injection Eb as Hc0 Eb.
      rewrite unexpect_eof_run by (unfold EOF; lia). cbn [comp_bind negb]. cbv iota zeta. steer.
      destruct (sized_number_run (base + 0x18) n (c :: hb) r (s ++ q) Hsz) as (r1 & -> & E1 & S1).
      { exists hb. rewrite Hc0. split; [done|]. by rewrite Ei, <- Eb, <- app_assoc. }
      cbn [comp_bind]. cbv iota.
      destruct (get_bytes_run n s r1 q E1 Hs En) as (r2 & -> & E2 & S2). exists r2. split_and!; congruence.
  - intros s t _ IH fuel r q Hby Ho Hf. destruct Ho as (b & [= Hc <-] & Ei).
    destruct fuel as [|fuel]; simpl in Hf; [lia|]. cbn [get_cbor_chunked].
    rewrite unexpect_eof_run by (unfold EOF; lia). cbn [comp_bind negb]. cbv iota zeta. steer.
    inversion Hby as [|? ? _ Hby']; subst. apply Forall_app in Hby' as [Ht _].
    rewrite length_app in Hf. simpl in Hf. rewrite <- app_assoc in Ei.
    destruct (IH fuel fuel [] r q Ht Ei) as (r' & -> & ? & ?); [lia|lia|]. by exists r'.
  - intros fuel f acc r q _ E _ Hf. destruct f as [|f]; [simpl in Hf; lia|]. cbn [cbor_chunks].
    rewrite (get_cons r 0xFF q E). simpl. rewrite app_nil_r. by eexists.
  - intros s1 t1 s2 t2 Hc IH1 _ IH2 fuel f acc r q Hby E Hf Hf2. apply Forall_app in Hby as [Hb1 Hb2].
    rewrite <- app_assoc in E. rewrite length_app in Hf, Hf2.
    destruct (chunked_first _ _ _ Hc) as (c & b & Et & Hc1).
    destruct (opened_get r t1 _ c b E Et) as (Ho & Hs & Hcur).
    destruct f as [|f]; [lia|]. cbn [cbor_chunks]. cbv zeta. rewrite Hcur. steer.
    destruct (IH1 fuel (get r) _ Hb1 Ho) as (r1 & -> & E1 & S1); [lia|]. cbn [comp_bind]. cbv iota.
    destruct (IH2 fuel f (acc ++ s1) r1 q Hb2 E1) as (r2 & -> & E2 & S2); [lia|subst; simpl in *; lia|].
    exists r2. rewrite <- app_assoc. split_and!; congruence.
Qed.

(** ** Items *)

Variable tag_handler : cbor_tag_handler_t.
Notation parse fuel := (parse_cbor_internal (F:=F) (S:=dom F) fuel tag_handler).

Definition item_runs v t : Prop := forall fuel r q, Forall is_byte t -> opened r t q -> ready (sax r) ->
  (length t <= fuel)%nat -> stores (cbor_item (parse fuel) fuel tag_handler r) (sax r) v q.

Definition reads v t : Prop := forall fuel r q, Forall is_byte t -> ia r = t ++ q -> ready (sax r) ->
  (length t < fuel)%nat -> stores (parse fuel true r) (sax r) v q.

Lemma parse_get fuel r : parse fuel true r = parse fuel false (get r).
Proof. by destruct fuel. Qed.

Lemma item_reads v t : item tag_handler v t -> item_runs v t -> reads v t.
Proof.
  intros Hi Hr fuel r q Hby E Hrd Hf. destruct (item_first _ _ _ Hi) as (c & b & Et & _).
  destruct (opened_get r t q c b E Et) as (Ho & Hs & _).
  destruct fuel as [|fuel]; [lia|]. cbn [parse_cbor_internal]. cbv iota. rewrite <- Hs. apply Hr; [done|done|congruence|lia].
Qed.

Lemma head_opened base n h r q : head base n h -> opened r h q -> base5 base ->
  (base <= current r <= base + 0x17 /\ Z.land (current r) 0x1F = n /\ ia r = q) \/
  (base + 0x18 <= current r <= base + 0x1B /\
   exists r', sized_number (base + 0x18) r = Ret (true, n, r') /\ ia r' = q /\ sax r' = sax r).
Proof.
  intros Hh (b & Eb & Ei) Hb. destruct Hh as [n Hn|n h Hs].
  - left. injection Eb as Hc <-. rewrite (land_low5 base) by (done || lia). split_and!; [lia|lia|lia|done].
  - right. assert (opened r h q) as Ho by by exists b.
    pose proof (sized_opened_range _ _ _ _ _ Hs Ho). split; [lia|]. by eapply sized_number_run.
Qed.

(** Scalars with a head. *)
Lemma unsigned_runs n h : head 0x00 n h -> item_runs (value_number_unsigned n) h.
Proof.
  intros Hh fuel r q Hby Ho Hr _. unfold cbor_item, cbor_simple.
  assert (base5 0x00) as Hb by (unfold base5; set_solver).
  destruct (head_opened _ _ _ _ _ Hh Ho Hb) as [(Hc & <- & E)|(Hc & r' & E & Eq & Es)]; steer.
  - rewrite (land_low5 0x00), Z.sub_0_r by (done || lia). by apply event_stores.
  - change 0x18 with (0x00 + 0x18). rewrite E. by apply event_stores.
Qed.

Lemma cbor_negative_eq n : 0 <= n < 2 ^ 64 -> cbor_negative n = to_signed 64 (-1 - n).
Proof.
  intros Hn. unfold cbor_negative, to_signed, wrapu. rewrite (Z.mod_small n) by done.
  destruct (Z.ltb_spec n (2 ^ (64 - 1))); [done|].
  replace ((-1 - (n - 2 ^ 64)) mod 2 ^ 64) with ((-1 - n) mod 2 ^ 64); [done|].
  replace (-1 - (n - 2 ^ 64)) with (-1 - n + 1 * 2 ^ 64) by lia. by rewrite Z.mod_add by lia.
Qed.

Lemma head_range base n h : head base n h -> 0 <= n < 2 ^ 64.
Proof. destruct 1; [lia|by eapply sized_range]. Qed.

Lemma negative_runs n h : head 0x20 n h -> item_runs (value_number_integer (to_signed 64 (-1 - n))) h.
Proof.
  intros Hh fuel r q Hby Ho Hr _. unfold cbor_item, cbor_simple.
  assert (base5 0x20) as Hb by (unfold base5; set_solver). pose proof (head_range _ _ _ Hh).
  destruct (head_opened _ _ _ _ _ Hh Ho Hb) as [(Hc & <- & E)|(Hc & r' & E & Eq & Es)]; steer.
  - rewrite (land_low5 0x20) by (done || lia). rewrite !to_signed_small by lia.
    replace (-1 - (current r - 0x20)) with (0x20 - 1 - current r) by lia. by apply event_stores.
  - change 0x38 with (0x20 + 0x18). rewrite E. cbn [and_let comp_bind]. rewrite cbor_negative_eq by done.
    by apply event_stores.
Qed.

Lemma chunked_stores base s t fuel r q k v : base5 base -> chunked base s t -> Forall is_byte t -> opened r t q ->
  (length t <= fuel)%nat -> ready (sax r) -> (forall r', k s r' = event (dom_value v) r') ->
  stores (and_let (get_cbor_chunked base fuel r) k) (sax r) v q.
Proof.
  intros Hb Hc Hby Ho Hf Hr Hk. destruct (chunked_run base Hb (Forall_nil_2 _)) as [Hrun _].
  destruct (Hrun s t Hc fuel r q Hby Ho Hf) as (r' & -> & E & Es). cbn [and_let comp_bind]. rewrite Hk.
  by apply event_stores.
Qed.

Lemma chunked_opened base s t r q : chunked base s t -> opened r t q ->
  base <= current r <= base + 0x1B \/ current r = base + 0x1F.
Proof.
  intros Hc (b & Eb & _). destruct Hc as [s h Hh|s t _].
  - destruct (head_first _ _ _ Hh) as (c & b' & -> & ?). injection Eb as <- _. by left.
  - injection Eb as <- _. by right.
Qed.

Lemma binary_runs s t : chunked 0x40 s t -> item_runs (value_binary s None) t.
Proof.
  intros Hc fuel r q Hby Ho Hr Hf. unfold cbor_item, cbor_simple.
  destruct (chunked_opened _ _ _ _ _ Hc Ho); steer; rewrite ?orb_true_r;
    (eapply (chunked_stores 0x40); try done; unfold base5; set_solver).
Qed.

Lemma string_runs s t : chunked 0x60 s t -> item_runs (value_string s) t.
Proof.
  intros Hc fuel r q Hby Ho Hr Hf. unfold cbor_item, cbor_simple.
  destruct (chunked_opened _ _ _ _ _ Hc Ho); steer; rewrite ?orb_true_r;
    (eapply (chunked_stores 0x60); try done; unfold base5; set_solver).
Qed.

(** ** Arrays and objects *)

Section Loops.
Context {X : Type} (Inv : list X -> dom F -> Prop).
Variable body : reader -> comp (bool * reader).
Variable n : nat.

(** The elements end with the break byte; none begins with it. *)
Definition unbroken (t : bytes) : Prop := exists c b, t = c :: b /\ c <> 0xFF.

Lemma until_break_run (l : list X) t : texts (fun x t => unbroken t /\ element_runs Inv (fun r => body (get r)) n x t) l t ->
  forall f xs r q, Forall is_byte t -> ia r = t ++ [0xFF] ++ q -> Inv xs (sax r) -> (length t <= n)%nat -> (length t < f)%nat ->
  exists r', until_break body f r = Ret (true, r') /\ ia r' = q /\ Inv (xs ++ l) (sax r').
Proof.
  induction 1 as [|x t l ts [(c & b & Et & Hc) Hx] _ IH]; intros f xs r q Hb Ei HI Hn Hf.
  - destruct f as [|f]; [simpl in Hf; lia|]. cbn [until_break]. rewrite (get_cons r 0xFF q Ei). simpl.
    rewrite app_nil_r. by eexists.
  - apply Forall_app in Hb as [Hb1 Hb2]. rewrite length_app in Hn, Hf. rewrite <- app_assoc in Ei.
    assert (1 <= length t)%nat by (rewrite Et; simpl; lia).
    destruct (Hx xs r _ Hb1 Ei HI) as (r1 & Hr1 & E1 & HI1); [lia|].
    destruct f as [|f]; [lia|]. cbn [until_break]. cbv zeta.
    destruct (opened_get r t _ c b Ei Et) as (_ & _ & Hcur). rewrite Hcur. steer. rewrite Hr1. cbn [and_then comp_bind].
    destruct (IH f (xs ++ [x]) r1 q) as (r2 & Hr2 & E2 & HI2); try done; [lia|lia|].
    exists r2. by rewrite <- app_assoc in HI2.
Qed.
End Loops.

Lemma element_run fuel d0 v t : item tag_handler v t -> item_runs v t ->
  element_runs (array_inv d0) (parse (S fuel) true) fuel v t.
Proof.
  intros Hi Hv xs r q Hby E Hf Hn.
  destruct (item_reads _ _ Hi Hv (S fuel) r q Hby E (array_ready _ _ _ Hf)) as (r' & ? & ? & ?); [lia|].
  exists r'. split_and!; [done|done|]. by eapply array_place.
Qed.

(** The text of a member whose value the reader reads. *)
Definition member_text (kv : bytes * json F) t : Prop :=
  exists tk tv, t = tk ++ tv /\ chunked 0x60 kv.1 tk /\ item tag_handler kv.2 tv /\ item_runs kv.2 tv.

Lemma cbor_member_run fuel d0 kv t : member_text kv t ->
  element_runs (object_inv d0) (fun r => cbor_member (parse (S fuel)) (S fuel) (get r)) fuel kv t.
Proof.
  intros (tk & tv & -> & Hk & Hi & Hv) xs r q Hby E Hf Hn. destruct kv as [k v]. simpl in Hk, Hi, Hv.
  apply Forall_app in Hby as [Hbk Hbt]. rewrite length_app in Hn. rewrite <- app_assoc in E.
  destruct (chunked_first _ _ _ Hk) as (c & b & Et & _). destruct (opened_get r tk _ c b E Et) as (Ho & Hsx & _).
  assert (base5 0x60) as Hb by (unfold base5; set_solver).
  destruct (proj1 (chunked_run 0x60 Hb (Forall_nil_2 _)) k tk Hk (S fuel) (get r) _ Hbk Ho) as (r1 & Hr1 & E1 & S1); [lia|].
  unfold cbor_member, get_cbor_string. rewrite Hr1. cbn [and_let comp_bind].
  destruct (event_key_run d0 (object_of xs) k r1) as (r2 & Hr2 & E2 & Hrd & Hpl & _);
    [by rewrite S1, Hsx|apply object_of_is_sorted|].
  change (event (sax_key k) r1) with (event (dom_key k) r1). rewrite Hr2. cbn [and_then comp_bind].
  destruct (item_reads _ _ Hi Hv (S fuel) r2 q Hbt) as (r3 & -> & E3 & Hp3); [congruence|done|lia|].
  exists r3. unfold object_inv. rewrite object_of_snoc. split_and!; [done|done|by apply Hpl].
Qed.

Definition items_run (l : list (json F)) t : Prop := texts (fun v t => item tag_handler v t /\ item_runs v t) l t.
Definition members_run (ms : list (bytes * json F)) t : Prop := texts member_text ms t.

Lemma item_unbroken v t : item tag_handler v t -> unbroken t.
Proof. intros Hi. destruct (item_first _ _ _ Hi) as (c & b & -> & Hc). exists c, b. split; [done|lia]. Qed.

Lemma member_unbroken kv t : member_text kv t -> unbroken t.
Proof.
  intros (tk & tv & -> & Hk & _). destruct (chunked_first _ _ _ Hk) as (c & b & -> & Hc). exists c, (b ++ tv). split; [done|lia].
Qed.

Lemma unbroken_nonempty t : unbroken t -> t <> [].
Proof. by intros (c & b & -> & _). Qed.

Lemma head_nonempty base n h : head base n h -> h <> [].
Proof. intros Hh. by destruct (head_first _ _ _ Hh) as (c & b & -> & _). Qed.

Lemma head_label base n h r q : head base n h -> opened r h q -> base <= current r <= base + 0x1B.
Proof. intros Hh (b & Eb & _). destruct (head_first _ _ _ Hh) as (c & b' & -> & ?). by injection Eb as <- _. Qed.

Lemma container_run base n h r q build : base5 base -> head base n h -> opened r h q ->
  exists r', cbor_container base build r = build n r' /\ ia r' = q /\ sax r' = sax r.
Proof.
  intros Hb Hh Ho. unfold cbor_container.
  destruct (head_opened _ _ _ _ _ Hh Ho Hb) as [(Hc & Hn & E)|(Hc & r' & E & Eq & Es)]; steer.
  - rewrite Hn. by exists r.
  - rewrite E. by exists r'.
Qed.

Lemma indefinite_run base h r q build : base5 base -> indefinite base h -> opened r h q ->
  exists r', cbor_container base build r = build unknown_size r' /\ ia r' = q /\ sax r' = sax r.
Proof.
  intros Hb [->|Hh] Ho; [|by eapply container_run]. destruct Ho as (b & [= Hc <-] & E). unfold cbor_container. steer.
  by exists r.
Qed.

Lemma indefinite_label base h r q : indefinite base h -> opened r h q ->
  base <= current r <= base + 0x1B \/ current r = base + 0x1F.
Proof. intros [->|Hh] Ho; [right; by destruct Ho as (b & [= Hc _] & _)|left; by eapply head_label]. Qed.

Lemma indefinite_nonempty base h : indefinite base h -> h <> [].
Proof. intros [->|Hh]; [done|by eapply head_nonempty]. Qed.

(** [fuel] is at least one, for the nesting of the elements. *)
Lemma get_cbor_array_run fuel l t r q : items_run l t -> Forall is_byte t -> ready (sax r) -> (length t < fuel)%nat ->
  (Z.of_nat (length l) <> unknown_size -> Z.of_nat (length l) <= array_max_size -> ia r = t ++ q ->
     stores (get_cbor_array (parse fuel) fuel (Z.of_nat (length l)) r) (sax r) (value_array l) q) /\
  (ia r = t ++ [0xFF] ++ q -> stores (get_cbor_array (parse fuel) fuel unknown_size r) (sax r) (value_array l) q).
Proof.
  intros Hl Hby Hr Hf. destruct fuel as [|n]; [lia|].
  assert (forall len, ~ too_big len array_max_size ->
    (forall r1, ia r1 = ia r -> array_inv (sax r) [] (sax r1) -> exists r2,
       (if negb (len =? unknown_size) then counted (parse (S n) true) (S n) 0 len r1
        else until_break (parse (S n) false) (S n) r1) = Ret (true, r2) /\ ia r2 = q /\ array_inv (sax r) l (sax r2)) ->
    stores (get_cbor_array (parse (S n)) (S n) len r) (sax r) (value_array l) q) as Hlen.
  { intros len Hb Hbody. unfold get_cbor_array.
    destruct (event_start_array_run len r Hr Hb) as (r1 & -> & E1 & Hf1). cbn [and_then comp_bind].
    destruct (Hbody r1 E1 Hf1) as (r2 & -> & E2 & Hf2). cbn [and_then comp_bind].
    destruct (event_end_run true _ _ _ Hf2 eq_refl) as (r3 & Hr3 & E3 & Hp). exists r3.
    split_and!; [exact Hr3|congruence|done]. }
  split.
  - intros Hne Hmax E. apply Hlen; [unfold too_big; lia|]. intros r1 E1 Hf1.
    rewrite (proj2 (Z.eqb_neq _ _)) by done.
    apply (counted_run (array_inv (sax r)) _ n l t) with (i := 0) (xs := []); [|done|by rewrite E1|done|lia|lia].
    eapply texts_impl; [|exact Hl]. intros v u [Hi Hv].
    split; [by eapply unbroken_nonempty, item_unbroken|by apply element_run].
  - intros E. apply Hlen; [unfold too_big; tauto|]. intros r1 E1 Hf1. rewrite Z.eqb_refl.
    apply (until_break_run (array_inv (sax r)) _ n l t) with (xs := []); [|done|by rewrite E1|done|lia|lia].
    eapply texts_impl; [|exact Hl]. intros v u [Hi Hv].
    split; [by eapply item_unbroken|by apply (element_run n)].
Qed.

Lemma get_cbor_object_run fuel ms t r q : members_run ms t -> Forall is_byte t -> ready (sax r) -> (length t < fuel)%nat ->
  (Z.of_nat (length ms) <> unknown_size -> Z.of_nat (length ms) <= object_max_size -> ia r = t ++ q ->
     stores (get_cbor_object (parse fuel) fuel (Z.of_nat (length ms)) r) (sax r) (value_object (object_of ms)) q) /\
  (ia r = t ++ [0xFF] ++ q ->
     stores (get_cbor_object (parse fuel) fuel unknown_size r) (sax r) (value_object (object_of ms)) q).
Proof.
  intros Hl Hby Hr Hf. destruct fuel as [|n]; [lia|].
  assert (forall len, ~ too_big len object_max_size ->
    (forall r1, ia r1 = ia r -> object_inv (sax r) [] (sax r1) -> exists r2,
       (if negb (len =? 0) then
          if negb (len =? unknown_size) then counted (fun r => cbor_member (parse (S n)) (S n) (get r)) (S n) 0 len r1
          else until_break (cbor_member (parse (S n)) (S n)) (S n) r1
        else Ret (true, r1)) = Ret (true, r2) /\ ia r2 = q /\ object_inv (sax r) ms (sax r2)) ->
    stores (get_cbor_object (parse (S n)) (S n) len r) (sax r) (value_object (object_of ms)) q) as Hlen.
  { intros len Hb Hbody. unfold get_cbor_object.
    destruct (event_start_object_run len r Hr Hb) as (r1 & -> & E1 & Hf1). cbn [and_then comp_bind].
    destruct (Hbody r1 E1 Hf1) as (r2 & -> & E2 & Hf2). cbn [and_then comp_bind].
    destruct (event_end_run false _ _ _ Hf2 eq_refl) as (r3 & Hr3 & E3 & Hp). exists r3.
    split_and!; [exact Hr3|congruence|done]. }
  split.
  - intros Hne Hmax E. apply Hlen; [unfold too_big; lia|]. intros r1 E1 Hf1.
    destruct Hl as [|kv tkv ms ts Hkv Hms]; [exists r1; split_and!; [done|by rewrite E1, E|done]|].
    rewrite (proj2 (Z.eqb_neq (Z.of_nat (length (kv :: ms))) 0)) by (simpl; lia).
    rewrite (proj2 (Z.eqb_neq _ _)) by done.
    apply (counted_run (object_inv (sax r)) _ n (kv :: ms) (tkv ++ ts)) with (i := 0) (xs := []); [|done|by rewrite E1|done|lia|lia].
    eapply texts_impl; [|by apply (texts_cons _ kv tkv ms ts Hkv)]. intros x u Hx.
    split; [by eapply unbroken_nonempty, member_unbroken|by apply cbor_member_run].
  - intros E. apply Hlen; [unfold too_big; tauto|]. intros r1 E1 Hf1. rewrite Z.eqb_refl. cbn [negb].
    apply (until_break_run (object_inv (sax r)) _ n ms t) with (xs := []); [|done|by rewrite E1|done|lia|lia].
    eapply texts_impl; [|exact Hl]. intros x u Hx.
    split; [by eapply member_unbroken|by apply (cbor_member_run n)].
Qed.

Lemma array_runs l h t : head 0x80 (Z.of_nat (length l)) h -> Z.of_nat (length l) <> unknown_size ->
  Z.of_nat (length l) <= array_max_size -> items_run l t -> item_runs (value_array l) (h ++ t).
Proof.
  intros Hh Hne Hmax Hl fuel r q Hby Ho Hr Hf. apply opened_app in Ho; [|by eapply head_nonempty].
  apply Forall_app in Hby as [_ Hby]. rewrite length_app in Hf. pose proof (head_nonempty _ _ _ Hh).
  assert (length t < fuel)%nat by (destruct h; [done|simpl in Hf; lia]).
  pose proof (head_label _ _ _ _ _ Hh Ho). unfold cbor_item, cbor_simple. steer.
  destruct (container_run 0x80 (Z.of_nat (length l)) h r (t ++ q) (get_cbor_array (parse fuel) fuel)) as (r1 & -> & E1 & S1); [unfold base5; set_solver|done|done|].
  rewrite <- S1. apply get_cbor_array_run with t; try done. by rewrite S1.
Qed.

Lemma array_indefinite_runs l h t : indefinite 0x80 h -> items_run l t -> item_runs (value_array l) (h ++ t ++ [0xFF]).
Proof.
  intros Hh Hl fuel r q Hby Ho Hr Hf. apply opened_app in Ho; [|by eapply indefinite_nonempty].
  apply Forall_app in Hby as [_ Hby]. apply Forall_app in Hby as [Hby _]. rewrite !length_app in Hf.
  rewrite <- app_assoc in Ho. simpl in Hf.
  assert (exists r', cbor_container 0x80 (get_cbor_array (parse fuel) fuel) r = get_cbor_array (parse fuel) fuel unknown_size r' /\
    ia r' = t ++ [0xFF] ++ q /\ sax r' = sax r) as (r1 & E & E1 & S1)
    by (eapply indefinite_run; [unfold base5; set_solver|done|done]).
  unfold cbor_item, cbor_simple. destruct (indefinite_label _ _ _ _ Hh Ho); steer; rewrite ?orb_true_r, E, <- S1;
    (apply get_cbor_array_run with t; [done|done|by rewrite S1|lia|done]).
Qed.

Lemma object_runs ms h t : head 0xA0 (Z.of_nat (length ms)) h -> Z.of_nat (length ms) <> unknown_size ->
  Z.of_nat (length ms) <= object_max_size -> members_run ms t ->
  item_runs (value_object (object_of ms)) (h ++ t).
Proof.
  intros Hh Hne Hmax Hl fuel r q Hby Ho Hr Hf. apply opened_app in Ho; [|by eapply head_nonempty].
  apply Forall_app in Hby as [_ Hby]. rewrite length_app in Hf. pose proof (head_nonempty _ _ _ Hh).
  assert (length t < fuel)%nat by (destruct h; [done|simpl in Hf; lia]).
  pose proof (head_label _ _ _ _ _ Hh Ho). unfold cbor_item, cbor_simple. steer.
  destruct (container_run 0xA0 (Z.of_nat (length ms)) h r (t ++ q) (get_cbor_object (parse fuel) fuel)) as (r1 & -> & E1 & S1); [unfold base5; set_solver|done|done|].
  rewrite <- S1. apply get_cbor_object_run with t; try done. by rewrite S1.
Qed.

Lemma object_indefinite_runs ms h t : indefinite 0xA0 h -> members_run ms t ->
  item_runs (value_object (object_of ms)) (h ++ t ++ [0xFF]).
Proof.
  intros Hh Hl fuel r q Hby Ho Hr Hf. apply opened_app in Ho; [|by eapply indefinite_nonempty].
  apply Forall_app in Hby as [_ Hby]. apply Forall_app in Hby as [Hby _]. rewrite !length_app in Hf.
  rewrite <- app_assoc in Ho. simpl in Hf.
  assert (exists r', cbor_container 0xA0 (get_cbor_object (parse fuel) fuel) r = get_cbor_object (parse fuel) fuel unknown_size r' /\
    ia r' = t ++ [0xFF] ++ q /\ sax r' = sax r) as (r1 & E & E1 & S1)
    by (eapply indefinite_run; [unfold base5; set_solver|done|done]).
  unfold cbor_item, cbor_simple. destruct (indefinite_label _ _ _ _ Hh Ho); steer; rewrite ?orb_true_r, E, <- S1;
    (apply get_cbor_object_run with t; [done|done|by rewrite S1|lia|done]).
Qed.

(** ** Tags, numbers, constants *)

Lemma small_tag_runs c v t : tag_handler <> tag_error -> 0xC6 <= c <= 0xD4 -> item tag_handler v t ->
  item_runs v t -> item_runs v (c :: t).
Proof.
  intros Htag Hc Hi Hv fuel r q Hby (b & [= -> <-] & E) Hr Hf. inversion Hby as [|? ? _ Hbt]; subst.
  assert (stores (parse fuel true r) (sax r) v q) as Hst by (apply item_reads with t; try done; simpl in Hf; lia).
  unfold cbor_item, cbor_simple, cbor_tag. steer. by destruct tag_handler.
Qed.

Lemma ignored_tag_runs n h v t : tag_handler = tag_ignore -> sized 0xD8 n h -> item tag_handler v t ->
  item_runs v t -> item_runs v (h ++ t).
Proof.
  intros Htag Hs Hi Hv fuel r q Hby Ho Hr Hf. pose proof (sized_nonempty _ _ _ Hs) as Hne.
  apply opened_app in Ho; [|done]. apply Forall_app in Hby as [_ Hbt]. rewrite length_app in Hf.
  pose proof (sized_opened_range _ _ _ _ _ Hs Ho). destruct (sized_number_run _ _ _ _ _ Hs Ho) as (r1 & E & E1 & S1).
  assert (forall p, cbor_tag p fuel tag_handler r = p true r1) as Ht.
  { intros p. unfold cbor_tag. rewrite Htag. steer. by rewrite E. }
  unfold cbor_item, cbor_simple. steer. rewrite Ht, <- S1. apply item_reads with t; try done; [by rewrite S1|]. destruct h; [done|simpl in Hf; lia].
Qed.

Lemma stored_tag_runs n h s t : tag_handler = tag_store -> sized 0xD8 n h -> chunked 0x40 s t ->
  item_runs (value_binary s (Some n)) (h ++ t).
Proof.
  intros Htag Hs Hc fuel r q Hby Ho Hr Hf. pose proof (sized_nonempty _ _ _ Hs) as Hne.
  apply opened_app in Ho; [|done]. apply Forall_app in Hby as [_ Hbt]. rewrite length_app in Hf.
  pose proof (sized_opened_range _ _ _ _ _ Hs Ho). destruct (sized_number_run _ _ _ _ _ Hs Ho) as (r1 & E & E1 & S1).
  destruct (chunked_first _ _ _ Hc) as (c & b & Et & _). destruct (opened_get r1 t q c b E1 Et) as (Ho1 & S2 & _).
  assert (forall p, cbor_tag p fuel tag_handler r = cbor_binary_event fuel (Some n) (get r1)) as Ht.
  { intros p. unfold cbor_tag. rewrite Htag. steer. by rewrite E. }
  unfold cbor_item, cbor_simple. steer. rewrite Ht, <- S1, <- S2. unfold cbor_binary_event, get_cbor_binary. eapply (chunked_stores 0x40); try done.
  - unfold base5; set_solver.
  - destruct h; [done|simpl in Hf; lia].
  - by rewrite S2, S1.
Qed.

Lemma half_bits (s : bool) e m : 0 <= e < 32 -> 0 <= m < 1024 ->
  let n := (if s then 1 else 0) * 2 ^ 15 + e * 2 ^ 10 + m in
  half_value (F:=F) (n / 256) (n mod 256) = half_number s e m.
Proof.
  intros He Hm n. assert (n = (if s then 1 else 0) * 32768 + e * 1024 + m) as En by (unfold n; destruct s; lia).
  unfold half_value. rewrite Z.shiftl_mul_pow2 by lia. replace (n / 256 * 2 ^ 8 + n mod 256) with n by (change (2 ^ 8) with 256; dlia).
  change 0x1F with (Z.ones 5). change 0x3FF with (Z.ones 10). rewrite !Z.land_ones, Z.shiftr_div_pow2 by lia.
  change (2 ^ 10) with 1024. change (2 ^ 5) with 32.
  replace ((n / 1024) mod 32) with e by (rewrite En; destruct s; dlia).
  replace (n mod 1024) with m by (rewrite En; destruct s; dlia).
  assert (Z.land n 0x8000 = if s then 0x8000 else 0) as ->; [|by destruct s].
  assert (Z.testbit n 15 = s) as Hbit.
  { rewrite Z.testbit_odd, Z.shiftr_div_pow2 by lia. change (2 ^ 15) with 32768.
    replace (n / 32768) with (if s then 1 else 0) by (rewrite En; destruct s; dlia). by destruct s. }
  apply Z.bits_inj'. intros i Hi. change 0x8000 with (2 ^ 15). rewrite Z.land_spec, Z.pow2_bits_eqb by lia.
  destruct (Z.eqb_spec 15 i) as [<-|Hne].
  - rewrite Hbit. by destruct s.
  - rewrite andb_false_r. destruct s; [rewrite Z.pow2_bits_false by lia; done|by rewrite Z.bits_0].
Qed.

Lemma half_runs (s : bool) e m : 0 <= e < 32 -> 0 <= m < 1024 ->
  item_runs (value_number_float (half_number s e m)) (0xF9 :: be_bytes 2 ((if s then 1 else 0) * 2 ^ 15 + e * 2 ^ 10 + m)).
Proof.
  intros He Hm fuel r q _ (b & [= Hc <-] & E) Hr _. unfold cbor_item, cbor_simple. steer.
  set (n := (if s then 1 else 0) * 2 ^ 15 + e * 2 ^ 10 + m) in *.
  assert (0 <= n < 65536) as Hn by (unfold n; destruct s; lia).
  change (be_bytes 2 n) with [(n / 256) mod 256; n mod 256] in E. rewrite (Z.mod_small (n / 256)) in E by dlia.
  unfold cbor_half. rewrite (get_cons r _ _ E). rewrite unexpect_eof_run by (simpl; unfold EOF; dlia).
  cbn [and_then comp_bind current]. erewrite get_cons by done. rewrite unexpect_eof_run by (simpl; unfold EOF; dlia).
  cbn [and_then comp_bind current chars_read sax]. rewrite !wrapu_small by (change (2 ^ 8) with 256; dlia).
  pose proof (half_bits s e m He Hm) as Hh. cbv zeta in Hh. fold n in Hh. rewrite Hh. by apply event_stores.
Qed.

Lemma single_runs n : 0 <= n < 2 ^ 32 -> item_runs (value_number_float (of_bits32 n)) (0xFA :: be_bytes 4 n).
Proof.
  intros Hn fuel r q _ (b & [= Hc <-] & E) Hr _. unfold cbor_item, cbor_simple. steer.
  destruct (get_be_run 4 r n q E Hn) as (r1 & -> & E1 & S1). by apply event_stores.
Qed.

Lemma double_runs n : 0 <= n < 2 ^ 64 -> item_runs (value_number_float (of_bits64 n)) (0xFB :: be_bytes 8 n).
Proof.
  intros Hn fuel r q _ (b & [= Hc <-] & E) Hr _. unfold cbor_item, cbor_simple. steer.
  destruct (get_be_run 8 r n q E Hn) as (r1 & -> & E1 & S1). by apply event_stores.
Qed.

Lemma constant_runs c v : (c, v) ∈ [(0xF4, value_boolean false); (0xF5, value_boolean true); (0xF6, @value_null F)] ->
  item_runs v [c].
Proof.
  intros Hin fuel r q _ (b & [= Hc <-] & E) Hr _. unfold cbor_item, cbor_simple. rewrite <- Hc.
  repeat (apply elem_of_cons in Hin as [[= -> ->]|Hin]; [by apply event_stores|]). by apply elem_of_nil in Hin.
Qed.

(** Every item of the grammar. *)
Lemma grammar_runs :
  (forall v t, item tag_handler v t -> item_runs v t) /\
  (forall l t, items tag_handler l t -> items_run l t) /\
  (forall ms t, members tag_handler ms t -> members_run ms t).
Proof.
  apply cbor_ind; intros.
  - by apply unsigned_runs.
  - by apply negative_runs.
  - by apply binary_runs.
  - by apply string_runs.
  - by apply array_runs.
  - by apply array_indefinite_runs.
  - by apply object_runs.
  - by apply object_indefinite_runs.
  - by apply small_tag_runs.
  - by apply ignored_tag_runs with n.
  - by apply stored_tag_runs.
  - apply constant_runs; set_solver.
  - apply constant_runs; set_solver.
  - apply constant_runs; set_solver.
  - by apply half_runs.
  - by apply single_runs.
  - by apply double_runs.
  - constructor.
  - by constructor.
  - constructor.
  - rewrite app_assoc. constructor; [by do 2 eexists|done].
Qed.

Lemma grammar_read v t : item tag_handler v t -> reads v t.
Proof. intros Hi. apply item_reads; [done|]. by apply grammar_runs. Qed.
End Facts.
