(* ===== verification/CborSound.v ===== *)
(** The CBOR reader terminates on every input, and what it reads is an item
    of the grammar with its value; everything else is reported as an error. *)
From S2P Require Import Prelude Utf8 JsonValue JsonGrammar JsonLexer JsonParser JsonParserFacts JsonParserComplete.
From S2P Require Import BinaryReader BinaryReaderFacts Cbor CborGrammar CborFacts.

Section Sound.
Context {F : Type} `{FloatBits F, MaxSize}.
Variable allow : bool.
Variable tag_handler : cbor_tag_handler_t.
Notation reader := (reader (dom F)).
Implicit Types (r : reader) (d : dom F) (v : json F) (t q s : bytes).
Notation fine := (fine allow).
Notation fine_let := (fine_let allow).
Notation good := (good allow).
Notation item := (item (F:=F) tag_handler).

(** ** Strings *)

Definition chunk_fine (base : Z) (fuel : nat) : Prop := forall r, good r -> (length (ia r) + 1 <= fuel)%nat ->
  fine_let (fun s (r' : reader) => exists t, consumed r t r' /\ chunked base s t) (get_cbor_chunked base fuel (get r)).

Lemma cbor_chunks_fine base fuel : base5 base -> chunk_fine base fuel ->
  forall f acc r, good r -> (length (ia r) + 1 <= f)%nat -> (length (ia r) + 1 <= fuel)%nat ->
  fine_let (fun s (r' : reader) => exists s' t, s = acc ++ s' /\ consumed r (t ++ [0xFF]) r' /\ chunks base s' t)
    (cbor_chunks (get_cbor_chunked base fuel) f acc r).
Proof.
  intros Hb Hch f. induction f as [|f IH]; intros acc r Hg Hf Hfu; [lia|]. cbn [cbor_chunks]. cbv zeta.
  destruct (Z.eqb_spec (current (get r)) 0xFF) as [Hc|Hc].
  - exists [], []. rewrite app_nil_r. split_and!; [done| |constructor].
    destruct (get_cases allow r Hg) as [(_ & _ & E & _)|(E & _ & _ & S)]; [by rewrite E in Hc|].
    rewrite Hc in E. by split.
  - pose proof (Hch r Hg Hfu) as H1.
    destruct (get_cbor_chunked base fuel (get r)) as [[[[] s1] r1]| |]; simpl in *; try done.
    destruct H1 as (t1 & Hcs & Hk). destruct (chunked_first _ _ _ Hk) as (c & b & Et & _).
    assert (length (ia r) = length t1 + length (ia r1))%nat as El by (destruct Hcs as [-> _]; by rewrite length_app).
    assert (1 <= length t1)%nat by (rewrite Et; simpl; lia).
    eapply fine_let_mono; [apply IH; [by eapply consumed_good|lia|lia]|].
    intros s r' (s2 & t2 & -> & Hcs2 & Hk2). exists (s1 ++ s2), (t1 ++ t2). rewrite <- !app_assoc.
    split_and!; [done|by eapply reads_trans|by constructor].
Qed.

Lemma get_cbor_chunked_fine base fuel : base5 base -> chunk_fine base fuel.
Proof.
  intros Hb. pose proof (base5_range _ Hb) as Hbr. induction fuel as [|fuel IH]; intros r Hg Hf; [lia|].
  cbn [get_cbor_chunked]. destruct (get_cases allow r Hg) as [(E & E1 & E2 & Hg' & Hs)|(E & Hby & Hg' & Hs)].
  { pose proof (fine_eof allow (get r) (proj2 Hg')) as Hfe.
    destruct (unexpect_eof (get r)) as [[[] ?]| |]; simpl in *; naive_solver. }
  rewrite unexpect_eof_run by by apply byte_not_eof. cbn [comp_bind negb]. cbv iota zeta.
  rewrite E in Hf. simpl in Hf. set (c := current (get r)) in *.
  destruct (in_range base (base + 0x17) c) eqn:R1.
  { apply in_range_spec in R1. rewrite (land_low5 base) by done.
    eapply fine_let_mono; [apply get_bytes_fine; [done|lia]|]. intros s r' [Hcs Hl]. exists (c :: s).
    split; [by apply consumed_get|]. change (c :: s) with ([c] ++ s). constructor.
    replace c with (base + (c - base)) by lia. rewrite Hl. constructor. lia. }
  destruct (in_range (base + 0x18) (base + 0x1B) c) eqn:R2.
  { apply in_range_spec in R2. pose proof (sized_number_fine allow (base + 0x18) (get r) Hg') as Hsz.
    destruct (sized_number (base + 0x18) (get r)) as [[[[] n] r1]| |]; simpl in *; try (apply Hsz; lia); try done.
    destruct Hsz as (b & Hcs & Hsz); [lia|]. assert (good r1) as Hg1 by by eapply consumed_good.
    eapply fine_let_mono; [apply get_bytes_fine; [done|]; by eapply sized_range|].
    intros s r' [Hcs2 Hl]. exists (c :: b ++ s). split; [by apply consumed_get; [| eapply reads_trans|]|].
    change (c :: b ++ s) with ((c :: b) ++ s). constructor. rewrite Hl. by apply head_sized. }
  destruct (Z.eqb_spec c (base + 0x1F)) as [R3|R3].
  - eapply fine_let_mono; [apply cbor_chunks_fine; [done|done|done|lia|lia]|].
    intros s r' (s' & t & -> & Hcs & Hk). exists (c :: t ++ [0xFF]). split; [by apply consumed_get|].
    rewrite R3. by constructor.
  - pose proof (fine_error_return allow (fun _ : reader => False) (parse_error 113) (get r) (proj2 Hg') syntax_113) as He.
    destruct (error_return (parse_error 113) (get r)) as [[[] ?]| |]; simpl in *; done.
Qed.

(** ** Arrays and objects

    [parse] reads one item from at most [n] bytes. *)

Definition item_read r r' : Prop := exists v t, ia r = t ++ ia r' /\ item v t /\ placed (sax r) v (sax r').

Definition parse_fine (parse : bool -> reader -> comp (bool * reader)) (n : nat) : Prop :=
  (forall r, good r -> ready (sax r) -> (length (ia r) <= n)%nat -> fine (item_read r) (parse true r)) /\
  (forall r, parse true r = parse false (get r)).

Lemma get_break r : good r -> current (get r) = 0xFF -> ia r = [0xFF] ++ ia (get r) /\ sax (get r) = sax r.
Proof.
  intros Hg Hc. destruct (get_cases allow r Hg) as [(_ & _ & E & _)|(E & _ & _ & S)]; [by rewrite E in Hc|].
  rewrite Hc in E. done.
Qed.

Lemma item_length v t : item v t -> (1 <= length t)%nat.
Proof. intros Hi. destruct (item_first _ _ _ Hi) as (c & b & -> & _). simpl. lia. Qed.

Lemma until_break_fine {X} (E : X -> bytes -> Prop) Inv body n f :
  element_fine allow E Inv (fun r => body (get r)) n -> forall xs r, good r -> Inv xs (sax r) ->
  (length (ia r) + 1 <= f)%nat -> (length (ia r) <= n)%nat ->
  fine (fun r' : reader => exists l t, ia r = t ++ [0xFF] ++ ia r' /\ texts E l t /\ Inv (xs ++ l) (sax r'))
    (until_break body f r).
Proof.
  intros Hel. induction f as [|f IH]; intros xs r Hg HI Hf Hn; [lia|]. cbn [until_break]. cbv zeta.
  destruct (Z.eqb_spec (current (get r)) 0xFF) as [Hc|Hc].
  { destruct (get_break r Hg Hc) as [Ei S]. exists [], []. rewrite app_nil_r, S. split_and!; [done|constructor|done]. }
  eapply fine_then; [by apply (Hel xs)|]. intros r1 (x & t & E1 & Hx & Hg1 & Hl & HI1).
  eapply fine_mono; [apply (IH _ _ Hg1 HI1); lia|]. intros r' (l & ts & E2 & Hts & HI2).
  exists (x :: l), (t ++ ts). rewrite <- app_assoc in HI2. split_and!; [|by constructor|done].
  by rewrite E1, E2, <- !app_assoc.
Qed.

Section Loops.
Variable parse : bool -> reader -> comp (bool * reader).
Variable n : nat.
Hypothesis Hparse : parse_fine parse n.
Variable d0 : dom F.
Hypothesis Hd0 : settled allow d0.

Lemma item_element_fine : element_fine allow item (array_inv d0) (parse true) n.
Proof.
  intros acc r Hg Hf Hn. eapply fine_mono; [apply Hparse; [done|by eapply array_ready|done]|].
  intros r' (v & t & E & Hi & Hp). exists v, t. split_and!; [done|done|by eapply good_placed| |by eapply array_place].
  rewrite E, length_app. pose proof (item_length _ _ Hi). lia.
Qed.

Lemma break_element_fine : element_fine allow item (array_inv d0) (fun r => parse false (get r)) n.
Proof. intros acc r. rewrite <- (proj2 Hparse). apply item_element_fine. Qed.

Lemma member_fine f : (n + 1 <= f)%nat ->
  element_fine allow (member tag_handler) (object_inv d0) (fun r => cbor_member parse f (get r)) n.
Proof.
  intros Hfu acc r Hg Hf Hn. unfold cbor_member, get_cbor_string.
  eapply fine_and_let; [apply (get_cbor_chunked_fine 0x60 f); [unfold base5; set_solver|done|lia]|].
  intros k r1 (tk & [E1 S1] & Hk).
  destruct (event_key_run d0 (object_of acc) k r1) as (r2 & Hr2 & E2 & Hrd & Hpl & Hfl); [by rewrite S1|apply object_of_is_sorted|].
  change (event (sax_key k) r1) with (event (dom_key k) r1). rewrite Hr2. cbn [and_then comp_bind].
  assert (good r2) as Hg2.
  { eapply good_suffix; [exact Hg|by rewrite E2|]. eapply settled_flags; [apply Hg|by rewrite <- S1]. }
  assert (length (ia r) = length tk + length (ia r2))%nat as El by (rewrite E1, E2; by rewrite length_app).
  destruct (chunked_first _ _ _ Hk) as (c & b & Et & _). assert (1 <= length tk)%nat by (rewrite Et; simpl; lia).
  eapply fine_mono; [apply Hparse; [done|done|lia]|]. intros r' (v & t & E & Hi & Hp).
  assert (length (ia r2) = length t + length (ia r'))%nat by (rewrite E; by rewrite length_app).
  exists (k, v), (tk ++ t). unfold object_inv. rewrite object_of_snoc.
  split_and!; [|by exists tk, t|by eapply good_placed|lia|by apply Hpl].
  by rewrite E1, <- E2, E, app_assoc.
Qed.
End Loops.

Lemma get_cbor_array_fine parse n f len r : parse_fine parse n -> good r -> ready (sax r) -> 0 <= len ->
  (length (ia r) + 1 <= f)%nat -> (length (ia r) <= n)%nat ->
  fine (fun r' : reader => exists l t, placed (sax r) (value_array l) (sax r') /\ items tag_handler l t /\
    ((len = Z.of_nat (length l) /\ ~ too_big len array_max_size /\ len <> unknown_size /\ ia r = t ++ ia r') \/
     (len = unknown_size /\ ia r = t ++ [0xFF] ++ ia r'))) (get_cbor_array parse f len r).
Proof.
  intros Hp Hg Hr Hlen Hf Hn. unfold get_cbor_array.
  eapply fine_then; [by apply event_start_array_fine|]. intros r1 (E1 & Hf1 & Hbig).
  assert (good r1) as Hg1 by (eapply (good_filling allow r r1 []); [done|apply Hg|done|done]).
  eapply (fine_then _ (fun r' : reader => exists l t, filling (sax r) (value_array l) (sax r') /\ items tag_handler l t /\
    ((len = Z.of_nat (length l) /\ ~ too_big len array_max_size /\ len <> unknown_size /\ ia r = t ++ ia r') \/
     (len = unknown_size /\ ia r = t ++ [0xFF] ++ ia r')))).
  - destruct (Z.eqb_spec len unknown_size) as [->|Hne]; simpl.
    + eapply fine_mono; [apply (until_break_fine _ _ _ n f (break_element_fine parse n Hp (sax r)) []); [done|done|rewrite E1; lia|rewrite E1; lia]|].
      intros r' (l & t & E & Ht & Hfi). exists l, t. split_and!; [done|by apply texts_items|]. right. by rewrite <- E1.
    + eapply fine_mono; [apply (counted_fine allow _ _ _ n f (item_element_fine parse n Hp (sax r)) 0 len []); [done|done|done|rewrite E1; lia|rewrite E1; lia]|].
      intros r' (l & t & E & Ht & Hl & Hfi). exists l, t. split_and!; [done|by apply texts_items|]. left. rewrite <- E1. split_and!; try done; lia.
  - intros r2 (l & t & Hf2 & Ht & Hcase). destruct (event_end_run true _ _ _ Hf2 eq_refl) as (r3 & Hr3 & E3 & Hpl).
    change (event sax_end_array r2) with (event dom_end_array r2). rewrite Hr3. exists l, t. by rewrite E3.
Qed.

Lemma get_cbor_object_fine parse n f len r : parse_fine parse n -> good r -> ready (sax r) -> 0 <= len ->
  (length (ia r) + 1 <= f)%nat -> (n + 1 <= f)%nat -> (length (ia r) <= n)%nat ->
  fine (fun r' : reader => exists ms t, placed (sax r) (value_object (object_of ms)) (sax r') /\ members tag_handler ms t /\
    ((len = Z.of_nat (length ms) /\ ~ too_big len object_max_size /\ len <> unknown_size /\ ia r = t ++ ia r') \/
     (len = unknown_size /\ ia r = t ++ [0xFF] ++ ia r'))) (get_cbor_object parse f len r).
Proof.
  intros Hp Hg Hr Hlen Hf Hnf Hn. unfold get_cbor_object.
  eapply fine_then; [by apply event_start_object_fine|]. intros r1 (E1 & Hf1 & Hbig).
  assert (good r1) as Hg1 by (eapply (good_filling allow r r1 []); [done|apply Hg|done|done]).
  eapply (fine_then _ (fun r' : reader => exists ms t, filling (sax r) (value_object (object_of ms)) (sax r') /\
    members tag_handler ms t /\
    ((len = Z.of_nat (length ms) /\ ~ too_big len object_max_size /\ len <> unknown_size /\ ia r = t ++ ia r') \/
     (len = unknown_size /\ ia r = t ++ [0xFF] ++ ia r')))).
  - destruct (Z.eqb_spec len 0) as [->|Hn0]; simpl.
    { exists [], []. split_and!; [done|constructor|]. left. by split_and!. }
    destruct (Z.eqb_spec len unknown_size) as [->|Hne]; simpl.
    + eapply fine_mono; [apply (until_break_fine _ _ _ n f (member_fine parse n Hp (sax r) (proj2 Hg) f Hnf) []); [done|done|rewrite E1; lia|rewrite E1; lia]|].
      intros r' (ms & t & E & Ht & Hfi). exists ms, t. split_and!; [done|by apply texts_members|]. right. by rewrite <- E1.
    + eapply fine_mono; [apply (counted_fine allow _ _ _ n f (member_fine parse n Hp (sax r) (proj2 Hg) f Hnf) 0 len []); [done|done|done|rewrite E1; lia|rewrite E1; lia]|].
      intros r' (ms & t & E & Ht & Hl & Hfi). exists ms, t. split_and!; [done|by apply texts_members|]. left. rewrite <- E1. split_and!; try done; lia.
  - intros r2 (ms & t & Hf2 & Ht & Hcase). destruct (event_end_run false _ _ _ Hf2 eq_refl) as (r3 & Hr3 & E3 & Hpl).
    change (event sax_end_object r2) with (event dom_end_object r2). rewrite Hr3. exists ms, t. by rewrite E3.
Qed.

(** ** Items *)

(** The label of [r], and the argument of its head. *)
Definition opens (base : Z) r (b : bytes) (len : Z) : Prop :=
  head base len (current r :: b) \/ (b = [] /\ current r = base + 0x1F /\ len = unknown_size).

Lemma cbor_container_fine Q base build r : base5 base -> good r ->
  base <= current r <= base + 0x1B \/ current r = base + 0x1F ->
  (forall len b r1, consumed r b r1 -> good r1 -> 0 <= len -> opens base r b len -> fine Q (build len r1)) ->
  fine Q (cbor_container base build r).
Proof.
  intros Hb Hg Hc Hk. unfold cbor_container.
  destruct (in_range base (base + 0x17) (current r)) eqn:R1.
  { apply in_range_spec in R1. rewrite (land_low5 base) by done. apply (Hk _ []); [done|done|lia|]. left.
    pose proof (head_small base (current r - base)) as Hh. replace (base + (current r - base)) with (current r) in Hh by lia.
    apply Hh. lia. }
  destruct (in_range (base + 0x18) (base + 0x1B) (current r)) eqn:R2.
  { apply in_range_spec in R2. eapply fine_and_let; [apply sized_number_fine; [done|lia]|].
    intros len r1 (b & Hcs & Hs). apply (Hk _ b); [done|by eapply consumed_good|apply (sized_range _ _ _ Hs)|].
    left. by apply head_sized. }
  apply in_range_false in R1, R2. apply (Hk _ []); [done|done|done|]. right. split_and!; [done|lia|done].
Qed.

Lemma opens_definite base r b len : opens base r b len -> len <> unknown_size -> head base len (current r :: b).
Proof. intros [?|(_ & _ & ?)] ?; done. Qed.

Lemma opens_indefinite base r b : opens base r b unknown_size -> indefinite base (current r :: b).
Proof. intros [?|(-> & -> & _)]; [by right|by left]. Qed.

(** A value read from [t] is sent to the builder. *)
Lemma event_read r t r1 v : consumed r t r1 -> ready (sax r) -> item v t -> fine (item_read r) (event (dom_value v) r1).
Proof.
  intros [E S] Hr Hi. eapply fine_mono; [apply event_value_fine; by rewrite S|].
  intros r' [E' Hp]. exists v, t. rewrite E', <- S. done.
Qed.

Section Item.
Variable parse : bool -> reader -> comp (bool * reader).
Variable n f : nat.
Hypothesis Hparse : parse_fine parse n.
Variable r : reader.
Hypothesis Hgood : good r.
Hypothesis Hready : ready (sax r).
Hypothesis Hbyte : ia r = current (get r) :: ia (get r).
Hypothesis Hlen : (length (ia (get r)) <= n)%nat.
Hypothesis Hfuel : (n + 2 <= f)%nat.

Lemma get_good : good (get r) /\ sax (get r) = sax r /\ is_byte (current (get r)).
Proof. destruct (get_cases allow r Hgood) as [(E & _)|(_ & ? & ? & ?)]; [by rewrite Hbyte in E|done]. Qed.

Lemma consumed_one t r' : consumed (get r) t r' -> consumed r (current (get r) :: t) r'.
Proof. intros Hc. apply consumed_get; [done|done|apply get_good]. Qed.

Lemma after_get t r' v : consumed (get r) t r' -> item v (current (get r) :: t) -> fine (item_read r) (event (dom_value v) r').
Proof. intros Hc Hi. eapply event_read; [by apply consumed_one|done|done]. Qed.

Lemma simple_fine v : item v [current (get r)] -> fine (item_read r) (event (dom_value v) (get r)).
Proof. intros Hi. by apply (after_get []). Qed.

Lemma number_fine base (v : Z -> json F) : base5 base -> base + 0x18 <= current (get r) <= base + 0x1B ->
  (forall m h, head base m h -> item (v m) h) ->
  fine (item_read r) (and_let (sized_number (base + 0x18) (get r)) (fun m r => event (dom_value (v m)) r)).
Proof.
  intros Hb Hc Hv. eapply fine_and_let; [apply sized_number_fine; [apply get_good|lia]|].
  intros m r1 (b & Hcs & Hs). apply (after_get b); [done|]. apply Hv. by apply head_sized.
Qed.

Lemma small_head base : base <= current (get r) <= base + 0x17 -> head base (current (get r) - base) [current (get r)].
Proof.
  intros Hc. pose proof (head_small base (current (get r) - base)) as Hh.
  replace (base + (current (get r) - base)) with (current (get r)) in Hh by lia. apply Hh. lia.
Qed.

Lemma text_fine base (v : bytes -> json F) : base5 base -> (forall s t, chunked base s t -> item (v s) t) ->
  fine (item_read r) (and_let (get_cbor_chunked base f (get r)) (fun s r => event (dom_value (v s)) r)).
Proof.
  intros Hb Hv. eapply fine_and_let.
  { apply (get_cbor_chunked_fine base f Hb r Hgood). rewrite Hbyte. simpl. lia. }
  intros s r1 (t & Hcs & Hc). eapply event_read; [done|done|by apply Hv].
Qed.

Lemma array_fine : 0x80 <= current (get r) <= 0x9B \/ current (get r) = 0x9F ->
  fine (item_read r) (cbor_container 0x80 (get_cbor_array parse f) (get r)).
Proof.
  intros Hc. destruct get_good as (Hg & S & _). apply cbor_container_fine; [unfold base5; set_solver|done|done|].
  intros len b r1 [E1 S1] Hg1 Hl Ho. assert (length (ia r1) <= n)%nat by (rewrite E1, length_app in Hlen; lia).
  eapply fine_mono; [apply (get_cbor_array_fine parse n); try done; [by rewrite S1, S|lia]|].
  intros r' (l & t & Hp & Ht & Hcase). rewrite S1, S in Hp. exists (value_array l).
  destruct Hcase as [(-> & Hb & Hne & E)|(-> & E)].
  - exists ((current (get r) :: b) ++ t). split_and!; [by rewrite Hbyte, E1, E, <- !app_assoc| |done].
    constructor; [by apply opens_definite|done|unfold too_big in Hb; lia|done].
  - exists ((current (get r) :: b) ++ t ++ [0xFF]). split_and!; [by rewrite Hbyte, E1, E, <- !app_assoc| |done].
    constructor; [by apply opens_indefinite|done].
Qed.

Lemma object_fine : 0xA0 <= current (get r) <= 0xBB \/ current (get r) = 0xBF ->
  fine (item_read r) (cbor_container 0xA0 (get_cbor_object parse f) (get r)).
Proof.
  intros Hc. destruct get_good as (Hg & S & _). apply cbor_container_fine; [unfold base5; set_solver|done|done|].
  intros len b r1 [E1 S1] Hg1 Hl Ho. assert (length (ia r1) <= n)%nat by (rewrite E1, length_app in Hlen; lia).
  eapply fine_mono; [apply (get_cbor_object_fine parse n); try done; [by rewrite S1, S|lia|lia]|].
  intros r' (ms & t & Hp & Ht & Hcase). rewrite S1, S in Hp. exists (value_object (object_of ms)).
  destruct Hcase as [(-> & Hb & Hne & E)|(-> & E)].
  - exists ((current (get r) :: b) ++ t). split_and!; [by rewrite Hbyte, E1, E, <- !app_assoc| |done].
    constructor; [by apply opens_definite|done|unfold too_big in Hb; lia|done].
  - exists ((current (get r) :: b) ++ t ++ [0xFF]). split_and!; [by rewrite Hbyte, E1, E, <- !app_assoc| |done].
    constructor; [by apply opens_indefinite|done].
Qed.

Lemma parse_after t r1 : consumed (get r) t r1 -> good r1 ->
  fine (fun r' : reader => exists v t', ia r = (current (get r) :: t ++ t') ++ ia r' /\ item v t' /\
    placed (sax r) v (sax r')) (parse true r1).
Proof.
  intros Hc Hg1. destruct (consumed_one t r1 Hc) as [E S]. destruct Hc as [E1 _].
  eapply fine_mono; [apply Hparse; [done|by rewrite S|]|].
  - rewrite E1, length_app in Hlen. lia.
  - intros r' (v & t' & E' & Hi & Hp). rewrite S in Hp. exists v, t'. split_and!; [|done|done].
    rewrite E, E'. simpl. by rewrite app_assoc.
Qed.

(** Nothing is read after a number that failed. *)
Lemma sized_number_failed a r1 : sized_number 0xD8 (get r) = Ret (false, a, r1) ->
  ia r1 = [] /\ good r1 /\ ready (sax r1).
Proof.
  destruct get_good as (Hg & S & _). unfold sized_number. intros E.
  assert (ia r1 = [] /\ good r1 /\ (ready (sax (get r)) -> ready (sax r1))) as (? & ? & Hr).
  { repeat case_match; by eapply get_number_failed. }
  rewrite S in Hr. auto.
Qed.

Lemma parse_at_end Q r1 : ia r1 = [] -> good r1 -> ready (sax r1) -> fine Q (parse true r1).
Proof.
  intros E Hg Hr. eapply fine_mono; [apply Hparse; [done|done|rewrite E; simpl; lia]|].
  intros r' (v & t & Et & Hi & _). rewrite E in Et. symmetry in Et. apply app_eq_nil in Et as [-> _].
  pose proof (item_length v [] Hi) as Hl. simpl in Hl. lia.
Qed.

Lemma binary_at_end Q k r1 : ia r1 = [] -> good r1 -> fine Q (and_let (get_cbor_binary f (get r1)) k).
Proof.
  intros E Hg. eapply fine_and_let.
  { apply (get_cbor_chunked_fine 0x40 f); [unfold base5; set_solver|done|rewrite E; simpl; lia]. }
  intros s r' (t & [Et _] & Hc). rewrite E in Et. symmetry in Et. apply app_eq_nil in Et as [-> _].
  by destruct (chunked_first _ _ _ Hc) as (c & b & ? & _).
Qed.

Lemma ignored_tag_fine : tag_handler = tag_ignore -> 0xD8 <= current (get r) <= 0xDB ->
  fine (item_read r) (let* '(_, _, r) := sized_number 0xD8 (get r) in parse true r).
Proof.
  intros Et Hc. apply (fine_ignored allow _ _ _ (fun _ r => parse true r) (sized_number_fine allow 0xD8 (get r) (proj1 get_good) Hc)).
  - intros m r1 (b & Hcs & Hsz). eapply fine_mono; [apply (parse_after b); [done|eapply consumed_good; [apply get_good|done]]|].
    intros r' (v & t & E & Hi & Hp). exists v, ((current (get r) :: b) ++ t). split_and!; [done| |done].
    by apply item_ignored_tag with m.
  - intros m r1 E. apply sized_number_failed in E as (? & ? & ?). by apply parse_at_end.
Qed.

Lemma stored_tag_fine : tag_handler = tag_store -> 0xD8 <= current (get r) <= 0xDB ->
  fine (item_read r)
    (let* '(_, subtype, r) := sized_number 0xD8 (get r) in cbor_binary_event f (Some subtype) (get r)).
Proof.
  intros Et Hc. apply (fine_ignored allow _ _ _ (fun m r => cbor_binary_event f (Some m) (get r))
    (sized_number_fine allow 0xD8 (get r) (proj1 get_good) Hc)).
  - intros m r1 (b & Hcs & Hsz). assert (good r1) as Hg1 by (eapply consumed_good; [apply get_good|done]).
    unfold cbor_binary_event, get_cbor_binary. eapply fine_and_let.
    { apply (get_cbor_chunked_fine 0x40 f); [unfold base5; set_solver|done|].
      destruct Hcs as [E _]. rewrite E, length_app in Hlen. lia. }
    intros s r2 (t & Hc2 & Hch). apply (event_read r ((current (get r) :: b) ++ t)); [|done|by apply item_stored_tag].
    by eapply reads_trans; [apply consumed_one|].
  - intros m r1 E. apply sized_number_failed in E as (? & ? & ?). by apply binary_at_end.
Qed.

Lemma tag_fine : 0xC6 <= current (get r) <= 0xD4 \/ 0xD8 <= current (get r) <= 0xDB ->
  fine (item_read r) (cbor_tag parse f tag_handler (get r)).
Proof.
  intros Hc. destruct get_good as (Hg & S & _).
  assert (tag_handler <> tag_error -> 0xC6 <= current (get r) <= 0xD4 -> fine (item_read r) (parse true (get r))) as Hsmall.
  { intros Hne Hc'. eapply fine_mono; [apply (parse_after []); [done|done]|].
    intros r' (v & t & E & Hi & Hp). exists v, (current (get r) :: t). split_and!; [done|by constructor|done]. }
  pose proof ignored_tag_fine as Hignored. pose proof stored_tag_fine as Hstored.
  unfold cbor_tag. destruct tag_handler; [apply fine_error_return; [apply Hg|apply syntax_112]|..];
    (destruct (in_range 0xD8 0xDB (current (get r))) eqn:R;
     [apply in_range_spec in R; auto|apply in_range_false in R; apply Hsmall; [done|lia]]).
Qed.

Lemma half_of_bytes b1 b2 : is_byte b1 -> is_byte b2 ->
  item (value_number_float (half_value b1 b2)) [0xF9; b1; b2].
Proof.
  unfold is_byte. intros H1 H2. set (m := b1 * 256 + b2).
  set (s := 32768 <=? m). set (e := (m / 1024) mod 32). set (k := m mod 1024).
  assert (0 <= m < 65536) as Hm by (unfold m; lia).
  assert ((if s then 1 else 0) * 2 ^ 15 + e * 2 ^ 10 + k = m) as Em.
  { change (2 ^ 15) with 32768. change (2 ^ 10) with 1024. unfold s, e, k. destruct (Z.leb_spec 32768 m); dlia. }
  assert (0 <= e < 32) as He by (unfold e; dlia). assert (0 <= k < 1024) as Hk by (unfold k; dlia).
  pose proof (half_bits (F:=F) s e k He Hk) as Hh. cbv zeta in Hh. rewrite Em in Hh.
  pose proof (item_half tag_handler s e k He Hk) as Hi. rewrite Em in Hi.
  replace (m / 256) with b1 in Hh by (unfold m; dlia). replace (m mod 256) with b2 in Hh by (unfold m; dlia). rewrite Hh.
  change (be_bytes 2 m) with [(m / 256) mod 256; m mod 256] in Hi.
  replace ((m / 256) mod 256) with b1 in Hi by (unfold m; dlia). replace (m mod 256) with b2 in Hi by (unfold m; dlia). done.
Qed.

Lemma half_fine : current (get r) = 0xF9 -> fine (item_read r) (cbor_half (get r)).
Proof.
  intros Hc. destruct get_good as (Hg & S & _). unfold cbor_half. cbv zeta.
  destruct (get_cases allow (get r) Hg) as [(_ & _ & E & Hg1 & _)|(E & Hb & Hg1 & S1)].
  { eapply fine_then; [apply fine_eof; apply Hg1|]. by intros ? [_ ?]. }
  rewrite unexpect_eof_run by by apply byte_not_eof. cbn [and_then comp_bind].
  destruct (get_cases allow (get (get r)) Hg1) as [(_ & _ & E2 & Hg2 & _)|(E2 & Hb2 & Hg2 & S2)].
  { eapply fine_then; [apply fine_eof; apply Hg2|]. by intros ? [_ ?]. }
  rewrite unexpect_eof_run by by apply byte_not_eof. cbn [and_then comp_bind]. rewrite !wrapu_small by done.
  apply (after_get [current (get (get r)); current (get (get (get r)))] _ (value_number_float _)).
  - split; [rewrite E; simpl; by rewrite E2|congruence].
  - rewrite Hc. by apply half_of_bytes.
Qed.

Lemma float_fine w c (v : Z -> json F) : current (get r) = c ->
  (forall m, 0 <= m < 2 ^ (8 * Z.of_nat w) -> item (v m) (c :: be_bytes w m)) ->
  fine (item_read r) (and_let (get_number w false (get r)) (fun m r => event (dom_value (v m)) r)).
Proof.
  intros Hc Hi. eapply fine_and_let; [apply get_be_fine, get_good|]. intros m r1 [Hcs Hm].
  apply (after_get (be_bytes w m)); [done|]. rewrite Hc. by apply Hi.
Qed.

Lemma cbor_item_fine : fine (item_read r) (cbor_item parse f tag_handler (get r)).
Proof.
  destruct get_good as (Hg & S & Hb). unfold cbor_item, cbor_simple. cbv zeta.
  rewrite (proj2 (Z.eqb_neq _ _)) by by apply byte_not_eof.
  destruct (in_range 0x00 0x17 _) eqn:R.
  { apply in_range_spec in R. apply simple_fine. constructor. pose proof (small_head 0x00 R). by rewrite Z.sub_0_r in *. }
  clear R. destruct (in_range 0x18 0x1B _) eqn:R.
  { apply in_range_spec in R. apply (number_fine 0x00 value_number_unsigned); [unfold base5; set_solver|lia|by constructor]. }
  clear R. destruct (in_range 0x20 0x37 _) eqn:R.
  { apply in_range_spec in R. apply simple_fine. pose proof (item_negative tag_handler _ _ (small_head 0x20 R)) as Hi.
    rewrite to_signed_small in * by lia. by replace (0x20 - 1 - current (get r)) with (-1 - (current (get r) - 0x20)) by lia. }
  clear R. destruct (in_range 0x38 0x3B _) eqn:R.
  { apply in_range_spec in R. apply (number_fine 0x20 (fun m => value_number_integer (cbor_negative m))); [unfold base5; set_solver|lia|].
    intros m h Hh. rewrite cbor_negative_eq by by eapply head_range. by constructor. }
  clear R. destruct (in_range 0x40 0x5B _ || _).
  { apply (text_fine 0x40 (fun s => value_binary s None)); [unfold base5; set_solver|by constructor]. }
  destruct (in_range 0x60 0x7B _ || _).
  { apply (text_fine 0x60 value_string); [unfold base5; set_solver|by constructor]. }
  destruct (in_range 0x80 0x9B _ || _) eqn:R.
  { apply array_fine. apply orb_true_iff in R as [R|R]; [left; by apply in_range_spec|right; by apply Z.eqb_eq]. }
  clear R. destruct (in_range 0xA0 0xBB _ || _) eqn:R.
  { apply object_fine. apply orb_true_iff in R as [R|R]; [left; by apply in_range_spec|right; by apply Z.eqb_eq]. }
  clear R. destruct (in_range 0xC6 0xD4 _ || _) eqn:R.
  { apply tag_fine. apply orb_true_iff in R as [R|R]; [left|right]; by apply in_range_spec. }
  clear R. destruct (Z.eqb_spec (current (get r)) 0xF4) as [R1|_]; [apply simple_fine; rewrite R1; apply item_false|].
  destruct (Z.eqb_spec (current (get r)) 0xF5) as [R2|_]; [apply simple_fine; rewrite R2; apply item_true|].
  destruct (Z.eqb_spec (current (get r)) 0xF6) as [R3|_]; [apply simple_fine; rewrite R3; apply item_null|].
  destruct (Z.eqb_spec (current (get r)) 0xF9) as [R4|_]; [by apply half_fine|].
  destruct (Z.eqb_spec (current (get r)) 0xFA) as [R5|_]; [by apply (float_fine 4 0xFA (fun m => value_number_float (of_bits32 m))); [|apply item_single]|].
  destruct (Z.eqb_spec (current (get r)) 0xFB) as [R6|_]; [by apply (float_fine 8 0xFB (fun m => value_number_float (of_bits64 m))); [|apply item_double]|].
  apply fine_error_return; [apply Hg|apply syntax_112].
Qed.
End Item.

Lemma parse_cbor_internal_fine fuel : forall n, (n + 2 <= fuel)%nat ->
  parse_fine (parse_cbor_internal fuel tag_handler) n.
Proof.
  induction fuel as [|fuel IH]; intros n Hn; [lia|]. split; [|done].
  intros r Hg Hr Hl. cbn [parse_cbor_internal]. cbv iota.
  destruct (get_cases allow r Hg) as [(E & E1 & E2 & Hg' & Hs)|(E & Hb & Hg' & Hs)].
  - unfold cbor_item, cbor_simple. rewrite E2. simpl. eapply fine_mono; [apply fine_eof; apply Hg'|]. by intros ? [_ ?].
  - rewrite E in Hl. simpl in Hl. apply (cbor_item_fine _ (n - 1) fuel); try done; [apply IH; lia|lia|lia].
Qed.
End Sound.
