(* ===== verification/CborSpec.v ===== *)
(** What the CBOR reader and writer promise: the reader accepts exactly the
    items of the grammar and gives them their value, it answers on every
    input, and what the writer writes is read back. *)
From S2P Require Import Prelude Utf8 JsonValue JsonCompare JsonGrammar JsonRoundtrip JsonLexer JsonParser JsonParserFacts JsonParserComplete.
From S2P Require Import BinaryReader BinaryReaderFacts Ieee754 Cbor CborGrammar CborFacts CborSound.

Section Reader.
Context {F : Type} `{FloatBits F, MaxSize}.

(** Reading CBOR returns on every input, in every mode: a value, whose
    item stands at the beginning of the input and fills it in strict mode; a
    discarded value, without exceptions; one of the documented parse errors,
    with exceptions; or the error for an excessive size. *)
Theorem from_cbor_total (i : bytes) strict allow tag_handler : Forall is_byte i ->
  document (F:=F) allow (item tag_handler) strict i (from_cbor i strict allow tag_handler).
Proof.
  intros Hb. unfold from_cbor. apply from_binary_fine; [done|]. intros r Hg Hr E.
  apply (parse_cbor_internal_fine allow tag_handler (length i + 2) (length i)); [lia|done|done|by rewrite E].
Qed.

Lemma item_not_discarded tag_handler t : ~ item (F:=F) tag_handler value_discarded t.
Proof.
  intros Hi. remember value_discarded as v eqn:E. induction Hi; simplify_eq.
  all: auto.
Qed.

(** C28: With exceptions and in strict mode, reading CBOR returns a value
    exactly when the whole input is one item of the grammar with this
    value. *)
Theorem from_cbor_exact (i : bytes) tag_handler (j : json F) : Forall is_byte i ->
  from_cbor i true true tag_handler = Ret j <-> item tag_handler j i.
Proof.
  intros Hb. split.
  - intros E. pose proof (from_cbor_total i true true tag_handler Hb) as Ht. rewrite E in Ht. simpl in Ht.
    destruct Ht as [(t & q & -> & Hi & Hq)|[_ ?]]; [|done]. by rewrite Hq, app_nil_r.
  - intros Hi. apply (from_binary_all true); [apply get_ends|].
    intros r Hr E. apply (grammar_read tag_handler j i Hi); [done|by rewrite app_nil_r|done|lia].
Qed.
End Reader.

Section Writer.
Context {F : Type} `{FloatBitsLaws F, MaxSize}.
Variable tag_handler : cbor_tag_handler_t.
Implicit Types (j : json F).

(** The value that is read back: CBOR has one kind of non-negative integers
    and, in this library, one NaN; the reader may drop the subtype. *)
Fixpoint cbor_canonical j : json F :=
  match j with
  | value_number_integer z => if 0 <=? z then value_number_unsigned z else j
  | value_number_float f => value_number_float (if isnan f then quiet_NaN else f)
  | value_binary b t => value_binary b (match tag_handler with tag_store => t | _ => None end)
  | value_array l => value_array (map cbor_canonical l)
  | value_object m => value_object (map (fun kv => (kv.1, cbor_canonical kv.2)) m)
  | _ => j
  end.

Definition text_ok (s : bytes) : Prop := Forall is_byte s /\ Z.of_nat (length s) < 2 ^ 64.

(** Values a program can hold: numbers at their width, sizes a container can
    have, objects in the order of their map.  The reader rejects subtypes
    when the tag handler is [tag_error]. *)
Inductive cbor_writable : json F -> Prop :=
  | writable_null : cbor_writable value_null
  | writable_boolean b : cbor_writable (value_boolean b)
  | writable_integer z : - 2 ^ 63 <= z < 2 ^ 63 -> cbor_writable (value_number_integer z)
  | writable_unsigned z : 0 <= z < 2 ^ 64 -> cbor_writable (value_number_unsigned z)
  | writable_float f : cbor_writable (value_number_float f)
  | writable_string s : text_ok s -> cbor_writable (value_string s)
  | writable_binary s t : text_ok s ->
      match t with Some n => 0 <= n < 2 ^ 64 /\ tag_handler <> tag_error | None => True end ->
      cbor_writable (value_binary s t)
  | writable_array l : Forall cbor_writable l -> Z.of_nat (length l) <= array_max_size ->
      Z.of_nat (length l) < unknown_size -> cbor_writable (value_array l)
  | writable_object m : sorted_object m -> Forall (fun kv => text_ok kv.1) m -> Forall (fun kv => cbor_writable kv.2) m ->
      Z.of_nat (length m) <= object_max_size -> Z.of_nat (length m) < unknown_size -> cbor_writable (value_object m).

(** ** What is written is an item *)

Lemma write_sized_sized first n : 0 <= n < 2 ^ 64 -> sized first n (write_sized first n).
Proof. intros Hn. unfold write_sized. zcases; rewrite write_number_be; constructor; lia. Qed.

Lemma write_head_head base n : 0 <= base <= 0xA0 -> 0 <= n < 2 ^ 64 -> head base n (write_head base n).
Proof.
  intros Hb Hn. unfold write_head. destruct (Z.leb_spec n 0x17).
  - rewrite write_number_be, be_bytes_1 by lia. constructor. lia.
  - by apply head_sized, write_sized_sized.
Qed.

Lemma write_text base s : 0 <= base <= 0xA0 -> text_ok s -> chunked base s (write_head base (Z.of_nat (length s)) ++ s).
Proof. intros Hb [_ Hl]. constructor. apply write_head_head; lia. Qed.

Lemma write_float_item f : item tag_handler (cbor_canonical (value_number_float f)) (write_cbor_float f).
Proof.
  simpl. unfold write_cbor_float. destruct (isnan f) eqn:En.
  { apply (item_half tag_handler false 31 512); lia. }
  destruct (isinf f) eqn:Ei.
  { rewrite (isinf_sign f Ei) at 1. destruct (float_positive f).
    - apply (item_half tag_handler false 31 0); lia.
    - apply (item_half tag_handler true 31 0); lia. }
  unfold write_compact_float. destruct (in_float_range f && _) eqn:Ef; rewrite write_number_be.
  - apply andb_true_iff in Ef as [_ Ef]. rewrite <- (of_bits32_bits32 f Ef) at 1. apply item_single, bits32_range.
  - rewrite <- (of_bits64_bits64 f) at 1. apply item_double, bits64_range.
Qed.

Lemma write_integer_item z : - 2 ^ 63 <= z < 2 ^ 63 ->
  item tag_handler (cbor_canonical (value_number_integer z)) (write_cbor_integer z).
Proof.
  intros Hz. simpl. unfold write_cbor_integer. destruct (Z.leb_spec 0 z).
  - constructor. apply write_head_head; lia.
  - pose proof (item_negative tag_handler (-1 - z) _ (write_head_head 0x20 (-1 - z) ltac:(lia) ltac:(lia))) as Hi.
    rewrite to_signed_small in Hi by lia. by replace (-1 - (-1 - z)) with z in Hi by lia.
Qed.

Lemma write_binary_item s t : text_ok s ->
  match t with Some n => 0 <= n < 2 ^ 64 /\ tag_handler <> tag_error | None => True end ->
  item tag_handler (cbor_canonical (value_binary s t)) (write_cbor_binary s t).
Proof.
  intros Hs Ht. pose proof (write_text 0x40 s ltac:(lia) Hs) as Hc. unfold write_cbor_binary. simpl.
  destruct t as [n|]; [|destruct tag_handler; by constructor].
  destruct Ht as [Hn Hne]. pose proof (write_sized_sized 0xD8 n Hn) as Hsz. destruct tag_handler eqn:E; [done| |].
  - by apply item_ignored_tag with n; [..|constructor].
  - by apply item_stored_tag.
Qed.

Lemma write_cbor_item j : cbor_writable j -> item tag_handler (cbor_canonical j) (write_cbor j).
Proof.
  induction j as [|m IH|l IH|s|b|z|z|f|s t|] using json_ind'; inversion 1 as [| | | | | | |? Hl Hm Hu|? Hs Hk Hv Hm Hu]; subst.
  - apply item_null.
  - assert (members tag_handler (map (fun kv => (kv.1, cbor_canonical kv.2)) m)
      (flat_map (fun el => write_cbor_string el.1 ++ write_cbor el.2) m)) as Hms.
    { clear Hs Hm Hu H3. induction m as [|[k v] m IHm]; simpl; [constructor|].
      inversion IH; inversion Hk; inversion Hv; subst; simpl in *. rewrite <- app_assoc.
      constructor; [apply write_text; [lia|done]|auto|auto]. }
    cbn [cbor_canonical write_cbor]. rewrite <- (object_of_sorted (map _ m)) by (unfold sorted_object; by rewrite keys_map).
    rewrite <- (map_length (fun kv => (kv.1, cbor_canonical kv.2)) m) at 1.
    constructor; rewrite ?length_map; [apply write_head_head; unfold unknown_size in *; lia|lia|lia|done].
  - assert (items tag_handler (map cbor_canonical l) (flat_map write_cbor l)) as Hms.
    { clear Hm Hu H3. induction l as [|v l IHl]; simpl; [constructor|].
      inversion IH; inversion Hl; subst. constructor; auto. }
    cbn [cbor_canonical write_cbor]. rewrite <- (map_length cbor_canonical l) at 1.
    constructor; rewrite ?length_map; [apply write_head_head; unfold unknown_size in *; lia|lia|lia|done].
  - simpl. by apply item_string, write_text.
  - destruct b; [apply item_true|apply item_false].
  - by apply write_integer_item.
  - simpl. by apply item_unsigned, write_head_head.
  - apply write_float_item.
  - by apply write_binary_item.
Qed.

(** ** What is written is made of bytes *)

Lemma write_sized_bytes first n : 0 <= first < 253 -> Forall is_byte (write_sized first n).
Proof.
  intros Hf. unfold write_sized. zcases; (constructor; [unfold is_byte; lia|apply write_number_bytes]).
Qed.

Lemma write_head_bytes base n : 0 <= base <= 0xA0 -> Forall is_byte (write_head base n).
Proof. intros Hb. unfold write_head. case_match; [apply write_number_bytes|apply write_sized_bytes; lia]. Qed.

Lemma write_text_bytes base s : 0 <= base <= 0xA0 -> text_ok s ->
  Forall is_byte (write_head base (Z.of_nat (length s)) ++ s).
Proof. intros Hb [Hs _]. apply Forall_app. by split; [apply write_head_bytes|]. Qed.

Lemma write_float_bytes (f : F) : Forall is_byte (write_cbor_float f).
Proof.
  unfold write_cbor_float. repeat case_match; try (apply write_compact_float_bytes; unfold is_byte; lia);
    repeat constructor; unfold is_byte; lia.
Qed.

Lemma write_cbor_bytes j : cbor_writable j -> Forall is_byte (write_cbor j).
Proof.
  induction j as [|m IH|l IH|s|b|z|z|f|s t|] using json_ind'; inversion 1 as [| | | | | |? ? Hs Ht|? Hl Hm Hu|? Hs Hk Hv Hm Hu];
    subst; cbn [write_cbor].
  - by repeat constructor.
  - apply Forall_app. split; [apply write_head_bytes; lia|]. apply Forall_flat_map.
    clear Hs Hm Hu H3. induction m as [|[k v] m IHm]; constructor; inversion IH; inversion Hk; inversion Hv; subst; auto.
    apply Forall_app. split; [apply write_text_bytes; [lia|done]|auto].
  - apply Forall_app. split; [apply write_head_bytes; lia|]. apply Forall_flat_map.
    clear Hm Hu H3. induction l as [|v l IHl]; constructor; inversion IH; inversion Hl; subst; auto.
  - apply write_text_bytes; [lia|done].
  - destruct b; by repeat constructor.
  - unfold write_cbor_integer. case_match; apply write_head_bytes; lia.
  - apply write_head_bytes. lia.
  - apply write_float_bytes.
  - unfold write_cbor_binary. apply Forall_app. split; [|apply write_text_bytes; [lia|done]].
    destruct t; [apply write_sized_bytes; lia|constructor].
Qed.

(** C29: For a value that a program can hold (numbers of 64 bits, sizes below
    2^64 - 1 that a container can have, no discarded value), reading back what
    [to_cbor] wrote gives the value, up to the type of non-negative integers,
    the NaN and, for a reader that ignores tags, the subtype of binary
    values.  A reader that stores or ignores tags is asked for when there is
    a binary value with a subtype: the default of [from_cbor], the handler
    [error], rejects the tag that [to_cbor] writes for it with
    parse_error.112, so such values are excluded for it. *)
Theorem cbor_roundtrip j strict allow : cbor_writable j ->
  from_cbor (to_cbor j) strict allow tag_handler = Ret (cbor_canonical j).
Proof.
  intros Hj. pose proof (write_cbor_item j Hj) as Hi. unfold from_cbor, to_cbor.
  apply (from_binary_all allow); [apply get_ends|].
  intros r Hr E. apply (grammar_read tag_handler _ _ Hi); [by apply write_cbor_bytes|by rewrite app_nil_r|done|lia].
Qed.
End Writer.

(** ** Examples *)

#[local] Existing Instance example_sizes.

(** [\{"a": [1, -2, true], "b": 1.5\}], with the array of unknown size. *)
Definition example_cbor : bytes :=
  [0xA2; 0x61; 97; 0x9F; 0x01; 0x21; 0xF5; 0xFF; 0x61; 98; 0xF9; 0x3E; 0x00].
Definition example_cbor_value : json double :=
  value_object [([97], value_array [value_number_unsigned 1; value_number_integer (-2); value_boolean true]);
                ([98], value_number_float (of_pattern 0x3FF8000000000000))].

Lemma example_cbor_bytes : Forall is_byte example_cbor.
Proof. apply Forall_forall. intros b Hb. assert (Forall (fun b => (0 <=? b) && (b <? 256) = true) example_cbor) as Hc by by repeat constructor.
  rewrite Forall_forall in Hc. apply Hc in Hb. apply andb_true_iff in Hb as [H1 H2]. unfold is_byte. lia. Qed.

Lemma from_cbor_exact_witness : Forall is_byte example_cbor /\ item tag_error example_cbor_value example_cbor.
Proof.
  split; [apply example_cbor_bytes|].
  apply (proj1 (from_cbor_exact example_cbor tag_error example_cbor_value example_cbor_bytes)). vm_compute. reflexivity.
Defined.

Lemma from_cbor_total_witness :
  document (F:=double) true (item tag_error) true example_cbor (from_cbor example_cbor true true tag_error).
Proof. exact (from_cbor_total example_cbor true true tag_error example_cbor_bytes). Defined.

Definition example_stored : json double :=
  value_array [value_null; value_number_integer 5; value_number_integer (-300); value_number_unsigned (2 ^ 64 - 1);
    value_number_float (of_pattern 0x3FF8000000000000); value_number_float (of_pattern 0x3FB999999999999A);
    value_string (str "text"); value_binary [1; 2; 3] (Some 70000); value_object [(str "k", value_boolean false)]].

Lemma text_ok_str s : Z.of_nat (length (str s)) < 2 ^ 64 -> text_ok (str s).
Proof. intros Hl. split; [apply str_bytes|done]. Qed.

Lemma example_stored_writable : cbor_writable tag_store example_stored.
Proof.
  apply writable_array; [|simpl; lia|unfold unknown_size; simpl; lia].
  repeat (apply Forall_cons; split); try apply Forall_nil_2; try (constructor; try lia; fail).
  - apply writable_string, text_ok_str. simpl. lia.
  - apply writable_binary; [|split; [lia|done]]. split; [repeat constructor; unfold is_byte; lia|simpl; lia].
  - apply writable_object; [repeat constructor| | |simpl; lia|unfold unknown_size; simpl; lia].
    + apply Forall_cons. split; [|apply Forall_nil_2]. apply text_ok_str. simpl. lia.
    + apply Forall_cons. split; [constructor|apply Forall_nil_2].
Qed.

Lemma cbor_roundtrip_witness : cbor_writable tag_store example_stored /\
  from_cbor (to_cbor example_stored) true true tag_store = Ret (cbor_canonical tag_store example_stored).
Proof.
  split; [apply example_stored_writable|].
  exact (cbor_roundtrip tag_store example_stored true true example_stored_writable).
Defined.

(** ** Where the reader departs from RFC 8949 *)

(** The integer -2^64 is read as 0. *)
Example big_negative_wraps :
  from_cbor (F:=double) (0x3B :: replicate 8 0xFF) true true tag_error = Ret (value_number_integer 0).
Proof. vm_compute. reflexivity. Qed.

(** An array of 2^64 - 1 elements is taken for one of unknown size, which
    ends at the next break byte. *)
Example huge_array_is_indefinite :
  from_cbor (F:=double) (0x9B :: replicate 8 0xFF ++ [0xFF]) true true tag_error = Ret (value_array []).
Proof. vm_compute. reflexivity. Qed.
