(* ===== verification/Msgpack.v ===== *)
(** MessagePack: the reader and the writer of [src/libephmem/json.hpp]
    ([parse_msgpack_internal], [get_msgpack_string], [get_msgpack_binary],
    [get_msgpack_array], [get_msgpack_object]; [write_msgpack]). *)
From S2P Require Import Prelude Utf8 JsonValue JsonCompare JsonLexer JsonParser BinaryReader.

Section Reader.
Context {F S : Type} `{BinarySax F S} `{FloatBits F}.
Notation reader := (reader S).
Implicit Types (r : reader).

Definition get_msgpack_string r : comp (bool * bytes * reader) :=
  let* '(b, r) := unexpect_eof r in
  if negb b then Ret (false, [], r)
  else
    let c := current r in
    if in_range 0xA0 0xBF c then get_bytes (Z.land c 0x1F) r
    else if in_range 0xD9 0xDB c then and_get [] (sized_number 0xD9 r) get_bytes
    else let* '(b, r) := error_return (parse_error 113) r in Ret (b, [], r).

(** The subtype is an [int8_t], stored as a [uint8_t]. *)
Definition get_subtype r : comp (bool * Z * reader) :=
  let* '(b, n, r) := get_number 1 false r in Ret (b, wrapu 8 (to_signed 8 n), r).

(** A binary value with its subtype. *)
Definition binary_with (subtype : option Z) (len : Z) r : comp (bool * (bytes * option Z) * reader) :=
  and_get ([], None) (get_bytes len r) (fun b r => Ret (true, (b, subtype), r)).

(** The sizes of the labels fixext 1 to fixext 16. *)
Definition fixext_size (c : Z) : Z :=
  if c =? 0xD4 then 1 else if c =? 0xD5 then 2 else if c =? 0xD6 then 4 else if c =? 0xD7 then 8 else 16.

Definition get_msgpack_binary r : comp (bool * (bytes * option Z) * reader) :=
  let c := current r in
  if in_range 0xC4 0xC6 c then and_get ([], None) (sized_number 0xC4 r) (binary_with None)
  else if in_range 0xC7 0xC9 c then
    and_get ([], None) (sized_number 0xC7 r) (fun len r =>
    and_get ([], None) (get_subtype r) (fun subtype r => binary_with (Some subtype) len r))
  else if in_range 0xD4 0xD8 c then
    and_get ([], None) (get_subtype r) (fun subtype r => binary_with (Some subtype) (fixext_size c) r)
  else Ret (false, ([], None), r).

Section Containers.
Variable parse : reader -> comp (bool * reader).
Variable fuel : nat.

Definition get_msgpack_array (len : Z) r : comp (bool * reader) :=
  and_then (event (sax_start_array_len len) r) (fun r =>
  and_then (counted parse fuel 0 len r) (event sax_end_array)).

(** One turn of the loop of [get_msgpack_object]. *)
Definition msgpack_member r : comp (bool * reader) :=
  and_let (get_msgpack_string (get r)) (fun key r =>
  and_then (event (sax_key key) r) parse).

Definition get_msgpack_object (len : Z) r : comp (bool * reader) :=
  and_then (event (sax_start_object_len len) r) (fun r =>
  and_then (counted msgpack_member fuel 0 len r) (event sax_end_object)).

(** The width of the labels int 8 to int 64. *)
Definition int_bits (c : Z) : Z :=
  if c =? 0xD0 then 8 else if c =? 0xD1 then 16 else if c =? 0xD2 then 32 else 64.

(** Labels 0xDC to 0xFF, and the byte 0xC1. *)
Definition msgpack_counted r : comp (bool * reader) :=
  let c := current r in
  if in_range 0xDC 0xDD c then and_let (sized_number 0xDB r) get_msgpack_array
  else if in_range 0xDE 0xDF c then and_let (sized_number 0xDD r) get_msgpack_object
  else if in_range 0xE0 0xFF c then event (sax_number_integer (to_signed 8 c)) r
  else error_return (parse_error 112) r.

(** Labels 0xCA to 0xD3. *)
Definition msgpack_number r : comp (bool * reader) :=
  let c := current r in
  if c =? 0xCA then and_let (get_number 4 false r) (fun n => event (sax_number_float (of_bits32 n) []))
  else if c =? 0xCB then and_let (get_number 8 false r) (fun n => event (sax_number_float (of_bits64 n) []))
  else if in_range 0xCC 0xCF c then and_let (sized_number 0xCC r) (fun n => event (sax_number_unsigned n))
  else if in_range 0xD0 0xD3 c then
    and_let (sized_number 0xD0 r) (fun n => event (sax_number_integer (to_signed (int_bits c) n)))
  else msgpack_counted r.

(** Strings, constants and binary values. *)
Definition msgpack_text r : comp (bool * reader) :=
  let c := current r in
  if in_range 0xA0 0xBF c || in_range 0xD9 0xDB c then
    and_let (get_msgpack_string r) (fun s => event (sax_string s))
  else if c =? 0xC0 then event sax_null r
  else if c =? 0xC2 then event (sax_boolean false) r
  else if c =? 0xC3 then event (sax_boolean true) r
  else if in_range 0xC4 0xC9 c || in_range 0xD4 0xD8 c then
    and_let (get_msgpack_binary r) (fun b => event (sax_binary b.1 b.2))
  else msgpack_number r.

(** The [switch] of [parse_msgpack_internal]. *)
Definition msgpack_item r : comp (bool * reader) :=
  let c := current r in
  if c =? EOF then unexpect_eof r
  else if in_range 0x00 0x7F c then event (sax_number_unsigned c) r
  else if in_range 0x80 0x8F c then get_msgpack_object (Z.land c 0x0F) r
  else if in_range 0x90 0x9F c then get_msgpack_array (Z.land c 0x0F) r
  else msgpack_text r.
End Containers.

Fixpoint parse_msgpack_internal (fuel : nat) r : comp (bool * reader) :=
  match fuel with
  | O => OutOfFuel
  | Datatypes.S fuel => msgpack_item (parse_msgpack_internal fuel) fuel (get r)
  end.
End Reader.

(** [from_msgpack] *)
Definition from_msgpack {F} `{FloatBits F, MaxSize} (i : bytes) (strict allow_exceptions : bool) : comp (json F) :=
  from_binary get (parse_msgpack_internal (length i + 2)) i strict allow_exceptions.

(** ** The writer *)

Section Writer.
Context {F : Type} `{FloatCompare F, FloatBits F}.

Definition write_msgpack_unsigned (n : Z) : bytes :=
  if n <? 128 then write_number 1 false n
  else if n <=? 0xFF then [0xCC] ++ write_number 1 false n
  else if n <=? 0xFFFF then [0xCD] ++ write_number 2 false n
  else if n <=? 0xFFFFFFFF then [0xCE] ++ write_number 4 false n
  else [0xCF] ++ write_number 8 false n.

(** A negative number has the bytes of its two's complement. *)
Definition write_msgpack_integer (z : Z) : bytes :=
  if 0 <=? z then write_msgpack_unsigned z
  else if -32 <=? z then write_number 1 false z
  else if - 2 ^ 7 <=? z then [0xD0] ++ write_number 1 false z
  else if - 2 ^ 15 <=? z then [0xD1] ++ write_number 2 false z
  else if - 2 ^ 31 <=? z then [0xD2] ++ write_number 4 false z
  else [0xD3] ++ write_number 8 false z.

(** No label is written for a size over 2^32 - 1. *)
Definition write_msgpack_string (s : bytes) : bytes :=
  let N := Z.of_nat (length s) in
  (if N <=? 31 then write_number 1 false (Z.lor 0xA0 N)
   else if N <=? 0xFF then [0xD9] ++ write_number 1 false N
   else if N <=? 0xFFFF then [0xDA] ++ write_number 2 false N
   else if N <=? 0xFFFFFFFF then [0xDB] ++ write_number 4 false N
   else []) ++ s.

Definition write_msgpack_count (base first N : Z) : bytes :=
  if N <=? 15 then write_number 1 false (Z.lor base N)
  else if N <=? 0xFFFF then [first] ++ write_number 2 false N
  else if N <=? 0xFFFFFFFF then [first + 1] ++ write_number 4 false N
  else [].

(** The label of a fixext format, if there is one for the size. *)
Definition fixext_label (N : Z) : option Z :=
  if N =? 1 then Some 0xD4 else if N =? 2 then Some 0xD5 else if N =? 4 then Some 0xD6
  else if N =? 8 then Some 0xD7 else if N =? 16 then Some 0xD8 else None.

Definition write_msgpack_binary (b : bytes) (subtype : option Z) : bytes :=
  let N := Z.of_nat (length b) in
  let use_ext := match subtype with Some _ => true | None => false end in
  (if N <=? 0xFF then
     match (if use_ext then fixext_label N else None) with
     | Some output_type => [output_type]
     | None => [if use_ext then 0xC7 else 0xC4] ++ write_number 1 false N
     end
   else if N <=? 0xFFFF then [if use_ext then 0xC8 else 0xC5] ++ write_number 2 false N
   else if N <=? 0xFFFFFFFF then [if use_ext then 0xC9 else 0xC6] ++ write_number 4 false N
   else []) ++
  match subtype with Some t => write_number 1 false t | None => [] end ++ b.

Fixpoint write_msgpack (j : json F) : bytes :=
  match j with
  | value_null => [0xC0]
  | value_boolean b => if b then [0xC3] else [0xC2]
  | value_number_integer z => write_msgpack_integer z
  | value_number_unsigned n => write_msgpack_unsigned n
  | value_number_float f => write_compact_float 0xCA 0xCB f
  | value_string s => write_msgpack_string s
  | value_array l => write_msgpack_count 0x90 0xDC (Z.of_nat (length l)) ++ flat_map write_msgpack l
  | value_binary b t => write_msgpack_binary b t
  | value_object m =>
      write_msgpack_count 0x80 0xDE (Z.of_nat (length m)) ++
      flat_map (fun el => write_msgpack_string el.1 ++ write_msgpack el.2) m
  | value_discarded => []
  end.

(** [to_msgpack] into a new vector. *)
Definition to_msgpack (j : json F) : bytes := write_msgpack j.
End Writer.
