(* ===== verification/MsgpackGrammar.v ===== *)
(** MessagePack texts with their values: the specification of the reader and
    the writer of [Msgpack], after the MessagePack specification (its types
    nil, bool, int, float, str, bin, ext, array and map). *)
From S2P Require Import Prelude JsonValue JsonGrammar BinaryReader BinaryReaderFacts.

(** A number of 8, 16 or 32 bits after its label. *)
Inductive sized32 (first : Z) : Z -> bytes -> Prop :=
  | sized32_8 n : 0 <= n < 2 ^ 8 -> sized32 first n (first :: be_bytes 1 n)
  | sized32_16 n : 0 <= n < 2 ^ 16 -> sized32 first n (first + 1 :: be_bytes 2 n)
  | sized32_32 n : 0 <= n < 2 ^ 32 -> sized32 first n (first + 2 :: be_bytes 4 n).

(** The number of elements of an array or a map. *)
Inductive count_head (base first : Z) : Z -> bytes -> Prop :=
  | count_fix n : 0 <= n < 16 -> count_head base first n [base + n]
  | count_16 n : 0 <= n < 2 ^ 16 -> count_head base first n (first :: be_bytes 2 n)
  | count_32 n : 0 <= n < 2 ^ 32 -> count_head base first n (first + 1 :: be_bytes 4 n).

Inductive string_text : bytes -> bytes -> Prop :=
  | string_fix s : (length s < 32)%nat -> string_text s ((0xA0 + Z.of_nat (length s)) :: s)
  | string_sized s h : sized32 0xD9 (Z.of_nat (length s)) h -> string_text s (h ++ s).

Inductive binary_text : bytes -> option Z -> bytes -> Prop :=
  | binary_bin s h : sized32 0xC4 (Z.of_nat (length s)) h -> binary_text s None (h ++ s)
  | binary_ext s t h : sized32 0xC7 (Z.of_nat (length s)) h -> is_byte t -> binary_text s (Some t) (h ++ [t] ++ s)
  | binary_fixext c n s t : (c, n) ∈ [(0xD4, 1); (0xD5, 2); (0xD6, 4); (0xD7, 8); (0xD8, 16)] ->
      Z.of_nat (length s) = n -> is_byte t -> binary_text s (Some t) ([c; t] ++ s).

Section Grammar.
Context {F : Type} `{FloatBits F, MaxSize}.

Inductive packed : json F -> bytes -> Prop :=
  | packed_fixint n : 0 <= n < 128 -> packed (value_number_unsigned n) [n]
  | packed_uint n h : sized 0xCC n h -> packed (value_number_unsigned n) h
  | packed_negative z : -32 <= z < 0 -> packed (value_number_integer z) [256 + z]
  | packed_int c w z : (c, w) ∈ [(0xD0, 1%nat); (0xD1, 2%nat); (0xD2, 4%nat); (0xD3, 8%nat)] ->
      - 2 ^ (8 * Z.of_nat w - 1) <= z < 2 ^ (8 * Z.of_nat w - 1) ->
      packed (value_number_integer z) (c :: be_bytes w (wrapu (8 * Z.of_nat w) z))
  | packed_nil : packed value_null [0xC0]
  | packed_false : packed (value_boolean false) [0xC2]
  | packed_true : packed (value_boolean true) [0xC3]
  | packed_float32 n : 0 <= n < 2 ^ 32 -> packed (value_number_float (of_bits32 n)) (0xCA :: be_bytes 4 n)
  | packed_float64 n : 0 <= n < 2 ^ 64 -> packed (value_number_float (of_bits64 n)) (0xCB :: be_bytes 8 n)
  | packed_string s t : string_text s t -> packed (value_string s) t
  | packed_binary s y t : binary_text s y t -> packed (value_binary s y) t
  | packed_array l h t : count_head 0x90 0xDC (Z.of_nat (length l)) h -> Z.of_nat (length l) <= array_max_size ->
      packed_elements l t -> packed (value_array l) (h ++ t)
  | packed_map ms h t : count_head 0x80 0xDE (Z.of_nat (length ms)) h -> Z.of_nat (length ms) <= object_max_size ->
      packed_members ms t -> packed (value_object (object_of ms)) (h ++ t)
with packed_elements : list (json F) -> bytes -> Prop :=
  | elements_nil : packed_elements [] []
  | elements_cons v t l ts : packed v t -> packed_elements l ts -> packed_elements (v :: l) (t ++ ts)
with packed_members : list (bytes * json F) -> bytes -> Prop :=
  | members_nil : packed_members [] []
  | members_cons k tk v t ms ts : string_text k tk -> packed v t -> packed_members ms ts ->
      packed_members ((k, v) :: ms) ((tk ++ t) ++ ts).

(** The text of one member. *)
Definition packed_member (kv : bytes * json F) (t : bytes) : Prop :=
  exists tk tv, t = tk ++ tv /\ string_text kv.1 tk /\ packed kv.2 tv.

Lemma texts_elements l t : texts packed l t -> packed_elements l t.
Proof. induction 1; by constructor. Qed.

Lemma msgpack_texts_members ms t : texts packed_member ms t -> packed_members ms t.
Proof. induction 1 as [|[k v] t ms ts (tk & tv & -> & Hk & Hv) _ IH]; by constructor. Qed.
End Grammar.

Scheme packed_mind := Induction for packed Sort Prop
  with packed_elements_mind := Induction for packed_elements Sort Prop
  with packed_members_mind := Induction for packed_members Sort Prop.
Combined Scheme msgpack_ind from packed_mind, packed_elements_mind, packed_members_mind.

(** ** Facts *)

Lemma sized32_sized first n h : sized32 first n h -> sized first n h.
Proof. by destruct 1; constructor. Qed.

Lemma sized_sized32 first n c b : sized first n (c :: b) -> c <= first + 2 -> sized32 first n (c :: b).
Proof.
  intros Hs Hc. remember (c :: b) as h eqn:E. destruct Hs; injection E as <- <-; [constructor..|lia]; done.
Qed.

Lemma sized32_label first n h : sized32 first n h -> exists c b, h = c :: b /\ first <= c <= first + 2.
Proof. destruct 1; do 2 eexists; (split; [reflexivity|lia]). Qed.

Lemma string_text_label s t : string_text s t -> exists c b, t = c :: b /\ (0xA0 <= c <= 0xBF \/ 0xD9 <= c <= 0xDB).
Proof.
  destruct 1 as [s Hs|s h Hh]; [do 2 eexists; split; [reflexivity|lia]|].
  destruct (sized32_label _ _ _ Hh) as (c & b & -> & Hc). exists c, (b ++ s). split; [done|lia].
Qed.

Lemma fixext_range c n : (c, n) ∈ [(0xD4, 1); (0xD5, 2); (0xD6, 4); (0xD7, 8); (0xD8, 16)] -> 0xD4 <= c <= 0xD8 /\ 0 <= n.
Proof.
  intros Hin. repeat (apply elem_of_cons in Hin as [[= -> ->]|Hin]; [lia|]). by apply elem_of_nil in Hin.
Qed.

Lemma binary_text_label s y t : binary_text s y t -> exists c b, t = c :: b /\ (0xC4 <= c <= 0xC9 \/ 0xD4 <= c <= 0xD8).
Proof.
  destruct 1 as [s h Hh|s y h Hh _|c n s y Hc _ _].
  - destruct (sized32_label _ _ _ Hh) as (c & b & -> & Hc). exists c, (b ++ s). split; [done|lia].
  - destruct (sized32_label _ _ _ Hh) as (c & b & -> & Hc). exists c, (b ++ [y] ++ s). split; [done|lia].
  - apply fixext_range in Hc. exists c, (y :: s). split; [done|lia].
Qed.

Lemma count_head_label base first n h : count_head base first n h ->
  exists c b, h = c :: b /\ (base <= c <= base + 15 \/ first <= c <= first + 1).
Proof. destruct 1; do 2 eexists; (split; [reflexivity|lia]). Qed.

Section First.
Context {F : Type} `{FloatBits F, MaxSize}.

Lemma packed_nonempty (v : json F) t : packed v t -> t <> [].
Proof.
  destruct 1; try done.
  - by eapply sized_nonempty.
  - by destruct (string_text_label _ _ H1) as (c & b & -> & _).
  - by destruct (binary_text_label _ _ _ H1) as (c & b & -> & _).
  - by destruct (count_head_label _ _ _ _ H1) as (c & b & -> & _).
  - by destruct (count_head_label _ _ _ _ H1) as (c & b & -> & _).
Qed.
End First.
