(* ===== verification/MsgpackFacts.v ===== *)
(** The MessagePack reader and its grammar: every text of [MsgpackGrammar] is
    read, with its value. *)
From S2P Require Import Prelude Utf8 JsonValue JsonGrammar JsonLexer JsonParser JsonParserFacts JsonParserComplete.
From S2P Require Import BinaryReader BinaryReaderFacts Msgpack MsgpackGrammar.

Lemma land_low4 base c : base = 0x80 \/ base = 0x90 -> base <= c <= base + 15 -> Z.land c 0x0F = c - base.
Proof. intros Hb Hc. change 0x0F with (Z.ones 4). rewrite Z.land_ones by lia. change (2 ^ 4) with 16. destruct Hb as [->| ->]; dlia. Qed.

Lemma land_string c : 0xA0 <= c <= 0xBF -> Z.land c 0x1F = c - 0xA0.
Proof. intros Hc. change 0x1F with (Z.ones 5). rewrite Z.land_ones by lia. change (2 ^ 5) with 32. dlia. Qed.

Lemma subtype_byte n : is_byte n -> wrapu 8 (to_signed 8 n) = n.
Proof.
  unfold is_byte, to_signed, wrapu. intros Hn. rewrite (Z.mod_small n) by (change (2 ^ 8) with 256; lia).
  change (2 ^ (8 - 1)) with 128. change (2 ^ 8) with 256. zcases; dlia.
Qed.

Section Facts.
Context {F : Type} `{FloatBits F, MaxSize}.
Variable allow : bool.
Notation reader := (reader (dom F)).
Implicit Types (r : reader) (d : dom F) (v : json F) (t q s : bytes).
Notation parse fuel := (parse_msgpack_internal (F:=F) (S:=dom F) fuel).

(** ** Strings and binary values *)

Lemma sized32_gives first n h r q : sized32 first n h -> opened r h q -> gives (sized_number (F:=F) first r) r n q.
Proof. intros Hs Ho. by apply (sized_number_run first n h r q (sized32_sized _ _ _ Hs)). Qed.

Lemma sized32_range first n h r q : sized32 first n h -> opened r h q -> first <= current r <= first + 2.
Proof. intros Hs (b & -> & _). by destruct (sized32_label _ _ _ Hs) as (c & b' & [= -> _] & ?). Qed.

Lemma get_string_gives s t r q : string_text s t -> Forall is_byte t -> opened r t q ->
  gives (get_msgpack_string (F:=F) r) r s q.
Proof.
  intros Hs Hby Ho. destruct (string_text_label _ _ Hs) as (c & b & Et & Hc).
  assert (current r = c) as Hcur by (destruct Ho as (b' & Eb & _); congruence).
  unfold get_msgpack_string. rewrite unexpect_eof_run by (unfold EOF; lia). cbn [comp_bind negb]. cbv iota zeta.
  destruct Hs as [s Hl|s h Hh].
  - destruct Ho as (b' & [= Hc' <-] & E). inversion Hby; subst. steer. rewrite land_string by lia.
    replace (current r - 0xA0) with (Z.of_nat (length s)) by lia. by apply get_bytes_gives.
  - apply Forall_app in Hby as [_ Hby]. apply opened_app in Ho; [|by eapply sized_nonempty, sized32_sized].
    pose proof (sized32_range _ _ _ _ _ Hh Ho). steer.
    eapply and_get_gives; [by apply (sized32_gives _ _ h)|]. intros r' E S. by apply get_bytes_gives.
Qed.

Lemma get_subtype_gives y q r (r0 : reader) : is_byte y -> ia r = [y] ++ q -> sax r = sax r0 ->
  gives (get_subtype (F:=F) r) r0 y q.
Proof.
  intros Hy E S. unfold get_subtype. assert (be_bytes 1 y = [y]) as Eb.
  { unfold be_bytes. simpl. unfold is_byte in Hy. by rewrite Z.mod_small. }
  destruct (get_be_run 1 r y q) as (r' & -> & ? & ?); [by rewrite Eb|exact Hy|]. simpl. exists r'.
  rewrite subtype_byte by done. split_and!; [done|done|congruence].
Qed.

Lemma binary_with_gives y s r (r0 : reader) q : ia r = s ++ q -> Forall is_byte s -> sax r = sax r0 ->
  gives (binary_with (F:=F) y (Z.of_nat (length s)) r) r0 (s, y) q.
Proof.
  intros E Hb S. eapply and_get_gives; [by apply get_bytes_gives|]. intros r' E' S'. by exists r'.
Qed.

Lemma fixext_size_label c n : (c, n) ∈ [(0xD4, 1); (0xD5, 2); (0xD6, 4); (0xD7, 8); (0xD8, 16)] -> fixext_size c = n.
Proof. intros Hin. repeat (apply elem_of_cons in Hin as [[= -> ->]|Hin]; [done|]). by apply elem_of_nil in Hin. Qed.

Lemma get_binary_gives s y t r q : binary_text s y t -> Forall is_byte t -> opened r t q ->
  gives (get_msgpack_binary (F:=F) r) r (s, y) q.
Proof.
  intros Hs Hby Ho. unfold get_msgpack_binary. cbv zeta. destruct Hs as [s h Hh|s y h Hh Hy|c n s y Hin Hn Hy].
  - apply Forall_app in Hby as [_ Hby]. apply opened_app in Ho; [|by eapply sized_nonempty, sized32_sized].
    pose proof (sized32_range _ _ _ _ _ Hh Ho). steer.
    eapply and_get_gives; [by apply (sized32_gives _ _ h)|]. intros r' E S. by apply binary_with_gives.
  - apply Forall_app in Hby as [_ Hby]. apply Forall_app in Hby as [_ Hby].
    apply opened_app in Ho; [|by eapply sized_nonempty, sized32_sized]. rewrite <- app_assoc in Ho.
    pose proof (sized32_range _ _ _ _ _ Hh Ho). steer.
    eapply and_get_gives; [by apply (sized32_gives _ _ h)|]. intros r1 E1 S1.
    eapply and_get_gives; [by apply (get_subtype_gives y (s ++ q))|]. intros r2 E2 S2. by apply binary_with_gives.
  - inversion Hby as [|? ? _ Hby']; inversion Hby' as [|? ? _ Hs]; subst.
    destruct (fixext_range _ _ Hin). destruct Ho as (b & [= Hc <-] & E). rewrite Hc in *. steer.
    eapply and_get_gives; [by apply (get_subtype_gives y (s ++ q))|]. intros r2 E2 S2.
    rewrite (fixext_size_label _ _ Hin). by apply binary_with_gives.
Qed.

(** ** Items *)

Definition packed_runs v t : Prop := forall fuel r q, Forall is_byte t -> opened r t q -> ready (sax r) ->
  (length t <= fuel)%nat -> stores (msgpack_item (parse fuel) fuel r) (sax r) v q.

Lemma opened_current r c t q : opened r (c :: t) q -> current r = c /\ ia r = t ++ q.
Proof. by intros (b & [= -> <-] & E). Qed.

Lemma fixint_runs n : 0 <= n < 128 -> packed_runs (value_number_unsigned n) [n].
Proof. intros Hn fuel r q _ Ho Hr _. apply opened_current in Ho as [Hc E]. unfold msgpack_item, msgpack_text, msgpack_number, msgpack_counted. steer. rewrite Hc. by apply event_stores. Qed.

Lemma uint_runs n h : sized 0xCC n h -> packed_runs (value_number_unsigned n) h.
Proof.
  intros Hs fuel r q _ Ho Hr _. pose proof (sized_opened_range _ _ _ _ _ Hs Ho). unfold msgpack_item, msgpack_text, msgpack_number, msgpack_counted. steer.
  eapply gives_stores; [by apply (sized_number_run _ _ h)|done|done].
Qed.

Lemma msgpack_negative_runs z : -32 <= z < 0 -> packed_runs (value_number_integer z) [256 + z].
Proof.
  intros Hz fuel r q _ Ho Hr _. apply opened_current in Ho as [Hc E]. unfold msgpack_item, msgpack_text, msgpack_number, msgpack_counted. steer. rewrite Hc.
  replace (256 + z) with (wrapu 8 z) by (unfold wrapu; change (2 ^ 8) with 256; dlia).
  rewrite to_signed_wrap by lia. by apply event_stores.
Qed.

Lemma int_runs c w z : (c, w) ∈ [(0xD0, 1%nat); (0xD1, 2%nat); (0xD2, 4%nat); (0xD3, 8%nat)] ->
  - 2 ^ (8 * Z.of_nat w - 1) <= z < 2 ^ (8 * Z.of_nat w - 1) ->
  packed_runs (value_number_integer z) (c :: be_bytes w (wrapu (8 * Z.of_nat w) z)).
Proof.
  intros Hin Hz fuel r q _ Ho Hr _.
  assert (0xD0 <= c <= 0xD3 /\ int_bits c = 8 * Z.of_nat w /\ 0 < 8 * Z.of_nat w /\
    sized 0xD0 (wrapu (8 * Z.of_nat w) z) (c :: be_bytes w (wrapu (8 * Z.of_nat w) z))) as (Hc & Hb & Hw & Hs).
  { repeat (apply elem_of_cons in Hin as [[= -> ->]|Hin];
      [split_and!; [lia|lia|done|lia|]; constructor; by apply wrapu_range|]). by apply elem_of_nil in Hin. }
  destruct (opened_current _ _ _ _ Ho) as [Hcur _]. unfold msgpack_item, msgpack_text, msgpack_number, msgpack_counted. steer.
  eapply gives_stores; [by apply (sized_number_run _ _ _ _ _ Hs)|done|]. intros r'.
  by rewrite Hcur, Hb, to_signed_wrap.
Qed.

Lemma msgpack_constant_runs c v : (c, v) ∈ [(0xC0, @value_null F); (0xC2, value_boolean false); (0xC3, value_boolean true)] ->
  packed_runs v [c].
Proof.
  intros Hin fuel r q _ Ho Hr _. apply opened_current in Ho as [Hc E]. unfold msgpack_item, msgpack_text, msgpack_number, msgpack_counted. rewrite Hc.
  repeat (apply elem_of_cons in Hin as [[= -> ->]|Hin]; [by apply event_stores|]). by apply elem_of_nil in Hin.
Qed.

Lemma float32_runs n : 0 <= n < 2 ^ 32 -> packed_runs (value_number_float (of_bits32 n)) (0xCA :: be_bytes 4 n).
Proof.
  intros Hn fuel r q _ Ho Hr _. apply opened_current in Ho as [Hc E]. unfold msgpack_item, msgpack_text, msgpack_number, msgpack_counted. steer.
  eapply gives_stores; [by apply (get_be_run 4)|done|done].
Qed.

Lemma float64_runs n : 0 <= n < 2 ^ 64 -> packed_runs (value_number_float (of_bits64 n)) (0xCB :: be_bytes 8 n).
Proof.
  intros Hn fuel r q _ Ho Hr _. apply opened_current in Ho as [Hc E]. unfold msgpack_item, msgpack_text, msgpack_number, msgpack_counted. steer.
  eapply gives_stores; [by apply (get_be_run 8)|done|done].
Qed.

Lemma msgpack_string_runs s t : string_text s t -> packed_runs (value_string s) t.
Proof.
  intros Hs fuel r q Hby Ho Hr _. destruct (string_text_label _ _ Hs) as (c & b & Et & Hc).
  assert (current r = c) as Hcur by (destruct Ho as (b' & Eb & _); congruence). unfold msgpack_item, msgpack_text, msgpack_number, msgpack_counted.
  destruct Hc; steer; (eapply gives_stores; [by apply (get_string_gives s t)|done|done]).
Qed.

Lemma msgpack_binary_runs s y t : binary_text s y t -> packed_runs (value_binary s y) t.
Proof.
  intros Hs fuel r q Hby Ho Hr _. destruct (binary_text_label _ _ _ Hs) as (c & b & Et & Hc).
  assert (current r = c) as Hcur by (destruct Ho as (b' & Eb & _); congruence). unfold msgpack_item, msgpack_text, msgpack_number, msgpack_counted.
  destruct Hc; steer; (eapply gives_stores; [by apply (get_binary_gives s y t)|done|done]).
Qed.

(** ** Arrays and maps *)

Lemma packed_reads v t fuel r q : packed v t -> packed_runs v t -> Forall is_byte t -> ia r = t ++ q -> ready (sax r) ->
  (length t < fuel)%nat -> stores (parse fuel r) (sax r) v q.
Proof.
  intros Hp Hv Hby E Hr Hf. destruct t as [|c b]; [by apply packed_nonempty in Hp|].
  destruct (opened_get r (c :: b) q c b E eq_refl) as (Ho & Hs & _).
  destruct fuel as [|fuel]; [lia|]. cbn [parse_msgpack_internal]. rewrite <- Hs. apply Hv; [done|done|by rewrite Hs|simpl in *; lia].
Qed.

Definition elements_run (l : list (json F)) t : Prop := texts (fun v t => packed v t /\ packed_runs v t) l t.

Definition member_text (kv : bytes * json F) t : Prop :=
  exists tk tv, t = tk ++ tv /\ string_text kv.1 tk /\ packed kv.2 tv /\ packed_runs kv.2 tv.
Definition members_run (ms : list (bytes * json F)) t : Prop := texts member_text ms t.

Lemma msgpack_element_run n d0 v t : packed v t -> packed_runs v t -> element_runs (array_inv d0) (parse (S n)) n v t.
Proof.
  intros Hp Hv xs r q Hby E Hf Hn.
  destruct (packed_reads v t (S n) r q Hp Hv Hby E (array_ready _ _ _ Hf)) as (r' & ? & ? & ?); [lia|].
  exists r'. split_and!; [done|done|]. by eapply array_place.
Qed.

Lemma msgpack_member_run n d0 kv t : member_text kv t -> element_runs (object_inv d0) (msgpack_member (parse (S n))) n kv t.
Proof.
  intros (tk & tv & -> & Hk & Hp & Hv) xs r q Hby E Hf Hn. destruct kv as [k v]. simpl in Hk, Hp, Hv.
  apply Forall_app in Hby as [Hbk Hbt]. rewrite length_app in Hn. rewrite <- app_assoc in E.
  destruct (string_text_label _ _ Hk) as (c & b & Et & _). destruct (opened_get r tk _ c b E Et) as (Ho & Hsx & _).
  destruct (get_string_gives k tk (get r) _ Hk Hbk Ho) as (r1 & Hr1 & E1 & S1).
  unfold msgpack_member. rewrite Hr1. cbn [and_let comp_bind].
  destruct (event_key_run d0 (object_of xs) k r1) as (r2 & Hr2 & E2 & Hrd & Hpl & _);
    [by rewrite S1, Hsx|apply object_of_is_sorted|].
  change (event (sax_key k) r1) with (event (dom_key k) r1). rewrite Hr2. cbn [and_then comp_bind].
  destruct (packed_reads v tv (S n) r2 q Hp Hv Hbt) as (r3 & -> & E3 & Hp3); [congruence|done|lia|].
  exists r3. unfold object_inv. rewrite object_of_snoc. split_and!; [done|done|by apply Hpl].
Qed.

Lemma member_nonempty kv t : member_text kv t -> t <> [].
Proof. intros (tk & tv & -> & Hk & _). by destruct (string_text_label _ _ Hk) as (c & b & -> & _). Qed.

Lemma get_array_run fuel l t r q : elements_run l t -> Forall is_byte t -> ready (sax r) -> (length t < fuel)%nat ->
  Z.of_nat (length l) <= array_max_size -> ia r = t ++ q ->
  stores (get_msgpack_array (parse fuel) fuel (Z.of_nat (length l)) r) (sax r) (value_array l) q.
Proof.
  intros Hl Hby Hr Hf Hmax E. destruct fuel as [|n]; [lia|]. unfold get_msgpack_array.
  destruct (event_start_array_run (Z.of_nat (length l)) r Hr) as (r1 & -> & E1 & Hf1); [unfold too_big; lia|].
  cbn [and_then comp_bind].
  destruct (counted_run (array_inv (sax r)) (parse (S n)) n l t) with (f := S n) (i := 0) (xs := @nil (json F)) (r := r1) (q := q)
    as (r2 & Hr2 & E2 & Hf2); [|done|by rewrite E1|done|lia|lia|].
  { eapply texts_impl; [|exact Hl]. intros v u [Hp Hv]. split; [by eapply packed_nonempty|by apply msgpack_element_run]. }
  rewrite Z.add_0_l in Hr2. rewrite Hr2. cbn [and_then comp_bind].
  destruct (event_end_run true _ _ _ Hf2 eq_refl) as (r3 & Hr3 & E3 & Hp). exists r3.
  split_and!; [exact Hr3|congruence|done].
Qed.

Lemma get_object_run fuel ms t r q : members_run ms t -> Forall is_byte t -> ready (sax r) -> (length t < fuel)%nat ->
  Z.of_nat (length ms) <= object_max_size -> ia r = t ++ q ->
  stores (get_msgpack_object (parse fuel) fuel (Z.of_nat (length ms)) r) (sax r) (value_object (object_of ms)) q.
Proof.
  intros Hl Hby Hr Hf Hmax E. destruct fuel as [|n]; [lia|]. unfold get_msgpack_object.
  destruct (event_start_object_run (Z.of_nat (length ms)) r Hr) as (r1 & -> & E1 & Hf1); [unfold too_big; lia|].
  cbn [and_then comp_bind].
  destruct (counted_run (object_inv (sax r)) (msgpack_member (parse (S n))) n ms t)
    with (f := S n) (i := 0) (xs := @nil (bytes * json F)) (r := r1) (q := q)
    as (r2 & Hr2 & E2 & Hf2); [|done|by rewrite E1|done|lia|lia|].
  { eapply texts_impl; [|exact Hl]. intros x u Hx. split; [by eapply member_nonempty|by apply msgpack_member_run]. }
  rewrite Z.add_0_l in Hr2. rewrite Hr2. cbn [and_then comp_bind].
  destruct (event_end_run false _ _ _ Hf2 eq_refl) as (r3 & Hr3 & E3 & Hp). exists r3.
  split_and!; [exact Hr3|congruence|done].
Qed.

Lemma count_opened base first n h r q : count_head base first n h -> opened r h q -> base = 0x80 \/ base = 0x90 ->
  (base <= current r <= base + 15 /\ Z.land (current r) 0x0F = n /\ ia r = q) \/
  (first <= current r <= first + 1 /\ gives (sized_number (F:=F) (first - 1) r) r n q).
Proof.
  intros Hh Ho Hb. destruct Hh as [n Hn|n Hn|n Hn].
  - left. apply opened_current in Ho as [Hc E]. rewrite (land_low4 base) by (done || lia). split_and!; [lia|lia|lia|done].
  - right. destruct (opened_current _ _ _ _ Ho) as [Hc _]. split; [lia|]. eapply sized_number_run; [|exact Ho].
    pose proof (sized_16 (first - 1) n Hn) as Hs. by replace (first - 1 + 1) with first in Hs by lia.
  - right. destruct (opened_current _ _ _ _ Ho) as [Hc _]. split; [lia|]. eapply sized_number_run; [|exact Ho].
    pose proof (sized_32 (first - 1) n Hn) as Hs. by replace (first - 1 + 2) with (first + 1) in Hs by lia.
Qed.

Lemma count_nonempty base first n h : count_head base first n h -> h <> [].
Proof. intros Hh. by destruct (count_head_label _ _ _ _ Hh) as (c & b & -> & _). Qed.

Lemma msgpack_array_runs l h t : count_head 0x90 0xDC (Z.of_nat (length l)) h -> Z.of_nat (length l) <= array_max_size ->
  elements_run l t -> packed_runs (value_array l) (h ++ t).
Proof.
  intros Hh Hmax Hl fuel r q Hby Ho Hr Hf. pose proof (count_nonempty _ _ _ _ Hh). apply opened_app in Ho; [|done].
  apply Forall_app in Hby as [_ Hby]. rewrite length_app in Hf.
  assert (length t < fuel)%nat by (destruct h; [done|simpl in Hf; lia]). unfold msgpack_item, msgpack_text, msgpack_number, msgpack_counted.
  destruct (count_opened _ _ _ _ _ _ Hh Ho) as [(Hc & Hn & E)|(Hc & r1 & E & E1 & S1)]; [by right| |]; steer.
  - rewrite Hn. by apply (get_array_run fuel l t).
  - change 0xDB with (0xDC - 1). rewrite E. cbn [and_let comp_bind]. rewrite <- S1.
    apply (get_array_run fuel l t); try done. by rewrite S1.
Qed.

Lemma map_runs ms h t : count_head 0x80 0xDE (Z.of_nat (length ms)) h -> Z.of_nat (length ms) <= object_max_size ->
  members_run ms t -> packed_runs (value_object (object_of ms)) (h ++ t).
Proof.
  intros Hh Hmax Hl fuel r q Hby Ho Hr Hf. pose proof (count_nonempty _ _ _ _ Hh). apply opened_app in Ho; [|done].
  apply Forall_app in Hby as [_ Hby]. rewrite length_app in Hf.
  assert (length t < fuel)%nat by (destruct h; [done|simpl in Hf; lia]). unfold msgpack_item, msgpack_text, msgpack_number, msgpack_counted.
  destruct (count_opened _ _ _ _ _ _ Hh Ho) as [(Hc & Hn & E)|(Hc & r1 & E & E1 & S1)]; [by left| |]; steer.
  - rewrite Hn. by apply (get_object_run fuel ms t).
  - change 0xDD with (0xDE - 1). rewrite E. cbn [and_let comp_bind]. rewrite <- S1.
    apply (get_object_run fuel ms t); try done. by rewrite S1.
Qed.

Lemma msgpack_grammar_runs :
  (forall v t, packed v t -> packed_runs v t) /\
  (forall l t, packed_elements l t -> elements_run l t) /\
  (forall ms t, packed_members ms t -> members_run ms t).
Proof.
  apply msgpack_ind; intros.
  - by apply fixint_runs.
  - by apply uint_runs.
  - by apply msgpack_negative_runs.
  - by apply int_runs.
  - apply msgpack_constant_runs; set_solver.
  - apply msgpack_constant_runs; set_solver.
  - apply msgpack_constant_runs; set_solver.
  - by apply float32_runs.
  - by apply float64_runs.
  - by apply msgpack_string_runs.
  - by apply msgpack_binary_runs.
  - by apply msgpack_array_runs.
  - by apply map_runs.
  - constructor.
  - by constructor.
  - constructor.
  - constructor; [by do 2 eexists|done].
Qed.

Lemma msgpack_grammar_read v t fuel r q : packed v t -> Forall is_byte t -> ia r = t ++ q -> ready (sax r) ->
  (length t < fuel)%nat -> stores (parse fuel r) (sax r) v q.
Proof. intros Hp. apply packed_reads; [done|]. by apply msgpack_grammar_runs. Qed.
End Facts.
