(* ===== verification/MsgpackSound.v ===== *)
(** The MessagePack reader terminates on every input, and what it reads is in
    the grammar with its value; everything else is reported as an error. *)
From S2P Require Import Prelude Utf8 JsonValue JsonGrammar JsonLexer JsonParser JsonParserFacts JsonParserComplete.
From S2P Require Import BinaryReader BinaryReaderFacts Msgpack MsgpackGrammar MsgpackFacts.

Section Sound.
Context {F : Type} `{FloatBits F, MaxSize}.
Variable allow : bool.
Notation reader := (reader (dom F)).
Implicit Types (r : reader) (d : dom F) (v : json F) (t q s : bytes).
Notation fine := (fine allow).
Notation fine_let := (fine_let allow).
Notation good := (good allow).

(** ** Strings and binary values *)

(** The text of [a], which began with the byte of [r], was read. *)
Definition opened_read {A} (T : A -> bytes -> Prop) r (a : A) r' : Prop :=
  exists b, consumed r b r' /\ T a (current r :: b).

Lemma sized32_fine first r : good r -> first <= current r <= first + 2 ->
  fine_let (opened_read (sized32 first) r) (sized_number (F:=F) first r).
Proof.
  intros Hg Hc. eapply fine_let_mono; [apply sized_number_fine; [done|lia]|].
  intros n r' (b & Hcs & Hs). exists b. split; [done|]. apply sized_sized32; [done|lia].
Qed.

Lemma sized32_range_fine first n h : sized32 first n h -> 0 <= n.
Proof. destruct 1; lia. Qed.

Lemma get_string_fine r : good r -> fine_let (opened_read string_text r) (get_msgpack_string r).
Proof.
  intros Hg. unfold get_msgpack_string. destruct (Z.eqb_spec (current r) EOF) as [Hc|Hc].
  { pose proof (fine_eof allow r (proj2 Hg)) as Hf.
    destruct (unexpect_eof r) as [[[] ?]| |]; simpl in *; naive_solver. }
  rewrite unexpect_eof_run by done. cbn [comp_bind negb]. cbv iota zeta.
  destruct (in_range 0xA0 0xBF (current r)) eqn:R1; [|destruct (in_range 0xD9 0xDB (current r)) eqn:R2].
  - apply in_range_spec in R1. rewrite land_string by done.
    eapply fine_let_mono; [apply get_bytes_fine; [done|lia]|]. intros s r' [Hcs Hl]. exists s. split; [done|].
    replace (current r) with (0xA0 + Z.of_nat (length s)) by lia. constructor. lia.
  - apply in_range_spec in R2. eapply fine_and_get; [apply sized32_fine; [done|lia]|].
    intros n r1 (b & Hcs & Hs). eapply fine_let_mono.
    { apply get_bytes_fine; [by eapply consumed_good|by eapply sized32_range_fine]. }
    intros s r' [Hcs2 Hl]. exists (b ++ s). split; [by eapply reads_trans|].
    rewrite app_comm_cons. constructor. by rewrite Hl.
  - pose proof (fine_error_return allow (fun _ : reader => False) (parse_error 113) r (proj2 Hg) syntax_113) as He.
    destruct (error_return (parse_error 113) r) as [[[] ?]| |]; simpl in *; done.
Qed.

Lemma get_subtype_fine r : good r ->
  fine_let (fun y (r' : reader) => consumed r [y] r' /\ is_byte y) (get_subtype r).
Proof.
  intros Hg. unfold get_subtype. pose proof (get_be_fine allow 1 r Hg) as Hf.
  destruct (get_number 1 false r) as [[[[] n] r']| |]; simpl in *; try done.
  destruct Hf as [Hcs Hn]. change (2 ^ 8) with 256 in Hn. rewrite subtype_byte by exact Hn. split; [|exact Hn].
  assert (be_bytes 1 n = [n]) as <-; [|done]. unfold be_bytes. simpl. by rewrite Z.mod_small.
Qed.

Lemma binary_with_fine y len r : good r -> 0 <= len ->
  fine_let (fun a (r' : reader) => consumed r a.1 r' /\ a.2 = y /\ Z.of_nat (length a.1) = len) (binary_with y len r).
Proof.
  intros Hg Hl. eapply fine_and_get; [by apply get_bytes_fine|]. intros s r' [? ?]. by split_and!.
Qed.

Lemma fixext_in c : 0xD4 <= c <= 0xD8 ->
  (c, fixext_size c) ∈ [(0xD4, 1); (0xD5, 2); (0xD6, 4); (0xD7, 8); (0xD8, 16)].
Proof.
  intros Hc. assert (c = 0xD4 \/ c = 0xD5 \/ c = 0xD6 \/ c = 0xD7 \/ c = 0xD8) as Hd by lia.
  destruct Hd as [->|[->|[->|[->| ->]]]]; unfold fixext_size; simpl; set_solver.
Qed.

Lemma get_binary_fine r : good r -> 0xC4 <= current r <= 0xC9 \/ 0xD4 <= current r <= 0xD8 ->
  fine_let (opened_read (fun a => binary_text a.1 a.2) r) (get_msgpack_binary r).
Proof.
  intros Hg Hc. unfold get_msgpack_binary. cbv zeta.
  destruct (in_range 0xC4 0xC6 (current r)) eqn:R1; [|destruct (in_range 0xC7 0xC9 (current r)) eqn:R2;
    [|destruct (in_range 0xD4 0xD8 (current r)) eqn:R3]].
  - apply in_range_spec in R1. eapply fine_and_get; [apply sized32_fine; [done|lia]|].
    intros n r1 (b & Hcs & Hs). eapply fine_let_mono.
    { apply binary_with_fine; [by eapply consumed_good|by eapply sized32_range_fine]. }
    intros [s y] r' (Hcs2 & Hy & Hl). simpl in *. subst y. exists (b ++ s). split; [by eapply reads_trans|].
    rewrite app_comm_cons. constructor. by rewrite Hl.
  - apply in_range_spec in R2. eapply fine_and_get; [apply sized32_fine; [done|lia]|].
    intros n r1 (b & Hcs & Hs). assert (good r1) as Hg1 by by eapply consumed_good.
    eapply fine_and_get; [by apply get_subtype_fine|]. intros y r2 [Hcs1 Hy]. eapply fine_let_mono.
    { apply binary_with_fine; [by eapply consumed_good|by eapply sized32_range_fine]. }
    intros [s y'] r' (Hcs2 & Hy' & Hl). simpl in *. subst y'. exists (b ++ [y] ++ s).
    split; [eapply reads_trans; [done|]; by eapply reads_trans|].
    rewrite app_comm_cons. constructor; [by rewrite Hl|done].
  - apply in_range_spec in R3. pose proof (fixext_in _ R3) as Hin. destruct (fixext_range _ _ Hin).
    eapply fine_and_get; [by apply get_subtype_fine|]. intros y r2 [Hcs1 Hy]. eapply fine_let_mono.
    { apply binary_with_fine; [by eapply consumed_good|done]. }
    intros [s y'] r' (Hcs2 & Hy' & Hl). simpl in *. subst y'. exists ([y] ++ s).
    split; [by eapply reads_trans|]. apply (binary_fixext (current r) _ s y Hin Hl Hy).
  - apply in_range_false in R1, R2, R3. lia.
Qed.

(** ** Arrays and maps

    [parse] reads one value from at most [n] bytes. *)

Definition packed_read r r' : Prop := exists v t, ia r = t ++ ia r' /\ packed v t /\ placed (sax r) v (sax r').

Definition parse_fine (parse : reader -> comp (bool * reader)) (n : nat) : Prop :=
  forall r, good r -> ready (sax r) -> (length (ia r) <= n)%nat -> fine (packed_read r) (parse r).

Lemma packed_length v t : packed v t -> (1 <= length t)%nat.
Proof. intros Hp. apply packed_nonempty in Hp. destruct t; [done|simpl; lia]. Qed.

Section Loops.
Variable parse : reader -> comp (bool * reader).
Variable n : nat.
Hypothesis Hparse : parse_fine parse n.
Variable d0 : dom F.

Lemma value_element_fine : element_fine allow packed (array_inv d0) parse n.
Proof.
  intros acc r Hg Hf Hn. eapply fine_mono; [apply Hparse; [done|by eapply array_ready|done]|].
  intros r' (v & t & E & Hi & Hp). exists v, t. split_and!; [done|done|by eapply good_placed| |by eapply array_place].
  rewrite E, length_app. pose proof (packed_length _ _ Hi). lia.
Qed.

Lemma msgpack_member_fine : element_fine allow packed_member (object_inv d0) (msgpack_member parse) n.
Proof.
  intros acc r Hg Hf Hn. unfold msgpack_member.
  destruct (get_cases allow r Hg) as [(E & E1 & E2 & Hg' & Hs)|(E & Hby & Hg' & Hs)].
  { eapply fine_and_let; [by apply get_string_fine|]. intros s r1 (b & _ & Ht). rewrite E2 in Ht.
    destruct (string_text_label _ _ Ht) as (c & b' & [= <- _] & Hc). unfold EOF in Hc. lia. }
  eapply fine_and_let; [by apply get_string_fine|]. intros k r1 (b & Hcs & Hk).
  apply (consumed_get r b r1 E) in Hcs as [E1 S1]; [|done].
  destruct (event_key_run d0 (object_of acc) k r1) as (r2 & Hr2 & E2 & Hrd & Hpl & Hfl); [by rewrite S1|apply object_of_is_sorted|].
  change (event (sax_key k) r1) with (event (dom_key k) r1). rewrite Hr2. cbn [and_then comp_bind].
  set (tk := current (get r) :: b) in *. assert (1 <= length tk)%nat by (simpl; lia).
  assert (good r2) as Hg2.
  { eapply good_suffix; [exact Hg|by rewrite E2|]. eapply settled_flags; [apply Hg|by rewrite <- S1]. }
  assert (length (ia r) = length tk + length (ia r2))%nat as El by (rewrite E1, E2; by rewrite length_app).
  eapply fine_mono; [apply Hparse; [done|done|lia]|]. intros r' (v & t & E' & Hi & Hp).
  assert (length (ia r2) = length t + length (ia r'))%nat by (rewrite E'; by rewrite length_app).
  exists (k, v), (tk ++ t). unfold object_inv. rewrite object_of_snoc.
  split_and!; [|by exists tk, t|by eapply good_placed|lia|by apply Hpl].
  by rewrite E1, <- E2, E', app_assoc.
Qed.
End Loops.

Lemma get_array_fine parse n f len r : parse_fine parse n -> good r -> ready (sax r) -> 0 <= len ->
  len <> unknown_size -> (length (ia r) + 1 <= f)%nat -> (length (ia r) <= n)%nat ->
  fine (fun r' : reader => exists l t, placed (sax r) (value_array l) (sax r') /\ packed_elements l t /\
    len = Z.of_nat (length l) /\ len <= array_max_size /\ ia r = t ++ ia r') (get_msgpack_array parse f len r).
Proof.
  intros Hp Hg Hr Hlen Hne Hf Hn. unfold get_msgpack_array.
  eapply fine_then; [by apply event_start_array_fine|]. intros r1 (E1 & Hf1 & Hbig).
  assert (good r1) as Hg1 by (eapply (good_filling allow r r1 []); [done|apply Hg|done|done]).
  eapply fine_then.
  { apply (counted_fine allow _ _ _ n f (value_element_fine parse n Hp (sax r)) 0 len []); [done|done|done|rewrite E1; lia|rewrite E1; lia]. }
  intros r2 (l & t & E & Ht & Hl & Hf2). destruct (event_end_run true _ _ _ Hf2 eq_refl) as (r3 & Hr3 & E3 & Hpl).
  change (event sax_end_array r2) with (event dom_end_array r2). rewrite Hr3. exists l, t.
  unfold too_big in Hbig. rewrite E3, <- E1. split_and!; [done|by apply texts_elements|lia|lia|done].
Qed.

Lemma get_object_fine parse n f len r : parse_fine parse n -> good r -> ready (sax r) -> 0 <= len ->
  len <> unknown_size -> (length (ia r) + 1 <= f)%nat -> (length (ia r) <= n)%nat ->
  fine (fun r' : reader => exists ms t, placed (sax r) (value_object (object_of ms)) (sax r') /\ packed_members ms t /\
    len = Z.of_nat (length ms) /\ len <= object_max_size /\ ia r = t ++ ia r') (get_msgpack_object parse f len r).
Proof.
  intros Hp Hg Hr Hlen Hne Hf Hn. unfold get_msgpack_object.
  eapply fine_then; [by apply event_start_object_fine|]. intros r1 (E1 & Hf1 & Hbig).
  assert (good r1) as Hg1 by (eapply (good_filling allow r r1 []); [done|apply Hg|done|done]).
  eapply fine_then.
  { apply (counted_fine allow _ _ _ n f (msgpack_member_fine parse n Hp (sax r)) 0 len []); [done|done|done|rewrite E1; lia|rewrite E1; lia]. }
  intros r2 (ms & t & E & Ht & Hl & Hf2). destruct (event_end_run false _ _ _ Hf2 eq_refl) as (r3 & Hr3 & E3 & Hpl).
  change (event sax_end_object r2) with (event dom_end_object r2). rewrite Hr3. exists ms, t.
  unfold too_big in Hbig. rewrite E3, <- E1. split_and!; [done|by apply msgpack_texts_members|lia|lia|done].
Qed.

(** ** Items *)

Section Item.
Variable parse : reader -> comp (bool * reader).
Variable n f : nat.
Hypothesis Hparse : parse_fine parse n.
Variable r : reader.
Hypothesis Hgood : good r.
Hypothesis Hready : ready (sax r).
Hypothesis Hbyte : ia r = current (get r) :: ia (get r).
Hypothesis Hlen : (length (ia (get r)) <= n)%nat.
Hypothesis Hfuel : (n + 1 <= f)%nat.

Lemma msgpack_get_good : good (get r) /\ sax (get r) = sax r /\ is_byte (current (get r)).
Proof. destruct (get_cases allow r Hgood) as [(E & _)|(_ & ? & ? & ?)]; [by rewrite Hbyte in E|done]. Qed.

Lemma msgpack_after_get t r1 v : consumed (get r) t r1 -> packed v (current (get r) :: t) ->
  fine (packed_read r) (event (dom_value v) r1).
Proof.
  intros Hc Hi. apply (consumed_get r t r1 Hbyte) in Hc as [E S]; [|apply msgpack_get_good].
  eapply fine_mono; [apply event_value_fine; by rewrite S|].
  intros r' [E' Hp]. eexists _, _. rewrite E', <- S. split_and!; [exact E|exact Hi|exact Hp].
Qed.

Lemma msgpack_simple_fine v : packed v [current (get r)] -> fine (packed_read r) (event (dom_value v) (get r)).
Proof. intros Hi. by apply (msgpack_after_get []). Qed.

(** A value read by [m], then sent to the builder. *)
Lemma scalar_fine {A} (T : A -> bytes -> Prop) (m : comp (bool * A * reader)) (v : A -> json F) :
  fine_let (opened_read T (get r)) m -> (forall a t, T a t -> packed (v a) t) ->
  fine (packed_read r) (and_let m (fun a r => event (dom_value (v a)) r)).
Proof. intros Hm Hv. eapply fine_and_let; [exact Hm|]. intros a r1 (b & Hcs & Ht). by apply (msgpack_after_get b); [|apply Hv]. Qed.

Lemma msgpack_float_fine w c (v : Z -> json F) : current (get r) = c ->
  (forall m, 0 <= m < 2 ^ (8 * Z.of_nat w) -> packed (v m) (c :: be_bytes w m)) ->
  fine (packed_read r) (and_let (get_number w false (get r)) (fun m r => event (dom_value (v m)) r)).
Proof.
  intros Hc Hi. eapply fine_and_let; [apply get_be_fine, msgpack_get_good|]. intros m r1 [Hcs Hm].
  apply (msgpack_after_get (be_bytes w m)); [done|]. rewrite Hc. by apply Hi.
Qed.

Lemma int_fine : 0xD0 <= current (get r) <= 0xD3 ->
  fine (packed_read r) (and_let (sized_number 0xD0 (get r))
    (fun m => event (sax_number_integer (to_signed (int_bits (current (get r))) m)))).
Proof.
  intros Hc. apply (scalar_fine (fun m h => exists b, h = current (get r) :: b /\ sized 0xD0 m h) _
    (fun m => value_number_integer (to_signed (int_bits (current (get r))) m))).
  - eapply fine_let_mono; [apply sized_number_fine; [apply msgpack_get_good|lia]|].
    intros m r' (b & Hcs & Hs). exists b. eauto.
  - intros m h (b & Eh & Hs). assert (forall c w, (c, w) ∈ [(0xD0, 1%nat); (0xD1, 2%nat); (0xD2, 4%nat); (0xD3, 8%nat)] ->
      current (get r) = c -> int_bits c = 8 * Z.of_nat w -> 0 < 8 * Z.of_nat w -> 0 <= m < 2 ^ (8 * Z.of_nat w) ->
      packed (value_number_integer (to_signed (int_bits (current (get r))) m)) (c :: be_bytes w m)) as Hi.
    { intros c w Hin -> -> Hw Hm.
      destruct (signed_number _ m Hw Hm) as [Hr E]. rewrite <- E at 2. by apply packed_int. }
    destruct Hs; injection Eh as Ec _; (apply Hi; [set_solver|lia|reflexivity|lia|simpl; lia]).
Qed.

(** The elements after the head of an array or a map. *)
Lemma msgpack_array_fine h len r1 : ia r = h ++ ia r1 -> good r1 -> sax r1 = sax r -> (length (ia r1) <= n)%nat ->
  count_head 0x90 0xDC len h -> fine (packed_read r) (get_msgpack_array parse f len r1).
Proof.
  intros E Hg1 S Hl Hh. assert (0 <= len < 2 ^ 32) as Hr by (destruct Hh; lia).
  eapply fine_mono; [apply (get_array_fine parse n); try done; [by rewrite S|lia|unfold unknown_size; lia|lia]|].
  intros r' (l & t & Hp & Ht & -> & Hm & E'). rewrite S in Hp. eexists _, (h ++ t).
  split_and!; [by rewrite E, E', app_assoc|by constructor|done].
Qed.

Lemma map_fine h len r1 : ia r = h ++ ia r1 -> good r1 -> sax r1 = sax r -> (length (ia r1) <= n)%nat ->
  count_head 0x80 0xDE len h -> fine (packed_read r) (get_msgpack_object parse f len r1).
Proof.
  intros E Hg1 S Hl Hh. assert (0 <= len < 2 ^ 32) as Hr by (destruct Hh; lia).
  eapply fine_mono; [apply (get_object_fine parse n); try done; [by rewrite S|lia|unfold unknown_size; lia|lia]|].
  intros r' (ms & t & Hp & Ht & -> & Hm & E'). rewrite S in Hp. eexists _, (h ++ t).
  split_and!; [by rewrite E, E', app_assoc|by constructor|done].
Qed.

(** The number of elements in 16 or 32 bits. *)
Lemma counted_head_fine base first build : first <= current (get r) <= first + 1 ->
  (forall h len r1, ia r = h ++ ia r1 -> good r1 -> sax r1 = sax r -> (length (ia r1) <= n)%nat ->
     count_head base first len h -> fine (packed_read r) (build len r1)) ->
  fine (packed_read r) (and_let (sized_number (first - 1) (get r)) build).
Proof.
  intros Hc Hb. destruct msgpack_get_good as (Hg & S & _).
  eapply fine_and_let; [apply sized_number_fine; [done|lia]|]. intros m r1 (b & Hcs & Hs).
  assert (good r1) as Hg1 by by eapply consumed_good.
  assert (length (ia r1) <= n)%nat as Hl by (destruct Hcs as [E _]; rewrite E, length_app in Hlen; lia).
  apply (consumed_get r b r1 Hbyte) in Hcs as [E S1]; [|done].
  apply (Hb (current (get r) :: b)); [done|done|done|done|].
  remember (current (get r) :: b) as h eqn:Eh. destruct Hs as [m Hm|m Hm|m Hm|m Hm]; injection Eh as Ec Eb.
  - lia.
  - replace (first - 1 + 1) with first by lia. by constructor.
  - replace (first - 1 + 2) with (first + 1) by lia. by constructor.
  - lia.
Qed.

Lemma fix_head base first : base = 0x80 \/ base = 0x90 -> base <= current (get r) <= base + 15 ->
  count_head base first (Z.land (current (get r)) 0x0F) [current (get r)].
Proof.
  intros Hb Hc. rewrite (land_low4 base) by done. pose proof (count_fix base first (current (get r) - base)) as Hh.
  replace (base + (current (get r) - base)) with (current (get r)) in Hh by lia. apply Hh. lia.
Qed.

Lemma msgpack_item_fine : fine (packed_read r) (msgpack_item parse f (get r)).
Proof.
  destruct msgpack_get_good as (Hg & S & Hb). unfold msgpack_item, msgpack_text, msgpack_number, msgpack_counted. cbv zeta.
  rewrite (proj2 (Z.eqb_neq _ _)) by by apply byte_not_eof.
  destruct (in_range 0x00 0x7F _) eqn:R; [apply in_range_spec in R; apply msgpack_simple_fine; constructor; lia|].
  clear R. destruct (in_range 0x80 0x8F _) eqn:R.
  { apply in_range_spec in R. apply (map_fine [current (get r)]); [done..|]. apply fix_head; [by left|lia]. }
  clear R. destruct (in_range 0x90 0x9F _) eqn:R.
  { apply in_range_spec in R. apply (msgpack_array_fine [current (get r)]); [done..|]. apply fix_head; [by right|lia]. }
  clear R. destruct (in_range 0xA0 0xBF _ || _).
  { apply (scalar_fine string_text _ value_string); [by apply get_string_fine|by constructor]. }
  destruct (Z.eqb_spec (current (get r)) 0xC0) as [R1|_]; [apply msgpack_simple_fine; rewrite R1; constructor|].
  destruct (Z.eqb_spec (current (get r)) 0xC2) as [R2|_]; [apply msgpack_simple_fine; rewrite R2; constructor|].
  destruct (Z.eqb_spec (current (get r)) 0xC3) as [R3|_]; [apply msgpack_simple_fine; rewrite R3; constructor|].
  destruct (in_range 0xC4 0xC9 _ || _) eqn:R.
  { apply orb_true_iff in R. rewrite !in_range_spec in R.
    apply (scalar_fine (fun a => binary_text a.1 a.2) _ (fun a => value_binary a.1 a.2)); [by apply get_binary_fine|].
    by constructor. }
  clear R. destruct (Z.eqb_spec (current (get r)) 0xCA) as [R4|_].
  { apply (msgpack_float_fine 4 0xCA (fun m => value_number_float (of_bits32 m)) R4). by constructor. }
  destruct (Z.eqb_spec (current (get r)) 0xCB) as [R5|_].
  { apply (msgpack_float_fine 8 0xCB (fun m => value_number_float (of_bits64 m)) R5). by constructor. }
  destruct (in_range 0xCC 0xCF _) eqn:R.
  { apply in_range_spec in R. apply (scalar_fine (sized 0xCC) _ value_number_unsigned); [|by constructor].
    apply sized_number_fine; [done|lia]. }
  clear R. destruct (in_range 0xD0 0xD3 _) eqn:R; [apply in_range_spec in R; by apply int_fine|].
  clear R. destruct (in_range 0xDC 0xDD _) eqn:R.
  { apply in_range_spec in R. apply (counted_head_fine 0x90 0xDC); [lia|apply msgpack_array_fine]. }
  clear R. destruct (in_range 0xDE 0xDF _) eqn:R.
  { apply in_range_spec in R. apply (counted_head_fine 0x80 0xDE); [lia|apply map_fine]. }
  clear R. destruct (in_range 0xE0 0xFF _) eqn:R; [|apply fine_error_return; [apply Hg|apply syntax_112]].
  apply in_range_spec in R. apply msgpack_simple_fine.
  replace (to_signed 8 (current (get r))) with (current (get r) - 256).
  - pose proof (packed_negative (current (get r) - 256)) as Hp.
    replace (256 + (current (get r) - 256)) with (current (get r)) in Hp by lia. apply Hp. lia.
  - unfold to_signed, wrapu. change (2 ^ 8) with 256. change (2 ^ (8 - 1)) with 128. rewrite Z.mod_small by lia. zcases; lia.
Qed.
End Item.

Lemma parse_msgpack_internal_fine fuel : forall n, (n + 2 <= fuel)%nat ->
  parse_fine (parse_msgpack_internal fuel) n.
Proof.
  induction fuel as [|fuel IH]; intros n Hn; [lia|]. intros r Hg Hr Hl. cbn [parse_msgpack_internal].
  destruct (get_cases allow r Hg) as [(E & E1 & E2 & Hg' & Hs)|(E & Hb & Hg' & Hs)].
  - unfold msgpack_item, msgpack_text, msgpack_number, msgpack_counted. rewrite E2. simpl. eapply fine_mono; [apply fine_eof; apply Hg'|]. by intros ? [_ ?].
  - rewrite E in Hl. simpl in Hl. apply (msgpack_item_fine _ (n - 1) fuel); try done; [apply IH; lia|lia|lia].
Qed.
End Sound.
