(* ===== verification/MsgpackSpec.v ===== *)
(** What the MessagePack reader and writer promise: the reader accepts exactly
    the texts of the grammar and gives them their value, it answers on every
    input, and what the writer writes is read back. *)
From S2P Require Import Prelude Utf8 JsonValue JsonCompare JsonGrammar JsonRoundtrip JsonLexer JsonParser JsonParserFacts JsonParserComplete.
From S2P Require Import BinaryReader BinaryReaderFacts Ieee754 Msgpack MsgpackGrammar MsgpackFacts MsgpackSound.

Section Reader.
Context {F : Type} `{FloatBits F, MaxSize}.

(** Reading MessagePack returns on every input, in every mode: a value,
    whose text stands at the beginning of the input and fills it in strict
    mode; a discarded value, without exceptions; one of the documented parse
    errors, with exceptions; or the error for an excessive size. *)
Theorem from_msgpack_total (i : bytes) strict allow : Forall is_byte i ->
  document (F:=F) allow packed strict i (from_msgpack i strict allow).
Proof.
  intros Hb. unfold from_msgpack. apply from_binary_fine; [done|]. intros r Hg Hr E.
  apply (parse_msgpack_internal_fine allow (length i + 2) (length i)); [lia|done|done|by rewrite E].
Qed.

Lemma packed_not_discarded t : ~ packed (F:=F) value_discarded t.
Proof. inversion 1. Qed.

(** C30: With exceptions and in strict mode, reading MessagePack returns a
    value exactly when the whole input is a text of the grammar with this
    value. *)
Theorem from_msgpack_exact (i : bytes) (j : json F) : Forall is_byte i ->
  from_msgpack i true true = Ret j <-> packed j i.
Proof.
  intros Hb. split.
  - intros E. pose proof (from_msgpack_total i true true Hb) as Ht. rewrite E in Ht. simpl in Ht.
    destruct Ht as [(t & q & -> & Hi & Hq)|[_ ?]]; [|done]. by rewrite Hq, app_nil_r.
  - intros Hi. apply (from_binary_all true); [apply get_ends|].
    intros r Hr E. apply (msgpack_grammar_read j i); [done|done|by rewrite app_nil_r|done|lia].
Qed.
End Reader.

Section Writer.
Context {F : Type} `{FloatBitsLaws F, MaxSize}.
Implicit Types (j : json F).

(** The value that is read back: MessagePack, as it is written here, has one
    kind of non-negative integers, and its subtypes have 8 bits. *)
Fixpoint msgpack_canonical j : json F :=
  match j with
  | value_number_integer z => if 0 <=? z then value_number_unsigned z else j
  | value_binary b t => value_binary b (option_map (wrapu 8) t)
  | value_array l => value_array (map msgpack_canonical l)
  | value_object m => value_object (map (fun kv => (kv.1, msgpack_canonical kv.2)) m)
  | _ => j
  end.

(** The writer writes no label for a size over 2^32 - 1. *)
Definition size_ok (n : nat) : Prop := Z.of_nat n < 2 ^ 32.
Definition short_text (s : bytes) : Prop := Forall is_byte s /\ size_ok (length s).

(** Values a program can hold, of the sizes that MessagePack can express. *)
Inductive msgpack_writable : json F -> Prop :=
  | packable_null : msgpack_writable value_null
  | packable_boolean b : msgpack_writable (value_boolean b)
  | packable_integer z : - 2 ^ 63 <= z < 2 ^ 63 -> msgpack_writable (value_number_integer z)
  | packable_unsigned z : 0 <= z < 2 ^ 64 -> msgpack_writable (value_number_unsigned z)
  | packable_float f : msgpack_writable (value_number_float f)
  | packable_string s : short_text s -> msgpack_writable (value_string s)
  | packable_binary s t : short_text s -> msgpack_writable (value_binary s t)
  | packable_array l : Forall msgpack_writable l -> Z.of_nat (length l) <= array_max_size ->
      size_ok (length l) -> msgpack_writable (value_array l)
  | packable_object m : sorted_object m -> Forall (fun kv => short_text kv.1) m ->
      Forall (fun kv => msgpack_writable kv.2) m ->
      Z.of_nat (length m) <= object_max_size -> size_ok (length m) -> msgpack_writable (value_object m).

(** ** What is written is in the grammar *)

Lemma write_unsigned_packed n : 0 <= n < 2 ^ 64 -> packed (F:=F) (value_number_unsigned n) (write_msgpack_unsigned n).
Proof.
  intros Hn. unfold write_msgpack_unsigned. zcases; rewrite write_number_be.
  - rewrite be_bytes_1 by lia. constructor. lia.
  - apply packed_uint, sized_8. lia.
  - apply packed_uint, sized_16. lia.
  - apply packed_uint, sized_32. lia.
  - apply packed_uint, sized_64. lia.
Qed.

Lemma write_integer_packed z : - 2 ^ 63 <= z < 2 ^ 63 ->
  packed (F:=F) (msgpack_canonical (value_number_integer z)) (write_msgpack_integer z).
Proof.
  intros Hz. simpl. unfold write_msgpack_integer. destruct (Z.leb_spec 0 z); [apply write_unsigned_packed; lia|].
  assert (forall c w, (c, w) ∈ [(0xD0, 1%nat); (0xD1, 2%nat); (0xD2, 4%nat); (0xD3, 8%nat)] ->
    - 2 ^ (8 * Z.of_nat w - 1) <= z < 2 ^ (8 * Z.of_nat w - 1) ->
    packed (F:=F) (value_number_integer z) (c :: write_number w false z)) as Hi.
  { intros c w Hin Hr. rewrite write_number_be, <- be_bytes_wrap. by apply packed_int. }
  zcases; [|apply Hi; [set_solver|simpl; lia]..].
  rewrite write_number_be, <- be_bytes_wrap. change (8 * Z.of_nat 1) with 8. unfold wrapu. change (2 ^ 8) with 256.
  rewrite be_bytes_1 by dlia. replace (z mod 256) with (256 + z) by dlia. constructor. lia.
Qed.

Lemma write_float_packed f : packed (value_number_float f) (write_compact_float 0xCA 0xCB f).
Proof.
  unfold write_compact_float. destruct (in_float_range f && _) eqn:Ef; rewrite write_number_be.
  - apply andb_true_iff in Ef as [_ Ef]. rewrite <- (of_bits32_bits32 f Ef) at 1. apply packed_float32, bits32_range.
  - rewrite <- (of_bits64_bits64 f) at 1. apply packed_float64, bits64_range.
Qed.

Lemma write_string_text s : short_text s -> string_text s (write_msgpack_string s).
Proof.
  intros [_ Hl]. unfold size_ok in Hl. unfold write_msgpack_string. cbv zeta. zcases; try lia; rewrite write_number_be.
  - rewrite (lor_low 0xA0 5) by (done || (change (2 ^ 5) with 32; lia)). rewrite be_bytes_1 by lia. constructor. lia.
  - apply string_sized, sized32_8. lia.
  - apply string_sized, sized32_16. lia.
  - apply string_sized, sized32_32. lia.
Qed.

Lemma fixext_label_in n c : fixext_label n = Some c -> (c, n) ∈ [(0xD4, 1); (0xD5, 2); (0xD6, 4); (0xD7, 8); (0xD8, 16)].
Proof. unfold fixext_label. zcases; intros [= <-]; subst; set_solver. Qed.

Lemma wrapu_byte t : is_byte (wrapu 8 t).
Proof. exact (wrapu_range 8 t ltac:(lia)). Qed.

Lemma write_subtype t : write_number 1 false t = [wrapu 8 t].
Proof. rewrite write_number_be, <- be_bytes_wrap. apply be_bytes_1, wrapu_byte. Qed.

Lemma write_binary_text s t : short_text s -> binary_text s (option_map (wrapu 8) t) (write_msgpack_binary s t).
Proof.
  intros [_ Hl]. unfold size_ok in Hl. unfold write_msgpack_binary. cbv zeta. destruct t as [t|]; simpl option_map.
  - rewrite write_subtype. pose proof (wrapu_byte t). destruct (fixext_label (Z.of_nat (length s))) as [c|] eqn:Ef.
    + pose proof (fixext_label_in _ _ Ef) as Hin. assert (Z.of_nat (length s) <= 16).
      { unfold fixext_label in Ef. zcases; simplify_eq; lia. }
      rewrite (proj2 (Z.leb_le _ _)) by lia. by eapply (binary_fixext c).
    + zcases; try lia; rewrite write_number_be; (apply binary_ext; [|done]).
      * apply sized32_8. lia.
      * apply sized32_16. lia.
      * apply sized32_32. lia.
  - rewrite (app_nil_l s). zcases; try lia; rewrite write_number_be; apply binary_bin.
    + apply sized32_8. lia.
    + apply sized32_16. lia.
    + apply sized32_32. lia.
Qed.

Lemma write_count_head base first n : base = 0x80 \/ base = 0x90 -> size_ok n ->
  count_head base first (Z.of_nat n) (write_msgpack_count base first (Z.of_nat n)).
Proof.
  unfold size_ok, write_msgpack_count. intros Hb Hn. zcases; try lia; rewrite write_number_be.
  - rewrite (lor_low base 4) by (try (change (2 ^ 4) with 16; lia); try lia; by destruct Hb as [->| ->]).
    rewrite be_bytes_1 by lia. constructor. lia.
  - constructor. lia.
  - constructor. lia.
Qed.

Lemma write_msgpack_packed j : msgpack_writable j -> packed (msgpack_canonical j) (write_msgpack j).
Proof.
  induction j as [|m IH|l IH|s|b|z|z|f|s t|] using json_ind'; inversion 1 as [| | | | | | |? Hl Hm Hu|? Hs Hk Hv Hm Hu]; subst.
  - constructor.
  - assert (packed_members (map (fun kv => (kv.1, msgpack_canonical kv.2)) m)
      (flat_map (fun el => write_msgpack_string el.1 ++ write_msgpack el.2) m)) as Hms.
    { clear Hs Hm Hu H3. induction m as [|[k v] m IHm]; simpl; [constructor|].
      inversion IH; inversion Hk; inversion Hv; subst; simpl in *. constructor; [by apply write_string_text|auto|auto]. }
    cbn [msgpack_canonical write_msgpack]. rewrite <- (object_of_sorted (map _ m)) by (unfold sorted_object; by rewrite keys_map).
    rewrite <- (map_length (fun kv => (kv.1, msgpack_canonical kv.2)) m) at 1.
    constructor; rewrite ?length_map; [apply write_count_head; [by left|done]|lia|done].
  - assert (packed_elements (map msgpack_canonical l) (flat_map write_msgpack l)) as Hms.
    { clear Hm Hu H3. induction l as [|v l IHl]; simpl; [constructor|].
      inversion IH; inversion Hl; subst. constructor; auto. }
    cbn [msgpack_canonical write_msgpack]. rewrite <- (map_length msgpack_canonical l) at 1.
    constructor; rewrite ?length_map; [apply write_count_head; [by right|done]|lia|done].
  - simpl. by apply packed_string, write_string_text.
  - destruct b; constructor.
  - by apply write_integer_packed.
  - by apply write_unsigned_packed.
  - apply write_float_packed.
  - by apply packed_binary, write_binary_text.
Qed.

(** ** What is written is made of bytes *)

Ltac label_bytes := constructor; [unfold is_byte; simpl; lia|solve [auto with bytedb]].

Lemma write_unsigned_bytes n : Forall is_byte (write_msgpack_unsigned n).
Proof. unfold write_msgpack_unsigned. zcases; [auto with bytedb|label_bytes..]. Qed.

Lemma write_integer_bytes z : Forall is_byte (write_msgpack_integer z).
Proof. unfold write_msgpack_integer. zcases; [apply write_unsigned_bytes|auto with bytedb|label_bytes..]. Qed.

Lemma write_string_bytes s : short_text s -> Forall is_byte (write_msgpack_string s).
Proof.
  intros [Hs _]. unfold write_msgpack_string. cbv zeta. apply Forall_app. split; [|done].
  zcases; [auto with bytedb|label_bytes..|constructor].
Qed.

Lemma fixext_label_byte n c : fixext_label n = Some c -> is_byte c.
Proof. unfold fixext_label, is_byte. zcases; intros [= <-]; lia. Qed.

Lemma write_binary_bytes s t : short_text s -> Forall is_byte (write_msgpack_binary s t).
Proof.
  intros [Hs _]. unfold write_msgpack_binary. cbv zeta. apply Forall_app. split.
  - destruct t as [t|]; [destruct (fixext_label _) as [c|] eqn:Ef; [apply fixext_label_byte in Ef|]|];
      zcases; first [by apply Forall_singleton | by constructor | label_bytes].
  - apply Forall_app. split; [destruct t; [auto with bytedb|constructor]|done].
Qed.

Lemma write_count_bytes base first n : is_byte base -> 0 <= first < 255 -> Forall is_byte (write_msgpack_count base first n).
Proof. intros Hb Hf. unfold write_msgpack_count. zcases; [auto with bytedb|label_bytes..|constructor]. Qed.

Lemma write_msgpack_bytes j : msgpack_writable j -> Forall is_byte (write_msgpack j).
Proof.
  induction j as [|m IH|l IH|s|b|z|z|f|s t|] using json_ind'; inversion 1 as [| | | | | | |? Hl Hm Hu|? Hs Hk Hv Hm Hu];
    subst; cbn [write_msgpack].
  - by repeat constructor.
  - apply Forall_app. split; [apply write_count_bytes; unfold is_byte; lia|]. apply Forall_flat_map.
    clear Hs Hm Hu H3. induction m as [|[k v] m IHm]; constructor; inversion IH; inversion Hk; inversion Hv; subst; auto.
    apply Forall_app. split; [by apply write_string_bytes|auto].
  - apply Forall_app. split; [apply write_count_bytes; unfold is_byte; lia|]. apply Forall_flat_map.
    clear Hm Hu H3. induction l as [|v l IHl]; constructor; inversion IH; inversion Hl; subst; auto.
  - by apply write_string_bytes.
  - destruct b; by repeat constructor.
  - apply write_integer_bytes.
  - apply write_unsigned_bytes.
  - apply write_compact_float_bytes; unfold is_byte; lia.
  - by apply write_binary_bytes.
Qed.

(** C31: For a value that a program can hold and whose strings, keys, binary
    values, arrays and objects all have a size below 2^32 (for a larger one
    [to_msgpack] writes no label, so what it writes cannot be read back),
    reading back what [to_msgpack] wrote gives the value, up to the type of
    non-negative integers and the width of the subtypes of binary values. *)
Theorem msgpack_roundtrip j strict allow : msgpack_writable j ->
  from_msgpack (to_msgpack j) strict allow = Ret (msgpack_canonical j).
Proof.
  intros Hj. pose proof (write_msgpack_packed j Hj) as Hi. unfold from_msgpack, to_msgpack.
  apply (from_binary_all allow); [apply get_ends|].
  intros r Hr E. apply (msgpack_grammar_read _ _ _ _ _ Hi); [by apply write_msgpack_bytes|by rewrite app_nil_r|done|lia].
Qed.
End Writer.

(** ** Examples *)

#[local] Existing Instance example_sizes.

(** [\{"a": [1, -2, true], "b": 1.5\}], with the numbers in wider formats than
    they need. *)
Definition example_msgpack : bytes :=
  [0x82; 0xA1; 97; 0xDC; 0x00; 0x03; 0x01; 0xD1; 0xFF; 0xFE; 0xC3; 0xD9; 0x01; 98; 0xCA; 0x3F; 0xC0; 0x00; 0x00].
Definition example_msgpack_value : json double :=
  value_object [([97], value_array [value_number_unsigned 1; value_number_integer (-2); value_boolean true]);
                ([98], value_number_float (of_pattern 0x3FF8000000000000))].

Lemma example_msgpack_bytes : Forall is_byte example_msgpack.
Proof. repeat constructor; lia. Qed.

Lemma from_msgpack_exact_witness : Forall is_byte example_msgpack /\ packed example_msgpack_value example_msgpack.
Proof.
  split; [apply example_msgpack_bytes|].
  apply (proj1 (from_msgpack_exact example_msgpack example_msgpack_value example_msgpack_bytes)). vm_compute. reflexivity.
Defined.

Lemma from_msgpack_total_witness :
  document (F:=double) true packed true example_msgpack (from_msgpack example_msgpack true true).
Proof. exact (from_msgpack_total example_msgpack true true example_msgpack_bytes). Defined.

Definition example_packable : json double :=
  value_array [value_null; value_number_integer 5; value_number_integer (-300); value_number_unsigned (2 ^ 64 - 1);
    value_number_float (of_pattern 0x3FF8000000000000); value_number_float (of_pattern 0x3FB999999999999A);
    value_string (str "text"); value_binary [1; 2; 3; 4] (Some 7); value_object [(str "k", value_boolean false)]].

Lemma short_text_str s : size_ok (length (str s)) -> short_text (str s).
Proof. intros Hl. split; [apply str_bytes|done]. Qed.

Lemma example_packable_writable : msgpack_writable example_packable.
Proof.
  apply packable_array; [|simpl; lia|unfold size_ok; simpl; lia].
  repeat (apply Forall_cons; split); try apply Forall_nil_2; try (constructor; try lia; fail).
  - by apply packable_string, short_text_str.
  - apply packable_binary. split; [repeat constructor; unfold is_byte; lia|done].
  - apply packable_object; [repeat constructor| | |simpl; lia|done].
    + apply Forall_cons. split; [|apply Forall_nil_2]. by apply short_text_str.
    + apply Forall_cons. split; [constructor|apply Forall_nil_2].
Qed.

Lemma msgpack_roundtrip_witness : msgpack_writable example_packable /\
  from_msgpack (to_msgpack example_packable) true true = Ret (msgpack_canonical example_packable).
Proof.
  split; [apply example_packable_writable|].
  exact (msgpack_roundtrip example_packable true true example_packable_writable).
Defined.

(** A subtype of more than 8 bits is cut. *)
Example wide_subtype_cut :
  from_msgpack (F:=double) (to_msgpack (value_binary [1; 2; 3] (Some 300))) true true = Ret (value_binary [1; 2; 3] (Some 44)).
Proof. vm_compute. reflexivity. Qed.
