(* ===== verification/Bson.v ===== *)
(** BSON: the reader and the writer of [src/libephmem/json.hpp]
    ([parse_bson_internal] and the functions it calls; [write_bson] and the
    functions that compute the sizes it writes).

    A document is an object or an array; both have the layout of a list of
    named elements. *)
From S2P Require Import Prelude CLib Utf8 JsonValue JsonCompare JsonLexer JsonParser BinaryReader.

Section Reader.
Context {F S : Type} `{BinarySax F S} `{FloatBits F}.
Notation reader := (reader S).
Implicit Types (r : reader).

(** [get_bson_cstr] *)
Fixpoint get_bson_cstr_loop (fuel : nat) (result : bytes) r : comp (bool * bytes * reader) :=
  match fuel with
  | O => OutOfFuel
  | Datatypes.S fuel =>
      let r := get r in
      let* '(b, r) := unexpect_eof r in
      if negb b then Ret (false, result, r)
      else if current r =? 0x00 then Ret (true, result, r)
      else get_bson_cstr_loop fuel (result ++ [wrapu 8 (current r)]) r
  end.

Definition get_bson_cstr r : comp (bool * bytes * reader) := get_bson_cstr_loop (Datatypes.S (length (ia r))) [] r.

(** [get_bson_string]: the last byte is read and not looked at. *)
Definition get_bson_string (len : Z) r : comp (bool * bytes * reader) :=
  if len <? 1 then let* '(b, r) := error_return (parse_error 112) r in Ret (b, [], r)
  else
    and_get [] (get_bytes (len - 1) r) (fun s r =>
    let r := get r in Ret (negb (current r =? EOF), s, r)).

(** [get_bson_binary]; the result of [get_number] is not looked at. *)
Definition get_bson_binary (len : Z) r : comp (bool * (bytes * option Z) * reader) :=
  if len <? 0 then let* '(b, r) := error_return (parse_error 112) r in Ret (b, ([], None), r)
  else
    let* '(_, subtype, r) := get_number 1 false r in
    and_get ([], None) (get_bytes len r) (fun s r => Ret (true, (s, Some subtype), r)).

(** An [int32_t]. *)
Definition get_int32 r : comp (bool * Z * reader) :=
  let* '(b, n, r) := get_number 4 true r in Ret (b, to_signed 32 n, r).

Definition bson_unsupported (element_type position : Z) r : comp (bool * reader) :=
  let c := wrapu 8 element_type in
  event (sax_parse_error position [hex_digit (c / 16); hex_digit (c mod 16)] (parse_error 114)) r.

Section Elements.
(** [parse] is [parse_bson_array] ([true]) or [parse_bson_internal]. *)
Variable parse : bool -> reader -> comp (bool * reader).

Definition parse_bson_element_internal (element_type position : Z) r : comp (bool * reader) :=
  if element_type =? 0x01 then
    and_let (get_number 8 true r) (fun n => event (sax_number_float (of_bits64 n) []))
  else if element_type =? 0x02 then
    and_let (get_int32 r) (fun len r => and_let (get_bson_string len r) (fun s => event (sax_string s)))
  else if element_type =? 0x03 then parse false r
  else if element_type =? 0x04 then parse true r
  else if element_type =? 0x05 then
    and_let (get_int32 r) (fun len r => and_let (get_bson_binary len r) (fun b => event (sax_binary b.1 b.2)))
  else if element_type =? 0x08 then
    let r := get r in event (sax_boolean (negb (current r =? 0))) r
  else if element_type =? 0x0A then event sax_null r
  else if element_type =? 0x10 then and_let (get_int32 r) (fun n => event (sax_number_integer n))
  else if element_type =? 0x12 then
    and_let (get_number 8 true r) (fun n => event (sax_number_integer (to_signed 64 n)))
  else if element_type =? 0x11 then
    and_let (get_number 8 true r) (fun n => event (sax_number_unsigned n))
  else bson_unsupported element_type position r.

Fixpoint parse_bson_element_list (fuel : nat) (is_array : bool) r : comp (bool * reader) :=
  match fuel with
  | O => OutOfFuel
  | Datatypes.S fuel =>
      let r := get r in
      let element_type := current r in
      if element_type =? 0 then Ret (true, r)
      else
        and_then (unexpect_eof r) (fun r =>
        let position := chars_read r in
        and_let (get_bson_cstr r) (fun key r =>
        and_then (if is_array then Ret (true, r) else event (sax_key key) r) (fun r =>
        and_then (parse_bson_element_internal element_type position r)
          (parse_bson_element_list fuel is_array))))
  end.
End Elements.

(** [parse_bson_internal] and [parse_bson_array]: the size of the document
    is read and not used, nor is it looked at whether it could be read. *)
Fixpoint parse_bson (fuel : nat) (is_array : bool) r : comp (bool * reader) :=
  match fuel with
  | O => OutOfFuel
  | Datatypes.S fuel =>
      let* '(_, _, r) := get_number 4 true r in
      and_then (event (if is_array then sax_start_array_len unknown_size else sax_start_object_len unknown_size) r) (fun r =>
      and_then (parse_bson_element_list (parse_bson fuel) fuel is_array r)
        (event (if is_array then sax_end_array else sax_end_object)))
  end.

Definition parse_bson_internal (fuel : nat) : reader -> comp (bool * reader) := parse_bson fuel false.
End Reader.

(** [from_bson] *)
Definition from_bson {F} `{FloatBits F, MaxSize} (i : bytes) (strict allow_exceptions : bool) : comp (json F) :=
  from_binary get (parse_bson_internal (length i + 2)) i strict allow_exceptions.

(** ** The sizes *)

Section Writer.
Context {F : Type} `{FloatBits F}.
Implicit Types (j : json F) (name : bytes).

Definition calc_bson_entry_header_size name : comp Z :=
  if decide (0 ∈ name) then Throw (out_of_range 409) else Ret (1 + Z.of_nat (length name) + 1).

Definition fits_int32 (value : Z) : bool := (- 2 ^ 31 <=? value) && (value <=? 2 ^ 31 - 1).

Definition calc_bson_string_size (value : bytes) : Z := 4 + Z.of_nat (length value) + 1.

Definition calc_bson_integer_size (value : Z) : Z := if fits_int32 value then 4 else 8.
Definition calc_bson_unsigned_size (value : Z) : Z := if value <=? 2 ^ 31 - 1 then 4 else 8.
Definition calc_bson_binary_size (value : bytes) : Z := 4 + Z.of_nat (length value) + 1.

(** [std::accumulate] over the elements, named by their index or by their
    key. *)
Section Accumulate.
Variable calc : bytes -> json F -> comp Z.
Fixpoint calc_array_elements (index : Z) (l : list (json F)) (result : Z) : comp Z :=
  match l with
  | [] => Ret result
  | el :: l => let* n := calc (to_dec index) el in calc_array_elements (index + 1) l (result + n)
  end.
Fixpoint calc_object_elements (m : list (bytes * json F)) (result : Z) : comp Z :=
  match m with
  | [] => Ret result
  | (k, el) :: m => let* n := calc k el in calc_object_elements m (result + n)
  end.
End Accumulate.

Fixpoint calc_bson_element_size name j {struct j} : comp Z :=
  let* header_size := calc_bson_entry_header_size name in
  match j with
  | value_object m =>
      let* n := calc_object_elements calc_bson_element_size m 0 in Ret (header_size + (4 + n + 1))
  | value_array l =>
      let* n := calc_array_elements calc_bson_element_size 0 l 0 in Ret (header_size + (4 + n + 1))
  | value_binary b _ => Ret (header_size + calc_bson_binary_size b)
  | value_boolean _ => Ret (header_size + 1)
  | value_number_float _ => Ret (header_size + 8)
  | value_number_integer z => Ret (header_size + calc_bson_integer_size z)
  | value_number_unsigned n => Ret (header_size + calc_bson_unsigned_size n)
  | value_string s => Ret (header_size + calc_bson_string_size s)
  | value_null => Ret (header_size + 0)
  | value_discarded => Throw assertion_failure
  end.

Definition calc_bson_array_size (l : list (json F)) : comp Z :=
  let* n := calc_array_elements calc_bson_element_size 0 l 0 in Ret (4 + n + 1).
Definition calc_bson_object_size (m : list (bytes * json F)) : comp Z :=
  let* n := calc_object_elements calc_bson_element_size m 0 in Ret (4 + n + 1).

(** ** The writer *)

Definition write_bson_entry_header name (element_type : Z) : bytes := [element_type] ++ name ++ [0].
Definition write_bson_boolean name (value : bool) : bytes :=
  write_bson_entry_header name 0x08 ++ [if value then 0x01 else 0x00].
Definition write_bson_double name (value : F) : bytes :=
  write_bson_entry_header name 0x01 ++ write_number 8 true (bits64 value).
Definition write_bson_string name (value : bytes) : bytes :=
  write_bson_entry_header name 0x02 ++ write_number 4 true (Z.of_nat (length value) + 1) ++ value ++ [0].
Definition write_bson_null name : bytes := write_bson_entry_header name 0x0A.
Definition write_bson_integer name (value : Z) : bytes :=
  if fits_int32 value then write_bson_entry_header name 0x10 ++ write_number 4 true value
  else write_bson_entry_header name 0x12 ++ write_number 8 true value.
Definition write_bson_unsigned name (value : Z) : bytes :=
  if value <=? 2 ^ 31 - 1 then write_bson_entry_header name 0x10 ++ write_number 4 true value
  else if value <=? 2 ^ 63 - 1 then write_bson_entry_header name 0x12 ++ write_number 8 true value
  else write_bson_entry_header name 0x11 ++ write_number 8 true value.
Definition write_bson_binary name (value : bytes) (subtype : option Z) : bytes :=
  write_bson_entry_header name 0x05 ++ write_number 4 true (Z.of_nat (length value)) ++
  write_number 1 false (match subtype with Some t => t | None => 0x00 end) ++ value.

Section Elements.
Variable write : bytes -> json F -> comp bytes.
Fixpoint write_array_elements (index : Z) (l : list (json F)) : comp bytes :=
  match l with
  | [] => Ret []
  | el :: l =>
      let* b := write (to_dec index) el in
      let* bs := write_array_elements (index + 1) l in Ret (b ++ bs)
  end.
Fixpoint write_object_elements (m : list (bytes * json F)) : comp bytes :=
  match m with
  | [] => Ret []
  | (k, el) :: m =>
      let* b := write k el in
      let* bs := write_object_elements m in Ret (b ++ bs)
  end.
End Elements.

(** [write_bson_element], with [write_bson_array] and [write_bson_object] in
    their places. *)
Fixpoint write_bson_element name j {struct j} : comp bytes :=
  match j with
  | value_object m =>
      let* size := calc_bson_object_size m in
      let* body := write_object_elements write_bson_element m in
      Ret (write_bson_entry_header name 0x03 ++ write_number 4 true size ++ body ++ [0x00])
  | value_array l =>
      let* size := calc_bson_array_size l in
      let* body := write_array_elements write_bson_element 0 l in
      Ret (write_bson_entry_header name 0x04 ++ write_number 4 true size ++ body ++ [0x00])
  | value_binary b t => Ret (write_bson_binary name b t)
  | value_boolean b => Ret (write_bson_boolean name b)
  | value_number_float f => Ret (write_bson_double name f)
  | value_number_integer z => Ret (write_bson_integer name z)
  | value_number_unsigned n => Ret (write_bson_unsigned name n)
  | value_string s => Ret (write_bson_string name s)
  | value_null => Ret (write_bson_null name)
  | value_discarded => Throw assertion_failure
  end.

Definition write_bson_object (m : list (bytes * json F)) : comp bytes :=
  let* size := calc_bson_object_size m in
  let* body := write_object_elements write_bson_element m in
  Ret (write_number 4 true size ++ body ++ [0x00]).

Definition write_bson j : comp bytes :=
  match j with
  | value_object m => write_bson_object m
  | _ => Throw (type_error 317)
  end.

(** [to_bson] into a new vector. *)
Definition to_bson j : comp bytes := write_bson j.
End Writer.
