(* ===== verification/BsonFacts.v ===== *)
(** The BSON reader and its grammar: what BSON texts are and mean, and that
    every text is read, with its value. *)
From S2P Require Import Prelude Utf8 JsonValue JsonGrammar JsonLexer JsonParser JsonParserFacts JsonParserComplete.
From S2P Require Import BinaryReader BinaryReaderFacts Bson.

(** ** The grammar

    BSON texts with their values: the specification of the reader and the
    writer of [Bson], after the BSON specification (its types double, string,
    document, array, binary, boolean, null, int32, int64 and uint64).

    It is the language that [parse_bson_internal] reads, which is larger than
    BSON: the four bytes of a document's size and the byte that ends a string
    may be any bytes, and so may the names of the elements of an array. *)

Definition int_range (w z : Z) : Prop := - 2 ^ (w - 1) <= z < 2 ^ (w - 1).

Section Grammar.
Context {F : Type} `{FloatBits F}.

(** The value of a document with these named elements, or of an array. *)
Definition document_value (is_array : bool) (ms : list (bytes * json F)) : json F :=
  if is_array then value_array (map snd ms) else value_object (object_of ms).

(** The type of a value and its text. *)
Inductive bson_value : json F -> Z -> bytes -> Prop :=
  | bson_double n : 0 <= n < 2 ^ 64 -> bson_value (value_number_float (of_bits64 n)) 0x01 (le_bytes 8 n)
  | bson_string s b : Z.of_nat (length s) + 1 < 2 ^ 31 ->
      bson_value (value_string s) 0x02 (le_bytes 4 (Z.of_nat (length s) + 1) ++ s ++ [b])
  | bson_container (is_array : bool) ms t : bson_document ms t ->
      bson_value (document_value is_array ms) (if is_array then 0x04 else 0x03) t
  | bson_binary s y : Z.of_nat (length s) < 2 ^ 31 ->
      bson_value (value_binary s (Some y)) 0x05 (le_bytes 4 (Z.of_nat (length s)) ++ [y] ++ s)
  | bson_boolean b : bson_value (value_boolean (negb (b =? 0))) 0x08 [b]
  | bson_null : bson_value value_null 0x0A []
  | bson_int32 z : int_range 32 z -> bson_value (value_number_integer z) 0x10 (le_bytes 4 (wrapu 32 z))
  | bson_int64 z : int_range 64 z -> bson_value (value_number_integer z) 0x12 (le_bytes 8 (wrapu 64 z))
  | bson_uint64 n : 0 <= n < 2 ^ 64 -> bson_value (value_number_unsigned n) 0x11 (le_bytes 8 n)
with bson_document : list (bytes * json F) -> bytes -> Prop :=
  | bson_elements_text size ms t : length size = 4%nat -> bson_elements ms t -> bson_document ms (size ++ t ++ [0])
with bson_elements : list (bytes * json F) -> bytes -> Prop :=
  | bson_elements_nil : bson_elements [] []
  | bson_elements_cons k v c t ms ts : 0 ∉ k -> bson_value v c t -> bson_elements ms ts ->
      bson_elements ((k, v) :: ms) ((c :: (k ++ [0]) ++ t) ++ ts).

(** A whole text is the text of an object. *)
Inductive bson_text : json F -> bytes -> Prop :=
  | bson_top ms t : bson_document ms t -> bson_text (document_value false ms) t.
End Grammar.

Scheme bson_value_mind := Induction for bson_value Sort Prop
  with bson_document_mind := Induction for bson_document Sort Prop
  with bson_elements_mind := Induction for bson_elements Sort Prop.
Combined Scheme bson_ind from bson_value_mind, bson_document_mind, bson_elements_mind.

Section Facts.
Context {F : Type} `{FloatBits F}.

Definition type_codes : list Z := [0x01; 0x02; 0x03; 0x04; 0x05; 0x08; 0x0A; 0x10; 0x12; 0x11].

Lemma bson_value_type (v : json F) c t : bson_value v c t -> c ∈ type_codes.
Proof. unfold type_codes. destruct 1 as [| |[]| | | | | |]; set_solver. Qed.

Lemma type_code_range c : c ∈ type_codes -> 0 < c < 256.
Proof. unfold type_codes. intros Hin. repeat (apply elem_of_cons in Hin as [->|Hin]; [lia|]). by apply elem_of_nil in Hin. Qed.
End Facts.

(** ** Every text is read *)

Section Facts.
Context {F : Type} `{FloatBits F, MaxSize}.
Notation reader := (reader (dom F)).
Implicit Types (r : reader) (d : dom F) (v : json F) (t q s : bytes).
Notation parse fuel := (parse_bson (F:=F) (S:=dom F) fuel).
Notation element := (parse_bson_element_internal (F:=F) (S:=dom F)).
Notation element_list := (parse_bson_element_list (F:=F) (S:=dom F)).

(** ** Names, numbers and runs of bytes *)

Lemma get_bson_cstr_loop_run fuel : forall k result r q, ia r = k ++ [0] ++ q -> Forall is_byte k -> 0 ∉ k ->
  (length k < fuel)%nat -> gives (get_bson_cstr_loop (F:=F) fuel result r) r (result ++ k) q.
Proof.
  induction fuel as [|fuel IH]; intros k result r q E Hb Hnul Hf; [lia|]. cbn [get_bson_cstr_loop]. cbv zeta.
  destruct k as [|c k].
  - rewrite (get_cons r 0 q E). rewrite unexpect_eof_run by done. simpl. rewrite app_nil_r. by eexists.
  - inversion Hb; subst. apply not_elem_of_cons in Hnul as [Hc Hnul]. rewrite (get_cons r c (k ++ [0] ++ q) E).
    rewrite unexpect_eof_run by by apply byte_not_eof. cbn [comp_bind negb current]. cbv iota.
    rewrite (proj2 (Z.eqb_neq _ _)) by done. rewrite wrapu_small by done.
    replace (result ++ c :: k) with ((result ++ [c]) ++ k) by by rewrite <- app_assoc.
    apply (IH k (result ++ [c]) (mk_reader _ _ _ _)); [done|done|done|simpl in Hf; lia].
Qed.

Lemma get_bson_cstr_gives k r q : ia r = k ++ [0] ++ q -> Forall is_byte k -> 0 ∉ k -> gives (get_bson_cstr (F:=F) r) r k q.
Proof.
  intros E Hb Hnul. unfold get_bson_cstr. apply (get_bson_cstr_loop_run _ k []); [done|done|done|].
  rewrite E, length_app. lia.
Qed.

Lemma get_le_gives w n r q : ia r = le_bytes w n ++ q -> 0 <= n < 2 ^ (8 * Z.of_nat w) ->
  gives (get_number (F:=F) w true r) r n q.
Proof. apply get_le_run. Qed.

Lemma get_int32_gives z r q : ia r = le_bytes 4 (wrapu 32 z) ++ q -> int_range 32 z -> gives (get_int32 (F:=F) r) r z q.
Proof.
  intros E Hz. destruct (get_le_gives 4 (wrapu 32 z) r q E) as (r' & Hr & ? & ?); [by apply wrapu_range|].
  exists r'. unfold get_int32. rewrite Hr. cbn [comp_bind]. by rewrite to_signed_wrap.
Qed.

(** A length. *)
Lemma get_length_gives n r q : ia r = le_bytes 4 n ++ q -> 0 <= n < 2 ^ 31 -> gives (get_int32 (F:=F) r) r n q.
Proof. intros E Hn. apply get_int32_gives; [rewrite wrapu_small by (simpl; lia); done|unfold int_range; simpl; lia]. Qed.

Lemma get_bson_string_gives s b r q : ia r = s ++ [b] ++ q -> Forall is_byte s -> is_byte b ->
  gives (get_bson_string (F:=F) (Z.of_nat (length s) + 1) r) r s q.
Proof.
  intros E Hb Hby. unfold get_bson_string. rewrite (proj2 (Z.ltb_ge _ _)) by lia.
  replace (Z.of_nat (length s) + 1 - 1) with (Z.of_nat (length s)) by lia.
  eapply and_get_gives; [by apply get_bytes_gives|]. intros r' E' S. rewrite (get_cons r' b q E'). cbv zeta.
  cbn [current]. rewrite (proj2 (Z.eqb_neq _ _)) by by apply byte_not_eof. by eexists.
Qed.

Lemma get_bson_binary_gives s y r q : ia r = [y] ++ s ++ q -> Forall is_byte s -> is_byte y ->
  gives (get_bson_binary (F:=F) (Z.of_nat (length s)) r) r (s, Some y) q.
Proof.
  intros E Hb Hy. unfold get_bson_binary. rewrite (proj2 (Z.ltb_ge _ _)) by lia.
  destruct (get_be_run 1 r y (s ++ q)) as (r1 & -> & E1 & S1);
    [by unfold be_bytes; simpl; rewrite Z.mod_small|exact Hy|].
  cbn [comp_bind]. eapply and_get_gives; [by apply get_bytes_gives|]. intros r2 E2 S2. by eexists.
Qed.

(** ** Values *)

Definition value_runs v c t : Prop := forall fuel pos r q, Forall is_byte t -> ia r = t ++ q -> ready (sax r) ->
  (length t <= fuel)%nat -> stores (element (parse fuel) c pos r) (sax r) v q.

Lemma bson_double_runs n : 0 <= n < 2 ^ 64 -> value_runs (value_number_float (of_bits64 n)) 0x01 (le_bytes 8 n).
Proof. intros Hn fuel pos r q _ E Hr _. eapply gives_stores; [by apply (get_le_gives 8)|done|done]. Qed.

Lemma uint64_runs n : 0 <= n < 2 ^ 64 -> value_runs (value_number_unsigned n) 0x11 (le_bytes 8 n).
Proof. intros Hn fuel pos r q _ E Hr _. eapply gives_stores; [by apply (get_le_gives 8)|done|done]. Qed.

Lemma int32_runs z : int_range 32 z -> value_runs (value_number_integer z) 0x10 (le_bytes 4 (wrapu 32 z)).
Proof. intros Hz fuel pos r q _ E Hr _. eapply gives_stores; [by apply get_int32_gives|done|done]. Qed.

Lemma int64_runs z : int_range 64 z -> value_runs (value_number_integer z) 0x12 (le_bytes 8 (wrapu 64 z)).
Proof.
  intros Hz fuel pos r q _ E Hr _. eapply gives_stores; [apply (get_le_gives 8 _ _ _ E); by apply wrapu_range|done|].
  intros r'. by rewrite to_signed_wrap.
Qed.

Lemma bson_boolean_runs b : value_runs (value_boolean (negb (b =? 0))) 0x08 [b].
Proof.
  intros fuel pos r q _ E Hr _. unfold parse_bson_element_internal. steer. cbv zeta. rewrite (get_cons r b q E).
  by apply event_stores.
Qed.

Lemma bson_null_runs : value_runs value_null 0x0A [].
Proof. intros fuel pos r q _ E Hr _. by apply event_stores. Qed.

(** A length, then what it is the length of. *)
Lemma sized_stores {A} n r q1 q (get : Z -> reader -> comp (bool * A * reader)) a k v :
  ia r = le_bytes 4 n ++ q1 -> 0 <= n < 2 ^ 31 -> ready (sax r) ->
  (forall r', ia r' = q1 -> gives (get n r') r' a q) -> (forall r', k a r' = event (dom_value v) r') ->
  stores (and_let (get_int32 (F:=F) r) (fun len r => and_let (get len r) k)) (sax r) v q.
Proof.
  intros E Hn Hr Hg Hk. destruct (get_length_gives n r q1 E Hn) as (r1 & -> & E1 & S1). cbn [and_let comp_bind].
  rewrite <- S1. eapply gives_stores; [by apply Hg|by rewrite S1|done].
Qed.

Lemma bson_string_runs s b : Z.of_nat (length s) + 1 < 2 ^ 31 ->
  value_runs (value_string s) 0x02 (le_bytes 4 (Z.of_nat (length s) + 1) ++ s ++ [b]).
Proof.
  intros Hl fuel pos r q Hby E Hr _. apply Forall_app in Hby as [_ Hby]. apply Forall_app in Hby as [Hs Hb].
  rewrite Forall_singleton in Hb. rewrite <- !app_assoc in E. unfold parse_bson_element_internal. steer.
  eapply sized_stores; [exact E|lia|done|intros r' E'; by apply (get_bson_string_gives s b)|done].
Qed.

Lemma bson_binary_runs s y : Z.of_nat (length s) < 2 ^ 31 ->
  value_runs (value_binary s (Some y)) 0x05 (le_bytes 4 (Z.of_nat (length s)) ++ [y] ++ s).
Proof.
  intros Hl fuel pos r q Hby E Hr _. apply Forall_app in Hby as [_ Hby]. apply Forall_app in Hby as [Hy Hs].
  rewrite Forall_singleton in Hy. rewrite <- !app_assoc in E. unfold parse_bson_element_internal. steer.
  eapply sized_stores; [exact E|lia|done|intros r' E'; by apply (get_bson_binary_gives s y)|done].
Qed.

(** ** Documents *)

(** The builder with the elements given. *)
Definition document_inv (is_array : bool) d0 (ms : list (bytes * json F)) d : Prop := filling d0 (document_value is_array ms) d.

Definition named (is_array : bool) (k : bytes) r : comp (bool * reader) :=
  if is_array then Ret (true, r) else event (sax_key k) r.

Lemma named_run (is_array : bool) d0 ms k r : document_inv is_array d0 ms (sax r) ->
  exists r', named is_array k r = Ret (true, r') /\ ia r' = ia r /\ ready (sax r') /\
    (forall v d', placed (sax r') v d' -> document_inv is_array d0 (ms ++ [(k, v)]) d') /\ same_flags (sax r) (sax r').
Proof.
  unfold document_inv, named. destruct is_array; simpl; intros Hf.
  - exists r. split_and!; [done|done|by eapply array_ready| |done].
    intros v d' Hp. rewrite map_app. by eapply array_place.
  - destruct (event_key_run d0 (object_of ms) k r Hf (object_of_is_sorted ms)) as (r' & Hr' & E & Hrd & Hpl & Hfl).
    exists r'. split_and!; [exact Hr'|done|done| |done]. intros v d' Hp. rewrite object_of_snoc. by apply Hpl.
Qed.

Definition elements_run : list (bytes * json F) -> bytes -> Prop :=
  texts (fun kv t => exists c u, t = c :: (kv.1 ++ [0]) ++ u /\ 0 ∉ kv.1 /\ c ∈ type_codes /\ value_runs kv.2 c u).

Lemma element_list_run (is_array : bool) d0 n ms t : elements_run ms t ->
  forall f xs r q, Forall is_byte t -> ia r = t ++ [0] ++ q -> document_inv is_array d0 xs (sax r) ->
  (length t < f)%nat -> (length t <= n)%nat ->
  exists r', element_list (parse n) f is_array r = Ret (true, r') /\ ia r' = q /\ document_inv is_array d0 (xs ++ ms) (sax r').
Proof.
  induction 1 as [|[k v] t ms ts (c & u & -> & Hk & Hc & Hv) _ IH]; intros f xs r q Hby E Hinv Hf Hn;
    (destruct f as [|f]; [simpl in Hf; lia|]); cbn [parse_bson_element_list]; cbv zeta.
  - rewrite (get_cons r 0 q E). simpl. rewrite app_nil_r. by eexists.
  - simpl in Hk, Hv. cbn [fst snd app] in Hby, Hf, Hn, E. rewrite <- !app_assoc in E.
    inversion Hby as [|? ? Hbc Hby']; subst. apply Forall_app in Hby' as [Hby1 Hbts].
    apply Forall_app in Hby1 as [Hbk Hbu]. apply Forall_app in Hbk as [Hbk _].
    cbn [length] in Hf, Hn. rewrite !length_app in Hf, Hn. simpl in Hf, Hn. apply type_code_range in Hc as Hcr.
    rewrite (get_cons r c _ E). cbn [current]. rewrite (proj2 (Z.eqb_neq _ _)) by lia.
    rewrite unexpect_eof_run by (simpl; unfold EOF; lia). cbn [and_then comp_bind chars_read].
    set (r1 := mk_reader _ _ _ _).
    destruct (get_bson_cstr_gives k r1 (u ++ ts ++ [0] ++ q)) as (r2 & -> & E2 & S2); [done|done|done|].
    cbn [and_let comp_bind]. match goal with |- context [and_then ?m _] => change m with (named is_array k r2) end.
    destruct (named_run is_array d0 xs k r2) as (r3 & -> & E3 & Hrd & Hpl & _); [by rewrite S2|]. cbn [and_then comp_bind].
    destruct (Hv n (chars_read r + 1) r3 (ts ++ [0] ++ q)) as (r4 & -> & E4 & Hp); [done|congruence|done|lia|].
    cbn [and_then comp_bind]. replace (xs ++ (k, v) :: ms) with ((xs ++ [(k, v)]) ++ ms) by by rewrite <- app_assoc.
    apply IH; [done|done|by apply Hpl|lia|lia].
Qed.

Definition document_runs (ms : list (bytes * json F)) t : Prop := forall (is_array : bool) fuel r q,
  Forall is_byte t -> ia r = t ++ q -> ready (sax r) -> (length t <= fuel)%nat ->
  stores (parse fuel is_array r) (sax r) (document_value is_array ms) q.

Lemma unknown_not_too_big max : ~ too_big unknown_size max.
Proof. by intros [? _]. Qed.

Lemma event_start_run (is_array : bool) r : ready (sax r) ->
  exists r', event (if is_array then sax_start_array_len unknown_size else sax_start_object_len unknown_size) r = Ret (true, r') /\
    ia r' = ia r /\ document_inv is_array (sax r) [] (sax r').
Proof.
  intros Hr. destruct is_array; [apply event_start_array_run|apply event_start_object_run]; (done || apply unknown_not_too_big).
Qed.

Lemma document_text_runs size ms t : length size = 4%nat -> elements_run ms t -> document_runs ms (size ++ t ++ [0]).
Proof.
  intros Hs Hms is_array fuel r q Hby E Hr Hf. destruct fuel as [|n]; [rewrite length_app in Hf; lia|].
  apply Forall_app in Hby as [_ Hby]. apply Forall_app in Hby as [Hby _]. rewrite !length_app in Hf. simpl in Hf.
  rewrite <- !app_assoc in E. cbn [parse_bson]. unfold get_number.
  destruct (get_to_run 4 r size _ E Hs) as (r1 & -> & [_ S1] & E1). cbn [comp_bind].
  destruct (event_start_run is_array r1) as (r2 & Hr2 & E2 & Hinv); [by rewrite S1|]. rewrite Hr2. cbn [and_then comp_bind].
  destruct (element_list_run is_array (sax r1) n ms t Hms n [] r2 q) as (r3 & -> & E3 & Hf3); [done|congruence|done|lia|lia|].
  cbn [and_then comp_bind]. rewrite <- S1.
  destruct (event_end_run is_array _ _ _ Hf3) as (r4 & Hr4 & E4 & Hp); [by destruct is_array|].
  exists r4. split_and!; [by destruct is_array|congruence|done].
Qed.

Lemma container_runs (is_array : bool) ms t : document_runs ms t ->
  value_runs (document_value is_array ms) (if is_array then 0x04 else 0x03) t.
Proof. intros Hd fuel pos r q Hby E Hr Hf. destruct is_array; by apply (Hd _ fuel r q). Qed.

Lemma bson_grammar_runs :
  (forall v c t, bson_value (F:=F) v c t -> value_runs v c t) /\
  (forall ms t, bson_document (F:=F) ms t -> document_runs ms t) /\
  (forall ms t, bson_elements (F:=F) ms t -> elements_run ms t).
Proof.
  apply bson_ind; intros.
  - by apply bson_double_runs.
  - by apply bson_string_runs.
  - by apply container_runs.
  - by apply bson_binary_runs.
  - apply bson_boolean_runs.
  - apply bson_null_runs.
  - by apply int32_runs.
  - by apply int64_runs.
  - by apply uint64_runs.
  - by apply document_text_runs.
  - constructor.
  - constructor; [|done]. exists c, t. split_and!; [done|done|by eapply bson_value_type|done].
Qed.
End Facts.
