(* ===== verification/BsonSound.v ===== *)
(** The BSON reader terminates on every input, and what it reads is in the
    grammar with its value; everything else fails.  It does not always report
    the failure: a string whose last byte is missing has no error. *)
From S2P Require Import Prelude Utf8 JsonValue JsonGrammar JsonLexer JsonParser JsonParserFacts JsonParserComplete.
From S2P Require Import BinaryReader BinaryReaderFacts Bson BsonFacts.

Section Sound.
Context {F : Type} `{FloatBits F, MaxSize}.
Variable allow : bool.
Notation reader := (reader (dom F)).
Implicit Types (r : reader) (d : dom F) (v : json F) (t q s : bytes).
Notation fine := (fine allow).
Notation fine_let := (fine_let allow).
Notation good := (good allow).

Definition bson_failure (e : exn) : Prop := failure allow e \/ (allow = true /\ e = parse_error 114).
Notation fails_or := (ends True bson_failure).
Notation fails_or_let := (ends_let True bson_failure).

Lemma fine_fails_or {R} (Q : R -> Prop) m : fine Q m -> fails_or Q m.
Proof. intros Hf. eapply ends_weaken; [exact Hf|done|by left]. Qed.

Lemma fine_fails_or_let {A R} (Q : A -> R -> Prop) m : fine_let Q m -> fails_or_let Q m.
Proof. intros Hf. eapply ends_let_weaken; [exact Hf|done|by left]. Qed.

(** ** Names, numbers and runs of bytes *)

Lemma get_bson_cstr_loop_fine fuel : forall result r, good r -> (length (ia r) + 1 <= fuel)%nat ->
  fine_let (fun s (r' : reader) => exists k, s = result ++ k /\ consumed r (k ++ [0]) r' /\ 0 ∉ k)
    (get_bson_cstr_loop (F:=F) fuel result r).
Proof.
  induction fuel as [|fuel IH]; intros result r Hg Hf; [lia|]. cbn [get_bson_cstr_loop]. cbv zeta.
  destruct (get_cases allow r Hg) as [(E & E1 & E2 & Hg' & Hs)|(E & Hb & Hg' & Hs)].
  { pose proof (fine_eof allow (get r) (proj2 Hg')) as He.
    destruct (unexpect_eof (get r)) as [[[] ?]| |]; simpl in *; naive_solver. }
  rewrite unexpect_eof_run by by apply byte_not_eof. cbn [comp_bind negb]. cbv iota.
  destruct (Z.eqb_spec (current (get r)) 0) as [Ec|Ec].
  - exists []. rewrite app_nil_r. split_and!; [done| |set_solver]. split; [|done]. by rewrite E at 1; rewrite Ec.
  - eapply ends_let_mono; [apply IH; [done|]; rewrite E in Hf; simpl in Hf; lia|].
    intros s r' (k & -> & Hcs & Hk). rewrite wrapu_small by exact Hb. exists (current (get r) :: k).
    rewrite <- app_assoc. split_and!; [done|by eapply consumed_get|]. by apply not_elem_of_cons.
Qed.

Lemma get_bson_cstr_fine r : good r ->
  fine_let (fun k (r' : reader) => consumed r (k ++ [0]) r' /\ 0 ∉ k) (get_bson_cstr (F:=F) r).
Proof.
  intros Hg. eapply ends_let_mono; [apply get_bson_cstr_loop_fine; [done|lia]|]. by intros s r' (k & -> & ?).
Qed.

Lemma get_int32_fine r : good r ->
  fine_let (fun z (r' : reader) => consumed r (le_bytes 4 (wrapu 32 z)) r' /\ int_range 32 z) (get_int32 (F:=F) r).
Proof.
  intros Hg. pose proof (get_le_fine allow 4 r Hg) as Hf. unfold get_int32.
  destruct (get_number 4 true r) as [[[[] n] r']| |]; simpl in *; try done.
  destruct Hf as [Hcs Hn]. destruct (signed_number 32 n) as [Hz E]; [lia|done|]. by rewrite E.
Qed.

Lemma length_bytes z n : int_range 32 z -> z = n -> 0 <= n -> le_bytes 4 (wrapu 32 z) = le_bytes 4 n /\ n < 2 ^ 31.
Proof. unfold int_range. intros Hz -> Hn. simpl in Hz. split; [rewrite wrapu_small by (simpl; lia); done|lia]. Qed.

(** The end of the input was met. *)
Definition lost r r' : Prop := ia r' = [] /\ good r' /\ (ready (sax r) -> ready (sax r')).

Lemma get_bson_string_ends len r : good r ->
  fails_or_let (fun s (r' : reader) => exists b, consumed r (s ++ [b]) r' /\ len = Z.of_nat (length s) + 1)
    (get_bson_string (F:=F) len r).
Proof.
  intros Hg. unfold get_bson_string. destruct (Z.ltb_spec len 1).
  { pose proof (fine_error_return allow (fun _ : reader => False) (parse_error 112) r (proj2 Hg) syntax_112) as He.
    destruct (error_return (parse_error 112) r) as [[[] ?]| |]; simpl in *; try done. by left. }
  eapply ends_and_get; [apply fine_fails_or_let, (get_bytes_fine allow); [done|lia]|].
  intros s r1 [Hcs Hl]. assert (good r1) as Hg1 by by eapply consumed_good. cbv zeta.
  destruct (get_cases allow r1 Hg1) as [(E & E1 & E2 & Hg' & Hs)|(E & Hb & Hg' & Hs)].
  - rewrite E2. done.
  - rewrite (proj2 (Z.eqb_neq _ _)) by by apply byte_not_eof. cbn [negb ends_let]. exists (current (get r1)).
    split; [|lia]. eapply reads_trans; [exact Hcs|]. by split.
Qed.

Lemma get_bson_binary_ends len r : good r ->
  fine_let (fun a (r' : reader) => lost r r' \/
    exists y, a.2 = Some y /\ consumed r ([y] ++ a.1) r' /\ len = Z.of_nat (length a.1)) (get_bson_binary (F:=F) len r).
Proof.
  intros Hg. unfold get_bson_binary. destruct (Z.ltb_spec len 0).
  { pose proof (fine_error_return allow (fun _ : reader => False) (parse_error 112) r (proj2 Hg) syntax_112) as He.
    by destruct (error_return (parse_error 112) r) as [[[] ?]| |]; simpl in *. }
  pose proof (get_be_fine allow 1 r Hg) as Hf.
  destruct (get_number 1 false r) as [[[b y] r1]| |] eqn:Er; try done. cbn [comp_bind].
  assert (good r1) as Hg1.
  { destruct b; [eapply consumed_good; [exact Hg|apply Hf]|]. by apply (get_number_failed allow) in Er as (_ & ? & _). }
  eapply fine_and_get; [by apply (get_bytes_fine allow)|]. intros s r2 [Hcs Hl]. destruct b.
  - right. exists y. cbn [fst snd]. split_and!; [done| |done]. destruct Hf as [Hc Hy]. eapply reads_trans; [|exact Hcs].
    assert (be_bytes 1 y = [y]) as <-; [|done]. unfold be_bytes. simpl. by rewrite Z.mod_small.
  - left. apply (get_number_failed allow) in Er as (E1 & _ & Hrd); [|done]. pose proof (consumed_good allow _ _ _ Hg1 Hcs) as Hg2.
    destruct Hcs as [E S]. rewrite E1 in E. symmetry in E. apply app_eq_nil in E as [_ E2]. unfold lost. rewrite E2, S. by split_and!.
Qed.

(** ** Values

    [parse] reads one document from at most [n - 2] bytes. *)

Definition document_read (is_array : bool) r r' : Prop := exists ms t,
  ia r = t ++ ia r' /\ bson_document ms t /\ placed (sax r) (document_value is_array ms) (sax r').

Definition parse_ends (parse : bool -> reader -> comp (bool * reader)) (n : nat) : Prop :=
  forall is_array r, good r -> ready (sax r) -> (length (ia r) + 2 <= n)%nat -> fails_or (document_read is_array r) (parse is_array r).

Definition value_read (c : Z) r r' : Prop :=
  (ia r' = [] /\ settled allow (sax r')) \/
  exists v t, ia r = t ++ ia r' /\ bson_value v c t /\ placed (sax r) v (sax r').

Lemma value_after c v t r r1 : good r -> ready (sax r) -> consumed r t r1 -> bson_value v c t ->
  fails_or (value_read c r) (event (dom_value v) r1).
Proof.
  intros Hg Hr [E S] Hv. apply fine_fails_or. eapply fine_mono; [apply event_value_fine; by rewrite S|].
  intros r' [E' Hp]. right. exists v, t. rewrite E', <- S. split_and!; done.
Qed.

Lemma value_lost c v r r1 : lost r r1 -> ready (sax r) -> fails_or (value_read c r) (event (dom_value v) r1).
Proof.
  intros (E & Hg & Hrd) Hr. apply fine_fails_or. eapply fine_mono; [apply event_value_fine; auto|].
  intros r' [E' Hp]. left. split; [congruence|]. eapply settled_flags; [apply Hg|]. apply Hp.
Qed.

Section Element.
Variable parse : bool -> reader -> comp (bool * reader).
Variable n : nat.
Hypothesis Hparse : parse_ends parse n.
Variable r : reader.
Hypothesis Hgood : good r.
Hypothesis Hready : ready (sax r).
Hypothesis Hlen : (length (ia r) + 2 <= n)%nat.

Lemma number_ends w c (v : Z -> json F) :
  (forall m, 0 <= m < 2 ^ (8 * Z.of_nat w) -> bson_value (v m) c (le_bytes w m)) ->
  fails_or (value_read c r) (and_let (get_number w true r) (fun m r => event (dom_value (v m)) r)).
Proof.
  intros Hv. eapply ends_and_let; [by apply fine_fails_or_let, (get_le_fine allow)|]. intros m r1 [Hcs Hm].
  eapply value_after; [done|done|exact Hcs|by apply Hv].
Qed.

Lemma element_double : fails_or (value_read 0x01 r) (and_let (get_number 8 true r) (fun m r => event (dom_value (value_number_float (of_bits64 m))) r)).
Proof. apply (number_ends 8 0x01 (fun m => value_number_float (of_bits64 m))). by constructor. Qed.

Lemma element_int64 : fails_or (value_read 0x12 r) (and_let (get_number 8 true r) (fun m r => event (dom_value (value_number_integer (to_signed 64 m))) r)).
Proof.
  apply (number_ends 8 0x12 (fun m => value_number_integer (to_signed 64 m))). intros m Hm.
  destruct (signed_number 64 m) as [Hz E]; [lia|done|]. rewrite <- E at 2. by constructor.
Qed.

Lemma element_uint64 : fails_or (value_read 0x11 r) (and_let (get_number 8 true r) (fun m r => event (dom_value (value_number_unsigned m)) r)).
Proof. apply (number_ends 8 0x11 value_number_unsigned). by constructor. Qed.

Lemma element_int32 : fails_or (value_read 0x10 r) (and_let (get_int32 r) (fun z r => event (dom_value (value_number_integer z)) r)).
Proof.
  eapply ends_and_let; [by apply fine_fails_or_let, get_int32_fine|]. intros z r1 [Hcs Hz].
  eapply value_after; [done|done|exact Hcs|by constructor].
Qed.

Lemma element_string : fails_or (value_read 0x02 r)
  (and_let (get_int32 r) (fun len r => and_let (get_bson_string len r) (fun s r => event (dom_value (value_string s)) r))).
Proof.
  eapply ends_and_let; [by apply fine_fails_or_let, get_int32_fine|]. intros len r1 [Hcs Hz].
  eapply ends_and_let; [apply get_bson_string_ends; by eapply consumed_good|]. intros s r2 (b & Hcs2 & El).
  destruct (length_bytes len _ Hz El) as [Eb Hl]; [lia|]. rewrite Eb in Hcs.
  eapply value_after; [done|done|eapply reads_trans; [exact Hcs|exact Hcs2]|by constructor].
Qed.

Lemma element_binary : fails_or (value_read 0x05 r)
  (and_let (get_int32 r) (fun len r => and_let (get_bson_binary len r) (fun b r => event (dom_value (value_binary b.1 b.2)) r))).
Proof.
  eapply ends_and_let; [by apply fine_fails_or_let, get_int32_fine|]. intros len r1 [Hcs Hz].
  eapply ends_and_let; [apply fine_fails_or_let, get_bson_binary_ends; by eapply consumed_good|].
  intros [s y] r2 [(E & Hg2 & Hrd)|(y' & Ey & Hcs2 & El)].
  - apply value_lost; [|done]. split_and!; [done|done|]. destruct Hcs as [_ <-]. done.
  - cbn [fst snd] in *. subst y. destruct (length_bytes len _ Hz El) as [Eb Hl]; [lia|]. rewrite Eb in Hcs.
    eapply value_after; [done|done|eapply reads_trans; [exact Hcs|exact Hcs2]|by constructor].
Qed.

Lemma element_boolean : fails_or (value_read 0x08 r) (event (dom_value (value_boolean (negb (current (get r) =? 0)))) (get r)).
Proof.
  destruct (get_cases allow r Hgood) as [(E & E1 & E2 & Hg' & Hs)|(E & Hb & Hg' & Hs)].
  - apply value_lost; [|done]. split_and!; [done|done|by rewrite Hs].
  - eapply value_after; [done|done|by split; [exact (E : ia r = [_] ++ _)|]|constructor].
Qed.

Lemma element_container (is_array : bool) : fails_or (value_read (if is_array then 0x04 else 0x03) r) (parse is_array r).
Proof.
  eapply ends_mono; [by apply Hparse|]. intros r' (ms & t & E & Hd & Hp). right.
  eexists _, t. split_and!; [done|by constructor|done].
Qed.

Lemma element_ends c pos : fails_or (value_read c r) (parse_bson_element_internal parse c pos r).
Proof.
  unfold parse_bson_element_internal.
  destruct (Z.eqb_spec c 0x01) as [->|_]; [apply element_double|].
  destruct (Z.eqb_spec c 0x02) as [->|_]; [apply element_string|].
  destruct (Z.eqb_spec c 0x03) as [->|_]; [apply (element_container false)|].
  destruct (Z.eqb_spec c 0x04) as [->|_]; [apply (element_container true)|].
  destruct (Z.eqb_spec c 0x05) as [->|_]; [apply element_binary|].
  destruct (Z.eqb_spec c 0x08) as [->|_]; [apply element_boolean|].
  destruct (Z.eqb_spec c 0x0A) as [->|_].
  { eapply value_after; [done|done|apply consumed_nil|constructor]. }
  destruct (Z.eqb_spec c 0x10) as [->|_]; [apply element_int32|].
  destruct (Z.eqb_spec c 0x12) as [->|_]; [apply element_int64|].
  destruct (Z.eqb_spec c 0x11) as [->|_]; [apply element_uint64|].
  unfold bson_unsupported, event. cbn. unfold dom_parse_error. destruct Hgood as [_ ->].
  destruct allow eqn:E; simpl; [right|]; done.
Qed.
End Element.

(** ** Documents *)

Definition elements_read (is_array : bool) d0 xs r r' : Prop := exists ms t,
  ia r = t ++ [0] ++ ia r' /\ bson_elements ms t /\ document_inv is_array d0 (xs ++ ms) (sax r').

(** No element begins at the end of the input. *)
Lemma element_list_lost {Q} parse f (is_array : bool) r : good r -> ia r = [] ->
  fails_or Q (parse_bson_element_list parse (S f) is_array r).
Proof.
  intros Hg E. cbn [parse_bson_element_list]. cbv zeta.
  destruct (get_cases allow r Hg) as [(_ & E1 & E2 & Hg' & Hs)|(E' & _)]; [|by rewrite E in E'].
  rewrite E2. cbn [Z.eqb EOF]. apply fine_fails_or. eapply fine_then; [apply fine_eof, Hg'|].
  intros r1 [_ Hc]. done.
Qed.

Lemma element_list_ends parse n (is_array : bool) d0 : parse_ends parse n ->
  forall f xs r, good r -> settled allow d0 -> document_inv is_array d0 xs (sax r) ->
  (length (ia r) + 1 <= f)%nat -> (length (ia r) <= n)%nat ->
  fails_or (elements_read is_array d0 xs r) (parse_bson_element_list parse f is_array r).
Proof.
  intros Hparse. induction f as [|f IH]; intros xs r Hg Hd0 Hinv Hf Hn; [lia|].
  destruct (get_cases allow r Hg) as [(E & _)|(E & Hb & Hg' & Hs)]; [by apply element_list_lost|].
  cbn [parse_bson_element_list]. cbv zeta. destruct (Z.eqb_spec (current (get r)) 0) as [Ec|Ec].
  { exists [], []. rewrite app_nil_r, Hs. split_and!; [by rewrite E at 1; rewrite Ec|constructor|done]. }
  rewrite unexpect_eof_run by by apply byte_not_eof. cbn [and_then comp_bind].
  eapply ends_and_let; [by apply fine_fails_or_let, get_bson_cstr_fine|]. intros k r1 [Hcs Hk].
  assert (good r1) as Hg1 by by eapply consumed_good. destruct Hcs as [E1 S1].
  destruct (named_run is_array d0 xs k r1) as (r2 & Hr2 & E2 & Hrd & Hpl & Hfl); [by rewrite S1, Hs|].
  match goal with |- context [and_then ?m _] => change m with (named is_array k r1) end.
  rewrite Hr2. cbn [and_then comp_bind].
  assert (good r2) as Hg2 by (split; [rewrite E2; apply Hg1|eapply settled_flags; [apply Hg1|done]]).
  assert (ia r = (current (get r) :: (k ++ [0])) ++ ia r2) as Er by (rewrite E, E2; simpl; by rewrite E1).
  assert (length (ia r2) + 2 <= length (ia r))%nat as Hl by (rewrite Er; simpl; rewrite !length_app; simpl; lia).
  eapply ends_then; [apply (element_ends parse n); [done|done|done|lia]|].
  intros r3 [[E3 Hs3]|(v & t & E3 & Hv & Hp)].
  { destruct f; [lia|]. apply element_list_lost; [|done]. split; [rewrite E3; constructor|done]. }
  assert (length (ia r3) <= length (ia r2))%nat as Hl3 by (rewrite E3, length_app; lia).
  eapply ends_mono; [apply IH; [by eapply good_placed|done|by apply Hpl|lia|lia]|].
  intros r' (ms & ts & E' & Hms & Hinv'). rewrite <- app_assoc in Hinv'.
  exists ((k, v) :: ms), ((current (get r) :: (k ++ [0]) ++ t) ++ ts).
  split_and!; [|by constructor|done]. rewrite Er, E3, E'. simpl. by rewrite <- !app_assoc.
Qed.

Lemma parse_bson_step fuel : parse_ends (parse_bson (F:=F) fuel) fuel -> parse_ends (parse_bson (F:=F) (S fuel)) (S fuel).
Proof.
  intros Hparse is_array r Hg Hr Hf. cbn [parse_bson].
  pose proof (get_number_fine allow 4 true r Hg) as Hn.
  destruct (get_number 4 true r) as [[[b m] r1]| |] eqn:Er; [|by left|done]. cbn [comp_bind].
  assert (good r1 /\ ready (sax r1) /\ (length (ia r1) <= length (ia r))%nat) as (Hg1 & Hr1 & Hl1).
  { destruct b.
    - destruct Hn as (bs & Hcs & _). split_and!; [by eapply consumed_good|by destruct Hcs as [_ ->]|].
      destruct Hcs as [-> _]. rewrite length_app. lia.
    - apply (get_number_failed allow) in Er as (-> & ? & ?); [|done]. split_and!; [done|auto|simpl; lia]. }
  destruct (event_start_run is_array r1 Hr1) as (r2 & Hr2 & E2 & Hinv). rewrite Hr2. cbn [and_then comp_bind].
  assert (good r2) as Hg2 by (eapply (good_filling allow r1 r2 []); [done|apply Hg1|done|exact Hinv]).
  destruct b.
  - destruct Hn as (size & [E1 S1] & Hsz & _ & _).
    eapply ends_then; [apply (element_list_ends _ fuel is_array (sax r1) Hparse); [done|apply Hg1|done|rewrite E2; lia|rewrite E2; lia]|].
    intros r3 (ms & t & E3 & Hms & Hf3). destruct (event_end_run is_array _ _ _ Hf3) as (r4 & Hr4 & E4 & Hp); [by destruct is_array|].
    change (event (if is_array then sax_end_array else sax_end_object) r3) with
      (event (if is_array then dom_end_array else dom_end_object) r3). rewrite Hr4.
    exists ms, (size ++ t ++ [0]). rewrite <- S1. split_and!; [|by constructor|done].
    by rewrite E1, <- E2, E3, E4, <- !app_assoc.
  - apply (get_number_failed allow) in Er as (E1 & _); [|done]. destruct fuel as [|f]; [lia|].
    eapply ends_then; [apply (element_list_lost (Q:=fun _ => False)); [done|congruence]|]. done.
Qed.

Lemma parse_bson_ends fuel : parse_ends (parse_bson (F:=F) fuel) fuel.
Proof. induction fuel; [intros is_array r _ _ Hf; lia|]. by apply parse_bson_step. Qed.
End Sound.
