(* ===== verification/BsonWriterFacts.v ===== *)
(** The BSON writer: it fails exactly for the names that BSON cannot express,
    the sizes it computes beforehand are those of what it writes, and what it
    writes is in the grammar. *)
From S2P Require Import Prelude CLib Utf8 JsonValue JsonCompare JsonGrammar JsonRoundtrip JsonParserComplete.
From S2P Require Import BinaryReader BinaryReaderFacts Bson BsonFacts.

Section Writer.
Context {F : Type} `{FloatBits F}.
Implicit Types (j : json F) (name : bytes).

(** No key has a NUL. *)
Fixpoint names_ok j : bool :=
  match j with
  | value_object m => forallb (fun kv => bool_decide (0 ∉ kv.1) && names_ok kv.2) m
  | value_array l => forallb names_ok l
  | _ => true
  end.

(** No element is discarded, as a parser callback may leave it. *)
Fixpoint complete j : bool :=
  match j with
  | value_object m => forallb (fun kv => complete kv.2) m
  | value_array l => forallb complete l
  | value_discarded => false
  | _ => true
  end.

(** ** Sizes *)

Definition key_code : exn := out_of_range 409.

(** What the two calls for an element do. *)
Definition outcome j : Prop := forall name,
  (0 ∈ name -> calc_bson_element_size name j = Throw key_code) /\
  (0 ∉ name -> if names_ok j
    then exists bs, write_bson_element name j = Ret bs /\ calc_bson_element_size name j = Ret (Z.of_nat (length bs))
    else calc_bson_element_size name j = Throw key_code /\ write_bson_element name j = Throw key_code).

Lemma header_size name : 0 ∉ name -> calc_bson_entry_header_size name = Ret (Z.of_nat (length name) + 2).
Proof. intros Hn. unfold calc_bson_entry_header_size. rewrite decide_False by done. f_equal. lia. Qed.

Lemma header_thrown name : 0 ∈ name -> calc_bson_entry_header_size name = Throw key_code.
Proof. intros Hn. unfold calc_bson_entry_header_size. by rewrite decide_True. Qed.

Lemma calc_thrown name j : 0 ∈ name -> calc_bson_element_size name j = Throw key_code.
Proof. intros Hn. destruct j; cbn [calc_bson_element_size]; by rewrite header_thrown. Qed.

Lemma to_dec_no_nul i : 0 <= i -> 0 ∉ to_dec i.
Proof. intros Hi Hin. pose proof (to_dec_digits i Hi) as Hd. eapply Forall_forall in Hd; [|done]. simpl in Hd. lia. Qed.

(** The arithmetic of a size. *)
Ltac sizes := do 2 f_equal; simpl; rewrite ?length_app; simpl; rewrite ?length_app, ?le_bytes_length; simpl; lia.

Lemma array_outcome l : Forall outcome l -> forall i acc, 0 <= i ->
  if forallb names_ok l
  then exists bs, write_array_elements write_bson_element i l = Ret bs /\
    calc_array_elements calc_bson_element_size i l acc = Ret (acc + Z.of_nat (length bs))
  else calc_array_elements calc_bson_element_size i l acc = Throw key_code.
Proof.
  induction 1 as [|j l Hj _ IH]; intros i acc Hi; simpl; [exists []; split; [done|f_equal; simpl; lia]|].
  destruct (Hj (to_dec i)) as [_ Ho]. specialize (Ho (to_dec_no_nul i Hi)). destruct (names_ok j); simpl.
  - destruct Ho as (b & -> & ->). simpl. specialize (IH (i + 1) (acc + Z.of_nat (length b)) ltac:(lia)).
    destruct (forallb names_ok l); [|done]. destruct IH as (bs & -> & ->). simpl.
    exists (b ++ bs). split; [done|]. f_equal. rewrite length_app. lia.
  - by destruct Ho as [-> _].
Qed.

Lemma object_outcome m : Forall (fun kv => outcome kv.2) m -> forall acc,
  if forallb (fun kv => bool_decide (0 ∉ kv.1) && names_ok kv.2) m
  then exists bs, write_object_elements write_bson_element m = Ret bs /\
    calc_object_elements calc_bson_element_size m acc = Ret (acc + Z.of_nat (length bs))
  else calc_object_elements calc_bson_element_size m acc = Throw key_code.
Proof.
  induction 1 as [|[k j] m Hj _ IH]; intros acc; simpl; [exists []; split; [done|f_equal; simpl; lia]|].
  simpl in Hj. destruct (Hj k) as [Hin Hout]. destruct (decide (0 ∈ k)) as [Hk|Hk].
  { rewrite bool_decide_false by (intros Hn; by apply Hn). simpl. by rewrite Hin. }
  rewrite bool_decide_true by done. specialize (Hout Hk). destruct (names_ok j); simpl.
  - destruct Hout as (b & -> & ->). simpl. specialize (IH (acc + Z.of_nat (length b))).
    destruct (forallb _ m); [|done]. destruct IH as (bs & -> & ->). simpl.
    exists (b ++ bs). split; [done|]. f_equal. rewrite length_app. lia.
  - by destruct Hout as [-> _].
Qed.

Lemma element_outcome j : complete j = true -> outcome j.
Proof.
  induction j as [|m IH|l IH|s|b|z|n|f|s t|] using json_ind'; intros Hc name; (split; [apply calc_thrown|intros Hn]);
    try done; cbn [names_ok calc_bson_element_size write_bson_element]; rewrite header_size by done; cbn [comp_bind].
  - eexists. split; [done|]. sizes.
  - simpl in Hc. assert (Forall (fun kv => outcome kv.2) m) as Ho.
    { clear Hn. induction IH; [constructor|]. simpl in Hc. apply andb_prop in Hc as [? ?]. auto. }
    clear Hc. pose proof (object_outcome m Ho 0) as Hm. unfold calc_bson_object_size. destruct (forallb _ m).
    + destruct Hm as (bs & -> & ->). cbn [comp_bind]. eexists. split; [done|]. sizes.
    + by rewrite Hm.
  - simpl in Hc. assert (Forall outcome l) as Ho.
    { clear Hn. induction IH; [constructor|]. simpl in Hc. apply andb_prop in Hc as [? ?]. auto. }
    clear Hc. pose proof (array_outcome l Ho 0 0 ltac:(lia)) as Hm. unfold calc_bson_array_size. destruct (forallb _ l).
    + destruct Hm as (bs & -> & ->). cbn [comp_bind]. eexists. split; [done|]. sizes.
    + by rewrite Hm.
  - eexists. split; [done|]. unfold write_bson_string, calc_bson_string_size. sizes.
  - eexists. split; [done|]. sizes.
  - eexists. split; [done|]. unfold write_bson_integer, calc_bson_integer_size. destruct (fits_int32 z); sizes.
  - eexists. split; [done|]. unfold write_bson_unsigned, calc_bson_unsigned_size. zcases; sizes.
  - eexists. split; [done|]. unfold write_bson_double. sizes.
  - eexists. split; [done|]. unfold write_bson_binary, calc_bson_binary_size. sizes.
Qed.

Lemma object_elements_outcome m : complete (value_object m) = true -> Forall (fun kv => outcome kv.2) m.
Proof.
  simpl. induction m as [|kv m IH]; [constructor|]. simpl. intros Hc. apply andb_prop in Hc as [? ?].
  constructor; [by apply element_outcome|auto].
Qed.
Lemma array_elements_outcome l : complete (value_array l) = true -> Forall outcome l.
Proof.
  simpl. induction l as [|v l IH]; [constructor|]. simpl. intros Hc. apply andb_prop in Hc as [? ?].
  constructor; [by apply element_outcome|auto].
Qed.

Lemma calc_object_ok m : complete (value_object m) = true -> names_ok (value_object m) = true ->
  exists n, calc_bson_object_size m = Ret n.
Proof.
  intros Hc Hn. pose proof (object_outcome m (object_elements_outcome m Hc) 0) as Hm. simpl in Hn. rewrite Hn in Hm.
  destruct Hm as (bs & _ & E). unfold calc_bson_object_size. rewrite E. by eexists.
Qed.

Lemma calc_array_ok l : complete (value_array l) = true -> names_ok (value_array l) = true ->
  exists n, calc_bson_array_size l = Ret n.
Proof.
  intros Hc Hn. pose proof (array_outcome l (array_elements_outcome l Hc) 0 0 ltac:(lia)) as Hm. simpl in Hn. rewrite Hn in Hm.
  destruct Hm as (bs & _ & E). unfold calc_bson_array_size. rewrite E. by eexists.
Qed.

(** ** Texts *)

(** The value that is read back: an unsigned number is written as a signed
    one where it fits, and every binary value has a subtype, of 8 bits. *)
Fixpoint bson_canonical j : json F :=
  match j with
  | value_number_unsigned n => if n <=? 2 ^ 63 - 1 then value_number_integer n else j
  | value_binary b t => value_binary b (Some (match t with Some t => wrapu 8 t | None => 0 end))
  | value_array l => value_array (map bson_canonical l)
  | value_object m => value_object (map (fun kv => (kv.1, bson_canonical kv.2)) m)
  | _ => j
  end.

Definition bson_name (k : bytes) : Prop := Forall is_byte k /\ 0 ∉ k.

(** Values a program can hold, with the names and the sizes that BSON can
    express. *)
Inductive bson_writable : json F -> Prop :=
  | docable_null : bson_writable value_null
  | docable_boolean b : bson_writable (value_boolean b)
  | docable_integer z : - 2 ^ 63 <= z < 2 ^ 63 -> bson_writable (value_number_integer z)
  | docable_unsigned z : 0 <= z < 2 ^ 64 -> bson_writable (value_number_unsigned z)
  | docable_float f : bson_writable (value_number_float f)
  | docable_string s : Forall is_byte s -> Z.of_nat (length s) + 1 < 2 ^ 31 -> bson_writable (value_string s)
  | docable_binary s t : Forall is_byte s -> Z.of_nat (length s) < 2 ^ 31 -> bson_writable (value_binary s t)
  | docable_array l : Forall bson_writable l -> bson_writable (value_array l)
  | docable_object m : sorted_object m -> Forall (fun kv => bson_name kv.1) m ->
      Forall (fun kv => bson_writable kv.2) m -> bson_writable (value_object m).

Lemma writable_ok j : bson_writable j -> complete j = true /\ names_ok j = true.
Proof.
  induction j as [|m IH|l IH|s|b|z|n|f|s t|] using json_ind'; intros Hw; inversion Hw as [| | | | | | |? Hl|? Hs Hk Hv]; subst; try done; clear Hw; simpl.
  - clear Hs. induction IH as [|kv m Hkv _ IHm]; [done|]. simpl. inversion Hk as [|? ? [_ Hn]]; inversion Hv; subst.
    destruct (Hkv ltac:(done)) as [-> ->]. rewrite bool_decide_true by done. simpl. by apply IHm.
  - induction IH as [|v l Hlv _ IHl]; [done|]. simpl. inversion Hl; subst.
    destruct (Hlv ltac:(done)) as [-> ->]. simpl. by apply IHl.
Qed.

Lemma le_bytes_wrap w z : le_bytes w (wrapu (8 * Z.of_nat w) z) = le_bytes w z.
Proof. pose proof (be_bytes_wrap w z) as E. unfold be_bytes in E. by apply (f_equal (@rev Z)) in E; rewrite !rev_involutive in E. Qed.

End Writer.

Section Texts.
Context {F : Type} `{FloatBitsLaws F}.
Implicit Types (j : json F) (name : bytes).

(** An element is written, in the grammar. *)
Definition element_text j : Prop := forall name, 0 ∉ name -> exists c t,
  write_bson_element name j = Ret (c :: (name ++ [0]) ++ t) /\ bson_value (bson_canonical j) c t /\ Forall is_byte t.

Lemma integer_text z : - 2 ^ 63 <= z < 2 ^ 63 -> element_text (value_number_integer z).
Proof.
  intros Hz name Hn. cbn [write_bson_element bson_canonical]. unfold write_bson_integer, write_number, fits_int32.
  destruct (Z.leb_spec (- 2 ^ 31) z), (Z.leb_spec z (2 ^ 31 - 1)); simpl andb; cbv iota;
    do 2 eexists; (split_and!; [reflexivity| |apply le_bytes_bytes]).
  - rewrite <- (le_bytes_wrap 4). constructor. unfold int_range. simpl. lia.
  - rewrite <- (le_bytes_wrap 8). by constructor.
  - rewrite <- (le_bytes_wrap 8). by constructor.
  - lia.
Qed.

Lemma unsigned_text n : 0 <= n < 2 ^ 64 -> element_text (value_number_unsigned n).
Proof.
  intros Hn name Hname. cbn [write_bson_element bson_canonical]. unfold write_bson_unsigned, write_number.
  destruct (Z.leb_spec n (2 ^ 31 - 1)); [|destruct (Z.leb_spec n (2 ^ 63 - 1))];
    do 2 eexists; (split_and!; [reflexivity| |apply le_bytes_bytes]).
  - rewrite (proj2 (Z.leb_le _ _)) by (simpl in *; lia). rewrite <- (le_bytes_wrap 4). constructor.
    unfold int_range. simpl in *. lia.
  - rewrite <- (le_bytes_wrap 8). constructor. unfold int_range. simpl in *. lia.
  - by constructor.
Qed.

Lemma string_element_text s : Forall is_byte s -> Z.of_nat (length s) + 1 < 2 ^ 31 -> element_text (value_string s).
Proof.
  intros Hs Hl name Hn. cbn [write_bson_element bson_canonical]. unfold write_bson_string, write_number.
  do 2 eexists. split_and!; [reflexivity|by constructor|].
  repeat (apply Forall_app; split); [apply le_bytes_bytes|done|by repeat constructor].
Qed.

Lemma binary_element_text s t : Forall is_byte s -> Z.of_nat (length s) < 2 ^ 31 -> element_text (value_binary s t).
Proof.
  intros Hs Hl name Hn. cbn [write_bson_element bson_canonical]. unfold write_bson_binary.
  set (y := match t with Some t => t | None => 0 end).
  assert (write_number 1 false y = [match t with Some t => wrapu 8 t | None => 0 end]) as ->.
  { unfold y. by destruct t. }
  do 2 eexists. split_and!; [reflexivity|by constructor|].
  repeat (apply Forall_app; split); [apply le_bytes_bytes| |done]. apply Forall_singleton.
  destruct t; [|done]. by apply (wrapu_range 8).
Qed.

Lemma array_elements_text l : Forall element_text l -> forall i, 0 <= i -> exists ms t,
  write_array_elements write_bson_element i l = Ret t /\ bson_elements ms t /\ map snd ms = map bson_canonical l /\
  Forall is_byte t.
Proof.
  induction 1 as [|v l Hv _ IH]; intros i Hi; simpl; [exists [], []; split_and!; constructor|].
  pose proof (to_dec_no_nul i Hi) as Hn. destruct (Hv (to_dec i) Hn) as (c & t & -> & Hval & Hby).
  destruct (IH (i + 1) ltac:(lia)) as (ms & ts & -> & Hms & Es & Hbs). simpl.
  exists ((to_dec i, bson_canonical v) :: ms), ((c :: (to_dec i ++ [0]) ++ t) ++ ts).
  split_and!; [done|by constructor|by rewrite <- Es|]. apply Forall_app. split; [|done].
  constructor; [unfold is_byte; pose proof (type_code_range c (bson_value_type _ _ _ Hval)); lia|].
  repeat (apply Forall_app; split); [|by repeat constructor|done]. eapply Forall_impl; [by apply to_dec_digits|].
  unfold is_byte. simpl. lia.
Qed.

Lemma object_elements_text m : Forall (fun kv => bson_name kv.1) m -> Forall (fun kv => element_text kv.2) m -> exists t,
  write_object_elements write_bson_element m = Ret t /\
  bson_elements (map (fun kv => (kv.1, bson_canonical kv.2)) m) t /\ Forall is_byte t.
Proof.
  induction m as [|[k v] m IH]; intros Hk Hv; simpl; [exists []; split_and!; constructor|].
  inversion Hk as [|? ? [Hbk Hn] Hk']; inversion Hv as [|? ? Hv0 Hv']; subst. simpl in *.
  destruct (Hv0 k Hn) as (c & t & -> & Hval & Hby). destruct (IH Hk' Hv') as (ts & -> & Hms & Hbs). simpl.
  exists ((c :: (k ++ [0]) ++ t) ++ ts). split_and!; [done|by constructor|]. apply Forall_app. split; [|done].
  constructor; [unfold is_byte; pose proof (type_code_range c (bson_value_type _ _ _ Hval)); lia|].
  repeat (apply Forall_app; split); [done|by repeat constructor|done].
Qed.

Lemma document_bytes n t : Forall is_byte t -> Forall is_byte (le_bytes 4 n ++ t ++ [0]).
Proof. intros Ht. repeat (apply Forall_app; split); [apply le_bytes_bytes|done|by repeat constructor]. Qed.

Lemma sorted_canonical (m : list (bytes * json F)) : sorted_object m -> document_value false (map (fun kv => (kv.1, bson_canonical kv.2)) m) = bson_canonical (value_object m).
Proof. intros Hs. simpl. rewrite object_of_sorted; [done|]. unfold sorted_object. by rewrite keys_map. Qed.

Lemma writable_text j : bson_writable j -> element_text j.
Proof.
  induction j as [|m IH|l IH|s|b|z|n|f|s t|] using json_ind'; intros Hw; pose proof (writable_ok _ Hw) as [Hc Hno];
    inversion Hw as [| | | | | | |? Hl|? Hs Hk Hv]; subst.
  - intros name Hn. do 2 eexists. split_and!; [by rewrite app_nil_r|constructor|constructor].
  - intros name Hn. assert (Forall (fun kv => element_text kv.2) m) as Ht.
    { clear -IH Hv. induction IH; inversion Hv; subst; constructor; auto. }
    destruct (object_elements_text m Hk Ht) as (t & Et & Hms & Hby). destruct (calc_object_ok m Hc Hno) as (n & En).
    cbn [write_bson_element]. rewrite En, Et. cbn [comp_bind]. rewrite <- sorted_canonical by done.
    do 2 eexists. split_and!; [reflexivity| |by apply document_bytes].
    apply (bson_container false). constructor; [apply le_bytes_length|done].
  - intros name Hn. assert (Forall element_text l) as Ht.
    { clear -IH Hl. induction IH; inversion Hl; subst; constructor; auto. }
    destruct (array_elements_text l Ht 0 ltac:(lia)) as (ms & t & Et & Hms & Es & Hby).
    destruct (calc_array_ok l Hc Hno) as (n & En).
    cbn [write_bson_element bson_canonical]. rewrite En, Et, <- Es. cbn [comp_bind].
    do 2 eexists. split_and!; [reflexivity| |by apply document_bytes].
    apply (bson_container true). constructor; [apply le_bytes_length|done].
  - by apply string_element_text.
  - intros name Hn. cbn [write_bson_element bson_canonical]. unfold write_bson_boolean.
    do 2 eexists. split_and!; [reflexivity| |by destruct b; repeat constructor].
    destruct b; [apply (bson_boolean 1)|apply (bson_boolean 0)].
  - by apply integer_text.
  - by apply unsigned_text.
  - intros name Hn. cbn [write_bson_element bson_canonical]. unfold write_bson_double, write_number.
    do 2 eexists. split_and!; [reflexivity| |apply le_bytes_bytes].
    rewrite <- (of_bits64_bits64 f) at 1. constructor. apply bits64_range.
  - by apply binary_element_text.
Qed.

(** A whole document. *)
Lemma write_bson_text m : bson_writable (value_object m) -> exists bs,
  write_bson (value_object m) = Ret bs /\ bson_text (bson_canonical (value_object m)) bs /\ Forall is_byte bs.
Proof.
  intros Hw. pose proof (writable_ok _ Hw) as [Hc Hno]. inversion Hw as [| | | | | | | |? Hs Hk Hv]; subst.
  assert (Forall (fun kv => element_text kv.2) m) as Ht by (eapply Forall_impl; [exact Hv|]; intros kv; apply writable_text).
  destruct (object_elements_text m Hk Ht) as (t & Et & Hms & Hby). destruct (calc_object_ok m Hc Hno) as (n & En).
  cbn [write_bson]. unfold write_bson_object. rewrite En, Et. cbn [comp_bind]. rewrite <- sorted_canonical by done.
  eexists. split_and!; [done| |by apply document_bytes]. constructor. constructor; [apply le_bytes_length|done].
Qed.
End Texts.
