(* ===== verification/BsonSpec.v ===== *)
(** What the BSON reader and writer promise: the reader accepts exactly the
    texts of the grammar and gives them their value, it answers on every
    input; the writer writes every object without a NUL in a name, with its
    length in front, and what it writes is read back. *)
From S2P Require Import Prelude Utf8 JsonValue JsonCompare JsonGrammar JsonRoundtrip JsonLexer JsonParser JsonParserFacts JsonParserComplete.
From S2P Require Import BinaryReader BinaryReaderFacts Ieee754 Bson BsonFacts BsonSound BsonWriterFacts.

Section Reader.
Context {F : Type} `{FloatBits F, MaxSize}.

(** Reading BSON returns on every input, in every mode: a value, whose
    text stands at the beginning of the input and fills it in strict mode; a
    discarded value; one of the documented parse errors, with exceptions; or
    the error for an excessive size. *)
Theorem from_bson_total (i : bytes) strict allow : Forall is_byte i ->
  document_ends (F:=F) no_bytes True (bson_failure allow) bson_text strict i (from_bson i strict allow).
Proof.
  intros Hb. unfold from_bson. apply (from_binary_ends allow get no_bytes); [apply get_reads|done|by left|done|]. intros r Hg Hr E.
  eapply ends_mono; [apply (parse_bson_ends allow (length i + 2)); [done|done|rewrite E; lia]|].
  intros r' (ms & t & ? & Hd & ?). exists (document_value false ms), t. by split_and!; [|constructor|].
Qed.

(** C32: In strict mode, reading BSON returns a value exactly when the whole
    input is a text of the grammar with this value, whether or not exceptions
    are allowed. *)
Theorem from_bson_exact (i : bytes) (j : json F) allow : Forall is_byte i -> j <> value_discarded ->
  from_bson i true allow = Ret j <-> bson_text j i.
Proof.
  intros Hb Hj. split.
  - intros E. pose proof (from_bson_total i true allow Hb) as Ht. rewrite E in Ht. simpl in Ht.
    destruct Ht as [(t & q & -> & Hi & Hq)|[? _]]; [|done]. by rewrite Hq, app_nil_r.
  - intros Hi. revert Hb. destruct Hi as [ms t Hd]. intros Hb. apply (from_binary_all allow); [apply get_ends|].
    intros r Hr E. apply bson_grammar_runs in Hd.
    apply (Hd false (length t + 2)%nat r []); [done|by rewrite app_nil_r|done|lia].

Qed.
End Reader.

Section Writer.
Context {F : Type} `{FloatBitsLaws F}.
Implicit Types (j : json F).

(** What a BSON writer promises of a value without discarded elements. *)
Definition written j (r : comp bytes) : Prop :=
  match r with
  | Ret bs => is_object j = true /\ names_ok j = true /\ exists body, bs = le_bytes 4 (Z.of_nat (length bs)) ++ body
  | Throw e => (is_object j = false /\ e = type_error 317) \/ (is_object j = true /\ names_ok j = false /\ e = out_of_range 409)
  | OutOfFuel => False
  end.

(** [to_bson] writes every object in which no key, at any depth, has a
    NUL, and the document begins with its own length; it throws
    [out_of_range.409] for the other objects and [type_error.317] for every
    value that is no object. *)
Theorem to_bson_written j : complete j = true -> written j (to_bson j).
Proof.
  intros Hc. destruct j as [|m| | | | | | | |]; try by left.
  pose proof (object_outcome m (object_elements_outcome m Hc) 0) as Ho.
  unfold to_bson. cbn [write_bson]. unfold write_bson_object, calc_bson_object_size, written.
  change (names_ok (value_object m)) with (forallb (fun kv => bool_decide (0 ∉ kv.1) && names_ok kv.2) m).
  clear Hc. destruct (forallb _ m).
  - destruct Ho as (bs & -> & ->). cbn [comp_bind]. split_and!; [done|done|]. exists (bs ++ [0]).
    unfold write_number. f_equal. f_equal. rewrite !length_app, le_bytes_length. simpl. lia.
  - rewrite Ho. by right.
Qed.

Context `{MaxSize}.

(** C33: For an object that a program can hold, whose names contain no null
    byte, whose strings are shorter than 2^31 - 1 and whose binary values are
    shorter than 2^31 bytes (a longer one is written with a length that
    wrapped around), [to_bson] writes it, and reading back what it wrote gives
    the object, up to the type of unsigned numbers that fit a signed one and
    the subtypes of binary values. *)
Theorem bson_roundtrip (m : list (bytes * json F)) strict allow : bson_writable (value_object m) ->
  exists bs, to_bson (value_object m) = Ret bs /\ from_bson bs strict allow = Ret (bson_canonical (value_object m)).
Proof.
  intros Hw. destruct (write_bson_text m Hw) as (bs & Hbs & Ht & Hby). exists bs. split; [exact Hbs|].
  revert Hby. destruct Ht as [ms t Hd]. intros Hby. unfold from_bson. apply (from_binary_all allow); [apply get_ends|].
  intros r Hr E. apply bson_grammar_runs in Hd.
  apply (Hd false (length t + 2)%nat r []); [done|by rewrite app_nil_r|done|lia].
Qed.
End Writer.

(** ** Examples *)

#[local] Existing Instance example_sizes.

(** [\{"a": ["xy", 1.5], "": true\}]; the size is wrong, and the elements of
    the array have no names. *)
Definition example_bson : bytes :=
  [0xFF; 0xFF; 0x00; 0x00;
   0x04; 97; 0; 0; 0; 0; 0; 0x02; 0; 3; 0; 0; 0; 120; 121; 0; 0x01; 0; 0; 0; 0; 0; 0; 0; 0xF8; 0x3F; 0;
   0x08; 0; 1; 0].
Definition example_bson_value : json double :=
  value_object [([], value_boolean true); ([97], value_array [value_string [120; 121]; value_number_float (of_pattern 0x3FF8000000000000)])].

Lemma example_bson_bytes : Forall is_byte example_bson.
Proof. repeat constructor; lia. Qed.

Lemma from_bson_exact_witness : Forall is_byte example_bson /\ bson_text example_bson_value example_bson.
Proof.
  split; [apply example_bson_bytes|].
  apply (proj1 (from_bson_exact example_bson example_bson_value true example_bson_bytes ltac:(discriminate))).
  vm_compute. reflexivity.
Defined.

Lemma from_bson_total_witness :
  document_ends (F:=double) no_bytes True (bson_failure true) bson_text true example_bson (from_bson example_bson true true).
Proof. exact (from_bson_total example_bson true true example_bson_bytes). Defined.

Definition example_object : list (bytes * json double) :=
  [(str "a", value_array [value_null; value_number_integer 5; value_number_integer (-2 ^ 40); value_number_unsigned (2 ^ 64 - 1)]);
   (str "b", value_binary [1; 2; 3] (Some 7));
   (str "c", value_object [(str "k", value_string (str "text"))])].

Lemma example_object_writable : bson_writable (value_object example_object).
Proof.
  assert (forall s, 0 ∉ str s -> bson_name (str s)) as Hname by (intros s ?; split; [apply str_bytes|done]).
  apply docable_object; [repeat constructor| |].
  - repeat (apply Forall_cons; split); try apply Forall_nil_2; apply Hname; vm_compute; set_solver.
  - repeat (apply Forall_cons; split); try apply Forall_nil_2; constructor.
    + repeat (apply Forall_cons; split); try apply Forall_nil_2; constructor; lia.
    + repeat constructor; lia.
    + done.
    + repeat constructor.
    + apply Forall_cons; split; [|apply Forall_nil_2]. apply Hname; vm_compute; set_solver.
    + apply Forall_cons; split; [|apply Forall_nil_2]. constructor; [apply str_bytes|done].
Qed.

Lemma bson_roundtrip_witness : bson_writable (value_object example_object) /\
  exists bs, to_bson (value_object example_object) = Ret bs /\ from_bson bs true true = Ret (bson_canonical (value_object example_object)).
Proof.
  split; [apply example_object_writable|]. exact (bson_roundtrip example_object true true example_object_writable).
Defined.

Lemma to_bson_written_witness : complete (value_object example_object) = true /\
  written (value_object example_object) (to_bson (value_object example_object)).
Proof. split; [reflexivity|]. exact (to_bson_written (value_object example_object) eq_refl). Defined.

(** When the byte after a string is missing, the reader returns a discarded
    value, exceptions allowed or not. *)
Example unterminated_string_silent :
  from_bson (F:=double) [0; 0; 0; 0; 0x02; 97; 0; 2; 0; 0; 0; 120] true true = Ret value_discarded.
Proof. vm_compute. reflexivity. Qed.

(** A NUL in a key deep in the value. *)
Example deep_nul_thrown :
  to_bson (F:=double) (value_object [(str "a", value_array [value_object [([97; 0], value_null)]])]) = Throw (out_of_range 409).
Proof. vm_compute. reflexivity. Qed.
