(* ===== verification/Ubjson.v ===== *)
(** UBJSON and BJData: the reader of [src/libephmem/json.hpp]
    ([parse_ubjson_internal] and the functions it calls).  The two formats
    share their functions; [bjdata] says which one is read
    ([input_format == input_format_t::bjdata]). *)
From S2P Require Import Prelude Utf8 JsonValue JsonCompare JsonLexer JsonParser BinaryReader.

Definition npos : Z := unknown_size.

(** [bjd_optimized_type_markers]: F, H, N, S, T, Z, \[ and \{. *)
Definition bjd_optimized_type_markers : list Z := [70; 72; 78; 83; 84; 90; 91; 123].

(** [bjd_types_map]: B, C, D, I, L, M, U, d, i, l, m and u. *)
Definition bjd_types_map : list (Z * bytes) :=
  [(66, str "byte"); (67, str "char"); (68, str "double"); (73, str "int16"); (76, str "int64"); (77, str "uint64");
   (85, str "uint8"); (100, str "single"); (105, str "int8"); (108, str "int32"); (109, str "uint32"); (117, str "uint16")].

(** [std::lower_bound] and the comparison with what it finds. *)
Definition bjd_type_name (t : Z) : option bytes :=
  option_map snd (List.find (fun p => p.1 =? t) bjd_types_map).

Section Reader.
Context {F S : Type} `{BinarySax F S} `{FloatBits F} `{FloatOps F}.
Variable bjdata : bool.
Variable decimal_point : bytes.
Notation reader := (reader S).
Implicit Types (r : reader).

(** A call that has no result but its success. *)
Definition with_result {A} (d : A) (m : comp (bool * reader)) : comp (bool * A * reader) :=
  let* '(b, r) := m in Ret (b, d, r).

(** The integer types of the [switch] statements: their bytes, and whether
    they are signed. *)
Definition number_marker (c : Z) : option (nat * bool) :=
  if c =? 85 (* 'U' *) then Some (1%nat, false)
  else if c =? 105 (* 'i' *) then Some (1%nat, true)
  else if c =? 73 (* 'I' *) then Some (2%nat, true)
  else if c =? 108 (* 'l' *) then Some (4%nat, true)
  else if c =? 76 (* 'L' *) then Some (8%nat, true)
  else if c =? 117 (* 'u' *) then if bjdata then Some (2%nat, false) else None
  else if c =? 109 (* 'm' *) then if bjdata then Some (4%nat, false) else None
  else if c =? 77 (* 'M' *) then if bjdata then Some (8%nat, false) else None
  else None.

(** [get_number] of an integer type. *)
Definition get_integer (ty : nat * bool) r : comp (bool * Z * reader) :=
  let* '(b, n, r) := get_number ty.1 bjdata r in
  Ret (b, if ty.2 then to_signed (8 * Z.of_nat ty.1) n else n, r).

(** [get_ubjson_string] *)
Definition get_ubjson_string (get_char : bool) r : comp (bool * bytes * reader) :=
  let r := if get_char then get r else r in
  let* '(b, r) := unexpect_eof r in
  if negb b then Ret (false, [], r)
  else
    match number_marker (current r) with
    | Some ty => and_get [] (get_integer ty r) get_bytes
    | None => with_result [] (error_return (parse_error 113) r)
    end.

(** ** Sizes *)

(** A count, after its marker; [value_in_range_of<std::size_t>] holds of all
    64-bit numbers that are not negative. *)
Definition get_ubjson_count (ty : nat * bool) r : comp (bool * Z * reader) :=
  and_get 0 (get_integer ty r) (fun n r =>
  if n <? 0 then with_result 0 (error_return (parse_error 113) r) else Ret (true, n, r)).

(** The elements of [_ArraySize_], and the number of elements of the array,
    with the check for an overflow. *)
Fixpoint ndarray_sizes (dim : list Z) (result : Z) r : comp (bool * Z * reader) :=
  match dim with
  | [] => Ret (true, result, r)
  | i :: dim =>
      let result := wrapu 64 (result * i) in
      if (result =? 0) || (result =? npos) then with_result 0 (error_return (out_of_range 408) r)
      else
        let* '(b, r) := event (sax_number_unsigned i) r in
        if b then ndarray_sizes dim result r else Ret (false, 0, r)
  end.

(** The size that the vector of dimensions gives, and whether an object in
    JData annotated array format was begun. *)
Definition ndarray_result (dim : list Z) r : comp (bool * (Z * bool) * reader) :=
  if (length dim =? 1)%nat || ((length dim =? 2)%nat && (nth 0 dim 0 =? 1)) then
    Ret (true, (nth (length dim - 1) dim 0, false), r)
  else if (length dim =? 0)%nat then Ret (true, (0, false), r)
  else if existsb (fun i => i =? 0) dim then Ret (true, (0, false), r)
  else
    let* '(b, r) :=
      and_then (event (sax_start_object_len 3) r) (fun r =>
      and_then (event (sax_key (str "_ArraySize_")) r)
        (event (sax_start_array_len (Z.of_nat (length dim))))) in
    if negb b then Ret (false, (0, false), r)
    else
      and_get (0, false) (ndarray_sizes dim 1 r) (fun result r =>
      with_result (result, true) (event sax_end_array r)).

Section Sizes.
(** [get_ubjson_size_value]: the result is the size and [is_ndarray]. *)
Variable size_value : bool -> Z -> reader -> comp (bool * (Z * bool) * reader).

(** [get_ubjson_size_type]: the size and the type, with bit 8 of the type for
    an ndarray. *)
Definition get_ubjson_size_type (inside_ndarray : bool) r : comp (bool * (Z * Z) * reader) :=
  let r := get_ignore_noop r in
  if current r =? 36 (* '$' *) then
    let r := get r in
    let second := current r in
    if bjdata && existsb (Z.eqb second) bjd_optimized_type_markers then
      with_result (npos, second) (error_return (parse_error 112) r)
    else
      let* '(b, r) := unexpect_eof r in
      if negb b then Ret (false, (npos, second), r)
      else
        let r := get_ignore_noop r in
        if negb (current r =? 35 (* '#' *)) then
          with_result (npos, second) (and_then (unexpect_eof r) (error_return (parse_error 112)))
        else
          let* '(is_error, (first, is_ndarray), r) := size_value false 0 r in
          if bjdata && is_ndarray then
            if inside_ndarray then with_result (first, second) (error_return (parse_error 112) r)
            else Ret (is_error, (first, Z.lor second (Z.shiftl 1 8)), r)
          else Ret (is_error, (first, second), r)
  else if current r =? 35 then
    let* '(is_error, (first, is_ndarray), r) := size_value false 0 r in
    if bjdata && is_ndarray then with_result (first, 0) (error_return (parse_error 112) r)
    else Ret (is_error, (first, 0), r)
  else Ret (true, (npos, 0), r).

(** The loops of [get_ubjson_ndarray_size]: a number of dimensions, and
    dimensions up to a closing bracket. *)
Fixpoint get_dims (fuel : nat) (i len prefix : Z) (dim : list Z) r : comp (bool * list Z * reader) :=
  if len <=? i then Ret (true, dim, r)
  else
    match fuel with
    | O => OutOfFuel
    | Datatypes.S fuel =>
        and_get [] (size_value true prefix r) (fun v => get_dims fuel (i + 1) len prefix (dim ++ [v.1]))
    end.

Fixpoint get_dims_open (fuel : nat) (dim : list Z) r : comp (bool * list Z * reader) :=
  if current r =? 93 then Ret (true, dim, r)
  else
    match fuel with
    | O => OutOfFuel
    | Datatypes.S fuel =>
        and_get [] (size_value true (current r) r) (fun v r =>
        get_dims_open fuel (dim ++ [v.1]) (get_ignore_noop r))
    end.

Definition get_ubjson_ndarray_size (fuel : nat) r : comp (bool * list Z * reader) :=
  and_get [] (get_ubjson_size_type true r) (fun st r =>
  let '(first, second) := st in
  if negb (first =? npos) then
    if negb (second =? 0) then
      if negb (second =? 78) then get_dims fuel 0 first second [] r else Ret (true, [], r)
    else get_dims fuel 0 first 0 [] r
  else get_dims_open fuel [] r).
End Sizes.

Fixpoint get_ubjson_size_value (fuel : nat) (is_ndarray : bool) (prefix : Z) r : comp (bool * (Z * bool) * reader) :=
  match fuel with
  | O => OutOfFuel
  | Datatypes.S fuel =>
      let r := if prefix =? 0 then get_ignore_noop r else r in
      let prefix := if prefix =? 0 then current r else prefix in
      match number_marker prefix with
      | Some ty => and_get (0, is_ndarray) (get_ubjson_count ty r) (fun n r => Ret (true, (n, is_ndarray), r))
      | None =>
          if bjdata && (prefix =? 91 (* '[' *)) then
            if is_ndarray then with_result (0, is_ndarray) (error_return (parse_error 113) r)
            else and_get (0, is_ndarray) (get_ubjson_ndarray_size (get_ubjson_size_value fuel) fuel r) ndarray_result
          else with_result (0, is_ndarray) (error_return (parse_error 113) r)
      end
  end.

(** ** Numbers *)

Definition bjdata_half r : comp (bool * reader) :=
  let r := get r in
  let byte1 := current r in
  and_then (unexpect_eof r) (fun r =>
  let r := get r in
  let byte2 := current r in
  and_then (unexpect_eof r)
  (event (sax_number_float (half_value (wrapu 8 byte2) (wrapu 8 byte1)) []))).

(** [get_ubjson_high_precision_number], with a lexer of its own. *)
Definition get_ubjson_high_precision_number (fuel : nat) r : comp (bool * reader) :=
  and_let (get_ubjson_size_value fuel true 0 r) (fun size r =>
  and_let (get_bytes size.1 r) (fun number_vector r =>
  let* '(result_number, number_lexer) := scan (lexer_init (F:=F) number_vector false decimal_point) in
  let number_string := JsonLexer.get_token_string number_lexer in
  let* '(result_remainder, number_lexer) := scan number_lexer in
  if negb (bool_decide (result_remainder = end_of_input)) then error_at number_string (parse_error 115) r
  else
    match result_number with
    | tok_integer => event (sax_number_integer (value_integer number_lexer)) r
    | tok_unsigned => event (sax_number_unsigned (value_unsigned number_lexer)) r
    | tok_float => event (sax_number_float (value_float number_lexer) number_string) r
    | _ => error_at number_string (parse_error 115) r
    end)).
(** ** Containers *)

(** [for (i = 0; i < n; ++i)] around a call; [n] may be any [size_t], so the
    loop is written by recursion on its binary representation. *)
Fixpoint times_pos (n : positive) (body : reader -> comp (bool * reader)) r : comp (bool * reader) :=
  match n with
  | xH => body r
  | xO n => and_then (times_pos n body r) (times_pos n body)
  | xI n => and_then (body r) (fun r => and_then (times_pos n body r) (times_pos n body))
  end.
Definition times (n : Z) (body : reader -> comp (bool * reader)) r : comp (bool * reader) :=
  match n with Zpos n => times_pos n body r | _ => Ret (true, r) end.

(** [while (current != stop)] *)
Fixpoint until_marker (stop : Z) (body : reader -> comp (bool * reader)) (fuel : nat) r : comp (bool * reader) :=
  if current r =? stop then Ret (true, r)
  else
    match fuel with
    | O => OutOfFuel
    | Datatypes.S fuel => and_then (body r) (fun r => until_marker stop body fuel (get_ignore_noop r))
    end.

Section Value.
(** [get_ubjson_value] *)
Variable value : Z -> reader -> comp (bool * reader).
Variable fuel : nat.

(** [parse_ubjson_internal] *)
Definition parse_ubjson (get_char : bool) r : comp (bool * reader) :=
  let r := if get_char then get_ignore_noop r else r in value (current r) r.

(** An ndarray, whose [_ArraySize_] was sent with its size. *)
Definition ubjson_ndarray (first second : Z) r : comp (bool * reader) :=
  let second := Z.land second (Z.lnot (Z.shiftl 1 8)) in
  match bjd_type_name second with
  | None => error_return (parse_error 112) r
  | Some type =>
      and_then (event (sax_key (str "_ArrayType_")) r) (fun r =>
      and_then (event (sax_string type) r) (fun r =>
      let second := if (second =? 67) || (second =? 66) then 85 else second in
      and_then (event (sax_key (str "_ArrayData_")) r) (fun r =>
      and_then (event (sax_start_array_len first) r) (fun r =>
      and_then (times first (value second) r) (fun r =>
      and_then (event sax_end_array r) (event sax_end_object))))))
  end.

Definition is_ndarray_type (second : Z) : bool := negb (Z.land second (Z.shiftl 1 8) =? 0).

Definition get_ubjson_array r : comp (bool * reader) :=
  and_let (get_ubjson_size_type (get_ubjson_size_value fuel) false r) (fun size_and_type r =>
  let '(first, second) := size_and_type in
  if bjdata && negb (first =? npos) && is_ndarray_type second then ubjson_ndarray first second r
  else if bjdata && negb (first =? npos) && (second =? 66 (* 'B' *)) then
    and_let (get_bytes first r) (fun result => event (sax_binary result None))
  else
    and_then
      (if negb (first =? npos) then
         and_then (event (sax_start_array_len first) r) (fun r =>
         if negb (second =? 0) then
           if negb (second =? 78 (* 'N' *)) then times first (value second) r else Ret (true, r)
         else times first (parse_ubjson true) r)
       else
         and_then (event (sax_start_array_len unknown_size) r)
           (until_marker 93 (parse_ubjson false) fuel))
      (event sax_end_array)).

(** One member, with its value read by [read_value]. *)
Definition ubjson_member (get_char : bool) (read_value : reader -> comp (bool * reader)) r : comp (bool * reader) :=
  and_let (get_ubjson_string get_char r) (fun key r =>
  and_then (event (sax_key key) r) read_value).

Definition get_ubjson_object r : comp (bool * reader) :=
  and_let (get_ubjson_size_type (get_ubjson_size_value fuel) false r) (fun size_and_type r =>
  let '(first, second) := size_and_type in
  if bjdata && negb (first =? npos) && is_ndarray_type second then error_return (parse_error 112) r
  else
    and_then
      (if negb (first =? npos) then
         and_then (event (sax_start_object_len first) r) (fun r =>
         if negb (second =? 0) then times first (ubjson_member true (value second)) r
         else times first (ubjson_member true (parse_ubjson true)) r)
       else
         and_then (event (sax_start_object_len unknown_size) r)
           (until_marker 125 (ubjson_member false (parse_ubjson true)) fuel))
      (event sax_end_object)).

(** One turn of [get_ubjson_value]. *)
Definition ubjson_value (prefix : Z) r : comp (bool * reader) :=
  if prefix =? EOF then unexpect_eof r
  else if prefix =? 84 (* 'T' *) then event (sax_boolean true) r
  else if prefix =? 70 (* 'F' *) then event (sax_boolean false) r
  else if prefix =? 90 (* 'Z' *) then event sax_null r
  else if bjdata && (prefix =? 66 (* 'B' *)) then and_let (get_number 1 bjdata r) (fun n => event (sax_number_unsigned n))
  else
    match number_marker prefix with
    | Some ty =>
        and_let (get_integer ty r) (fun n => event (if ty.2 : bool then sax_number_integer n else sax_number_unsigned n))
    | None =>
        if bjdata && (prefix =? 104 (* 'h' *)) then bjdata_half r
        else if prefix =? 100 (* 'd' *) then
          and_let (get_number 4 bjdata r) (fun n => event (sax_number_float (of_bits32 n) []))
        else if prefix =? 68 (* 'D' *) then
          and_let (get_number 8 bjdata r) (fun n => event (sax_number_float (of_bits64 n) []))
        else if prefix =? 72 (* 'H' *) then get_ubjson_high_precision_number fuel r
        else if prefix =? 67 (* 'C' *) then
          let r := get r in
          and_then (unexpect_eof r) (fun r =>
          if 127 <? current r then error_return (parse_error 113) r
          else event (sax_string [wrapu 8 (current r)]) r)
        else if prefix =? 83 (* 'S' *) then
          and_let (get_ubjson_string true r) (fun s => event (sax_string s))
        else if prefix =? 91 (* '[' *) then get_ubjson_array r
        else if prefix =? 123 (* '{' *) then get_ubjson_object r
        else error_return (parse_error 112) r
    end.
End Value.

Fixpoint get_ubjson_value (fuel : nat) (prefix : Z) r : comp (bool * reader) :=
  match fuel with
  | O => OutOfFuel
  | Datatypes.S fuel => ubjson_value (get_ubjson_value fuel) fuel prefix r
  end.

Definition parse_ubjson_internal (fuel : nat) : reader -> comp (bool * reader) := parse_ubjson (get_ubjson_value fuel) true.
End Reader.

(** [from_ubjson] and [from_bjdata]. *)
Definition from_ubjson {F} `{FloatBits F, FloatOps F, MaxSize} (i : bytes) (strict allow_exceptions : bool)
    (decimal_point : bytes) : comp (json F) :=
  from_binary get_ignore_noop (parse_ubjson_internal false decimal_point (length i + 4)) i strict allow_exceptions.
Definition from_bjdata {F} `{FloatBits F, FloatOps F, MaxSize} (i : bytes) (strict allow_exceptions : bool)
    (decimal_point : bytes) : comp (json F) :=
  from_binary get_ignore_noop (parse_ubjson_internal true decimal_point (length i + 4)) i strict allow_exceptions.
