(* ===== verification/UbjsonGrammar.v ===== *)
(** UBJSON and BJData texts with their values: the specification of the reader
    of [Ubjson].  For UBJSON ([bjdata] is false) these are all texts that are
    read; for BJData they are the texts without sizes given as a vector of
    dimensions.

    A value is a marker byte and what follows it.  No-op bytes may stand
    before a marker, but not before the length of a string. *)
From S2P Require Import Prelude JsonValue JsonGrammar JsonLexer BinaryReader BinaryReaderFacts Ubjson.

(** Bytes ['N']. *)
Definition noops (q : bytes) : Prop := Forall (eq 78) q.

(** The integer types: marker, bytes, whether they are signed. *)
Definition integer_types (bjdata : bool) : list (Z * (nat * bool)) :=
  [(105, (1%nat, true)); (85, (1%nat, false)); (73, (2%nat, true)); (108, (4%nat, true)); (76, (8%nat, true))] ++
  (if bjdata then [(117, (2%nat, false)); (109, (4%nat, false)); (77, (8%nat, false))] else []).

Definition type_range (ty : nat * bool) (z : Z) : Prop :=
  let w := 8 * Z.of_nat ty.1 in if ty.2 then - 2 ^ (w - 1) <= z < 2 ^ (w - 1) else 0 <= z < 2 ^ w.

(** BJData has little-endian numbers. *)
Definition number_bytes (bjdata : bool) (w : nat) (n : Z) : bytes := if bjdata then le_bytes w n else be_bytes w n.

Section Grammar.
Context {F : Type} `{FloatBits F, FloatOps F, MaxSize}.
Variable bjdata : bool.
Variable decimal_point : Z.

(** A number after its marker. *)
Inductive integer_text : Z -> Z -> bytes -> Prop :=
  | integer_typed c ty z : (c, ty) ∈ integer_types bjdata -> type_range ty z ->
      integer_text c z (number_bytes bjdata ty.1 (wrapu (8 * Z.of_nat ty.1) z)).

(** A count of elements. *)
Inductive count_text : Z -> bytes -> Prop :=
  | count_marked ns c n b : noops ns -> integer_text c n b -> 0 <= n -> count_text n (ns ++ c :: b).

(** A string; the bytes of a negative length are none. *)
Inductive length_string : bytes -> bytes -> Prop :=
  | string_length c z b s : integer_text c z b -> Z.of_nat (length s) = Z.max 0 z -> length_string s (c :: b ++ s).

(** The size of a container and the type of its elements; a type of 0 is
    none. *)
Inductive size_head : Z -> Z -> bytes -> Prop :=
  | head_count ns n h : noops ns -> count_text n h -> size_head 0 n (ns ++ [35] ++ h)
  | head_type ns ty ns' n h : noops ns -> (bjdata = true -> ty ∉ bjd_optimized_type_markers) -> noops ns' ->
      count_text n h -> size_head ty n (ns ++ [36; ty] ++ ns' ++ [35] ++ h).

(** The text of a high-precision number is what the JSON lexer accepts as one
    number. *)
Definition precise_number (s : bytes) (v : json F) : Prop :=
  exists t l l', scan (lexer_init (F:=F) s false [decimal_point]) = Ret (t, l) /\ scan l = Ret (end_of_input, l') /\
    ((t = tok_integer /\ v = value_number_integer (value_integer l')) \/
     (t = tok_unsigned /\ v = value_number_unsigned (value_unsigned l')) \/
     (t = tok_float /\ v = value_number_float (value_float l'))).

(** A value, the marker and the text after it. *)
Inductive value_text : json F -> Z -> bytes -> Prop :=
  | text_true : value_text (value_boolean true) 84 []
  | text_false : value_text (value_boolean false) 70 []
  | text_null : value_text value_null 90 []
  | text_byte n : bjdata = true -> is_byte n -> value_text (value_number_unsigned n) 66 [n]
  | text_integer c ty z b : (c, ty) ∈ integer_types bjdata -> integer_text c z b ->
      value_text (if ty.2 : bool then value_number_integer z else value_number_unsigned z) c b
  | text_half b1 b2 : bjdata = true -> value_text (value_number_float (half_value b2 b1)) 104 [b1; b2]
  | text_single n : 0 <= n < 2 ^ 32 -> value_text (value_number_float (of_bits32 n)) 100 (number_bytes bjdata 4 n)
  | text_double n : 0 <= n < 2 ^ 64 -> value_text (value_number_float (of_bits64 n)) 68 (number_bytes bjdata 8 n)
  | text_precise h s v : count_text (Z.of_nat (length s)) h -> precise_number s v -> value_text v 72 (h ++ s)
  | text_char c : c <= 127 -> value_text (value_string [c]) 67 [c]
  | text_string s t : length_string s t -> value_text (value_string s) 83 t
  | text_array l t : open_elements l t -> value_text (value_array l) 91 t
  | text_counted_array ty l h t : size_head ty (Z.of_nat (length l)) h -> ty <> 78 -> (bjdata = true -> ty <> 66) ->
      Z.of_nat (length l) <> npos -> Z.of_nat (length l) <= array_max_size ->
      counted_elements ty l t -> value_text (value_array l) 91 (h ++ t)
  | text_no_elements n h : size_head 78 n h -> n <> npos -> n <= array_max_size -> value_text (value_array []) 91 h
  | text_binary s h : bjdata = true -> size_head 66 (Z.of_nat (length s)) h -> Z.of_nat (length s) <> npos ->
      value_text (value_binary s None) 91 (h ++ s)
  | text_object ms t : open_members ms t -> value_text (value_object (object_of ms)) 123 t
  | text_counted_object ty ms h t : size_head ty (Z.of_nat (length ms)) h ->
      Z.of_nat (length ms) <> npos -> Z.of_nat (length ms) <= object_max_size ->
      counted_members ty ms t -> value_text (value_object (object_of ms)) 123 (h ++ t)
(** Elements up to the closing bracket. *)
with open_elements : list (json F) -> bytes -> Prop :=
  | open_elements_end ns : noops ns -> open_elements [] (ns ++ [93])
  | open_elements_cons v t l ts : marked_text v t -> open_elements l ts -> open_elements (v :: l) (t ++ ts)
(** A value with its marker. *)
with marked_text : json F -> bytes -> Prop :=
  | text_marked ns c v t : noops ns -> value_text v c t -> marked_text v (ns ++ c :: t)
(** Elements of a type, or with their markers. *)
with counted_elements : Z -> list (json F) -> bytes -> Prop :=
  | counted_elements_nil ty : counted_elements ty [] []
  | counted_elements_typed ty v t l ts : ty <> 0 -> value_text v ty t -> counted_elements ty l ts ->
      counted_elements ty (v :: l) (t ++ ts)
  | counted_elements_marked v t l ts : marked_text v t -> counted_elements 0 l ts ->
      counted_elements 0 (v :: l) (t ++ ts)
with open_members : list (bytes * json F) -> bytes -> Prop :=
  | open_members_end ns : noops ns -> open_members [] (ns ++ [125])
  | open_members_cons ns k tk v t ms ts : noops ns -> length_string k tk -> marked_text v t -> open_members ms ts ->
      open_members ((k, v) :: ms) ((ns ++ tk ++ t) ++ ts)
with counted_members : Z -> list (bytes * json F) -> bytes -> Prop :=
  | counted_members_nil ty : counted_members ty [] []
  | counted_members_typed ty k tk v t ms ts : ty <> 0 -> length_string k tk -> value_text v ty t ->
      counted_members ty ms ts -> counted_members ty ((k, v) :: ms) ((tk ++ t) ++ ts)
  | counted_members_marked k tk v t ms ts : length_string k tk -> marked_text v t -> counted_members 0 ms ts ->
      counted_members 0 ((k, v) :: ms) ((tk ++ t) ++ ts).
End Grammar.

Scheme value_text_mind := Induction for value_text Sort Prop
  with open_elements_mind := Induction for open_elements Sort Prop
  with marked_text_mind := Induction for marked_text Sort Prop
  with counted_elements_mind := Induction for counted_elements Sort Prop
  with open_members_mind := Induction for open_members Sort Prop
  with counted_members_mind := Induction for counted_members Sort Prop.
Combined Scheme ubjson_ind from value_text_mind, open_elements_mind, marked_text_mind, counted_elements_mind,
  open_members_mind, counted_members_mind.

(** ** Lists of texts *)

Section Texts.
Context {F : Type} `{FloatBits F, FloatOps F, MaxSize}.
Variable bjdata : bool.
Variable decimal_point : Z.

(** An element of a given type, or with its marker. *)
Definition element_text (ty : Z) (v : json F) (t : bytes) : Prop :=
  if ty =? 0 then marked_text bjdata decimal_point v t else value_text bjdata decimal_point v ty t.

Definition member_text (ty : Z) (kv : bytes * json F) (t : bytes) : Prop :=
  exists tk tv, t = tk ++ tv /\ length_string bjdata kv.1 tk /\ element_text ty kv.2 tv.

Lemma texts_counted_elements ty l t : texts (element_text ty) l t -> counted_elements bjdata decimal_point ty l t.
Proof.
  induction 1 as [|v t l ts Hv _ IH]; [constructor|]. unfold element_text in Hv.
  destruct (Z.eqb_spec ty 0) as [->|Ht]; by constructor.
Qed.

Lemma texts_counted_members ty l t : texts (member_text ty) l t -> counted_members bjdata decimal_point ty l t.
Proof.
  induction 1 as [|[k v] t l ts Hv _ IH]; [constructor|]. destruct Hv as (tk & tv & -> & Hk & Ht).
  cbn [fst snd] in Hk, Ht. unfold element_text in Ht. destruct (Z.eqb_spec ty 0) as [->|Hty]; by constructor.
Qed.

Lemma texts_open_elements l t : texts (element_text 0) l t -> open_elements bjdata decimal_point l (t ++ [93]).
Proof.
  induction 1 as [|v t l ts Hv _ IH]; [apply (open_elements_end _ _ []); constructor|]. rewrite <- app_assoc. by constructor.
Qed.

Lemma texts_open_members l t : texts (member_text 0) l t -> open_members bjdata decimal_point l (t ++ [125]).
Proof.
  induction 1 as [|[k v] t l ts Hv _ IH]; [apply (open_members_end _ _ []); constructor|].
  destruct Hv as (tk & tv & -> & Hk & Ht). rewrite <- app_assoc.
  apply (open_members_cons _ _ [] k tk v tv); [constructor|done|exact Ht|done].
Qed.
End Texts.

(** ** Facts *)

Lemma number_bytes_length bj w n : length (number_bytes bj w n) = w.
Proof. destruct bj; [apply le_bytes_length|apply be_bytes_length]. Qed.

Lemma number_bytes_bytes bj w n : Forall is_byte (number_bytes bj w n).
Proof. destruct bj; [apply le_bytes_bytes|apply be_bytes_bytes]. Qed.

(** The table is that of the reader. *)
Lemma number_marker_spec bj c ty : number_marker bj c = Some ty <-> (c, ty) ∈ integer_types bj.
Proof.
  unfold number_marker, integer_types. split.
  - repeat (match goal with |- context [c =? ?k] => destruct (Z.eqb_spec c k) as [->|] end;
      [destruct bj; (intros [=]; fail) || (intros [= <-]; repeat constructor)|]). done.
  - destruct bj; intros Hin; simpl in Hin;
      repeat (apply elem_of_cons in Hin as [[= -> ->]|Hin]; [reflexivity|]); by apply elem_of_nil in Hin.
Qed.

Lemma integer_types_marker bj c ty : (c, ty) ∈ integer_types bj ->
  (c = 105 \/ c = 85 \/ c = 73 \/ c = 108 \/ c = 76 \/ c = 117 \/ c = 109 \/ c = 77) /\ (1 <= ty.1 <= 8)%nat.
Proof.
  intros Hin. destruct bj; simpl in Hin;
    repeat (apply elem_of_cons in Hin as [[= -> ->]|Hin]; [simpl; lia|]); by apply elem_of_nil in Hin.
Qed.

(** The markers of values: none of them ends a container, announces a size or
    is a no-op. *)
Definition value_marker (c : Z) : Prop := 66 <= c <= 123 /\ c <> 78 /\ c <> 93.

Lemma value_text_marker {F} `{FloatBits F, FloatOps F, MaxSize} bj dp (v : json F) c t :
  value_text bj dp v c t -> value_marker c.
Proof.
  unfold value_marker. destruct 1; try lia.
  match goal with Hin : _ ∈ integer_types _ |- _ => apply integer_types_marker in Hin as [Hc _] end. lia.
Qed.
