(* ===== verification/UbjsonFacts.v ===== *)
(** The UBJSON reader and its grammar: every text of [UbjsonGrammar] is read,
    with its value. *)
From S2P Require Import Prelude Utf8 JsonValue JsonGrammar JsonLexer JsonParser JsonParserFacts JsonParserComplete.
From S2P Require Import BinaryReader BinaryReaderFacts Ubjson UbjsonGrammar.

(** ** Loops *)

Section Loops.
Context {S : Type}.
Notation reader := (reader S).
Implicit Types (body : reader -> comp (bool * reader)).

Lemma and_then_assoc (m : comp (bool * reader)) k1 k2 :
  and_then (and_then m k1) k2 = and_then m (fun r => and_then (k1 r) k2).
Proof. by destruct m as [[[] r]| |]. Qed.

Lemma and_then_ext (m : comp (bool * reader)) k1 k2 : (forall r, k1 r = k2 r) -> and_then m k1 = and_then m k2.
Proof. intros E. destruct m as [[[] r]| |]; simpl; auto. Qed.

(** The loop as it is written. *)
Fixpoint nat_times (n : nat) body (r : reader) : comp (bool * reader) :=
  match n with
  | O => Ret (true, r)
  | Datatypes.S n => and_then (body r) (nat_times n body)
  end.

Lemma nat_times_add a b body : forall r, nat_times (a + b) body r = and_then (nat_times a body r) (nat_times b body).
Proof.
  induction a as [|a IH]; intros r; [done|]. simpl. rewrite and_then_assoc. by apply and_then_ext.
Qed.

Lemma times_pos_nat n body : forall r, times_pos n body r = nat_times (Pos.to_nat n) body r.
Proof.
  induction n as [n IH|n IH|]; intros r; cbn [times_pos].
  - rewrite Pos2Nat.inj_xI. simpl. apply and_then_ext. intros r1. rewrite Nat.add_0_r, nat_times_add, IH.
    by apply and_then_ext.
  - rewrite Pos2Nat.inj_xO. replace (2 * Pos.to_nat n)%nat with (Pos.to_nat n + Pos.to_nat n)%nat by lia.
    rewrite nat_times_add, IH. by apply and_then_ext.
  - simpl. by destruct (body r) as [[[] r']| |].
Qed.

Lemma times_nat n body r : 0 <= n -> times n body r = nat_times (Z.to_nat n) body r.
Proof. intros Hn. destruct n as [|n|n]; [done|apply times_pos_nat|lia]. Qed.
End Loops.

Section Facts.
Context {F : Type} `{FloatBits F, FloatOps F, MaxSize}.
Variable bjdata : bool.
Variable decimal_point : Z.
Notation reader := (reader (dom F)).
Implicit Types (r : reader) (d : dom F) (v : json F) (t q s ns : bytes).
Notation value fuel := (get_ubjson_value (F:=F) (S:=dom F) bjdata [decimal_point] fuel).
Notation size_value fuel := (get_ubjson_size_value (F:=F) (S:=dom F) bjdata fuel).

(** ** Markers *)

Lemma get_ignore_noop_run ns c q r : noops ns -> c <> 78 -> ia r = ns ++ c :: q ->
  ia (get_ignore_noop r) = q /\ current (get_ignore_noop r) = c /\ sax (get_ignore_noop r) = sax r.
Proof.
  unfold get_ignore_noop. intros Hns Hc ->. generalize (chars_read r) as n. induction Hns as [|x ns <- _ IH]; intros n; simpl.
  - by rewrite (proj2 (Z.eqb_neq _ _)).
  - apply IH.
Qed.

Lemma get_number_gives w n r q : ia r = number_bytes bjdata w n ++ q -> 0 <= n < 2 ^ (8 * Z.of_nat w) ->
  gives (get_number (F:=F) w bjdata r) r n q.
Proof. destruct bjdata; [apply get_le_run|apply get_be_run]. Qed.

Lemma get_integer_gives ty z r q : (1 <= ty.1)%nat -> type_range ty z ->
  ia r = number_bytes bjdata ty.1 (wrapu (8 * Z.of_nat ty.1) z) ++ q -> gives (get_integer (F:=F) bjdata ty r) r z q.
Proof.
  intros Hty Hz E. destruct (get_number_gives _ _ r q E) as (r' & Hr & ? & ?); [apply wrapu_range; lia|].
  exists r'. unfold get_integer. rewrite Hr. cbn [comp_bind]. split_and!; [|done|done]. do 3 f_equal.
  unfold type_range in Hz. destruct ty.2; [apply to_signed_wrap; [lia|done]|by apply wrapu_small].
Qed.

Lemma integer_text_gives c ty z b r q : (c, ty) ∈ integer_types bjdata -> integer_text bjdata c z b -> ia r = b ++ q ->
  gives (get_integer (F:=F) bjdata ty r) r z q.
Proof.
  intros Hin Ht E. destruct Ht as [c ty' z Hin' Hz].
  assert (ty' = ty) as -> by (apply number_marker_spec in Hin, Hin'; congruence).
  apply integer_types_marker in Hin as [_ Hty]. apply get_integer_gives; [lia|done|done].
Qed.

Lemma integer_text_marker c z b : integer_text bjdata c z b -> exists ty, (c, ty) ∈ integer_types bjdata /\ type_range ty z.
Proof. destruct 1 as [c ty z Hin Hz]. by exists ty. Qed.

(** ** Strings and sizes *)

Lemma get_ubjson_string_gives (get_char : bool) s t c b r q : length_string bjdata s t -> t = c :: b ->
  Forall is_byte t -> (if get_char then ia r = t ++ q else current r = c /\ ia r = b ++ q) ->
  gives (get_ubjson_string (F:=F) bjdata get_char r) r s q.
Proof.
  intros Ht Et Hby E. unfold get_ubjson_string. set (r0 := if get_char then get r else r).
  assert (current r0 = c /\ ia r0 = b ++ q /\ sax r0 = sax r) as (Hc & E0 & S0).
  { unfold r0. destruct get_char; [|naive_solver]. rewrite Et in E. by rewrite (get_cons r c (b ++ q) E). }
  destruct Ht as [c' z b' s Hz Hl]. injection Et as -> <-. inversion Hby as [|? ? Hcb Hby']; subst.
  apply Forall_app in Hby' as [_ Hbs]. destruct (integer_text_marker _ _ _ Hz) as (ty & Hin & _).
  rewrite unexpect_eof_run by (by apply byte_not_eof). cbn [comp_bind negb]. cbv iota.
  rewrite (proj2 (number_marker_spec _ _ _) Hin). rewrite <- app_assoc in E0.
  destruct (integer_text_gives _ _ _ _ _ _ Hin Hz E0) as (r1 & -> & E1 & S1). cbn [and_get comp_bind].
  destruct (get_bytes_run (Z.of_nat (length s)) s r1 q E1 Hbs eq_refl) as (r2 & Hr2 & E2 & S2).
  exists r2. split_and!; [|done|congruence].
  destruct (Z.le_ge_cases 0 z); [by replace z with (Z.of_nat (length s)) by lia|].
  assert (s = []) as -> by (destruct s; [done|simpl in Hl; lia]). unfold get_bytes in *. cbn [get_bytes_loop] in *.
  by rewrite (proj2 (Z.leb_le z 0)) by lia.
Qed.

Lemma length_string_cons s t : length_string bjdata s t -> exists c b, t = c :: b /\ c <> 78 /\ c <> 125.
Proof.
  destruct 1 as [c z b s Hz Hl]. exists c, (b ++ s). destruct (integer_text_marker _ _ _ Hz) as (ty & Hin & _).
  apply integer_types_marker in Hin as [Hc _]. split_and!; [done|lia|lia].
Qed.

Lemma size_value_gives fuel is_ndarray n h r q : count_text bjdata n h -> ia r = h ++ q ->
  gives (size_value (S fuel) is_ndarray 0 r) r (n, is_ndarray) q.
Proof.
  intros Hh E. destruct Hh as [ns c n b Hns Hb Hn]. destruct (integer_text_marker _ _ _ Hb) as (ty & Hin & _).
  pose proof (integer_types_marker _ _ _ Hin) as [Hc _]. rewrite <- app_assoc in E. cbn [app] in E.
  destruct (get_ignore_noop_run ns c (b ++ q) r Hns ltac:(lia) E) as (E1 & C1 & S1).
  cbn [get_ubjson_size_value]. cbn [Z.eqb]. cbv zeta. rewrite C1. rewrite (proj2 (number_marker_spec _ _ _) Hin).
  unfold get_ubjson_count. destruct (integer_text_gives _ _ _ _ _ _ Hin Hb E1) as (r1 & -> & E2 & S2).
  cbn [and_get comp_bind]. rewrite (proj2 (Z.ltb_ge _ _)) by lia. cbn [comp_bind]. exists r1. by rewrite S2.
Qed.

Lemma size_type_gives fuel ty n h r q : size_head bjdata ty n h -> Forall is_byte h -> ia r = h ++ q ->
  gives (get_ubjson_size_type (F:=F) bjdata (size_value (S fuel)) false r) r (n, ty) q.
Proof.
  intros Hh Hby E. unfold get_ubjson_size_type. cbv zeta. destruct Hh as [ns n h Hns Hh|ns ty ns' n h Hns Hty Hns' Hh].
  - rewrite <- !app_assoc in E. destruct (get_ignore_noop_run ns 35 _ r Hns ltac:(lia) E) as (E1 & C1 & S1).
    rewrite C1. cbn [Z.eqb Pos.eqb].
    destruct (size_value_gives fuel false n h _ q Hh E1) as (r1 & -> & E2 & S2). cbn [comp_bind]. rewrite andb_false_r.
    exists r1. by rewrite S2.
  - rewrite <- !app_assoc in E. cbn [app] in E.
    destruct (get_ignore_noop_run ns 36 _ r Hns ltac:(lia) E) as (E1 & C1 & S1). rewrite C1. cbn [Z.eqb Pos.eqb].
    apply Forall_app in Hby as [_ Hby]. inversion Hby as [|? ? _ Hby']; inversion Hby' as [|? ? Hb _]; subst.
    rewrite (get_cons _ ty _ E1). cbn [current].
    assert (bjdata && existsb (Z.eqb ty) bjd_optimized_type_markers = false) as ->.
    { destruct bjdata; [|done]. apply not_true_is_false. intros Hex. apply existsb_exists in Hex as (x & Hx & Ex).
      apply Z.eqb_eq in Ex as <-. apply list_elem_of_In in Hx. by apply Hty. }
    rewrite unexpect_eof_run by by apply byte_not_eof. cbn [comp_bind negb]. cbv iota.
    set (r1 := mk_reader _ _ _ _).
    destruct (get_ignore_noop_run ns' 35 (h ++ q) r1 Hns' ltac:(lia) eq_refl) as (E2 & C2 & S2).
    rewrite C2. cbn [Z.eqb Pos.eqb negb]. cbv iota.
    destruct (size_value_gives fuel false n h _ q Hh E2) as (r2 & -> & E3 & S3). cbn [comp_bind]. rewrite andb_false_r.
    exists r2. by rewrite S3, S2.
Qed.

Lemma size_type_open sv ns c t r : noops ns -> c <> 78 -> c <> 36 -> c <> 35 -> ia r = ns ++ c :: t ->
  get_ubjson_size_type (F:=F) bjdata sv false r = Ret (true, (npos, 0), get_ignore_noop r).
Proof.
  intros Hns Hc Hc1 Hc2 E. unfold get_ubjson_size_type. cbv zeta.
  destruct (get_ignore_noop_run ns c t r Hns Hc E) as (_ & -> & _).
  by rewrite (proj2 (Z.eqb_neq c 36)), (proj2 (Z.eqb_neq c 35)).
Qed.
(** ** Values *)

Definition value_runs v c t : Prop := forall fuel r q, Forall is_byte t -> ia r = t ++ q -> ready (sax r) ->
  (length t <= fuel)%nat -> stores (value (S fuel) c r) (sax r) v q.

Ltac marker := cbn [get_ubjson_value]; unfold ubjson_value; steer.

Lemma ubjson_constant_runs c v : (c, v) ∈ [(84, @value_boolean F true); (70, value_boolean false); (90, value_null)] -> value_runs v c [].
Proof.
  intros Hin fuel r q _ E Hr _. cbn [get_ubjson_value]. unfold ubjson_value.
  repeat (apply elem_of_cons in Hin as [[= -> ->]|Hin]; [steer; by apply event_stores|]). by apply elem_of_nil in Hin.
Qed.

Lemma byte_runs n : bjdata = true -> is_byte n -> value_runs (value_number_unsigned n) 66 [n].
Proof.
  intros Hbj Hn fuel r q _ E Hr _. marker. rewrite Hbj. cbn [andb].
  eapply gives_stores; [apply (get_le_run 1 r n q); [by simpl; rewrite Z.mod_small|exact Hn]|done|done].
Qed.

Lemma integer_runs c ty z b : (c, ty) ∈ integer_types bjdata -> integer_text bjdata c z b ->
  value_runs (if ty.2 : bool then value_number_integer z else value_number_unsigned z) c b.
Proof.
  intros Hin Hb fuel r q _ E Hr _. pose proof (integer_types_marker _ _ _ Hin) as [Hc _].
  cbn [get_ubjson_value]. unfold ubjson_value.
  rewrite (proj2 (Z.eqb_neq c EOF)) by (unfold EOF; lia). rewrite (proj2 (Z.eqb_neq c 84)) by lia.
  rewrite (proj2 (Z.eqb_neq c 70)) by lia. rewrite (proj2 (Z.eqb_neq c 90)) by lia. rewrite (proj2 (Z.eqb_neq c 66)) by lia.
  rewrite andb_false_r. rewrite (proj2 (number_marker_spec _ _ _) Hin).
  eapply gives_stores; [by apply (integer_text_gives c ty z b)|done|]. by destruct ty.2.
Qed.

Ltac no_marker := rewrite ?andb_false_r; match goal with |- context [number_marker ?b ?c] =>
  replace (number_marker b c) with (@None (nat * bool)) by (by destruct b) end.

Lemma ubjson_half_runs b1 b2 : bjdata = true -> value_runs (value_number_float (half_value b2 b1)) 104 [b1; b2].
Proof.
  intros Hbj fuel r q Hby E Hr _. inversion Hby as [|? ? Hb1 Hby']; inversion Hby' as [|? ? Hb2 _]; subst.
  marker. no_marker. cbn [andb]. unfold bjdata_half. cbv zeta. rewrite (get_cons r b1 ([b2] ++ q) E). cbn [current].
  rewrite unexpect_eof_run by by apply byte_not_eof. cbn [and_then comp_bind]. set (r1 := mk_reader _ _ _ _).
  rewrite (get_cons r1 b2 q eq_refl). cbn [current]. rewrite unexpect_eof_run by by apply byte_not_eof.
  cbn [and_then comp_bind]. rewrite !wrapu_small by done. by apply event_stores.
Qed.

Lemma ubjson_single_runs n : 0 <= n < 2 ^ 32 -> value_runs (value_number_float (of_bits32 n)) 100 (number_bytes bjdata 4 n).
Proof. intros Hn fuel r q _ E Hr _. marker. no_marker. steer. rewrite ?andb_false_r. eapply gives_stores; [by apply (get_number_gives 4)|done|done]. Qed.

Lemma ubjson_double_runs n : 0 <= n < 2 ^ 64 -> value_runs (value_number_float (of_bits64 n)) 68 (number_bytes bjdata 8 n).
Proof. intros Hn fuel r q _ E Hr _. marker. no_marker. steer. rewrite ?andb_false_r. eapply gives_stores; [by apply (get_number_gives 8)|done|done]. Qed.

Lemma char_runs c : c <= 127 -> value_runs (value_string [c]) 67 [c].
Proof.
  intros Hc fuel r q Hby E Hr _. inversion Hby as [|? ? Hb _]; subst. marker. no_marker. steer. rewrite ?andb_false_r. cbv zeta.
  rewrite (get_cons r c q E). rewrite unexpect_eof_run by by apply byte_not_eof. cbn [and_then comp_bind current].
  rewrite (proj2 (Z.ltb_ge _ _)) by lia. rewrite wrapu_small by done. by apply event_stores.
Qed.

Lemma ubjson_string_runs s t : length_string bjdata s t -> value_runs (value_string s) 83 t.
Proof.
  intros Hs fuel r q Hby E Hr _. destruct (length_string_cons s t Hs) as (c & b & Et & _).
  marker. no_marker. steer. rewrite ?andb_false_r.
  eapply gives_stores; [by apply (get_ubjson_string_gives true s t c b r q)|done|done].
Qed.

Lemma count_text_length n h : count_text bjdata n h -> (2 <= length h)%nat /\ 0 <= n.
Proof.
  destruct 1 as [ns c n b Hns Hb Hn]. split; [|done]. destruct Hb as [c ty z Hin _].
  apply integer_types_marker in Hin as [_ Hty]. rewrite length_app. simpl. rewrite number_bytes_length. lia.
Qed.

Lemma size_head_length ty n h : size_head bjdata ty n h -> (3 <= length h)%nat /\ 0 <= n.
Proof.
  destruct 1 as [ns n h _ Hh|ns ty ns' n h _ _ _ Hh]; apply count_text_length in Hh; rewrite ?length_app; simpl;
    rewrite ?length_app; simpl; lia.
Qed.

Lemma precise_runs h s v : count_text bjdata (Z.of_nat (length s)) h -> precise_number decimal_point s v ->
  value_runs v 72 (h ++ s).
Proof.
  intros Hh Hs fuel r q Hby E Hr Hf. apply Forall_app in Hby as [_ Hby]. rewrite <- app_assoc in E.
  rewrite length_app in Hf. pose proof (count_text_length _ _ Hh) as [Hl _]. destruct fuel as [|fuel]; [lia|].
  marker. no_marker. steer. rewrite ?andb_false_r. unfold get_ubjson_high_precision_number.
  destruct (size_value_gives fuel true _ h r (s ++ q) Hh E) as (r1 & -> & E1 & S1). cbn [and_let comp_bind fst].
  destruct (get_bytes_run _ s r1 q E1 Hby eq_refl) as (r2 & -> & E2 & S2). cbn [and_let comp_bind].
  destruct Hs as (t & l & l' & Hl1 & Hl2 & Hv). rewrite Hl1. cbn [comp_bind]. rewrite Hl2. cbn [comp_bind].
  rewrite bool_decide_true by done. cbn [negb]. cbv iota.
  rewrite <- S1, <- S2. destruct Hv as [[-> ->]|[[-> ->]|[-> ->]]]; apply event_stores; (done || congruence).
Qed.
(** ** Elements *)

Section Elements.
Context {X : Type} (Inv : list X -> dom F -> Prop) (body : reader -> comp (bool * reader)) (n : nat).

Lemma times_run l t : texts (element_runs Inv body n) l t ->
  forall xs r q, Forall is_byte t -> ia r = t ++ q -> Inv xs (sax r) -> (length t <= n)%nat ->
  exists r', times (Z.of_nat (length l)) body r = Ret (true, r') /\ ia r' = q /\ Inv (xs ++ l) (sax r').
Proof.
  intros Hl. setoid_rewrite (fun r => times_nat (Z.of_nat (length l)) body r ltac:(lia)). rewrite Nat2Z.id.
  induction Hl as [|x t l ts Hx _ IH]; intros xs r q Hb E HI Hn; simpl; [rewrite app_nil_r; eauto|].
  apply Forall_app in Hb as [Hb1 Hb2]. rewrite length_app in Hn. rewrite <- app_assoc in E.
  destruct (Hx xs r _ Hb1 E HI) as (r1 & -> & E1 & HI1); [lia|]. cbn [and_then comp_bind].
  replace (xs ++ x :: l) with ((xs ++ [x]) ++ l) by by rewrite <- app_assoc. apply IH; (done || lia).
Qed.

(** An element of a container without a size. *)
Definition begins_not (stop : Z) (t : bytes) : Prop := exists ns c b, t = ns ++ c :: b /\ noops ns /\ c <> 78 /\ c <> stop.
Definition open_runs (stop : Z) (x : X) (t : bytes) : Prop :=
  begins_not stop t /\ element_runs Inv (fun r => body (get_ignore_noop r)) n x t.

Lemma until_run stop l ts : stop <> 78 -> texts (open_runs stop) l ts ->
  forall f ns xs r q, noops ns -> Forall is_byte ts -> ia r = ts ++ ns ++ [stop] ++ q -> Inv xs (sax r) ->
  (length ts <= n)%nat -> (length ts <= f)%nat ->
  exists r', until_marker stop body f (get_ignore_noop r) = Ret (true, r') /\ ia r' = q /\ Inv (xs ++ l) (sax r').
Proof.
  intros Hstop. induction 1 as [|x t l ts [(ms & c & b & Et & Hms & Hc & Hcs) Hx] _ IH]; intros f ns xs r q Hns Hb E HI Hn Hf.
  - destruct (get_ignore_noop_run ns stop q r Hns Hstop E) as (E1 & C1 & S1).
    exists (get_ignore_noop r). rewrite app_nil_r, S1. split_and!; [|done|done].
    destruct f; cbn [until_marker]; by rewrite C1, Z.eqb_refl.
  - apply Forall_app in Hb as [Hb1 Hb2]. rewrite length_app in Hn, Hf. rewrite <- app_assoc in E.
    destruct (Hx xs r _ Hb1 E HI) as (r1 & Hr1 & E1 & HI1); [lia|].
    assert (1 <= length t)%nat by (rewrite Et, length_app; simpl; lia).
    rewrite Et, <- app_assoc in E. destruct (get_ignore_noop_run ms c _ r Hms Hc E) as (_ & C1 & _).
    destruct f as [|f]; [lia|]. cbn [until_marker]. rewrite C1, (proj2 (Z.eqb_neq c stop)) by done.
    rewrite Hr1. cbn [and_then comp_bind].
    replace (xs ++ x :: l) with ((xs ++ [x]) ++ l) by by rewrite <- app_assoc. apply (IH f ns); (done || lia).
Qed.
End Elements.

Definition marked_runs v t : Prop := exists ns c u, t = ns ++ c :: u /\ noops ns /\ value_marker c /\ value_runs v c u.
Definition element_ok (ty : Z) v t : Prop := (ty = 0 /\ marked_runs v t) \/ (ty <> 0 /\ value_runs v ty t).

(** How the value of an element of type [ty] is read. *)
Definition read_element (fuel : nat) (ty : Z) : reader -> comp (bool * reader) :=
  if negb (ty =? 0) then value fuel ty else parse_ubjson (value fuel) true.

Lemma parse_marked fuel v t r q : marked_runs v t -> Forall is_byte t -> ia r = t ++ q -> ready (sax r) ->
  (length t <= S fuel)%nat -> stores (parse_ubjson (value (S fuel)) true r) (sax r) v q.
Proof.
  intros (ns & c & u & -> & Hns & Hc & Hv) Hby E Hr Hf. rewrite <- app_assoc in E. cbn [app] in E.
  apply Forall_app in Hby as [_ Hby]. inversion Hby; subst. rewrite length_app in Hf. simpl in Hf.
  destruct (get_ignore_noop_run ns c (u ++ q) r Hns ltac:(unfold value_marker in Hc; lia) E) as (E1 & C1 & S1).
  unfold parse_ubjson. cbv zeta. rewrite C1, <- S1. apply Hv; [done|done|by rewrite S1|lia].
Qed.

Lemma read_element_stores fuel ty v t r q : element_ok ty v t -> Forall is_byte t -> ia r = t ++ q -> ready (sax r) ->
  (length t <= fuel)%nat -> stores (read_element (S fuel) ty r) (sax r) v q.
Proof.
  unfold read_element. intros [[-> Hv]|[Hty Hv]] Hby E Hr Hf.
  - apply (parse_marked fuel v t); (done || lia).
  - rewrite (proj2 (Z.eqb_neq ty 0)) by done. by apply Hv.
Qed.

Lemma array_element_runs d0 n ty v t : element_ok ty v t -> element_runs (array_inv d0) (read_element (S n) ty) n v t.
Proof.
  intros Hv xs r q Hby E Hf Hn.
  destruct (read_element_stores n ty v t r q Hv Hby E (array_ready _ _ _ Hf) Hn) as (r' & ? & ? & ?).
  exists r'. split_and!; [done|done|]. by eapply array_place.
Qed.

Lemma marked_begins v t stop : marked_runs v t -> stop = 93 \/ stop = 125 -> begins_not stop t.
Proof.
  intros (ns & c & u & -> & Hns & Hc & _) Hs. exists ns, c, u. unfold value_marker in Hc. split_and!; (done || lia).
Qed.

Lemma array_open_runs d0 n v t : marked_runs v t -> open_runs (array_inv d0) (parse_ubjson (value (S n)) false) n 93 v t.
Proof.
  intros Hv. split; [apply (marked_begins v); [done|by left]|].
  exact (array_element_runs d0 n 0 v t (or_introl (conj eq_refl Hv))).
Qed.

(** ** Members *)

Definition member_ok (ty : Z) (kv : bytes * json F) t : Prop :=
  exists tk tv, t = tk ++ tv /\ length_string bjdata kv.1 tk /\ element_ok ty kv.2 tv.

(** The key was read by [m]. *)
Lemma member_after d0 n ty xs k v (m : comp (bool * bytes * reader)) r q1 q tv :
  gives m r k q1 -> q1 = tv ++ q -> element_ok ty v tv -> Forall is_byte tv -> (length tv <= n)%nat ->
  object_inv d0 xs (sax r) ->
  exists r', and_let m (fun key r => and_then (event (sax_key key) r) (read_element (S n) ty)) = Ret (true, r') /\
    ia r' = q /\ object_inv d0 (xs ++ [(k, v)]) (sax r').
Proof.
  intros (r1 & -> & E1 & S1) -> Hv Hby Hn Hf. cbn [and_let comp_bind].
  destruct (event_key_run d0 (object_of xs) k r1) as (r2 & Hr2 & E2 & Hrd & Hpl & _);
    [by rewrite S1|apply object_of_is_sorted|].
  change (event (sax_key k) r1) with (event (dom_key k) r1). rewrite Hr2. cbn [and_then comp_bind].
  destruct (read_element_stores n ty v tv r2 q Hv Hby) as (r3 & -> & E3 & Hp3); [congruence|done|done|].
  exists r3. unfold object_inv. rewrite object_of_snoc. split_and!; [done|done|by apply Hpl].
Qed.

Lemma member_runs d0 n ty kv t : member_ok ty kv t ->
  element_runs (object_inv d0) (ubjson_member bjdata true (read_element (S n) ty)) n kv t.
Proof.
  intros (tk & tv & -> & Hk & Hv) xs r q Hby E Hf Hn. destruct kv as [k v]. cbn [fst snd] in Hk, Hv.
  apply Forall_app in Hby as [Hbk Hbt]. rewrite length_app in Hn. rewrite <- app_assoc in E.
  destruct (length_string_cons _ _ Hk) as (c & b & Et & _).
  eapply member_after; [by apply (get_ubjson_string_gives true k tk c b)|done|done|done|lia|done].
Qed.

Definition open_member_ok (kv : bytes * json F) t : Prop :=
  exists ns tk tv, t = ns ++ tk ++ tv /\ noops ns /\ length_string bjdata kv.1 tk /\ marked_runs kv.2 tv.

Lemma open_member_runs d0 n kv t : open_member_ok kv t ->
  open_runs (object_inv d0) (ubjson_member bjdata false (parse_ubjson (value (S n)) true)) n 125 kv t.
Proof.
  intros (ns & tk & tv & -> & Hns & Hk & Hv). destruct kv as [k v]. cbn [fst snd] in Hk, Hv.
  destruct (length_string_cons _ _ Hk) as (c & b & Et & Hc1 & Hc2). split.
  { exists ns, c, (b ++ tv). rewrite Et. by split_and!. }
  intros xs r q Hby E Hf Hn. apply Forall_app in Hby as [_ Hby]. apply Forall_app in Hby as [Hbk Hbt].
  rewrite !length_app in Hn. rewrite <- !app_assoc in E. pose proof E as E'. rewrite Et in E'. cbn [app] in E'.
  destruct (get_ignore_noop_run ns c (b ++ tv ++ q) r Hns Hc1 E') as (E1 & C1 & S1).
  eapply (member_after d0 n 0); [by apply (get_ubjson_string_gives false k tk c b)|done|left; by split|done|lia|by rewrite S1].
Qed.

(** ** Containers *)

Lemma size_head_byte ty n h : size_head bjdata ty n h -> Forall is_byte h -> is_byte ty.
Proof.
  destruct 1 as [|ns ty ns' n h _ _ _ _]; intros Hby; [done|]. apply Forall_app in Hby as [_ Hby].
  by inversion Hby as [|? ? _ Hby']; inversion Hby'.
Qed.

Lemma byte_not_ndarray ty : is_byte ty -> is_ndarray_type ty = false.
Proof.
  intros Hty. unfold is_ndarray_type. apply negb_false_iff, Z.eqb_eq. change (Z.shiftl 1 8) with (2 ^ 8).
  apply Z.bits_inj'. intros i Hi. rewrite Z.land_spec, Z.bits_0, Z.pow2_bits_eqb by lia.
  destruct (Z.eqb_spec 8 i) as [<-|]; [|apply andb_false_r]. rewrite andb_true_r.
  rewrite <- (Z.mod_small ty (2 ^ 8)) by exact Hty. by apply Z.mod_pow2_bits_high.
Qed.

Definition container_value (is_array : bool) (ms : list (bytes * json F)) l : json F :=
  if is_array then value_array l else value_object (object_of ms).

(** The head of a container, up to its size and type. *)
Lemma head_gives fuel ty n h t r q : size_head bjdata ty n h -> Forall is_byte (h ++ t) -> ia r = (h ++ t) ++ q ->
  (length (h ++ t) <= fuel)%nat -> exists m, fuel = S m /\ (length t <= m)%nat /\ Forall is_byte t /\ is_ndarray_type ty = false /\
  gives (get_ubjson_size_type (F:=F) bjdata (size_value fuel) false r) r (n, ty) (t ++ q).
Proof.
  intros Hh Hby E Hf. pose proof (size_head_length _ _ _ Hh) as [Hl _]. apply Forall_app in Hby as [Hbh Hbt].
  rewrite length_app in Hf. rewrite <- app_assoc in E. destruct fuel as [|m]; [lia|]. exists m.
  split_and!; [done|lia|done|by eapply byte_not_ndarray, size_head_byte|]. by apply (size_type_gives m ty n h).
Qed.

Ltac container := cbn [get_ubjson_value]; unfold ubjson_value; steer; no_marker; steer; rewrite ?andb_false_r.

Lemma end_stores (b : bool) d0 c r q : filling d0 c (sax r) -> has_kind b c -> ia r = q ->
  stores (event (if b then dom_end_array else dom_end_object) r) d0 c q.
Proof.
  intros Hf Hk E. destruct (event_end_run b _ _ _ Hf Hk) as (r' & Hr' & E' & Hp). exists r'. split_and!; [done|congruence|done].
Qed.

Lemma array_counted_runs ty l h t : size_head bjdata ty (Z.of_nat (length l)) h -> ty <> 78 -> (bjdata = true -> ty <> 66) ->
  Z.of_nat (length l) <> npos -> Z.of_nat (length l) <= array_max_size -> texts (element_ok ty) l t ->
  value_runs (value_array l) 91 (h ++ t).
Proof.
  intros Hh H78 H66 Hnp Hmax Hl fuel r q Hby E Hr Hf. container. unfold get_ubjson_array.
  destruct (head_gives fuel ty _ h t r q Hh Hby E Hf) as (n & -> & Hn & Hbt & Hnd & r1 & -> & E1 & S1).
  cbn [and_let comp_bind]. rewrite Hnd, (proj2 (Z.eqb_neq _ npos)) by done. cbn [negb]. rewrite andb_false_r, andb_true_r.
  assert (bjdata && (ty =? 66) = false) as -> by (destruct bjdata; [by apply Z.eqb_neq, H66|done]).
  destruct (event_start_array_run (Z.of_nat (length l)) r1) as (r2 & -> & E2 & Hf2); [by rewrite S1|unfold too_big; lia|].
  cbn [and_then comp_bind]. rewrite (proj2 (Z.eqb_neq ty 78)) by done. cbn [negb]. cbv iota.
  destruct (times_run (array_inv (sax r1)) (read_element (S n) ty) n l t) with (xs := @nil (json F)) (r := r2) (q := q)
    as (r3 & Hr3 & E3 & Hf3); [|done|congruence|done|lia|].
  { eapply texts_impl; [|exact Hl]. intros x u. apply array_element_runs. }
  unfold read_element in Hr3. destruct (ty =? 0); cbn [negb] in Hr3 |- *; cbv iota in Hr3 |- *; rewrite Hr3;
    cbn [and_then comp_bind]; rewrite <- S1; by apply (end_stores true).
Qed.

Lemma no_elements_runs n h : size_head bjdata 78 n h -> n <> npos -> n <= array_max_size -> value_runs (value_array []) 91 h.
Proof.
  intros Hh Hnp Hmax fuel r q Hby E Hr Hf. container. unfold get_ubjson_array.
  rewrite <- (app_nil_r h) in Hby, E, Hf.
  destruct (head_gives fuel 78 _ h [] r q Hh Hby E Hf) as (m & -> & Hn & Hbt & Hnd & r1 & -> & E1 & S1).
  cbn [and_let comp_bind]. rewrite Hnd, (proj2 (Z.eqb_neq _ npos)) by done. cbn [negb]. rewrite !andb_false_r.
  destruct (event_start_array_run n r1) as (r2 & -> & E2 & Hf2); [by rewrite S1|unfold too_big; lia|].
  cbn [and_then comp_bind Z.eqb Pos.eqb negb]. cbv iota. cbn [and_then comp_bind]. rewrite <- S1.
  apply (end_stores true); [done|done|by rewrite E2].
Qed.

Lemma ubjson_binary_runs s h : bjdata = true -> size_head bjdata 66 (Z.of_nat (length s)) h -> Z.of_nat (length s) <> npos ->
  value_runs (value_binary s None) 91 (h ++ s).
Proof.
  intros Hbj Hh Hnp fuel r q Hby E Hr Hf. container. unfold get_ubjson_array.
  destruct (head_gives fuel 66 _ h s r q Hh Hby E Hf) as (m & -> & Hn & Hbt & Hnd & r1 & -> & E1 & S1).
  cbn [and_let comp_bind]. rewrite Hnd, (proj2 (Z.eqb_neq _ npos)), Hbj by done. cbn [negb andb Z.eqb Pos.eqb]. cbv iota.
  rewrite <- S1. eapply gives_stores; [by apply get_bytes_gives|by rewrite S1|done].
Qed.

(** An event between the no-ops and what follows them. *)
Lemma noop_loop_sax a : forall n d d', get_noop_loop a n d' = with_sax (get_noop_loop a n d) d'.
Proof. induction a as [|c a IH]; intros n d d'; simpl; [done|]. destruct (c =? 78); [apply IH|done]. Qed.

Lemma event_noop f (b : bool) r r' : event f r = Ret (b, r') -> event f (get_ignore_noop r) = Ret (b, get_ignore_noop r').
Proof.
  unfold event, get_ignore_noop. rewrite (noop_loop_sax _ _ (sax r) (sax r)). cbn [sax with_sax].
  destruct (f (sax r)) as [[b' d]| |]; simpl; [|done|done]. intros [= -> <-]. simpl. f_equal. f_equal.
  by rewrite (noop_loop_sax _ _ (sax r) d).
Qed.

(** A container without a size begins with a marker that is no size. *)
Definition plain_begin (t : bytes) : Prop := exists ns c b, t = ns ++ c :: b /\ noops ns /\ c <> 78 /\ c <> 36 /\ c <> 35.

Lemma plain_size_type sv t r : plain_begin t -> ia r = t ->
  get_ubjson_size_type (F:=F) bjdata sv false r = Ret (true, (npos, 0), get_ignore_noop r).
Proof. intros (ns & c & b & -> & Hns & ? & ? & ?) E. by apply (size_type_open sv ns c b). Qed.

Lemma open_array_runs l ts ns : texts marked_runs l ts -> noops ns -> value_runs (value_array l) 91 (ts ++ ns ++ [93]).
Proof.
  intros Hl Hns fuel r q Hby E Hr Hf. container. unfold get_ubjson_array.
  rewrite !length_app in Hf. simpl in Hf. destruct fuel as [|n]; [lia|]. rewrite <- !app_assoc in E.
  apply Forall_app in Hby as [Hbt _].
  rewrite (plain_size_type _ (ts ++ ns ++ [93] ++ q)); [|..|done].
  2: { destruct Hl as [|v t l ts (ms & c & u & -> & Hms & Hc & _) _]; [exists ns, 93, q; by split_and!|].
       exists ms, c, (u ++ ts ++ ns ++ [93] ++ q). rewrite <- !app_assoc. unfold value_marker in Hc. split_and!; (done || lia). }
  cbn [and_let comp_bind]. rewrite Z.eqb_refl. cbn [negb]. rewrite !andb_false_r. cbn [andb]. cbv iota.
  destruct (event_start_array_run unknown_size r Hr) as (r1 & Hr1 & E1 & Hf1); [by intros [? _]|].
  rewrite (event_noop _ _ _ _ Hr1). cbn [and_then comp_bind].
  destruct (until_run (array_inv (sax r)) (parse_ubjson (value (S n)) false) n 93 l ts) with
    (f := S n) (ns := ns) (xs := @nil (json F)) (r := r1) (q := q) as (r2 & -> & E2 & Hf2);
    [done| |done|done|congruence|done|lia|lia|].
  { eapply texts_impl; [|exact Hl]. intros v t. apply array_open_runs. }
  cbn [and_then comp_bind]. by apply (end_stores true).
Qed.

Lemma open_object_runs ms ts ns : texts open_member_ok ms ts -> noops ns ->
  value_runs (value_object (object_of ms)) 123 (ts ++ ns ++ [125]).
Proof.
  intros Hl Hns fuel r q Hby E Hr Hf. container. unfold get_ubjson_object.
  rewrite !length_app in Hf. simpl in Hf. destruct fuel as [|n]; [lia|]. rewrite <- !app_assoc in E.
  apply Forall_app in Hby as [Hbt _].
  rewrite (plain_size_type _ (ts ++ ns ++ [125] ++ q)); [|..|done].
  2: { destruct Hl as [|kv t l ts (ns' & tk & tv & -> & Hns' & Hk & _) _]; [exists ns, 125, q; by split_and!|].
       destruct Hk as [c z b s Hz _]. destruct (integer_text_marker _ _ _ Hz) as (ty & Hin & _).
       apply integer_types_marker in Hin as [Hc _].
       exists ns', c, ((b ++ s) ++ tv ++ ts ++ ns ++ [125] ++ q). rewrite <- !app_assoc. cbn [app]. rewrite <- !app_assoc.
       split_and!; (done || lia). }
  cbn [and_let comp_bind]. rewrite Z.eqb_refl. cbn [negb]. rewrite !andb_false_r. cbn [andb]. cbv iota.
  destruct (event_start_object_run unknown_size r Hr) as (r1 & Hr1 & E1 & Hf1); [by intros [? _]|].
  rewrite (event_noop _ _ _ _ Hr1). cbn [and_then comp_bind].
  destruct (until_run (object_inv (sax r)) (ubjson_member bjdata false (parse_ubjson (value (S n)) true)) n 125 ms ts) with
    (f := S n) (ns := ns) (xs := @nil (bytes * json F)) (r := r1) (q := q) as (r2 & -> & E2 & Hf2);
    [done| |done|done|congruence|done|lia|lia|].
  { eapply texts_impl; [|exact Hl]. intros v t. apply open_member_runs. }
  cbn [and_then comp_bind]. by apply (end_stores false).
Qed.

Lemma object_counted_runs ty ms h t : size_head bjdata ty (Z.of_nat (length ms)) h ->
  Z.of_nat (length ms) <> npos -> Z.of_nat (length ms) <= object_max_size -> texts (member_ok ty) ms t ->
  value_runs (value_object (object_of ms)) 123 (h ++ t).
Proof.
  intros Hh Hnp Hmax Hl fuel r q Hby E Hr Hf. container. unfold get_ubjson_object.
  destruct (head_gives fuel ty _ h t r q Hh Hby E Hf) as (n & -> & Hn & Hbt & Hnd & r1 & -> & E1 & S1).
  cbn [and_let comp_bind]. rewrite Hnd, (proj2 (Z.eqb_neq _ npos)) by done. cbn [negb]. rewrite andb_false_r.
  destruct (event_start_object_run (Z.of_nat (length ms)) r1) as (r2 & -> & E2 & Hf2); [by rewrite S1|unfold too_big; lia|].
  cbn [and_then comp_bind].
  destruct (times_run (object_inv (sax r1)) (ubjson_member bjdata true (read_element (S n) ty)) n ms t) with
    (xs := @nil (bytes * json F)) (r := r2) (q := q) as (r3 & Hr3 & E3 & Hf3); [|done|congruence|done|lia|].
  { eapply texts_impl; [|exact Hl]. intros x u. apply member_runs. }
  unfold read_element in Hr3. destruct (ty =? 0); cbn [negb] in Hr3 |- *; cbv iota in Hr3 |- *; rewrite Hr3;
    cbn [and_then comp_bind]; rewrite <- S1; by apply (end_stores false).
Qed.

(** ** All texts *)

Definition with_end {X} (E : X -> bytes -> Prop) (stop : Z) (l : list X) t : Prop :=
  exists ts ns, t = ts ++ ns ++ [stop] /\ noops ns /\ texts E l ts.

Lemma with_end_cons {X} (E : X -> bytes -> Prop) stop x u l t : E x u -> with_end E stop l t -> with_end E stop (x :: l) (u ++ t).
Proof. intros Hx (ts & ns & -> & Hns & Hl). exists (u ++ ts), ns. rewrite <- app_assoc. split_and!; [done|done|by constructor]. Qed.

Lemma ubjson_grammar_runs :
  (forall v c t, value_text bjdata decimal_point v c t -> value_runs v c t) /\
  (forall l t, open_elements bjdata decimal_point l t -> with_end marked_runs 93 l t) /\
  (forall v t, marked_text bjdata decimal_point v t -> marked_runs v t) /\
  (forall ty l t, counted_elements bjdata decimal_point ty l t -> texts (element_ok ty) l t) /\
  (forall ms t, open_members bjdata decimal_point ms t -> with_end open_member_ok 125 ms t) /\
  (forall ty ms t, counted_members bjdata decimal_point ty ms t -> texts (member_ok ty) ms t).
Proof.
  apply ubjson_ind; intros.
  - apply ubjson_constant_runs. set_solver.
  - apply ubjson_constant_runs. set_solver.
  - apply ubjson_constant_runs. set_solver.
  - by apply byte_runs.
  - by apply integer_runs.
  - by apply ubjson_half_runs.
  - by apply ubjson_single_runs.
  - by apply ubjson_double_runs.
  - by apply precise_runs.
  - by apply char_runs.
  - by apply ubjson_string_runs.
  - destruct H2 as (ts & ns & -> & Hns & Hl). by apply open_array_runs.
  - by apply (array_counted_runs ty).
  - by apply (no_elements_runs n).
  - by apply ubjson_binary_runs.
  - destruct H2 as (ts & ns & -> & Hns & Hl). by apply open_object_runs.
  - by apply (object_counted_runs ty).
  - exists [], ns. split_and!; [done|done|constructor].
  - by apply with_end_cons.
  - exists ns, c, t. split_and!; [done|done|by eapply value_text_marker|done].
  - constructor.
  - constructor; [by right|done].
  - constructor; [by left|done].
  - exists [], ns. split_and!; [done|done|constructor].
  - apply with_end_cons; [|done]. by exists ns, tk, t.
  - constructor.
  - constructor; [|done]. exists tk, t. split_and!; [done|done|by right].
  - constructor; [|done]. exists tk, t. split_and!; [done|done|by left].
Qed.
End Facts.
