(* ===== verification/UbjsonSound.v ===== *)
(** The UBJSON and BJData readers terminate on every input with a value or one
    of their errors, and what the UBJSON reader reads is in the grammar with
    its value. *)
From S2P Require Import Prelude Utf8 JsonValue JsonGrammar JsonLexer JsonLexerFacts JsonParser JsonParserFacts JsonParserComplete.
From S2P Require Import BinaryReader BinaryReaderFacts Ubjson UbjsonGrammar UbjsonFacts.

Section Sound.
Context {F : Type} `{FloatBits F, FloatOps F, MaxSize}.
Variable bjdata : bool.
Variable decimal_point : Z.
Variable allow : bool.
Notation reader := (reader (dom F)).
Implicit Types (r : reader) (d : dom F) (v : json F) (t q s ns : bytes).
Notation fine := (fine allow).
Notation fine_let := (fine_let allow).
Notation good := (good allow).
Notation size_value fuel := (get_ubjson_size_value (F:=F) (S:=dom F) bjdata fuel).

Definition ubjson_failure (e : exn) : Prop := failure allow e \/ (allow = true /\ e = parse_error 115).
Notation fails_or := (ends (allow = false) ubjson_failure).
Notation fails_or_let := (ends_let (allow = false) ubjson_failure).

Lemma ubjson_fine {R} (Q : R -> Prop) m : fine Q m -> fails_or Q m.
Proof. intros Hf. eapply ends_weaken; [exact Hf|done|by left]. Qed.

Lemma ubjson_fine_let {A R} (Q : A -> R -> Prop) m : fine_let Q m -> fails_or_let Q m.
Proof. intros Hf. eapply ends_let_weaken; [exact Hf|done|by left]. Qed.

(** A call that only reports an error. *)
Lemma with_result_fine {A} (Q : A -> reader -> Prop) (a : A) m : fine (fun _ : reader => False) m -> fine_let Q (with_result a m).
Proof. unfold with_result. by destruct m as [[[] r]| |]. Qed.

Lemma error_fine {A} (Q : A -> reader -> Prop) (a : A) e r : good r -> syntax_error e ->
  fine_let Q (with_result a (error_return (F:=F) e r)).
Proof. intros [_ Hs] He. by apply with_result_fine, fine_error_return. Qed.

Lemma error_408_fine {A} (Q : A -> reader -> Prop) (a : A) r : good r ->
  fine_let Q (with_result a (error_return (F:=F) (out_of_range 408) r)).
Proof.
  intros [_ Ha]. unfold with_result, error_return, error_at, event. simpl. unfold dom_parse_error. rewrite Ha.
  destruct allow eqn:E; simpl; [by right|done].
Qed.

Lemma unexpect_eof_cases r : good r ->
  fine (fun r' : reader => r' = r /\ current r <> EOF) (unexpect_eof (F:=F) r).
Proof. intros [_ Hs]. by apply fine_eof. Qed.

(** ** Markers *)

(** What [get_ignore_noop] does. *)
Lemma noop_cases r : good r -> exists ns, noops ns /\ good (get_ignore_noop r) /\ sax (get_ignore_noop r) = sax r /\
  ((ia r = ns /\ ia (get_ignore_noop r) = [] /\ current (get_ignore_noop r) = EOF) \/
   (ia r = ns ++ current (get_ignore_noop r) :: ia (get_ignore_noop r) /\ is_byte (current (get_ignore_noop r)) /\
    current (get_ignore_noop r) <> 78)).
Proof.
  unfold get_ignore_noop, good. intros [Hb Hs]. generalize (chars_read r) as n. induction Hb as [|c a Hc Hb IH]; intros n; simpl.
  - exists []. split_and!; [constructor|constructor|done|done|by left].
  - destruct (Z.eqb_spec c 78) as [->|Hne]; simpl.
    + destruct (IH (n + 1)) as (ns & Hns & Hg & S & Hd). exists (78 :: ns).
      split_and!; [by constructor|apply Hg|apply Hg|done|]. destruct Hd as [(-> & ? & ?)|(E & ? & ?)]; [by left|].
      right. split_and!; [by simpl; f_equal|done|done].
    + exists []. split_and!; [constructor|done|done|done|by right].
Qed.

Lemma get_integer_fine c ty r : number_marker bjdata c = Some ty -> good r ->
  fine_let (fun z (r' : reader) => exists b, consumed r b r' /\ integer_text bjdata c z b /\ type_range ty z /\ (1 <= length b)%nat)
    (get_integer (F:=F) bjdata ty r).
Proof.
  intros Hm Hg. apply number_marker_spec in Hm. pose proof (integer_types_marker _ _ _ Hm) as [_ Hty].
  assert (fine_let (fun n (r' : reader) => consumed r (number_bytes bjdata ty.1 n) r' /\ 0 <= n < 2 ^ (8 * Z.of_nat ty.1))
    (get_number (F:=F) ty.1 bjdata r)) as Hn.
  { unfold number_bytes. destruct bjdata; [by apply get_le_fine|by apply get_be_fine]. }
  unfold get_integer. destruct (get_number _ bjdata r) as [[[[] n] r']| |]; simpl in *; try done.
  destruct Hn as [Hc Hn]. exists (number_bytes bjdata ty.1 n). rewrite number_bytes_length.
  assert (exists z, z = (if ty.2 then to_signed (8 * Z.of_nat ty.1) n else n) /\ type_range ty z /\
    wrapu (8 * Z.of_nat ty.1) z = n) as (z & <- & Hz & Ew).
  { unfold type_range. destruct ty.2; (eexists; split; [reflexivity|]); [apply signed_number; [lia|done]|].
    split; [done|by apply wrapu_small]. }
  split_and!; [done| |done|lia]. rewrite <- Ew. by constructor.
Qed.

Lemma type_range_bounds ty z : (1 <= ty.1 <= 8)%nat -> type_range ty z -> 0 <= z -> z < 2 ^ 64.
Proof.
  unfold type_range. intros Hty Hz Hpos. assert (2 ^ (8 * Z.of_nat ty.1) <= 2 ^ 64) by (apply Z.pow_le_mono_r; lia).
  destruct ty.2; [|lia]. assert (2 ^ (8 * Z.of_nat ty.1 - 1) <= 2 ^ 64) by (apply Z.pow_le_mono_r; lia). lia.
Qed.

Lemma get_ubjson_count_fine c ty r : number_marker bjdata c = Some ty -> good r ->
  fine_let (fun z (r' : reader) => exists b, consumed r b r' /\ integer_text bjdata c z b /\ 0 <= z < 2 ^ 64 /\ (1 <= length b)%nat)
    (get_ubjson_count (F:=F) bjdata ty r).
Proof.
  intros Hm Hg. unfold get_ubjson_count. eapply fine_and_get; [by apply (get_integer_fine c)|].
  intros z r' (b & Hc & Hb & Hr & Hl). destruct (Z.ltb_spec z 0).
  - apply error_fine; [by eapply consumed_good|apply syntax_113].
  - exists b. apply number_marker_spec, integer_types_marker in Hm as [_ Hty].
    split_and!; [done|done|done|by eapply type_range_bounds|done].
Qed.

Lemma get_ubjson_string_fine (get_char : bool) r : good r ->
  fine_let (fun s (r' : reader) => exists t, (if get_char then ia r = t ++ ia r' else current r :: ia r = t ++ ia r') /\
    sax r' = sax r /\ length_string bjdata s t) (get_ubjson_string (F:=F) bjdata get_char r).
Proof.
  intros Hg. unfold get_ubjson_string. set (r0 := if get_char then get r else r).
  assert (good r0 /\ sax r0 = sax r /\ (current r0 <> EOF -> get_char = true -> ia r = current r0 :: ia r0)) as (Hg0 & S0 & E0).
  { unfold r0. destruct get_char; [|done].
    destruct (get_cases allow r Hg) as [(E & E1 & E2 & Hg' & Hs)|(E & Hb & Hg' & Hs)]; by split_and!. }
  assert (fine_let (fun s (r' : reader) => exists t, current r0 :: ia r0 = t ++ ia r' /\ sax r' = sax r0 /\ length_string bjdata s t /\ current r0 <> EOF)
    (let* '(b, r1) := unexpect_eof r0 in
     if negb b then Ret (false, [], r1)
     else match number_marker bjdata (current r1) with
          | Some ty => and_get [] (get_integer bjdata ty r1) get_bytes
          | None => with_result [] (error_return (parse_error 113) r1)
          end)) as Hf.
  { pose proof (unexpect_eof_cases r0 Hg0) as He. destruct (unexpect_eof r0) as [[[] r1]| |]; simpl in *; try done.
    destruct He as [-> Hc]. destruct (number_marker bjdata (current r0)) as [ty|] eqn:Hm.
    - eapply fine_and_get; [by apply (get_integer_fine (current r0))|]. intros z r2 (b & [E S] & Hb & _ & _).
      assert (good r2) as Hg2 by (eapply good_suffix; [exact Hg0|exact E|rewrite S; apply Hg0]).
      assert (get_bytes (F:=F) z r2 = get_bytes (Z.max 0 z) r2) as ->.
      { destruct (Z.le_ge_cases 0 z); [by rewrite Z.max_r|]. unfold get_bytes. cbn [get_bytes_loop].
        by rewrite !(proj2 (Z.leb_le _ 0)) by lia. }
      eapply fine_let_mono; [apply get_bytes_fine; [done|lia]|]. intros s r3 [[E3 S3] Hl].
      exists (current r0 :: b ++ s). split_and!; [by rewrite E, E3, app_comm_cons, app_assoc|congruence| |done].
      by apply (string_length bjdata (current r0) z b s).
    - apply error_fine; [done|apply syntax_113]. }
  eapply fine_let_mono; [exact Hf|]. intros s r' (t & E & S & Hs & Hc). exists t.
  split_and!; [|congruence|done]. destruct get_char; [by rewrite E0|done].
Qed.
(** ** Sizes *)

(** [t] was read. *)
Definition passed r t r' : Prop := ia r = t ++ ia r'.

Lemma passed_good r t r' : good r -> passed r t r' -> settled allow (sax r') -> good r'.
Proof. intros Hg E Hs. by eapply good_suffix. Qed.

Lemma passed_length r t r' : passed r t r' -> length (ia r) = (length t + length (ia r'))%nat.
Proof. intros ->. apply length_app. Qed.

(** A count where no dimensions may stand, or with its marker given. *)
Definition count_read (prefix : Z) r (v : Z * bool) r' : Prop :=
  0 <= v.1 < 2 ^ 64 /\ sax r' = sax r /\ exists t, passed r t r' /\ (1 <= length t)%nat /\
    (bjdata = false -> v.1 < 2 ^ 63) /\ (prefix = 0 -> bjdata = false -> count_text bjdata v.1 t).

Lemma ubjson_count_small c z b : bjdata = false -> integer_text bjdata c z b -> z < 2 ^ 63.
Proof.
  intros -> Hb. destruct Hb as [c ty z Hin Hr]. unfold type_range in Hr. simpl in Hin.
  repeat (apply elem_of_cons in Hin as [[= -> ->]|Hin]; [simpl in Hr; lia|]). by apply elem_of_nil in Hin.
Qed.

(** The marker, when it is to be read. *)
Lemma size_marker prefix r : good r -> exists ns,
  let r0 := if prefix =? 0 then get_ignore_noop r else r in
  let c := if prefix =? 0 then current r0 else prefix in
  good r0 /\ sax r0 = sax r /\ noops ns /\ (length (ia r0) <= length (ia r))%nat /\
  (prefix <> 0 -> r0 = r) /\ (prefix = 0 -> c <> EOF -> ia r = ns ++ c :: ia r0).
Proof.
  intros Hg. destruct (Z.eqb_spec prefix 0) as [->|Hp]; cbv zeta.
  - destruct (noop_cases r Hg) as (ns & Hns & Hg' & Hs & Hd). exists ns. split_and!; try done.
    + destruct Hd as [(_ & -> & _)|(E & _)]; [simpl; lia|]. rewrite E, length_app. simpl. lia.
    + intros _ Hc. by destruct Hd as [(_ & _ & ?)|(E & _)].
  - exists []. split_and!; try done. constructor.
Qed.

Lemma number_marker_eof : number_marker bjdata EOF = None.
Proof. by destruct bjdata. Qed.

(** The part of [get_ubjson_size_value] without dimensions. *)
Lemma count_marker_fine prefix is_ndarray r : good r ->
  let r0 := if prefix =? 0 then get_ignore_noop r else r in
  let c := if prefix =? 0 then current r0 else prefix in
  forall ty, number_marker bjdata c = Some ty ->
  fine_let (fun (v : Z * bool) (r' : reader) => count_read prefix r v r' /\ v.2 = is_ndarray)
    (and_get (0, is_ndarray) (get_ubjson_count (F:=F) bjdata ty r0) (fun n r => Ret (true, (n, is_ndarray), r))).
Proof.
  intros Hg. destruct (size_marker prefix r Hg) as (ns & Hg0 & S0 & Hns & Hl0 & Hp & Hz). cbv zeta in *.
  set (r0 := if prefix =? 0 then _ else r) in *. set (c := if prefix =? 0 then _ else prefix) in *. intros ty Hm.
  eapply fine_and_get; [apply (get_ubjson_count_fine _ _ _ Hm Hg0)|]. intros n r' (b & [E S] & Hb & Hn & Hl). simpl.
  split; [|done]. split; [done|]. split; [congruence|].
  destruct (decide (prefix = 0)) as [Ep|Hp0].
  - assert (c <> EOF) as Hc.
    { intros Ec. by rewrite Ec, number_marker_eof in Hm. }
    exists (ns ++ c :: b).
    unfold passed. rewrite (Hz Ep Hc), E, <- app_assoc. cbn [app]. split_and!; [done|rewrite length_app; simpl; lia| |].
    + intros Hbj. by eapply ubjson_count_small.
    + intros _ _. constructor; [done|done|apply Hn].
  - exists b. unfold passed. rewrite (Hp Hp0) in E. split_and!; [done|done| |done]. intros Hbj. by eapply ubjson_count_small.
Qed.

Lemma size_value_true_fine fuel prefix r : good r ->
  fine_let (fun (v : Z * bool) (r' : reader) => count_read prefix r v r') (size_value (S fuel) true prefix r).
Proof.
  intros Hg. pose proof (count_marker_fine prefix true r Hg) as Hm. destruct (size_marker prefix r Hg) as (_ & Hg0 & _).
  cbn [get_ubjson_size_value]. cbv zeta in *.
  set (r0 := if prefix =? 0 then _ else r) in *. set (c := if prefix =? 0 then _ else prefix) in *.
  destruct (number_marker bjdata c) as [ty|] eqn:Et.
  - eapply fine_let_mono; [by apply Hm|]. by intros v r' [? _].
  - destruct (bjdata && (c =? 91)); (apply error_fine; [done|apply syntax_113]).
Qed.
(** ** Dimensions *)

Definition size_range (n : Z) : Prop := 0 <= n < 2 ^ 64.

Definition size_object (dim : list Z) : list (bytes * json F) :=
  [(str "_ArraySize_", value_array (map value_number_unsigned dim))].

(** The input was not touched. *)
Lemma still_good r r' d0 c : good r -> settled allow d0 -> ia r' = ia r -> filling d0 c (sax r') -> good r'.
Proof. intros Hg Hs E Hf. by eapply (good_filling allow r r' []). Qed.

Lemma ndarray_sizes_fine d0 dim : forall xs result r, good r -> settled allow d0 -> array_inv d0 xs (sax r) ->
  size_range result -> result <> npos ->
  fine_let (fun n (r' : reader) => ia r' = ia r /\ good r' /\ size_range n /\ n <> npos /\
    array_inv d0 (xs ++ map value_number_unsigned dim) (sax r')) (ndarray_sizes (F:=F) dim result r).
Proof.
  induction dim as [|i dim IH]; intros xs result r Hg Hs HI Hr Hn; cbn [ndarray_sizes]; cbv zeta.
  { simpl. by rewrite app_nil_r. }
  destruct (Z.eqb_spec (wrapu 64 (result * i)) 0), (Z.eqb_spec (wrapu 64 (result * i)) npos); cbn [orb];
    [by apply error_408_fine..|].
  destruct (event_value_run (value_number_unsigned i) r (array_ready _ _ _ HI)) as (r1 & Hr1 & E1 & Hp).
  change (event (sax_number_unsigned i) r) with (event (dom_value (value_number_unsigned i)) r). rewrite Hr1. cbn [comp_bind].
  pose proof (array_place _ _ _ _ _ HI Hp) as HI1.
  eapply fine_let_mono; [apply (IH (xs ++ [value_number_unsigned i]));
    [by eapply still_good|done|done|by apply wrapu_range|done]|].
  intros m r' (E & ?). rewrite <- app_assoc in *. split; [congruence|done].
Qed.

Lemma ndarray_result_fine dim r : good r -> ready (sax r) -> Forall size_range dim ->
  fine_let (fun (v : Z * bool) (r' : reader) => ia r' = ia r /\ good r' /\ size_range v.1 /\
    ((v.2 = false /\ sax r' = sax r) \/
     (v.2 = true /\ v.1 <> npos /\ filling (sax r) (value_object (size_object dim)) (sax r')))) (ndarray_result (F:=F) dim r).
Proof.
  intros Hg Hr Hd. unfold ndarray_result. assert (size_range 0) as H00 by (unfold size_range; lia).
  destruct (_ || _) eqn:E1.
  { split_and!; [done|done| |by left]. simpl. destruct (nth_in_or_default (length dim - 1) dim 0) as [Hin| ->]; [|done].
    apply list_elem_of_In in Hin. by eapply Forall_forall in Hin. }
  destruct (length dim =? 0)%nat; [split_and!; try done; by left|].
  destruct (existsb _ dim); [split_and!; try done; by left|].
  assert (fine (fun r' : reader => ia r' = ia r /\ good r' /\ exists d1, settled allow d1 /\ filling d1 (value_array []) (sax r') /\
    forall v d', placed d1 v d' -> filling (sax r) (value_object [(str "_ArraySize_", v)]) d')
    (and_then (event (sax_start_object_len 3) r) (fun r => and_then (event (sax_key (str "_ArraySize_")) r)
       (event (sax_start_array_len (Z.of_nat (length dim))))))) as Hs.
  { eapply fine_then; [by apply event_start_object_fine|]. intros r1 (Er1 & Hf1 & _).
    assert (good r1) as Hg1 by (eapply still_good; [done|apply Hg|done|done]).
    destruct (event_key_run (sax r) [] (str "_ArraySize_") r1 Hf1 ltac:(constructor)) as (r2 & Hr2 & Er2 & Hrd & Hpl & Hfl).
    change (event (sax_key (str "_ArraySize_")) r1) with (event (dom_key (str "_ArraySize_")) r1). rewrite Hr2. cbn [and_then comp_bind].
    assert (good r2) as Hg2 by (split; [rewrite Er2; apply Hg1|eapply settled_flags; [apply Hg1|done]]).
    eapply fine_mono; [by apply event_start_array_fine|]. intros r3 (Er3 & Hf3 & _).
    split; [congruence|]. split; [eapply still_good; [done|apply Hg2|done|done]|]. exists (sax r2). split; [apply Hg2|]. by split. }
  destruct (and_then _ _) as [[[] r1]| |]; simpl in Hs; try done. cbn [comp_bind negb]. cbv iota.
  destruct Hs as (Er1 & Hg1 & d1 & Hs1 & Hf1 & Hpl).
  eapply fine_and_get; [apply (ndarray_sizes_fine d1 dim []); [done|done|done|unfold size_range; lia|done]|].
  intros n r2 (Er2 & Hg2 & Hn & Hnp & HI). destruct (event_end_run true _ _ _ HI eq_refl) as (r3 & Hr3 & Er3 & Hp).
  change (event sax_end_array r2) with (event dom_end_array r2). unfold with_result. rewrite Hr3. cbn [comp_bind].
  apply Hpl in Hp. split; [congruence|]. split; [|split; [done|by right]].
  eapply still_good; [exact Hg|apply Hg|congruence|exact Hp].
Qed.

(** ** Sizes and types *)

Section Types.
(** The size with its marker, read from at most [n - 1] bytes. *)
Variable sv : bool -> Z -> reader -> comp (bool * (Z * bool) * reader).
Variable n : nat.

Definition size_read r (v : Z * bool) r' : Prop :=
  good r' /\ size_range v.1 /\ exists t, passed r t r' /\ (1 <= length t)%nat /\ (bjdata = false -> count_text bjdata v.1 t) /\
    ((v.2 = false /\ sax r' = sax r) \/
     (v.2 = true /\ bjdata = true /\ v.1 <> npos /\ exists dim, filling (sax r) (value_object (size_object dim)) (sax r'))).

Hypothesis Hsv : forall r, good r -> ready (sax r) -> (length (ia r) + 1 <= n)%nat ->
  fine_let (size_read r) (sv false 0 r).
Hypothesis Hsv_failed : forall r (v : Z * bool) r', sv false 0 r = Ret (false, v, r') -> v.2 = false.

Definition type_read (inside : bool) r (st : Z * Z) r' : Prop :=
  (st = (npos, 0) /\ r' = get_ignore_noop r /\ current r' <> 36 /\ current r' <> 35) \/
  (good r' /\ size_range st.1 /\ exists t, passed r t r' /\ (1 <= length t)%nat /\
    ((sax r' = sax r /\ is_byte st.2 /\ (bjdata = false -> size_head bjdata st.2 st.1 t)) \/
     (inside = false /\ bjdata = true /\ (exists ty, is_byte ty /\ st.2 = Z.lor ty (Z.shiftl 1 8)) /\ st.1 <> npos /\
      exists dim, filling (sax r) (value_object (size_object dim)) (sax r')))).

Lemma size_type_fine (inside : bool) r : good r -> ready (sax r) -> (length (ia r) <= n)%nat ->
  fine_let (type_read inside r) (get_ubjson_size_type (F:=F) bjdata sv inside r).
Proof.
  intros Hg Hr Hl. unfold get_ubjson_size_type. cbv zeta.
  destruct (noop_cases r Hg) as (ns & Hns & Hg1 & S1 & Hd). set (r1 := get_ignore_noop r) in *.
  destruct (Z.eqb_spec (current r1) 36) as [Ec|Ec].
  - destruct Hd as [(_ & _ & Hc)|(E1 & _ & _)]; [by rewrite Hc in Ec|].
    destruct (get_cases allow r1 Hg1) as [(E & E' & Ece & Hg2 & S2)|(E & Hb2 & Hg2 & S2)]; set (r2 := get r1) in *.
    { case_match; [apply error_fine; [done|apply syntax_112]|].
      pose proof (unexpect_eof_cases r2 Hg2) as He. destruct (unexpect_eof r2) as [[[] ?]| |]; simpl in *; naive_solver. }
    destruct (bjdata && existsb _ _) eqn:Eex; [apply error_fine; [done|apply syntax_112]|].
    rewrite unexpect_eof_run by by apply byte_not_eof. cbn [comp_bind negb]. cbv iota.
    destruct (noop_cases r2 Hg2) as (ns' & Hns' & Hg3 & S3 & Hd'). set (r3 := get_ignore_noop r2) in *.
    destruct (Z.eqb_spec (current r3) 35) as [Ec3|Ec3]; cbn [negb].
    2: { apply with_result_fine. eapply fine_then; [by apply unexpect_eof_cases|]. intros r4 [-> _].
         eapply fine_error_return; [apply Hg3|apply syntax_112]. }
    destruct Hd' as [(_ & _ & Hc)|(E3 & _ & _)]; [by rewrite Hc in Ec3|].
    assert (passed r ((ns ++ [36; current r2]) ++ (ns' ++ [35])) r3) as Hp3.
    { unfold passed. rewrite E1, E, E3, Ec, Ec3, <- !app_assoc. done. }
    pose proof (passed_length _ _ _ Hp3) as Hl3. rewrite !length_app in Hl3. simpl in Hl3.
    pose proof (Hsv r3 Hg3) as Hv. rewrite S3, S2, S1 in Hv. specialize (Hv Hr ltac:(lia)).
    pose proof (Hsv_failed r3) as Hno.
    destruct (sv false 0 r3) as [[[[] [m nd]] r4]| |]; simpl in Hv |- *; try done.
    2: { by rewrite (Hno _ _ eq_refl : nd = false), andb_false_r. }
    destruct Hv as (Hg4 & Hm & t & Hp4 & Ht & Hct & Hcase). cbn [fst snd] in Hm, Hct, Hcase.
    assert (passed r (((ns ++ [36; current r2]) ++ (ns' ++ [35])) ++ t) r4) as Hp by (unfold passed in *; rewrite Hp3, Hp4; by rewrite !app_assoc).
    destruct Hcase as [[-> S4]|(-> & Hbj & Hnp & dim & Hfi)].
    + rewrite andb_false_r. right. split; [done|]. split; [done|]. eexists. split; [exact Hp|]. split; [rewrite length_app; lia|].
      left. simpl. split_and!; [congruence|apply Hb2|]. intros Hbj. rewrite <- !app_assoc.
      apply (head_type bjdata ns (current r2) ns' m t); [done|by rewrite Hbj|done|auto].
    + rewrite Hbj. cbn [andb]. cbv iota. destruct inside; [apply error_fine; [done|apply syntax_112]|].
      right. split; [done|]. split; [done|]. eexists. split; [exact Hp|]. split; [rewrite length_app; lia|].
      right. split_and!; [done|done|by exists (current r2)|done|]. exists dim. by rewrite S3, S2, S1 in Hfi.
  - destruct (Z.eqb_spec (current r1) 35) as [Ec1|Ec1]; [|by left].
    destruct Hd as [(_ & _ & Hc)|(E1 & _ & _)]; [by rewrite Hc in Ec1|].
    assert (passed r (ns ++ [35]) r1) as Hp1 by (unfold passed; rewrite E1, Ec1, <- app_assoc; done).
    pose proof (passed_length _ _ _ Hp1) as Hl1. rewrite length_app in Hl1. simpl in Hl1.
    pose proof (Hsv r1 Hg1) as Hv. rewrite S1 in Hv. specialize (Hv Hr ltac:(lia)).
    pose proof (Hsv_failed r1) as Hno.
    destruct (sv false 0 r1) as [[[[] [m nd]] r4]| |]; simpl in Hv |- *; try done.
    2: { by rewrite (Hno _ _ eq_refl : nd = false), andb_false_r. }
    destruct Hv as (Hg4 & Hm & t & Hp4 & Ht & Hct & Hcase). cbn [fst snd] in Hm, Hct, Hcase.
    destruct Hcase as [[-> S4]|(-> & Hbj & Hnp & dim & Hfi)].
    + rewrite andb_false_r. right. split; [done|]. split; [done|]. exists ((ns ++ [35]) ++ t).
      split; [unfold passed in *; rewrite Hp1, Hp4; by rewrite !app_assoc|]. split; [rewrite length_app; lia|].
      left. simpl. split_and!; [congruence|done|]. intros Hbj. rewrite <- app_assoc. apply head_count; auto.
    + rewrite Hbj. cbn [andb]. cbv iota. apply error_fine; [done|apply syntax_112].
Qed.
End Types.
(** The dimensions read; nothing is said of their text. *)
Definition dims_read r (dim : list Z) r' : Prop := sax r' = sax r /\ (exists t, passed r t r') /\ Forall size_range dim.

Lemma get_dims_fine m fuel : forall i len prefix dim r, good r -> (length (ia r) + 1 <= fuel)%nat -> Forall size_range dim ->
  fine_let (dims_read r) (get_dims (size_value (S m)) fuel i len prefix dim r).
Proof.
  induction fuel as [|fuel IH]; intros i len prefix dim r Hg Hf Hd; [lia|]. cbn [get_dims].
  destruct (len <=? i); [split_and!; [done|by exists []|done]|].
  eapply fine_and_get; [by apply size_value_true_fine|]. intros v r1 (Hv & S1 & t & Hp & Ht & _).
  pose proof (passed_length _ _ _ Hp). assert (good r1) as Hg1 by (eapply passed_good; [done|done|rewrite S1; apply Hg]).
  eapply fine_let_mono; [apply IH; [done|lia|]|].
  - apply Forall_app. split; [done|]. by apply Forall_singleton.
  - intros dim' r' (S2 & (u & Hu) & Hd'). split_and!; [congruence| |done]. exists (t ++ u). unfold passed in *. by rewrite Hp, Hu, app_assoc.
Qed.

Lemma get_dims_open_fine m fuel : forall dim r, good r -> (length (ia r) + 1 <= fuel)%nat -> Forall size_range dim ->
  fine_let (dims_read r) (get_dims_open (size_value (S m)) fuel dim r).
Proof.
  induction fuel as [|fuel IH]; intros dim r Hg Hf Hd; [lia|]. cbn [get_dims_open].
  destruct (current r =? 93); [split_and!; [done|by exists []|done]|].
  eapply fine_and_get; [by apply size_value_true_fine|]. intros v r1 (Hv & S1 & t & Hp & Ht & _).
  pose proof (passed_length _ _ _ Hp). assert (good r1) as Hg1 by (eapply passed_good; [done|done|rewrite S1; apply Hg]).
  destruct (noop_cases r1 Hg1) as (ns & Hns & Hg2 & S2 & Hd2).
  assert (exists u, passed r1 u (get_ignore_noop r1)) as (u & Hu).
  { unfold passed. destruct Hd2 as [(E & -> & _)|(E & _)]; [exists ns; by rewrite app_nil_r|].
    exists (ns ++ [current (get_ignore_noop r1)]). by rewrite E at 1; rewrite <- app_assoc. }
  pose proof (passed_length _ _ _ Hu).
  eapply fine_let_mono; [apply IH; [done|lia|]|].
  - apply Forall_app. split; [done|]. by apply Forall_singleton.
  - intros dim' r' (S3 & (w & Hw) & Hd'). split_and!; [congruence| |done].
    exists (t ++ u ++ w). unfold passed in *. by rewrite Hp, Hu, Hw, !app_assoc.
Qed.

(** Only a vector of dimensions makes an ndarray. *)
Lemma size_value_failed fuel r (v : Z * bool) r' : size_value fuel false 0 r = Ret (false, v, r') -> v.2 = false.
Proof.
  destruct fuel as [|fuel]; [done|]. cbn [get_ubjson_size_value]. cbn [Z.eqb]. cbv iota zeta.
  destruct (number_marker _ _).
  { destruct (get_ubjson_count _ _ _) as [[[[] ?] ?]| |]; simpl; intros; simplify_eq; done. }
  assert (forall e r0, with_result (0, false) (error_return (F:=F) e r0) = Ret (false, v, r') -> v.2 = false) as He.
  { intros e r0. unfold with_result. destruct (error_return e r0) as [[[] ?]| |]; simpl; intros; simplify_eq; done. }
  destruct (bjdata && _); [|apply He]. cbn [Z.eqb].
  destruct (get_ubjson_ndarray_size _ _ _ _) as [[[[] dim] r1]| |]; simpl; [|intros; by simplify_eq|done|done].
  unfold ndarray_result. repeat (case_match; try (intros; by simplify_eq)).
  destruct (and_then _ _) as [[[] r2]| |]; simpl; [|intros; by simplify_eq|done|done].
  destruct (ndarray_sizes _ _ _) as [[[[] k] r3]| |]; simpl; [|intros; by simplify_eq|done|done].
  unfold with_result, event. simpl. unfold dom_end_array. repeat (case_match; try done).
Qed.

Lemma ndarray_size_fine m r :
  (forall r, good r -> ready (sax r) -> (length (ia r) + 1 <= S m)%nat -> fine_let (size_read r) (size_value (S m) false 0 r)) ->
  good r -> ready (sax r) -> (length (ia r) + 1 <= S m)%nat ->
  fine_let (dims_read r) (get_ubjson_ndarray_size (F:=F) bjdata (size_value (S m)) (S m) r).
Proof.
  intros Hsv Hg Hr Hl. unfold get_ubjson_ndarray_size.
  eapply fine_and_get; [apply (size_type_fine (size_value (S m)) (S m) Hsv (size_value_failed (S m))); [done|done|lia]|].
  intros [first second] r1 [([= -> ->] & -> & _)|(Hg1 & Hf & t & Hp & Ht & [(S1 & _)|(? & _)])]; [| |done].
  - rewrite Z.eqb_refl. cbn [negb]. cbv iota. destruct (noop_cases r Hg) as (ns & Hns & Hg2 & S2 & Hd2).
    assert (exists u, passed r u (get_ignore_noop r)) as (u & Hu).
    { unfold passed. destruct Hd2 as [(E & -> & _)|(E & _)]; [exists ns; by rewrite app_nil_r|].
      exists (ns ++ [current (get_ignore_noop r)]). by rewrite E at 1; rewrite <- app_assoc. }
    pose proof (passed_length _ _ _ Hu).
    eapply fine_let_mono; [apply get_dims_open_fine; [done|lia|constructor]|]. intros dim r' (S3 & (w & Hw) & Hd').
    split_and!; [congruence| |done]. exists (u ++ w). unfold passed in *. by rewrite Hu, Hw, app_assoc.
  - pose proof (passed_length _ _ _ Hp).
    assert (forall m1, fine_let (dims_read r1) m1 -> fine_let (dims_read r) m1) as Hw.
    { intros m1 Hm. eapply fine_let_mono; [exact Hm|]. intros dim r' (S3 & (w & Hw) & Hd').
      split_and!; [congruence| |done]. exists (t ++ w). unfold passed in *. by rewrite Hp, Hw, app_assoc. }
    apply Hw. assert (dims_read r1 [] r1) as H0d by (split_and!; [done|by exists []|constructor]).
    repeat case_match; first [apply get_dims_fine; [done|lia|constructor] | apply get_dims_open_fine; [done|lia|constructor] | exact H0d].
Qed.

Lemma size_value_fine fuel : forall r, good r -> ready (sax r) -> (length (ia r) + 1 <= fuel)%nat ->
  fine_let (size_read r) (size_value fuel false 0 r).
Proof.
  induction fuel as [|fuel IH]; intros r Hg Hr Hf; [lia|].
  pose proof (count_marker_fine 0 false r Hg) as Hm. cbn [get_ubjson_size_value]. cbn [Z.eqb] in *. cbv iota zeta in *.
  destruct (noop_cases r Hg) as (ns & Hns & Hg0 & S0 & Hd). set (r0 := get_ignore_noop r) in *.
  destruct (number_marker bjdata (current r0)) as [ty|] eqn:Et.
  { eapply fine_let_mono; [exact (Hm ty eq_refl)|].
    intros v r' [(Hv & S1 & t & Hp & Ht & _ & Hct) E2]. split_and!.
    - eapply passed_good; [exact Hg|exact Hp|rewrite S1; apply Hg].
    - done.
    - exists t. split_and!; [done|done|auto|by left]. }
  destruct (bjdata && _) eqn:Eb; [|apply error_fine; [done|apply syntax_113]].
  apply andb_prop in Eb as [Hbj Ec%Z.eqb_eq].
  destruct Hd as [(_ & _ & Hc)|(E & _ & _)]; [by rewrite Hc in Ec|].
  assert (passed r (ns ++ [current r0]) r0) as Hp0 by (unfold passed; by rewrite E, <- app_assoc).
  pose proof (passed_length _ _ _ Hp0) as Hl0. rewrite length_app in Hl0. simpl in Hl0.
  destruct fuel as [|m]; [lia|].
  eapply fine_and_get.
  { apply (ndarray_size_fine m); [exact IH|done|by rewrite S0|lia]. }
  intros dim r1 (S1 & (t & Hp) & Hdim).
  assert (good r1) as Hg1 by (eapply passed_good; [done|done|rewrite S1; apply Hg0]).
  assert (passed r ((ns ++ [current r0]) ++ t) r1) as Hp1 by (unfold passed in *; by rewrite Hp0, Hp, !app_assoc).
  eapply fine_let_mono; [apply ndarray_result_fine; [done|by rewrite S1, S0|done]|].
  intros v r' (E' & Hg' & Hv & Hcase). split_and!; [done|done|]. exists ((ns ++ [current r0]) ++ t).
  split_and!; [unfold passed; by rewrite E'|rewrite !length_app; simpl; lia|by rewrite Hbj|].
  destruct Hcase as [[? S2]|(? & ? & Hfi)]; [left; split; [done|congruence]|right].
  split_and!; [done|done|done|]. exists dim. by rewrite <- S0, <- S1.
Qed.
(** ** Loops *)

Section Loops.
Context {X : Type} (Inv : list X -> dom F -> Prop) (body : reader -> comp (bool * reader)) (n : nat).

Definition body_read (E : X -> bytes -> Prop) xs r r' : Prop :=
  exists x t, passed r t r' /\ E x t /\ good r' /\ Inv (xs ++ [x]) (sax r').

Lemma times_fine E (k : Z) : 0 <= k ->
  (forall xs r, good r -> Inv xs (sax r) -> (length (ia r) + 2 <= n)%nat -> fails_or (body_read E xs r) (body r)) ->
  forall xs r, good r -> Inv xs (sax r) -> (length (ia r) + 2 <= n)%nat ->
  fails_or (fun r' => exists l t, passed r t r' /\ texts E l t /\ Z.of_nat (length l) = k /\ Inv (xs ++ l) (sax r'))
    (times k body r).
Proof.
  intros Hk Hbody. setoid_rewrite (fun r => times_nat k body r Hk). replace k with (Z.of_nat (Z.to_nat k)) by lia.
  rewrite Nat2Z.id. clear Hk. generalize (Z.to_nat k) as m.
  induction m as [|m IH]; intros xs r Hg HI Hn; simpl nat_times.
  { exists [], []. rewrite app_nil_r. split_and!; try done. constructor. }
  eapply ends_then; [by apply (Hbody xs)|]. intros r1 (x & t & Hp & Hx & Hg1 & HI1). pose proof (passed_length _ _ _ Hp).
  eapply ends_mono; [apply (IH (xs ++ [x])); [done|done|lia]|]. intros r' (l & u & Hu & Hl & El & HI').
  rewrite <- app_assoc in HI'. exists (x :: l), (t ++ u). unfold passed in *.
  split_and!; [by rewrite Hp, Hu, app_assoc|by constructor|simpl; lia|done].
Qed.

(** The elements of a container without a size; the marker of the first one
    was read before. *)
Inductive run_texts (E : Z -> X -> bytes -> Prop) (stop : Z) : Z -> list X -> bytes -> Prop :=
  | run_end : run_texts E stop stop [] []
  | run_cons c x t l ns c' u : c <> EOF -> E c x t -> noops ns -> run_texts E stop c' l u ->
      run_texts E stop c (x :: l) (t ++ ns ++ c' :: u).

Lemma until_fine E stop f : stop <> EOF ->
  (forall xs r, good r -> Inv xs (sax r) -> (current r <> EOF -> length (ia r) + 2 <= n)%nat ->
     fails_or (fun r' => current r <> EOF /\ body_read (E (current r)) xs r r') (body r)) ->
  forall xs r, good r -> Inv xs (sax r) -> (current r <> EOF -> length (ia r) + 2 <= n)%nat -> (1 <= f)%nat ->
  (current r <> EOF -> length (ia r) + 2 <= f)%nat ->
  fails_or (fun r' => exists l t, passed r t r' /\ run_texts E stop (current r) l t /\ Inv (xs ++ l) (sax r'))
    (until_marker stop body f r).
Proof.
  intros Hstop Hbody. induction f as [|f IH]; intros xs r Hg HI Hn Hf1 Hf; [lia|]. cbn [until_marker].
  destruct (Z.eqb_spec (current r) stop) as [<-|Hs].
  { exists [], []. rewrite app_nil_r. split_and!; [done|constructor|done]. }
  eapply ends_then; [by apply (Hbody xs)|]. intros r1 (Hc & x & t & Hp & Hx & Hg1 & HI1).
  specialize (Hf Hc). specialize (Hn Hc). pose proof (passed_length _ _ _ Hp).
  destruct (noop_cases r1 Hg1) as (ns & Hns & Hg2 & S2 & Hd). set (r2 := get_ignore_noop r1) in *.
  assert (length (ia r2) <= length (ia r1))%nat as Hl2.
  { destruct Hd as [(_ & -> & _)|(E2 & _)]; [simpl; lia|]. rewrite E2, length_app. simpl. lia. }
  assert (current r2 <> EOF -> passed r1 (ns ++ [current r2]) r2) as Hp2.
  { intros Hc2. destruct Hd as [(_ & _ & ?)|(E2 & _)]; [done|]. unfold passed. by rewrite <- app_assoc. }
  eapply ends_mono; [apply (IH (xs ++ [x]) r2); [done|by rewrite S2|lia|lia|]|].
  { intros Hc2. specialize (Hp2 Hc2). apply passed_length in Hp2. rewrite length_app in Hp2. simpl in Hp2. lia. }
  intros r' (l & u & Hu & Hl & HI'). rewrite <- app_assoc in HI'.
  assert (current r2 <> EOF) as Hc2 by (intros Ec; destruct Hl as [|c y w l ms c' w' Hc' _ _ _]; congruence).
  exists (x :: l), (t ++ ns ++ current r2 :: u). unfold passed in *.
  split_and!; [|by constructor|done]. rewrite Hp, (Hp2 Hc2), Hu, <- !app_assoc. done.
Qed.
End Loops.

(** ** Values *)

Section Value.
Notation value fuel := (get_ubjson_value (F:=F) (S:=dom F) bjdata [decimal_point] fuel).

Definition value_read (c : Z) r r' : Prop :=
  exists v t, passed r t r' /\ (bjdata = false -> value_text bjdata decimal_point v c t) /\ placed (sax r) v (sax r').

Definition value_ok (f : nat) : Prop := forall c r, good r -> ready (sax r) -> (c = EOF -> current r = EOF) -> (1 <= f)%nat ->
  (c <> EOF -> (length (ia r) + 2 <= f)%nat) -> fails_or (value_read c r) (value f c r).

Lemma value_done v c t r r1 : good r -> ready (sax r) -> passed r t r1 -> sax r1 = sax r ->
  (bjdata = false -> value_text bjdata decimal_point v c t) -> fails_or (value_read c r) (event (dom_value v) r1).
Proof.
  intros Hg Hr Hp S Hv. apply ubjson_fine. eapply fine_mono; [apply event_value_fine; by rewrite S|].
  intros r' [E' Hpl]. exists v, t. unfold passed in *. rewrite E', <- S. by split_and!.
Qed.

Lemma error_fails {Q} e r : good r -> syntax_error e -> fails_or Q (error_return (F:=F) e r).
Proof. intros [_ Hs] He. by apply ubjson_fine, fine_error_return. Qed.

Lemma error_115_fails {Q} tok r : good r -> fails_or Q (error_at (F:=F) tok (parse_error 115) r).
Proof.
  intros [_ Ha]. unfold error_at, event. simpl. unfold dom_parse_error. rewrite Ha.
  destruct allow eqn:E; simpl; [by right|done].
Qed.

Section Step.
Variable f : nat.
Hypothesis Hvalue : value_ok f.
Hypothesis Hf1 : (1 <= f)%nat.

(** A value with its marker. *)
Lemma marked_fine r : good r -> ready (sax r) -> (length (ia r) + 1 <= f)%nat ->
  fails_or (fun r' => exists v t, passed r t r' /\ (bjdata = false -> marked_text bjdata decimal_point v t) /\ placed (sax r) v (sax r'))
    (parse_ubjson (value f) true r).
Proof.
  intros Hg Hr Hl. unfold parse_ubjson. cbv zeta.
  destruct (noop_cases r Hg) as (ns & Hns & Hg0 & S0 & Hd). set (r0 := get_ignore_noop r) in *.
  eapply ends_mono; [apply (Hvalue (current r0) r0 Hg0); [by rewrite S0|done|done|]|].
  - intros Hc. destruct Hd as [(_ & _ & ?)|(E & _)]; [done|]. rewrite E, length_app in Hl. simpl in Hl. lia.
  - intros r' (v & t & Hp & Hv & Hpl). rewrite S0 in Hpl.
    destruct Hd as [(E & E0 & Ec)|(E & _)].
    + exists v, (ns ++ t). unfold passed in *. split_and!; [|intros Hbj; specialize (Hv Hbj)|done].
      * rewrite E. rewrite E0 in Hp. symmetry in Hp. apply app_eq_nil in Hp as [-> ->]. by rewrite !app_nil_r.
      * apply value_text_marker in Hv. unfold value_marker in Hv. rewrite Ec in Hv. unfold EOF in Hv. lia.
    + exists v, (ns ++ current r0 :: t). unfold passed in *. split_and!; [|by constructor; auto|done].
      rewrite E at 1. rewrite Hp. by rewrite <- app_assoc.
Qed.

Definition read_typed (ty : Z) : reader -> comp (bool * reader) :=
  if negb (ty =? 0) then value f ty else parse_ubjson (value f) true.

Lemma element_fine ty r : ty <> EOF -> good r -> ready (sax r) -> (length (ia r) + 2 <= f)%nat ->
  fails_or (fun r' => exists v t, passed r t r' /\ (bjdata = false -> element_text bjdata decimal_point ty v t) /\ placed (sax r) v (sax r'))
    (read_typed ty r).
Proof.
  intros Hty Hg Hr Hl. unfold read_typed, element_text. destruct (Z.eqb_spec ty 0) as [->|Ht]; cbn [negb].
  - apply marked_fine; (done || lia).
  - by apply Hvalue.
Qed.

Lemma array_body ty d0 xs r : ty <> EOF -> good r -> array_inv d0 xs (sax r) -> (length (ia r) + 2 <= f)%nat ->
  fails_or (body_read (array_inv d0) (fun v t => bjdata = false -> element_text bjdata decimal_point ty v t) xs r) (read_typed ty r).
Proof.
  intros Hty Hg HI Hl. eapply ends_mono; [apply element_fine; [done|done|by eapply array_ready|done]|].
  intros r' (v & t & Hp & Hv & Hpl). exists v, t. split_and!; [done|done|by eapply good_placed|by eapply array_place].
Qed.

(** A member: its key was read by [m]. *)
Definition member_read (K : bytes -> bytes -> Prop) ty (kv : bytes * json F) t : Prop :=
  bjdata = false -> exists tk tv, t = tk ++ tv /\ K kv.1 tk /\ element_text bjdata decimal_point ty kv.2 tv.

Lemma member_body K ty d0 xs m r : ty <> EOF -> good r -> object_inv d0 xs (sax r) -> (length (ia r) + 2 <= f)%nat ->
  fine_let (fun k (r' : reader) => exists t, passed r t r' /\ sax r' = sax r /\ K k t) m ->
  fails_or (body_read (object_inv d0) (member_read K ty) xs r)
    (and_let m (fun key r => and_then (event (sax_key key) r) (read_typed ty))).
Proof.
  intros Hty Hg HI Hl Hm. eapply ends_and_let; [by apply ubjson_fine_let|]. intros k r1 (tk & Hp1 & S1 & Hk).
  pose proof (passed_length _ _ _ Hp1) as Hl1.
  assert (good r1) as Hg1 by (eapply passed_good; [done|done|rewrite S1; apply Hg]). unfold object_inv in HI. rewrite <- S1 in HI.
  destruct (event_key_run d0 (object_of xs) k r1 HI (object_of_is_sorted xs)) as (r2 & Hr2 & E2 & Hrd & Hpl & Hfl).
  change (event (sax_key k) r1) with (event (dom_key k) r1). rewrite Hr2. cbn [and_then comp_bind].
  assert (good r2) as Hg2 by (split; [rewrite E2; apply Hg1|eapply settled_flags; [apply Hg1|done]]).
  eapply ends_mono; [apply element_fine; [done|done|done|rewrite E2; lia]|].
  intros r' (v & tv & Hp & Hv & Hpl2). exists (k, v), (tk ++ tv). unfold passed in *.
  split_and!; [by rewrite Hp1, <- E2, Hp, app_assoc| |by eapply good_placed|].
  - intros Hbj. exists tk, tv. by split_and!; [| |apply Hv].
  - unfold object_inv. rewrite object_of_snoc. by apply Hpl.
Qed.

(** ** Containers *)

(** The container [c] was read and ended. *)
Definition contained r (Q : json F -> bytes -> Prop) r' : Prop := exists v t, passed r t r' /\ Q v t /\ placed (sax r) v (sax r').

Lemma end_fine (b : bool) d0 v t r r1 : passed r t r1 -> filling d0 v (sax r1) -> has_kind b v ->
  fails_or (fun r' => passed r t r' /\ placed d0 v (sax r')) (event (if b then sax_end_array else sax_end_object) r1).
Proof.
  intros Hp Hf Hk. destruct (event_end_run b _ _ _ Hf Hk) as (r2 & Hr2 & E2 & Hpl).
  change (event (if b then sax_end_array else sax_end_object) r1) with (event (if b then dom_end_array else dom_end_object) r1).
  rewrite Hr2. split; [|done]. unfold passed. by rewrite E2.
Qed.

Definition small (n max : Z) : Prop := n <> npos -> n <= max.

Lemma not_too_big n max : ~ too_big n max -> small n max.
Proof. unfold too_big, small, npos. lia. Qed.

Lemma filling_good r r1 d0 v : good r -> settled allow d0 -> ia r1 = ia r -> filling d0 v (sax r1) -> good r1.
Proof. intros Hg Hs E Hf. by eapply still_good. Qed.

Lemma counted_array_fine ty n r : ty <> EOF -> 0 <= n -> good r -> ready (sax r) -> (length (ia r) + 2 <= f)%nat ->
  fails_or (contained r (fun v t => small n array_max_size /\ exists l, v = value_array l /\
      (if ty =? 78 then l = [] /\ t = []
       else Z.of_nat (length l) = n /\ texts (fun v t => bjdata = false -> element_text bjdata decimal_point ty v t) l t)))
    (and_then (and_then (event (sax_start_array_len n) r) (fun r =>
      if negb (ty =? 0) then if negb (ty =? 78) then times n (value f ty) r else Ret (true, r)
      else times n (parse_ubjson (value f) true) r)) (event sax_end_array)).
Proof.
  intros Hty Hn Hg Hr Hl. rewrite and_then_assoc.
  eapply ends_then; [by apply ubjson_fine, event_start_array_fine|]. intros r1 (E1 & Hf1' & Hmax%not_too_big).
  assert (good r1) as Hg1 by (eapply filling_good; [done|apply Hg|done|done]).
  destruct (Z.eqb_spec ty 78) as [->|H78].
  { cbn [Z.eqb negb and_then comp_bind]. eapply ends_mono; [apply (end_fine true (sax r) (value_array []) [] r); [|done|done]|].
    { unfold passed. by rewrite E1. }
    intros r' [Hp Hpl]. exists (value_array []), []. split; [done|]. split; [|done]. split; [done|]. by exists []. }
  eapply ends_then with (Q := fun r' => exists l t, passed r1 t r' /\
    texts (fun v t => bjdata = false -> element_text bjdata decimal_point ty v t) l t /\ Z.of_nat (length l) = n /\ array_inv (sax r) l (sax r')).
  - pose proof (times_fine (array_inv (sax r)) (read_typed ty) f (fun v t => bjdata = false -> element_text bjdata decimal_point ty v t) n Hn
      (fun xs r0 Hg HI Hl => array_body ty (sax r) xs r0 Hty Hg HI Hl)) as Ht.
    unfold read_typed in Ht.
    destruct (ty =? 0); cbn [negb] in *; cbv iota; apply (Ht []); (done || rewrite E1; lia).
  - intros r2 (l & t & Hp & Ht & El & HI).
    eapply ends_mono; [apply (end_fine true (sax r) (value_array l) t r); [|done|done]|].
    { unfold passed in *. by rewrite <- E1. }
    intros r' [Hp' Hpl]. exists (value_array l), t. split; [done|]. split; [|done]. split; [done|]. by exists l.
Qed.

Lemma counted_object_fine ty n r : ty <> EOF -> 0 <= n -> good r -> ready (sax r) -> (length (ia r) + 2 <= f)%nat ->
  fails_or (contained r (fun v t => small n object_max_size /\ exists l, v = value_object (object_of l) /\
      Z.of_nat (length l) = n /\ texts (member_read (length_string bjdata) ty) l t))
    (and_then (and_then (event (sax_start_object_len n) r) (fun r =>
      if negb (ty =? 0) then times n (ubjson_member bjdata true (value f ty)) r
      else times n (ubjson_member bjdata true (parse_ubjson (value f) true)) r)) (event sax_end_object)).
Proof.
  intros Hty Hn Hg Hr Hl. rewrite and_then_assoc.
  eapply ends_then; [by apply ubjson_fine, event_start_object_fine|]. intros r1 (E1 & Hf1' & Hmax%not_too_big).
  assert (good r1) as Hg1 by (eapply filling_good; [done|apply Hg|done|done]).
  eapply ends_then with (Q := fun r' => exists l t, passed r1 t r' /\
    texts (member_read (length_string bjdata) ty) l t /\ Z.of_nat (length l) = n /\ object_inv (sax r) l (sax r')).
  - pose proof (times_fine (object_inv (sax r)) (ubjson_member bjdata true (read_typed ty)) f
      (member_read (length_string bjdata) ty) n Hn) as Ht.
    unfold read_typed in Ht.
    assert (forall xs r0, good r0 -> object_inv (sax r) xs (sax r0) -> (length (ia r0) + 2 <= f)%nat ->
      fails_or (body_read (object_inv (sax r)) (member_read (length_string bjdata) ty) xs r0)
        (ubjson_member bjdata true (read_typed ty) r0)) as Hbody.
    { intros xs r0 Hg0 HI Hl0. apply member_body; [done..|].
      eapply fine_let_mono; [by apply (get_ubjson_string_fine true)|]. intros k r' (t & ? & ? & ?). by exists t. }
    unfold read_typed in Hbody.
    destruct (ty =? 0); cbn [negb] in *; cbv iota; apply (Ht Hbody []); (done || rewrite E1; lia).
  - intros r2 (l & t & Hp & Ht & El & HI).
    eapply ends_mono; [apply (end_fine false (sax r) (value_object (object_of l)) t r); [|done|done]|].
    { unfold passed in *. by rewrite <- E1. }
    intros r' [Hp' Hpl]. exists (value_object (object_of l)), t. split; [done|]. split; [|done]. split; [done|]. by exists l.
Qed.

Definition value_element (c : Z) v t : Prop := bjdata = false -> value_text bjdata decimal_point v c t.

Lemma open_array_fine r : good r -> ready (sax r) -> (current r <> EOF -> length (ia r) + 2 <= f)%nat ->
  fails_or (contained r (fun v t => exists l, v = value_array l /\ run_texts value_element 93 (current r) l t))
    (and_then (and_then (event (sax_start_array_len unknown_size) r) (until_marker 93 (parse_ubjson (value f) false) f))
       (event sax_end_array)).
Proof.
  intros Hg Hr Hl. rewrite and_then_assoc.
  destruct (event_start_array_run unknown_size r Hr) as (r1 & Hr1 & E1 & Hfi); [by intros [? _]|].
  assert (current r1 = current r) as C1.
  { revert Hr1. unfold event. simpl. unfold dom_start_array_len, dom_start_array.
    destruct (dom_checked _ _ _) as [[? ?]| |]; simpl; [|done|done]. by intros [= _ <-]. }
  rewrite Hr1. cbn [and_then comp_bind].
  assert (good r1) as Hg1 by (eapply filling_good; [done|apply Hg|done|done]).
  eapply ends_then; [apply (until_fine (array_inv (sax r)) (parse_ubjson (value f) false) f value_element 93 f)
    with (xs := @nil (json F))|]; [done| |done|done|rewrite C1, E1; done|done|rewrite C1, E1; done|].
  { intros xs r2 Hg2 HI Hl2. unfold parse_ubjson. cbv zeta.
    destruct (Z.eqb_spec (current r2) EOF) as [Ec|Ec].
    - destruct f as [|f']; [lia|]. cbn [get_ubjson_value]. unfold ubjson_value. rewrite Ec. cbn [Z.eqb EOF Pos.eqb].
      apply ubjson_fine. eapply fine_mono; [by apply unexpect_eof_cases|]. by intros r' [_ ?].
    - eapply ends_mono; [apply Hvalue; [done|by eapply array_ready|done|done|auto]|].
      intros r' (v & t & Hp & Hv & Hpl). split; [done|]. exists v, t.
      split_and!; [done|done|by eapply good_placed|by eapply array_place]. }
  intros r2 (l & t & Hp & Ht & HI). rewrite C1 in Ht.
  eapply ends_mono; [apply (end_fine true (sax r) (value_array l) t r); [|done|done]|].
  { unfold passed in *. by rewrite <- E1. }
  intros r' [Hp' Hpl]. exists (value_array l), t. split_and!; [done| |done]. by exists l.
Qed.

Definition member_element (c : Z) : bytes * json F -> bytes -> Prop := member_read (fun k t => length_string bjdata k (c :: t)) 0.

Lemma open_object_fine r : good r -> ready (sax r) -> (current r <> EOF -> length (ia r) + 2 <= f)%nat ->
  fails_or (contained r (fun v t => exists l, v = value_object (object_of l) /\ run_texts member_element 125 (current r) l t))
    (and_then (and_then (event (sax_start_object_len unknown_size) r)
       (until_marker 125 (ubjson_member bjdata false (parse_ubjson (value f) true)) f)) (event sax_end_object)).
Proof.
  intros Hg Hr Hl. rewrite and_then_assoc.
  destruct (event_start_object_run unknown_size r Hr) as (r1 & Hr1 & E1 & Hfi); [by intros [? _]|].
  assert (current r1 = current r) as C1.
  { revert Hr1. unfold event. simpl. unfold dom_start_object_len, dom_start_object.
    destruct (dom_checked _ _ _) as [[? ?]| |]; simpl; [|done|done]. by intros [= _ <-]. }
  rewrite Hr1. cbn [and_then comp_bind].
  assert (good r1) as Hg1 by (eapply filling_good; [done|apply Hg|done|done]).
  eapply ends_then; [apply (until_fine (object_inv (sax r)) (ubjson_member bjdata false (parse_ubjson (value f) true)) f
    member_element 125 f) with (xs := @nil (bytes * json F))|]; [done| |done|done|rewrite C1, E1; done|done|rewrite C1, E1; done|].
  { intros xs r2 Hg2 HI Hl2. unfold ubjson_member.
    destruct (Z.eqb_spec (current r2) EOF) as [Ec|Ec].
    - unfold get_ubjson_string. cbv zeta. pose proof (unexpect_eof_cases r2 Hg2) as He.
      apply ubjson_fine. destruct (unexpect_eof r2) as [[[] r3]| |]; simpl in *; [|done|done|done]. by destruct He.
    - eapply ends_mono; [apply (member_body (fun k t => length_string bjdata k (current r2 :: t)) 0 (sax r) xs _ r2);
        [done|done|done|auto|]|].
      + eapply fine_let_mono; [by apply (get_ubjson_string_fine false)|]. intros k r' (t & E & S & Hk).
        destruct (length_string_cons _ _ _ Hk) as (c & b & -> & _). cbn [app] in E. injection E as <- E.
        by exists b.
      + intros r' Hb. by split. }
  intros r2 (l & t & Hp & Ht & HI). rewrite C1 in Ht.
  eapply ends_mono; [apply (end_fine false (sax r) (value_object (object_of l)) t r); [|done|done]|].
  { unfold passed in *. by rewrite <- E1. }
  intros r' [Hp' Hpl]. exists (value_object (object_of l)), t. split_and!; [done| |done]. by exists l.
Qed.

(** ** The texts of the grammar *)

Lemma run_texts_elements c l u : bjdata = false -> run_texts value_element 93 c l u ->
  forall ns, noops ns -> open_elements bjdata decimal_point l (ns ++ c :: u).
Proof.
  intros Hbj. induction 1 as [|c v t l ns' c' u Hc Hv Hns' _ IH]; intros ns Hns; [by constructor|].
  replace (ns ++ c :: t ++ ns' ++ c' :: u) with ((ns ++ c :: t) ++ (ns' ++ c' :: u)) by by rewrite <- app_assoc.
  constructor; [|by apply IH]. constructor; [done|]. by apply Hv.
Qed.

Lemma run_texts_members c l u : bjdata = false -> run_texts member_element 125 c l u ->
  forall ns, noops ns -> open_members bjdata decimal_point l (ns ++ c :: u).
Proof.
  intros Hbj. induction 1 as [|c [k v] t l ns' c' u Hc Hv Hns' _ IH]; intros ns Hns; [by constructor|].
  destruct (Hv Hbj) as (tk & tv & -> & Hk & Ht). cbn [fst snd] in Hk, Ht.
  replace (ns ++ c :: (tk ++ tv) ++ ns' ++ c' :: u) with ((ns ++ (c :: tk) ++ tv) ++ (ns' ++ c' :: u))
    by (rewrite <- !app_assoc; simpl; by rewrite <- ?app_assoc).
  constructor; [done|done|exact Ht|by apply IH].
Qed.

Lemma ubjson_texts_elements ty l t : bjdata = false -> texts (fun v t => bjdata = false -> element_text bjdata decimal_point ty v t) l t ->
  counted_elements bjdata decimal_point ty l t.
Proof. intros Hbj Ht. apply texts_counted_elements. eapply texts_impl; [|exact Ht]. auto. Qed.

Lemma ubjson_texts_members ty l t : bjdata = false -> texts (member_read (length_string bjdata) ty) l t ->
  counted_members bjdata decimal_point ty l t.
Proof. intros Hbj Ht. apply texts_counted_members. eapply texts_impl; [|exact Ht]. intros x u Hx. by apply Hx. Qed.

Lemma size_head_range ty n h : bjdata = false -> size_head bjdata ty n h -> 0 <= n < 2 ^ 63.
Proof.
  intros Hbj Hh. assert (exists h', count_text bjdata n h') as (h' & Hc) by (destruct Hh; eauto).
  destruct Hc as [ns c n b _ Hb Hn]. split; [done|]. by eapply ubjson_count_small.
Qed.

(** ** Arrays with dimensions *)

Lemma bjd_type_name_marker (t : Z) (s : bytes) : bjd_type_name t = Some s -> 66 <= t <= 117.
Proof.
  unfold bjd_type_name. intros E.
  destruct (List.find _ _) as [[t' s']|] eqn:Ef; [|done]. apply find_some in Ef as [Hin Et]. apply Z.eqb_eq in Et. simpl in Et. subst t'.
  simpl in Hin. repeat (destruct Hin as [[= <- _]|Hin]; [lia|]). done.
Qed.

Lemma ndarray_fine first second d0 dim r : 0 <= first -> good r -> settled allow d0 ->
  filling d0 (value_object (size_object dim)) (sax r) -> (length (ia r) + 2 <= f)%nat ->
  fails_or (fun r' => exists v t, passed r t r' /\ placed d0 v (sax r')) (ubjson_ndarray (value f) first second r).
Proof.
  intros Hn Hg Hs Hfi Hl. unfold ubjson_ndarray. cbv zeta. set (ty := Z.land second _).
  destruct (bjd_type_name ty) as [name|] eqn:Et; [|apply error_fails; [done|apply syntax_112]].
  apply bjd_type_name_marker in Et.
  assert (sorted_object (size_object dim)) as Hso by repeat constructor.
  destruct (event_key_run d0 _ (str "_ArrayType_") r Hfi Hso) as (r1 & Hr1 & E1 & Hrd1 & Hpl1 & _).
  change (event (sax_key (str "_ArrayType_")) r) with (event (dom_key (str "_ArrayType_")) r). rewrite Hr1. cbn [and_then comp_bind].
  destruct (event_value_run (value_string name) r1 Hrd1) as (r2 & Hr2 & E2 & Hp2).
  change (event (sax_string name) r1) with (event (dom_value (value_string name)) r1). rewrite Hr2. cbn [and_then comp_bind].
  apply Hpl1 in Hp2. apply object_set_sorted with (kv := (str "_ArrayType_", value_string name)) in Hso.
  destruct (event_key_run d0 _ (str "_ArrayData_") r2 Hp2 Hso) as (r3 & Hr3 & E3 & Hrd3 & Hpl3 & Hfl3).
  change (event (sax_key (str "_ArrayData_")) r2) with (event (dom_key (str "_ArrayData_")) r2). rewrite Hr3. cbn [and_then comp_bind].
  assert (good r2) as Hg2 by (eapply still_good; [exact Hg|exact Hs|congruence|exact Hp2]).
  assert (good r3) as Hg3 by (split; [rewrite E3; apply Hg2|eapply settled_flags; [apply Hg2|done]]).
  set (ty' := if (ty =? 67) || (ty =? 66) then 85 else ty). assert (ty' <> EOF) as Hty by (unfold ty', EOF; case_match; lia).
  eapply ends_then; [by apply ubjson_fine, event_start_array_fine|]. intros r4 (E4 & Hf4 & _).
  assert (good r4) as Hg4 by (eapply filling_good; [exact Hg3|apply Hg3|done|done]).
  eapply ends_then; [apply (times_fine (array_inv (sax r3)) (value f ty') f (fun _ _ => True) first Hn) with (xs := @nil (json F))|];
    [|done|done|rewrite E4, E3, E2, E1; done|].
  { intros xs r5 Hg5 HI Hl5. eapply ends_mono; [apply Hvalue; [done|by eapply array_ready|done|done|done]|].
    intros r' (v & t & Hp & _ & Hpl). exists v, t. split_and!; [done|done|by eapply good_placed|by eapply array_place]. }
  intros r5 (l & t & Hp & _ & _ & HI).
  destruct (event_end_run true _ _ _ HI eq_refl) as (r6 & Hr6 & E6 & Hp6).
  change (event sax_end_array r5) with (event dom_end_array r5). rewrite Hr6. cbn [and_then comp_bind]. apply Hpl3 in Hp6.
  assert (passed r t r6) as Hp' by (unfold passed in *; by rewrite <- E1, <- E2, <- E3, <- E4, E6).
  eapply ends_mono; [exact (end_fine false d0 _ t r r6 Hp' Hp6 eq_refl)|].
  intros r' [Hp'' Hpl]. by eexists _, t.
Qed.

(** ** The two containers *)

(** What follows the size and type of a container. *)
Lemma after_head c r (k : Z * Z -> reader -> comp (bool * reader)) : good r -> ready (sax r) -> (length (ia r) + 1 <= f)%nat ->
  (forall ns r1, noops ns -> good r1 -> sax r1 = sax r -> (current r1 <> EOF -> length (ia r1) + 2 <= f)%nat ->
     current r1 <> 36 -> current r1 <> 35 -> (current r1 <> EOF -> passed r (ns ++ [current r1]) r1) ->
     fails_or (value_read c r) (k (npos, 0) r1)) ->
  (forall n ty h r1, size_range n -> is_byte ty -> good r1 -> sax r1 = sax r -> passed r h r1 -> (length (ia r1) + 2 <= f)%nat ->
     (bjdata = false -> size_head bjdata ty n h) -> fails_or (value_read c r) (k (n, ty) r1)) ->
  (forall n ty h r1 dim, size_range n -> n <> npos -> bjdata = true -> is_ndarray_type ty = true -> good r1 -> passed r h r1 ->
     (length (ia r1) + 2 <= f)%nat -> filling (sax r) (value_object (size_object dim)) (sax r1) ->
     fails_or (value_read c r) (k (n, ty) r1)) ->
  fails_or (value_read c r) (and_let (get_ubjson_size_type bjdata (size_value f) false r) k).
Proof.
  intros Hg Hr Hl Hopen Hplain Hnd.
  eapply ends_and_let; [apply ubjson_fine_let, (size_type_fine (size_value f) f (size_value_fine f) (size_value_failed f)); (done || lia)|].
  intros [n ty] r1 [([= -> ->] & -> & H36 & H35)|(Hg1 & Hn & h & Hp & Hh & [(S1 & Hty & Hsz)|(_ & Hbj & (ty0 & Hty0 & Ety) & Hnp & dim & Hfi)])].
  - destruct (noop_cases r Hg) as (ns & Hns & Hg1 & S1 & Hd). apply (Hopen ns); try done.
    + intros Hc. destruct Hd as [(_ & _ & ?)|(E & _)]; [done|]. rewrite E, length_app in Hl. simpl in Hl. lia.
    + intros Hc. destruct Hd as [(_ & _ & ?)|(E & _)]; [done|]. unfold passed. by rewrite <- app_assoc.
  - pose proof (passed_length _ _ _ Hp). by apply (Hplain n ty h); try done; lia.
  - pose proof (passed_length _ _ _ Hp). cbn [fst snd] in *. apply (Hnd n ty h r1 dim); try done; [|lia].
    subst ty. unfold is_ndarray_type. rewrite Z.land_lor_distr_l, Z.land_diag. apply negb_true_iff, Z.eqb_neq. intros E.
    apply (f_equal (fun x => Z.testbit x 8)) in E. by rewrite Z.lor_spec, orb_true_r in E.
Qed.

Lemma passed_trans r t r1 u r2 : passed r t r1 -> passed r1 u r2 -> passed r (t ++ u) r2.
Proof. unfold passed. intros -> ->. apply app_assoc. Qed.

Lemma plain_type ty : is_byte ty -> is_ndarray_type ty = false.
Proof. apply byte_not_ndarray. Qed.

(** A container that began after [h]. *)
Lemma contained_read c (Q : json F -> bytes -> Prop) h r r1 m : passed r h r1 -> sax r1 = sax r ->
  (bjdata = false -> forall v t, Q v t -> value_text bjdata decimal_point v c (h ++ t)) ->
  fails_or (contained r1 Q) m -> fails_or (value_read c r) m.
Proof.
  intros Hp S1 Hv Hm. eapply ends_mono; [exact Hm|]. intros r' (v & t & Hp' & HQ & Hpl). exists v, (h ++ t).
  split_and!; [by eapply passed_trans|auto|by rewrite <- S1].
Qed.

(** A container that is read up to its end marker; [r1] is at the first marker. *)
Lemma open_read c (Q : json F -> bytes -> Prop) ns r r1 m : sax r1 = sax r ->
  (current r1 <> EOF -> passed r (ns ++ [current r1]) r1) -> (forall v t, Q v t -> current r1 <> EOF) ->
  (bjdata = false -> forall v t, Q v t -> value_text bjdata decimal_point v c (ns ++ current r1 :: t)) ->
  fails_or (contained r1 Q) m -> fails_or (value_read c r) m.
Proof.
  intros S1 Hp Hc Hv Hm. eapply ends_mono; [exact Hm|]. intros r' (v & t & Hp' & HQ & Hpl).
  exists v, ((ns ++ [current r1]) ++ t). rewrite <- app_assoc. cbn [app].
  split_and!; [|auto|by rewrite <- S1]. eapply passed_trans in Hp'; [|by apply Hp; eauto]. by rewrite <- app_assoc in Hp'.
Qed.

Lemma run_texts_not_eof {X} (E : Z -> X -> bytes -> Prop) stop c l t : stop <> EOF -> run_texts E stop c l t -> c <> EOF.
Proof. intros Hs. by destruct 1. Qed.

Lemma ubjson_array_fine r : good r -> ready (sax r) -> (length (ia r) + 1 <= f)%nat ->
  fails_or (value_read 91 r) (get_ubjson_array (F:=F) bjdata (value f) f r).
Proof.
  intros Hg Hr Hl. unfold get_ubjson_array. apply after_head; [done|done|done|..]; cbn [fst snd].
  - intros ns r1 Hns Hg1 S1 Hl1 _ _ Hp. rewrite Z.eqb_refl. cbn [negb]. rewrite ?andb_false_r. cbn [andb]. cbv iota.
    eapply open_read; [done|exact Hp| | |apply open_array_fine; [done|by rewrite S1|done]].
    + intros v t (l & _ & Ht). eapply run_texts_not_eof; [|exact Ht]; done.
    + intros Hbj v t (l & -> & Ht). constructor. by apply run_texts_elements.
  - intros n ty h r1 Hn Hty Hg1 S1 Hp Hl1 Hsz. rewrite (plain_type ty Hty), andb_false_r. cbv iota.
    destruct (Z.eqb_spec n npos) as [->|Hnp]; cbn [negb].
    { rewrite ?andb_false_r. cbn [andb]. cbv iota.
      eapply (contained_read 91 _ h); [done|done| |apply open_array_fine; [done|by rewrite S1|done]].
      intros Hbj. by destruct (size_head_range _ _ _ Hbj (Hsz Hbj)). }
    rewrite andb_true_r. destruct (bjdata && (ty =? 66)) eqn:Eb.
    { apply andb_prop in Eb as [Hbj ->%Z.eqb_eq]. eapply ends_and_let; [apply ubjson_fine_let, (get_bytes_fine allow); [done|apply Hn]|].
      intros s r2 [[E2 S2] Hs]. change (event (sax_binary s None) r2) with (event (dom_value (value_binary s None)) r2).
      eapply (value_done _ _ (h ++ s)); [done|done|unfold passed in *; by rewrite Hp, E2, app_assoc|congruence|by rewrite Hbj]. }
    eapply (contained_read 91 _ h); [done|done| |apply (counted_array_fine ty); [by apply byte_not_eof|apply Hn|done|by rewrite S1|done]].
    intros Hbj v t (Hmax & l & -> & Ht). specialize (Hsz Hbj). destruct (Z.eqb_spec ty 78) as [->|H78].
    + destruct Ht as [-> ->]. rewrite app_nil_r. apply (text_no_elements _ _ n); auto.
    + destruct Ht as [<- Ht]. apply (text_counted_array _ _ ty); auto; [by rewrite Hbj|by apply ubjson_texts_elements].
  - intros n ty h r1 dim Hn Hnp Hbj Hnd Hg1 Hp Hl1 Hfi. rewrite (proj2 (Z.eqb_neq n npos)), Hnd by done. cbn [negb].
    replace (bjdata && true && true) with true by (by rewrite Hbj). cbv iota.
    eapply ends_mono; [apply (ndarray_fine n ty (sax r) dim); [apply Hn|done|apply Hg|done|done]|].
    intros r' (v & t & Hp' & Hpl). exists v, (h ++ t). split_and!; [by eapply passed_trans|by rewrite Hbj|done].
Qed.

Lemma ubjson_object_fine r : good r -> ready (sax r) -> (length (ia r) + 1 <= f)%nat ->
  fails_or (value_read 123 r) (get_ubjson_object (F:=F) bjdata (value f) f r).
Proof.
  intros Hg Hr Hl. unfold get_ubjson_object. apply after_head; [done|done|done|..]; cbn [fst snd].
  - intros ns r1 Hns Hg1 S1 Hl1 _ _ Hp. rewrite Z.eqb_refl. cbn [negb]. rewrite ?andb_false_r. cbn [andb]. cbv iota.
    eapply open_read; [done|exact Hp| | |apply open_object_fine; [done|by rewrite S1|done]].
    + intros v t (l & _ & Ht). eapply run_texts_not_eof; [|exact Ht]; done.
    + intros Hbj v t (l & -> & Ht). constructor. by apply run_texts_members.
  - intros n ty h r1 Hn Hty Hg1 S1 Hp Hl1 Hsz. rewrite (plain_type ty Hty), andb_false_r. cbv iota.
    destruct (Z.eqb_spec n npos) as [->|Hnp]; cbn [negb].
    { eapply (contained_read 123 _ h); [done|done| |apply open_object_fine; [done|by rewrite S1|done]].
      intros Hbj. by destruct (size_head_range _ _ _ Hbj (Hsz Hbj)). }
    eapply (contained_read 123 _ h); [done|done| |apply (counted_object_fine ty); [by apply byte_not_eof|apply Hn|done|by rewrite S1|done]].
    intros Hbj v t (Hmax & l & -> & <- & Ht). specialize (Hsz Hbj).
    apply (text_counted_object _ _ ty); auto. by apply ubjson_texts_members.
  - intros n ty h r1 dim Hn Hnp Hbj Hnd Hg1 Hp Hl1 Hfi. rewrite (proj2 (Z.eqb_neq n npos)), Hnd by done. cbn [negb].
    replace (bjdata && true && true) with true by (by rewrite Hbj). cbv iota.
    apply error_fails; [done|apply syntax_112].
Qed.

(** ** The other values *)

Section Leaf.
Variable r : reader.
Hypothesis Hg : good r.
Hypothesis Hr : ready (sax r).

Lemma ubjson_number_fine c w (v : Z -> json F) :
  (forall n, 0 <= n < 2 ^ (8 * Z.of_nat w) -> value_text bjdata decimal_point (v n) c (number_bytes bjdata w n)) ->
  fails_or (value_read c r) (and_let (get_number w bjdata r) (fun n r => event (dom_value (v n)) r)).
Proof.
  intros Hv. eapply ends_and_let with (Q := fun n r' => consumed r (number_bytes bjdata w n) r' /\ 0 <= n < 2 ^ (8 * Z.of_nat w)).
  { apply ubjson_fine_let. unfold number_bytes. destruct bjdata; [by apply get_le_fine|by apply get_be_fine]. }
  intros n r1 [[E S] Hn]. eapply value_done; [done|done|exact E|done|]. intros _. by apply Hv.
Qed.

Lemma integer_fine c ty : number_marker bjdata c = Some ty ->
  fails_or (value_read c r) (and_let (get_integer bjdata ty r)
    (fun n => event (if ty.2 : bool then sax_number_integer n else sax_number_unsigned n))).
Proof.
  intros Hm. eapply ends_and_let; [by apply ubjson_fine_let, (get_integer_fine c)|]. intros z r1 (b & [E S] & Hb & _).
  apply number_marker_spec in Hm.
  replace (event (if ty.2 : bool then sax_number_integer z else sax_number_unsigned z) r1) with
    (event (dom_value (if ty.2 : bool then value_number_integer z else value_number_unsigned z)) r1) by by destruct ty.2.
  eapply value_done; [done|done|exact E|done|]. intros _. by constructor.
Qed.

Lemma byte_fine : bjdata = true ->
  fails_or (value_read 66 r) (and_let (get_number 1 bjdata r) (fun n => event (sax_number_unsigned n))).
Proof.
  intros Hbj. apply (ubjson_number_fine 66 1 value_number_unsigned). intros n Hn. rewrite Hbj.
  assert (number_bytes true 1 n = [n]) as -> by (unfold number_bytes; simpl; by rewrite Z.mod_small). by constructor.
Qed.

Lemma ubjson_half_fine : bjdata = true -> fails_or (value_read 104 r) (bjdata_half (F:=F) r).
Proof.
  intros Hbj. unfold bjdata_half. cbv zeta.
  destruct (get_cases allow r Hg) as [(_ & _ & Ec & Hg1 & _)|(E1 & Hb1 & Hg1 & S1)]; set (r1 := get r) in *.
  { eapply ends_then; [by apply ubjson_fine, unexpect_eof_cases|]. by intros ? [-> ?]. }
  rewrite unexpect_eof_run by by apply byte_not_eof. cbn [and_then comp_bind].
  destruct (get_cases allow r1 Hg1) as [(_ & _ & Ec & Hg2 & _)|(E2 & Hb2 & Hg2 & S2)]; set (r2 := get r1) in *.
  { eapply ends_then; [by apply ubjson_fine, unexpect_eof_cases|]. by intros ? [-> ?]. }
  rewrite unexpect_eof_run by by apply byte_not_eof. cbn [and_then comp_bind]. rewrite !wrapu_small by done.
  eapply (value_done (value_number_float (half_value (current r2) (current r1))) 104 [current r1; current r2]); [done|done| |congruence|].
  - unfold passed. by rewrite E1, E2.
  - rewrite Hbj. intros _. by constructor.
Qed.

Lemma char_fine : fails_or (value_read 67 r)
  (let r := get r in and_then (unexpect_eof r) (fun r =>
     if 127 <? current r then error_return (parse_error 113) r else event (sax_string [wrapu 8 (current r)]) r)).
Proof.
  cbv zeta. destruct (get_cases allow r Hg) as [(_ & _ & Ec & Hg1 & _)|(E1 & Hb1 & Hg1 & S1)]; set (r1 := get r) in *.
  { eapply ends_then; [by apply ubjson_fine, unexpect_eof_cases|]. by intros ? [-> ?]. }
  rewrite unexpect_eof_run by by apply byte_not_eof. cbn [and_then comp_bind].
  destruct (Z.ltb_spec 127 (current r1)); [apply error_fails; [done|apply syntax_113]|]. rewrite wrapu_small by done.
  eapply (value_done (value_string [current r1]) 67 [current r1]); [done|done|exact E1|done|]. intros _. by constructor.
Qed.

Lemma string_fine : fails_or (value_read 83 r) (and_let (get_ubjson_string bjdata true r) (fun s => event (sax_string s))).
Proof.
  eapply ends_and_let; [by apply ubjson_fine_let, (get_ubjson_string_fine true)|]. intros s r1 (t & E & S & Ht).
  eapply (value_done (value_string s)); [done|done|exact E|done|]. intros _. by constructor.
Qed.

Lemma precise_fine : fails_or (value_read 72 r) (get_ubjson_high_precision_number (F:=F) bjdata [decimal_point] f r).
Proof.
  unfold get_ubjson_high_precision_number. destruct f as [|g]; [lia|].
  eapply ends_and_let; [by apply ubjson_fine_let, size_value_true_fine|].
  intros [n nd] r1 (Hn & S1 & h & Hp & _ & _ & Hct). cbn [fst] in *.
  assert (good r1) as Hg1 by (eapply passed_good; [done|done|rewrite S1; apply Hg]).
  eapply ends_and_let; [apply ubjson_fine_let, (get_bytes_fine allow); [done|apply Hn]|]. intros s r2 [[E2 S2] Hs].
  assert (Forall is_byte s) as Hby by (destruct Hg1 as [Hb _]; rewrite E2 in Hb; by apply Forall_app in Hb as [? _]).
  assert (passed r (h ++ s) r2) as Hp2 by (unfold passed in *; by rewrite Hp, E2, app_assoc).
  assert (good r2) as Hg2 by (eapply passed_good; [exact Hg|exact Hp2|rewrite S2, S1; apply Hg]).
  destruct (scan_ok _ _ (lexer_init_At s false decimal_point Hby)) as (t & l & q & Es & Hq & _).
  rewrite Es. cbn [comp_bind]. cbv zeta. destruct (scan_ok _ _ Hq) as (t' & l' & q' & Es' & _). rewrite Es'. cbn [comp_bind].
  destruct (decide (t' = end_of_input)) as [->|Hne]; [rewrite bool_decide_true by done|rewrite bool_decide_false by done; by apply error_115_fails].
  cbn [negb]. assert (forall v, precise_number decimal_point s v -> fails_or (value_read 72 r) (event (dom_value v) r2)) as Hdone.
  { intros v Hv. eapply value_done; [done|done|exact Hp2|congruence|]. intros Hbj.
    constructor; [|done]. rewrite Hs. by apply Hct. }
  destruct t; try (by apply error_115_fails); apply Hdone; eexists; exists l, l'; (split; [exact Es|]; split; [exact Es'|]);
    first [left; by split|right; left; by split|right; right; by split].
Qed.

Lemma value_step c : c <> EOF -> (length (ia r) + 1 <= f)%nat -> fails_or (value_read c r) (value (S f) c r).
Proof.
  intros Hc Hl. cbn [get_ubjson_value]. unfold ubjson_value. rewrite (proj2 (Z.eqb_neq c EOF)) by done.
  assert (forall v, passed r [] r -> value_text bjdata decimal_point v c [] -> fails_or (value_read c r) (event (dom_value v) r)) as Hconst.
  { intros v Hp Hv. by eapply value_done. }
  destruct (Z.eqb_spec c 84) as [->|_]; [apply (Hconst (value_boolean true)); [done|constructor]|].
  destruct (Z.eqb_spec c 70) as [->|_]; [apply (Hconst (value_boolean false)); [done|constructor]|].
  destruct (Z.eqb_spec c 90) as [->|_]; [apply (Hconst value_null); [done|constructor]|].
  destruct (bjdata && (c =? 66)) eqn:E1; [apply andb_prop in E1 as [? ->%Z.eqb_eq]; by apply byte_fine|].
  destruct (number_marker bjdata c) as [ty|] eqn:Et; [by apply integer_fine|].
  destruct (bjdata && (c =? 104)) eqn:E2; [apply andb_prop in E2 as [? ->%Z.eqb_eq]; by apply ubjson_half_fine|].
  destruct (Z.eqb_spec c 100) as [->|_].
  { apply (ubjson_number_fine 100 4 (fun n => value_number_float (of_bits32 n))). by constructor. }
  destruct (Z.eqb_spec c 68) as [->|_].
  { apply (ubjson_number_fine 68 8 (fun n => value_number_float (of_bits64 n))). by constructor. }
  destruct (Z.eqb_spec c 72) as [->|_]; [apply precise_fine|].
  destruct (Z.eqb_spec c 67) as [->|_]; [apply char_fine|].
  destruct (Z.eqb_spec c 83) as [->|_]; [apply string_fine|].
  destruct (Z.eqb_spec c 91) as [->|_]; [by apply ubjson_array_fine|].
  destruct (Z.eqb_spec c 123) as [->|_]; [by apply ubjson_object_fine|].
  apply error_fails; [done|apply syntax_112].
Qed.
End Leaf.
End Step.

(** At the end of the input there is no value. *)
Lemma value_eof f r : good r -> current r = EOF -> fails_or (value_read EOF r) (value (S f) EOF r).
Proof.
  intros Hg Hc. cbn [get_ubjson_value]. unfold ubjson_value. rewrite Z.eqb_refl. apply ubjson_fine.
  eapply fine_mono; [by apply unexpect_eof_cases|]. by intros r' [_ ?].
Qed.

(** With a fuel of two more than there are bytes, the reader terminates. *)
Lemma value_fine f : value_ok f.
Proof.
  induction f as [|f IH]; intros c r Hg Hr Hc Hf1 Hf; [lia|].
  destruct (Z.eq_dec c EOF) as [->|Hne]; [apply value_eof; auto|].
  specialize (Hf Hne). apply value_step; (done || lia).
Qed.
End Value.
End Sound.
