(* ===== verification/UbjsonWriter.v ===== *)
(** The UBJSON and BJData writer of [src/libephmem/json.hpp]:
    [binary_writer::write_ubjson] and the functions it calls.  A call that
    writes is modelled by the bytes it appends. *)
From S2P Require Import Prelude Utf8 JsonValue JsonCompare JsonModify JsonSerializer BinaryReader.

(** The map [bjdtype] of [write_bjdata_ndarray]. *)
Definition bjdtype : list (bytes * Z) :=
  [(str "uint8", 85); (str "int8", 105); (str "uint16", 117); (str "int16", 73); (str "uint32", 109); (str "int32", 108);
   (str "uint64", 77); (str "int64", 76); (str "single", 100); (str "double", 68); (str "char", 67); (str "byte", 66)].

(** The markers excluded from the optimized type in BJData. *)
Definition bjdx : list Z := [91; 123; 83; 72; 84; 70; 78; 90].

Section Writer.
Context {F : Type} `{FloatBits F} `{FloatOps F}.
Implicit Types (j : json F) (m : list (bytes * json F)).
Variables use_count use_type use_bjdata : bool.

(** [bjdata_version == bjdata_version_t::draft3]. *)
Variable draft3 : bool.

(** What [number_unsigned] reads in the union of a value that is neither a
    number nor null: an address, or what the memory held before. *)
Variable other_word : json F -> Z.

(** ** Numbers *)

Definition prefixed (add_prefix : bool) (prefix : Z) (bs : bytes) : bytes := if add_prefix then prefix :: bs else bs.

(** [get_ubjson_float_prefix]; [number_float_t] is [double]. *)
Definition get_ubjson_float_prefix : Z := 68 (* 'D' *).

Definition write_float_with_ubjson_prefix (n : F) (add_prefix : bool) : bytes :=
  prefixed add_prefix get_ubjson_float_prefix (write_number 8 use_bjdata (bits64 n)).

(** Of an unsigned number.  The last case calls the function again, for the
    size of a text of at most 20 bytes. *)
Fixpoint write_unsigned_with_ubjson_prefix (fuel : nat) (n : Z) (add_prefix : bool) : comp bytes :=
  match fuel with
  | O => OutOfFuel
  | S fuel =>
      if n <=? 127 then Ret (prefixed add_prefix 105 (write_number 1 use_bjdata n))
      else if n <=? 255 then Ret (prefixed add_prefix 85 (write_number 1 use_bjdata n))
      else if n <=? 32767 then Ret (prefixed add_prefix 73 (write_number 2 use_bjdata n))
      else if use_bjdata && (n <=? 65535) then Ret (prefixed add_prefix 117 (write_number 2 use_bjdata n))
      else if n <=? 2 ^ 31 - 1 then Ret (prefixed add_prefix 108 (write_number 4 use_bjdata n))
      else if use_bjdata && (n <=? 2 ^ 32 - 1) then Ret (prefixed add_prefix 109 (write_number 4 use_bjdata n))
      else if n <=? 2 ^ 63 - 1 then Ret (prefixed add_prefix 76 (write_number 8 use_bjdata n))
      else if use_bjdata && (n <=? 2 ^ 64 - 1) then Ret (prefixed add_prefix 77 (write_number 8 use_bjdata n))
      else
        let* number := dump (value_number_unsigned (F:=F) n) (-1) 32 false strict in
        let* size := write_unsigned_with_ubjson_prefix fuel (Z.of_nat (length number)) true in
        Ret (prefixed add_prefix 72 (size ++ number))
  end.
Definition write_unsigned (n : Z) : bool -> comp bytes := write_unsigned_with_ubjson_prefix 2 n.

(** Of a signed number; one that has no case would be a text. *)
Definition write_signed_with_ubjson_prefix (n : Z) (add_prefix : bool) : comp bytes :=
  if (-128 <=? n) && (n <=? 127) then Ret (prefixed add_prefix 105 (write_number 1 use_bjdata n))
  else if (0 <=? n) && (n <=? 255) then Ret (prefixed add_prefix 85 (write_number 1 use_bjdata n))
  else if (-32768 <=? n) && (n <=? 32767) then Ret (prefixed add_prefix 73 (write_number 2 use_bjdata n))
  else if use_bjdata && ((0 <=? n) && (n <=? 65535)) then Ret (prefixed add_prefix 117 (write_number 2 use_bjdata n))
  else if (- 2 ^ 31 <=? n) && (n <=? 2 ^ 31 - 1) then Ret (prefixed add_prefix 108 (write_number 4 use_bjdata n))
  else if use_bjdata && ((0 <=? n) && (n <=? 2 ^ 32 - 1)) then Ret (prefixed add_prefix 109 (write_number 4 use_bjdata n))
  else if (- 2 ^ 63 <=? n) && (n <=? 2 ^ 63 - 1) then Ret (prefixed add_prefix 76 (write_number 8 use_bjdata n))
  else
    let* number := dump (value_number_integer (F:=F) n) (-1) 32 false strict in
    let* size := write_unsigned (Z.of_nat (length number)) true in
    Ret (prefixed add_prefix 72 (size ++ number)).

(** ** Types of containers *)

Definition ubjson_prefix j : Z :=
  match j with
  | value_null => 90
  | value_boolean b => if b then 84 else 70
  | value_number_integer n =>
      if (-128 <=? n) && (n <=? 127) then 105
      else if (0 <=? n) && (n <=? 255) then 85
      else if (-32768 <=? n) && (n <=? 32767) then 73
      else if use_bjdata && ((0 <=? n) && (n <=? 65535)) then 117
      else if (- 2 ^ 31 <=? n) && (n <=? 2 ^ 31 - 1) then 108
      else if use_bjdata && ((0 <=? n) && (n <=? 2 ^ 32 - 1)) then 109
      else if (- 2 ^ 63 <=? n) && (n <=? 2 ^ 63 - 1) then 76
      else 72
  | value_number_unsigned n =>
      if n <=? 127 then 105
      else if n <=? 255 then 85
      else if n <=? 32767 then 73
      else if use_bjdata && (n <=? 65535) then 117
      else if n <=? 2 ^ 31 - 1 then 108
      else if use_bjdata && (n <=? 2 ^ 32 - 1) then 109
      else if n <=? 2 ^ 63 - 1 then 76
      else if use_bjdata && (n <=? 2 ^ 64 - 1) then 77
      else 72
  | value_number_float _ => get_ubjson_float_prefix
  | value_string _ => 83
  | value_array _ | value_binary _ _ => 91
  | value_object _ => 123
  | value_discarded => 78
  end.

(** The type written in front of a container, if there is one. *)
Definition container_type (els : list (json F)) : comp (option Z) :=
  match els with
  | first :: rest =>
      if use_type then
        if use_count then
          let first_prefix := ubjson_prefix first in
          let same_prefix := forallb (fun v => ubjson_prefix v =? first_prefix) rest in
          Ret (if same_prefix && negb (use_bjdata && existsb (Z.eqb first_prefix) bjdx) then Some first_prefix else None)
        else Throw assertion_failure
      else Ret None
  | [] => Ret None
  end.

Definition write_type (ty : option Z) : bytes := match ty with Some ty => [36; ty] | None => [] end.

Definition write_count (n : nat) : comp bytes :=
  if use_count then let* size := write_unsigned (Z.of_nat n) true in Ret (35 :: size) else Ret [].

Definition end_mark (c : Z) : bytes := if use_count then [] else [c].

Definition write_sized_bytes (s : bytes) : comp bytes :=
  let* size := write_unsigned (Z.of_nat (length s)) true in Ret (size ++ s).

(** The bytes of a binary value. *)
Definition write_ubjson_binary (s : bytes) (add_prefix : bool) : comp bytes :=
  let bjdata_draft3 := use_bjdata && draft3 in
  let marker := if bjdata_draft3 then 66 else 85 in
  let typed := use_type && (bjdata_draft3 || negb (length s =? 0)%nat) in
  if typed && negb use_count then Throw assertion_failure
  else
    let* count := write_count (length s) in
    Ret (prefixed add_prefix 91 ((if typed then [36; marker] else []) ++ count ++
      (if use_type then s else flat_map (fun b => [marker; b]) s) ++ end_mark 93)).

(** ** N-dimensional arrays *)

(** [m_value.number_unsigned], whatever the type of the value. *)
Definition union_word j : Z :=
  match j with
  | value_number_unsigned n => n
  | value_number_integer z => wrapu 64 z
  | value_number_float f => bits64 f
  | value_null => 0
  | _ => other_word j
  end.

(** [m_value.number_float]. *)
Definition union_float j : F := match j with value_number_float f => f | _ => of_bits64 (union_word j) end.

(** [for (const auto& el : j)] *)
Definition iterated j : list (json F) :=
  match j with
  | value_null => []
  | value_array l => l
  | value_object m => map snd m
  | _ => [j]
  end.

(** One number of [_ArrayData_]. *)
Definition write_ndarray_element (dtype : Z) (el : json F) : bytes :=
  if (dtype =? 85) || (dtype =? 67) || (dtype =? 66) || (dtype =? 105) then write_number 1 true (union_word el)
  else if (dtype =? 117) || (dtype =? 73) then write_number 2 true (union_word el)
  else if (dtype =? 109) || (dtype =? 108) then write_number 4 true (union_word el)
  else if (dtype =? 77) || (dtype =? 76) then write_number 8 true (union_word el)
  else if dtype =? 100 then write_number 4 true (bits32 (union_float el))
  else if dtype =? 68 then write_number 8 true (bits64 (union_float el))
  else [].

(** [write_bjdata_ndarray], of the values at its three keys; [None] when it
    returns [true].  [write_size] writes the value at [_ArraySize_]. *)
Definition write_bjdata_ndarray (array_type array_size array_data : json F) (write_size : comp bytes) : comp (option bytes) :=
  match array_type with
  | value_string name =>
      match List.find (fun p => bool_decide (p.1 = name)) bjdtype with
      | None => Ret None
      | Some (_, dtype) =>
          let len := fold_left (fun len el => wrapu 64 (len * union_word el)) (iterated array_size)
                       (if empty array_size then 0 else 1) in
          if negb (Z.of_nat (size array_data) =? len) then Ret None
          else
            let* s := write_size in
            Ret (Some ([91; 36; dtype; 35] ++ s ++ flat_map (write_ndarray_element dtype) (iterated array_data)))
      end
  | _ => Throw (type_error 302)
  end.

(** ** Values *)

Section Elements.
Variable write : json F -> comp bytes.
Fixpoint write_elements (l : list (json F)) : comp bytes :=
  match l with
  | [] => Ret []
  | el :: l =>
      let* b := write el in
      let* bs := write_elements l in Ret (b ++ bs)
  end.
Fixpoint write_members (m : list (bytes * json F)) : comp bytes :=
  match m with
  | [] => Ret []
  | (k, el) :: m =>
      let* key := write_sized_bytes k in
      let* b := write el in
      let* bs := write_members m in Ret (key ++ b ++ bs)
  end.

(** [write] of the value at a key. *)
Fixpoint write_at (k : bytes) (m : list (bytes * json F)) : comp bytes :=
  match m with
  | [] => Throw (other_error 0)
  | (k', v) :: m => if decide (k = k') then write v else write_at k m
  end.
End Elements.

(** The three keys of an array in JData format, and only these. *)
Definition ndarray_parts m : option (json F * json F * json F) :=
  if (length m =? 3)%nat then
    match object_find (str "_ArrayType_") m, object_find (str "_ArraySize_") m, object_find (str "_ArrayData_") m with
    | Some array_type, Some array_size, Some array_data => Some (array_type, array_size, array_data)
    | _, _, _ => None
    end
  else None.

Fixpoint write_ubjson (add_prefix : bool) j {struct j} : comp bytes :=
  match j with
  | value_null => Ret (if add_prefix then [90] else [])
  | value_boolean b => Ret (if add_prefix then [if b then 84 else 70] else [])
  | value_number_integer z => write_signed_with_ubjson_prefix z add_prefix
  | value_number_unsigned n => write_unsigned n add_prefix
  | value_number_float f => Ret (write_float_with_ubjson_prefix f add_prefix)
  | value_string s => let* bs := write_sized_bytes s in Ret (prefixed add_prefix 83 bs)
  | value_array l =>
      let* ty := container_type l in
      let* count := write_count (length l) in
      let* els := write_elements (write_ubjson (bool_decide (ty = None))) l in
      Ret (prefixed add_prefix 91 (write_type ty ++ count ++ els ++ end_mark 93))
  | value_binary s _ => write_ubjson_binary s add_prefix
  | value_object m =>
      let* ndarray :=
        match (if use_bjdata then ndarray_parts m else None) with
        | Some (array_type, array_size, array_data) =>
            write_bjdata_ndarray array_type array_size array_data (write_at (write_ubjson true) (str "_ArraySize_") m)
        | None => Ret None
        end in
      match ndarray with
      | Some bs => Ret bs
      | None =>
          let* ty := container_type (map snd m) in
          let* count := write_count (length m) in
          let* els := write_members (write_ubjson (bool_decide (ty = None))) m in
          Ret (prefixed add_prefix 123 (write_type ty ++ count ++ els ++ end_mark 125))
      end
  | value_discarded => Ret []
  end.
End Writer.

(** [to_ubjson] and [to_bjdata] into a new vector. *)
Definition to_ubjson {F} `{FloatBits F, FloatOps F} (j : json F) (use_size use_type : bool) : comp bytes :=
  write_ubjson use_size use_type false false (fun _ => 0) true j.
Definition to_bjdata {F} `{FloatBits F, FloatOps F} (other_word : json F -> Z) (j : json F) (use_size use_type draft3 : bool) : comp bytes :=
  write_ubjson use_size use_type true draft3 other_word true j.
