(* ===== verification/UbjsonWriterFacts.v ===== *)
(** What the UBJSON and BJData writer writes is in the grammar of the
    reader. *)
From S2P Require Import Prelude CLib Utf8 JsonValue JsonCompare JsonGrammar JsonLexer JsonLexerFacts JsonLexerComplete.
From S2P Require Import JsonSerializer JsonSerializerFacts JsonRoundtrip.
From S2P Require Import BinaryReader BinaryReaderFacts Ubjson UbjsonGrammar UbjsonWriter.

Section Facts.
Context {F : Type} `{FloatBitsLaws F, FloatOps F, MaxSize}.
Implicit Types (j v : json F) (b s : bytes).
Variables use_count use_type use_bjdata draft3 : bool.
Variable other_word : json F -> Z.
Variable decimal_point : Z.
Notation write_ubjson := (write_ubjson use_count use_type use_bjdata draft3 other_word).
Notation write_unsigned := (write_unsigned (F:=F) use_bjdata).
Notation prefix := (ubjson_prefix (F:=F) use_bjdata).

(** ** Numbers *)

Lemma number_bytes_wrap bj w z : number_bytes bj w (wrapu (8 * Z.of_nat w) z) = write_number w bj z.
Proof.
  pose proof (be_bytes_wrap w z) as E. destruct bj; [|exact E]. unfold be_bytes in E.
  apply (f_equal (@rev Z)) in E. by rewrite !rev_involutive in E.
Qed.

(** [c] and [b] are the text of [z]. *)
Definition number_written (z : Z) (c : Z) b : Prop := exists ty, (c, ty) ∈ integer_types use_bjdata /\ type_range ty z /\
  b = write_number ty.1 use_bjdata z.

Lemma number_written_text z c b : number_written z c b -> integer_text use_bjdata c z b.
Proof. intros (ty & Hin & Hr & ->). rewrite <- number_bytes_wrap. by constructor. Qed.

Lemma number_written_bytes z c b : number_written z c b -> Forall is_byte (c :: b).
Proof.
  intros (ty & Hin & _ & ->). apply integer_types_marker in Hin as [Hc _]. constructor; [unfold is_byte; lia|apply write_number_bytes].
Qed.

(** The value that is read back from a number. *)
Definition number_read (n : Z) : json F :=
  if in_range 128 255 n || (use_bjdata && (in_range 32768 65535 n || in_range (2 ^ 31) (2 ^ 32 - 1) n)) || (2 ^ 63 <=? n)
  then value_number_unsigned n else value_number_integer n.

Lemma read_unsigned n : in_range 128 255 n = true \/ (use_bjdata = true /\ (32768 <= n <= 65535 \/ 2 ^ 31 <= n < 2 ^ 32)) \/ 2 ^ 63 <= n ->
  number_read n = value_number_unsigned n.
Proof.
  unfold number_read. intros [->|[[-> Hn]|Hn]]; [done| |by rewrite (proj2 (Z.leb_le _ _)), orb_true_r by lia].
  assert (in_range 32768 65535 n || in_range (2 ^ 31) (2 ^ 32 - 1) n = true) as ->; [|by rewrite orb_true_r].
  apply orb_true_iff. rewrite !in_range_spec. lia.
Qed.

Lemma read_signed n : n < 2 ^ 63 -> ~ (128 <= n <= 255) -> (use_bjdata = false \/ ~ (32768 <= n <= 65535 \/ 2 ^ 31 <= n < 2 ^ 32)) ->
  number_read n = value_number_integer n.
Proof.
  intros H63 H8 Hbj. unfold number_read. rewrite (in_range_out 128), (proj2 (Z.leb_gt _ _)) by lia.
  assert (use_bjdata && (in_range 32768 65535 n || in_range (2 ^ 31) (2 ^ 32 - 1) n) = false) as ->; [|done].
  apply andb_false_iff. destruct Hbj; [by left|right]. apply orb_false_iff. rewrite !in_range_false. lia.
Qed.

Lemma number_written_value z c b ty : (c, ty) ∈ integer_types use_bjdata -> type_range ty z -> b = write_number ty.1 use_bjdata z ->
  (if ty.2 : bool then value_number_integer z else value_number_unsigned z) = number_read z ->
  number_written z c b /\ value_text use_bjdata decimal_point (number_read z) c b.
Proof.
  intros Hin Hr Hb E. assert (number_written z c b) as Hw by by exists ty. split; [done|].
  rewrite <- E. apply text_integer; [done|by apply number_written_text].
Qed.

(** How a number is written: the marker, and the bytes after it. *)
Definition writes (w : bool -> comp bytes) (v : json F) (c : Z) b : Prop :=
  (forall add_prefix, w add_prefix = Ret (prefixed add_prefix c b)) /\
  value_text use_bjdata decimal_point v c b /\ Forall is_byte b.

Lemma writes_number (w : bool -> comp bytes) z c ty : (c, ty) ∈ integer_types use_bjdata -> type_range ty z ->
  (if ty.2 : bool then value_number_integer z else value_number_unsigned z) = number_read z ->
  (forall add_prefix, w add_prefix = Ret (prefixed add_prefix c (write_number ty.1 use_bjdata z))) ->
  exists b, writes w (number_read z) c b /\ number_written z c b.
Proof.
  intros Hin Hr E Hw. eexists. destruct (number_written_value z c _ ty Hin Hr eq_refl E) as [Hn Hv].
  split; [|exact Hn]. split; [exact Hw|]. split; [exact Hv|]. apply number_written_bytes in Hn. by inversion Hn.
Qed.

Ltac number c ty :=
  apply (writes_number _ _ c ty);
    [destruct use_bjdata; simpl in *; (done || set_solver)|unfold type_range; simpl; lia|
     symmetry; first [apply read_signed; solve [lia|by left|right; lia|naive_solver lia] |
       apply read_unsigned; first [left; apply in_range_true; lia|right; left; split; [done|lia]|right; right; lia]]|].

(** Numbers below 2^63, and in BJData all numbers, are written as such. *)
Lemma unsigned_number_written n : 0 <= n < 2 ^ 64 -> n < 2 ^ 63 \/ use_bjdata = true ->
  exists b, writes (write_unsigned n) (number_read n) (prefix (value_number_unsigned n)) b /\
    number_written n (prefix (value_number_unsigned n)) b.
Proof.
  intros Hn Hbig. unfold UbjsonWriter.write_unsigned. cbn [write_unsigned_with_ubjson_prefix ubjson_prefix].
  destruct (Z.leb_spec n 127); [number 105 (1%nat, true); done|].
  destruct (Z.leb_spec n 255); [number 85 (1%nat, false); done|].
  destruct (Z.leb_spec n 32767); [number 73 (2%nat, true); done|].
  destruct (use_bjdata && (n <=? 65535)) eqn:E1; [apply andb_prop in E1 as [E1 ?%Z.leb_le]; number 117 (2%nat, false); done|].
  assert (use_bjdata = false \/ 65535 < n) as N1 by (apply andb_false_iff in E1 as [?|?%Z.leb_gt]; auto).
  destruct (Z.leb_spec n (2 ^ 31 - 1)); [number 108 (4%nat, true); done|].
  destruct (use_bjdata && (n <=? 2 ^ 32 - 1)) eqn:E2; [apply andb_prop in E2 as [E2 ?%Z.leb_le]; number 109 (4%nat, false); done|].
  assert (use_bjdata = false \/ 2 ^ 32 - 1 < n) as N2 by (apply andb_false_iff in E2 as [?|?%Z.leb_gt]; auto).
  destruct (Z.leb_spec n (2 ^ 63 - 1)); [number 76 (8%nat, true); done|].
  destruct Hbig as [?|Hbj]; [lia|]. replace (use_bjdata && (n <=? 2 ^ 64 - 1)) with true by (rewrite Hbj; symmetry; apply Z.leb_le; lia).
  number 77 (8%nat, false); done.
Qed.

(** ** Texts of big numbers *)

(** At the end of the input the lexer keeps the number it has read. *)
Lemma scan_at_end (s : lexer F) : At s [] ->
  exists s' : lexer F, scan s = Ret (end_of_input, s') /\ value_unsigned s' = value_unsigned s.
Proof.
  intros Ha. unfold scan.
  assert (exists s1 : lexer F, (if chars_read_total (inp s) =? 0 then skip_bom s else Ret (true, s)) = Ret (true, s1) /\
    At s1 [] /\ value_unsigned s1 = value_unsigned s) as (s1 & -> & Ha1 & E1).
  { destruct (_ =? 0); [|by exists s]. unfold skip_bom. pose proof (get_At _ _ Ha) as Hr. rewrite (proj1 (proj2 Hr)).
    rewrite (unget_get _ _ Ha). exists (back (JsonLexer.get s)). split_and!; [done|by apply back_get|done]. }
  cbn [comp_bind]. unfold skip_whitespace. cbn [skip_whitespace_loop]. cbv zeta. pose proof (get_At _ _ Ha1) as Hr.
  assert (cur (JsonLexer.get s1) = EOF) as Ec by apply Hr. rewrite Ec. cbn [is_ws orb Z.eqb EOF comp_bind skip_comments].
  rewrite Ec. rewrite andb_false_r. cbn [comp_bind]. unfold scan_token. rewrite Ec. by exists (JsonLexer.get s1).
Qed.

Lemma dump_unsigned n : 0 <= n < 2 ^ 64 -> dump (value_number_unsigned (F:=F) n) (-1) 32 false strict = Ret (to_dec n).
Proof.
  intros Hn. unfold dump. cbn [Z.leb Z.compare dump_value].
  destruct (emits_integer n (serializer_init 32)) as (s' & -> & E & _); [|lia|].
  { unfold JsonRoundtrip.good. split_and!; [done|done|]. exact (Forall_replicate _ 512 32 (or_introl eq_refl)). }
  cbn [comp_bind]. rewrite E. unfold int_text. by rewrite (proj2 (Z.ltb_ge n 0)) by lia.
Qed.

Lemma digits_bytes n : 0 <= n -> Forall is_byte (to_dec n).
Proof. intros Hn. eapply Forall_impl; [by apply to_dec_digits|]. unfold is_byte. simpl. lia. Qed.

Lemma to_dec_precise n : 0 <= n < 2 ^ 64 -> precise_number (F:=F) decimal_point (to_dec n) (value_number_unsigned n).
Proof.
  intros Hn. pose proof (int_text_number (F:=F) decimal_point n ltac:(lia)) as Ht. unfold int_text in Ht.
  rewrite (proj2 (Z.ltb_ge n 0)) in Ht by lia.
  pose proof (digits_bytes n ltac:(lia)) as Hb.
  destruct (scan_number_token decimal_point (lexer_init (to_dec n) false [decimal_point]) [] (value_number_unsigned n) (to_dec n) [])
    as (t & l & El & Ej & Ha & _); [by rewrite app_nil_r; apply lexer_init_At|constructor|exact Ht|done|done|].
  destruct (scan_at_end l Ha) as (l' & El' & Eu).
  exists t, l, l'. split_and!; [done|done|]. destruct t; simpl in Ej; try done; [|by destruct (isfinite _)..].
  injection Ej as Ej. right. left. split; [done|]. by rewrite Eu, Ej.
Qed.

(** ** All numbers *)

Lemma count_written n : 0 <= n < 2 ^ 63 -> exists c b, write_unsigned n true = Ret (c :: b) /\
  integer_text use_bjdata c n b /\ Forall is_byte (c :: b).
Proof.
  intros Hn. destruct (unsigned_number_written n ltac:(lia) (or_introl (proj2 Hn))) as (b & (Hw & _) & Hb).
  eexists _, b. split; [exact (Hw true)|]. split; [by apply number_written_text|by eapply number_written_bytes].
Qed.

Lemma count_written_text n c b : 0 <= n -> integer_text use_bjdata c n b -> count_text use_bjdata n (c :: b).
Proof. intros Hn Hb. apply (count_marked use_bjdata []); [constructor|done|done]. Qed.

Lemma unsigned_written n : 0 <= n < 2 ^ 64 ->
  exists b, writes (write_unsigned n) (number_read n) (prefix (value_number_unsigned n)) b.
Proof.
  intros Hn. destruct (decide (n < 2 ^ 63 \/ use_bjdata = true)) as [Hd|Hd].
  { destruct (unsigned_number_written n Hn Hd) as (b & Hb & _). by exists b. }
  assert (use_bjdata = false) as Hbj by (destruct use_bjdata; naive_solver). assert (2 ^ 63 <= n) as Hbig by lia.
  unfold UbjsonWriter.write_unsigned. cbn [write_unsigned_with_ubjson_prefix ubjson_prefix]. rewrite !Hbj. cbn [andb].
  rewrite !(proj2 (Z.leb_gt n _)) by lia. rewrite (dump_unsigned n Hn). cbn [comp_bind].
  assert (length (to_dec n) <= 20)%nat as Hl by (apply (to_dec_length n 19); simpl; lia).
  rewrite (proj2 (Z.leb_le _ 127)) by lia. cbn [comp_bind prefixed].
  exists (105 :: write_number 1 false (Z.of_nat (length (to_dec n))) ++ to_dec n).
  split; [done|]. split.
  - rewrite read_unsigned by auto. rewrite app_comm_cons. apply text_precise; [|by apply to_dec_precise].
    apply (count_marked use_bjdata [] 105); [constructor| |lia]. apply number_written_text.
    exists (1%nat, true). rewrite Hbj. split; [set_solver|]. unfold type_range. simpl. split; [lia|done].
  - constructor; [done|]. apply Forall_app. split; [apply write_number_bytes|by apply digits_bytes; lia].
Qed.

Lemma signed_written n : - 2 ^ 63 <= n < 2 ^ 63 ->
  exists b, writes (write_signed_with_ubjson_prefix (F:=F) use_bjdata n) (number_read n) (prefix (value_number_integer n)) b.
Proof.
  intros Hn. cut (exists b, writes (write_signed_with_ubjson_prefix (F:=F) use_bjdata n) (number_read n) (prefix (value_number_integer n)) b /\
    number_written n (prefix (value_number_integer n)) b); [intros (b & Hb & _); by exists b|].
  unfold write_signed_with_ubjson_prefix. cbn [ubjson_prefix].
  destruct ((-128 <=? n) && (n <=? 127)) eqn:E; [apply andb_prop in E as [?%Z.leb_le ?%Z.leb_le]; number 105 (1%nat, true); done|].
  destruct ((0 <=? n) && (n <=? 255)) eqn:E'; [apply andb_prop in E' as [?%Z.leb_le ?%Z.leb_le];
    apply andb_false_iff in E as [?%Z.leb_gt|?%Z.leb_gt]; [lia|]; number 85 (1%nat, false); done|].
  assert (n < -128 \/ 255 < n) as N0.
  { apply andb_false_iff in E as [?%Z.leb_gt|?%Z.leb_gt], E' as [?%Z.leb_gt|?%Z.leb_gt]; lia. }
  clear E E'. destruct ((-32768 <=? n) && (n <=? 32767)) eqn:E; [apply andb_prop in E as [?%Z.leb_le ?%Z.leb_le]; number 73 (2%nat, true); done|].
  assert (n < -32768 \/ 32767 < n) as N1 by (apply andb_false_iff in E as [?%Z.leb_gt|?%Z.leb_gt]; lia). clear E N0.
  destruct (use_bjdata && _) eqn:E; [apply andb_prop in E as [E [?%Z.leb_le ?%Z.leb_le]%andb_prop]; number 117 (2%nat, false); done|].
  assert (use_bjdata = false \/ n < -32768 \/ 65535 < n) as N2.
  { apply andb_false_iff in E as [?|[?%Z.leb_gt|?%Z.leb_gt]%andb_false_iff]; [by left|lia|lia]. }
  clear E. destruct ((- 2 ^ 31 <=? n) && (n <=? 2 ^ 31 - 1)) eqn:E; [apply andb_prop in E as [?%Z.leb_le ?%Z.leb_le]; number 108 (4%nat, true); done|].
  assert (n < - 2 ^ 31 \/ 2 ^ 31 - 1 < n) as N3 by (apply andb_false_iff in E as [?%Z.leb_gt|?%Z.leb_gt]; lia). clear E.
  destruct (use_bjdata && _) eqn:E; [apply andb_prop in E as [E [?%Z.leb_le ?%Z.leb_le]%andb_prop]; number 109 (4%nat, false); done|].
  assert (use_bjdata = false \/ n < - 2 ^ 31 \/ 2 ^ 32 - 1 < n) as N4.
  { apply andb_false_iff in E as [?|[?%Z.leb_gt|?%Z.leb_gt]%andb_false_iff]; [by left|lia|lia]. }
  rewrite !(proj2 (Z.leb_le _ _)) by lia. cbn [andb]. number 76 (8%nat, true); done.
Qed.

(** ** Values *)

(** The value that is read back: a number has the type of its text, and
    binary values are arrays of numbers unless they are typed in BJData draft
    3. *)
Fixpoint ubjson_canonical j : json F :=
  match j with
  | value_number_integer n | value_number_unsigned n => number_read n
  | value_binary s _ =>
      if use_type && (use_bjdata && draft3) then value_binary s None else value_array (map value_number_unsigned s)
  | value_array l => value_array (map ubjson_canonical l)
  | value_object m => value_object (map (fun kv => (kv.1, ubjson_canonical kv.2)) m)
  | _ => j
  end.

Definition short (n : nat) : Prop := Z.of_nat n < 2 ^ 63.
Definition short_text s : Prop := Forall is_byte s /\ short (length s).

(** Values a program can hold.  In BJData the objects that look like arrays in
    JData format are written in another way. *)
Inductive ubjson_writable : json F -> Prop :=
  | drawable_null : ubjson_writable value_null
  | drawable_boolean (b : bool) : ubjson_writable (value_boolean b)
  | drawable_integer z : - 2 ^ 63 <= z < 2 ^ 63 -> ubjson_writable (value_number_integer z)
  | drawable_unsigned z : 0 <= z < 2 ^ 64 -> ubjson_writable (value_number_unsigned z)
  | drawable_float f : ubjson_writable (value_number_float f)
  | drawable_string s : short_text s -> ubjson_writable (value_string s)
  | drawable_binary s t : short_text s -> Z.of_nat (length s) <= array_max_size -> ubjson_writable (value_binary s t)
  | drawable_array l : Forall ubjson_writable l -> Z.of_nat (length l) <= array_max_size -> short (length l) ->
      ubjson_writable (value_array l)
  | drawable_object m : sorted_object m -> Forall (fun kv => short_text kv.1) m ->
      Forall (fun kv => ubjson_writable kv.2) m -> Z.of_nat (length m) <= object_max_size -> short (length m) ->
      (use_bjdata = true -> ndarray_parts m = None) -> ubjson_writable (value_object m).

Definition ubjson_written j : Prop := exists b, writes (fun add_prefix => write_ubjson add_prefix j) (ubjson_canonical j) (prefix j) b.

Lemma sized_bytes_written s : short_text s -> exists t, write_sized_bytes (F:=F) use_bjdata s = Ret t /\
  length_string use_bjdata s t /\ Forall is_byte t.
Proof.
  intros [Hs Hl]. destruct (count_written (Z.of_nat (length s))) as (c & b & E & Hb & Hby); [unfold short in Hl; lia|].
  exists ((c :: b) ++ s). unfold write_sized_bytes. rewrite E. split; [done|]. split.
  - by apply (string_length use_bjdata c (Z.of_nat (length s))); [|lia].
  - apply Forall_app. by split.
Qed.

Lemma float_written f : ubjson_written (value_number_float f).
Proof.
  exists (write_number 8 use_bjdata (bits64 f)). split; [done|]. split; [|apply write_number_bytes].
  rewrite <- (of_bits64_bits64 f) at 1. change (write_number 8 use_bjdata (bits64 f)) with (number_bytes use_bjdata 8 (bits64 f)).
  apply text_double, bits64_range.
Qed.

Lemma constant_written j c : (forall ap, write_ubjson ap j = Ret (prefixed ap c [])) -> prefix j = c ->
  value_text use_bjdata decimal_point j c [] -> ubjson_canonical j = j -> ubjson_written j.
Proof. intros Hw E Ht Ec. exists []. unfold writes. rewrite E, Ec. by split_and!; [| |constructor]. Qed.

(** *** Elements *)

Notation element_text := (element_text use_bjdata decimal_point).
Notation member_text := (member_text use_bjdata decimal_point).

(** The type 0 stands for none. *)
Definition type_of (ty : option Z) : Z := match ty with Some c => c | None => 0 end.
Definition agrees (ty : option Z) v : Prop := match ty with Some c => prefix v = c /\ c <> 0 | None => True end.

Lemma element_written ty v : ubjson_written v -> agrees ty v ->
  exists t, write_ubjson (bool_decide (ty = None)) v = Ret t /\ element_text (type_of ty) (ubjson_canonical v) t /\ Forall is_byte t.
Proof.
  intros (b & Hw & Hv & Hb) Hty. rewrite (Hw _). destruct ty as [c|]; simpl in Hty.
  - rewrite bool_decide_false by done. destruct Hty as [<- Hc]. exists b. split; [done|]. split; [|done].
    unfold UbjsonGrammar.element_text. simpl. by rewrite (proj2 (Z.eqb_neq _ _)).
  - rewrite bool_decide_true by done. exists (prefix v :: b). split; [done|]. split.
    + by apply (text_marked use_bjdata decimal_point []); [constructor|].
    + constructor; [|done]. apply value_text_marker in Hv. unfold value_marker in Hv. unfold is_byte. lia.
Qed.

Lemma elements_written ty l : Forall ubjson_written l -> Forall (agrees ty) l ->
  exists t, write_elements (write_ubjson (bool_decide (ty = None))) l = Ret t /\
    texts (element_text (type_of ty)) (map ubjson_canonical l) t /\ Forall is_byte t.
Proof.
  induction 1 as [|v l Hv _ IH]; intros Ha; inversion Ha; subst; simpl; [exists []; split_and!; constructor|].
  destruct (element_written ty v) as (t & -> & Ht & Hb); [done|done|].
  destruct IH as (ts & -> & Hts & Hbs); [done|]. exists (t ++ ts). split; [done|].
  split; [by constructor|]. apply Forall_app. by split.
Qed.

Lemma members_written ty m : Forall (fun kv => short_text kv.1) m -> Forall (fun kv => ubjson_written kv.2) m ->
  Forall (agrees ty) (map snd m) ->
  exists t, write_members use_bjdata (write_ubjson (bool_decide (ty = None))) m = Ret t /\
    texts (member_text (type_of ty)) (map (fun kv => (kv.1, ubjson_canonical kv.2)) m) t /\ Forall is_byte t.
Proof.
  intros Hk Hv. revert Hk. induction Hv as [|[k v] m Hv _ IH]; intros Hk Ha; inversion Hk; inversion Ha; subst; simpl in *;
    [exists []; split_and!; constructor|].
  destruct (sized_bytes_written k) as (tk & -> & Htk & Hbk); [done|]. cbn [comp_bind].
  destruct (element_written ty v) as (t & -> & Ht & Hb); [done|done|]. cbn [comp_bind].
  destruct IH as (ts & -> & Hts & Hbs); [done|done|]. exists ((tk ++ t) ++ ts). split; [by rewrite <- app_assoc|].
  split; [constructor; [by exists tk, t|done]|]. repeat (apply Forall_app; split); done.
Qed.

(** *** Bytes as numbers *)

Lemma byte_text (b : Z) : is_byte b -> value_text (F:=F) use_bjdata decimal_point (value_number_unsigned b) 85 [b].
Proof.
  intros Hb. apply (text_integer _ _ 85 (1%nat, false)); [destruct use_bjdata; set_solver|]. apply number_written_text.
  exists (1%nat, false). split; [destruct use_bjdata; set_solver|]. unfold type_range, is_byte in *. simpl. split; [lia|].
  unfold write_number. simpl. rewrite Z.mod_small by lia. by destruct use_bjdata.
Qed.

Lemma typed_bytes s : Forall is_byte s -> texts (element_text 85) (map value_number_unsigned s) s.
Proof.
  induction 1 as [|b s Hb _ IH]; [constructor|]. apply (texts_cons _ _ [b]); [|done].
  unfold UbjsonGrammar.element_text. simpl. by apply byte_text.
Qed.

Lemma marked_bytes s : Forall is_byte s ->
  texts (element_text 0) (map value_number_unsigned s) (flat_map (fun b : Z => [if use_bjdata && draft3 then 66 else 85; b]) s).
Proof.
  induction 1 as [|b s Hb _ IH]; [constructor|]. cbn [map flat_map]. apply texts_cons; [|done].
  unfold UbjsonGrammar.element_text. simpl. apply (text_marked _ _ []); [constructor|].
  destruct (use_bjdata && draft3) eqn:E; [|by apply byte_text]. apply andb_prop in E as [? _]. by constructor.
Qed.

Lemma marked_bytes_bytes (c : Z) s : is_byte c -> Forall is_byte s -> Forall is_byte (flat_map (fun b : Z => [c; b]) s).
Proof. intros Hc. induction 1; simpl; [constructor|]. constructor; [done|]. by constructor. Qed.

(** *** Sizes and types *)

(** A type without a size is excluded by an assertion. *)
Hypothesis typed_counted : use_type = true -> use_count = true.

Notation container_type := (container_type (F:=F) use_count use_type use_bjdata).
Notation write_count := (write_count (F:=F) use_count use_bjdata).

Lemma prefix_marker v : ubjson_written v -> value_marker (prefix v) /\ prefix v <> 66.
Proof.
  intros (b & _ & Hv & _). split; [by apply value_text_marker in Hv|].
  destruct v as [|m|l|s|b'|z|n|f|s t|]; simpl; try done; [by destruct b'|by repeat case_match..].
Qed.

Lemma excluded_markers : Forall (fun c => c ∈ bjdx) bjd_optimized_type_markers.
Proof. apply (bool_decide_unpack _). by vm_compute. Qed.

Lemma container_type_ok els : Forall ubjson_written els ->
  exists ty, container_type els = Ret ty /\ Forall (agrees ty) els /\
    (forall c, ty = Some c -> use_count = true /\ value_marker c /\ c <> 66 /\ (use_bjdata = true -> c ∉ bjd_optimized_type_markers)).
Proof.
  intros He. assert (Forall (agrees None) els) as Hnone by by apply Forall_forall.
  destruct He as [|v els Hv Hels]; [by exists None|]. unfold UbjsonWriter.container_type.
  destruct use_type eqn:Et; [|by exists None]. rewrite typed_counted by done. destruct (_ && _) eqn:E; [|by exists None].
  apply andb_prop in E as [Hsame Hx%negb_true_iff]. destruct (prefix_marker v Hv) as [Hm H66].
  exists (Some (prefix v)). split; [done|]. assert (prefix v <> 0) as Hp0 by (unfold value_marker in Hm; lia). split.
  - constructor; [done|]. rewrite forallb_forall in Hsame. apply Forall_forall. intros w Hw%list_elem_of_In.
    apply Hsame, Z.eqb_eq in Hw. done.
  - intros c [= <-]. split_and!; [done|done|done|]. intros Hbj Hin. apply andb_false_iff in Hx as [Hx|Hx]; [congruence|].
    apply not_true_iff_false in Hx. apply Hx, existsb_exists. exists (prefix v). split; [|apply Z.eqb_refl].
    apply list_elem_of_In. revert Hin. generalize (prefix v). apply Forall_forall, excluded_markers.
Qed.

Lemma write_type_bytes ty : (forall c, ty = Some c -> value_marker c) -> Forall is_byte (write_type ty).
Proof.
  destruct ty as [c|]; intros Hc; [|constructor]. specialize (Hc c eq_refl). unfold value_marker in Hc.
  repeat constructor; unfold is_byte; lia.
Qed.

(** The head of a container with its size. *)
Lemma head_written ty n : use_count = true -> short n -> (forall c, ty = Some c -> use_bjdata = true -> c ∉ bjd_optimized_type_markers) ->
  exists h, write_count n = Ret (35 :: h) /\ size_head use_bjdata (type_of ty) (Z.of_nat n) (write_type ty ++ 35 :: h) /\
    Forall is_byte (35 :: h).
Proof.
  intros Hc Hn Hty. destruct (count_written (Z.of_nat n)) as (c & b & E & Hb & Hby); [unfold short in Hn; lia|].
  exists (c :: b). unfold UbjsonWriter.write_count. rewrite Hc, E. split; [done|].
  assert (count_text use_bjdata (Z.of_nat n) (c :: b)) as Ht by (apply count_written_text; [lia|done]). split.
  - destruct ty as [t|]; simpl.
    + apply (head_type use_bjdata [] t []); [constructor|by apply Hty|constructor|done].
    + apply (head_count use_bjdata []); [constructor|done].
  - constructor; [done|done].
Qed.

(** *** Containers *)

Lemma array_written l : Forall ubjson_written l -> Z.of_nat (length l) <= array_max_size -> short (length l) ->
  ubjson_written (value_array l).
Proof.
  intros Hl Hmax Hs. destruct (container_type_ok l Hl) as (ty & Ety & Hag & Hty).
  destruct (elements_written ty l Hl Hag) as (els & Eel & Hels & Hbels).
  assert (exists count, write_count (length l) = Ret count /\ Forall is_byte (write_type ty ++ count ++ els ++ end_mark use_count 93) /\
    value_text use_bjdata decimal_point (ubjson_canonical (value_array l)) 91 (write_type ty ++ count ++ els ++ end_mark use_count 93))
    as (count & Ec & Hby & Ht).
  { assert (Forall is_byte (write_type ty)) as Hbt by (apply write_type_bytes; intros c Hc; by apply Hty). cbn [ubjson_canonical].
    destruct use_count eqn:Hc; cbn [end_mark].
    - destruct (head_written ty (length l) Hc Hs) as (h & E & Hh & Hbh); [intros c Ec; by apply Hty|]. rewrite Hc in E.
      exists (35 :: h). rewrite app_nil_r. split; [done|]. split; [repeat (apply Forall_app; split); done|]. rewrite app_assoc.
      apply (text_counted_array _ _ (type_of ty)); rewrite ?length_map; try done.
      + destruct ty as [c|]; [|done]. destruct (Hty c eq_refl) as (_ & Hm & _). unfold value_marker in Hm. simpl. lia.
      + intros _. destruct ty as [c|]; [|done]. by apply Hty.
      + unfold short, npos, unknown_size in *. lia.
      + by apply texts_counted_elements.
    - exists []. unfold UbjsonWriter.write_count. destruct ty as [c|]; [by destruct (Hty c eq_refl)|]. split; [done|].
      split; [simpl; apply Forall_app; split; [done|by repeat constructor]|]. apply text_array, texts_open_elements, Hels. }
  eexists. split; [|split; [exact Ht|exact Hby]]. intros ap. cbn [UbjsonWriter.write_ubjson]. rewrite Ety. cbn [comp_bind].
  rewrite Ec. cbn [comp_bind]. by rewrite Eel.
Qed.

Lemma object_written m : Forall (fun kv => ubjson_written kv.2) m -> sorted_object m -> Forall (fun kv => short_text kv.1) m ->
  Z.of_nat (length m) <= object_max_size -> short (length m) -> (use_bjdata = true -> ndarray_parts m = None) ->
  ubjson_written (value_object m).
Proof.
  intros Hm Hso Hk Hmax Hs Hnd.
  destruct (container_type_ok (map snd m)) as (ty & Ety & Hag & Hty); [by apply Forall_map|].
  destruct (members_written ty m Hk Hm Hag) as (els & Eel & Hels & Hbels).
  assert (exists count, write_count (length m) = Ret count /\ Forall is_byte (write_type ty ++ count ++ els ++ end_mark use_count 125) /\
    value_text use_bjdata decimal_point (ubjson_canonical (value_object m)) 123 (write_type ty ++ count ++ els ++ end_mark use_count 125))
    as (count & Ec & Hby & Ht).
  { assert (Forall is_byte (write_type ty)) as Hbt by (apply write_type_bytes; intros c Hc; by apply Hty). cbn [ubjson_canonical].
    rewrite <- (object_of_sorted (map _ m)) by (unfold sorted_object; by rewrite keys_map).
    destruct use_count eqn:Hc; cbn [end_mark].
    - destruct (head_written ty (length m) Hc Hs) as (h & E & Hh & Hbh); [intros c Ec; by apply Hty|]. rewrite Hc in E.
      exists (35 :: h). rewrite app_nil_r. split; [done|]. split; [repeat (apply Forall_app; split); done|]. rewrite app_assoc.
      apply (text_counted_object _ _ (type_of ty)); rewrite ?length_map; try done.
      + unfold short, npos, unknown_size in *. lia.
      + by apply texts_counted_members.
    - exists []. unfold UbjsonWriter.write_count. destruct ty as [c|]; [by destruct (Hty c eq_refl)|]. split; [done|].
      split; [simpl; apply Forall_app; split; [done|by repeat constructor]|]. apply text_object, texts_open_members, Hels. }
  eexists. split; [|split; [exact Ht|exact Hby]]. intros ap. cbn [UbjsonWriter.write_ubjson].
  assert ((if use_bjdata then ndarray_parts m else None) = None) as -> by (destruct use_bjdata; auto). cbn [comp_bind].
  rewrite Ety. cbn [comp_bind]. rewrite Ec. cbn [comp_bind]. by rewrite Eel.
Qed.

(** *** Binary values *)

Lemma binary_written s t : short_text s -> Z.of_nat (length s) <= array_max_size -> ubjson_written (value_binary s t).
Proof.
  intros [Hby Hs] Hmax. unfold ubjson_written, writes. cbn [UbjsonWriter.write_ubjson ubjson_canonical UbjsonWriter.ubjson_prefix].
  set (marker := if use_bjdata && draft3 then 66 else 85). unfold write_ubjson_binary. fold marker.
  assert (Z.of_nat (length s) <> npos) as Hnp by (unfold short, npos, unknown_size in *; lia).
  assert (is_byte marker) as Hmk by (unfold marker; by case_match).
  assert (Forall is_byte [36; marker]) as Hbm by (apply Forall_cons; split; [done|by apply Forall_singleton]).
  destruct (use_type && (use_bjdata && draft3 || negb (length s =? 0)%nat)) eqn:Et.
  - apply andb_prop in Et as [Et Ene]. rewrite Et, (typed_counted Et). cbn [andb negb].
    destruct (head_written (Some marker) (length s) (typed_counted Et) Hs) as (h & E & Hh & Hbh).
    { intros c [= <-] _. unfold marker. destruct (_ && _); unfold bjd_optimized_type_markers; apply (bool_decide_unpack _); by vm_compute. }
    rewrite (typed_counted Et) in E. rewrite E. cbn [comp_bind end_mark]. rewrite app_nil_r.
    eexists. split; [done|]. split; [|repeat (apply Forall_app; split); (done || by repeat constructor)]. rewrite app_assoc.
    simpl type_of in Hh. cbn [write_type] in Hh. unfold marker in *. destruct (use_bjdata && draft3) eqn:Ed.
    + apply andb_prop in Ed as [Hbj _]. by apply text_binary.
    + rewrite <- (length_map (@value_number_unsigned F) s) in Hh.
      apply (text_counted_array _ _ 85); rewrite ?length_map in *; try done. by apply texts_counted_elements, typed_bytes.
  - cbn [andb].
    assert (use_type && (use_bjdata && draft3) = false) as ->.
    { destruct use_type; [|done]. cbn [andb] in *. by apply orb_false_iff in Et as [-> _]. }
    set (data := if use_type then s else flat_map (fun b : Z => [marker; b]) s).
    assert (texts (element_text 0) (map value_number_unsigned s) data /\ Forall is_byte data) as [Hd Hbd].
    { unfold data. destruct use_type.
      - cbn [andb] in Et. apply orb_false_iff in Et as [_ Et%negb_false_iff%Nat.eqb_eq]. destruct s; [|done]. split; constructor.
      - split; [by apply marked_bytes|by apply marked_bytes_bytes]. }
    destruct use_count eqn:Hc; cbn [end_mark].
    + destruct (head_written None (length s) Hc Hs ltac:(done)) as (h & E & Hh & Hbh). rewrite Hc in E. rewrite E. cbn [comp_bind].
      eexists. split; [done|]. rewrite app_nil_r. split; [|repeat (apply Forall_app; split); (done || by repeat constructor)].
      cbn [app]. rewrite app_comm_cons. rewrite <- (length_map (@value_number_unsigned F) s) in Hh.
      apply (text_counted_array _ _ 0); rewrite ?length_map in *; try done. by apply texts_counted_elements.
    + unfold UbjsonWriter.write_count. cbn [comp_bind]. eexists. split; [done|]. cbn [app].
      split; [by apply text_array, texts_open_elements|]. apply Forall_app. split; [done|by repeat constructor].
Qed.

(** ** All values *)

Lemma write_ubjson_written j : ubjson_writable j -> ubjson_written j.
Proof.
  induction j as [|m IH|l IH|s|b|z|z|f|s t|] using json_ind'; inversion 1 as [| | | | | | |? Hl Hmax Hs|? Hso Hk Hv Hmax Hs Hnd]; subst.
  - apply (constant_written _ 90); [by intros []|done|constructor|done].
  - apply object_written; try done. rewrite Forall_forall in IH, Hv |- *. auto.
  - apply array_written; try done. rewrite Forall_forall in IH, Hl |- *. auto.
  - destruct (sized_bytes_written s) as (t & E & Ht & Hb); [done|]. exists t. split; [|split; [by constructor|done]].
    intros ap. cbn [UbjsonWriter.write_ubjson]. by rewrite E.
  - destruct b; [apply (constant_written _ 84)|apply (constant_written _ 70)]; first [by intros []|done|constructor].
  - by apply signed_written.
  - by apply unsigned_written.
  - apply float_written.
  - by apply binary_written.
Qed.
End Facts.
