(* ===== verification/UbjsonSpec.v ===== *)
(** What the UBJSON and BJData readers and writers promise: an answer on every
    input, for UBJSON a value exactly for the texts of the grammar, and that
    what is written is read back. *)
From S2P Require Import Prelude Utf8 JsonValue JsonCompare JsonGrammar JsonLexer JsonParser JsonParserFacts JsonParserComplete.
From S2P Require Import BinaryReader BinaryReaderFacts Ieee754 Ubjson UbjsonGrammar UbjsonFacts UbjsonSound UbjsonWriter UbjsonWriterFacts.
From S2P Require Import JsonFloat.

Section Reader.
Context {F : Type} `{FloatBits F, FloatOps F, MaxSize}.
Variable decimal_point : Z.

Lemma noops_end : next_ends (F:=F) get_ignore_noop noops.
Proof.
  intros r Hn. unfold get_ignore_noop. generalize (chars_read r) as n. induction Hn as [|c ns <- _ IH]; intros n; [done|]. apply IH.
Qed.

Lemma noops_read allow : next_reads (F:=F) allow get_ignore_noop noops.
Proof.
  intros r Hg. destruct (noop_cases allow r Hg) as (ns & Hns & _ & Hs & Hd). split; [done|]. intros Hc.
  destruct Hd as [(-> & _)|(_ & Hb & _)]; [done|]. by apply byte_not_eof in Hb.
Qed.

Definition from_format (bjdata : bool) : bytes -> bool -> bool -> bytes -> comp (json F) := if bjdata then from_bjdata else from_ubjson.

(** Reading UBJSON or BJData returns on every input, in every mode: a value,
    followed by no-ops alone in strict mode; a discarded value without
    exceptions; one of the documented parse errors with them; or the error for
    an excessive size.  A value that is read as UBJSON has a text of the
    grammar. *)
Theorem ubjson_read_total bjdata (i : bytes) strict allow : Forall is_byte i ->
  document_ends (F:=F) noops (allow = false) (ubjson_failure allow)
    (fun v t => bjdata = false -> marked_text bjdata decimal_point v t) strict i
    (from_format bjdata i strict allow [decimal_point]).
Proof.
  intros Hb. assert (from_format bjdata i strict allow [decimal_point] =
    from_binary get_ignore_noop (parse_ubjson_internal bjdata [decimal_point] (length i + 4)) i strict allow) as -> by by destruct bjdata.
  apply (from_binary_ends allow get_ignore_noop noops); [apply noops_read|done|by left|done|]. intros r Hg Hr E.
  unfold parse_ubjson_internal. eapply ends_mono; [apply (marked_fine bjdata decimal_point allow (length i + 4));
    [apply value_fine|lia|done|done|rewrite E; lia]|].
  intros r' (v & t & ? & Hv & ?). by exists v, t.
Qed.

(** Every text of the grammar is read, in both formats, with any no-ops after
    it, whatever the mode. *)
Theorem ubjson_grammar_read bjdata v t ns strict allow : Forall is_byte t -> marked_text bjdata decimal_point v t -> noops ns ->
  from_format bjdata (t ++ ns) strict allow [decimal_point] = Ret v.
Proof.
  intros Hb Ht Hns. assert (from_format bjdata (t ++ ns) strict allow [decimal_point] =
    from_binary get_ignore_noop (parse_ubjson_internal bjdata [decimal_point] (length (t ++ ns) + 4)) (t ++ ns) strict allow) as ->
    by by destruct bjdata.
  apply (from_binary_run allow get_ignore_noop noops); [apply noops_end| |done].
  intros r Hr E. unfold parse_ubjson_internal. rewrite length_app.
  destruct (ubjson_grammar_runs bjdata decimal_point) as (_ & _ & Hm & _).
  destruct (length t + length ns + 4)%nat as [|n] eqn:En; [lia|].
  destruct (parse_marked bjdata decimal_point n v t r ns) as (r' & ? & ? & ?); [by apply Hm|done|done|done|lia|].
  by exists r'.
Qed.

(** C34: In strict mode, reading UBJSON returns a value exactly when the
    input is a text of the grammar with this value and no-ops after it,
    whether or not exceptions are allowed. (High-precision numbers are
    read by the JSON lexer; the decimal point of the locale is a single
    byte.) *)
Theorem from_ubjson_exact (i : bytes) (j : json F) allow : Forall is_byte i -> j <> value_discarded ->
  from_ubjson i true allow [decimal_point] = Ret j <->
  exists t ns, i = t ++ ns /\ marked_text false decimal_point j t /\ noops ns.
Proof.
  intros Hb Hj. split.
  - intros E. pose proof (ubjson_read_total false i true allow Hb) as Ht. simpl in Ht. rewrite E in Ht.
    destruct Ht as [(t & q & -> & Hi & Hq)|[? _]]; [|done]. exists t, q. auto.
  - intros (t & ns & -> & Ht & Hns). apply Forall_app in Hb as [Hb _]. by apply (ubjson_grammar_read false j t ns true allow).
Qed.
End Reader.

Section Writer.
Context {F : Type} `{FloatBitsLaws F, FloatOps F, MaxSize}.
Variable decimal_point : Z.
Implicit Types (j : json F).

(** C35: Every value a program can hold is written, in each of the ways
    that the options of [to_ubjson] and [to_bjdata] choose, as long as a
    type is only written with a size, and reading it back in any mode
    gives the value, up to the types of its numbers and to binary values,
    which come back as arrays of numbers (or as binary values, when BJData
    of draft 3 is written with types). Sizes are below 2^63. In BJData,
    objects that look like arrays in JData format are excluded, at any
    depth. (The decimal point of the locale is a single byte.) *)
Theorem ubjson_roundtrip bjdata draft3 use_size use_type other_word j strict allow :
  (use_type = true -> use_size = true) -> ubjson_writable bjdata j ->
  exists bs, (if bjdata then to_bjdata other_word j use_size use_type draft3 else to_ubjson j use_size use_type) = Ret bs /\
    from_format bjdata bs strict allow [decimal_point] = Ret (ubjson_canonical use_type bjdata (bjdata && draft3) j).
Proof.
  intros Ht Hj.
  assert (exists bs, (if bjdata then to_bjdata other_word j use_size use_type draft3 else to_ubjson j use_size use_type) = Ret bs /\
    marked_text bjdata decimal_point (ubjson_canonical use_type bjdata (bjdata && draft3) j) bs /\ Forall is_byte bs) as (bs & E & Hbs & Hb).
  { destruct (write_ubjson_written use_size use_type bjdata (bjdata && draft3) (if bjdata then other_word else fun _ => 0)
      decimal_point Ht j Hj) as (b & Hw & Hv & Hb).
    exists (ubjson_prefix bjdata j :: b). split; [by destruct bjdata; apply Hw|]. split.
    - by apply (text_marked _ _ []); [constructor|].
    - constructor; [|done]. apply value_text_marker in Hv. unfold value_marker in Hv. unfold is_byte. lia. }
  exists bs. split; [done|]. rewrite <- (app_nil_r bs). apply ubjson_grammar_read; [done|done|constructor].
Qed.
End Writer.

(** ** Examples *)

#[local] Existing Instance example_sizes.

(** No-ops, an object of a given size with an array of bytes, a high-precision
    number and an open array. *)
Definition example_ubjson : bytes :=
  [78; 123; 35; 105; 3; 105; 1; 97; 91; 36; 85; 35; 105; 2; 1; 255; 85; 1; 98; 78; 72; 105; 2; 45; 55;
   105; 0; 91; 67; 120; 78; 78; 84; 93; 78].
Definition example_ubjson_value : json double :=
  value_object [([], value_array [value_string [120]; value_boolean true]);
    ([97], value_array [value_number_unsigned 1; value_number_unsigned 255]); ([98], value_number_integer (-7))].

Lemma example_ubjson_bytes : Forall is_byte example_ubjson.
Proof. repeat constructor; lia. Qed.

Lemma from_ubjson_exact_witness : Forall is_byte example_ubjson /\
  exists t ns, example_ubjson = t ++ ns /\ marked_text false 46 example_ubjson_value t /\ noops ns.
Proof.
  split; [apply example_ubjson_bytes|].
  apply (proj1 (from_ubjson_exact 46 example_ubjson example_ubjson_value true example_ubjson_bytes ltac:(discriminate))).
  vm_compute. reflexivity.
Defined.

Definition example_drawn : json double :=
  value_object [(str "a", value_array [value_number_unsigned 200; value_number_integer 5; value_number_unsigned (2 ^ 64 - 1)]);
    (str "b", value_binary [1; 2; 3] (Some 7)); (str "c", value_array [value_string (str "x"); value_string []])].

Lemma example_drawn_writable bjdata : ubjson_writable bjdata example_drawn.
Proof.
  assert (forall s, short (length (str s)) -> short_text (str s)) as Hs by (intros s ?; split; [apply str_bytes|done]).
  apply drawable_object; [repeat constructor| | |done|done|intros _; reflexivity].
  - repeat (apply Forall_cons; split); try apply Forall_nil_2; by apply Hs.
  - repeat (apply Forall_cons; split); try apply Forall_nil_2.
    + apply drawable_array; [|done|done]. repeat (apply Forall_cons; split); try apply Forall_nil_2; constructor; lia.
    + apply drawable_binary; [|done]. split; [repeat constructor; lia|done].
    + apply drawable_array; [|done|done]. repeat (apply Forall_cons; split); try apply Forall_nil_2; constructor; by apply (Hs "x"%string) || apply (Hs ""%string).
Qed.

Lemma ubjson_roundtrip_witness : ubjson_writable true example_drawn /\
  exists bs, to_bjdata (fun _ => 0) example_drawn true true true = Ret bs /\
    from_bjdata bs true true [46] = Ret (ubjson_canonical true true true example_drawn).
Proof.
  split; [apply example_drawn_writable|].
  exact (ubjson_roundtrip 46 true true true true (fun _ => 0) example_drawn true true (fun _ => eq_refl) (example_drawn_writable true)).
Defined.

Lemma ubjson_read_total_witness : Forall is_byte example_ubjson /\
  document_ends (F:=double) noops (true = false) (ubjson_failure true) (fun v t => true = false -> marked_text true 46 v t) false
    example_ubjson (from_format true example_ubjson false true [46]).
Proof. split; [apply example_ubjson_bytes|]. exact (ubjson_read_total 46 true example_ubjson false true example_ubjson_bytes). Defined.

(** An array in JData format, as BJData, and the same bytes read back. *)
Definition example_ndarray : json double :=
  value_object [(str "_ArrayData_", value_array (map value_number_unsigned [1; 2; 3; 4; 5; 6]));
    (str "_ArraySize_", value_array [value_number_unsigned 2; value_number_unsigned 3]);
    (str "_ArrayType_", value_string (str "uint8"))].
Example ndarray_written : to_bjdata (fun _ => 0) example_ndarray true true false =
  Ret [91; 36; 85; 35; 91; 36; 105; 35; 105; 2; 2; 3; 1; 2; 3; 4; 5; 6].
Proof. vm_compute. reflexivity. Qed.
Example ndarray_read : from_bjdata [91; 36; 85; 35; 91; 36; 105; 35; 105; 2; 2; 3; 1; 2; 3; 4; 5; 6] true true [46] = Ret example_ndarray.
Proof. vm_compute. reflexivity. Qed.

(** The elements are read as unsigned numbers whatever their type: minus one
    is written as 255. *)
Example ndarray_punned : to_bjdata (fun _ => 0) (value_object (F:=double) [(str "_ArrayData_", value_array [value_number_integer (-1)]);
    (str "_ArraySize_", value_array [value_number_unsigned 1]); (str "_ArrayType_", value_string (str "uint8"))]) true true false =
  Ret [91; 36; 85; 35; 91; 36; 105; 35; 105; 1; 1; 255].
Proof. vm_compute. reflexivity. Qed.

(** A count of elements of type null needs no bytes: seven bytes make an array
    of 200 elements, and a count of 2^63 - 1 is accepted as well. *)
Example nulls_counted : from_ubjson (F:=double) [91; 36; 90; 35; 85; 200] true true [46] = Ret (value_array (replicate 200 value_null)).
Proof. vm_compute. reflexivity. Qed.

(** A count of no-ops gives an empty array, whatever it is. *)
Example noops_counted : from_ubjson (F:=double) [91; 36; 78; 35; 85; 200] true true [46] = Ret (value_array []).
Proof. vm_compute. reflexivity. Qed.

(** A BJData size of 2^64 - 1 is the value that stands for an unknown size: the
    marker of the size is taken for that of the first element, and the array
    goes on to its bracket. *)
Example size_unknown : from_bjdata (F:=double)
  [91; 35; 77; 255; 255; 255; 255; 255; 255; 255; 255; 1; 0; 0; 0; 0; 0; 0; 0; 93] true true [46] =
  Ret (value_array [value_number_unsigned 1]).
Proof. vm_compute. reflexivity. Qed.

(** A type without a size is excluded by an assertion. *)
Example type_alone : to_ubjson (F:=double) (value_array [value_null]) false true = Throw assertion_failure.
Proof. vm_compute. reflexivity. Qed.

(** The check for an overflow of the number of elements of an n-dimensional
    array finds the products that wrap to 0 alone: 2 times 2^63 + 1 elements
    are 2. *)
Example ndarray_wraps : from_bjdata
  ([91; 36; 85; 35; 91; 36; 77; 35; 105; 2] ++ le_bytes 8 2 ++ le_bytes 8 (2 ^ 63 + 1) ++ [7; 8]) true true [46] =
  Ret (value_object (F:=double) [(str "_ArrayData_", value_array [value_number_unsigned 7; value_number_unsigned 8]);
    (str "_ArraySize_", value_array [value_number_unsigned 2; value_number_unsigned (2 ^ 63 + 1)]);
    (str "_ArrayType_", value_string (str "uint8"))]).
Proof. vm_compute. reflexivity. Qed.
