(* ===== verification/JsonPointer.v ===== *)
(** JSON pointers: [json_pointer], [detail::escape] and [detail::unescape]
    of [src/libephmem/json.hpp], with the operators that compare pointers.  A
    pointer is the list of its reference tokens, unescaped. *)
From S2P Require Import Prelude CLib JsonValue.

(** ** Escaping *)

Definition is_prefix (f s : bytes) : bool := bool_decide (take (length f) s = f).

(** [replace_substring]: the search goes on after the text put in; [skip] is
    the number of characters of the last occurrence that are left. *)
Fixpoint replace_from (f t s : bytes) (skip : nat) : bytes :=
  match s with
  | [] => []
  | c :: s' =>
      match skip with
      | S k => replace_from f t s' k
      | O => if is_prefix f s then t ++ replace_from f t s' (length f - 1) else c :: replace_from f t s' 0
      end
  end.

Definition replace_substring (s f t : bytes) : bytes := replace_from f t s 0.

Definition escape (s : bytes) : bytes :=
  let s := replace_substring s (str "~") (str "~0") in
  replace_substring s (str "/") (str "~1").

Definition unescape (s : bytes) : bytes :=
  let s := replace_substring s (str "~1") (str "/") in
  replace_substring s (str "~0") (str "~").

(** ** Reading and printing *)

Definition json_pointer : Type := list bytes.

Definition to_string (p : json_pointer) : bytes := fold_left (fun a b => a ++ str "/" ++ escape b) p [].

(** Every [~] of a token is followed by 0 or 1. *)
Fixpoint check_escapes (token : bytes) : comp unit :=
  match token with
  | [] => Ret tt
  | c :: rest =>
      if c =? 126 then
        match rest with
        | d :: _ => if (d =? 48) || (d =? 49) then check_escapes rest else Throw (parse_error 108)
        | [] => Throw (parse_error 108)
        end
      else check_escapes rest
  end.

(** The text up to the next slash, and what follows it. *)
Fixpoint next_token (s : bytes) : bytes * option bytes :=
  match s with
  | [] => ([], None)
  | c :: s => if c =? 47 then ([], Some s) else let '(t, rest) := next_token s in (c :: t, rest)
  end.

(** [s] is the reference string from [start] on. *)
Fixpoint split_loop (fuel : nat) (s : bytes) (result : json_pointer) : comp json_pointer :=
  match fuel with
  | O => OutOfFuel
  | S fuel =>
      let '(reference_token, rest) := next_token s in
      let* _ := check_escapes reference_token in
      let result := result ++ [unescape reference_token] in
      match rest with
      | None => Ret result
      | Some s => split_loop fuel s result
      end
  end.

Definition split (reference_string : bytes) : comp json_pointer :=
  match reference_string with
  | [] => Ret []
  | c :: s => if c =? 47 then split_loop (length reference_string) s [] else Throw (parse_error 107)
  end.

(** ** Modifiers *)

Definition push_back (p : json_pointer) (token : bytes) : json_pointer := p ++ [token].
Definition append (p q : json_pointer) : json_pointer := p ++ q.
Definition append_index (p : json_pointer) (i : Z) : json_pointer := push_back p (to_dec i).
Definition pop_back (p : json_pointer) : comp json_pointer :=
  match p with [] => Throw (out_of_range 405) | _ => Ret (take (length p - 1) p) end.
Definition back (p : json_pointer) : comp bytes :=
  match last p with Some t => Ret t | None => Throw (out_of_range 405) end.
Definition parent_pointer (p : json_pointer) : comp json_pointer :=
  match p with [] => Ret [] | _ => pop_back p end.

(** ** Comparison *)

Definition pointer_eqb (lhs rhs : json_pointer) : bool := bool_decide (lhs = rhs).

(** With a string, which is read as a pointer first. *)
Definition pointer_eqb_string (lhs : json_pointer) (rhs : bytes) : comp bool :=
  let* rhs := split rhs in Ret (pointer_eqb lhs rhs).
Definition pointer_neb (lhs rhs : json_pointer) : bool := negb (pointer_eqb lhs rhs).
Definition pointer_neb_string (lhs : json_pointer) (rhs : bytes) : comp bool :=
  let* b := pointer_eqb_string lhs rhs in Ret (negb b).

(** [operator<] of [std::vector<std::string>]. *)
Fixpoint pointer_ltb (lhs rhs : json_pointer) : bool :=
  match lhs, rhs with
  | _, [] => false
  | [], _ :: _ => true
  | t :: lhs, u :: rhs => if key_ltb t u then true else if key_ltb u t then false else pointer_ltb lhs rhs
  end.

(** ** Access *)

Definition SIZE_TYPE_MAX : Z := 2 ^ 64 - 1.

Definition array_index (s : bytes) : comp Z :=
  let long := (1 <? length s)%nat in
  let c := match s with c :: _ => c | [] => 0 end in
  if long && (c =? 48) then Throw (parse_error 106)
  else if long && negb (in_range 49 57 c) then Throw (parse_error 109)
  else
    let r := strtoull s in
    if (st_end r =? 0)%nat || st_erange r || negb (st_end r =? length s)%nat then Throw (out_of_range 404)
    else if SIZE_TYPE_MAX <=? st_value r then Throw (out_of_range 410)
    else Ret (st_value r).

Section Access.
Context {F : Type}.

(** [at] of a key and of an index. *)
Definition at_key (j : json F) (k : bytes) : comp (json F) :=
  match j with
  | value_object m => match object_find k m with Some v => Ret v | None => Throw (out_of_range 403) end
  | _ => Throw (type_error 304)
  end.
Definition at_index (j : json F) (i : Z) : comp (json F) :=
  match j with
  | value_array l => match l !! Z.to_nat i with Some v => Ret v | None => Throw (out_of_range 401) end
  | _ => Throw (type_error 304)
  end.

Fixpoint get_checked (p : json_pointer) (j : json F) : comp (json F) :=
  match p with
  | [] => Ret j
  | reference_token :: p =>
      match j with
      | value_object _ => let* j := at_key j reference_token in get_checked p j
      | value_array _ =>
          if decide (reference_token = str "-") then Throw (out_of_range 402)
          else
            let* i := array_index reference_token in
            let* j := at_index j i in
            get_checked p j
      | _ => Throw (out_of_range 404)
      end
  end.

(** The tests of [contains] on a token for an array. *)
Definition index_like (s : bytes) : bool :=
  match s with
  | [] => true
  | [c] => in_range 48 57 c
  | c :: s => in_range 49 57 c && forallb (in_range 48 57) s
  end.

Fixpoint contains (p : json_pointer) (j : json F) : comp bool :=
  match p with
  | [] => Ret true
  | reference_token :: p =>
      match j with
      | value_object m =>
          match object_find reference_token m with
          | None => Ret false
          | Some j => contains p j
          end
      | value_array l =>
          if decide (reference_token = str "-") then Ret false
          else if negb (index_like reference_token) then Ret false
          else
            let* i := array_index reference_token in
            match l !! Z.to_nat i with
            | None => Ret false
            | Some j => contains p j
            end
      | _ => Ret false
      end
  end.
End Access.

Example split_ex : split (str "/a~1b//m~0n") = Ret [str "a/b"; []; str "m~n"].
Proof. vm_compute. reflexivity. Qed.
Example to_string_ex : to_string [str "a/b"; []; str "m~n"] = str "/a~1b//m~0n".
Proof. vm_compute. reflexivity. Qed.

(** ** Escaping is exact *)

Definition esc (c : Z) : bytes := if c =? 126 then [126; 48] else if c =? 47 then [126; 49] else [c].

(** The text between the two passes of [unescape]. *)
Definition esc_tilde (c : Z) : bytes := if c =? 126 then [126; 48] else [c].

Lemma is_prefix_1 a c s : is_prefix [a] (c :: s) = (c =? a).
Proof.
  unfold is_prefix. destruct (Z.eqb_spec c a) as [->|Hc]; [by apply bool_decide_eq_true|].
  apply bool_decide_eq_false. simpl. congruence.
Qed.

Lemma is_prefix_2 a b c s : is_prefix [a; b] (c :: s) = (c =? a) && match s with d :: _ => d =? b | [] => false end.
Proof.
  unfold is_prefix. destruct s as [|d s]; simpl.
  - rewrite andb_false_r. by apply bool_decide_eq_false.
  - destruct (Z.eqb_spec c a) as [->|Hc], (Z.eqb_spec d b) as [->|Hd]; simpl;
      [by apply bool_decide_eq_true|apply bool_decide_eq_false; congruence..].
Qed.

Lemma replace_char a t s : replace_substring s [a] t = flat_map (fun c => if c =? a then t else [c]) s.
Proof.
  unfold replace_substring. induction s as [|c s IH]; [done|].
  cbn [replace_from flat_map]. rewrite is_prefix_1, <- IH. by destruct (c =? a).
Qed.

Lemma escape_esc s : escape s = flat_map esc s.
Proof.
  unfold escape. change (str "~") with [126]. change (str "/") with [47]. rewrite !replace_char.
  induction s as [|c s IH]; [done|]. cbn [flat_map]. rewrite flat_map_app, IH. unfold esc.
  destruct (Z.eqb_spec c 126) as [->|H1]; [done|]. simpl. by destruct (c =? 47).
Qed.

Lemma unescape_esc u : unescape (flat_map esc u) = u.
Proof.
  unfold unescape, replace_substring. change (str "~1") with [126; 49]. change (str "~0") with [126; 48].
  change (str "~") with [126]. change (str "/") with [47]. cbv zeta.
  assert (replace_from [126; 49] [47] (flat_map esc u) 0 = flat_map esc_tilde u) as ->.
  { induction u as [|c u IH]; [done|]. cbn [flat_map]. unfold esc at 1, esc_tilde at 1.
    destruct (Z.eqb_spec c 126) as [->|H1]; [|destruct (Z.eqb_spec c 47) as [->|H2]].
    - cbn [app replace_from]. rewrite !is_prefix_2. simpl. by rewrite IH.
    - cbn [app replace_from]. rewrite !is_prefix_2. simpl. by rewrite IH.
    - cbn [app replace_from]. rewrite is_prefix_2. destruct (Z.eqb_spec c 126); [done|]. simpl. by rewrite IH. }
  induction u as [|c u IH]; [done|]. cbn [flat_map]. unfold esc_tilde at 1.
  destruct (Z.eqb_spec c 126) as [->|H1].
  - cbn [app replace_from]. rewrite is_prefix_2. simpl. by rewrite IH.
  - cbn [app replace_from]. rewrite is_prefix_2. destruct (Z.eqb_spec c 126); [done|]. simpl. by rewrite IH.
Qed.

Lemma esc_no_slash u : 47 ∉ flat_map esc u.
Proof.
  induction u as [|c u IH]; [apply not_elem_of_nil|]. cbn [flat_map]. apply not_elem_of_app. split; [|done].
  unfold esc. destruct (Z.eqb_spec c 126); [|destruct (Z.eqb_spec c 47)]; set_solver.
Qed.

Lemma check_esc u : check_escapes (flat_map esc u) = Ret tt.
Proof.
  induction u as [|c u IH]; [done|]. cbn [flat_map]. unfold esc at 1.
  destruct (Z.eqb_spec c 126) as [->|H1]; [|destruct (Z.eqb_spec c 47) as [->|H2]]; [done|done|].
  cbn [app check_escapes]. destruct (Z.eqb_spec c 126); [done|]. exact IH.
Qed.

(** A token that passes the check is the escape of some token. *)
Lemma check_escapes_inv n : forall t, (length t <= n)%nat -> 47 ∉ t ->
  (exists u, t = flat_map esc u) \/ check_escapes t = Throw (parse_error 108).
Proof.
  induction n as [|n IH]; intros t Hn Hs.
  { destruct t; [left; by exists []|simpl in Hn; lia]. }
  destruct t as [|c t]; [left; by exists []|]. simpl in Hn. apply not_elem_of_cons in Hs as [Hc Hs].
  cbn [check_escapes]. destruct (Z.eqb_spec c 126) as [->|H1].
  - destruct t as [|d t]; [by right|]. simpl in Hn. apply not_elem_of_cons in Hs as [_ Hs].
    destruct (Z.eqb_spec d 48) as [->|H2]; [|destruct (Z.eqb_spec d 49) as [->|H3]]; [..|by right];
      (destruct (IH t) as [[u ->]|E]; [lia|done|..]).
    + left. by exists (126 :: u).
    + by right.
    + left. by exists (47 :: u).
    + by right.
  - destruct (IH t) as [[u ->]|E]; [lia|done|left|by right]. exists (c :: u). cbn [flat_map].
    assert (esc c = [c]) as ->; [|done]. unfold esc. destruct (Z.eqb_spec c 126); [done|].
    by destruct (Z.eqb_spec c 47); [congruence|].
Qed.

(** ** Printing and reading *)

Lemma to_string_flat p : to_string p = flat_map (fun t => 47 :: flat_map esc t) p.
Proof.
  unfold to_string. assert (forall p a, fold_left (fun a b => a ++ str "/" ++ escape b) p a =
    a ++ flat_map (fun t => 47 :: flat_map esc t) p) as H; [|apply H].
  clear p. induction p as [|t p IH]; intros a; cbn [fold_left flat_map]; [by rewrite app_nil_r|].
  rewrite IH, escape_esc, <- !app_assoc. done.
Qed.

Lemma next_token_spec s : let '(t, rest) := next_token s in
  47 ∉ t /\ s = t ++ match rest with None => [] | Some r => 47 :: r end.
Proof.
  induction s as [|c s IH]; cbn [next_token]; [split; [apply not_elem_of_nil|done]|].
  destruct (Z.eqb_spec c 47) as [->|Hc]; [split; [apply not_elem_of_nil|done]|].
  destruct (next_token s) as [t rest]. destruct IH as [Hn ->]. split; [by apply not_elem_of_cons|done].
Qed.

Lemma next_token_app t r : 47 ∉ t -> next_token (t ++ 47 :: r) = (t, Some r).
Proof.
  induction t as [|c t IH]; intros Hn; [done|]. apply not_elem_of_cons in Hn as [Hc Hn]. cbn [app next_token].
  destruct (Z.eqb_spec c 47); [congruence|]. by rewrite IH.
Qed.

Lemma next_token_last t : 47 ∉ t -> next_token t = (t, None).
Proof.
  induction t as [|c t IH]; intros Hn; [done|]. apply not_elem_of_cons in Hn as [Hc Hn]. cbn [next_token].
  destruct (Z.eqb_spec c 47); [congruence|]. by rewrite IH.
Qed.

Lemma split_loop_print p : forall t fuel acc, (length p < fuel)%nat ->
  split_loop fuel (flat_map esc t ++ flat_map (fun t => 47 :: flat_map esc t) p) acc = Ret (acc ++ t :: p).
Proof.
  induction p as [|t' p IH]; intros t fuel acc Hf; (destruct fuel as [|fuel]; [lia|]); cbn [split_loop flat_map].
  - rewrite app_nil_r, next_token_last, check_esc, unescape_esc by apply esc_no_slash. done.
  - cbn [app]. rewrite next_token_app, check_esc, unescape_esc by apply esc_no_slash. cbn [comp_bind].
    rewrite IH by (simpl in Hf; lia). by rewrite <- app_assoc.
Qed.

Lemma split_loop_read fuel : forall s acc, (length s < fuel)%nat ->
  (exists t p, s = flat_map esc t ++ flat_map (fun t => 47 :: flat_map esc t) p /\
     split_loop fuel s acc = Ret (acc ++ t :: p)) \/
  split_loop fuel s acc = Throw (parse_error 108).
Proof.
  induction fuel as [|fuel IH]; intros s acc Hf; [lia|]. cbn [split_loop].
  pose proof (next_token_spec s) as Hs. destruct (next_token s) as [t rest]. destruct Hs as [Hn Hs].
  destruct (check_escapes_inv (length t) t ltac:(lia) Hn) as [[u ->]|E]; [|right; by rewrite E].
  rewrite check_esc, unescape_esc. cbn [comp_bind]. destruct rest as [r|].
  - destruct (IH r (acc ++ [u])) as [(t & p & -> & E)|E]; [|left|right; by rewrite E].
    { rewrite Hs, length_app in Hf. simpl in Hf. lia. }
    exists u, (t :: p). split; [done|]. by rewrite E, <- app_assoc.
  - left. exists u, []. by split.
Qed.

Lemma flat_length (p : json_pointer) : (length p <= length (flat_map (fun t => 47%Z :: flat_map esc t) p))%nat.
Proof. induction p as [|t p IH]; [done|]. cbn [flat_map]. rewrite length_app. simpl. lia. Qed.

Lemma split_to_string p : split (to_string p) = Ret p.
Proof.
  rewrite to_string_flat. destruct p as [|t p]; [done|]. cbn [flat_map app split]. simpl (47 =? 47). cbv iota.
  rewrite split_loop_print; [done|]. simpl. rewrite length_app. pose proof (flat_length p). lia.
Qed.

Lemma split_cases s : (exists p, split s = Ret p /\ to_string p = s) \/ split s = Throw (parse_error 107) \/
  split s = Throw (parse_error 108).
Proof.
  destruct s as [|c s]; [left; by exists []|]. cbn [split]. destruct (Z.eqb_spec c 47) as [->|Hc]; [|auto].
  destruct (split_loop_read (length (47 :: s)) s [] ltac:(simpl; lia)) as [(t & p & E & E')|E']; [left|auto].
  exists (t :: p). split; [by rewrite E'|]. rewrite to_string_flat. cbn [flat_map]. by rewrite E.
Qed.

Lemma split_exact s p : split s = Ret p <-> to_string p = s.
Proof.
  split; [|intros <-; apply split_to_string]. intros E. destruct (split_cases s) as [(q & Eq & Et)|[Eq|Eq]]; congruence.
Qed.

(** A [~] that escapes nothing: neither 0 nor 1 follows. *)
Definition bad_tilde (s : bytes) : Prop :=
  exists a b, s = a ++ 126 :: b /\ hd (-1) b <> 48 /\ hd (-1) b <> 49.

Fixpoint tildes_ok (s : bytes) : bool :=
  match s with
  | [] => true
  | c :: s' => (if c =? 126 then (hd (-1) s' =? 48) || (hd (-1) s' =? 49) else true) && tildes_ok s'
  end.

Lemma tildes_ok_spec s : tildes_ok s = false <-> bad_tilde s.
Proof.
  unfold bad_tilde. induction s as [|c s IH]; cbn [tildes_ok].
  { split; [done|]. by intros ([|] & b & [=] & _). }
  rewrite andb_false_iff, IH. split.
  - intros [E|(a & b & -> & Hb)]; [|by exists (c :: a), b]. destruct (Z.eqb_spec c 126) as [->|]; [|done].
    rewrite orb_false_iff, !Z.eqb_neq in E. by exists [], s.
  - intros ([|d a] & b & [= -> ->] & Hb); [left|right; by exists a, b]. simpl. by rewrite orb_false_iff, !Z.eqb_neq.
Qed.

Lemma tildes_ok_esc u x : tildes_ok (flat_map esc u ++ x) = tildes_ok x.
Proof.
  induction u as [|c u IH]; [done|]. cbn [flat_map]. rewrite <- app_assoc. unfold esc at 1.
  destruct (Z.eqb_spec c 126) as [->|H1]; [exact IH|]. destruct (Z.eqb_spec c 47) as [->|H2]; [exact IH|].
  cbn [app tildes_ok]. destruct (Z.eqb_spec c 126); [done|]. exact IH.
Qed.

Lemma tildes_ok_text p : tildes_ok (to_string p) = true.
Proof.
  rewrite to_string_flat. induction p as [|t p IH]; [done|]. cbn [flat_map app tildes_ok]. by rewrite tildes_ok_esc.
Qed.

Lemma check_escapes_bad t x : hd (-1) x <> 48 -> hd (-1) x <> 49 -> check_escapes t = Throw (parse_error 108) ->
  tildes_ok (t ++ x) = false.
Proof.
  intros H0 H1. induction t as [|c t IH]; [done|]. cbn [check_escapes app tildes_ok].
  destruct (Z.eqb_spec c 126) as [->|]; [|by intros ->%IH]. destruct t as [|d t].
  - intros _. cbn [app]. rewrite andb_false_iff, orb_false_iff, !Z.eqb_neq. by left.
  - destruct ((d =? 48) || (d =? 49)) eqn:E; [|by cbn [app hd]; rewrite E].
    intros Hc%IH. cbn [app hd] in *. by rewrite Hc, andb_false_r.
Qed.

Lemma tildes_ok_suffix a b : tildes_ok b = false -> tildes_ok (a ++ b) = false.
Proof. intros Hb. induction a as [|c a IH]; [done|]. cbn [app tildes_ok]. by rewrite IH, andb_false_r. Qed.

Lemma split_loop_bad fuel : forall s acc, split_loop fuel s acc = Throw (parse_error 108) -> tildes_ok s = false.
Proof.
  induction fuel as [|fuel IH]; intros s acc E; [done|]. cbn [split_loop] in E.
  pose proof (next_token_spec s) as Hs. destruct (next_token s) as [t rest]. destruct Hs as [Hn ->].
  destruct (check_escapes_inv (length t) t ltac:(lia) Hn) as [[u ->]|Et].
  - rewrite check_esc in E. cbn [comp_bind] in E. destruct rest as [r|]; [|done].
    rewrite tildes_ok_esc. cbn [tildes_ok]. by eapply IH.
  - apply check_escapes_bad; [by destruct rest..|done].
Qed.

(** C25: reading is the inverse of printing, exactly: [json_pointer(s)] has
    the tokens [p] if and only if [p.to_string()] is [s], for all byte
    strings; it throws [parse_error.107] exactly for a non-empty string that
    does not start with a slash, and [parse_error.108] exactly for one that does and in
    which a [~] is not followed by 0 or 1; these are all the outcomes. *)
Theorem pointer_text_exact s :
  (forall p, split s = Ret p <-> to_string p = s) /\
  ((exists p, split s = Ret p) \/ split s = Throw (parse_error 107) \/ split s = Throw (parse_error 108)) /\
  (split s = Throw (parse_error 107) <-> exists c r, s = c :: r /\ c <> 47) /\
  (split s = Throw (parse_error 108) <-> hd (-1) s = 47 /\ bad_tilde s).
Proof.
  pose proof (split_cases s) as Hcases. split_and!; [apply split_exact|naive_solver|..].
  - destruct s as [|c s]; [naive_solver|]. cbn [split]. destruct (Z.eqb_spec c 47) as [->|Hc]; [|naive_solver].
    split; [|naive_solver]. intros E.
    destruct (split_loop_read (length (47 :: s)) s [] ltac:(simpl; lia)) as [(t & p & _ & E')|E']; by rewrite E' in E.
  - rewrite <- tildes_ok_spec. split.
    + destruct s as [|c s]; [done|]. cbn [split hd]. destruct (Z.eqb_spec c 47) as [->|Hc]; [|done].
      intros E. split; [done|]. cbn [tildes_ok]. by eapply split_loop_bad.
    + intros [Hh Hb]. destruct Hcases as [(p & _ & Ep)|[Ep|Ep]]; [|exfalso|done].
      * rewrite <- Ep in Hb. by rewrite tildes_ok_text in Hb.
      * destruct s as [|c s]; [done|]. cbn [split hd] in *. subst c. rewrite Z.eqb_refl in Ep.
        destruct (split_loop_read (length (47 :: s)) s [] ltac:(simpl; lia)) as [(t & p & _ & E')|E']; by rewrite E' in Ep.
Qed.

(** ** Comparison *)

(** Two pointers are equal to the same string if they are equal. *)
Lemma pointer_eqb_text p s : pointer_eqb_string p s = Ret true <-> to_string p = s.
Proof.
  unfold pointer_eqb_string, pointer_eqb. rewrite <- split_exact. destruct (split_cases s) as [(q & -> & _)|[-> | ->]]; [|done..].
  cbn [comp_bind]. case_bool_decide; naive_solver.
Qed.

Lemma pointer_ltb_irrefl p : pointer_ltb p p = false.
Proof. induction p as [|t p IH]; [done|]. simpl. by rewrite key_ltb_irrefl. Qed.

Lemma pointer_ltb_total p q : p <> q -> pointer_ltb p q = false -> pointer_ltb q p = true.
Proof.
  revert q. induction p as [|t p IH]; intros [|u q] Hne; simpl; try done.
  destruct (key_ltb t u) eqn:E1; [done|]. destruct (key_ltb u t) eqn:E2; [done|]. destruct (decide (t = u)) as [->|Htu].
  - apply IH. congruence.
  - apply key_ltb_total in E1; [|done]. unfold key_lt in E1. congruence.
Qed.

(** The pointers to the values inside a value are greater than its own. *)
Lemma pointer_ltb_append p q : q <> [] -> pointer_ltb p (append p q) = true.
Proof. unfold append. intros Hq. induction p as [|t p IH]; [by destruct q|]. simpl. by rewrite key_ltb_irrefl. Qed.

(** ** Array indices *)

Lemma take_digits_length s : length (take_digits s) = length s -> all_digits s.
Proof.
  induction s as [|c s IH]; simpl; [constructor|]. destruct (is_digit c) eqn:E; [|done]. simpl. intros [= Hl].
  constructor; [by apply is_digit_spec|by apply IH].
Qed.

(** A number without leading zero, as [to_dec] prints it. *)
Definition plain_number (s : bytes) : Prop :=
  all_digits s /\ s <> [] /\ (head s = Some 48 -> length s = 1%nat).

Lemma to_dec_dec_value s : plain_number s -> to_dec (dec_value s) = s /\ (head s <> Some 48 -> 0 < dec_value s).
Proof.
  intros (Hd & Hne & Hz). revert Hne Hz. induction s as [|d s IH] using rev_ind; intros Hne Hz; [done|].
  apply Forall_app in Hd as [Hs Hd]. inversion Hd as [|? ? Hd' _]; subst. rewrite dec_value_snoc.
  destruct s as [|c s].
  - change (dec_value []) with 0. simpl. rewrite to_dec_small by lia. split; [f_equal; lia|].
    intros Hh. assert (d <> 48) by congruence. lia.
  - assert (c <> 48) as Hc.
    { intros ->. specialize (Hz eq_refl). rewrite length_app in Hz. simpl in Hz. lia. }
    destruct IH as [IH1 IH2]; [done|done|simpl; congruence|].
    assert (0 < dec_value (c :: s)) by (apply IH2; simpl; congruence).
    rewrite to_dec_step by lia.
    replace ((dec_value (c :: s) * 10 + (d - 48)) / 10) with (dec_value (c :: s)) by dlia.
    replace ((dec_value (c :: s) * 10 + (d - 48)) mod 10) with (d - 48) by dlia.
    rewrite IH1. split; [do 2 f_equal; lia|lia].
Qed.

Lemma strtoull_complete s : (st_end (strtoull s) =? 0)%nat = false -> (st_end (strtoull s) =? length s)%nat = true ->
  (length s = 1%nat \/ exists c, head s = Some c /\ 49 <= c <= 57) -> all_digits s.
Proof.
  intros H0 Hl [H1|(c & Hc & Hr)].
  - destruct s as [|c [|]]; try done. unfold strtoull in *. cbn [skip_space] in *.
    destruct (is_space c); [done|]. destruct (split_sign [c]) as [neg s2] eqn:Es.
    assert (s2 = [c] \/ s2 = []) as [-> | ->].
    { unfold split_sign in Es. destruct c as [|p|p]; [naive_solver| |naive_solver].
      repeat (destruct p as [p|p|]; try (by injection Es as <- <-; auto)). }
    + cbn [take_digits] in *. destruct (is_digit c) eqn:Ed; [|done]. repeat constructor; by apply is_digit_spec.
    + done.
  - destruct s as [|c' s]; [done|]. injection Hc as ->. unfold strtoull in *.
    assert (is_space c = false) as Hsp.
    { unfold is_space. rewrite in_range_out by lia. by destruct (Z.eqb_spec c 32); [lia|]. }
    cbn [skip_space] in *. rewrite Hsp in *.
    assert (split_sign (c :: s) = (false, c :: s)) as Es.
    { unfold split_sign. destruct c as [|p|p]; try done. do 6 (destruct p as [p|p|]; try done); lia. }
    rewrite Es in *. apply take_digits_length.
    destruct (take_digits (c :: s)) as [|d ds] eqn:Ed; [done|].
    destruct (ULLONG_MAX <? dec_value (d :: ds)); cbn [st_end] in Hl; apply Nat.eqb_eq in Hl; simpl in *; lia.
Qed.

(** [array_index] accepts exactly what [to_dec] prints below the maximum. *)
Lemma array_index_exact s i : array_index s = Ret i <-> s = to_dec i /\ 0 <= i < SIZE_TYPE_MAX.
Proof.
  unfold array_index. split.
  - destruct s as [|c s]; [done|].
    destruct ((1 <? length (c :: s))%nat) eqn:El; cbn [andb].
    + destruct (Z.eqb_spec c 48); [done|]. destruct (in_range 49 57 c) eqn:Er; [|done]. cbn [negb].
      apply in_range_spec in Er.
      destruct (st_end (strtoull (c :: s)) =? 0)%nat eqn:E0; [done|].
      destruct (st_erange (strtoull (c :: s))) eqn:E1; [done|]. cbn [orb].
      destruct (st_end (strtoull (c :: s)) =? length (c :: s))%nat eqn:E2; [|done]. cbn [negb].
      pose proof (strtoull_complete _ E0 E2 (or_intror (ex_intro _ c (conj eq_refl Er)))) as Hd.
      rewrite (strtoull_digits _ Hd) in * by done.
      destruct (ULLONG_MAX <? dec_value (c :: s)); [done|]. cbn [st_value].
      destruct (Z.leb_spec SIZE_TYPE_MAX (dec_value (c :: s))); [done|]. intros [= <-].
      pose proof (dec_value_nonneg _ Hd).
      destruct (to_dec_dec_value (c :: s)) as [-> _]; [|done]. split_and!; [done|done|]. simpl. congruence.
    + apply Nat.ltb_ge in El. destruct s; [|simpl in El; lia].
      destruct (st_end (strtoull [c]) =? 0)%nat eqn:E0; [done|].
      destruct (st_erange (strtoull [c])) eqn:E1; [done|]. cbn [orb].
      destruct (st_end (strtoull [c]) =? length [c])%nat eqn:E2; [|done]. cbn [negb].
      pose proof (strtoull_complete _ E0 E2 (or_introl eq_refl)) as Hd.
      rewrite (strtoull_digits _ Hd) in * by done.
      destruct (ULLONG_MAX <? dec_value [c]); [done|]. cbn [st_value].
      destruct (Z.leb_spec SIZE_TYPE_MAX (dec_value [c])); [done|]. intros [= <-].
      pose proof (dec_value_nonneg _ Hd).
      destruct (to_dec_dec_value [c]) as [-> _]; [|done]. split_and!; done.
  - intros [-> Hi]. pose proof (to_dec_digits i ltac:(lia)) as Hd. pose proof (to_dec_nonempty i ltac:(lia)) as Hne.
    rewrite (strtoull_digits _ Hd Hne), dec_value_to_dec by lia. unfold SIZE_TYPE_MAX, ULLONG_MAX in *.
    destruct (Z.ltb_spec (2 ^ 64 - 1) i); [lia|]. cbn [st_end st_erange st_value]. rewrite Nat.eqb_refl.
    destruct (Z.leb_spec (2 ^ 64 - 1) i); [lia|].
    assert ((length (to_dec i) =? 0)%nat = false) as -> by (by destruct (to_dec i)). cbn [orb negb].
    destruct (Z.eq_dec i 0) as [->|Hnz]; [done|].
    destruct (to_dec_head i ltac:(lia)) as (d & ds & E & Hr & _). rewrite E.
    destruct (Z.eqb_spec d 48); [lia|]. rewrite in_range_true by lia.
    by rewrite !andb_false_r.
Qed.

(** ** Resolution *)

Section Resolution.
Context {F : Type}.

(** The reference token of a step into a value. *)
Definition token_of (s : pstep) : bytes :=
  match s with PIdx i => to_dec (Z.of_nat i) | PKey k => k end.

Definition step_ok (s : pstep) : Prop :=
  match s with PIdx i => Z.of_nat i < SIZE_TYPE_MAX | PKey _ => True end.

Lemma dash_no_index i : array_index (str "-") <> Ret i.
Proof. done. Qed.

Lemma resolve_array p (l : list (json F)) t v :
  get_checked (t :: p) (value_array l) = Ret v <->
  exists i w, t = to_dec (Z.of_nat i) /\ Z.of_nat i < SIZE_TYPE_MAX /\ l !! i = Some w /\ get_checked p w = Ret v.
Proof.
  cbn [get_checked]. split.
  - case_decide; [done|]. intros E. apply comp_bind_ret in E as (i & Ei & E). apply array_index_exact in Ei as [-> Hi].
    apply comp_bind_ret in E as (w & Ew & E). cbn [at_index] in Ew.
    destruct (l !! Z.to_nat i) as [w'|] eqn:El; [|done]. injection Ew as ->.
    exists (Z.to_nat i), w. rewrite Z2Nat.id by lia. split_and!; try done. lia.
  - intros (i & w & -> & Hi & El & E). rewrite decide_False.
    + rewrite (proj2 (array_index_exact (to_dec (Z.of_nat i)) (Z.of_nat i))) by (split; [done|lia]).
      cbn [comp_bind at_index]. by rewrite Nat2Z.id, El.
    + intros Hd. apply (dash_no_index (Z.of_nat i)). rewrite <- Hd. apply array_index_exact. split; [done|lia].
Qed.

(** Resolving a pointer is following a path: [get_checked] returns [v]
    exactly when the tokens are those of a path of keys and indices that
    leads to [v].  Indices are accepted in one spelling only (no leading
    zero, sign or space), so the path is determined by the pointer. *)
Theorem pointer_resolves p (j v : json F) :
  get_checked p j = Ret v <->
  exists path, map token_of path = p /\ Forall step_ok path /\ path_get j path = Some v.
Proof.
  revert j. induction p as [|t p IH]; intros j.
  { split; [intros [= <-]; by exists []|]. intros (path & Em & _ & E). apply map_eq_nil in Em as ->.
    simpl in E. simpl. congruence. }
  assert (forall s w, token_of s = t -> step_ok s -> step_get j s = Some w -> get_checked p w = Ret v ->
    exists path, map token_of path = t :: p /\ Forall step_ok path /\ path_get j path = Some v) as Hstep.
  { intros s w <- Hs Hg E. apply IH in E as (path & <- & Hf & E). exists (s :: path). simpl. rewrite Hg.
    split_and!; auto. }
  split.
  - destruct j as [|m|l| | | | | | |]; try done.
    + cbn [get_checked at_key]. destruct (object_find t m) as [w|] eqn:Ef; [|done]. cbn [comp_bind]. intros E.
      by apply (Hstep (PKey t) w).
    + rewrite resolve_array. intros (i & w & -> & Hi & El & E). by apply (Hstep (PIdx i) w).
  - intros ([|s path] & Em & Hf & E); [done|]. injection Em as <- Em. inversion Hf; subst.
    simpl in E. destruct (step_get j s) as [w|] eqn:Eg; [|done].
    assert (get_checked (map token_of path) w = Ret v) as Hw by (apply IH; by exists path).
    destruct s as [i|k], j as [|m|l| | | | | | |]; try done.
    + apply resolve_array. by exists i, w.
    + cbn [get_checked at_key token_of]. simpl in Eg. by rewrite Eg.
Qed.

Lemma index_like_to_dec n : 0 <= n -> index_like (to_dec n) = true.
Proof.
  intros Hn. destruct (Z.eq_dec n 0) as [->|Hnz]; [done|].
  destruct (to_dec_head n ltac:(lia)) as (d & ds & -> & Hd & Hds). unfold index_like.
  destruct ds as [|d' ds]; [apply in_range_true; lia|]. rewrite in_range_true, andb_true_l by lia.
  apply forallb_forall. intros x Hx. apply in_range_true. apply (proj1 (Forall_forall _ _) Hds).
  by apply list_elem_of_In.
Qed.

Lemma array_index_like s : index_like s = true ->
  match array_index s with
  | Ret _ => True
  | Throw e => e = out_of_range 404 \/ e = out_of_range 410
  | OutOfFuel => False
  end.
Proof.
  intros Hs. unfold array_index.
  assert ((1 <? length s)%nat && ((match s with c :: _ => c | [] => 0 end) =? 48) = false) as ->.
  { destruct s as [|c [|d s]]; [done..|]. cbn [index_like] in Hs. apply andb_true_iff in Hs as [Hc _].
    apply in_range_spec in Hc. destruct (Z.eqb_spec c 48); [lia|]. by rewrite andb_false_r. }
  assert ((1 <? length s)%nat && negb (in_range 49 57 (match s with c :: _ => c | [] => 0 end)) = false) as ->.
  { destruct s as [|c [|d s]]; [done..|]. cbn [index_like] in Hs. apply andb_true_iff in Hs as [-> _].
    by rewrite andb_false_r. }
  destruct (_ || _); [auto|]. destruct (_ <=? _); auto.
Qed.

(** [contains] agrees with the checked access: it returns [true]
    exactly for the pointers that resolve; and the only exceptions it can
    throw are [out_of_range.404] and [out_of_range.410]. *)
Theorem contains_iff_resolves p (j : json F) :
  (contains p j = Ret true <-> exists v, get_checked p j = Ret v) /\
  match contains p j with
  | Ret _ => True
  | Throw e => e = out_of_range 404 \/ e = out_of_range 410
  | OutOfFuel => False
  end.
Proof.
  revert j. induction p as [|t p IH]; intros j; [split; [split; eauto|done]|].
  destruct j as [|m|l| | | | | | |]; try (split; [split; [done|by intros [??]]|done]).
  - cbn [contains get_checked at_key]. destruct (object_find t m) as [w|]; [apply IH|].
    split; [split; [done|by intros [??]]|done].
  - assert (forall v, get_checked (t :: p) (value_array l) = Ret v <-> _) as Hr by (intros; apply resolve_array).
    assert (contains (t :: p) (value_array l) = Ret true <->
      exists i w, t = to_dec (Z.of_nat i) /\ Z.of_nat i < SIZE_TYPE_MAX /\ l !! i = Some w /\ contains p w = Ret true)
      as Hc.
    { cbn [contains]. split.
      - case_decide; [done|]. destruct (index_like t); [|done]. simpl negb. cbv iota.
        intros E. apply comp_bind_ret in E as (i & Ei & E). apply array_index_exact in Ei as [-> Hi].
        destruct (l !! Z.to_nat i) as [w|] eqn:El; [|done]. exists (Z.to_nat i), w.
        rewrite Z2Nat.id by lia. split_and!; try done. lia.
      - intros (i & w & -> & Hi & El & E). rewrite decide_False.
        + rewrite index_like_to_dec by lia.
          rewrite (proj2 (array_index_exact (to_dec (Z.of_nat i)) (Z.of_nat i))) by (split; [done|lia]).
          cbn [comp_bind negb]. by rewrite Nat2Z.id, El.
        + intros Hd. apply (dash_no_index (Z.of_nat i)). rewrite <- Hd. apply array_index_exact. split; [done|lia]. }
    split.
    + rewrite Hc. setoid_rewrite Hr. split.
      * intros (i & w & H1 & H2 & H3 & E). apply IH in E as [v E]. by exists v, i, w.
      * intros (v & i & w & H1 & H2 & H3 & E). exists i, w. split_and!; try done. apply IH. by exists v.
    + cbn [contains]. case_decide; [done|]. destruct (index_like t) eqn:El; [|done]. simpl negb. cbv iota.
      pose proof (array_index_like t El) as Hi. destruct (array_index t) as [i|e|]; [|done|done]. cbn [comp_bind].
      destruct (l !! Z.to_nat i) as [w|]; [apply IH|done].
Qed.
Lemma get_checked_app p q (j : json F) : get_checked (p ++ q) j = let* v := get_checked p j in get_checked q v.
Proof.
  revert j. induction p as [|t p IH]; intros j; [done|].
  destruct j as [|m|l| | | | | | |]; cbn [app get_checked]; try done.
  - rewrite comp_bind_assoc. destruct (at_key _ t); cbn [comp_bind]; auto.
  - case_decide; [done|]. rewrite comp_bind_assoc. destruct (array_index t); cbn [comp_bind]; auto.
    rewrite comp_bind_assoc. destruct (at_index _ a); cbn [comp_bind]; auto.
Qed.

(** The modifiers: appending composes both the text and the value that
    is reached, and [pop_back], [back] and [parent_pointer] undo a
    [push_back]; on the root [pop_back] and [back] throw and the parent is
    the root itself. *)
Theorem pointer_modifiers p q t (j : json F) :
  to_string (append p q) = to_string p ++ to_string q /\
  get_checked (append p q) j = (let* v := get_checked p j in get_checked q v) /\
  pop_back (push_back p t) = Ret p /\ back (push_back p t) = Ret t /\ parent_pointer (push_back p t) = Ret p /\
  pop_back [] = Throw (out_of_range 405) /\ back [] = Throw (out_of_range 405) /\ parent_pointer [] = Ret [].
Proof.
  assert (pop_back (push_back p t) = Ret p) as Hpop.
  { unfold pop_back, push_back. destruct (p ++ [t]) as [|x l] eqn:E; [by destruct p|]. rewrite <- E.
    rewrite length_app. simpl. by rewrite Nat.add_sub, take_app_length. }
  split_and!; try done.
  - rewrite !to_string_flat. apply flat_map_app.
  - apply get_checked_app.
  - unfold back, push_back. by rewrite last_snoc.
  - unfold parent_pointer. destruct (push_back p t) as [|x l] eqn:E; [by destruct p|]. exact Hpop.
Qed.
End Resolution.

(** An empty token on an array throws, where the documentation names only
    exceptions that are never thrown. *)
Example contains_throws : contains [[]] (@value_array Z [value_null]) = Throw (out_of_range 404).
Proof. reflexivity. Qed.
