(* ===== verification/JsonConvert.v ===== *)
(** Conversions between JSON values and C++ values ([detail::to_json] and
    [detail::from_json] of [src/libephmem/json.hpp], [get], [get_ptr],
    [get_ref] and [value] of [basic_json]).

    The overloads are chosen by the C++ type, a template argument: [cpp_type]
    is the language of these types, [cpp_value] their values, and an overload
    set is a function by recursion on the type.  [T_vector] stands for every
    sequence with an inserter ([std::vector], [std::list], [std::deque]), of
    [bool] included; [T_map] for maps whose keys are strings, [T_int_map] for
    [std::map] with integer keys. *)
From S2P Require Import Prelude Utf8 JsonValue JsonCompare BinaryReader Ieee754 JsonPointer.

(** ** Types and values *)

(** [native] integers are [number_integer_t] and [number_unsigned_t]
    themselves, which have overloads of their own. *)
Inductive cpp_type : Set :=
  | T_nullptr
  | T_bool
  | T_int (w : Z) (signed native : bool)
  | T_enum (w : Z) (signed : bool)
  | T_double
  | T_string
  | T_binary
  | T_json
  | T_vector (t : cpp_type)
  | T_forward_list (t : cpp_type)
  | T_valarray (t : cpp_type)
  | T_array (t : cpp_type) (n : nat)        (* std::array *)
  | T_c_array (t : cpp_type) (n : nat)
  | T_map (t : cpp_type)
  | T_int_map (w : Z) (signed native : bool) (t : cpp_type)
  | T_pair (a b : cpp_type)
  | T_tuple (ts : list cpp_type).

Inductive cpp_value (F : Type) : Type :=
  | V_nullptr
  | V_bool (b : bool)
  | V_int (z : Z)
  | V_double (f : F)
  | V_string (s : bytes)
  | V_binary (b : bytes) (subtype : option Z)
  | V_json (j : json F)
  | V_seq (l : list (cpp_value F))
  | V_map (m : list (bytes * cpp_value F))
  | V_int_map (m : list (Z * cpp_value F)).
Arguments V_nullptr {F}.
Arguments V_bool {F} _.
Arguments V_int {F} _.
Arguments V_double {F} _.
Arguments V_string {F} _.
Arguments V_binary {F} _ _.
Arguments V_json {F} _.
Arguments V_seq {F} _.
Arguments V_map {F} _.
Arguments V_int_map {F} _.

(** The range of an integer type. *)
Definition int_min (w : Z) (signed : bool) : Z := if signed then - 2 ^ (w - 1) else 0.
Definition int_max (w : Z) (signed : bool) : Z := if signed then 2 ^ (w - 1) - 1 else 2 ^ w - 1.

(** [static_cast] between integer types. *)
Definition cast_int (w : Z) (signed : bool) (z : Z) : Z := if signed then to_signed w z else wrapu w z.

(** The integer part of a [double]; infinities and NaN have none. *)
Class FloatCast (F : Type) := { float_trunc : F -> option Z }.

Definition double_trunc (f : double) : option Z :=
  let p := pattern f in
  let e := exponent p in
  if e =? 2047 then None
  else
    let m := if e =? 0 then significand p else 2 ^ 52 + significand p in
    let z := if 1075 <=? e then Z.shiftl m (e - 1075) else Z.shiftr m (1075 - Z.max e 1) in
    Some (if sign_bit p then - z else z).

#[export] Instance double_cast : FloatCast double := { float_trunc := double_trunc }.

(** Numbers of the examples that are whole. *)
Definition example_cast : FloatCast Z := {| float_trunc z := Some z |}.

(** Conversions of all elements in order. *)
Fixpoint map_comp {A B} (f : A -> comp B) (l : list A) : comp (list B) :=
  match l with
  | [] => Ret []
  | x :: l => let* y := f x in let* ys := map_comp f l in Ret (y :: ys)
  end.

(** ** [to_json] *)

Section ToJson.
Context {F : Type}.
Implicit Types (j : json F) (v : cpp_value F).

(** [external_constructor]; what [j] held before is destroyed. *)
Definition construct_boolean (b : bool) : json F := value_boolean b.
Definition construct_string (s : bytes) : json F := value_string s.
Definition construct_binary (b : bytes) (subtype : option Z) : json F := value_binary b subtype.
Definition construct_float (f : F) : json F := value_number_float f.
Definition construct_unsigned (z : Z) : json F := value_number_unsigned z.
Definition construct_integer (z : Z) : json F := value_number_integer z.
Definition construct_array (l : list (json F)) : json F := value_array l.
Definition construct_object (m : list (bytes * json F)) : json F :=
  value_object (fold_left (fun m kv => object_emplace kv.1 kv.2 m) m []).

Definition to_json_int (signed : bool) (z : Z) : json F :=
  if signed then construct_integer (to_signed 64 z) else construct_unsigned (wrapu 64 z).

Definition to_json_enum (w : Z) (signed : bool) (z : Z) : json F :=
  if signed then construct_integer (cast_int w signed z) else construct_unsigned (cast_int w signed z).

(** [j = { p.first, p.second }] and [j = { std::get<Idx>(t)... }] build the
    value with the constructor for initializer lists. *)
Definition to_json_pair j1 j2 : json F := of_initializer_list [j1; j2].
Definition to_json_tuple (l : list (json F)) : json F :=
  match l with
  | [] => value_array []
  | _ => of_initializer_list l
  end.

(** [to_json] of an element of [items()]. *)
Definition to_json_item (k : bytes) j : json F := of_initializer_list [of_initializer_list [value_string k; j]].

(** A value that does not have the type is [value_discarded]. *)
Fixpoint to_json (t : cpp_type) v : json F :=
  match t, v with
  | T_nullptr, V_nullptr => value_null
  | T_bool, V_bool b => construct_boolean b
  | T_int _ signed _, V_int z => to_json_int signed z
  | T_enum w signed, V_int z => to_json_enum w signed z
  | T_double, V_double f => construct_float f
  | T_string, V_string s => construct_string s
  | T_binary, V_binary b s => construct_binary b s
  | T_json, V_json j => j
  | T_vector t, V_seq l | T_forward_list t, V_seq l | T_valarray t, V_seq l
  | T_array t _, V_seq l | T_c_array t _, V_seq l => construct_array (map (to_json t) l)
  | T_map t, V_map m => construct_object (map (fun kv => (kv.1, to_json t kv.2)) m)
  | T_int_map w signed _ t, V_int_map m =>
      construct_array (map (fun kv => to_json_pair (to_json_int signed kv.1) (to_json t kv.2)) m)
  | T_pair a b, V_seq [x; y] => to_json_pair (to_json a x) (to_json b y)
  | T_tuple ts, V_seq l => to_json_tuple (zip_with to_json ts l)
  | _, _ => value_discarded
  end.
End ToJson.

(** ** [from_json] *)

Section FromJson.
Context {F : Type} `{FloatCompare F, FloatCast F}.
Implicit Types (j : json F) (v : cpp_value F).

(** [static_cast] of a [double] to an integer type: undefined out of range. *)
Definition cast_float (w : Z) (signed : bool) (f : F) : comp Z :=
  match float_trunc f with
  | Some z => if in_range (int_min w signed) (int_max w signed) z then Ret z else Throw undefined_behaviour
  | None => Throw undefined_behaviour
  end.

Definition from_json_nullptr j : comp (cpp_value F) :=
  if negb (is_null j) then Throw (type_error 302) else Ret V_nullptr.

Definition from_json_boolean j : comp (cpp_value F) :=
  match j with value_boolean b => Ret (V_bool b) | _ => Throw (type_error 302) end.

Definition from_json_string j : comp (cpp_value F) :=
  match j with value_string s => Ret (V_string s) | _ => Throw (type_error 302) end.

Definition from_json_binary j : comp (cpp_value F) :=
  match j with value_binary b s => Ret (V_binary b s) | _ => Throw (type_error 302) end.

(** [get_arithmetic_value] *)
Definition get_arithmetic_value (w : Z) (signed : bool) j : comp Z :=
  match j with
  | value_number_unsigned z => Ret (cast_int w signed z)
  | value_number_integer z => Ret (cast_int w signed z)
  | value_number_float f => cast_float w signed f
  | _ => Throw (type_error 302)
  end.

Definition get_float_value j : comp F :=
  match j with
  | value_number_unsigned z => Ret (float_of_uint z)
  | value_number_integer z => Ret (float_of_int z)
  | value_number_float f => Ret f
  | _ => Throw (type_error 302)
  end.

(** The overload for the other arithmetic types, which takes booleans too. *)
Definition from_json_arithmetic (w : Z) (signed : bool) j : comp Z :=
  match j with
  | value_number_unsigned z => Ret (cast_int w signed z)
  | value_number_integer z => Ret (cast_int w signed z)
  | value_number_float f => cast_float w signed f
  | value_boolean b => Ret (if b then 1 else 0)
  | _ => Throw (type_error 302)
  end.

Definition from_json_int (w : Z) (signed native : bool) j : comp Z :=
  if native then get_arithmetic_value w signed j else from_json_arithmetic w signed j.

Definition from_json_enum (w : Z) (signed : bool) j : comp (cpp_value F) :=
  let* val := get_arithmetic_value w signed j in Ret (V_int val).

(** The elements, in order, or in reverse order for [forward_list]. *)
Definition from_json_array (get : json F -> comp (cpp_value F)) j : comp (cpp_value F) :=
  match j with
  | value_array l => let* vs := map_comp get l in Ret (V_seq vs)
  | _ => Throw (type_error 302)
  end.

Definition from_json_valarray (get : json F -> comp (cpp_value F)) j : comp (cpp_value F) :=
  match j with
  | value_array l => let* vs := map_comp get l in Ret (V_seq vs)
  | _ => Throw (type_error 302)
  end.

Definition from_json_forward_list (get : json F -> comp (cpp_value F)) j : comp (cpp_value F) :=
  match j with
  | value_array l => let* vs := map_comp get (rev l) in Ret (V_seq (rev vs))
  | _ => Throw (type_error 302)
  end.

(** [arr[i] = j.at(i).get<T>()] for each index; further elements are
    ignored, and a C array does not test the type first. *)
Definition from_json_c_array (get : json F -> comp (cpp_value F)) (n : nat) j : comp (cpp_value F) :=
  let* vs := map_comp (fun i => let* e := at_index j (Z.of_nat i) in get e) (seq 0 n) in
  Ret (V_seq vs).

Definition from_json_std_array (get : json F -> comp (cpp_value F)) (n : nat) j : comp (cpp_value F) :=
  if negb (is_array j) then Throw (type_error 302) else from_json_c_array get n j.

Definition from_json_object (get : json F -> comp (cpp_value F)) j : comp (cpp_value F) :=
  match j with
  | value_object m =>
      let* kvs := map_comp (fun p => let* v := get p.2 in Ret (p.1, v)) m in Ret (V_map kvs)
  | _ => Throw (type_error 302)
  end.

(** [map::emplace] on a map with integer keys. *)
Fixpoint int_emplace (k : Z) v (m : list (Z * cpp_value F)) : list (Z * cpp_value F) :=
  match m with
  | [] => [(k, v)]
  | (k', v') :: m' =>
      if k =? k' then m
      else if k <? k' then (k, v) :: m
      else (k', v') :: int_emplace k v m'
  end.

(** The arguments of [emplace] are evaluated from left to right here. *)
Fixpoint int_map_loop (get_key : json F -> comp Z) (get : json F -> comp (cpp_value F)) (l : list (json F))
    (m : list (Z * cpp_value F)) : comp (list (Z * cpp_value F)) :=
  match l with
  | [] => Ret m
  | p :: l =>
      if negb (is_array p) then Throw (type_error 302)
      else
        let* jk := at_index p 0 in
        let* k := get_key jk in
        let* jv := at_index p 1 in
        let* v := get jv in
        int_map_loop get_key get l (int_emplace k v m)
  end.

Definition from_json_int_map (get_key : json F -> comp Z) (get : json F -> comp (cpp_value F)) j : comp (cpp_value F) :=
  match j with
  | value_array l => let* m := int_map_loop get_key get l [] in Ret (V_int_map m)
  | _ => Throw (type_error 302)
  end.

Definition from_json_pair (get1 get2 : json F -> comp (cpp_value F)) j : comp (cpp_value F) :=
  if negb (is_array j) then Throw (type_error 302)
  else
    let* j0 := at_index j 0 in
    let* x := get1 j0 in
    let* j1 := at_index j 1 in
    let* y := get2 j1 in
    Ret (V_seq [x; y]).

(** [std::make_tuple(j.at(Idx).get<Args>()...)], from left to right here. *)
Fixpoint tuple_elements (gets : list (json F -> comp (cpp_value F))) (i : Z) j : comp (list (cpp_value F)) :=
  match gets with
  | [] => Ret []
  | get :: gets =>
      let* e := at_index j i in
      let* x := get e in
      let* xs := tuple_elements gets (i + 1) j in
      Ret (x :: xs)
  end.

Definition from_json_tuple (gets : list (json F -> comp (cpp_value F))) j : comp (cpp_value F) :=
  if negb (is_array j) then Throw (type_error 302)
  else let* xs := tuple_elements gets 0 j in Ret (V_seq xs).

(** [from_json] and [get<T>()]; the [json] itself is copied. *)
Fixpoint from_json (t : cpp_type) j : comp (cpp_value F) :=
  match t with
  | T_nullptr => from_json_nullptr j
  | T_bool => from_json_boolean j
  | T_int w signed native => let* z := from_json_int w signed native j in Ret (V_int z)
  | T_enum w signed => from_json_enum w signed j
  | T_double => let* f := get_float_value j in Ret (V_double f)
  | T_string => from_json_string j
  | T_binary => from_json_binary j
  | T_json => Ret (V_json j)
  | T_vector t => from_json_array (from_json t) j
  | T_forward_list t => from_json_forward_list (from_json t) j
  | T_valarray t => from_json_valarray (from_json t) j
  | T_array t n => from_json_std_array (from_json t) n j
  | T_c_array t n => from_json_c_array (from_json t) n j
  | T_map t => from_json_object (from_json t) j
  | T_int_map w signed native t => from_json_int_map (from_json_int w signed native) (from_json t) j
  | T_pair a b => from_json_pair (from_json a) (from_json b) j
  | T_tuple ts => from_json_tuple (map from_json ts) j
  end.

(** ** Access to the stored value *)

(** The pointer types of [get_ptr] are named by the tag they ask for. *)
Inductive ptr_type : Set :=
  | object_t | array_t | string_t | boolean_t | number_integer_t | number_unsigned_t | number_float_t | binary_t.

(** [get_impl_ptr]: whether the pointer is not null. *)
Definition get_impl_ptr (p : ptr_type) j : bool :=
  match p, j with
  | object_t, value_object _ | array_t, value_array _ | string_t, value_string _ | boolean_t, value_boolean _
  | number_integer_t, value_number_integer _ | number_unsigned_t, value_number_unsigned _
  | number_float_t, value_number_float _ | binary_t, value_binary _ _ => true
  | _, _ => false
  end.

(** [get_ref]: a reference to the payload of [j], which keeps its type. *)
Definition get_ref (p : ptr_type) j : comp (json F) :=
  if get_impl_ptr p j then Ret j else Throw (type_error 303).

Definition get_binary j : comp (bytes * option Z) :=
  match j with value_binary b s => Ret (b, s) | _ => Throw (type_error 302) end.

(** [value(key, default_value)] *)
Definition value_of_key (t : cpp_type) (key : bytes) (default_value : cpp_value F) j : comp (cpp_value F) :=
  if is_object j then
    match find j key with
    | Some e => from_json t e
    | None => Ret default_value
    end
  else Throw (type_error 306).

(** [value(ptr, default_value)]: the handler is around the conversion too. *)
Definition value_of_pointer (t : cpp_type) (ptr : json_pointer) (default_value : cpp_value F) j : comp (cpp_value F) :=
  if is_object j then
    match (let* e := get_checked ptr j in from_json t e) with
    | Throw (out_of_range _) => Ret default_value
    | r => r
    end
  else Throw (type_error 306).

(** [operator[] const]; an index out of range is undefined. *)
Definition const_index_key j (key : bytes) : comp (json F) :=
  match j with
  | value_object m => match object_find key m with Some e => Ret e | None => Throw assertion_failure end
  | _ => Throw (type_error 305)
  end.
Definition const_index_idx j (idx : Z) : comp (json F) :=
  match j with
  | value_array l => match l !! Z.to_nat idx with Some e => Ret e | None => Throw undefined_behaviour end
  | _ => Throw (type_error 305)
  end.
End FromJson.
