(* ===== verification/JsonConvertSpec.v ===== *)
(** What the conversions of [JsonConvert] promise: a conversion to a C++ type
    gives a value of this type or one of four errors, and a value that is
    converted to JSON and back is the same, with one exception that is stated
    exactly: pairs and tuples whose components all look like the members of an
    object. *)
From S2P Require Import Prelude Utf8 JsonValue JsonCompare JsonModify JsonPointer JsonConvert.

(** ** Types *)

Definition cpp_type_ind' (P : cpp_type -> Prop)
    (Hnull : P T_nullptr) (Hbool : P T_bool) (Hint : forall w s n, P (T_int w s n)) (Henum : forall w s, P (T_enum w s))
    (Hdouble : P T_double) (Hstring : P T_string) (Hbinary : P T_binary) (Hjson : P T_json)
    (Hvec : forall t, P t -> P (T_vector t)) (Hfl : forall t, P t -> P (T_forward_list t))
    (Hval : forall t, P t -> P (T_valarray t)) (Harr : forall t n, P t -> P (T_array t n))
    (Hc : forall t n, P t -> P (T_c_array t n)) (Hmap : forall t, P t -> P (T_map t))
    (Himap : forall w s n t, P t -> P (T_int_map w s n t)) (Hpair : forall a b, P a -> P b -> P (T_pair a b))
    (Htuple : forall ts, Forall P ts -> P (T_tuple ts)) : forall t, P t :=
  fix rec t :=
    match t with
    | T_nullptr => Hnull | T_bool => Hbool | T_int w s n => Hint w s n | T_enum w s => Henum w s
    | T_double => Hdouble | T_string => Hstring | T_binary => Hbinary | T_json => Hjson
    | T_vector t => Hvec t (rec t) | T_forward_list t => Hfl t (rec t) | T_valarray t => Hval t (rec t)
    | T_array t n => Harr t n (rec t) | T_c_array t n => Hc t n (rec t) | T_map t => Hmap t (rec t)
    | T_int_map w s n t => Himap w s n t (rec t) | T_pair a b => Hpair a b (rec a) (rec b)
    | T_tuple ts => Htuple ts
        ((fix go ts : Forall P ts :=
            match ts with
            | [] => Forall_nil_2 _
            | t :: ts => Forall_cons_2 _ t ts (rec t) (go ts)
            end) ts)
    end.

Definition wf_int (w : Z) (native : bool) : Prop := 8 <= w <= 64 /\ (native = true -> w = 64).

Fixpoint wf_type (t : cpp_type) : Prop :=
  match t with
  | T_int w _ native => wf_int w native
  | T_enum w _ => wf_int w false
  | T_vector t | T_forward_list t | T_valarray t | T_array t _ | T_c_array t _ | T_map t => wf_type t
  | T_int_map w _ native t => wf_int w native /\ wf_type t
  | T_pair a b => wf_type a /\ wf_type b
  | T_tuple ts => (fix go ts := match ts with [] => True | t :: ts => wf_type t /\ go ts end) ts
  | _ => True
  end.

Definition list_rel {A B} (R : A -> B -> Prop) : list A -> list B -> Prop :=
  fix go l k :=
    match l, k with
    | [], [] => True
    | x :: l, y :: k => R x y /\ go l k
    | _, _ => False
    end.

Definition int_ok (w : Z) (signed : bool) (z : Z) : Prop := int_min w signed <= z <= int_max w signed.

Section Spec.
Context {F : Type} `{FloatCompare F, FloatCast F}.
Implicit Types (j : json F) (v : cpp_value F) (l : list (json F)).

Fixpoint has_type (t : cpp_type) v : Prop :=
  match t, v with
  | T_nullptr, V_nullptr | T_bool, V_bool _ | T_double, V_double _ | T_string, V_string _
  | T_binary, V_binary _ _ | T_json, V_json _ => True
  | T_int w s _, V_int z | T_enum w s, V_int z => int_ok w s z
  | T_vector t, V_seq vs | T_forward_list t, V_seq vs | T_valarray t, V_seq vs => Forall (has_type t) vs
  | T_array t n, V_seq vs | T_c_array t n, V_seq vs => length vs = n /\ Forall (has_type t) vs
  | T_map t, V_map m => StronglySorted key_lt m.*1 /\ Forall (has_type t) m.*2
  | T_int_map w s _ t, V_int_map m =>
      StronglySorted Z.lt m.*1 /\ Forall (int_ok w s) m.*1 /\ Forall (has_type t) m.*2
  | T_pair a b, V_seq [x; y] => has_type a x /\ has_type b y
  | T_tuple ts, V_seq vs => list_rel has_type ts vs
  | _, _ => False
  end.

(** ** Integers *)

Lemma cast_int_ok w s z : 0 < w -> int_ok w s (cast_int w s z).
Proof.
  intros Hw. unfold int_ok, int_min, int_max, cast_int, to_signed. pose proof (wrapu_range w z ltac:(lia)).
  assert (2 ^ w = 2 * 2 ^ (w - 1)) as E by (rewrite <- Z.pow_succ_r by lia; f_equal; lia).
  destruct s; [|lia]. destruct (Z.ltb_spec (wrapu w z) (2 ^ (w - 1))); lia.
Qed.

Lemma cast_int_id w s z : 0 < w -> int_ok w s z -> cast_int w s z = z.
Proof.
  unfold int_ok, int_min, int_max, cast_int. intros Hw Hz. destruct s.
  - apply to_signed_small; lia.
  - apply wrapu_small. lia.
Qed.

Lemma int_ok_64 w s z : 8 <= w <= 64 -> int_ok w s z -> int_ok 64 s z.
Proof.
  unfold int_ok, int_min, int_max. intros Hw Hz.
  assert (2 ^ w <= 2 ^ 64) by (apply Z.pow_le_mono_r; lia).
  assert (2 ^ (w - 1) <= 2 ^ (64 - 1)) by (apply Z.pow_le_mono_r; lia). destruct s; lia.
Qed.

Lemma to_json_int_ok w s z : 8 <= w <= 64 -> int_ok w s z ->
  to_json_int (F:=F) s z = if s then value_number_integer z else value_number_unsigned z.
Proof.
  intros Hw Hz. pose proof (cast_int_id 64 s z ltac:(lia) (int_ok_64 _ _ _ Hw Hz)) as E.
  unfold to_json_int, cast_int in *. destruct s; unfold construct_integer, construct_unsigned; by rewrite E.
Qed.

Lemma int_roundtrip w s native z : 8 <= w <= 64 -> int_ok w s z ->
  from_json_int w s native (to_json_int (F:=F) s z) = Ret z.
Proof.
  intros Hw Hz. rewrite (to_json_int_ok w) by done. unfold from_json_int, get_arithmetic_value, from_json_arithmetic.
  destruct s, native; by rewrite cast_int_id by (lia || done).
Qed.

(** ** Conversion is typed *)

(** The errors of a conversion: a wrong type, [at] on something else than an
    array or with an index out of range, a floating-point number that does
    not fit in an integer. *)
Definition conversion_error (e : exn) : Prop :=
  e = type_error 302 \/ e = type_error 304 \/ e = out_of_range 401 \/ e = undefined_behaviour.

Definition gives {A} (P : A -> Prop) (c : comp A) : Prop :=
  match c with
  | Ret a => P a
  | Throw e => conversion_error e
  | OutOfFuel => False
  end.

Lemma gives_bind {A B} (P : A -> Prop) (Q : B -> Prop) c (f : A -> comp B) :
  gives P c -> (forall a, P a -> gives Q (f a)) -> gives Q (comp_bind c f).
Proof. destruct c; simpl; auto. Qed.

Lemma gives_mono {A} (P Q : A -> Prop) c : gives P c -> (forall a, P a -> Q a) -> gives Q c.
Proof. destruct c; simpl; auto. Qed.

Lemma gives_302 {A} (P : A -> Prop) : gives P (Throw (type_error 302)).
Proof. by left. Qed.

Lemma gives_map {A B} (P : B -> Prop) (f : A -> comp B) xs : Forall (fun x => gives P (f x)) xs ->
  gives (fun ys => length ys = length xs /\ Forall P ys) (map_comp f xs).
Proof.
  induction 1 as [|x xs Hx _ IH]; [by split|]. cbn [map_comp]. eapply gives_bind; [exact Hx|]. intros y Hy.
  eapply gives_bind; [exact IH|]. intros ys [Hl Hys]. split; [simpl; lia|by constructor].
Qed.

Lemma gives_at j i : storable j -> gives storable (at_index j i).
Proof.
  unfold at_index. destruct j as [|m|l| | | | | | |]; try (intros _; by right; left). intros Hs.
  destruct (l !! Z.to_nat i) eqn:E; simpl; [|by right; right; left]. apply storable_array_inv in Hs as [_ Hs].
  by apply (Forall_lookup_1 _ _ _ _ Hs E).
Qed.

Lemma cast_float_ok w s (f : F) : gives (int_ok w s) (cast_float w s f).
Proof.
  unfold cast_float. destruct (float_trunc f) as [z|]; simpl; [|by repeat right].
  destruct (in_range (int_min w s) (int_max w s) z) eqn:E; simpl; [|by repeat right]. by apply in_range_spec in E.
Qed.

Lemma get_arithmetic_ok w s j : 0 < w -> gives (int_ok w s) (get_arithmetic_value w s j).
Proof. intros Hw. destruct j; try apply gives_302; try apply cast_float_ok; by apply cast_int_ok. Qed.

Lemma from_json_int_ok w s native j : 8 <= w <= 64 -> gives (int_ok w s) (from_json_int w s native j).
Proof.
  intros Hw. destruct native; [apply get_arithmetic_ok; lia|].
  destruct j; try apply gives_302; try apply cast_float_ok; try (by apply cast_int_ok; lia).
  simpl. unfold int_ok, int_min, int_max.
  assert (2 ^ 7 <= 2 ^ (w - 1)) by (apply Z.pow_le_mono_r; lia).
  assert (2 ^ w = 2 * 2 ^ (w - 1)) by (rewrite <- Z.pow_succ_r by lia; f_equal; lia).
  destruct s, b; lia.
Qed.

(** A conversion that keeps the contract at every value. *)
Definition converts (t : cpp_type) (get : json F -> comp (cpp_value F)) : Prop :=
  forall j, storable j -> gives (has_type t) (get j).

Lemma gives_elements t get l : converts t get -> storable (value_array l) ->
  gives (fun vs => length vs = length l /\ Forall (has_type t) vs) (map_comp get l).
Proof.
  intros Hg [_ Hl]%storable_array_inv. apply gives_map. eapply Forall_impl; [exact Hl|]. apply Hg.
Qed.

Lemma gives_array t get (f : list (cpp_value F) -> list (cpp_value F)) (g : list (json F) -> list (json F)) j :
  converts t get -> storable j -> (forall l, g l ≡ₚ l) -> (forall vs, f vs ≡ₚ vs) ->
  gives (fun v => exists vs, v = V_seq vs /\ Forall (has_type t) vs)
    match j with
    | value_array l => let* vs := map_comp get (g l) in Ret (V_seq (f vs))
    | _ => Throw (type_error 302)
    end.
Proof.
  intros Hg Hs Hpg Hpf. destruct j as [|m|l| | | | | | |]; try apply gives_302.
  eapply gives_bind; [apply (gives_elements t); [done|]|].
  - apply storable_array_inv in Hs as [Hn Hl]. constructor; [by rewrite Hpg|by rewrite Hpg].
  - intros vs [_ Hvs]. simpl. eexists. split; [done|]. by rewrite Hpf.
Qed.

Lemma gives_c_array t get n j : converts t get -> storable j ->
  gives (fun v => exists vs, v = V_seq vs /\ length vs = n /\ Forall (has_type t) vs) (from_json_c_array get n j).
Proof.
  intros Hg Hs. unfold from_json_c_array. eapply gives_bind.
  - apply (gives_map (has_type t)), Forall_forall. intros i _.
    eapply gives_bind; [apply gives_at, Hs|]. intros e He. by apply Hg.
  - intros vs [Hl Hvs]. exists vs. split_and!; [done| |done]. by rewrite Hl, length_seq.
Qed.

Lemma gives_object t get j : converts t get -> storable j ->
  gives (fun v => exists m, v = V_map m /\ StronglySorted key_lt m.*1 /\ Forall (has_type t) m.*2) (from_json_object get j).
Proof.
  intros Hg Hs. unfold from_json_object. destruct j as [|m|l| | | | | | |]; try apply gives_302.
  apply storable_object_inv in Hs as [Hso Hm]. unfold sorted_object, keys in Hso.
  apply (gives_bind (fun kvs => kvs.*1 = map fst m /\ Forall (has_type t) kvs.*2)).
  - clear Hso. induction Hm as [|[k e] m He _ IH]; [by repeat constructor|]. cbn [map_comp].
    apply (gives_bind (fun kv => kv.1 = k /\ has_type t kv.2)).
    { eapply gives_bind; [apply Hg, He|]. intros v Hv. by split. }
    intros [k' v] [Hk Hv]. simpl in Hv, Hk. subst k'. eapply gives_bind; [exact IH|]. intros kvs [Hk Hvs].
    split; [by apply (f_equal (cons k))|by constructor].
  - intros kvs [Hk Hvs]. exists kvs. by rewrite Hk.
Qed.

Lemma int_emplace_ok (P : Z -> Prop) (Q : cpp_value F -> Prop) k v m : P k -> Q v ->
  StronglySorted Z.lt m.*1 -> Forall P m.*1 -> Forall Q m.*2 ->
  let m' := int_emplace k v m in StronglySorted Z.lt m'.*1 /\ Forall P m'.*1 /\ Forall Q m'.*2 /\
    (forall x, x ∈ m'.*1 -> x = k \/ x ∈ m.*1).
Proof.
  intros Hk Hv. induction m as [|[k1 v1] m IH]; intros Hs HP HQ; simpl in *.
  - split; [repeat constructor|]. split; [by repeat constructor|]. split; [by repeat constructor|].
    intros y Hy%list_elem_of_singleton. by left.
  - apply StronglySorted_inv in Hs as [Hs Hlt].
    assert (HP' := HP). assert (HQ' := HQ). apply Forall_cons in HP' as [HP1 HP2], HQ' as [HQ1 HQ2].
    destruct (Z.eqb_spec k k1) as [->|Hne]; [split; [by constructor|by split_and!; auto]|].
    destruct (Z.ltb_spec k k1).
    + split; [|split; [by constructor|split; [by constructor|]]].
      * simpl. constructor; [by constructor|]. constructor; [done|].
        eapply Forall_impl; [exact Hlt|]. simpl. lia.
      * simpl. intros x. rewrite !elem_of_cons. tauto.
    + destruct (IH Hs HP2 HQ2) as (Ha & Hb & Hc & Hd).
      split; [|split; [by constructor|split; [by constructor|]]]; simpl.
      * constructor; [done|]. apply Forall_forall. intros x [->|Hx]%Hd; [lia|].
        by apply (proj1 (Forall_forall _ _) Hlt).
      * intros x. rewrite !elem_of_cons. intros [->|Hx%Hd]; tauto.
Qed.

Lemma gives_int_map w s native t get j : 8 <= w <= 64 -> converts t get -> storable j ->
  gives (fun v => exists m, v = V_int_map m /\ StronglySorted Z.lt m.*1 /\ Forall (int_ok w s) m.*1 /\ Forall (has_type t) m.*2)
    (from_json_int_map (from_json_int w s native) get j).
Proof.
  intros Hw Hg Hs. unfold from_json_int_map. destruct j as [|m|l| | | | | | |]; try apply gives_302.
  apply storable_array_inv in Hs as [_ Hl].
  eapply gives_bind; [|intros m Hm; exists m; split; [done|exact Hm]].
  assert (StronglySorted Z.lt (@nil (Z * cpp_value F)).*1 /\ Forall (int_ok w s) (@nil (Z * cpp_value F)).*1 /\
    Forall (has_type t) (@nil (Z * cpp_value F)).*2) as Hi by (split_and!; constructor).
  revert Hi. generalize (@nil (Z * cpp_value F)).
  induction Hl as [|p l Hp _ IH]; intros m (Ha & Hb & Hc); cbn [int_map_loop]; [done|].
  destruct (is_array p); [|apply gives_302]. cbn [negb].
  eapply gives_bind; [by apply gives_at|]. intros jk Hjk.
  eapply gives_bind; [by apply (from_json_int_ok w s native)|]. intros k Hk.
  eapply gives_bind; [by apply gives_at|]. intros jv Hjv.
  eapply gives_bind; [by apply Hg|]. intros v Hv. apply IH.
  destruct (int_emplace_ok (int_ok w s) (has_type t) k v m Hk Hv Ha Hb Hc) as (? & ? & ? & _). done.
Qed.

Lemma gives_tuple ts j : storable j -> forall i, Forall (fun t => converts t (from_json t)) ts ->
  gives (list_rel has_type ts) (tuple_elements (map from_json ts) i j).
Proof.
  intros Hs i Hts. revert i. induction Hts as [|t ts Ht _ IH]; intros i; [done|]. cbn [map tuple_elements].
  eapply gives_bind; [by apply gives_at|]. intros e He. eapply gives_bind; [by apply Ht|]. intros x Hx.
  eapply gives_bind; [apply IH|]. intros xs Hxs. by split.
Qed.

Lemma wf_tuple ts : wf_type (T_tuple ts) -> Forall wf_type ts.
Proof. induction ts as [|t ts IH]; [constructor|]. intros [Ht Hts]. constructor; [done|by apply IH]. Qed.

Lemma from_json_converts t : wf_type t -> converts t (from_json t).
Proof.
  induction t as [| |w s n|w s| | | | |t IH|t IH|t IH|t n IH|t n IH|t IH|w s n t IH|a b IHa IHb|ts IH] using cpp_type_ind';
    intros Hw j Hs; cbn [from_json].
  - unfold from_json_nullptr. destruct (is_null j); [done|apply gives_302].
  - destruct j; try apply gives_302. done.
  - eapply gives_bind; [apply from_json_int_ok, Hw|]. done.
  - eapply gives_bind; [apply get_arithmetic_ok; destruct Hw; lia|]. done.
  - unfold get_float_value. destruct j; try apply gives_302; done.
  - destruct j; try apply gives_302. done.
  - destruct j; try apply gives_302. done.
  - done.
  - eapply gives_mono; [by apply (gives_array t _ id id); [apply IH|..]|]. by intros v (vs & -> & Hv).
  - eapply gives_mono; [apply (gives_array t _ (@rev _) (@rev _) j (IH Hw) Hs); intros; by rewrite <- Permutation_rev|].
    by intros v (vs & -> & Hv).
  - eapply gives_mono; [by apply (gives_array t _ id id); [apply IH|..]|]. by intros v (vs & -> & Hv).
  - unfold from_json_std_array. destruct (is_array j); [|apply gives_302]. cbn [negb].
    eapply gives_mono; [apply (gives_c_array t); [by apply IH|done]|]. by intros v (vs & -> & Hv).
  - eapply gives_mono; [apply (gives_c_array t); [by apply IH|done]|]. by intros v (vs & -> & Hv).
  - eapply gives_mono; [apply (gives_object t); [by apply IH|done]|]. by intros v (m & -> & Hv).
  - destruct Hw as [[Hw _] Ht]. eapply gives_mono; [apply (gives_int_map w s n t); [done|by apply IH|done]|].
    by intros v (m & -> & Hv).
  - destruct Hw as [Hwa Hwb]. unfold from_json_pair. destruct (is_array j); [|apply gives_302]. cbn [negb].
    eapply gives_bind; [by apply gives_at|]. intros e0 He0. eapply gives_bind; [by apply IHa|]. intros x Hx.
    eapply gives_bind; [by apply gives_at|]. intros e1 He1. eapply gives_bind; [by apply IHb|]. intros y Hy. by split.
  - unfold from_json_tuple. destruct (is_array j); [|apply gives_302]. cbn [negb].
    eapply gives_bind; [apply (gives_tuple ts j Hs 0)|done].
    apply wf_tuple in Hw. clear Hs. induction IH as [|t ts Ht _ IHts]; [constructor|].
    apply Forall_cons in Hw as [Hw1 Hw2]. constructor; auto.
Qed.

(** ** To JSON and back *)

(** The values that survive the way to JSON and back: no pair or tuple in
    them is taken for an object. *)
Fixpoint keeps (t : cpp_type) v : bool :=
  match t, v with
  | T_vector t, V_seq vs | T_forward_list t, V_seq vs | T_valarray t, V_seq vs
  | T_array t _, V_seq vs | T_c_array t _, V_seq vs => forallb (keeps t) vs
  | T_map t, V_map m => forallb (fun kv => keeps t kv.2) m
  | T_int_map _ _ _ t, V_int_map m => forallb (fun kv => keeps t kv.2) m
  | T_pair a b, V_seq [x; y] =>
      keeps a x && keeps b y && negb (is_pair (to_json a x) && is_pair (to_json b y))
  | T_tuple ts, V_seq vs =>
      forallb id (zip_with keeps ts vs) &&
      (match vs with [] => true | _ => false end || negb (forallb is_pair (zip_with to_json ts vs)))
  | _, _ => true
  end.

(** The outcome of a way there and back. *)
Definition back {A} (kept : bool) (a : A) : comp A := if kept then Ret a else Throw (type_error 302).

Definition returns (t : cpp_type) v : Prop := from_json t (to_json t v) = back (keeps t v) v.

Lemma back_bind {A B} b1 b2 (x : A) (f : A -> comp B) y : f x = back b2 y ->
  comp_bind (back b1 x) f = back (b1 && b2) y.
Proof. intros E. by destruct b1. Qed.

Lemma back_ret {A B} b (x : A) (f : A -> B) : comp_bind (back b x) (fun a => Ret (f a)) = back b (f x).
Proof. by destruct b. Qed.

Lemma map_comp_back {A B} (f : A -> comp B) (g : B -> A) (ok : B -> bool) ys :
  Forall (fun y => f (g y) = back (ok y) y) ys -> map_comp f (map g ys) = back (forallb ok ys) ys.
Proof.
  induction 1 as [|y ys Hy _ IH]; [done|]. cbn [map map_comp forallb]. rewrite Hy, IH.
  apply back_bind, back_ret.
Qed.

Lemma elements_back t vs : Forall (returns t) vs ->
  (let* vs := map_comp (from_json t) (map (to_json t) vs) in Ret (V_seq vs)) = back (forallb (keeps t) vs) (V_seq vs).
Proof.
  intros Hvs. rewrite (map_comp_back _ (to_json t) (keeps t)) by done.
  apply back_ret.
Qed.

Lemma forallb_rev {A} (f : A -> bool) (xs : list A) : forallb f (rev xs) = forallb f xs.
Proof. induction xs as [|x xs IH]; [done|]. simpl. rewrite forallb_app, IH. simpl. by rewrite andb_true_r, andb_comm. Qed.

Lemma reversed_back t vs : Forall (returns t) vs ->
  (let* vs := map_comp (from_json t) (rev (map (to_json t) vs)) in Ret (V_seq (rev vs))) =
  back (forallb (keeps t) vs) (V_seq vs).
Proof.
  intros Hvs. rewrite <- map_rev, (map_comp_back _ (to_json t) (keeps t)) by by rewrite <- Permutation_rev.
  rewrite forallb_rev, back_ret. by rewrite rev_involutive.
Qed.

Lemma c_array_elements get (l2 : list (json F)) : forall l1 n, n = length l1 ->
  map_comp (fun i => let* e := at_index (value_array (l1 ++ l2)) (Z.of_nat i) in get e) (seq n (length l2)) =
  map_comp (B:=cpp_value F) get l2.
Proof.
  induction l2 as [|x l2 IH]; intros l1 n ->; [done|]. cbn [length seq map_comp].
  unfold at_index at 1. rewrite Nat2Z.id, list_lookup_middle by done. cbn [comp_bind].
  destruct (get x); [|done..]. cbn [comp_bind].
  replace (l1 ++ x :: l2) with ((l1 ++ [x]) ++ l2) by by rewrite <- app_assoc.
  rewrite (IH (l1 ++ [x])); [done|]. rewrite length_app. simpl. lia.
Qed.

Lemma c_array_back t vs : Forall (returns t) vs ->
  from_json_c_array (from_json t) (length vs) (value_array (map (to_json t) vs)) =
  back (forallb (keeps t) vs) (V_seq vs).
Proof.
  intros Hvs. unfold from_json_c_array. pose proof (c_array_elements (from_json t) (map (to_json t) vs) [] 0 eq_refl) as E.
  cbn [app] in E. rewrite length_map in E. rewrite E. by apply elements_back.
Qed.

Lemma emplace_all (m : list (bytes * json F)) : forall acc, StronglySorted key_lt (acc ++ m).*1 ->
  fold_left (fun m kv => object_emplace kv.1 kv.2 m) m acc = acc ++ m.
Proof.
  induction m as [|[k j] m IH]; intros acc Hs; simpl; [by rewrite app_nil_r|].
  rewrite object_emplace_last.
  - specialize (IH (acc ++ [(k, j)])). rewrite <- !app_assoc in IH. by apply IH.
  - rewrite fmap_app in Hs. clear -Hs. unfold keys. change (map fst acc) with acc.*1. induction acc as [|a acc IH]; [constructor|].
    simpl in *. apply StronglySorted_inv in Hs as [Hs Hf]. constructor; [|by apply IH].
    apply Forall_app in Hf as [_ Hf]. by apply Forall_cons in Hf as [? _].
Qed.

Lemma object_back t m : StronglySorted key_lt m.*1 -> Forall (returns t) m.*2 ->
  from_json_object (from_json t) (construct_object (map (fun kv => (kv.1, to_json t kv.2)) m)) =
  back (forallb (fun kv => keeps t kv.2) m) (V_map m).
Proof.
  intros Hs Hm. unfold construct_object. rewrite emplace_all by (simpl; by rewrite <- list_fmap_compose).
  cbn [app from_json_object].
  rewrite (map_comp_back _ (fun kv => (kv.1, to_json t kv.2)) (fun kv => keeps t kv.2)).
  - apply back_ret.
  - eapply Forall_impl; [exact (proj1 (Forall_fmap snd (returns t) m) Hm)|]. intros [k v] Hv. simpl in *. rewrite Hv.
    apply back_ret.
Qed.

Lemma int_emplace_last k v m : Forall (fun x => x < k) m.*1 -> int_emplace k v m = m ++ [(k, v)].
Proof.
  induction m as [|[k1 v1] m IH]; [done|]. intros [Hk Hm]%Forall_cons. simpl in *.
  destruct (Z.eqb_spec k k1), (Z.ltb_spec k k1); try lia. by rewrite IH.
Qed.

Lemma int_map_back w s native t m : 8 <= w <= 64 -> Forall (int_ok w s) m.*1 -> Forall (returns t) m.*2 ->
  forall acc, StronglySorted Z.lt (acc ++ m).*1 ->
  int_map_loop (from_json_int w s native) (from_json t)
    (map (fun kv => to_json_pair (to_json_int s kv.1) (to_json t kv.2)) m) acc =
  back (forallb (fun kv => keeps t kv.2) m) (acc ++ m).
Proof.
  intros Hw. induction m as [|[k v] m IH]; intros Hk Hv acc Hs; [by rewrite app_nil_r|].
  apply Forall_cons in Hk as [Hk1 Hk], Hv as [Hv1 Hv]. simpl in Hk1, Hv1. cbn [map fst snd int_map_loop forallb].
  assert (to_json_pair (to_json_int s k) (to_json t v) = value_array [to_json_int (F:=F) s k; to_json t v]) as E
    by (rewrite (to_json_int_ok w) by done; by destruct s).
  rewrite E. set (j0 := to_json_int s k). cbn [is_array negb].
  change (at_index (value_array [j0; to_json t v]) 0) with (@Ret (json F) j0).
  change (at_index (value_array [j0; to_json t v]) 1) with (@Ret (json F) (to_json t v)).
  cbn [comp_bind]. unfold j0. rewrite int_roundtrip by done. cbn [comp_bind]. rewrite Hv1. apply back_bind.
  rewrite int_emplace_last.
  - replace (acc ++ (k, v) :: m) with ((acc ++ [(k, v)]) ++ m) in Hs |- * by by rewrite <- app_assoc. by apply IH.
  - rewrite fmap_app in Hs. clear -Hs. induction acc as [|a acc IH]; [constructor|].
    simpl in *. apply StronglySorted_inv in Hs as [Hs Hf]. constructor; [|by apply IH].
    apply Forall_app in Hf as [_ Hf]. by apply Forall_cons in Hf as [? _].
Qed.

Lemma pair_back a b x y : returns a x -> returns b y -> returns (T_pair a b) (V_seq [x; y]).
Proof.
  unfold returns. cbn [to_json from_json keeps]. intros Hx Hy. unfold to_json_pair, of_initializer_list.
  cbn [forallb]. rewrite andb_true_r. destruct (is_pair (to_json a x) && is_pair (to_json b y)); cbn [negb].
  { by rewrite andb_false_r. }
  rewrite andb_true_r. unfold from_json_pair. cbn [is_array negb].
  change (at_index (value_array [to_json a x; to_json b y]) 0) with (@Ret (json F) (to_json a x)).
  change (at_index (value_array [to_json a x; to_json b y]) 1) with (@Ret (json F) (to_json b y)).
  cbn [comp_bind]. rewrite Hx. apply back_bind. rewrite Hy. by destruct (keeps b y).
Qed.

Lemma tuple_elements_back ts : forall vs pre, list_rel (fun t v => returns t v) ts vs ->
  tuple_elements (map from_json ts) (Z.of_nat (length pre)) (value_array (pre ++ zip_with to_json ts vs)) =
  back (forallb id (zip_with keeps ts vs)) vs.
Proof.
  induction ts as [|t ts IH]; intros [|v vs] pre; try done. intros [Hv Hvs].
  cbn [map tuple_elements zip_with forallb id]. unfold at_index at 1.
  rewrite Nat2Z.id, list_lookup_middle by done. cbn [comp_bind]. rewrite Hv. apply back_bind.
  specialize (IH vs (pre ++ [to_json t v]) Hvs). rewrite length_app, <- app_assoc in IH. cbn [length app] in IH.
  rewrite Nat2Z.inj_add in IH. change (Z.of_nat 1) with 1 in IH. cbv beta. rewrite IH. by destruct (forallb _ _).
Qed.

Lemma tuple_back ts vs : list_rel (fun t v => returns t v) ts vs -> returns (T_tuple ts) (V_seq vs).
Proof.
  intros Hr. unfold returns. cbn [to_json from_json keeps].
  destruct ts as [|t ts], vs as [|v vs]; try done. cbn [orb].
  pose proof (tuple_elements_back (t :: ts) (v :: vs) [] Hr) as E. cbn [app length] in E. change (Z.of_nat 0) with 0 in E.
  unfold from_json_tuple. set (js := zip_with to_json (t :: ts) (v :: vs)) in *.
  change (to_json_tuple js) with (of_initializer_list js). unfold of_initializer_list.
  destruct (forallb is_pair js); cbn [negb is_array].
  - by rewrite andb_false_r.
  - rewrite E, andb_true_r. by destruct (forallb _ _).
Qed.

Lemma list_rel_impl {A B} (P : A -> Prop) (R S : A -> B -> Prop) xs : Forall P xs ->
  (forall x y, P x -> R x y -> S x y) -> forall ys, list_rel R xs ys -> list_rel S xs ys.
Proof.
  intros HP HRS. induction HP as [|x xs Hx _ IH]; intros [|y ys]; try done. intros [Hy Hys]. split; [by apply HRS|by apply IH].
Qed.

(** The conversions of all elements. *)
Lemma Forall_returns t vs : (forall v, has_type t v -> returns t v) -> Forall (has_type t) vs -> Forall (returns t) vs.
Proof. intros Ht Hv. by apply (Forall_impl _ _ _ Hv). Qed.

Lemma to_json_returns t : wf_type t -> forall v, has_type t v -> returns t v.
Proof.
  induction t as [| |w s n|w s| | | | |t IH|t IH|t IH|t n IH|t n IH|t IH|w s n t IH|a b IHa IHb|ts IH] using cpp_type_ind';
    intros Hw v Hv; destruct v as [|?|z|?|?|?|?|vs|m|m]; try done.
  - unfold returns. cbn [to_json from_json keeps]. rewrite int_roundtrip; [done|apply Hw|done].
  - unfold returns. cbn [to_json from_json keeps]. unfold to_json_enum, from_json_enum, get_arithmetic_value.
    assert (cast_int w s z = z) as E by (destruct Hw; apply cast_int_id; [lia|done]).
    destruct s; unfold construct_integer, construct_unsigned; by rewrite !E.
  - by apply elements_back, Forall_returns; [apply IH|].
  - by apply reversed_back, Forall_returns; [apply IH|].
  - by apply elements_back, Forall_returns; [apply IH|].
  - destruct Hv as [<- Hv]. by apply c_array_back, Forall_returns; [apply IH|].
  - destruct Hv as [<- Hv]. by apply c_array_back, Forall_returns; [apply IH|].
  - destruct Hv as [Hs Hv]. by apply object_back, Forall_returns; [done|apply IH|].
  - destruct Hv as (Hs & Hk & Hv), Hw as [[Hw _] Ht]. unfold returns. cbn [to_json from_json keeps].
    unfold construct_array, from_json_int_map.
    rewrite (int_map_back w s n t m Hw Hk (Forall_returns t _ (IH Ht) Hv) [] Hs). by destruct (forallb _ _).
  - destruct vs as [|x [|y []]]; try done. destruct Hw, Hv. apply pair_back; auto.
  - apply tuple_back. apply wf_tuple in Hw. apply (list_rel_impl (fun t => forall v, has_type t v -> returns t v) has_type _ ts).
    + clear Hv. induction IH as [|t ts Ht _ IHts]; [constructor|].
      apply Forall_cons in Hw as [Hw1 Hw2]. constructor; auto.
    + auto.
    + exact Hv.
Qed.

(** ** Properties *)

(** C20: conversion from JSON is well-typed.  Whatever the value and the C++
    type, [from_json] gives a value of the type (integers in the range of
    their width, arrays of their length, maps with their keys in order), or
    it throws [type_error.302] or [304] or [out_of_range.401], or converts a
    floating-point number that does not fit in an integer, which is
    undefined; it does nothing else. *)
Theorem from_json_typed t j : wf_type t -> storable j ->
  match from_json t j with
  | Ret v => has_type t v
  | Throw e => conversion_error e
  | OutOfFuel => False
  end.
Proof. intros Hw Hs. exact (from_json_converts t Hw j Hs). Qed.

(** C19: the way to JSON and back.  A value of any C++ type comes back from
    [from_json] as it was, unless a pair or a tuple in it has only components
    that become arrays of two with a string in front: such a pair is turned
    into an object, and reading it back throws [type_error.302]. *)
Theorem convert_roundtrip t v : wf_type t -> has_type t v ->
  from_json t (to_json t v) = if keeps t v then Ret v else Throw (type_error 302).
Proof. intros Hw Hv. exact (to_json_returns t Hw v Hv). Qed.

(** [value] with a pointer does not distinguish a value that is missing from
    one whose conversion is out of range: both give the default. *)
Theorem value_of_pointer_default t ptr d e id j : is_object j = true -> get_checked ptr j = Ret e ->
  from_json t e = Throw (out_of_range id) -> value_of_pointer t ptr d j = Ret d.
Proof. intros Ho Hp He. unfold value_of_pointer. rewrite Ho, Hp. cbn [comp_bind]. by rewrite He. Qed.
End Spec.

(** ** Examples *)

#[local] Existing Instance example_compare.
#[local] Existing Instance example_cast.

(** [std::map<int, std::vector<std::pair<std::string, unsigned char>>>] *)
Definition ex_type : cpp_type := T_int_map 32 true false (T_vector (T_pair T_string (T_int 8 false false))).
Definition ex_value : cpp_value Z :=
  V_int_map [(-7, V_seq [V_seq [V_string (str "a"); V_int 200]]); (3, V_seq [])].

Lemma ex_typed : wf_type ex_type /\ has_type ex_type ex_value.
Proof.
  split; [vm_compute; split_and!; done|]. simpl. unfold int_ok, int_min, int_max.
  split_and!; repeat constructor; simpl; unfold int_ok, int_min, int_max; lia.
Qed.

Lemma convert_roundtrip_witness : from_json ex_type (to_json ex_type ex_value) = Ret ex_value.
Proof. rewrite (convert_roundtrip ex_type ex_value) by apply ex_typed. reflexivity. Defined.

Lemma from_json_typed_witness :
  match from_json (T_array (T_int 8 true false) 2) (value_array (F:=Z) [value_number_unsigned 200; value_boolean true]) with
  | Ret v => has_type (T_array (T_int 8 true false) 2) v /\ v = V_seq [V_int (-56); V_int 1]
  | _ => False
  end.
Proof.
  pose proof (from_json_typed (T_array (T_int 8 true false) 2)
    (value_array (F:=Z) [value_number_unsigned 200; value_boolean true])) as Ht.
  split; [|reflexivity]. apply Ht; [vm_compute; split_and!; done|].
  apply storable_array; [simpl; lia|]. by repeat (constructor; [by apply storable_other|]).
Defined.

(** A [std::pair] of two pairs of a string and a number becomes an object,
    and does not come back. *)
Definition ex_pair_type : cpp_type := T_pair (T_pair T_string T_double) (T_pair T_string T_double).
Example pair_of_pairs :
  let v := V_seq [V_seq [V_string (str "a"); V_double 1]; V_seq [V_string (str "b"); V_double 2]] in
  to_json ex_pair_type v = value_object (F:=Z) [(str "a", value_number_float 1); (str "b", value_number_float 2)] /\
  from_json ex_pair_type (to_json ex_pair_type v) = Throw (type_error 302).
Proof. split; reflexivity. Qed.

(** [value("/point", d)] for a pair, where the document has an array of one. *)
Example value_of_pointer_swallows :
  let j := value_object (F:=Z) [(str "point", value_array [value_number_float 1])] in
  value_of_pointer (T_pair T_double T_double) [str "point"] V_nullptr j = Ret V_nullptr /\
  value_of_key (T_pair T_double T_double) (str "point") V_nullptr j = Throw (out_of_range 401).
Proof. split; reflexivity. Qed.

(** The numbers of [double]: 3.75 is cut to 3, -2^63 - 2048 is out of range. *)
Example double_to_int64 :
  cast_float 64 true (Ieee754.of_pattern 0x400E000000000000) = Ret 3 /\
  cast_float 64 true (Ieee754.of_pattern 0xC3E0000000000000) = Ret (- 2 ^ 63) /\
  cast_float 64 true (Ieee754.of_pattern 0xC3E0000000000001) = Throw undefined_behaviour /\
  cast_float 8 false (Ieee754.of_pattern 0x4072C00000000000) = Throw undefined_behaviour.
Proof. vm_compute. done. Qed.
