(* ===== verification/JsonPatch.v ===== *)
(** JSON patches (RFC 6902) of [src/libephmem/json.hpp]: [patch_inplace],
    [patch] and [diff].  The document is the state of the calls, so what a
    patch that throws has already changed is part of the model. *)
From S2P Require Import Prelude CLib JsonValue JsonCompare JsonModify JsonSerializer JsonPointer.

Section Patch.
Context {F : Type} `{FloatOps F, FloatCompare F}.
Implicit Types (j v : json F).

(** ** References *)

(** [json_pointer::get_checked] of a mutable value: the reference. *)
Fixpoint get_checked_ref (p : json_pointer) j : comp (list pstep) :=
  match p with
  | [] => Ret []
  | reference_token :: p =>
      match j with
      | value_object m =>
          match object_find reference_token m with
          | Some v => let* r := get_checked_ref p v in Ret (PKey reference_token :: r)
          | None => Throw (out_of_range 403)
          end
      | value_array l =>
          if decide (reference_token = str "-") then Throw (out_of_range 402)
          else
            let* i := array_index reference_token in
            match l !! Z.to_nat i with
            | Some v => let* r := get_checked_ref p v in Ret (PIdx (Z.to_nat i) :: r)
            | None => Throw (out_of_range 401)
            end
      | _ => Throw (out_of_range 404)
      end
  end.

(** [result.at(ptr)] *)
Definition at_pointer (ptr : json_pointer) : M F (list pstep) := fun j => (get_checked_ref ptr j, j).

Definition top (p : json_pointer) : comp json_pointer :=
  match p with [] => Throw (out_of_range 405) | t :: _ => Ret [t] end.

(** ** The operations *)

(** The [switch] of [operation_add] on the type of the parent. *)
Definition add_child (last_path : bytes) v : M F unit :=
  let! parent := mget in
  match parent with
  | value_null | value_object _ =>
      let! _ := mmod (fun j => index_key j last_path) in
      at_ref [PKey last_path] (mput v)
  | value_array _ =>
      if decide (last_path = str "-") then JsonModify.push_back v
      else
        let! idx := mlift (array_index last_path) in
        if Z.of_nat (size parent) <? idx then mthrow (out_of_range 401)
        else insert_value true (Z.to_nat idx) v
  | _ => mthrow assertion_failure
  end.

Definition operation_add (ptr : json_pointer) v : M F unit :=
  match ptr with
  | [] => mput v
  | _ =>
      let! top_pointer := mlift (top ptr) in
      let! _ := (if decide (top_pointer = ptr) then mret [] else at_pointer top_pointer) in
      let! last_path := mlift (back ptr) in
      let! ptr := mlift (pop_back ptr) in
      let! parent := at_pointer ptr in
      at_ref parent (add_child last_path v)
  end.

Definition remove_child (last_path : bytes) : M F unit :=
  let! parent := mget in
  match parent with
  | value_object _ =>
      if contains_key parent last_path then let! _ := erase_key last_path in mret tt
      else mthrow (out_of_range 403)
  | value_array _ => let! idx := mlift (array_index last_path) in erase_idx idx
  | _ => mret tt
  end.

Definition operation_remove (ptr : json_pointer) : M F unit :=
  let! last_path := mlift (back ptr) in
  let! ptr := mlift (pop_back ptr) in
  let! parent := at_pointer ptr in
  at_ref parent (remove_child last_path).

(** The value at a pointer, copied. *)
Definition at_value (ptr : json_pointer) : M F (json F) :=
  let! r := at_pointer ptr in at_ref r mget.

Inductive patch_operations := op_add | op_remove | op_replace | op_move | op_copy | op_test | op_invalid.

Definition get_op (op : bytes) : patch_operations :=
  if decide (op = str "add") then op_add
  else if decide (op = str "remove") then op_remove
  else if decide (op = str "replace") then op_replace
  else if decide (op = str "move") then op_move
  else if decide (op = str "copy") then op_copy
  else if decide (op = str "test") then op_test
  else op_invalid.

(** [get_value]: the member of an operation, which must be an object here. *)
Definition get_value v (member : bytes) (string_type : bool) : comp (json F) :=
  match v with
  | value_object m =>
      match object_find member m with
      | None => Throw (parse_error 105)
      | Some w => if string_type && negb (is_string w) then Throw (parse_error 105) else Ret w
      end
  | _ => Throw buffer_overrun
  end.

(** [get<string_t>()] *)
Definition get_string v : comp bytes := match v with value_string s => Ret s | _ => Throw (type_error 302) end.

Definition get_string_value v (member : bytes) : comp bytes :=
  let* w := get_value v member true in get_string w.

(** The [test] operation: an [out_of_range] is no success, and the message of
    the exception contains the dump of the operation. *)
Definition operation_test (ptr : json_pointer) v : M F unit := fun j =>
  let success :=
    let* r := get_checked ptr j in
    let* w := get_value v (str "value") false in
    Ret (json_eqb r w) in
  let success := match success with Throw (out_of_range _) => Ret false | c => c end in
  (let* b := success in
   if b then Ret tt else let* _ := dump v (-1) 32 false strict in Throw (other_error 501), j).

(** The [switch] on the operation. *)
Definition patch_switch (op : patch_operations) (ptr : json_pointer) v : M F unit :=
  match op with
  | op_add => let! w := mlift (get_value v (str "value") false) in operation_add ptr w
  | op_remove => operation_remove ptr
  | op_replace =>
      (* the right operand of the assignment is evaluated first *)
      let! w := mlift (get_value v (str "value") false) in
      let! r := at_pointer ptr in
      at_ref r (mput w)
  | op_move =>
      let! from_path := mlift (get_string_value v (str "from")) in
      let! from_ptr := mlift (split from_path) in
      let! w := at_value from_ptr in
      let! _ := operation_remove from_ptr in
      operation_add ptr w
  | op_copy =>
      let! from_path := mlift (get_string_value v (str "from")) in
      let! from_ptr := mlift (split from_path) in
      let! w := at_value from_ptr in
      operation_add ptr w
  | op_test => operation_test ptr v
  | op_invalid => mthrow (parse_error 105)
  end.

(** One operation of a patch. *)
Definition patch_operation v : M F unit :=
  if negb (is_object v) then mthrow (parse_error 104)
  else
    let! op := mlift (get_string_value v (str "op")) in
    let! path := mlift (get_string_value v (str "path")) in
    let! ptr := mlift (split path) in
    patch_switch (get_op op) ptr v.

Fixpoint patch_loop (ops : list (json F)) : M F unit :=
  match ops with
  | [] => mret tt
  | v :: ops => let! _ := patch_operation v in patch_loop ops
  end.

Definition patch_inplace (json_patch : json F) : M F unit :=
  match json_patch with
  | value_array ops => patch_loop ops
  | _ => mthrow (parse_error 104)
  end.

(** [patch] works on a copy. *)
Definition patch j (json_patch : json F) : comp (json F) :=
  match patch_inplace json_patch j with
  | (Ret _, result) => Ret result
  | (Throw e, _) => Throw e
  | (OutOfFuel, _) => OutOfFuel
  end.

(** ** [diff] *)

Definition same_type j1 j2 : bool :=
  match j1, j2 with
  | value_null, value_null | value_object _, value_object _ | value_array _, value_array _
  | value_string _, value_string _ | value_boolean _, value_boolean _
  | value_number_integer _, value_number_integer _ | value_number_unsigned _, value_number_unsigned _
  | value_number_float _, value_number_float _ | value_binary _ _, value_binary _ _
  | value_discarded, value_discarded => true
  | _, _ => false
  end.

(** [basic_json::object] of an initializer list. *)
Definition object (init : list (json F)) : comp (json F) :=
  if forallb is_pair init then Ret (of_initializer_list init) else Throw (type_error 301).

Definition pair (k : string) v : json F := of_initializer_list [value_string (str k); v].

Definition op_value (op : string) (path : bytes) v : json F :=
  of_initializer_list
    [pair "op" (value_string (str op)); pair "path" (value_string path); pair "value" v].
Definition op_removal (path : bytes) : comp (json F) :=
  object [pair "op" (value_string (str "remove")); pair "path" (value_string path)].

Definition index_path (path : bytes) (i : nat) : bytes := path ++ str "/" ++ to_dec (Z.of_nat i).
Definition key_path (path : bytes) (k : bytes) : bytes := path ++ str "/" ++ escape k.

(** The removals of the elements from [i] to [i + n - 1]: each is inserted
    before those that are already there. *)
Fixpoint diff_removals (path : bytes) (i n : nat) (result : list (json F)) : comp (list (json F)) :=
  match n with
  | O => Ret result
  | S n => let* op := op_removal (index_path path i) in diff_removals path (S i) n (op :: result)
  end.

(** The second pass over the members of [target]. *)
Fixpoint diff_additions (path : bytes) (source target : list (bytes * json F)) : list (json F) :=
  match target with
  | [] => []
  | (k, v) :: target =>
      match object_find k source with
      | Some _ => diff_additions path source target
      | None => op_value "add" (key_path path k) v :: diff_additions path source target
      end
  end.

(** The operations of [diff(source, target, path)]. *)
Fixpoint diff_ops (source target : json F) (path : bytes) {struct source} : comp (list (json F)) :=
  if json_eqb source target then Ret []
  else if negb (same_type source target) then Ret [op_value "replace" path target]
  else
    match source, target with
    | value_array s, value_array t =>
        let* common :=
          (fix loop (i : nat) (s t : list (json F)) : comp (list (json F)) :=
             match s, t with
             | x :: s, y :: t =>
                 let* temp_diff := diff_ops x y (index_path path i) in
                 let* rest := loop (S i) s t in
                 Ret (temp_diff ++ rest)
             | _, _ => Ret []
             end) 0%nat s t in
        let* removals := diff_removals path (length t) (length s - length t) [] in
        Ret (common ++ removals ++ map (op_value "add" (path ++ str "/-")) (drop (length s) t))
    | value_object s, value_object t =>
        let* first_pass :=
          (fix loop (s : list (bytes * json F)) : comp (list (json F)) :=
             match s with
             | [] => Ret []
             | (k, v) :: s =>
                 let* ops :=
                   match object_find k t with
                   | Some w => diff_ops v w (key_path path k)
                   | None => let* op := op_removal (key_path path k) in Ret [op]
                   end in
                 let* rest := loop s in
                 Ret (ops ++ rest)
             end) s in
        Ret (first_pass ++ diff_additions path s t)
    | _, _ => Ret [op_value "replace" path target]
    end.

Definition diff (source target : json F) (path : bytes) : comp (json F) :=
  let* ops := diff_ops source target path in Ret (value_array ops).
End Patch.

(** ** Facts

    How the operations of a JSON patch act on the value their pointer leads
    to, wherever it is in the document. *)

Section PatchFacts.
Context {F : Type} `{FloatOps F, FloatCompare F}.
Implicit Types (j v w doc : json F) (m : list (bytes * json F)) (l ops : list (json F)).

(** ** References *)

Lemma get_checked_ref_get p : forall j r, get_checked_ref p j = Ret r -> exists v, path_get j r = Some v.
Proof.
  induction p as [|t p IH]; intros j r; [intros [= <-]; by exists j|].
  destruct j as [|m|l| | | | | | |]; try done; cbn [get_checked_ref].
  - destruct (object_find t m) as [v|] eqn:E; [|done]. intros Hr. apply comp_bind_ret in Hr as (r' & Hr & [= <-]).
    simpl. rewrite E. eauto.
  - case_decide; [done|]. intros Hr. apply comp_bind_ret in Hr as (i & _ & Hr).
    destruct (l !! Z.to_nat i) as [v|] eqn:E; [|done]. apply comp_bind_ret in Hr as (r' & Hr & [= <-]).
    simpl. rewrite E. eauto.
Qed.

(** A reference is the value that the checked access returns. *)
Lemma get_checked_ref_value p : forall j, get_checked p j =
  match get_checked_ref p j with
  | Ret r => match path_get j r with Some v => Ret v | None => Throw buffer_overrun end
  | Throw e => Throw e
  | OutOfFuel => OutOfFuel
  end.
Proof.
  induction p as [|t p IH]; intros j; [done|].
  destruct j as [|m|l| | | | | | |]; try done; cbn [get_checked_ref get_checked at_key at_index].
  - destruct (object_find t m) as [v|] eqn:E; [|done]. cbn [comp_bind]. rewrite IH.
    destruct (get_checked_ref p v); cbn [comp_bind path_get step_get]; [|done..]. by rewrite E.
  - case_decide; [done|]. destruct (array_index t) as [i| |]; cbn [comp_bind]; [|done..].
    destruct (l !! Z.to_nat i) as [v|] eqn:E; [|done]. cbn [comp_bind]. rewrite IH.
    destruct (get_checked_ref p v); cbn [comp_bind path_get step_get]; [|done..]. by rewrite E.
Qed.

Lemma get_checked_ref_app p q : forall j r v, get_checked_ref p j = Ret r -> path_get j r = Some v ->
  get_checked_ref (p ++ q) j = let* r' := get_checked_ref q v in Ret (r ++ r').
Proof.
  induction p as [|t p IH]; intros j r v.
  { intros [= <-] [= ->]. simpl. by destruct (get_checked_ref q v). }
  destruct j as [|m|l| | | | | | |]; try done; cbn [get_checked_ref app].
  - destruct (object_find t m) as [c|] eqn:E; [|done]. intros Hr. apply comp_bind_ret in Hr as (r' & Hr & [= <-]).
    cbn [path_get step_get]. rewrite E. intros Hv. rewrite (IH _ _ _ Hr Hv), comp_bind_assoc.
    by destruct (get_checked_ref q v).
  - case_decide; [done|]. intros Hr. apply comp_bind_ret in Hr as (i & Ei & Hr). rewrite Ei. cbn [comp_bind].
    destruct (l !! Z.to_nat i) as [c|] eqn:E; [|done]. apply comp_bind_ret in Hr as (r' & Hr & [= <-]).
    cbn [path_get step_get]. rewrite E. intros Hv. rewrite (IH _ _ _ Hr Hv), comp_bind_assoc.
    by destruct (get_checked_ref q v).
Qed.

Lemma get_checked_ref_prefix t p j r : get_checked_ref (t :: p) j = Ret r -> exists r0, get_checked_ref [t] j = Ret r0.
Proof.
  destruct j as [|m|l| | | | | | |]; try done; cbn [get_checked_ref].
  - destruct (object_find t m); [eauto|done].
  - case_decide; [done|]. destruct (array_index t); [|done..]. cbn [comp_bind]. destruct (l !! _); [eauto|done].
Qed.

(** Changing the value does not change the references that lead to it. *)
Lemma get_checked_ref_alter f p : forall j r, get_checked_ref p j = Ret r ->
  get_checked_ref p (path_alter f j r) = Ret r.
Proof.
  induction p as [|t p IH]; intros j r; [by intros [= <-]|].
  destruct j as [|m|l| | | | | | |]; try done; cbn [get_checked_ref].
  - destruct (object_find t m) as [c|] eqn:E; [|done]. intros Hr. apply comp_bind_ret in Hr as (r' & Hr & [= <-]).
    cbn [path_alter step_alter]. rewrite object_find_alter, E. cbn [fmap option_fmap option_map].
    by rewrite (IH _ _ Hr).
  - case_decide; [done|]. intros Hr. apply comp_bind_ret in Hr as (i & Ei & Hr). rewrite Ei. cbn [comp_bind].
    destruct (l !! Z.to_nat i) as [c|] eqn:E; [|done]. apply comp_bind_ret in Hr as (r' & Hr & [= <-]).
    cbn [path_alter step_alter]. rewrite list_lookup_alter, decide_True, E by done.
    cbn [fmap option_fmap option_map]. by rewrite (IH _ _ Hr).
Qed.

(** ** Operations at a pointer *)

(** The operations turn the value at the pointer [tk] from [v] into [v'] and
    leave the rest of the document alone. *)
Definition moves (tk : json_pointer) ops v v' : Prop := forall doc r,
  get_checked_ref tk doc = Ret r -> path_get doc r = Some v ->
  patch_loop ops doc = (Ret tt, path_alter (fun _ => v') doc r).

Lemma moves_nil tk v : moves tk [] v v.
Proof. intros doc r _ Hv. by rewrite path_alter_same. Qed.

Lemma patch_loop_app ops1 ops2 doc : patch_loop (ops1 ++ ops2) doc =
  match patch_loop ops1 doc with
  | (Ret _, doc') => patch_loop ops2 doc'
  | r => r
  end.
Proof.
  revert doc. induction ops1 as [|v ops1 IH]; intros doc; [done|]. cbn [app patch_loop]. unfold mbind.
  destruct (patch_operation v doc) as [[[]| |] doc']; done.
Qed.

Lemma moves_app tk ops1 ops2 v v' v'' : moves tk ops1 v v' -> moves tk ops2 v' v'' -> moves tk (ops1 ++ ops2) v v''.
Proof.
  intros H1' H2 doc r Hr Hv. rewrite patch_loop_app, (H1' doc r Hr Hv), (H2 _ r).
  - by rewrite path_alter_alter.
  - by apply get_checked_ref_alter.
  - by rewrite path_get_alter, Hv.
Qed.

Lemma get_checked_ref_step v s c : step_get v s = Some c -> step_ok s -> get_checked_ref [token_of s] v = Ret [s].
Proof.
  destruct s as [i|k], v as [|m|l| | | | | | |]; try done; simpl; intros E Hs.
  - assert (array_index (to_dec (Z.of_nat i)) = Ret (Z.of_nat i)) as Ei by (apply array_index_exact; split; [done|lia]).
    rewrite decide_False.
    + rewrite Ei. cbn [comp_bind]. by rewrite Nat2Z.id, E.
    + intros Hd. rewrite Hd in Ei. by apply dash_no_index in Ei.
  - by rewrite E.
Qed.

Lemma moves_lift tk s ops v c c' : step_get v s = Some c -> step_ok s ->
  moves (tk ++ [token_of s]) ops c c' -> moves tk ops v (step_alter (fun _ => c') v s).
Proof.
  intros Hc Hs Hm doc r Hr Hv. rewrite (Hm doc (r ++ [s])).
  - rewrite path_alter_app. f_equal. apply path_alter_ext. intros v0. rewrite Hv. by intros [= <-].
  - rewrite (get_checked_ref_app _ _ _ _ _ Hr Hv), (get_checked_ref_step _ _ _ Hc Hs). done.
  - rewrite path_get_app, Hv. simpl. by rewrite Hc.
Qed.

(** ** The operations a patch of [diff] consists of *)

Lemma key_path_to_string tk k : key_path (to_string tk) k = to_string (tk ++ [k]).
Proof. unfold key_path. rewrite !to_string_flat, flat_map_app, escape_esc. cbn. by rewrite app_nil_r. Qed.

Lemma to_dec_esc n : 0 <= n -> flat_map esc (to_dec n) = to_dec n.
Proof.
  intros Hn. pose proof (to_dec_digits n Hn) as Hd. induction Hd as [|c s Hc _ IH]; [done|]. cbn [flat_map].
  rewrite IH. unfold esc. destruct (Z.eqb_spec c 126); [lia|]. by destruct (Z.eqb_spec c 47); [lia|].
Qed.

Lemma index_path_to_string tk i : index_path (to_string tk) i = to_string (tk ++ [to_dec (Z.of_nat i)]).
Proof. rewrite <- key_path_to_string. unfold index_path, key_path. by rewrite escape_esc, to_dec_esc by lia. Qed.

Lemma dash_path_to_string tk : to_string tk ++ str "/-" = to_string (tk ++ [str "-"]).
Proof. by rewrite <- key_path_to_string. Qed.

Lemma back_snoc (p : json_pointer) t : back (p ++ [t]) = Ret t.
Proof. unfold back. by rewrite last_snoc. Qed.

Lemma pop_back_snoc (p : json_pointer) t : pop_back (p ++ [t]) = Ret p.
Proof.
  unfold pop_back. destruct (p ++ [t]) as [|x q] eqn:E; [by destruct p|]. rewrite <- E, length_app. simpl.
  by rewrite Nat.add_sub, take_app_length.
Qed.

(** A call through a reference that leads to [v]. *)
Lemma at_ref_run {A} (a : M F A) doc r v : path_get doc r = Some v ->
  at_ref r a doc = let '(c, v') := a v in (c, path_alter (fun _ => v') doc r).
Proof. intros Hv. unfold at_ref. by rewrite Hv. Qed.

Lemma operation_add_run tk t w doc r v : get_checked_ref tk doc = Ret r -> path_get doc r = Some v ->
  operation_add (tk ++ [t]) w doc = at_ref r (add_child t w) doc.
Proof.
  intros Hr Hv. unfold operation_add. destruct (tk ++ [t]) as [|x q] eqn:E; [by destruct tk|].
  unfold mbind, mlift. cbn [top].
  rewrite <- E. case_decide as Ed.
  - cbn. rewrite back_snoc, pop_back_snoc. unfold at_pointer. by rewrite Hr.
  - destruct tk as [|t0 tk]; [destruct Ed; by injection E as <- <-|]. injection E as -> _.
    destruct (get_checked_ref_prefix _ _ _ _ Hr) as [r0 Er0]. unfold at_pointer at 1. rewrite Er0.
    rewrite back_snoc, pop_back_snoc. unfold at_pointer. by rewrite Hr.
Qed.

(** The JSON form of the operations. *)
Lemma op_value_object op path w : op = "add" \/ op = "replace" ->
  op_value op path w = value_object [(str "op", value_string (str op)); (str "path", value_string path); (str "value", w)].
Proof. by intros [-> | ->]. Qed.

Lemma op_removal_object path : op_removal (F:=F) path =
  Ret (value_object [(str "op", value_string (str "remove")); (str "path", value_string path)]).
Proof. reflexivity. Qed.

Definition add_op tk w : json F := op_value "add" (to_string tk) w.
Definition replace_op tk w : json F := op_value "replace" (to_string tk) w.
Definition remove_op tk : json F :=
  value_object [(str "op", value_string (str "remove")); (str "path", value_string (to_string tk))].

(** An operation whose members are well formed runs its case of the switch. *)
Lemma patch_operation_switch m op tk doc :
  object_find (str "op") m = Some (value_string op) ->
  object_find (str "path") m = Some (value_string (to_string tk)) ->
  patch_loop [value_object m] doc = patch_switch (get_op op) tk (value_object m) doc.
Proof.
  intros Ho Hp. cbn [patch_loop]. unfold patch_operation. cbn [is_object negb].
  unfold mbind, mlift, get_string_value. cbn [get_value]. rewrite Ho, Hp. cbn [is_string negb andb comp_bind get_string].
  rewrite split_to_string. unfold mret. by destruct (patch_switch _ _ _ doc) as [[[]| |] ?].
Qed.

Lemma patch_loop_add tk w doc : patch_loop [add_op tk w] doc = operation_add tk w doc.
Proof.
  unfold add_op. rewrite op_value_object by auto. rewrite (patch_operation_switch _ (str "add") tk) by done. done.
Qed.

Lemma patch_loop_replace tk w doc r v : get_checked_ref tk doc = Ret r -> path_get doc r = Some v ->
  patch_loop [replace_op tk w] doc = (Ret tt, path_alter (fun _ => w) doc r).
Proof.
  intros Hr Hv. unfold replace_op. rewrite op_value_object by auto.
  rewrite (patch_operation_switch _ (str "replace") tk) by done.
  change (get_op (str "replace")) with op_replace. unfold patch_switch, mbind at 1, mlift.
  change (get_value _ (str "value") false) with (Ret w). unfold mbind, at_pointer. rewrite Hr.
  by rewrite (at_ref_run _ _ _ _ Hv).
Qed.

Lemma patch_loop_remove tk t doc r v : get_checked_ref tk doc = Ret r -> path_get doc r = Some v ->
  patch_loop [remove_op (tk ++ [t])] doc =
  let '(c, v') := remove_child t v in (c, path_alter (fun _ => v') doc r).
Proof.
  intros Hr Hv. unfold remove_op. rewrite (patch_operation_switch _ (str "remove") (tk ++ [t])) by done.
  change (get_op (str "remove")) with op_remove. unfold patch_switch, operation_remove, mbind, mlift.
  rewrite back_snoc, pop_back_snoc. unfold at_pointer. by rewrite Hr, (at_ref_run _ _ _ _ Hv).
Qed.

Lemma moves_replace tk v w : moves tk [replace_op tk w] v w.
Proof. intros doc r Hr Hv. by eapply patch_loop_replace. Qed.

Lemma moves_remove_key tk k m : is_Some (object_find k m) ->
  moves tk [remove_op (tk ++ [k])] (value_object m) (value_object (object_erase k m)).
Proof.
  intros [w Hw] doc r Hr Hv. rewrite (patch_loop_remove _ _ _ _ _ Hr Hv).
  unfold remove_child, mbind, mget, contains_key. simpl. by rewrite Hw.
Qed.

Lemma moves_remove_last tk l x : Z.of_nat (length l) < SIZE_TYPE_MAX ->
  moves tk [remove_op (tk ++ [to_dec (Z.of_nat (length l))])] (value_array (l ++ [x])) (value_array l).
Proof.
  intros Hl doc r Hr Hv. rewrite (patch_loop_remove _ _ _ _ _ Hr Hv).
  assert (array_index (to_dec (Z.of_nat (length l))) = Ret (Z.of_nat (length l))) as Ei
    by (apply array_index_exact; split; [done|lia]).
  unfold remove_child, mbind, mget, mlift. rewrite Ei. unfold erase_idx, mbind, mget. cbn [is_array size].
  destruct (Z.leb_spec (Z.of_nat (length (l ++ [x]))) (Z.of_nat (length l))) as [Hle|_];
    [rewrite length_app in Hle; simpl in Hle; lia|].
  unfold array_do, mmod. rewrite Nat2Z.id, delete_middle, app_nil_r. done.
Qed.

Lemma moves_add_key tk k m w :
  moves tk [add_op (tk ++ [k]) w] (value_object m) (value_object (object_assign k w m)).
Proof.
  intros doc r Hr Hv. rewrite patch_loop_add, (operation_add_run _ _ _ _ _ _ Hr Hv), (at_ref_run _ _ _ _ Hv).
  unfold add_child, mbind, mget, mmod. cbn [index_key]. unfold at_ref. cbn [path_get step_get].
  destruct (object_find k (object_emplace k value_null m)) as [v'|] eqn:E; [done|exfalso].
  assert (is_Some (object_find k (object_emplace k (@value_null F) m))) as [? ?]; [|congruence].
  clear. induction m as [|[k' v'] m IH]; simpl; [rewrite decide_True; eauto|].
  destruct (decide (k = k')); simpl; [rewrite decide_True; eauto|].
  destruct (key_ltb k k'); simpl; [rewrite decide_True; eauto|]. by rewrite decide_False.
Qed.

Lemma moves_add_last tk l w : moves tk [add_op (tk ++ [str "-"]) w] (value_array l) (value_array (l ++ [w])).
Proof.
  intros doc r Hr Hv. rewrite patch_loop_add, (operation_add_run _ _ _ _ _ _ Hr Hv), (at_ref_run _ _ _ _ Hv). done.
Qed.
End PatchFacts.
