(* ===== verification/JsonFlatten.v ===== *)
(** [flatten] and [unflatten] of [src/libephmem/json.hpp], and the accesses
    of [json_pointer] that create what they do not find ([get_and_create],
    [get_unchecked]). *)
From S2P Require Import Prelude CLib JsonValue JsonCompare JsonModify JsonSerializer JsonPointer JsonPatch.

Section Flatten.
Context {F : Type}.
Implicit Types (j v x : json F) (m : list (bytes * json F)) (l : list (json F)).

(** ** Access that creates *)

(** Follow a reference that [operator[]] has just created. *)
Definition into (s : pstep) (k : json F -> comp (list pstep * json F)) j : comp (list pstep * json F) :=
  match step_get j s with
  | Some c => let* '(r, c) := k c in Ret (s :: r, step_alter (fun _ => c) j s)
  | None => Throw buffer_overrun
  end.

(** The reference and the value after the call. *)
Fixpoint get_and_create (p : json_pointer) j : comp (list pstep * json F) :=
  match p with
  | [] => Ret ([], j)
  | reference_token :: p =>
      match j with
      | value_null =>
          if decide (reference_token = str "0")
          then let* j := index_idx j 0 in into (PIdx 0) (get_and_create p) j
          else let* j := index_key j reference_token in into (PKey reference_token) (get_and_create p) j
      | value_object _ => let* j := index_key j reference_token in into (PKey reference_token) (get_and_create p) j
      | value_array _ =>
          let* i := array_index reference_token in
          let* j := index_idx j (Z.to_nat i) in
          into (PIdx (Z.to_nat i)) (get_and_create p) j
      | _ => Throw (type_error 313)
      end
  end.

(** [get_unchecked] of a mutable value. *)
Fixpoint get_unchecked (p : json_pointer) j : comp (list pstep * json F) :=
  match p with
  | [] => Ret ([], j)
  | reference_token :: p =>
      let nums := forallb is_digit reference_token in
      let j :=
        if is_null j
        then (if nums || bool_decide (reference_token = str "-") then value_array [] else value_object [])
        else j in
      match j with
      | value_object _ => let* j := index_key j reference_token in into (PKey reference_token) (get_unchecked p) j
      | value_array l =>
          if decide (reference_token = str "-")
          then let* j := index_idx j (length l) in into (PIdx (length l)) (get_unchecked p) j
          else
            let* i := array_index reference_token in
            let* j := index_idx j (Z.to_nat i) in
            into (PIdx (Z.to_nat i)) (get_unchecked p) j
      | _ => Throw (out_of_range 404)
      end
  end.

(** [get_unchecked] of a constant value: an index past the end is undefined
    behaviour, a key that is not there fails an assertion. *)
Fixpoint get_unchecked_const (p : json_pointer) j : comp (json F) :=
  match p with
  | [] => Ret j
  | reference_token :: p =>
      match j with
      | value_object m =>
          match object_find reference_token m with
          | Some j => get_unchecked_const p j
          | None => Throw assertion_failure
          end
      | value_array l =>
          if decide (reference_token = str "-") then Throw (out_of_range 402)
          else
            let* i := array_index reference_token in
            match l !! Z.to_nat i with
            | Some j => get_unchecked_const p j
            | None => Throw buffer_overrun
            end
      | _ => Throw (out_of_range 404)
      end
  end.

(** ** [flatten] *)

(** [json_pointer::flatten]: [result] is an object throughout. *)
Fixpoint flatten_into (reference_string : bytes) (value : json F) (result : list (bytes * json F)) :
    list (bytes * json F) :=
  match value with
  | value_array l =>
      if empty value then object_assign reference_string value_null result
      else
        (fix loop (i : nat) (l : list (json F)) result :=
           match l with
           | [] => result
           | v :: l =>
               loop (S i) l (flatten_into (reference_string ++ str "/" ++ to_dec (Z.of_nat i)) v result)
           end) 0%nat l result
  | value_object m =>
      if empty value then object_assign reference_string value_null result
      else
        (fix loop (m : list (bytes * json F)) result :=
           match m with
           | [] => result
           | (k, v) :: m => loop m (flatten_into (reference_string ++ str "/" ++ escape k) v result)
           end) m result
  | _ => object_assign reference_string value result
  end.

Definition flatten j : json F := value_object (flatten_into [] j []).

(** ** [unflatten] *)

(** [json_pointer(key).get_and_create(result) = value] *)
Definition create_at (key : bytes) x (result : json F) : comp (json F) :=
  let* p := split key in
  let* '(r, result) := get_and_create p result in
  Ret (path_alter (fun _ => x) result r).

Fixpoint unflatten_loop (m : list (bytes * json F)) (result : json F) : comp (json F) :=
  match m with
  | [] => Ret result
  | (k, x) :: m =>
      if negb (is_primitive x) then Throw (type_error 315)
      else let* result := create_at k x result in unflatten_loop m result
  end.

Definition unflatten j : comp (json F) :=
  match j with
  | value_object m => unflatten_loop m value_null
  | _ => Throw (type_error 314)
  end.
End Flatten.

Example flatten_ex :
  flatten (value_object [(str "a/b", value_array [@value_boolean Z true; value_object []]); (str "c", value_null)]) =
  value_object [(str "/a~1b/0", value_boolean true); (str "/a~1b/1", value_null); (str "/c", value_null)].
Proof. vm_compute. reflexivity. Qed.

Example unflatten_ex :
  unflatten (value_object [(str "/a~1b/0", @value_boolean Z true); (str "/a~1b/1", value_null); (str "/c", value_null)]) =
  Ret (value_object [(str "a/b", value_array [value_boolean true; value_null]); (str "c", value_null)]).
Proof. vm_compute. reflexivity. Qed.

(** A member named 0 makes an array of its object. *)
Example unflatten_zero_key :
  unflatten (flatten (value_object [(str "0", @value_boolean Z true)])) = Ret (value_array [value_boolean true]).
Proof. vm_compute. reflexivity. Qed.

Example unflatten_zero_key_throws :
  unflatten (flatten (value_object [(str "0", @value_boolean Z true); (str "a", value_null)])) =
  Throw (out_of_range 404).
Proof. vm_compute. reflexivity. Qed.

(** The empty token passes the test for digits, so a null becomes an array,
    in which it is no index. *)
Example empty_token_on_null : get_unchecked [[]] (@value_null Z) = Throw (out_of_range 404).
Proof. reflexivity. Qed.

(** ** The round trip

    A value is described by its leaves, each with the tokens that lead to it;
    [flatten] collects them in an object, and [unflatten] rebuilds the value
    although it meets them in the order of their texts, in which element 10 of
    an array comes before element 2. *)

Section Spec.
Context {F : Type}.
Implicit Types (j v x : json F) (m : list (bytes * json F)) (l : list (json F)).

Abbreviation entry := (json_pointer * json F)%type.
Implicit Types (e : entry) (es : list entry).

Definition under (t : bytes) (es : list entry) : list entry := map (fun e => (t :: e.1, e.2)) es.

(** The leaves of a value; an empty container is a null leaf. *)
Fixpoint leaves j : list entry :=
  match j with
  | value_array l =>
      if empty j then [([], value_null)]
      else (fix loop (i : nat) l :=
              match l with
              | [] => []
              | v :: l => under (to_dec (Z.of_nat i)) (leaves v) ++ loop (S i) l
              end) 0%nat l
  | value_object m =>
      if empty j then [([], value_null)]
      else flat_map (fun kv => under kv.1 (leaves kv.2)) m
  | _ => [([], j)]
  end.

Definition leaves_from (i : nat) l : list entry :=
  (fix loop (i : nat) l :=
     match l with
     | [] => []
     | v :: l => under (to_dec (Z.of_nat i)) (leaves v) ++ loop (S i) l
     end) i l.

(** Empty containers become null. *)
Fixpoint no_empty j : json F :=
  match j with
  | value_array l => if empty j then value_null else value_array (map no_empty l)
  | value_object m => if empty j then value_null else value_object (map (fun kv => (kv.1, no_empty kv.2)) m)
  | _ => j
  end.

(** No member is named 0, and no value is discarded. *)
Inductive restorable : json F -> Prop :=
  | restorable_object m : str "0" ∉ keys m -> Forall (fun kv => restorable kv.2) m -> restorable (value_object m)
  | restorable_array l : Forall restorable l -> restorable (value_array l)
  | restorable_primitive j : is_primitive j = true -> restorable j.

(** ** [flatten] collects the leaves *)

Definition add_entry (reference_string : bytes) m e : list (bytes * json F) :=
  object_assign (reference_string ++ to_string e.1) e.2 m.

Lemma to_string_cons t p : to_string (t :: p) = str "/" ++ escape t ++ to_string p.
Proof. rewrite !to_string_flat, escape_esc. done. Qed.

Lemma add_entry_under rs t es m :
  fold_left (add_entry rs) (under t es) m = fold_left (add_entry (rs ++ str "/" ++ escape t)) es m.
Proof.
  revert m. induction es as [|e es IH]; intros m; [done|]. cbn [under map fold_left]. rewrite <- IH. f_equal.
  unfold add_entry. cbn [fst snd]. by rewrite to_string_cons, <- !app_assoc.
Qed.

Lemma to_dec_escape n : 0 <= n -> escape (to_dec n) = to_dec n.
Proof.
  intros Hn. rewrite escape_esc. pose proof (to_dec_digits n Hn) as Hd. induction Hd as [|c s Hc _ IH]; [done|].
  cbn [flat_map]. rewrite IH. unfold esc. destruct (Z.eqb_spec c 126); [lia|]. by destruct (Z.eqb_spec c 47); [lia|].
Qed.

(** The loops of [flatten]. *)
Definition flatten_members (rs : bytes) : list (bytes * json F) -> list (bytes * json F) -> list (bytes * json F) :=
  fix loop m result :=
    match m with
    | [] => result
    | (k, v) :: m => loop m (flatten_into (rs ++ str "/" ++ escape k) v result)
    end.

Definition flatten_elements (rs : bytes) : nat -> list (json F) -> list (bytes * json F) -> list (bytes * json F) :=
  fix loop i l result :=
    match l with
    | [] => result
    | v :: l => loop (S i) l (flatten_into (rs ++ str "/" ++ to_dec (Z.of_nat i)) v result)
    end.

Lemma flatten_object rs m r : m <> [] -> flatten_into rs (value_object m) r = flatten_members rs m r.
Proof. by destruct m. Qed.

Lemma flatten_array rs l r : l <> [] -> flatten_into rs (value_array l) r = flatten_elements rs 0 l r.
Proof. by destruct l. Qed.

Lemma leaves_object m : m <> [] -> leaves (value_object m) = flat_map (fun kv => under kv.1 (leaves kv.2)) m.
Proof. by destruct m. Qed.

Lemma leaves_array l : l <> [] -> leaves (value_array l) = leaves_from 0 l.
Proof. by destruct l. Qed.

Lemma flatten_into_leaves j : forall rs m, flatten_into rs j m = fold_left (add_entry rs) (leaves j) m.
Proof.
  induction j as [|mj IH|l IH|s|b|z|z|f|b t|] using json_ind'; intros rs m;
    try (cbn; unfold add_entry; cbn; by rewrite app_nil_r).
  - destruct (decide (mj = [])) as [->|Hne]; [cbn; unfold add_entry; cbn; by rewrite app_nil_r|].
    rewrite flatten_object, leaves_object by done. clear Hne. revert m.
    induction IH as [|[k v] mj Hv _ IHm]; intros m; [done|].
    cbn [flat_map fst snd flatten_members]. rewrite fold_left_app, add_entry_under, <- Hv. apply IHm.
  - destruct (decide (l = [])) as [->|Hne]; [cbn; unfold add_entry; cbn; by rewrite app_nil_r|].
    rewrite flatten_array, leaves_array by done. clear Hne. generalize 0%nat. revert m.
    induction IH as [|v l Hv _ IHl]; intros m i; [done|].
    change (leaves_from i (v :: l)) with (under (to_dec (Z.of_nat i)) (leaves v) ++ leaves_from (S i) l).
    cbn [flatten_elements]. rewrite fold_left_app, add_entry_under, to_dec_escape, <- Hv by lia. apply IHl.
Qed.

(** ** Distinct texts *)

Lemma to_string_inj p q : to_string p = to_string q -> p = q.
Proof. intros E. pose proof (split_to_string p) as Hp. rewrite E, split_to_string in Hp. by injection Hp. Qed.

Lemma under_elem t p x es : (p, x) ∈ under t es <-> exists q, p = t :: q /\ (q, x) ∈ es.
Proof.
  unfold under. rewrite list_elem_of_fmap. split.
  - intros ([q y] & [= -> ->] & Hin). eauto.
  - intros (q & -> & Hin). by exists (q, x).
Qed.

Lemma to_dec_inj a b : 0 <= a -> 0 <= b -> to_dec a = to_dec b -> a = b.
Proof. intros Ha Hb E. rewrite <- (dec_value_to_dec a), <- (dec_value_to_dec b) by done. by rewrite E. Qed.

Lemma leaves_from_elem i l p x : (p, x) ∈ leaves_from i l <->
  exists n v q, l !! n = Some v /\ p = to_dec (Z.of_nat (i + n)) :: q /\ (q, x) ∈ leaves v.
Proof.
  revert i. induction l as [|v l IH]; intros i.
  { split; [by intros ?%elem_of_nil|]. intros (n & v & q & E & _). done. }
  change (leaves_from i (v :: l)) with (under (to_dec (Z.of_nat i)) (leaves v) ++ leaves_from (S i) l).
  rewrite elem_of_app, under_elem, IH. split.
  - intros [(q & -> & Hin)|(n & w & q & E & -> & Hin)].
    + exists 0%nat, v, q. by rewrite Nat.add_0_r.
    + exists (S n), w, q. by rewrite Nat.add_succ_r.
  - intros ([|n] & w & q & E & -> & Hin).
    + left. injection E as ->. exists q. by rewrite Nat.add_0_r.
    + right. exists n, w, q. by rewrite Nat.add_succ_r.
Qed.

Lemma leaves_object_elem m p x : (p, x) ∈ flat_map (fun kv => under kv.1 (leaves kv.2)) m <->
  exists k v q, (k, v) ∈ m /\ p = k :: q /\ (q, x) ∈ leaves v.
Proof.
  induction m as [|[k v] m IH]; cbn [flat_map].
  { split; [by intros ?%elem_of_nil|]. by intros (k & v & q & ?%elem_of_nil & _). }
  rewrite elem_of_app, under_elem, IH. setoid_rewrite elem_of_cons. cbn [fst snd]. split.
  - intros [(q & -> & Hin)|(k' & v' & q & Hm & -> & Hin)]; [exists k, v, q|exists k', v', q]; eauto.
  - intros (k' & v' & q & [[= -> ->]|Hm] & -> & Hin); [left|right]; eauto 6.
Qed.

Lemma NoDup_under t es : NoDup es.*1 -> NoDup (under t es).*1.
Proof.
  intros Hnd. assert ((under t es).*1 = cons t <$> es.*1) as ->.
  { clear. induction es as [|e es IH]; [done|]. cbn. f_equal. exact IH. }
  by apply (NoDup_fmap_2 _).
Qed.

Lemma fst_elem p es : p ∈ es.*1 <-> exists x, (p, x) ∈ es.
Proof.
  rewrite list_elem_of_fmap. split; [intros ([q x] & -> & Hin); eauto|]. intros [x Hin]. by exists (p, x).
Qed.

Lemma leaves_NoDup j : storable j -> NoDup (leaves j).*1.
Proof.
  induction j as [|mj IH|l IH|s|b|z|z|f|b t|] using json_ind'; intros Hj; try apply NoDup_singleton.
  - apply storable_object_inv in Hj as [Hs Hm].
    destruct (decide (mj = [])) as [->|Hne]; [apply NoDup_singleton|]. rewrite leaves_object by done. clear Hne.
    induction IH as [|[k v] mj Hv _ IHm]; [constructor|]. inversion Hm; subst.
    cbn [flat_map fst snd]. rewrite fmap_app. apply NoDup_app. split_and!.
    + apply NoDup_under. auto.
    + intros p Hp Hq. apply fst_elem in Hp as [x Hp], Hq as [y Hq].
      apply under_elem in Hp as (q & -> & _). apply leaves_object_elem in Hq as (k' & v' & q' & Hin & [= <- <-] & _).
      assert (k ∈ keys mj) as Hk by (apply (list_elem_of_fmap_2 fst) in Hin; done).
      eapply sorted_keys_lt in Hk; [|done]. by apply key_lt_ne in Hk.
    + apply IHm; [by eapply sorted_object_tail|done].
  - apply storable_array_inv in Hj as [_ Hl].
    destruct (decide (l = [])) as [->|Hne]; [apply NoDup_singleton|]. rewrite leaves_array by done. clear Hne.
    generalize 0%nat. induction IH as [|v l Hv _ IHl]; intros i; [constructor|]. inversion Hl; subst.
    change (leaves_from i (v :: l)) with (under (to_dec (Z.of_nat i)) (leaves v) ++ leaves_from (S i) l).
    rewrite fmap_app. apply NoDup_app. split_and!; [apply NoDup_under; auto| |auto].
    intros p Hp Hq. apply fst_elem in Hp as [x Hp], Hq as [y Hq].
    apply under_elem in Hp as (q & -> & _). apply leaves_from_elem in Hq as (n & v' & q' & _ & [= E _] & _).
    apply to_dec_inj in E; lia.
Qed.

(** ** [unflatten] sets the leaves one after the other *)

Definition set_step (s : pstep) (k : json F -> comp (json F)) j : comp (json F) :=
  match step_get j s with
  | Some c => let* c := k c in Ret (step_alter (fun _ => c) j s)
  | None => Throw buffer_overrun
  end.

(** [get_and_create] followed by the assignment. *)
Fixpoint set_path (p : json_pointer) x j : comp (json F) :=
  match p with
  | [] => Ret x
  | t :: p =>
      match j with
      | value_null =>
          if decide (t = str "0")
          then let* j := index_idx j 0 in set_step (PIdx 0) (set_path p x) j
          else let* j := index_key j t in set_step (PKey t) (set_path p x) j
      | value_object _ => let* j := index_key j t in set_step (PKey t) (set_path p x) j
      | value_array _ =>
          let* i := array_index t in
          let* j := index_idx j (Z.to_nat i) in
          set_step (PIdx (Z.to_nat i)) (set_path p x) j
      | _ => Throw (type_error 313)
      end
  end.

Lemma into_set s (k : json F -> comp (list pstep * json F)) (k' : json F -> comp (json F)) x j :
  (forall c, (let* '(r, c) := k c in Ret (path_alter (fun _ => x) c r)) = k' c) ->
  (let* '(r, j) := into s k j in Ret (path_alter (fun _ => x) j r)) = set_step s k' j.
Proof.
  intros Hk. unfold into, set_step. destruct (step_get j s) as [c|] eqn:E; [|done]. rewrite <- Hk.
  destruct (k c) as [[r c']| |]; cbn [comp_bind]; [|done..]. f_equal. cbn [path_alter].
  destruct s, j; try done; simpl; f_equal.
  - by rewrite list_alter_alter.
  - by rewrite object_alter_alter.
Qed.

Lemma set_path_create p x : forall j,
  (let* '(r, j) := get_and_create p j in Ret (path_alter (fun _ => x) j r)) = set_path p x j.
Proof.
  induction p as [|t p IH]; intros j; [done|].
  destruct j as [|m|l| | | | | | |]; try done; cbn [get_and_create set_path].
  - case_decide; cbn [index_idx index_key comp_bind]; by apply into_set.
  - cbn [index_key comp_bind]. by apply into_set.
  - destruct (array_index t); cbn [comp_bind index_idx]; [|done..]. by apply into_set.
Qed.

Fixpoint rebuild es j : comp (json F) :=
  match es with
  | [] => Ret j
  | e :: es => let* j := set_path e.1 e.2 j in rebuild es j
  end.

Definition texts es : list (bytes * json F) := map (fun e => (to_string e.1, e.2)) es.

Lemma unflatten_rebuild es : Forall (fun e => is_primitive e.2 = true) es -> forall j,
  unflatten_loop (texts es) j = rebuild es j.
Proof.
  induction 1 as [|[p x] es Hx _ IH]; intros j; [done|]. cbn [texts map unflatten_loop rebuild fst snd] in *.
  rewrite Hx. cbn [negb]. unfold create_at. rewrite split_to_string. cbn [comp_bind]. rewrite set_path_create.
  destruct (set_path p x j); cbn [comp_bind]; [apply IH|done..].
Qed.

(** ** The entries below one token *)

Definition sub (t : bytes) es : list entry :=
  omap (fun e => match e.1 with t' :: q => if decide (t' = t) then Some (q, e.2) else None | [] => None end) es.

Lemma sub_elem t es q x : (q, x) ∈ sub t es <-> (t :: q, x) ∈ es.
Proof.
  unfold sub. rewrite list_elem_of_omap. split.
  - intros ([p y] & Hin & E). cbn [fst snd] in E. destruct p as [|t' p]; [done|]. case_decide; [|done].
    subst. by injection E as -> ->.
  - intros Hin. exists (t :: q, x). split; [done|]. cbn. by rewrite decide_True.
Qed.

Definition text_lt (e e' : entry) : Prop := key_lt (to_string e.1) (to_string e'.1).
Definition sorted_entries es : Prop := StronglySorted text_lt es.

Lemma key_ltb_app a b c : key_ltb (a ++ b) (a ++ c) = key_ltb b c.
Proof. induction a as [|x a IH]; [done|]. simpl. by rewrite Z.ltb_irrefl. Qed.

Lemma sub_sorted t es : sorted_entries es -> sorted_entries (sub t es).
Proof.
  unfold sorted_entries. induction 1 as [|[p x] es Hs IH Hall]; [constructor|]. unfold sub. cbn [omap list_omap fst snd].
  destruct p as [|t' p]; [exact IH|]. case_decide; [|exact IH]. subst. constructor; [exact IH|].
  apply Forall_forall. intros [q y] Hin. apply sub_elem in Hin.
  apply (proj1 (Forall_forall _ _) Hall) in Hin. unfold text_lt, key_lt in *. cbn [fst] in *.
  rewrite !to_string_cons in Hin. by rewrite !app_assoc, key_ltb_app in Hin.
Qed.

Lemma sub_cons t q x es : sub t ((t :: q, x) :: es) = (q, x) :: sub t es.
Proof. unfold sub. cbn. by rewrite decide_True. Qed.

Lemma sub_cons_ne t t' q x es : t' <> t -> sub t ((t' :: q, x) :: es) = sub t es.
Proof. intros. unfold sub. cbn. by rewrite decide_False. Qed.

(** ** Rebuilding an array *)

Lemma set_path_array i q x (a : list (json F)) c1 : Z.of_nat i < SIZE_TYPE_MAX ->
  set_path q x (default value_null (a !! i)) = Ret c1 ->
  exists a1, set_path (to_dec (Z.of_nat i) :: q) x (value_array a) = Ret (value_array a1) /\
    length a1 = Nat.max (length a) (S i) /\ a1 !! i = Some c1 /\
    forall k, k <> i -> default value_null (a1 !! k) = default value_null (a !! k).
Proof.
  intros Hi Hc. set (b := a ++ replicate (S i - length a) value_null).
  assert (length b = Nat.max (length a) (S i)) as Hlen by (unfold b; rewrite length_app, length_replicate; lia).
  assert (forall k, default value_null (b !! k) = default value_null (a !! k)) as Hb.
  { intros k. unfold b. destruct (a !! k) as [y|] eqn:E; [by rewrite (lookup_app_l_Some _ _ _ _ E)|].
    apply lookup_ge_None in E. rewrite lookup_app_r by done.
    destruct (replicate _ _ !! _) eqn:Er; [|done]. by apply lookup_replicate in Er as [-> _]. }
  destruct (b !! i) as [y|] eqn:Ei; [|apply lookup_ge_None in Ei; lia].
  exists (alter (fun _ => c1) i b). split_and!.
  - cbn [set_path]. rewrite (proj2 (array_index_exact (to_dec (Z.of_nat i)) (Z.of_nat i))) by (split; [done|lia]).
    cbn [comp_bind index_idx]. rewrite Nat2Z.id. fold b. unfold set_step. cbn [step_get]. rewrite Ei.
    assert (y = default value_null (a !! i)) as -> by (rewrite <- Hb, Ei; done). by rewrite Hc.
  - by rewrite length_alter.
  - by rewrite list_lookup_alter, decide_True, Ei.
  - intros k Hk. by rewrite list_lookup_alter, decide_False, Hb.
Qed.

Lemma rebuild_array n es : Z.of_nat n < SIZE_TYPE_MAX ->
  (forall p x, (p, x) ∈ es -> exists i q, p = to_dec (Z.of_nat i) :: q /\ (i < n)%nat) ->
  forall a, (length a <= n)%nat ->
  (forall i, (i < n)%nat -> exists c, rebuild (sub (to_dec (Z.of_nat i)) es) (default value_null (a !! i)) = Ret c) ->
  exists a', rebuild es (value_array a) = Ret (value_array a') /\
    (length a <= length a' <= n)%nat /\
    (forall i q x, (to_dec (Z.of_nat i) :: q, x) ∈ es -> (i < length a')%nat) /\
    forall i, (i < n)%nat ->
      rebuild (sub (to_dec (Z.of_nat i)) es) (default value_null (a !! i)) = Ret (default value_null (a' !! i)).
Proof.
  intros Hn. induction es as [|[p x] es IH]; intros Hes a Ha Hsub.
  { exists a. split_and!; [done|lia|lia|by intros ? ? ? ?%elem_of_nil|done]. }
  destruct (Hes p x) as (i & q & -> & Hi); [by left|].
  destruct (Hsub i Hi) as [c Hc]. rewrite sub_cons in Hc. cbn [rebuild fst snd] in Hc.
  apply comp_bind_ret in Hc as (c1 & Hc1 & Hc).
  destruct (set_path_array i q x a c1 ltac:(lia) Hc1) as (a1 & E1 & Hl1 & Hi1 & Hk1).
  destruct (IH (fun p x H => Hes p x (list_elem_of_further _ _ _ H)) a1) as (a' & E' & Hl' & Hin' & Hr').
  { lia. }
  { intros k Hk. destruct (decide (k = i)) as [->|Hne]; [rewrite Hi1; eauto|].
    rewrite Hk1 by done. destruct (Hsub k Hk) as [d Hd]. rewrite sub_cons_ne in Hd; [eauto|].
    intros E. apply to_dec_inj in E; lia. }
  exists a'. split_and!; [cbn [rebuild fst snd]; by rewrite E1|lia|lia| |].
  - intros k q' y Hin. apply elem_of_cons in Hin as [[= E _ _]|Hin]; [|by eapply Hin'].
    apply to_dec_inj in E; [|lia..]. lia.
  - intros k Hk. destruct (decide (k = i)) as [->|Hne].
    + rewrite sub_cons. cbn [rebuild fst snd]. rewrite Hc1. cbn [comp_bind]. rewrite <- Hr', Hi1 by done. done.
    + rewrite sub_cons_ne, <- Hk1, Hr'; [done..|]. intros E. apply to_dec_inj in E; lia.
Qed.

(** ** Rebuilding an object *)

Lemma set_path_object k q x m c1 : sorted_object m ->
  set_path q x (default value_null (object_find k m)) = Ret c1 ->
  set_path (k :: q) x (value_object m) = Ret (value_object (object_assign k c1 m)).
Proof.
  intros Hs Hc. cbn [set_path index_key comp_bind]. unfold set_step. cbn [step_get].
  by rewrite object_emplace_find_eq, Hc.
Qed.

Lemma rebuild_object es : (forall p x, (p, x) ∈ es -> p <> []) -> forall m, sorted_object m ->
  (forall k, exists c, rebuild (sub k es) (default value_null (object_find k m)) = Ret c) ->
  exists m', rebuild es (value_object m) = Ret (value_object m') /\ sorted_object m' /\
    forall k c, rebuild (sub k es) (default value_null (object_find k m)) = Ret c ->
      object_find k m' = match sub k es with [] => object_find k m | _ => Some c end.
Proof.
  induction es as [|[p x] es IH]; intros Hes m Hs Hsub; [by exists m|].
  destruct p as [|k q]; [by destruct (Hes [] x); [left|]|].
  destruct (Hsub k) as [c Hc]. rewrite sub_cons in Hc. cbn [rebuild fst snd] in Hc.
  apply comp_bind_ret in Hc as (c1 & Hc1 & Hc).
  destruct (IH (fun p x H => Hes p x (list_elem_of_further _ _ _ H)) (object_assign k c1 m)) as (m' & E' & Hs' & Hf').
  { by apply object_assign_sorted. }
  { intros k'. rewrite object_assign_find by done. destruct (decide (k' = k)) as [->|Hne]; [eauto|].
    destruct (Hsub k') as [d Hd]. rewrite sub_cons_ne in Hd by done. eauto. }
  exists m'. split_and!; [|done|].
  - cbn [rebuild fst snd]. by rewrite (set_path_object _ _ _ _ c1).
  - intros k' c'. destruct (decide (k' = k)) as [->|Hne].
    + rewrite sub_cons. cbn [rebuild fst snd]. rewrite Hc1. cbn [comp_bind]. intros Hc'.
      specialize (Hf' k c'). rewrite object_assign_find, decide_True in Hf' by done. rewrite (Hf' Hc').
      destruct (sub k es); [|done]. by injection Hc' as ->.
    + rewrite sub_cons_ne by done. intros Hc'. specialize (Hf' k' c').
      rewrite object_assign_find, decide_False in Hf' by done. by apply Hf'.
Qed.

(** The first entry decides what a null becomes. *)
Lemma rebuild_null_array q x es :
  rebuild ((str "0" :: q, x) :: es) value_null = rebuild ((str "0" :: q, x) :: es) (value_array []).
Proof. reflexivity. Qed.

Lemma rebuild_null_object k q x es : k <> str "0" ->
  rebuild ((k :: q, x) :: es) value_null = rebuild ((k :: q, x) :: es) (value_object []).
Proof. intros Hk. cbn [rebuild fst snd set_path]. by rewrite decide_False. Qed.

(** ** The round trip *)

(** The entries are the leaves, in whatever order. *)
Definition entries_of es j : Prop := forall p x, (p, x) ∈ es <-> (p, x) ∈ leaves j.

Lemma leaves_nonempty j : exists p x, (p, x) ∈ leaves j.
Proof.
  induction j as [|m IH|l IH|s|b|z|z|f|b t|] using json_ind'; try (eexists _, _; by left).
  - destruct IH as [|[k v] m (p & x & Hp) _]; [eexists _, _; by left|]. exists (k :: p), x.
    rewrite leaves_object by done. apply leaves_object_elem. exists k, v, p. split_and!; [by left|done|done].
  - destruct IH as [|v l (p & x & Hp) _]; [eexists _, _; by left|]. exists (to_dec 0 :: p), x.
    rewrite leaves_array by done. apply leaves_from_elem. by exists 0%nat, v, p.
Qed.

Lemma rebuild_leaf es x : sorted_entries es -> (forall p y, (p, y) ∈ es <-> (p, y) ∈ [([], x) : entry]) ->
  rebuild es value_null = Ret x.
Proof.
  intros Hs He. destruct es as [|[p y] es].
  { assert (([], x) ∈ ([] : list entry)) as Hn by (apply He; constructor). by apply elem_of_nil in Hn. }
  pose proof (proj1 (He p y) ltac:(constructor)) as Hp. apply list_elem_of_singleton in Hp as [= -> ->].
  destruct es as [|[p y] es]; [done|exfalso].
  pose proof (proj1 (He p y) ltac:(do 2 constructor)) as Hp. apply list_elem_of_singleton in Hp as [= -> ->].
  inversion Hs as [|? ? _ Hall]; subst. inversion Hall as [|? ? Hlt _]; subst. by apply key_lt_ne in Hlt.
Qed.

Lemma entries_of_element es l i v : entries_of es (value_array l) -> l !! i = Some v ->
  entries_of (sub (to_dec (Z.of_nat i)) es) v.
Proof.
  intros He Hv q x. assert (l <> []) as Hne by (by intros ->). rewrite sub_elem, (He (_ :: q) x), leaves_array, leaves_from_elem by done.
  split.
  - intros (n & w & q' & Hw & [= E ->] & Hin). apply to_dec_inj in E; [|lia..]. simpl in E.
    assert (n = i) as -> by lia. by simplify_eq.
  - intros Hin. by exists i, v, q.
Qed.

Lemma entries_of_member es m k v : sorted_object m -> entries_of es (value_object m) -> object_find k m = Some v ->
  entries_of (sub k es) v.
Proof.
  intros Hs He Hv q x. assert (m <> []) as Hne by (by intros ->).
  rewrite sub_elem, (He (_ :: q) x), leaves_object, leaves_object_elem by done. split.
  - intros (k' & w & q' & Hw & [= <- ->] & Hin). apply object_find_elem in Hw; [|done]. by simplify_eq.
  - intros Hin. apply object_find_in in Hv. by exists k, v, q.
Qed.

(** Of the texts below an array the first is below its first element. *)
Lemma first_is_zero i q x q0 x0 es : sorted_entries ((to_dec (Z.of_nat i) :: q, x) :: es) ->
  (str "0" :: q0, x0) ∈ (to_dec (Z.of_nat i) :: q, x) :: es -> i = 0%nat.
Proof.
  intros Hs Hin. apply elem_of_cons in Hin as [[= E _ _]|Hin].
  - assert (to_dec 0 = to_dec (Z.of_nat i)) as E' by exact E. apply to_dec_inj in E'; lia.
  - inversion Hs as [|? ? _ Hall]; subst. apply (proj1 (Forall_forall _ _) Hall) in Hin.
    unfold text_lt, key_lt in Hin. cbn [fst] in Hin. rewrite !to_string_cons, to_dec_escape in Hin by lia.
    rewrite key_ltb_app in Hin. destruct (decide (i = 0%nat)) as [|Hi]; [done|exfalso].
    destruct (to_dec_head (Z.of_nat i) ltac:(lia)) as (d & ds & E & Hd & _). rewrite E in Hin.
    change (escape (str "0")) with [48] in Hin. cbn [app key_ltb] in Hin.
    destruct (Z.ltb_spec d 48); [lia|]. destruct (Z.ltb_spec 48 d); [done|lia].
Qed.

Definition rebuilds j : Prop := forall es, storable j -> restorable j -> sorted_entries es -> entries_of es j ->
  rebuild es value_null = Ret (no_empty j).

Lemma rebuilds_array l : Forall rebuilds l -> rebuilds (value_array l).
Proof.
  intros IH es Hst Hre Hs He. destruct (decide (l = [])) as [->|Hne]; [by apply rebuild_leaf|].
  apply storable_array_inv in Hst as [Hlen Hst]. assert (Forall restorable l) as Hre' by (by inversion Hre).
  assert (forall p x, (p, x) ∈ es -> exists i q, p = to_dec (Z.of_nat i) :: q /\ (i < length l)%nat) as Hheads.
  { intros p x Hin. apply He in Hin. rewrite leaves_array in Hin by done.
    apply leaves_from_elem in Hin as (n & v & q & Hv & -> & _). exists n, q. split; [done|].
    by eapply lookup_lt_Some. }
  assert (forall i v, l !! i = Some v ->
    rebuild (sub (to_dec (Z.of_nat i)) es) (default value_null (([] : list (json F)) !! i)) = Ret (no_empty v)) as Hel.
  { intros i v Hv. apply (proj1 (Forall_lookup _ _) IH i v Hv);
      [by apply (proj1 (Forall_lookup _ _) Hst i)|by apply (proj1 (Forall_lookup _ _) Hre' i)|by apply sub_sorted|].
    by eapply entries_of_element. }
  destruct (rebuild_array (length l) es Hlen Hheads [] ltac:(simpl; lia)) as (a & E & Hla & Hin & Hr).
  { intros i Hi. apply lookup_lt_is_Some in Hi as [v Hv]. eauto. }
  assert (a = map no_empty l) as ->.
  { assert (length a = length l) as Hl.
    { destruct l as [|w l]; [done|]. destruct (lookup_lt_is_Some_2 (w :: l) (length l)) as [v Hv]; [simpl; lia|].
      destruct (leaves_nonempty v) as (q & x & Hq).
      assert (length l < length a)%nat; [|simpl in *; lia]. apply (Hin (length l) q x). apply He.
      rewrite leaves_array by done. apply leaves_from_elem. by exists (length l), v, q. }
    apply list_eq. intros i. rewrite list_lookup_fmap. destruct (l !! i) as [v|] eqn:Hv.
    - pose proof (lookup_lt_Some _ _ _ Hv) as Hi. specialize (Hr i Hi). rewrite (Hel i v Hv) in Hr.
      destruct (a !! i) as [y|] eqn:Ey; [|apply lookup_ge_None in Ey; lia]. simpl in *. congruence.
    - apply lookup_ge_None in Hv. apply lookup_ge_None. lia. }
  destruct es as [|[p x] es].
  { injection E as E. destruct l; [done|discriminate]. }
  destruct (Hheads p x) as (i & q & -> & Hi); [by left|].
  assert (i = 0%nat) as ->.
  { destruct l as [|w l]; [done|]. destruct (leaves_nonempty w) as (q0 & x0 & Hq0).
    apply (first_is_zero i q x q0 x0 es Hs), He. rewrite leaves_array by done. apply leaves_from_elem.
    by exists 0%nat, w, q0. }
  transitivity (rebuild ((str "0" :: q, x) :: es) (value_array [])); [apply rebuild_null_array|].
  etransitivity; [exact E|]. by destruct l.
Qed.

Lemma rebuilds_object m : Forall (fun kv => rebuilds kv.2) m -> rebuilds (value_object m).
Proof.
  intros IH es Hst Hre Hs He. destruct (decide (m = [])) as [->|Hne]; [by apply rebuild_leaf|].
  apply storable_object_inv in Hst as [Hsm Hst].
  assert (str "0" ∉ keys m /\ Forall (fun kv => restorable kv.2) m) as [H0 Hre'] by (by inversion Hre).
  assert (forall p x, (p, x) ∈ es -> exists k q, p = k :: q /\ k ∈ keys m) as Hheads.
  { intros p x Hin. apply He in Hin. rewrite leaves_object in Hin by done.
    apply leaves_object_elem in Hin as (k & v & q & Hv & -> & _). exists k, q. split; [done|].
    by apply (list_elem_of_fmap_2 fst) in Hv. }
  assert (forall k v, object_find k m = Some v -> rebuild (sub k es) value_null = Ret (no_empty v)) as Hel.
  { intros k v Hv. apply (Forall_object_find rebuilds k v m); [done|done|..|by apply sub_sorted|].
    - by apply (Forall_object_find storable k v m).
    - by apply (Forall_object_find restorable k v m).
    - by eapply entries_of_member. }
  assert (forall k, object_find k m = None -> sub k es = []) as Hnone.
  { intros k Hk. destruct (sub k es) as [|[q x] r] eqn:E; [done|exfalso].
    assert ((k :: q, x) ∈ es) as Hin by (apply sub_elem; rewrite E; by left).
    apply Hheads in Hin as (k' & q' & [= <- <-] & Hin). apply object_find_keys in Hin as [? ?]. congruence. }
  destruct (rebuild_object es) with (m := @nil (bytes * json F)) as (m' & E & Hsm' & Hf).
  { intros p x Hin ->. by apply Hheads in Hin as (? & ? & ? & _). }
  { constructor. }
  { intros k. cbn. destruct (object_find k m) as [v|] eqn:Hv; [eauto|]. rewrite (Hnone k Hv). by eexists. }
  assert (m' = map (fun kv => (kv.1, no_empty kv.2)) m) as ->.
  { assert (forall k, object_find k (map (fun kv => (kv.1, no_empty kv.2)) m) = no_empty <$> object_find k m) as Hmap.
    { intros k. clear. induction m as [|[k' v] m IH]; [done|]. cbn. by case_decide. }
    assert (sorted_object (map (fun kv => (kv.1, no_empty kv.2)) m)) as Hsmap.
    { unfold sorted_object, keys. rewrite map_map. exact Hsm. }
    apply sorted_object_ext; [done..|]. intros k. rewrite Hmap. destruct (object_find k m) as [v|] eqn:Hv.
    - rewrite (Hf k (no_empty v)) by (by apply Hel). destruct (sub k es) eqn:Esub; [|done].
      destruct (leaves_nonempty v) as (q & x & Hq).
      assert ((q, x) ∈ sub k es) as Hin by (by apply (entries_of_member es m k v)).
      rewrite Esub in Hin. by apply elem_of_nil in Hin.
    - rewrite (Hf k value_null) by (by rewrite (Hnone k Hv)). by rewrite (Hnone k Hv). }
  destruct es as [|[p x] es].
  { injection E as E. destruct m; [done|discriminate]. }
  destruct (Hheads p x) as (k & q & -> & Hk); [by left|].
  transitivity (rebuild ((k :: q, x) :: es) (value_object [])); [by apply rebuild_null_object; intros ->|].
  etransitivity; [exact E|]. by destruct m.
Qed.

Lemma rebuilds_all j : rebuilds j.
Proof.
  induction j as [|m IH|l IH|s|b|z|z|f|b t|] using json_ind';
    [|by apply rebuilds_object|by apply rebuilds_array|..]; intros es _ _ Hs He; by apply rebuild_leaf.
Qed.

(** ** The members of a flattened value *)

Lemma object_assign_new k v m : k ∉ keys m ->
  exists m1 m2, m = m1 ++ m2 /\ object_assign k v m = m1 ++ (k, v) :: m2.
Proof.
  unfold object_assign. induction m as [|[k' v'] m IH]; intros Hk.
  - exists [], []. split; [done|]. cbn. by rewrite decide_True.
  - cbn [keys map fst] in Hk. apply not_elem_of_cons in Hk as [Hne Hk]. cbn [object_emplace].
    rewrite decide_False by done. destruct (key_ltb k k').
    + exists [], ((k', v') :: m). split; [done|]. cbn [object_alter]. by rewrite decide_True.
    + cbn [object_alter]. rewrite decide_False by done. destruct (IH Hk) as (m1 & m2 & -> & ->).
      by exists ((k', v') :: m1), m2.
Qed.

Lemma texts_keys es : keys (texts es) = map to_string es.*1.
Proof. induction es as [|e es IH]; [done|]. cbn. f_equal. exact IH. Qed.

Lemma texts_fresh p es : p ∉ es.*1 -> to_string p ∉ keys (texts es).
Proof.
  intros Hp Hin. rewrite texts_keys in Hin. apply list_elem_of_fmap in Hin as (q & E & Hq).
  apply to_string_inj in E. by subst.
Qed.

Lemma texts_sorted es : sorted_object (texts es) -> sorted_entries es.
Proof.
  unfold sorted_object, sorted_entries. rewrite texts_keys. induction es as [|e es IH]; intros Hs; [constructor|].
  inversion Hs as [|? ? Hs' Hall]; subst. constructor; [by apply IH|]. apply Forall_forall. intros e' Hin.
  apply (proj1 (Forall_forall _ _) Hall). apply list_elem_of_fmap_2. by apply list_elem_of_fmap_2.
Qed.

Lemma fold_add_entry es0 : NoDup es0.*1 -> forall es, (forall p, p ∈ es0.*1 -> p ∉ es.*1) -> sorted_object (texts es) ->
  exists es', fold_left (add_entry []) es0 (texts es) = texts es' /\ sorted_object (texts es') /\
    forall e, e ∈ es' <-> e ∈ es0 \/ e ∈ es.
Proof.
  induction es0 as [|[p x] es0 IH]; intros Hnd es Hfresh Hs.
  { exists es. split_and!; [done|done|]. intros e. split; [by right|]. by intros [?%elem_of_nil|]. }
  cbn [fmap list_fmap fst] in Hnd. apply NoDup_cons in Hnd as [Hp Hnd].
  destruct (object_assign_new (to_string p) x (texts es)) as (m1 & m2 & Em & Ea).
  { apply texts_fresh, Hfresh. by left. }
  apply map_eq_app in Em as (es1 & es2 & -> & <- & <-).
  assert (add_entry [] (texts (es1 ++ es2)) (p, x) = texts (es1 ++ (p, x) :: es2)) as Eadd.
  { unfold add_entry. cbn [app fst snd]. rewrite Ea. unfold texts. by rewrite map_app. }
  destruct (IH Hnd (es1 ++ (p, x) :: es2)) as (es' & E & Hs' & Hin).
  { intros q Hq. rewrite fmap_app. cbn [fmap list_fmap fst].
    assert (q ∉ (es1 ++ es2).*1) as Hq' by (apply Hfresh; by right). rewrite fmap_app in Hq'.
    rewrite elem_of_app, elem_of_cons in *. intros [?|[->|?]]; [tauto|done|tauto]. }
  { rewrite <- Eadd. by apply object_assign_sorted. }
  exists es'. split_and!; [cbn [fold_left]; by rewrite Eadd|done|]. intros e. rewrite Hin.
  rewrite !elem_of_app, !elem_of_cons. tauto.
Qed.

Lemma flatten_entries j : storable j ->
  exists es, flatten j = value_object (texts es) /\ sorted_object (texts es) /\ entries_of es j.
Proof.
  intros Hj. destruct (fold_add_entry (leaves j) (leaves_NoDup j Hj) []) as (es & E & Hs & Hin).
  { intros p _. apply not_elem_of_nil. }
  { constructor. }
  exists es. split_and!; [|done|].
  - unfold flatten. rewrite flatten_into_leaves. f_equal. exact E.
  - intros p x. rewrite Hin. split; [by intros [?|?%elem_of_nil]|by left].
Qed.

Lemma restorable_leaves j : restorable j -> forall p x, (p, x) ∈ leaves j -> is_primitive x = true.
Proof.
  induction j as [|m IH|l IH|s|b|z|z|f|b t|] using json_ind'; intros Hre p x;
    try (intros [= _ ->]%list_elem_of_singleton; by inversion Hre).
  - destruct (decide (m = [])) as [->|Hne]; [by intros [= _ ->]%list_elem_of_singleton|].
    rewrite leaves_object, leaves_object_elem by done. intros (k & v & q & Hin & -> & Hq).
    inversion Hre as [? _ Hm| |]; subst; [|done]. apply (proj1 (Forall_forall _ _) IH _ Hin) with q; [|done].
    by apply (proj1 (Forall_forall _ _) Hm _ Hin).
  - destruct (decide (l = [])) as [->|Hne]; [by intros [= _ ->]%list_elem_of_singleton|].
    rewrite leaves_array, leaves_from_elem by done. intros (n & v & q & Hv & -> & Hq).
    inversion Hre as [|? Hl|]; subst; [|done]. apply (proj1 (Forall_lookup _ _) IH n v Hv) with q; [|done].
    by apply (proj1 (Forall_lookup _ _) Hl n v Hv).
Qed.

(** A value without members, and what it leaves in the flattened value. *)
Definition is_leaf v : Prop := is_structured v = false \/ empty v = true.
Definition leaf_value v : json F := if empty v then value_null else v.

Lemma leaf_root j x : ([], x) ∈ leaves j <-> is_leaf j /\ x = leaf_value j.
Proof.
  unfold is_leaf, leaf_value.
  destruct j as [|m|l| | | | | | |]; try (cbn; rewrite list_elem_of_singleton; naive_solver).
  - destruct m as [|kv m]; [cbn; rewrite list_elem_of_singleton; naive_solver|]. rewrite leaves_object by done. split.
    + intros (k & v & q & _ & [=] & _)%leaves_object_elem.
    + intros [[[=]|[=]] _].
  - destruct l as [|v l]; [cbn; rewrite list_elem_of_singleton; naive_solver|]. rewrite leaves_array by done. split.
    + intros (n & w & q & _ & [=] & _)%leaves_from_elem.
    + intros [[[=]|[=]] _].
Qed.

(** The leaves are the values without members that checked access reaches,
    each under its pointer. *)
Lemma leaves_resolve p x : forall j, storable j ->
  (p, x) ∈ leaves j <-> exists v, get_checked p j = Ret v /\ is_leaf v /\ x = leaf_value v.
Proof.
  induction p as [|t p IH]; intros j Hj.
  { rewrite leaf_root. cbn [get_checked]. naive_solver. }
  destruct j as [|m|l| | | | | | |];
    try (cbn [get_checked]; cbn; rewrite list_elem_of_singleton; naive_solver).
  - destruct (decide (m = [])) as [->|Hne]; [cbn; rewrite list_elem_of_singleton; naive_solver|].
    apply storable_object_inv in Hj as [Hs Hm]. rewrite leaves_object, leaves_object_elem by done. cbn [get_checked at_key].
    split.
    + intros (k & v & q & Hin & [= <- <-] & Hq). apply object_find_elem in Hin as Hf; [|done]. rewrite Hf.
      apply IH; [by apply (Forall_object_find storable t v m)|done].
    + intros (v & E & Hv). destruct (object_find t m) as [w|] eqn:Ef; [|done]. exists t, w, p.
      split_and!; [by apply object_find_in|done|]. apply IH; [by apply (Forall_object_find storable t w m)|by exists v].
  - destruct (decide (l = [])) as [->|Hne].
    { cbn [get_checked]. split; [by intros [=]%list_elem_of_singleton|]. intros (v & E & _). case_decide; [done|].
      by apply comp_bind_ret in E as (i & _ & E). }
    apply storable_array_inv in Hj as [Hlen Hl]. rewrite leaves_array, leaves_from_elem by done. cbn [get_checked at_index].
    split.
    + intros (n & v & q & Hn & [= -> <-] & Hq). pose proof (lookup_lt_Some _ _ _ Hn).
      assert (array_index (to_dec (Z.of_nat n)) = Ret (Z.of_nat n)) as Ei.
      { apply array_index_exact. split; [done|]. unfold SIZE_TYPE_MAX. lia. }
      cbn [Nat.add]. rewrite decide_False by (intros E; rewrite E in Ei; by apply dash_no_index in Ei).
      rewrite Ei. cbn [comp_bind]. rewrite Nat2Z.id, Hn. cbn [comp_bind].
      apply IH; [by apply (proj1 (Forall_lookup _ _) Hl n)|done].
    + intros (v & E & Hv). case_decide; [done|]. apply comp_bind_ret in E as (i & Ei & E).
      apply array_index_exact in Ei as [-> Hi]. destruct (l !! Z.to_nat i) as [w|] eqn:Ew; [|done].
      exists (Z.to_nat i), w, p. cbn [Nat.add]. rewrite Z2Nat.id by lia. split_and!; [done|done|].
      apply IH; [by apply (proj1 (Forall_lookup _ _) Hl (Z.to_nat i))|by exists v].
Qed.

(** C18: [flatten] is exact and [unflatten] is its inverse, on the values a
    program can hold without discarded ones.  The flattened value is the object, in the order of its keys, that has exactly one member
    for each value without members (a value that is no container, or an empty
    one, which is stored as null) that checked access with a JSON pointer
    reaches, and the key is the text of that pointer; [unflatten] restores the
    value from it, where only empty containers come back as null.  No member
    may be named 0. *)
Theorem flatten_unflatten j : storable j -> restorable j ->
  (exists m, flatten j = value_object m /\ sorted_object m /\
     forall k x, (k, x) ∈ m <->
       exists p v, k = to_string p /\ get_checked p j = Ret v /\ is_leaf v /\ x = leaf_value v) /\
  unflatten (flatten j) = Ret (no_empty j).
Proof.
  intros Hst Hre. destruct (flatten_entries j Hst) as (es & -> & Hs & He). split.
  - exists (texts es). split; [done|]. split; [done|]. intros k x. unfold texts.
    rewrite list_elem_of_In, in_map_iff. setoid_rewrite <- list_elem_of_In. split.
    + intros ([p y] & [= <- <-] & Hin). apply He, leaves_resolve in Hin as (v & Hv); [|done]. by exists p, v.
    + intros (p & v & -> & Hv). exists (p, x). split; [done|]. apply He, leaves_resolve; [done|]. by exists v.
  - cbn [unflatten].
    rewrite unflatten_rebuild; [apply rebuilds_all; auto using texts_sorted|]. apply Forall_forall. intros [p x] Hin. cbn.
    apply (restorable_leaves j Hre p). by apply He.
Qed.

(** ** Unchecked access *)

Lemma object_emplace_present k v w m : sorted_object m -> object_find k m = Some w -> object_emplace k v m = m.
Proof.
  intros Hs Hk. apply sorted_object_ext; [by apply object_emplace_sorted|done|]. intros k'.
  destruct (decide (k' = k)) as [->|Hne]; [|by apply object_emplace_find_ne].
  by rewrite object_emplace_find_eq, Hk.
Qed.

Lemma into_same s k j c r : step_get j s = Some c -> k c = Ret (r, c) -> into s k j = Ret (s :: r, j).
Proof.
  intros Hc Hk. unfold into. rewrite Hc, Hk. cbn [comp_bind]. do 2 f_equal.
  by apply (path_alter_same j [s] c); cbn; rewrite Hc.
Qed.

(** Where a pointer resolves, the three ways to follow it agree: checked
    access, [operator[]] of a mutable value (which then creates nothing) and
    [operator[]] of a constant. *)
Theorem unchecked_agrees p j v : storable j -> get_checked p j = Ret v ->
  get_unchecked_const p j = Ret v /\
  exists r, get_unchecked p j = Ret (r, j) /\ path_get j r = Some v.
Proof.
  revert j. induction p as [|t p IH]; intros j Hj; [intros [= <-]; split; [done|by exists []]|].
  destruct j as [|m|l| | | | | | |]; try done.
  - cbn [get_checked at_key get_unchecked get_unchecked_const is_null].
    destruct (object_find t m) as [c|] eqn:Ec; [|done]. cbn [comp_bind]. intros E.
    pose proof Hj as [Hs Hm]%storable_object_inv.
    destruct (IH c) as (Eu & r & Er & Hr); [by apply (Forall_object_find storable t c m)|done|].
    split; [done|]. exists (PKey t :: r). cbn [index_key comp_bind].
    rewrite (object_emplace_present _ _ c) by done. split; [by apply into_same with c|]. cbn. by rewrite Ec.
  - cbn [get_checked get_unchecked get_unchecked_const is_null]. case_decide; [done|]. intros E.
    apply comp_bind_ret in E as (i & Ei & E). rewrite Ei. cbn [comp_bind at_index] in *.
    destruct (l !! Z.to_nat i) as [c|] eqn:Ec; [|done]. pose proof Hj as [_ Hl]%storable_array_inv.
    destruct (IH c) as (Eu & r & Er & Hr); [by apply (proj1 (Forall_lookup _ _) Hl (Z.to_nat i))|done|].
    split; [done|]. exists (PIdx (Z.to_nat i) :: r). cbn [index_idx comp_bind].
    assert (S (Z.to_nat i) - length l = 0)%nat as -> by (apply lookup_lt_Some in Ec; lia).
    cbn [replicate]. rewrite app_nil_r. split; [by apply into_same with c|]. cbn. by rewrite Ec.
Qed.
End Spec.

Lemma unchecked_agrees_witness :
  get_unchecked_const [str "a"; str "1"] (value_object [(str "a", value_array [value_null; @value_boolean Z true])]) =
  Ret (value_boolean true).
Proof.
  apply (unchecked_agrees [str "a"; str "1"] (value_object [(str "a", value_array [value_null; @value_boolean Z true])])).
  - repeat (constructor; try done).
  - reflexivity.
Defined.

Definition flat_sample : json Z :=
  value_object [(str "a/b", value_array (replicate 11 (value_number_unsigned 7))); (str "c", value_array [])].

Lemma flatten_unflatten_witness :
  (exists m, flatten flat_sample = value_object m /\ sorted_object m /\
     forall k x, (k, x) ∈ m <->
       exists p v, k = to_string p /\ get_checked p flat_sample = Ret v /\ is_leaf v /\ x = leaf_value v) /\
  unflatten (flatten flat_sample) =
  Ret (value_object [(str "a/b", value_array (replicate 11 (value_number_unsigned 7))); (str "c", value_null)]).
Proof.
  apply (flatten_unflatten flat_sample).
  - repeat (constructor; try done).
  - constructor; [cbn; set_solver|]. repeat (constructor; try done).
Defined.
