(* ===== verification/JsonPatchSpec.v ===== *)
(** What the operations of a JSON patch mean, stated without pointers,
    references or iterators, and the proof that [patch_inplace] of
    [src/libephmem/json.hpp] performs exactly these steps. *)
From S2P Require Import Prelude CLib JsonValue JsonCompare JsonModify JsonSerializer JsonPointer JsonPatch.

Section Spec.
Context {F : Type} `{FloatOps F, FloatCompare F}.
Implicit Types (v w d parent : json F).

(** The operations of RFC 6902, with the tokens of their pointers. *)
Inductive operation :=
  | Add (path : json_pointer) v
  | Remove (path : json_pointer)
  | Replace (path : json_pointer) v
  | Move (from path : json_pointer)
  | Copy (from path : json_pointer)
  | Test (path : json_pointer) v.

(** Their JSON form. *)
Definition encode (op : operation) : json F :=
  let fields (name : string) (path : json_pointer) rest :=
    value_object (rest ++ [(str "op", value_string (str name)); (str "path", value_string (to_string path))]) in
  match op with
  | Add p v => op_value "add" (to_string p) v
  | Replace p v => op_value "replace" (to_string p) v
  | Test p v => op_value "test" (to_string p) v
  | Remove p => fields "remove" p []
  | Move q p => fields "move" p [(str "from", value_string (to_string q))]
  | Copy q p => fields "copy" p [(str "from", value_string (to_string q))]
  end.

(** The tokens [p] are those of the path [r] to the value [v] in [d]. *)
Definition resolves (p : json_pointer) d (r : list pstep) v : Prop :=
  map token_of r = p /\ Forall step_ok r /\ path_get d r = Some v.

Inductive child_add (t : bytes) v : json F -> json F -> Prop :=
  | add_member m : child_add t v (value_object m) (value_object (object_assign t v m))
  | add_to_null : child_add t v value_null (value_object [(t, v)])
  | add_end l : t = str "-" -> child_add t v (value_array l) (value_array (l ++ [v]))
  | add_before l i : t = to_dec (Z.of_nat i) -> (i <= length l)%nat -> Z.of_nat i < SIZE_TYPE_MAX ->
      child_add t v (value_array l) (value_array (take i l ++ v :: drop i l)).

Inductive child_remove (t : bytes) : json F -> json F -> Prop :=
  | remove_member m : is_Some (object_find t m) -> child_remove t (value_object m) (value_object (object_erase t m))
  | remove_element l i : t = to_dec (Z.of_nat i) -> (i < length l)%nat -> Z.of_nat i < SIZE_TYPE_MAX ->
      child_remove t (value_array l) (value_array (delete i l))
  | remove_nothing v : is_structured v = false -> child_remove t v v.

Inductive step : operation -> json F -> json F -> Prop :=
  | step_add_root v d : step (Add [] v) d v
  | step_add q t v d r parent parent' : resolves q d r parent -> child_add t v parent parent' ->
      step (Add (q ++ [t]) v) d (path_alter (fun _ => parent') d r)
  | step_remove q t d r parent parent' : resolves q d r parent -> child_remove t parent parent' ->
      step (Remove (q ++ [t])) d (path_alter (fun _ => parent') d r)
  | step_replace p v d r w : resolves p d r w -> step (Replace p v) d (path_alter (fun _ => v) d r)
  | step_move q p w d r d1 d2 : resolves q d r w -> step (Remove q) d d1 -> step (Add p w) d1 d2 ->
      step (Move q p) d d2
  | step_copy q p w d r d1 : resolves q d r w -> step (Add p w) d d1 -> step (Copy q p) d d1
  | step_test p v d r w : resolves p d r w -> json_eqb w v = true -> step (Test p v) d d.

(** ** References are paths *)

Lemma get_checked_ref_resolves p : forall d r, get_checked_ref p d = Ret r <-> exists v, resolves p d r v.
Proof.
  unfold resolves. induction p as [|t p IH]; intros d r.
  { split; [intros [= <-]; by exists d|]. intros (v & E & _). by apply map_eq_nil in E as ->. }
  split.
  - destruct d as [|m|l| | | | | | |]; try done; cbn [get_checked_ref].
    + destruct (object_find t m) as [c|] eqn:E; [|done]. intros Hr. apply comp_bind_ret in Hr as (r' & Hr & [= <-]).
      apply IH in Hr as (v & <- & Hok & Hg). exists v. split_and!; [done|by constructor|]. simpl. by rewrite E.
    + case_decide; [done|]. intros Hr. apply comp_bind_ret in Hr as (i & Ei & Hr).
      apply array_index_exact in Ei as [-> Hi].
      destruct (l !! Z.to_nat i) as [c|] eqn:E; [|done]. apply comp_bind_ret in Hr as (r' & Hr & [= <-]).
      apply IH in Hr as (v & <- & Hok & Hg). exists v. split_and!.
      * simpl. by rewrite Z2Nat.id by lia.
      * constructor; [simpl; lia|done].
      * simpl. by rewrite E.
  - intros (v & Em & Hok & Hg). destruct r as [|s r]; [done|]. injection Em as <- Em. inversion Hok; subst.
    cbn [path_get] in Hg. destruct (step_get d s) as [c|] eqn:E; [|done].
    assert (get_checked_ref (map token_of r) c = Ret r) as Hr by (apply IH; eauto).
    pose proof (get_checked_ref_step _ _ _ E ltac:(done)) as Es.
    change (token_of s :: map token_of r) with ([token_of s] ++ map token_of r).
    rewrite (get_checked_ref_app _ _ _ _ c Es); [by rewrite Hr|]. simpl. by rewrite E.
Qed.

(** The reference of a call and the value there. *)
Lemma at_pointer_case p d : (exists r v, get_checked_ref p d = Ret r /\ resolves p d r v /\ path_get d r = Some v) \/
  (exists e, get_checked_ref p d = Throw e) \/ get_checked_ref p d = OutOfFuel.
Proof.
  destruct (get_checked_ref p d) as [r|e|] eqn:E; [left|eauto..].
  apply get_checked_ref_resolves in E as [v Hv]. exists r, v. split_and!; [done|done|apply Hv].
Qed.

Lemma resolves_ref p d r v : resolves p d r v -> get_checked_ref p d = Ret r /\ path_get d r = Some v.
Proof. intros Hr. split; [apply get_checked_ref_resolves; eauto|apply Hr]. Qed.

(** ** The operations on a parent *)

Lemma add_child_exact t v parent : forall parent',
  add_child t v parent = (Ret tt, parent') <-> child_add t v parent parent'.
Proof.
  intros parent'. unfold add_child, mbind at 1, mget. destruct parent as [|m|l| | | | | | |];
    try (split; [done|by inversion 1]).
  - unfold mbind, mmod, at_ref. cbn [index_key path_get step_get object_find]. rewrite decide_True by done.
    cbn [mput path_alter step_alter object_alter]. rewrite decide_True by done. cbn.
    split; [intros [= <-]; constructor|by inversion 1].
  - unfold mbind, mmod, at_ref. cbn [index_key path_get step_get].
    destruct (object_find t (object_emplace t value_null m)) as [c|] eqn:E.
    + cbn. split; [intros [= <-]; apply add_member|by inversion 1].
    + assert (t ∉ keys (object_emplace t (@value_null F) m)) as Hn.
      { rewrite <- object_find_keys, E. by intros []. }
      destruct Hn. clear. induction m as [|[k' v'] m IH]; simpl; [by left|].
      destruct (decide (t = k')) as [->|]; [by left|]. destruct (key_ltb t k'); simpl; [by left|by right].
  - case_decide as Et.
    + subst. split; [intros [= <-]; by apply add_end|]. inversion 1 as [| | |? i Hi]; subst; [done|].
      exfalso. apply (dash_no_index (Z.of_nat i)). rewrite Hi. apply array_index_exact. split; [done|lia].
    + unfold mbind, mlift. split.
      * destruct (array_index t) as [i|e|] eqn:Ei; [|done..]. apply array_index_exact in Ei as [-> Hi].
        cbn [size]. destruct (Z.ltb_spec (Z.of_nat (length l)) i); [done|].
        unfold insert_value, mbind, mget, insert_iterator, mmod. cbn [is_array negb].
        destruct (Nat.leb_spec (Z.to_nat i) (length l)); [|done]. intros [= <-]. apply add_before; [|done|lia].
        by rewrite Z2Nat.id by lia.
      * inversion 1 as [| |? Hd|? i Hi Hle Hmax]; subst; [done|].
        rewrite (proj2 (array_index_exact (to_dec (Z.of_nat i)) (Z.of_nat i))) by (split; [done|lia]). cbn [size].
        destruct (Z.ltb_spec (Z.of_nat (length l)) (Z.of_nat i)); [lia|].
        unfold insert_value, mbind, mget, insert_iterator, mmod. cbn [is_array negb]. rewrite Nat2Z.id.
        by rewrite (proj2 (Nat.leb_le _ _)).
Qed.

Lemma remove_child_exact t parent parent' :
  remove_child t parent = (Ret tt, parent') <-> child_remove t parent parent'.
Proof.
  unfold remove_child, mbind at 1, mget. destruct parent as [|m|l| | | | | | |];
    try (split; [by intros [= <-]; apply remove_nothing|by inversion 1]).
  - unfold contains_key. cbn [find]. split.
    + destruct (object_find t m) eqn:E; [|done]. cbn. intros [= <-]. apply remove_member. by rewrite E.
    + inversion 1 as [? [c E]| |]; subst; [|done]. by rewrite E.
  - unfold mbind, mlift. split.
    + destruct (array_index t) as [i|e|] eqn:Ei; [|done..]. apply array_index_exact in Ei as [-> Hi].
      unfold erase_idx, mbind, mget. cbn [is_array size].
      destruct (Z.leb_spec (Z.of_nat (length l)) i); [done|]. cbn. intros [= <-].
      apply remove_element; [by rewrite Z2Nat.id by lia|lia|lia].
    + inversion 1 as [|? i Hi Hlt Hmax|]; subst; [|done].
      rewrite (proj2 (array_index_exact (to_dec (Z.of_nat i)) (Z.of_nat i))) by (split; [done|lia]).
      unfold erase_idx, mbind, mget. cbn [is_array size].
      destruct (Z.leb_spec (Z.of_nat (length l)) (Z.of_nat i)); [lia|]. cbn. by rewrite Nat2Z.id.
Qed.

(** ** The operations *)

Lemma snoc_cases (p : json_pointer) : p = [] \/ exists q t, p = q ++ [t].
Proof. destruct p as [|t q _] using rev_ind; eauto. Qed.

Lemma operation_add_unresolved q t v d : (forall r, get_checked_ref q d <> Ret r) ->
  forall d', operation_add (q ++ [t]) v d <> (Ret tt, d').
Proof.
  intros Hn d' E. unfold operation_add in E. destruct (q ++ [t]) as [|x p] eqn:Ep; [by destruct q|].
  rewrite <- Ep in E. unfold mbind, mlift in E. destruct (top (q ++ [t])) as [tp| |]; [|done..].
  destruct ((if decide (tp = q ++ [t]) then mret [] else at_pointer tp) d) as [[r0| |] d0] eqn:E0; [|done..].
  assert (d0 = d) as -> by (case_decide; injection E0; congruence).
  rewrite back_snoc, pop_back_snoc in E. unfold at_pointer in E.
  destruct (get_checked_ref q d) as [r| |] eqn:Eq; [by apply (Hn r)|done..].
Qed.

Lemma operation_add_exact p v d d' : operation_add p v d = (Ret tt, d') <-> step (Add p v) d d'.
Proof.
  destruct (snoc_cases p) as [->|(q & t & ->)].
  { split; [intros [= <-]; constructor|]. inversion 1 as [|q t ? ? ? ? ? ? ? E| | | | |]; subst; [done|].
    by destruct q. }
  destruct (get_checked_ref q d) as [r|e|] eqn:Eq.
  - apply get_checked_ref_resolves in Eq as [parent Hr]. destruct (resolves_ref _ _ _ _ Hr) as [Hr1 Hr2].
    rewrite (operation_add_run _ _ _ _ _ _ Hr1 Hr2), (at_ref_run _ _ _ _ Hr2). split.
    + destruct (add_child t v parent) as [c parent'] eqn:E. intros [= -> <-].
      apply (step_add q t v d r parent parent'); [done|by apply add_child_exact].
    + inversion 1 as [|q' t' ? ? r' p1 p2 Hr' Hc E| | | | |]; subst; [by destruct q|].
      match goal with E : _ ++ [_] = _ ++ [_] |- _ => apply app_inj_tail in E as [-> ->] end.
      destruct (resolves_ref _ _ _ _ Hr') as [Hr1' Hr2']. assert (r' = r) as -> by congruence.
      assert (p1 = parent) as -> by congruence. apply add_child_exact in Hc. by rewrite Hc.
  - split; [intros E; exfalso; eapply (operation_add_unresolved q); [|exact E]; by rewrite Eq|].
    inversion 1 as [|q' t' ? ? r' p1 p2 Hr' Hc E| | | | |]; subst; [by destruct q|].
    match goal with E : _ ++ [_] = _ ++ [_] |- _ => apply app_inj_tail in E as [-> ->] end.
    apply resolves_ref in Hr' as [Hr' _]. congruence.
  - split; [intros E; exfalso; eapply (operation_add_unresolved q); [|exact E]; by rewrite Eq|].
    inversion 1 as [|q' t' ? ? r' p1 p2 Hr' Hc E| | | | |]; subst; [by destruct q|].
    match goal with E : _ ++ [_] = _ ++ [_] |- _ => apply app_inj_tail in E as [-> ->] end.
    apply resolves_ref in Hr' as [Hr' _]. congruence.
Qed.

Lemma operation_remove_exact p d d' : operation_remove p d = (Ret tt, d') <-> step (Remove p) d d'.
Proof.
  destruct (snoc_cases p) as [->|(q & t & ->)].
  { split; [done|]. inversion 1 as [| |q t ? ? ? ? ? ? E| | | |]; subst. by destruct q. }
  unfold operation_remove, mbind, mlift. rewrite back_snoc, pop_back_snoc. unfold at_pointer. split.
  - destruct (get_checked_ref q d) as [r|e|] eqn:Eq; [|done..].
    apply get_checked_ref_resolves in Eq as [parent Hr]. destruct (resolves_ref _ _ _ _ Hr) as [_ Hr2].
    rewrite (at_ref_run _ _ _ _ Hr2). destruct (remove_child t parent) as [c parent'] eqn:E. intros [= -> <-].
    apply (step_remove q t d r parent parent'); [done|by apply remove_child_exact].
  - inversion 1 as [| |q' t' ? r' p1 p2 Hr' Hc E| | | |]; subst.
    match goal with E : _ ++ [_] = _ ++ [_] |- _ => apply app_inj_tail in E as [-> ->] end.
    destruct (resolves_ref _ _ _ _ Hr') as [Hr1' Hr2']. rewrite Hr1', (at_ref_run _ _ _ _ Hr2').
    apply remove_child_exact in Hc. by rewrite Hc.
Qed.

Lemma at_value_exact p d w d' : at_value p d = (Ret w, d') <-> d' = d /\ exists r, resolves p d r w.
Proof.
  unfold at_value, mbind, at_pointer. split.
  - destruct (get_checked_ref p d) as [r|e|] eqn:Eq; [|done..].
    apply get_checked_ref_resolves in Eq as [v Hr]. pose proof (proj2 (proj2 Hr)) as Hv.
    rewrite (at_ref_run _ _ _ _ Hv). cbn. intros [= -> <-]. split; [by apply path_alter_same|eauto].
  - intros [-> [r Hr]]. destruct (resolves_ref _ _ _ _ Hr) as [-> Hv]. rewrite (at_ref_run _ _ _ _ Hv). cbn.
    by rewrite path_alter_same.
Qed.

Lemma operation_test_exact p v d d' :
  operation_test p (encode (Test p v)) d = (Ret tt, d') <-> step (Test p v) d d'.
Proof.
  unfold operation_test. change (get_value (encode (Test p v)) (str "value") false) with (Ret v). cbn [comp_bind].
  rewrite get_checked_ref_value. generalize (dump (encode (Test p v)) (-1) 32 false strict). intros message. split.
  - destruct (get_checked_ref p d) as [r|e|] eqn:Eq; cbn [comp_bind].
    + apply get_checked_ref_resolves in Eq as [w Hr]. rewrite (proj2 (proj2 Hr)). cbn [comp_bind].
      destruct (json_eqb w v) eqn:Ew; [|by destruct message]. intros [= <-]. by econstructor.
    + destruct e; try done. by destruct message.
    + done.
  - inversion 1 as [| | | | | |? ? ? r w Hr Hw]; subst. destruct (resolves_ref _ _ _ _ Hr) as [-> ->]. cbn [comp_bind].
    by rewrite Hw.
Qed.

(** Every operation runs its case of the switch. *)
Definition name_of (op : operation) : patch_operations :=
  match op with
  | Add _ _ => op_add | Remove _ => op_remove | Replace _ _ => op_replace
  | Move _ _ => op_move | Copy _ _ => op_copy | Test _ _ => op_test
  end.
Definition path_of (op : operation) : json_pointer :=
  match op with
  | Add p _ | Remove p | Replace p _ | Move _ p | Copy _ p | Test p _ => p
  end.

Lemma patch_operation_encode op d :
  patch_operation (encode op) d = patch_switch (name_of op) (path_of op) (encode op) d.
Proof.
  assert (exists m, encode op = value_object m) as [m E] by (destruct op; eexists; reflexivity). rewrite E.
  assert (exists name, get_op name = name_of op /\ object_find (str "op") m = Some (value_string name) /\
    object_find (str "path") m = Some (value_string (to_string (path_of op)))) as (name & <- & Ho & Hp).
  { destruct op; injection E as <-; eexists; (split; [|split; reflexivity]); reflexivity. }
  pose proof (patch_operation_switch m name (path_of op) d Ho Hp) as Hs. cbn [patch_loop] in Hs. unfold mbind, mret in Hs.
  destruct (patch_operation (value_object m) d) as [[[]| |] ?]; exact Hs.
Qed.

Lemma get_from q p name : get_string_value (value_object [(str "from", @value_string F (to_string q));
  (str "op", value_string (str name)); (str "path", value_string (to_string p))]) (str "from") = Ret (to_string q).
Proof. reflexivity. Qed.

Lemma patch_operation_exact op d d' : patch_operation (encode op) d = (Ret tt, d') <-> step op d d'.
Proof.
  rewrite patch_operation_encode. destruct op as [p v|p|p v|q p|q p|p v]; cbn [name_of path_of patch_switch].
  - apply operation_add_exact.
  - apply operation_remove_exact.
  - unfold mbind, mlift. change (get_value (encode (Replace p v)) (str "value") false) with (Ret v). cbn match.
    unfold at_pointer. split.
    + destruct (get_checked_ref p d) as [r|e|] eqn:Eq; [|done..].
      apply get_checked_ref_resolves in Eq as [w Hr]. rewrite (at_ref_run _ _ _ _ (proj2 (proj2 Hr))).
      intros [= <-]. by econstructor.
    + inversion 1 as [| | |? ? ? r w Hr| | |]; subst. destruct (resolves_ref _ _ _ _ Hr) as [-> Hv].
      by rewrite (at_ref_run _ _ _ _ Hv).
  - unfold mbind at 1 2, mlift. cbn [encode app]. rewrite get_from, split_to_string. unfold mbind. split.
    + destruct (at_value q d) as [[w|e|] d0] eqn:Ew; [|done..]. apply at_value_exact in Ew as [-> [r Hr]].
      destruct (operation_remove q d) as [[[]|e|] d1] eqn:E1; [|done..]. intros E2.
      eapply step_move; [done|by apply operation_remove_exact|by apply operation_add_exact].
    + inversion 1 as [| | | |? ? w ? r d1 ? Hr H1' H2'| |]; subst.
      rewrite (proj2 (at_value_exact q d w d)) by eauto. apply operation_remove_exact in H1'. rewrite H1'.
      by apply operation_add_exact.
  - unfold mbind at 1 2, mlift. cbn [encode app]. rewrite get_from, split_to_string. unfold mbind. split.
    + destruct (at_value q d) as [[w|e|] d0] eqn:Ew; [|done..]. apply at_value_exact in Ew as [-> [r Hr]].
      intros E2. eapply step_copy; [done|by apply operation_add_exact].
    + inversion 1 as [| | | | |? ? w ? r d1 Hr H1'|]; subst.
      rewrite (proj2 (at_value_exact q d w d)) by eauto. by apply operation_add_exact.
  - apply operation_test_exact.
Qed.

(** A sequence of operations. *)
Inductive steps : list operation -> json F -> json F -> Prop :=
  | steps_nil d : steps [] d d
  | steps_cons op ops d d1 d2 : step op d d1 -> steps ops d1 d2 -> steps (op :: ops) d d2.

(** C14: [patch] refines the operations of RFC 6902: a patch of encoded
    operations returns [d'] if and only if the operations, one after the
    other, lead from [d] to [d'].  The relation shows where the code is more
    lenient than the RFC: a removal below a value that has no members is a
    step that does nothing, and a null becomes an object when a member is
    added to it. *)
Theorem patch_refines ops d d' : patch d (value_array (map encode ops)) = Ret d' <-> steps ops d d'.
Proof.
  unfold patch. cbn [patch_inplace]. revert d. induction ops as [|op ops IH]; intros d.
  { simpl. unfold mret. split; [intros [= <-]; constructor|by inversion 1]. }
  cbn [map patch_loop]. unfold mbind. split.
  - destruct (patch_operation (encode op) d) as [[[]|e|] d1] eqn:E1; [|done..]. intros E2.
    apply patch_operation_exact in E1. econstructor; [done|by apply IH].
  - inversion 1 as [|? ? ? d1 ? H1' H2']; subst. apply patch_operation_exact in H1'. rewrite H1'. by apply IH.
Qed.
End Spec.

#[local] Existing Instance example_floats.
#[local] Existing Instance example_compare.

(** A removal below a number succeeds and changes nothing; the RFC requires
    the target to exist. *)
Example remove_below_number :
  patch (value_object [(str "a", @value_number_unsigned Z 1)]) (value_array [encode (Remove [str "a"; str "x"])]) =
  Ret (value_object [(str "a", value_number_unsigned 1)]).
Proof. reflexivity. Qed.

(** Adding a member below a number fails the assertion that a parent is
    never primitive. *)
Example add_below_number :
  patch (value_object [(str "a", @value_number_unsigned Z 1)])
    (value_array [encode (Add [str "a"; str "x"] value_null)]) = Throw assertion_failure.
Proof. reflexivity. Qed.

(** The patch is applied in place up to the operation that throws. *)
Example patch_inplace_partial :
  patch_inplace (value_array [encode (Add [str "b"] value_null); encode (Remove [str "c"])])
    (value_object [(str "a", @value_null Z)]) =
  (Throw (out_of_range 403), value_object [(str "a", value_null); (str "b", value_null)]).
Proof. reflexivity. Qed.
