(* ===== verification/JsonDiff.v ===== *)
(** [diff] and [patch] of [src/libephmem/json.hpp]: the patch that [diff]
    computes turns its source into its target, and what [patch] does with
    documents its operations do not fit. *)
From S2P Require Import Prelude CLib JsonValue JsonCompare JsonModify JsonSerializer JsonPointer JsonPatch.

Section Diff.
Context {F : Type} `{FloatOps F, FloatCompare F}.
Implicit Types (j v w doc : json F) (m c : list (bytes * json F)) (l ops : list (json F)).

(** The loops of [diff] over two arrays and over the members of an object. *)
Definition diff_array_loop (path : bytes) : nat -> list (json F) -> list (json F) -> comp (list (json F)) :=
  fix loop i s t :=
    match s, t with
    | x :: s, y :: t =>
        let* temp_diff := diff_ops x y (index_path path i) in
        let* rest := loop (S i) s t in
        Ret (temp_diff ++ rest)
    | _, _ => Ret []
    end.

Definition diff_object_loop (path : bytes) (t : list (bytes * json F)) :
    list (bytes * json F) -> comp (list (json F)) :=
  fix loop s :=
    match s with
    | [] => Ret []
    | (k, v) :: s =>
        let* ops :=
          match object_find k t with
          | Some w => diff_ops v w (key_path path k)
          | None => let* op := op_removal (key_path path k) in Ret [op]
          end in
        let* rest := loop s in
        Ret (ops ++ rest)
    end.

Lemma diff_ops_array s t path : json_eqb (value_array s) (value_array t) = false ->
  diff_ops (value_array s) (value_array t) path =
  let* common := diff_array_loop path 0 s t in
  let* removals := diff_removals path (length t) (length s - length t) [] in
  Ret (common ++ removals ++ map (op_value "add" (path ++ str "/-")) (drop (length s) t)).
Proof. intros E. cbn [diff_ops]. rewrite E. reflexivity. Qed.

Lemma diff_ops_object s t path : json_eqb (value_object s) (value_object t) = false ->
  diff_ops (value_object s) (value_object t) path =
  let* first_pass := diff_object_loop path t s in Ret (first_pass ++ diff_additions path s t).
Proof. intros E. cbn [diff_ops]. rewrite E. reflexivity. Qed.

Notation sim v w := (json_eqb v w = true).

(** The operations computed for [source] turn it into a value equal to
    [target]. *)
Definition diff_ok source : Prop := forall target tk, storable source -> storable target -> ordinary target ->
  exists ops r, diff_ops source target (to_string tk) = Ret ops /\ moves tk ops source r /\ sim r target.

(** ** Arrays *)

Lemma diff_array_common tk s : Forall diff_ok s -> Forall storable s -> forall t pre,
  Forall storable t -> Forall ordinary t -> Z.of_nat (length (pre ++ s)) < SIZE_TYPE_MAX ->
  exists ops rs, diff_array_loop (to_string tk) (length pre) s t = Ret ops /\
    moves tk ops (value_array (pre ++ s)) (value_array (pre ++ rs ++ drop (length t) s)) /\
    Forall2 (fun r w => sim r w) rs (take (length s) t).
Proof.
  induction 1 as [|x s Hx _ IH]; intros Hs t pre Ht Hot Hlen.
  { exists [], []. rewrite drop_nil. split_and!; [done|apply moves_nil|constructor]. }
  destruct t as [|y t].
  { exists [], []. split_and!; [done|apply moves_nil|constructor]. }
  inversion Hs; inversion Ht; inversion Hot; subst.
  destruct (Hx y (tk ++ [to_dec (Z.of_nat (length pre))])) as (ops1 & r & E1 & M1 & R1); [done..|].
  destruct (IH ltac:(done) t (pre ++ [r])) as (ops2 & rs & E2 & M2 & R2); [done..| |].
  { rewrite !length_app in *. simpl in *. lia. }
  exists (ops1 ++ ops2), (r :: rs). split_and!.
  - cbn [diff_array_loop]. rewrite index_path_to_string, E1. cbn [comp_bind].
    rewrite length_app, Nat.add_1_r in E2. by rewrite E2.
  - apply (moves_app _ _ _ _ (value_array (pre ++ r :: s))).
    + assert (value_array (pre ++ r :: s) = step_alter (fun _ => r) (value_array (pre ++ x :: s)) (PIdx (length pre))) as ->.
      { cbn [step_alter]. f_equal. rewrite <- (Nat.add_0_r (length pre)), alter_app_r. done. }
      eapply moves_lift; [|simpl|exact M1].
      * simpl. rewrite lookup_app_r, Nat.sub_diag by lia. done.
      * rewrite length_app in Hlen. simpl in Hlen. lia.
    + rewrite <- !app_assoc in M2. exact M2.
  - by constructor.
Qed.

Lemma diff_array_removals tk n : forall i acc, exists ops,
  diff_removals (F:=F) (to_string tk) i n acc = Ret (ops ++ acc) /\
  forall l1 l2, (n <> 0%nat -> length l1 = i) -> length l2 = n -> Z.of_nat (length (l1 ++ l2)) < SIZE_TYPE_MAX ->
    moves tk ops (value_array (l1 ++ l2)) (value_array l1).
Proof.
  induction n as [|n IH]; intros i acc.
  { exists []. split; [done|]. intros l1 [|] _ Hl _; [|done]. rewrite app_nil_r. apply moves_nil. }
  destruct (IH (S i) (remove_op (tk ++ [to_dec (Z.of_nat i)]) :: acc)) as (ops & E & Hm).
  exists (ops ++ [remove_op (tk ++ [to_dec (Z.of_nat i)])]). split.
  - cbn [diff_removals]. rewrite op_removal_object, index_path_to_string. cbn [comp_bind].
    fold (remove_op (F:=F) (tk ++ [to_dec (Z.of_nat i)])). by rewrite E, <- app_assoc.
  - intros l1 [|x l2] H1 H2 Hlen; [done|]. simpl in H2. specialize (H1 ltac:(done)).
    replace (l1 ++ x :: l2) with ((l1 ++ [x]) ++ l2) in * by (by rewrite <- app_assoc).
    eapply moves_app.
    + apply Hm; [rewrite length_app; simpl; lia|lia|done].
    + subst i. apply moves_remove_last. rewrite !length_app in Hlen. simpl in Hlen. lia.
Qed.

Lemma diff_array_additions tk ws : forall l,
  moves tk (map (op_value "add" (to_string tk ++ str "/-")) ws) (value_array l) (value_array (l ++ ws)).
Proof.
  rewrite dash_path_to_string. induction ws as [|w ws IH]; intros l; cbn [map]; [rewrite app_nil_r; apply moves_nil|].
  eapply (moves_app _ [_]); [apply moves_add_last|]. replace (l ++ w :: ws) with ((l ++ [w]) ++ ws); [apply IH|].
  by rewrite <- app_assoc.
Qed.

Lemma diff_array_ok s t tk : Forall diff_ok s -> storable (value_array s) -> storable (value_array t) ->
  ordinary (value_array t) ->
  exists ops r, diff_ops (value_array s) (value_array t) (to_string tk) = Ret ops /\
    moves tk ops (value_array s) r /\ sim r (value_array t).
Proof.
  intros Hok Hs Ht Hot. destruct (json_eqb (value_array s) (value_array t)) eqn:E.
  { exists [], (value_array s). cbn [diff_ops]. rewrite E. split_and!; [done|apply moves_nil|done]. }
  rewrite diff_ops_array by done.
  apply storable_array_inv in Hs as [Hls Hs], Ht as [Hlt Ht]. apply json_eqb_array_refl in Hot.
  destruct (diff_array_common tk s Hok Hs t [] Ht Hot) as (ops1 & rs & E1 & M1 & R1); [exact Hls|].
  change (length []) with 0%nat in E1. rewrite E1. cbn [comp_bind].
  destruct (diff_array_removals tk (length s - length t) (length t) []) as (ops2 & -> & M2). cbn [comp_bind].
  eexists _, (value_array (rs ++ drop (length s) t)). split_and!; [done| |].
  - eapply moves_app; [exact M1|]. rewrite app_nil_r. simpl app.
    pose proof (Forall2_length _ _ _ R1) as Hrs. rewrite length_take in Hrs.
    apply (moves_app _ _ _ _ (value_array rs)); [|apply diff_array_additions].
    apply M2; [lia|by rewrite length_drop|]. rewrite length_app, length_drop. unfold SIZE_TYPE_MAX. lia.
  - apply json_eqb_array. rewrite <- (take_drop (length s) t) at 2. apply Forall2_app; [done|].
    apply Forall_Forall2_diag, Forall_drop. exact Hot.
Qed.

(** ** Objects *)

Lemma diff_object_members tk t s : Forall (fun kv => diff_ok kv.2) s -> Forall (fun kv => storable kv.2) s ->
  sorted_object s -> Forall (fun kv => storable kv.2) t -> Forall (fun kv => ordinary kv.2) t ->
  forall c, sorted_object c -> (forall k v, object_find k s = Some v -> object_find k c = Some v) ->
  exists ops c', diff_object_loop (to_string tk) t s = Ret ops /\
    moves tk ops (value_object c) (value_object c') /\ sorted_object c' /\
    forall k, match object_find k s with
              | Some _ => option_Forall2 (fun r w => sim r w) (object_find k c') (object_find k t)
              | None => object_find k c' = object_find k c
              end.
Proof.
  induction 1 as [|[k v] s Hv _ IH]; intros Hs Hso Ht Hot c Hc Hsub.
  { exists [], c. split_and!; [done|apply moves_nil|done|done]. }
  inversion Hs as [|? ? Hsv Hs']; subst. simpl in Hv, Hsv.
  pose proof (sorted_find_tail _ _ _ Hso) as Hn. apply sorted_object_tail in Hso.
  assert (object_find k c = Some v) as Hk by (apply Hsub; simpl; by rewrite decide_True).
  assert (exists ops1 c1,
    match object_find k t with
    | Some w => diff_ops v w (key_path (to_string tk) k)
    | None => let* op := op_removal (key_path (to_string tk) k) in Ret [op]
    end = Ret ops1 /\ moves tk ops1 (value_object c) (value_object c1) /\ sorted_object c1 /\
    option_Forall2 (fun r w => sim r w) (object_find k c1) (object_find k t) /\
    forall k', k' <> k -> object_find k' c1 = object_find k' c) as (ops1 & c1 & E1 & M1 & Hc1 & R1 & F1).
  { destruct (object_find k t) as [w|] eqn:Ew.
    - destruct (Hv w (tk ++ [k])) as (ops1 & r & E1 & M1 & R1); [done|by apply (Forall_object_find storable k w t)|
        by apply (Forall_object_find ordinary k w t)|].
      exists ops1, (object_alter (fun _ => r) k c). rewrite key_path_to_string. split_and!; [done| | | |].
      + change (value_object (object_alter (fun _ => r) k c)) with (step_alter (fun _ => r) (value_object c) (PKey k)).
        by eapply moves_lift.
      + by apply object_alter_sorted.
      + rewrite object_find_alter, Hk. by constructor.
      + intros k' Hne. by apply object_find_alter_ne.
    - exists [remove_op (tk ++ [k])], (object_erase k c). rewrite op_removal_object, key_path_to_string.
      split_and!; [done|apply moves_remove_key; eauto|by apply object_erase_sorted| |].
      + rewrite object_erase_find, decide_True by done. constructor.
      + intros k' Hne. by rewrite object_erase_find, decide_False. }
  destruct (IH Hs' Hso Ht Hot c1 Hc1) as (ops2 & c2 & E2 & M2 & Hc2 & F2).
  { intros k' v' Hk'. assert (k' <> k) by congruence. rewrite F1 by done. apply Hsub. simpl. by rewrite decide_False. }
  exists (ops1 ++ ops2), c2. split_and!; [|by eapply moves_app|done|].
  - cbn [diff_object_loop]. rewrite E1. cbn [comp_bind]. by rewrite E2.
  - intros k'. simpl. specialize (F2 k'). destruct (decide (k' = k)) as [->|Hne].
    + rewrite Hn in F2. by rewrite F2.
    + destruct (object_find k' s); [done|]. by rewrite F2, F1.
Qed.

Lemma diff_object_additions tk s t : sorted_object t -> forall c, sorted_object c ->
  exists c', moves tk (diff_additions (to_string tk) s t) (value_object c) (value_object c') /\
    sorted_object c' /\
    forall k, object_find k c' =
      match object_find k t, object_find k s with Some w, None => Some w | _, _ => object_find k c end.
Proof.
  induction t as [|[k w] t IH]; intros Ht c Hc; [exists c; split_and!; [apply moves_nil|done|done]|].
  pose proof (sorted_find_tail _ _ _ Ht) as Hn. apply sorted_object_tail in Ht. cbn [diff_additions].
  destruct (object_find k s) as [v|] eqn:Es.
  - destruct (IH Ht c Hc) as (c' & M & Hs' & Hf). exists c'. split_and!; [done|done|]. intros k'. rewrite Hf. simpl.
    case_decide as Ek; [|done]. subst. by rewrite Hn, Es.
  - destruct (IH Ht (object_assign k w c) (object_assign_sorted _ _ _ Hc)) as (c' & M & Hs' & Hf).
    exists c'. split_and!; [|done|].
    + rewrite key_path_to_string. eapply (moves_app _ [_]); [apply moves_add_key|exact M].
    + intros k'. rewrite Hf, object_assign_find by done. simpl. case_decide as Ek; [|done]. subst. by rewrite Hn, Es.
Qed.

Lemma diff_object_ok s t tk : Forall (fun kv => diff_ok kv.2) s -> storable (value_object s) ->
  storable (value_object t) -> ordinary (value_object t) ->
  exists ops r, diff_ops (value_object s) (value_object t) (to_string tk) = Ret ops /\
    moves tk ops (value_object s) r /\ sim r (value_object t).
Proof.
  intros Hok Hs Ht Hot. destruct (json_eqb (value_object s) (value_object t)) eqn:E.
  { exists [], (value_object s). cbn [diff_ops]. rewrite E. split_and!; [done|apply moves_nil|done]. }
  rewrite diff_ops_object by done.
  apply storable_object_inv in Hs as [Hss Hs], Ht as [Hst Ht]. apply json_eqb_object_refl in Hot.
  destruct (diff_object_members tk t s Hok Hs Hss Ht Hot s Hss ltac:(done)) as (ops1 & c1 & -> & M1 & Hc1 & F1).
  destruct (diff_object_additions tk s t Hst c1 Hc1) as (c2 & M2 & Hc2 & F2).
  eexists _, (value_object c2). split_and!; [done|by eapply moves_app|].
  apply json_eqb_object, (sorted_object_rel (fun r w => sim r w)); [done..|]. intros k. rewrite F2.
  specialize (F1 k). destruct (object_find k s) eqn:Es, (object_find k t) eqn:Et; try done.
  - constructor. by apply (Forall_object_find ordinary k _ t).
  - rewrite F1. constructor.
Qed.

(** Other values are replaced. *)
Lemma diff_other_ok source target tk : ordinary target ->
  (is_structured source && same_type source target) = false ->
  exists ops r, diff_ops source target (to_string tk) = Ret ops /\ moves tk ops source r /\ sim r target.
Proof.
  intros Hot Hty. destruct (json_eqb source target) eqn:E.
  - exists [], source. split_and!; [|apply moves_nil|done]. destruct source; cbn [diff_ops]; by rewrite E.
  - exists [replace_op tk target], target. split_and!; [|apply moves_replace|done].
    destruct source, target; try done; cbn [diff_ops]; by rewrite E.
Qed.

Lemma diff_total source : diff_ok source.
Proof.
  induction source as [|m IH|l IH|s|b|z|z|f|b t|] using json_ind'; intros target tk Hs Ht Hot;
    try (by apply diff_other_ok).
  - destruct target; try (by apply diff_other_ok). by apply diff_object_ok.
  - destruct target; try (by apply diff_other_ok). by apply diff_array_ok.
Qed.

(** C15: [diff] never throws, and its result is a patch from [source] to
    [target]: for every document in which the pointer [path] leads to
    [source], [patch] succeeds, and turns exactly that value into one that
    [operator==] finds equal to [target] (the whole document when [path] is
    empty).  [target] must be equal to itself: it holds no NaN and no
    discarded value. *)
Theorem diff_patch source target path doc r : storable source -> storable target -> ordinary target ->
  get_checked_ref path doc = Ret r -> path_get doc r = Some source ->
  exists p v, diff source target (to_string path) = Ret p /\ patch doc p = Ret (path_alter (fun _ => v) doc r) /\
    json_eqb v target = true.
Proof.
  intros Hs Ht Hot Hr Hv. destruct (diff_total source target path Hs Ht Hot) as (ops & v & E & M & R).
  exists (value_array ops), v. unfold diff, patch. rewrite E. split_and!; [done| |done].
  cbn [patch_inplace]. by rewrite (M doc r Hr Hv).
Qed.
End Diff.

#[local] Existing Instance example_floats.
#[local] Existing Instance example_compare.

Definition diff_source : json Z :=
  value_object [(str "a", value_array [value_number_unsigned 1; value_null; value_null]); (str "b/~", value_null)].
Definition diff_target : json Z :=
  value_object [(str "a", value_array [value_number_unsigned 1; value_string (str "x")]); (str "c", value_object [])].

Lemma diff_patch_witness : exists p v, diff diff_source diff_target [] = Ret p /\ patch diff_source p = Ret v /\
  json_eqb v diff_target = true.
Proof.
  apply (diff_patch diff_source diff_target [] diff_source []); [..|done|done].
  - constructor; [repeat constructor|repeat constructor; by apply storable_other].
  - constructor; [repeat constructor|repeat constructor; by apply storable_other].
  - reflexivity.
Defined.
