(* ===== verification/EphSocket.v ===== *)
(** The message transport of [src/libephmem/libephmem.cpp]: [libephmem_send],
    [libephmem_recv] and [libephmem_drain].

    The kernel is the list of the answers it gives to [send], [poll] and
    [recv], in order: every behaviour of a run is one such script.  The
    loops consume one answer per turn, so the script is their fuel, and
    [OutOfFuel] means that the call is still waiting for an answer. *)
From S2P Require Import Prelude.

Inductive errno : Set := EINTR | EAGAIN | EOTHER.

#[global] Instance errno_eq_dec : EqDecision errno.
Proof. solve_decision. Defined.

(** [Sent n]: the kernel accepts up to [n] bytes of the request. *)
Inductive send_answer : Set := Sent (n : nat) | SendFails (e : errno).
(** [PollEvents b]: a positive result, with [POLLIN] in [revents] or not. *)
Inductive poll_answer : Set := PollEvents (pollin : bool) | PollTimeout | PollFails (e : errno).
(** [Received b]: the bytes that are there; the empty list is the end of the
    stream. *)
Inductive recv_answer : Set := Received (b : bytes) | RecvFails (e : errno).

Record socket := mk_socket {
  send_answers : list send_answer;
  poll_answers : list poll_answer;
  recv_answers : list recv_answer;
  wire : bytes                        (* what the daemon has received *)
}.

Definition with_sends (s : socket) (a : list send_answer) (w : bytes) : socket :=
  mk_socket a (poll_answers s) (recv_answers s) w.
Definition with_polls (s : socket) (a : list poll_answer) : socket :=
  mk_socket (send_answers s) a (recv_answers s) (wire s).
Definition with_recvs (s : socket) (a : list recv_answer) : socket :=
  mk_socket (send_answers s) (poll_answers s) a (wire s).

(** ** [libephmem_send] *)

(** [req] from [total_bytes_sent] on is [rest]. *)
Fixpoint send_loop (answers : list send_answer) (rest : bytes) (s : socket) : comp (Z * socket) :=
  match rest with
  | [] => Ret (0, with_sends s answers (wire s))
  | _ =>
      match answers with
      | [] => OutOfFuel
      | Sent n :: answers =>
          send_loop answers (drop n rest) (with_sends s answers (wire s ++ take n rest))
      | SendFails EINTR :: answers => send_loop answers rest s
      | SendFails _ :: answers => Ret (-1, with_sends s answers (wire s))
      end
  end.

Definition libephmem_send (req : bytes) (s : socket) : comp (Z * socket) :=
  send_loop (send_answers s) req s.

(** ** [libephmem_recv] *)

(** [recv(sock, pos, len, flags)]: what is left of the data stays queued. *)
Definition sys_recv (len : nat) (s : socket) : comp ((errno + bytes) * socket) :=
  match recv_answers s with
  | [] => OutOfFuel
  | RecvFails e :: a => Ret (inl e, with_recvs s a)
  | Received b :: a =>
      Ret (inr (take len b),
           with_recvs s (match drop len b with [] => a | b' => Received b' :: a end))
  end.

(** A store of [data] at [pos] in [buf]. *)
Definition store (buf : bytes) (pos : nat) (data : bytes) : comp bytes :=
  if (pos + length data <=? length buf)%nat
  then Ret (take pos buf ++ data ++ drop (pos + length data) buf)
  else Throw buffer_overrun.

(** The index of the first newline. *)
Fixpoint find_newline (data : bytes) : option nat :=
  match data with
  | [] => None
  | c :: data => if c =? 10 then Some 0%nat else S <$> find_newline data
  end.

Fixpoint recv_loop (polls : list poll_answer) (buf : bytes) (buf_size total : nat) (s : socket) :
    comp (Z * bytes * socket) :=
  if (total <? buf_size - 1)%nat then
    let remaining := (buf_size - 1 - total)%nat in
    match polls with
    | [] => OutOfFuel
    | PollFails EINTR :: polls => recv_loop polls buf buf_size total s
    | PollFails _ :: polls => Ret (-1, buf, with_polls s polls)
    | PollTimeout :: polls => Ret (-1, buf, with_polls s polls)
    | PollEvents false :: polls => Ret (-1, buf, with_polls s polls)
    | PollEvents true :: polls =>
        let* '(n, s) := sys_recv remaining s in
        match n with
        | inl EINTR => recv_loop polls buf buf_size total s
        | inl _ => Ret (-1, buf, with_polls s polls)
        | inr [] => Ret (-1, buf, with_polls s polls)
        | inr data =>
            let* buf := store buf total data in
            match find_newline data with
            | Some i =>
                let* buf := store buf (total + i) [0] in
                Ret (0, buf, with_polls s polls)
            | None => recv_loop polls buf buf_size (total + length data) s
            end
        end
    end
  else Ret (-1, buf, with_polls s polls).

(** The timeout only decides when [poll] answers [PollTimeout]. *)
Definition libephmem_recv (buf : bytes) (buf_size : nat) (s : socket) : comp (Z * bytes * socket) :=
  recv_loop (poll_answers s) buf buf_size 0 s.

(** ** [libephmem_drain] *)

Definition MAX_JSON_BUF : nat := 1024.

Fixpoint drain_loop (fuel : nat) (s : socket) : comp (Z * socket) :=
  match fuel with
  | O => OutOfFuel
  | S fuel =>
      let* '(n, s) := sys_recv MAX_JSON_BUF s in
      match n with
      | inr [] => Ret (-1, s)
      | inr _ => drain_loop fuel s
      | inl EINTR => drain_loop fuel s
      | inl EAGAIN => Ret (0, s)
      | inl EOTHER => Ret (-1, s)
      end
  end.

(** Fuel: a call per answer, and per byte of it at worst. *)
Definition recv_size (a : list recv_answer) : nat :=
  foldr (fun x n => match x with Received b => S (length b) + n | RecvFails _ => S n end)%nat 0%nat a.

Definition libephmem_drain (s : socket) : comp (Z * socket) :=
  drain_loop (S (recv_size (recv_answers s))) s.

(** ** Sending *)

(** A script under which every byte is accepted eventually. *)
Fixpoint accepts (answers : list send_answer) (n : nat) : Prop :=
  match n with
  | O => True
  | _ =>
      match answers with
      | [] => False
      | Sent k :: answers => accepts answers (n - k)
      | SendFails EINTR :: answers => accepts answers n
      | SendFails _ :: _ => False
      end
  end.

Lemma send_loop_spec answers : forall rest s r s', send_loop answers rest s = Ret (r, s') ->
  exists sent, wire s' = wire s ++ sent /\ recv_answers s' = recv_answers s /\
    poll_answers s' = poll_answers s /\
    ((r = 0 /\ sent = rest) \/ (r = -1 /\ exists tail, rest = sent ++ tail)).
Proof.
  induction answers as [|a answers IH]; intros rest s r s'; cbn [send_loop].
  - destruct rest; [|done]. intros [= <- <-]. exists []. rewrite app_nil_r. split_and!; auto.
  - destruct rest as [|c rest]; [intros [= <- <-]; exists []; rewrite app_nil_r; split_and!; auto|].
    destruct a as [n|[]].
    + intros Hs. apply IH in Hs as (sent & Hw & Hr & Hp & Hcase). exists (take n (c :: rest) ++ sent).
      split_and!; [by rewrite Hw, app_assoc|done|done|]. destruct Hcase as [[-> ->]|[-> (tl & E)]].
      * left. split; [done|]. apply take_drop.
      * right. split; [done|]. exists tl. by rewrite <- app_assoc, <- E, take_drop.
    + apply IH.
    + intros [= <- <-]. exists []. rewrite app_nil_r. split_and!; try done. right. split; [done|]. by eexists.
    + intros [= <- <-]. exists []. rewrite app_nil_r. split_and!; try done. right. split; [done|]. by eexists.
Qed.

Lemma send_loop_accepts answers : forall rest s, accepts answers (length rest) ->
  exists s', send_loop answers rest s = Ret (0, s').
Proof.
  induction answers as [|a answers IH]; intros rest s Ha; destruct rest as [|c rest]; cbn [send_loop];
    [eexists; reflexivity|done|eexists; reflexivity|].
  destruct a as [n|[]]; cbn [accepts length] in Ha; try done.
  - apply IH. by rewrite length_drop.
  - by apply IH.
Qed.

(** ** Receiving *)

Lemma store_ok buf pos data : (pos + length data <= length buf)%nat ->
  store buf pos data = Ret (take pos buf ++ data ++ drop (pos + length data) buf).
Proof. intros. unfold store. by rewrite (proj2 (Nat.leb_le _ _)). Qed.

Lemma find_newline_some data i : find_newline data = Some i ->
  exists tl, data = take i data ++ 10 :: tl /\ length (take i data) = i /\ (10 ∉ take i data).
Proof.
  revert i. induction data as [|c data IH]; intros i; simpl; [done|].
  destruct (Z.eqb_spec c 10) as [->|Hc].
  - intros [= <-]. exists data. split_and!; [done|done|by apply not_elem_of_nil].
  - destruct (find_newline data) as [j|]; [|done]. intros [= <-].
    destruct (IH j eq_refl) as (tl & E & El & Hn). exists tl. simpl. split_and!; [by f_equal|by f_equal|].
    apply not_elem_of_cons. auto.
Qed.

Lemma find_newline_none data : find_newline data = None <-> 10 ∉ data.
Proof.
  induction data as [|c data IH]; simpl; [split; [intros _; apply not_elem_of_nil|done]|].
  rewrite not_elem_of_cons, <- IH. destruct (Z.eqb_spec c 10) as [->|Hc]; [naive_solver|].
  destruct (find_newline data); naive_solver.
Qed.

Lemma find_newline_app a b : 10 ∉ a -> find_newline (a ++ 10 :: b) = Some (length a).
Proof.
  induction a as [|c a IH]; intros Hn; simpl; [done|]. apply not_elem_of_cons in Hn as [Hc Hn].
  destruct (Z.eqb_spec c 10); [done|]. by rewrite IH.
Qed.

(** What a call that returns leaves in the buffer. *)
Definition recv_ok (buf0 : bytes) (r : Z) (buf : bytes) : Prop :=
  length buf = length buf0 /\
  ((r = -1) \/ (r = 0 /\ exists line garbage, buf = line ++ 0 :: garbage /\ 10 ∉ line)).

Lemma recv_loop_safe polls : forall buf buf_size total s,
  (buf_size <= length buf)%nat -> (1 <= buf_size)%nat -> 10 ∉ take total buf -> (total <= buf_size - 1)%nat ->
  match recv_loop polls buf buf_size total s with
  | Ret (r, buf', _) => recv_ok buf r buf'
  | Throw _ => False
  | OutOfFuel => True
  end.
Proof.
  induction polls as [|p polls IH]; intros buf buf_size total s Hb H1 Hn Ht; cbn [recv_loop];
    destruct (Nat.ltb_spec total (buf_size - 1)); try done; try (split; [done|by left]).
  destruct p as [[]| |[]]; try (split; [done|by left]); [|by apply IH].
  unfold sys_recv. destruct (recv_answers s) as [|[b|[]] a]; cbn [comp_bind]; try done;
    try (split; [done|by left]); [|by apply IH].
  set (rem := (buf_size - 1 - total)%nat).
  destruct (take rem b) as [|c data'] eqn:Ed; [split; [done|by left]|]. set (data := c :: data') in *.
  assert (length data <= rem)%nat as Hl by (rewrite <- Ed, length_take; lia).
  rewrite store_ok by lia. cbn [comp_bind].
  set (buf1 := take total buf ++ data ++ drop (total + length data) buf).
  assert (length buf1 = length buf) as Hb1.
  { unfold buf1. rewrite !length_app, length_take, length_drop. lia. }
  assert (take (total + length data) buf1 = take total buf ++ data) as Ht1.
  { unfold buf1. rewrite app_assoc, take_app_le by (rewrite length_app, length_take; lia).
    apply take_ge. rewrite length_app, length_take. lia. }
  destruct (find_newline data) as [i|] eqn:Ei.
  - destruct (find_newline_some _ _ Ei) as (tl & E & El & Hni).
    assert (i < length data)%nat as Hil.
    { rewrite E at 1. rewrite length_app, El. simpl. lia. }
    rewrite store_ok by (simpl; lia). cbn [comp_bind]. split.
    + rewrite !length_app, length_take, length_drop. simpl. lia.
    + right. split; [done|]. eexists _, _. split; [done|].
      replace (take (total + i) buf1) with (take total buf ++ take i data).
      { apply not_elem_of_app. auto. }
      replace (total + i)%nat with ((total + i) `min` (total + length data))%nat by lia.
      rewrite <- take_take, Ht1. rewrite take_app_ge by (rewrite length_take; lia).
      rewrite length_take. do 2 f_equal. lia.
  - apply find_newline_none in Ei.
    specialize (IH buf1 buf_size (total + length data)%nat). unfold recv_ok in *. rewrite Hb1 in IH.
    apply IH; [done|done| |lia]. rewrite Ht1. apply not_elem_of_app. auto.
Qed.

(** The answers hand over the bytes [d] (and may go on after them). *)
Inductive delivers : list recv_answer -> bytes -> Prop :=
  | delivers_end a : delivers a []
  | delivers_intr a d : delivers a d -> delivers (RecvFails EINTR :: a) d
  | delivers_data b a d : b <> [] -> delivers a d -> delivers (Received b :: a) (b ++ d).

(** [n] times readable, interruptions apart. *)
Fixpoint polls_ready (polls : list poll_answer) (n : nat) {struct n} : Prop :=
  match n with
  | O => True
  | S n =>
      (fix go (polls : list poll_answer) : Prop :=
         match polls with
         | PollEvents true :: polls => polls_ready polls n
         | PollFails EINTR :: polls => go polls
         | _ => False
         end) polls
  end.

Lemma split_newline b d line extra : b ++ d = line ++ 10 :: extra -> 10 ∉ line ->
  (exists tl, b = line ++ 10 :: tl) \/ (10 ∉ b /\ exists line', line = b ++ line' /\ d = line' ++ 10 :: extra).
Proof.
  revert line. induction b as [|c b IH]; intros line E Hn; simpl in E.
  - right. split; [apply not_elem_of_nil|]. by exists line.
  - destruct line as [|c' line]; simpl in E; injection E as -> E.
    + left. by exists b.
    + apply not_elem_of_cons in Hn as [Hc Hn]. destruct (IH line E Hn) as [(tl & ->)|(Hb & l' & -> & ->)].
      * left. by exists tl.
      * right. split; [by apply not_elem_of_cons|]. by exists l'.
Qed.

(** The line before the first newline arrives, whatever the segmentation. *)
Lemma recv_loop_line polls : forall recvs d line extra buf buf_size total s,
  delivers recvs d -> d = line ++ 10 :: extra -> 10 ∉ line -> recv_answers s = recvs ->
  polls_ready polls (length recvs) -> (buf_size <= length buf)%nat ->
  (total + length line + 1 <= buf_size - 1)%nat ->
  exists garbage s', recv_loop polls buf buf_size total s =
    Ret (0, take total buf ++ line ++ 0 :: garbage, s') /\ wire s' = wire s.
Proof.
  induction polls as [|p polls IH]; intros recvs d line extra buf buf_size total s Hd Ed Hn Hr Hp Hb Hl;
    (destruct Hd as [a|a d Hd|b a d Hne Hd]; [by destruct line|..]); cbn [length polls_ready] in Hp; try done.
  - cbn [recv_loop]. destruct (Nat.ltb_spec total (buf_size - 1)); [|lia].
    destruct p as [[]| |[]]; try done.
    + unfold sys_recv. rewrite Hr. cbn [comp_bind].
      apply (IH a d line extra buf buf_size total (with_recvs s a)); try done.
    + apply (IH (RecvFails EINTR :: a) d line extra); try done. by apply delivers_intr.
  - cbn [recv_loop]. destruct (Nat.ltb_spec total (buf_size - 1)); [|lia].
    destruct p as [[]| |[]]; try done;
      [|apply (IH (Received b :: a) (b ++ d) line extra); try done; by apply delivers_data].
    unfold sys_recv. rewrite Hr. cbn [comp_bind]. set (rem := (buf_size - 1 - total)%nat).
    destruct (split_newline b d line extra Ed Hn) as [(tl & ->)|(Hnb & line' & -> & ->)].
    + rewrite take_app_ge by lia. destruct (rem - length line)%nat as [|k] eqn:Ek; [lia|]. cbn [take].
      assert (find_newline (line ++ 10 :: take k tl) = Some (length line)) as Hfind by by apply find_newline_app.
      remember (line ++ 10 :: take k tl) as data eqn:Hdata.
      assert (length data <= rem)%nat as Hlen.
      { rewrite Hdata, length_app. simpl. rewrite length_take. lia. }
      assert (length line < length data)%nat as Hlen' by (rewrite Hdata, length_app; simpl; lia).
      destruct data as [|c data']; [by destruct line|]. set (data := c :: data') in *.
      rewrite store_ok by lia. cbn [comp_bind]. rewrite Hfind.
      rewrite store_ok by (rewrite !length_app, length_take, length_drop; simpl; lia). cbn [comp_bind].
      assert (take (total + length line) (take total buf ++ data ++ drop (total + length data) buf) =
        take total buf ++ line) as ->;
        [|eexists _, _; split; [rewrite <- app_assoc; reflexivity|done]].
      assert (length (take total buf) = total) as Ht by (rewrite length_take; lia).
      rewrite take_app_ge by lia. rewrite Ht, Hdata, <- app_assoc.
      rewrite take_app_le by lia. by rewrite (take_ge line) by lia.
    + rewrite length_app in Hl. rewrite take_ge, drop_ge by lia.
      destruct b as [|c b']; [done|]. set (b := c :: b') in *.
      rewrite store_ok by lia. cbn [comp_bind]. rewrite (proj2 (find_newline_none b)) by done.
      set (buf1 := take total buf ++ b ++ drop (total + length b) buf).
      assert (length (take total buf) = total) as Ht by (rewrite length_take; lia).
      apply not_elem_of_app in Hn as [_ Hn].
      destruct (IH a (line' ++ 10 :: extra) line' extra buf1 buf_size (total + length b)%nat (with_recvs s a))
        as (garbage & s' & -> & Hw); try done; try lia.
      { unfold buf1. rewrite !length_app, Ht, length_drop. lia. }
      assert (take (total + length b) buf1 = take total buf ++ b) as ->.
      { unfold buf1. rewrite app_assoc. apply take_app_length'. rewrite length_app, Ht. done. }
      exists garbage, s'. by rewrite <- !app_assoc.
Qed.

(** ** Draining *)

(** Pending data, then nothing more for now. *)
Inductive pending_then_eagain : list recv_answer -> list recv_answer -> Prop :=
  | pend_done a : pending_then_eagain (RecvFails EAGAIN :: a) a
  | pend_intr a a' : pending_then_eagain a a' -> pending_then_eagain (RecvFails EINTR :: a) a'
  | pend_data b a a' : b <> [] -> pending_then_eagain a a' -> pending_then_eagain (Received b :: a) a'.

Lemma drain_loop_ok fuel : forall s a', pending_then_eagain (recv_answers s) a' ->
  (recv_size (recv_answers s) < fuel)%nat ->
  drain_loop fuel s = Ret (0, with_recvs s a').
Proof.
  induction fuel as [|fuel IH]; intros s a' Hp Hf; [lia|]. cbn [drain_loop]. unfold sys_recv.
  inversion Hp as [a Ea|a a1 Ha Ea|b a a1 Hb Ha Ea]; subst; rewrite <- Ea in Hf; simpl in Hf; cbn [comp_bind].
  - done.
  - rewrite (IH (with_recvs s a) a'); [done|done|simpl; lia].
  - destruct (take MAX_JSON_BUF b) as [|c data] eqn:Et; [by destruct b|].
    destruct (drop MAX_JSON_BUF b) as [|c' b'] eqn:Edr.
    + rewrite (IH (with_recvs s a) a'); [done|done|simpl; lia].
    + rewrite (IH (with_recvs s (Received (c' :: b') :: a)) a'); [done|by constructor|].
      simpl. assert (length (drop MAX_JSON_BUF b) = S (length b')) as Hlen by (by rewrite Edr).
      rewrite length_drop in Hlen. unfold MAX_JSON_BUF in Hlen. lia.
Qed.

Lemma drain_loop_safe fuel : forall s, (recv_size (recv_answers s) < fuel)%nat ->
  match drain_loop fuel s with
  | Ret (r, s') => (r = 0 \/ r = -1) /\ wire s' = wire s
  | Throw _ => False
  | OutOfFuel => Forall (fun x => match x with RecvFails EINTR => True | Received b => b <> [] | _ => False end)
      (recv_answers s)
  end.
Proof.
  induction fuel as [|fuel IH]; intros s Hf; [lia|]. cbn [drain_loop]. unfold sys_recv.
  destruct (recv_answers s) as [|[b|[]] a] eqn:Ea; cbn [comp_bind]; auto.
  - simpl in Hf. destruct (take MAX_JSON_BUF b) as [|c data] eqn:Et; [auto|].
    assert (b <> []) as Hb by (by intros ->).
    destruct (drop MAX_JSON_BUF b) as [|c' b'] eqn:Edr.
    + specialize (IH (with_recvs s a)). simpl in IH. specialize (IH ltac:(lia)).
      destruct (drain_loop fuel _) as [[]| |]; try done. by constructor.
    + specialize (IH (with_recvs s (Received (c' :: b') :: a))). simpl in IH.
      assert (length (drop MAX_JSON_BUF b) = S (length b')) as Hlen by (by rewrite Edr).
      rewrite length_drop in Hlen. unfold MAX_JSON_BUF in Hlen. specialize (IH ltac:(lia)).
      destruct (drain_loop fuel _) as [[]| |]; try done. inversion IH; subst. by constructor.
  - simpl in Hf. specialize (IH (with_recvs s a)). simpl in IH. specialize (IH ltac:(lia)).
    destruct (drain_loop fuel _) as [[]| |]; try done. by constructor.
Qed.

(** ** The buffer holds bytes *)

Definition answer_bytes (x : recv_answer) : Prop :=
  match x with Received b => Forall is_byte b | RecvFails _ => True end.

Lemma sys_recv_bytes len s r s' : Forall answer_bytes (recv_answers s) -> sys_recv len s = Ret (r, s') ->
  Forall answer_bytes (recv_answers s') /\ wire s' = wire s /\ send_answers s' = send_answers s /\
  match r with inr b => Forall is_byte b | inl _ => True end.
Proof.
  unfold sys_recv. intros Hb. destruct (recv_answers s) as [|[b|e] a]; [done|..];
    intros [= <- <-]; apply Forall_cons in Hb as [Hb Ha]; simpl in *; [|done].
  split_and!; [|done|done|by apply Forall_take].
  destruct (drop len b) as [|c b'] eqn:E; [done|]. constructor; [|done]. simpl. rewrite <- E. by apply Forall_drop.
Qed.

Lemma store_is_bytes buf pos data buf' : Forall is_byte buf -> Forall is_byte data ->
  store buf pos data = Ret buf' -> Forall is_byte buf'.
Proof.
  unfold store. intros Hb Hd. case_match; [|done]. intros [= <-].
  repeat (apply Forall_app; split); [by apply Forall_take|done|by apply Forall_drop].
Qed.

Lemma recv_loop_bytes polls : forall buf buf_size total s r buf' s',
  Forall is_byte buf -> Forall answer_bytes (recv_answers s) ->
  recv_loop polls buf buf_size total s = Ret (r, buf', s') -> Forall is_byte buf' /\ wire s' = wire s.
Proof.
  induction polls as [|p polls IH]; intros buf buf_size total s r buf' s' Hb Ha; cbn [recv_loop];
    (destruct (total <? buf_size - 1)%nat; [|by intros [= <- <- <-]]); [done|].
  destruct p as [[]| |[]]; try (by intros [= <- <- <-]); [|by apply IH].
  destruct (sys_recv _ s) as [[n s1]| |] eqn:Er; try done. cbn [comp_bind].
  destruct (sys_recv_bytes _ _ _ _ Ha Er) as (Ha1 & Hw1 & _ & Hn).
  destruct n as [[]|data]; try (by intros [= <- <- <-]).
  - intros Hr. apply IH in Hr as [? E]; [|done|done]. by rewrite E.
  - destruct data as [|c data]; [by intros [= <- <- <-]|]. intros Hr.
    apply comp_bind_ret in Hr as (buf1 & Hs1 & Hr). apply (store_is_bytes _ _ _ _ Hb Hn) in Hs1.
    destruct (find_newline (c :: data)).
    + apply comp_bind_ret in Hr as (buf2 & Hs2 & [= <- <- <-]). split; [|done].
      apply (store_is_bytes _ _ _ _ Hs1) in Hs2; [done|]. constructor; [unfold is_byte; lia|constructor].
    + apply IH in Hr as [? E]; [|done|done]. by rewrite E.
Qed.

Lemma drain_loop_bytes fuel : forall s r s', Forall answer_bytes (recv_answers s) ->
  drain_loop fuel s = Ret (r, s') ->
  Forall answer_bytes (recv_answers s') /\ wire s' = wire s /\ send_answers s' = send_answers s.
Proof.
  induction fuel as [|fuel IH]; intros s r s' Ha; cbn [drain_loop]; [done|].
  destruct (sys_recv _ s) as [[n s1]| |] eqn:Er; try done. cbn [comp_bind].
  destruct (sys_recv_bytes _ _ _ _ Ha Er) as (Ha1 & Hw1 & Hs1 & Hn).
  destruct n as [[]|[|c data]]; intros Hr;
    first [apply IH in Hr as (? & E & E'); [by rewrite E, E'|done] | by injection Hr as <- <-].
Qed.

(** ** Properties *)

(** Whenever the kernel accepts the whole request in the end, in pieces
    of any size and with any interruptions, [libephmem_send] returns 0 and
    the daemon receives exactly the request, every byte once and in order. *)
Theorem send_delivers req s : accepts (send_answers s) (length req) ->
  exists s', libephmem_send req s = Ret (0, s') /\ wire s' = wire s ++ req /\
    recv_answers s' = recv_answers s /\ poll_answers s' = poll_answers s.
Proof.
  intros Ha. destruct (send_loop_accepts (send_answers s) req s Ha) as (s' & E). exists s'.
  destruct (send_loop_spec _ _ _ _ _ E) as (sent & Hw & Hr & Hp & [[_ ->]|[? _]]); [|done].
  by split_and!.
Qed.

Lemma send_delivers_witness :
  let s := mk_socket [Sent 2; SendFails EINTR; Sent 1; Sent 7] [] [] [] in
  accepts (send_answers s) 5 /\ exists s', libephmem_send (str "hello") s = Ret (0, s') /\ wire s' = str "hello".
Proof.
  set (s := mk_socket [Sent 2; SendFails EINTR; Sent 1; Sent 7] [] [] []).
  assert (accepts (send_answers s) 5) as Ha by exact I. split; [exact Ha|].
  destruct (send_delivers (str "hello") s Ha) as (s' & E & Hw & _). exists s'. split; [exact E|exact Hw].
Defined.

(** A line that fits is received whole, however the stream cuts it into
    packets and however often [poll] and [recv] are interrupted: the buffer
    then starts with the line and a terminating null. *)
Theorem recv_line line extra recvs buf buf_size s :
  delivers recvs (line ++ 10 :: extra) -> 10 ∉ line -> recv_answers s = recvs ->
  polls_ready (poll_answers s) (length recvs) -> (buf_size <= length buf)%nat ->
  (length line + 2 <= buf_size)%nat ->
  exists garbage s', libephmem_recv buf buf_size s = Ret (0, line ++ 0 :: garbage, s') /\ wire s' = wire s.
Proof.
  intros Hd Hn Hr Hp Hb Hl. unfold libephmem_recv.
  apply (recv_loop_line (poll_answers s) recvs _ line extra buf buf_size 0 s Hd); try done. lia.
Qed.

Lemma recv_line_witness :
  exists garbage s', libephmem_recv (replicate 8 7) 8
    (mk_socket [] [PollFails EINTR; PollEvents true; PollEvents true; PollEvents true; PollEvents true]
       [Received (str "he"); RecvFails EINTR; Received (str "llo" ++ [10] ++ str "rest")] []) =
    Ret (0, str "hello" ++ 0 :: garbage, s').
Proof.
  destruct (recv_line (str "hello") (str "rest")
    [Received (str "he"); RecvFails EINTR; Received (str "llo" ++ [10] ++ str "rest")] (replicate 8 7) 8
    (mk_socket [] [PollFails EINTR; PollEvents true; PollEvents true; PollEvents true; PollEvents true]
       [Received (str "he"); RecvFails EINTR; Received (str "llo" ++ [10] ++ str "rest")] []))
    as (g & s' & E & _).
  - apply (delivers_data (str "he") _ (str "llo" ++ [10] ++ str "rest")); [done|]. apply delivers_intr.
    rewrite <- (app_nil_r (str "llo" ++ [10] ++ str "rest")). apply delivers_data; [done|]. apply delivers_end.
  - apply find_newline_none. reflexivity.
  - reflexivity.
  - exact I.
  - simpl. lia.
  - simpl. lia.
  - exists g, s'. exact E.
Defined.

(** For every script of the kernel, [libephmem_recv] stays inside of its
    buffer, keeps its length, and returns -1, or 0 with a null-terminated
    line without newline in the buffer. *)
Theorem recv_stays_in_buffer buf buf_size s : (1 <= buf_size <= length buf)%nat ->
  match libephmem_recv buf buf_size s with
  | Ret (r, buf', _) => recv_ok buf r buf'
  | Throw _ => False
  | OutOfFuel => True
  end.
Proof.
  intros Hb. unfold libephmem_recv. apply recv_loop_safe; try lia. apply not_elem_of_nil.
Qed.

Lemma recv_stays_in_buffer_witness :
  match libephmem_recv (replicate 4 7) 4
    (mk_socket [] [PollEvents true; PollEvents true] [Received (str "too long")] []) with
  | Ret (r, buf', _) => recv_ok (replicate 4 7) r buf' /\ buf' = str "too" ++ [7]
  | _ => False
  end.
Proof.
  pose proof (recv_stays_in_buffer (replicate 4 7) 4
    (mk_socket [] [PollEvents true; PollEvents true] [Received (str "too long")] []) ltac:(simpl; lia)) as H.
  vm_compute in H |- *. split; [exact H|reflexivity].
Defined.
