(* ===== verification/EphInit.v ===== *)
(** Process-wide state of [src/libephmem/libephmem.cpp] and its
    initialisation: [connect_to_ephemerald], [libephmem_init] and the
    [std::call_once] around it.

    The kernel's answers are a record; what the calls do to the process (open
    descriptors, mappings, the action of SIGBUS) is state. *)
From S2P Require Import Prelude.

(** The static variables of the file. *)
Record globals := mk_globals {
  libephmem_initialized : bool;              (* the once_flag *)
  libephmfs_ephmfs_dir : bytes;
  libephmfs_ephemerald_sock : bytes;
  ephemerald_sock_fd : Z;
  ephmem_pkey : Z;
  libephmem_setup_succeeded : bool
}.

Definition globals_init : globals :=
  mk_globals false (str "/mnt/ephmfs") (str "/run/ephemerald.sock") (-1) (-1) false.

Inductive sigaction_t : Set := SIG_DFL | libephmem_sig_handler_installed.

(** A memory mapping: its length and the protection key it is tagged with. *)
Record mapping := mk_mapping { map_len : Z; map_pkey : option Z }.

(** What the process holds in the kernel, and the live handles. *)
Record process := mk_process {
  open_fds : gset Z;
  mappings : gmap Z mapping;                 (* by address *)
  live_handles : nat;
  sigbus_action : sigaction_t;
  connected_to : option bytes                (* path of the daemon's socket *)
}.

Definition with_fds (p : process) (f : gset Z) : process :=
  mk_process f (mappings p) (live_handles p) (sigbus_action p) (connected_to p).
Definition with_mappings (p : process) (m : gmap Z mapping) : process :=
  mk_process (open_fds p) m (live_handles p) (sigbus_action p) (connected_to p).
Definition with_handles (p : process) (n : nat) : process :=
  mk_process (open_fds p) (mappings p) n (sigbus_action p) (connected_to p).
Definition with_action (p : process) (a : sigaction_t) : process :=
  mk_process (open_fds p) (mappings p) (live_handles p) a (connected_to p).
Definition with_peer (p : process) (c : option bytes) : process :=
  mk_process (open_fds p) (mappings p) (live_handles p) (sigbus_action p) c.

(** [close] *)
Definition close_fd (fd : Z) (p : process) : process := with_fds p (open_fds p ∖ {[fd]}).
(** A system call that returns a new descriptor, or -1. *)
Definition add_fd (fd : Z) (p : process) : process :=
  if fd =? -1 then p else with_fds p ({[fd]} ∪ open_fds p).

Record init_answers := mk_init_answers {
  getenv_ephmfs_dir : option bytes;
  getenv_ephemerald_path : option bytes;
  socket_answer : Z;
  connect_answer : bool;                     (* success *)
  sigaction_answer : bool;
  pkey_alloc_answer : Z
}.

(** [sizeof(addr.sun_path)] *)
Definition SUN_PATH_SIZE : nat := 108.

Definition connect_to_ephemerald (path : bytes) (a : init_answers) (p : process) : Z * process :=
  if (SUN_PATH_SIZE <=? length path)%nat then (-1, p)
  else
    let sock_fd := socket_answer a in
    let p := add_fd sock_fd p in
    if sock_fd =? -1 then (-1, p)
    else
      let sun_path := take (SUN_PATH_SIZE - 1) path in
      if connect_answer a then (sock_fd, with_peer p (Some sun_path))
      else (-1, close_fd sock_fd p).

Definition libephmem_init (a : init_answers) (st : globals * process) : globals * process :=
  let '(g, p) := st in
  let dir := default (libephmfs_ephmfs_dir g) (getenv_ephmfs_dir a) in
  let path := default (libephmfs_ephemerald_sock g) (getenv_ephemerald_path a) in
  let '(fd, p) := connect_to_ephemerald path a p in
  if fd =? -1 then
    (mk_globals (libephmem_initialized g) dir path fd (ephmem_pkey g) (libephmem_setup_succeeded g), p)
  else
    let p := if sigaction_answer a then with_action p libephmem_sig_handler_installed else p in
    (mk_globals (libephmem_initialized g) dir path fd (pkey_alloc_answer a) true, p).

(** [std::call_once(libephmem_initialized, libephmem_init)] *)
Definition call_once_init (a : init_answers) (st : globals * process) : globals * process :=
  if libephmem_initialized st.1 then st
  else
    let '(g, p) := libephmem_init a st in
    (mk_globals true (libephmfs_ephmfs_dir g) (libephmfs_ephemerald_sock g) (ephemerald_sock_fd g)
       (ephmem_pkey g) (libephmem_setup_succeeded g), p).

Definition libephmem_using_pkey (g : globals) : bool := negb (ephmem_pkey g =? -1).

(** ** Properties *)

(** The kernel never returns a descriptor that is already open. *)
Definition fresh_fd (fd : Z) (p : process) : Prop := fd ∉ open_fds p.

Lemma close_add_fd fd p : fresh_fd fd p -> close_fd fd (add_fd fd p) = p.
Proof.
  unfold fresh_fd, close_fd, add_fd. intros Hf. destruct p as [f m n s c]; simpl in *.
  destruct (Z.eqb_spec fd (-1)); unfold with_fds; simpl; f_equal; set_solver.
Qed.

(** C37: initialisation either succeeds, and then the process holds exactly
    one more descriptor, the socket, connected to the complete path (the
    copy into [sun_path] never truncates), or it fails and leaves no
    descriptor behind; success is the conjunction of a path that fits,
    [socket] and [connect], whatever [sigaction] and [pkey_alloc] answer. *)
Theorem init_connects a p : fresh_fd (socket_answer a) p ->
  let path := default (str "/run/ephemerald.sock") (getenv_ephemerald_path a) in
  let '(g', p') := call_once_init a (globals_init, p) in
  libephmem_initialized g' = true /\ mappings p' = mappings p /\
  (if libephmem_setup_succeeded g' then
     ephemerald_sock_fd g' = socket_answer a /\ ephemerald_sock_fd g' <> -1 /\
     open_fds p' = {[socket_answer a]} ∪ open_fds p /\ connected_to p' = Some path /\
     (length path < 108)%nat /\ connect_answer a = true
   else
     ephemerald_sock_fd g' = -1 /\ p' = p /\
     ((108 <= length path)%nat \/ socket_answer a = -1 \/ connect_answer a = false)).
Proof.
  intros Hf path. unfold call_once_init, libephmem_init, globals_init.
  cbn [fst libephmem_initialized libephmfs_ephemerald_sock libephmfs_ephmfs_dir ephmem_pkey
    libephmem_setup_succeeded]. fold path. clearbody path. generalize (str "/mnt/ephmfs"). intros dir.
  unfold connect_to_ephemerald, SUN_PATH_SIZE. destruct (Nat.leb_spec 108 (length path)); cbn.
  { split_and!; auto. }
  destruct (Z.eqb_spec (socket_answer a) (-1)) as [E|E]; cbn.
  { rewrite E. unfold add_fd. cbn. split_and!; auto. }
  destruct (connect_answer a); cbn.
  - destruct (Z.eqb_spec (socket_answer a) (-1)); [done|]. cbn. unfold add_fd.
    destruct (Z.eqb_spec (socket_answer a) (-1)); [done|].
    rewrite take_ge by lia. destruct (sigaction_answer a); cbn; split_and!; auto.
  - rewrite close_add_fd by done. split_and!; auto. unfold add_fd. by destruct (_ =? _).
Qed.

Lemma init_connects_witness :
  let a := mk_init_answers None None 3 true true 1 in
  let p := mk_process {[0; 1; 2]} ∅ 0 SIG_DFL None in
  fresh_fd 3 p /\
  let '(g', p') := call_once_init a (globals_init, p) in
  libephmem_setup_succeeded g' = true /\ connected_to p' = Some (str "/run/ephemerald.sock").
Proof.
  set (a := mk_init_answers None None 3 true true 1). set (p := mk_process {[0; 1; 2]} ∅ 0 SIG_DFL None).
  assert (fresh_fd 3 p) as Hf by (unfold fresh_fd; simpl; set_solver).
  split; [exact Hf|]. pose proof (init_connects a p Hf) as Hi. simpl in Hi. simpl. split; [reflexivity|]. apply Hi.
Defined.

(** Later calls of [call_once] change nothing, whatever the kernel would
    have answered: there is one connection per process. *)
Theorem init_once a a' st : call_once_init a' (call_once_init a st) = call_once_init a st.
Proof.
  assert (libephmem_initialized (call_once_init a st).1 = true) as E.
  { unfold call_once_init. destruct (libephmem_initialized st.1) eqn:E; [done|].
    by destruct (libephmem_init a st). }
  unfold call_once_init at 1. by rewrite E.
Qed.
