(* ===== verification/EphReserve.v ===== *)
(** [libephmem_reserve] of [src/libephmem/libephmem.cpp]: the request for
    ephemeral memory, its JSON message to the daemon and the check of the
    answer, on top of the transport ([EphSocket]), the initialisation
    ([EphInit]) and the JSON library. *)
From S2P Require Import Prelude CLib Utf8 JsonValue JsonLexer JsonLexerFacts JsonParser JsonParserFacts.
From S2P Require Import JsonSerializer JsonSerializerFacts JsonGrammar JsonLexerComplete JsonParserComplete.
From S2P Require Import JsonRoundtrip EphSocket EphInit.

Definition SIZE_MAX : Z := 2 ^ 64 - 1.

(** 256 MiB *)
Definition LIBEPHMEM_RESERVATION_GRANULARITY : Z := 256 * 1024 * 1024.
Definition granularity_mask : Z := LIBEPHMEM_RESERVATION_GRANULARITY - 1.

(** [(amount + granularity_mask) & ~granularity_mask] on [size_t] *)
Definition round_up (amount : Z) : Z :=
  Z.land (wrapu 64 (amount + granularity_mask)) (wrapu 64 (Z.lnot granularity_mask)).

Definition EPHEMERALD_JSON_FUNC_KEY : bytes := str "function".
Definition EPHEMERALD_JSON_SIZE_KEY : bytes := str "size".
Definition EPHEMERALD_FUNC_REQUEST : bytes := str "eph-mem-request".
Definition EPHEMERALD_FUNC_RESPONSE : bytes := str "eph-mem-response".

Section Reserve.
Context {F : Type} `{FloatOps F}.

(** [json request = {{func_key, request}, {size_key, amount}}] *)
Definition request (amount : Z) : json F :=
  of_initializer_list
    [of_initializer_list [value_string EPHEMERALD_JSON_FUNC_KEY; value_string EPHEMERALD_FUNC_REQUEST];
     of_initializer_list [value_string EPHEMERALD_JSON_SIZE_KEY; value_number_unsigned amount]].

(** The checks of the answer. *)
Definition check_response (response : json F) (amount : Z) : Z :=
  if is_discarded response then 0
  else
    match find response EPHEMERALD_JSON_FUNC_KEY, find response EPHEMERALD_JSON_SIZE_KEY with
    | Some func, Some size =>
        match func with
        | value_string f =>
            match size with
            | value_number_unsigned n =>
                if decide (f = EPHEMERALD_FUNC_RESPONSE) then (if amount <? n then amount else n) else 0
            | _ => 0
            end
        | _ => 0
        end
    | _, _ => 0
    end.

(** The exchange with the daemon, with the mutex held.  [stack] is what the
    uninitialised [buffer] holds; the whole array is parsed. *)
Definition exchange (amount : Z) (request_str : bytes) (stack : bytes) (decimal_point : bytes) (s : socket) :
    comp (Z * socket) :=
  let* '(r, s) := libephmem_drain s in
  if r =? -1 then Ret (0, s)
  else
    let* '(r, s) := libephmem_send request_str s in
    if r =? -1 then Ret (0, s)
    else
      let* '(result, buffer, s) := libephmem_recv stack MAX_JSON_BUF s in
      if result =? -1 then Ret (0, s)
      else
        let* response := json_parse (F:=F) buffer false false decimal_point in
        Ret (check_response response amount, s).

(** After [call_once]. *)
Definition reserve (g : globals) (amount : Z) (stack : bytes) (decimal_point : bytes) (s : socket) :
    comp (Z * socket) :=
  if negb (libephmem_setup_succeeded g) then Ret (0, s)
  else if ephemerald_sock_fd g =? -1 then Ret (0, s)
  else if amount =? 0 then Ret (0, s)
  else if SIZE_MAX - granularity_mask <? amount then Ret (0, s)
  else
    let amount := round_up amount in
    let* request_str := dump (request amount) (-1) 32 false strict in
    exchange amount (request_str ++ [10]) stack decimal_point s.

Definition libephmem_reserve (a : init_answers) (st : globals * process) (amount : Z) (stack : bytes)
    (decimal_point : bytes) (s : socket) : comp (Z * (globals * process) * socket) :=
  let st := call_once_init a st in
  let* '(r, s) := reserve st.1 amount stack decimal_point s in
  Ret (r, st, s).

(** ** Rounding *)

Lemma land_high_mask x n : 0 <= n <= 64 -> 0 <= x < 2 ^ 64 ->
  Z.land x (wrapu 64 (Z.lnot (2 ^ n - 1))) = x - x mod 2 ^ n.
Proof.
  intros Hn Hx.
  assert (Z.land x (wrapu 64 (Z.lnot (2 ^ n - 1))) = Z.ldiff x (Z.ones n)) as ->.
  { apply Z.bits_inj'. intros i Hi. rewrite Z.land_spec, Z.ldiff_spec. unfold wrapu.
    destruct (Z_lt_ge_dec i 64).
    - rewrite Z.mod_pow2_bits_low by lia. rewrite Z.lnot_spec by done.
      by rewrite Z.ones_equiv, <- Z.sub_1_r.
    - rewrite Z.mod_pow2_bits_high by lia. rewrite andb_false_r.
      rewrite <- (Z.mod_small x (2 ^ 64)) by lia. by rewrite Z.mod_pow2_bits_high by lia. }
  rewrite Z.ldiff_ones_r, Z.shiftl_mul_pow2, Z.shiftr_div_pow2 by lia.
  pose proof (Z.div_mod x (2 ^ n) ltac:(lia)). lia.
Qed.

Lemma round_up_eq amount : 0 <= amount <= SIZE_MAX - granularity_mask ->
  round_up amount = (amount + granularity_mask) / LIBEPHMEM_RESERVATION_GRANULARITY
    * LIBEPHMEM_RESERVATION_GRANULARITY.
Proof.
  unfold SIZE_MAX, round_up. intros Ha.
  assert (granularity_mask = 2 ^ 28 - 1) as E by done. rewrite E in *.
  rewrite wrapu_small by lia. rewrite land_high_mask by lia.
  change LIBEPHMEM_RESERVATION_GRANULARITY with (2 ^ 28).
  pose proof (Z.div_mod (amount + (2 ^ 28 - 1)) (2 ^ 28) ltac:(lia)). lia.
Qed.

Lemma round_up_range amount : 0 <= amount <= SIZE_MAX - granularity_mask ->
  amount <= round_up amount < 2 ^ 64 /\ round_up amount < amount + LIBEPHMEM_RESERVATION_GRANULARITY.
Proof.
  intros Ha. rewrite round_up_eq by done. unfold SIZE_MAX in Ha.
  change granularity_mask with 268435455 in *. change LIBEPHMEM_RESERVATION_GRANULARITY with 268435456 in *.
  dlia.
Qed.

(** ** The request *)

Lemma request_eq amount : request amount =
  value_object [(EPHEMERALD_JSON_FUNC_KEY, value_string EPHEMERALD_FUNC_REQUEST);
                (EPHEMERALD_JSON_SIZE_KEY, value_number_unsigned amount)].
Proof. done. Qed.

(** The text of the request, as it goes over the wire. *)
Definition request_text (amount : Z) : bytes :=
  jtext "{'function':'eph-mem-request','size':" ++ to_dec amount ++ [125].

(** A string of printable ASCII characters is dumped as it is. *)
Definition plain (s : bytes) : bool :=
  forallb (fun c => in_range 0x20 0x7E c && negb (c =? 0x22) && negb (c =? 0x5C)) s.

Lemma plain_escape ensure s : plain s = true ->
  Forall is_scalar s /\ utf8_encode_all s = s /\ escape_all ensure s = s.
Proof.
  induction s as [|c s IH]; simpl; [intros _; split; [constructor|done]|]. rewrite !andb_true_iff, in_range_spec.
  intros [[[Hc H22] H5C] Hs]. destruct (IH Hs) as (H1 & H2 & H3).
  split_and!; [constructor; [left; lia|done]| |].
  - rewrite H2. by rewrite utf8_encode_ascii by lia.
  - rewrite H3. unfold escape_text. rewrite utf8_encode_ascii by lia.
    destruct (Z.leb_spec 0x7F c); [lia|]. destruct (Z.leb_spec c 0x1F); [lia|]. rewrite andb_false_r.
    simpl. by repeat (match goal with |- context [c =? ?k] => destruct (Z.eqb_spec c k); [by simplify_eq|] end).
Qed.

Lemma dump_plain handler ensure s out : plain s = true -> dump_escaped handler ensure s out = Ret (out ++ s).
Proof.
  intros Hs. destruct (plain_escape ensure s Hs) as (H1 & H2 & H3).
  pose proof (dump_escaped_valid handler ensure s out H1) as Hd. by rewrite H2, H3 in Hd.
Qed.

Lemma dump_request amount : 0 <= amount < 2 ^ 64 ->
  dump (request amount) (-1) 32 false strict = Ret (request_text amount).
Proof.
  intros Ha. rewrite request_eq. unfold dump.
  cbn [Z.leb Z.compare dump_value]. unfold dump_object_compact. cbn [compact_members].
  unfold dump_member, write_escaped. cbn [fst snd]. rewrite dump_plain by done. cbn [comp_bind dump_value].
  unfold write_escaped. rewrite dump_plain by done. cbn [comp_bind]. rewrite dump_plain by done. cbn [comp_bind].
  unfold write_integer. cbn [number_buffer write_characters serializer_init].
  destruct (dump_integer_ok amount (replicate 64 0)) as (nb & E & _); [done|lia|].
  rewrite E. cbn [comp_bind]. unfold int_text. destruct (Z.ltb_spec amount 0); [lia|]. done.
Qed.

(** ** The exchange *)

Lemma check_response_bounds response amount : wf_json response \/ response = value_discarded -> 0 <= amount ->
  0 <= check_response response amount <= amount.
Proof.
  intros Hw Ha. unfold check_response. destruct Hw as [Hw| ->]; [|simpl; lia].
  destruct (is_discarded response); [lia|].
  destruct (find response EPHEMERALD_JSON_FUNC_KEY) as [func|]; [|lia].
  destruct (find response EPHEMERALD_JSON_SIZE_KEY) as [size|] eqn:E; [|lia].
  destruct func; try lia. destruct size as [| | | | | |n| | |]; try lia.
  assert (wf_json (@value_number_unsigned F n)) as Hn.
  { destruct response; try done. simpl in E. by eapply object_find_wf. }
  inversion Hn; subst. case_decide; [|lia]. destruct (Z.ltb_spec amount n); lia.
Qed.

(** Every script: the exchange is safe, its result is at most the amount, and
    what was sent is a prefix of the request. *)
Lemma exchange_safe amount req stack dp s : 0 <= amount -> length stack = MAX_JSON_BUF ->
  Forall is_byte stack -> Forall answer_bytes (recv_answers s) ->
  match exchange amount req stack [dp] s with
  | Ret (r, s') => 0 <= r <= amount /\
      exists sent, wire s' = wire s ++ sent /\ exists rest, req = sent ++ rest
  | Throw _ => False
  | OutOfFuel => True
  end.
Proof.
  intros Ham Hst Hsb Ha. unfold exchange, libephmem_drain.
  pose proof (drain_loop_safe (S (recv_size (recv_answers s))) s ltac:(lia)) as Hd.
  destruct (drain_loop _ s) as [[r s1]| |] eqn:Ed; try done. cbn [comp_bind].
  destruct (drain_loop_bytes _ _ _ _ Ha Ed) as (Ha1 & Hw1 & _).
  assert (exists rest, req = [] ++ rest) as Hnil by eauto.
  destruct (r =? -1). { split; [lia|]. exists []. by rewrite app_nil_r. }
  unfold libephmem_send. destruct (send_loop (send_answers s1) req s1) as [[r2 s2]| |] eqn:Es; try done.
  2: { exfalso. clear -Es. revert Es. generalize (send_answers s1). intros l. revert req s1.
       induction l as [|[n|[]] l IH]; intros [|c req] s1; cbn [send_loop]; try done; apply IH. }
  cbn [comp_bind]. destruct (send_loop_spec _ _ _ _ _ Es) as (sent & Hw2 & Hr2 & _ & Hcase).
  assert (exists rest, req = sent ++ rest) as Hpre.
  { destruct Hcase as [[_ ->]|[_ ?]]; [|done]. exists []. by rewrite app_nil_r. }
  assert (wire s2 = wire s ++ sent) as Hw by congruence.
  destruct (r2 =? -1). { split; [lia|]. by exists sent. }
  unfold libephmem_recv.
  pose proof (recv_loop_safe (poll_answers s2) stack MAX_JSON_BUF 0 s2) as Hr. rewrite Hst in Hr.
  specialize (Hr ltac:(lia) ltac:(unfold MAX_JSON_BUF; lia) ltac:(apply not_elem_of_nil) ltac:(lia)).
  destruct (recv_loop _ stack _ 0 s2) as [[[r3 buf] s3]| |] eqn:Erv; try done. cbn [comp_bind].
  rewrite <- Hr2 in Ha1. destruct (recv_loop_bytes _ _ _ _ _ _ _ _ Hsb Ha1 Erv) as (Hbb & Hw3).
  destruct (r3 =? -1). { split; [lia|]. exists sent. split; [congruence|done]. }
  pose proof (json_parse_ok (F:=F) buf false false dp Hbb) as Hp.
  destruct (json_parse buf false false [dp]) as [j|e|]; [|by destruct Hp|done]. cbn [comp_bind].
  split; [|exists sent; split; [congruence|done]]. apply check_response_bounds; [|done].
  destruct Hp as [?|[_ ?]]; auto.
Qed.


(** ** Properties *)

(** C3: [libephmem_reserve] is safe and bounded for every answer of the
    kernel and of the daemon: it never throws, never leaves its receive
    buffer, returns a number between 0 and the rounded-up amount (0 when
    the amount is 0 or would overflow), and sends nothing but a prefix of
    the request. (The decimal point of the locale is a single byte [dp].)
    *)
Theorem reserve_safe a st amount stack dp s : 0 <= amount < 2 ^ 64 -> length stack = MAX_JSON_BUF ->
  Forall is_byte stack -> Forall answer_bytes (recv_answers s) ->
  match libephmem_reserve a st amount stack [dp] s with
  | Ret (r, _, s') =>
      0 <= r /\ (r <> 0 -> 0 < amount <= SIZE_MAX - granularity_mask /\ r <= round_up amount) /\
      exists sent, wire s' = wire s ++ sent /\ exists rest, request_text (round_up amount) ++ [10] = sent ++ rest
  | Throw _ => False
  | OutOfFuel => True
  end.
Proof.
  intros Ham Hst Hsb Ha. unfold libephmem_reserve, reserve. generalize (call_once_init a st). intros st'.
  assert (forall q : globals * process, match (let* '(r, s0) := Ret (0, s) in Ret (r, q, s0)) with
    | Ret (r, _, s') => 0 <= r /\ (r <> 0 -> 0 < amount <= SIZE_MAX - granularity_mask /\ r <= round_up amount) /\
      exists sent, wire s' = wire s ++ sent /\ exists rest, request_text (round_up amount) ++ [10] = sent ++ rest
    | Throw _ => False | OutOfFuel => True end) as Hout.
  { intros q. simpl. split_and!; [lia|done|]. exists []. rewrite app_nil_r. split; [done|]. by eexists. }
  destruct (negb _); [apply Hout|]. destruct (_ =? -1); [apply Hout|].
  destruct (Z.eqb_spec amount 0); [apply Hout|].
  destruct (Z.ltb_spec (SIZE_MAX - granularity_mask) amount); [apply Hout|].
  destruct (round_up_range amount ltac:(lia)) as [Hr _].
  rewrite dump_request by lia. cbn [comp_bind].
  pose proof (exchange_safe (round_up amount) (request_text (round_up amount) ++ [10]) stack dp s
    ltac:(lia) Hst Hsb Ha) as Hx.
  destruct (exchange _ _ _ _ _) as [[r s']| |]; cbn [comp_bind]; try done.
  destruct Hx as [Hr' Hs]. split_and!; [lia|intros _; lia|done].
Qed.


(** The amount asked for is the least multiple of 256 MiB that is not
    smaller than the amount, and the 64-bit arithmetic of the rounding does
    not wrap. *)
Theorem round_up_least amount : 0 <= amount <= SIZE_MAX - granularity_mask ->
  (LIBEPHMEM_RESERVATION_GRANULARITY | round_up amount) /\ amount <= round_up amount <= SIZE_MAX /\
  forall k, (LIBEPHMEM_RESERVATION_GRANULARITY | k) -> amount <= k -> round_up amount <= k.
Proof.
  intros Ha. destruct (round_up_range amount Ha) as [[H1 H2] H3]. rewrite round_up_eq in * by done.
  split; [by eexists|]. split; [unfold SIZE_MAX in *; lia|]. intros k [q ->] Hk.
  change granularity_mask with 268435455 in *. change LIBEPHMEM_RESERVATION_GRANULARITY with 268435456 in *. dlia.
Qed.
End Reserve.

(** ** Witnesses *)

#[local] Existing Instance example_floats.

Definition example_answers : init_answers := mk_init_answers None None 3 true true 1.
Definition example_start : globals * process := (globals_init, mk_process {[0; 1; 2]} ∅ 0 SIG_DFL None).
Definition example_response : bytes := jtext "{'function':'eph-mem-response','size':268435456}".

(** A stale message, a request sent in pieces and an answer in two segments. *)
Definition example_recvs : list recv_answer :=
  [Received (take 20 example_response); RecvFails EINTR; Received (drop 20 example_response ++ [10])].
Definition example_socket : socket :=
  mk_socket [Sent 10; SendFails EINTR; Sent 1000]
    [PollEvents true; PollFails EINTR; PollEvents true; PollEvents true]
    (Received (str "late") :: RecvFails EAGAIN :: example_recvs) [].

Lemma example_bytes : Forall answer_bytes (recv_answers example_socket).
Proof.
  constructor; [apply str_bytes|]. constructor; [exact I|].
  constructor; [apply Forall_take, jtext_bytes|]. constructor; [exact I|].
  constructor; [|constructor]. apply Forall_app. split; [apply Forall_drop, jtext_bytes|].
  constructor; [unfold is_byte; lia|constructor].
Qed.



Lemma reserve_safe_witness :
  match libephmem_reserve (F:=Z) example_answers example_start (2 ^ 64 - 1) (replicate 1024 170) [46] example_socket with
  | Ret (r, _, s') =>
      0 <= r /\ (r <> 0 -> 0 < 2 ^ 64 - 1 <= SIZE_MAX - granularity_mask /\ r <= round_up (2 ^ 64 - 1)) /\
      exists sent, wire s' = wire example_socket ++ sent /\
        exists rest, request_text (round_up (2 ^ 64 - 1)) ++ [10] = sent ++ rest
  | Throw _ => False
  | OutOfFuel => True
  end.
Proof.
  apply (reserve_safe (F:=Z) example_answers example_start (2 ^ 64 - 1)).
  - lia.
  - reflexivity.
  - apply Forall_replicate. unfold is_byte. lia.
  - apply example_bytes.
Defined.

Lemma round_up_least_witness :
  (LIBEPHMEM_RESERVATION_GRANULARITY | round_up 300000000) /\ 300000000 <= round_up 300000000 <= SIZE_MAX /\
  forall k, (LIBEPHMEM_RESERVATION_GRANULARITY | k) -> 300000000 <= k -> round_up 300000000 <= k.
Proof. apply (round_up_least 300000000). vm_compute. split; discriminate. Defined.
