(* ===== verification/EphHandle.v ===== *)
(** Handles to ephemeral memory ([src/libephmem/libephmem.cpp]):
    [libephmem_create_file], [libephmem_alloc], [libephmem_free] and
    [libephmem_size], with the descriptors and mappings they acquire and
    release in the process. *)
From S2P Require Import Prelude EphInit.

Record libephmem_file := mk_file { file_fd : Z; file_size : Z; file_ptr : Z }.

Record libephmem_handle := mk_handle {
  handle_ptr : Z;
  handle_size : Z;
  handle_file : option libephmem_file       (* the unique_ptr *)
}.

(** The kernel's answers to one allocation; [MAP_FAILED] is -1. *)
Record file_answers := mk_file_answers {
  open_answer : Z;
  ftruncate_answer : bool;
  mmap_answer : Z;
  pkey_mprotect_answer : bool
}.

Definition map_memory (addr len : Z) (p : process) : process :=
  if addr =? -1 then p else with_mappings p (<[addr := mk_mapping len None]> (mappings p)).
Definition unmap_memory (addr : Z) (p : process) : process :=
  with_mappings p (delete addr (mappings p)).
Definition protect_memory (addr pkey : Z) (p : process) : process :=
  with_mappings p (alter (fun m => mk_mapping (map_len m) (Some pkey)) addr (mappings p)).

Definition libephmem_create_file (g : globals) (a : file_answers) (size : Z) (p : process) :
    option libephmem_file * process :=
  let fd := open_answer a in
  let p := add_fd fd p in
  if fd =? -1 then (None, p)
  else if negb (ftruncate_answer a) then (None, close_fd fd p)
  else
    let ptr := mmap_answer a in
    let p := map_memory ptr size p in
    if ptr =? -1 then (None, close_fd fd p)
    else if libephmem_using_pkey g then
      if pkey_mprotect_answer a
      then (Some (mk_file fd size ptr), protect_memory ptr (ephmem_pkey g) p)
      else (None, close_fd fd (unmap_memory ptr p))
    else (Some (mk_file fd size ptr), p).

(** [libephmem_alloc], after [call_once]. *)
Definition alloc (g : globals) (fa : file_answers) (size : Z) (p : process) :
    option libephmem_handle * process :=
  if negb (libephmem_setup_succeeded g) then (None, p)
  else
    let p := with_handles p (S (live_handles p)) in
    let '(file, p) := libephmem_create_file g fa size p in
    match file with
    | None => (None, with_handles p (pred (live_handles p)))
    | Some f => (Some (mk_handle (file_ptr f) size (Some f)), p)
    end.

Definition libephmem_alloc (a : init_answers) (fa : file_answers) (size : Z) (st : globals * process) :
    option libephmem_handle * (globals * process) :=
  let '(g, p) := call_once_init a st in
  let '(h, p) := alloc g fa size p in
  (h, (g, p)).

Definition libephmem_free (handle : option libephmem_handle) (p : process) : process :=
  match handle with
  | None => p
  | Some h =>
      let p :=
        match handle_file h with
        | Some f => close_fd (file_fd f) (unmap_memory (file_ptr f) p)
        | None => p
        end in
      with_handles p (pred (live_handles p))
  end.

Definition libephmem_size (h : libephmem_handle) : Z := handle_size h.

(** ** Properties *)

(** The kernel hands out descriptors and addresses that are not in use. *)
Definition fresh_answers (fa : file_answers) (p : process) : Prop :=
  fresh_fd (open_answer fa) p /\ mappings p !! mmap_answer fa = None.

Lemma process_eq p q : open_fds p = open_fds q -> mappings p = mappings q -> live_handles p = live_handles q ->
  sigbus_action p = sigbus_action q -> connected_to p = connected_to q -> p = q.
Proof. destruct p, q. simpl. congruence. Qed.

Lemma add_fd_open fd p : fd <> -1 -> add_fd fd p = with_fds p ({[fd]} ∪ open_fds p).
Proof. intros. unfold add_fd. by destruct (Z.eqb_spec fd (-1)). Qed.

Lemma map_memory_ok addr len p : addr <> -1 ->
  map_memory addr len p = with_mappings p (<[addr := mk_mapping len None]> (mappings p)).
Proof. intros. unfold map_memory. by destruct (Z.eqb_spec addr (-1)). Qed.

(** What an allocation adds to the process. *)
Definition allocated (g : globals) (fa : file_answers) (size : Z) (p : process) : process :=
  mk_process ({[open_answer fa]} ∪ open_fds p)
    (<[mmap_answer fa := mk_mapping size (if libephmem_using_pkey g then Some (ephmem_pkey g) else None)]>
       (mappings p))
    (S (live_handles p)) (sigbus_action p) (connected_to p).

Lemma alloc_cases g fa size p : fresh_answers fa p ->
  alloc g fa size p = (None, p) \/
  (alloc g fa size p =
     (Some (mk_handle (mmap_answer fa) size (Some (mk_file (open_answer fa) size (mmap_answer fa)))),
      allocated g fa size p) /\ open_answer fa <> -1 /\ mmap_answer fa <> -1).
Proof.
  intros [Hfd Hm]. unfold alloc. destruct (libephmem_setup_succeeded g); [|by left]. simpl.
  set (p1 := with_handles p (S (live_handles p))).
  assert (forall q, open_fds q = open_fds p -> mappings q = mappings p -> live_handles q = S (live_handles p) ->
    sigbus_action q = sigbus_action p -> connected_to q = connected_to p ->
    with_handles q (pred (live_handles q)) = p) as Hback.
  { intros q E1 E2 E3 E4 E5. apply process_eq; simpl; try done. by rewrite E3. }
  unfold libephmem_create_file.
  destruct (Z.eqb_spec (open_answer fa) (-1)) as [E|E].
  { left. rewrite E. unfold add_fd. simpl. f_equal. by apply Hback. }
  assert (close_fd (open_answer fa) (add_fd (open_answer fa) p1) = p1) as Hclose by by apply close_add_fd.
  destruct (ftruncate_answer fa); simpl negb; cbv iota; [|left; rewrite Hclose; f_equal; by apply Hback].
  destruct (Z.eqb_spec (mmap_answer fa) (-1)) as [E'|E'].
  { left. rewrite E'. unfold map_memory. change (-1 =? -1) with true. cbv iota. rewrite Hclose.
    f_equal. by apply Hback. }
  rewrite map_memory_ok, add_fd_open by done.
  destruct (libephmem_using_pkey g) eqn:Ek; [destruct (pkey_mprotect_answer fa)|].
  - right. split_and!; try done. f_equal. unfold allocated. rewrite Ek. apply process_eq; simpl; try done.
    apply map_eq. intros i. rewrite lookup_alter. case_decide; [subst; by rewrite !lookup_insert_eq|].
    by rewrite !lookup_insert_ne.
  - left. f_equal. apply Hback; simpl; try done; [set_solver|]. by rewrite delete_insert_id.
  - right. split_and!; try done. f_equal. unfold allocated. by rewrite Ek.
Qed.

(** C38: an allocation that fails, at whichever call, leaves descriptors,
    mappings and handles as they were; one that succeeds adds exactly one
    descriptor, one mapping of the requested size tagged with the protection
    key (when there is one), and one handle over that mapping. *)
Theorem alloc_no_leak a fa size st : fresh_answers fa (call_once_init a st).2 ->
  let '(g, p) := call_once_init a st in
  let '(h, st') := libephmem_alloc a fa size st in
  st'.1 = g /\
  match h with
  | None => st'.2 = p
  | Some h =>
      handle_size h = size /\ handle_ptr h = mmap_answer fa /\
      open_fds st'.2 = {[open_answer fa]} ∪ open_fds p /\
      mappings st'.2 = <[handle_ptr h := mk_mapping size
        (if libephmem_using_pkey g then Some (ephmem_pkey g) else None)]> (mappings p) /\
      live_handles st'.2 = S (live_handles p)
  end.
Proof.
  unfold libephmem_alloc. destruct (call_once_init a st) as [g p]. simpl. intros Hf.
  destruct (alloc_cases g fa size p Hf) as [->|(-> & _)]; simpl; [done|]. by split_and!.
Qed.

Lemma alloc_no_leak_witness :
  let a := mk_init_answers None None 3 true true 1 in
  let fa := mk_file_answers 4 true 4096 true in
  let st := (globals_init, mk_process {[0; 1; 2]} ∅ 0 SIG_DFL None) in
  fresh_answers fa (call_once_init a st).2 /\
  exists h st', libephmem_alloc a fa 65536 st = (Some h, st') /\ open_fds st'.2 = {[4]} ∪ ({[3]} ∪ {[0; 1; 2]}).
Proof.
  set (a := mk_init_answers None None 3 true true 1). set (fa := mk_file_answers 4 true 4096 true).
  set (st := (globals_init, mk_process {[0; 1; 2]} ∅ 0 SIG_DFL None)).
  assert (fresh_answers fa (call_once_init a st).2) as Hf.
  { split; [unfold fresh_fd; simpl; set_solver|reflexivity]. }
  split; [exact Hf|]. pose proof (alloc_no_leak a fa 65536 st Hf) as Ha. simpl in Ha.
  eexists _, _. split; [reflexivity|]. apply Ha.
Defined.

(** [libephmem_free] releases everything [libephmem_alloc] acquired. *)
Theorem alloc_free g fa size p h p' : fresh_answers fa p ->
  alloc g fa size p = (Some h, p') -> libephmem_free (Some h) p' = p.
Proof.
  intros Hf E. destruct (alloc_cases g fa size p Hf) as [E'|(E' & H1 & H2)]; rewrite E' in E; [done|].
  injection E as <- <-. destruct Hf as [Hfd Hm]. unfold fresh_fd in Hfd. apply process_eq; simpl; try done.
  - set_solver.
  - by rewrite delete_insert_id.
Qed.

Lemma alloc_free_witness :
  let g := mk_globals true [] [] 3 1 true in
  let fa := mk_file_answers 4 true 4096 true in
  let p := mk_process {[0; 1; 2]} ∅ 0 SIG_DFL None in
  fresh_answers fa p /\ libephmem_free (alloc g fa 65536 p).1 (alloc g fa 65536 p).2 = p.
Proof.
  set (g := mk_globals true [] [] 3 1 true). set (fa := mk_file_answers 4 true 4096 true).
  set (p := mk_process {[0; 1; 2]} ∅ 0 SIG_DFL None).
  assert (fresh_answers fa p) as Hf by (split; [unfold fresh_fd; simpl; set_solver|reflexivity]).
  split; [exact Hf|]. exact (alloc_free g fa 65536 p _ _ Hf eq_refl).
Defined.
