(* ===== verification/EphAttempt.v ===== *)
(** Attempt contexts of [src/libephmem/libephmem.cpp]: the SIGBUS handler,
    [libephmem_attempt], [libephmem_put] and [libephmem_get], run against a
    thread with a protection-key register, a signal disposition and mask,
    and memory that may be revoked at any access.

    The code that runs in an attempt is a tree of memory accesses ([prog]);
    the environment is the list of what happens at each access: nothing, a
    synchronous fault (the page was revoked), or an asynchronous SIGBUS. *)
From S2P Require Import Prelude EphInit EphHandle.

(** [si_code] of a SIGBUS; [SI_USER] stands for signals sent by [kill]. *)
Inductive si_code : Set := BUS_ADRALN | BUS_ADRERR | BUS_OBJERR | BUS_MCEERR_AR | BUS_MCEERR_AO | SI_USER.

Inductive event : Set :=
  | Nothing
  | Fault (c : si_code)                     (* at the address accessed *)
  | Async (c : si_code) (si_addr : Z).

Inductive signal_number : Set := SIGBUS | SIGSEGV.

(** One thread: [cur_attempt_context], the PKRU rights for the ephemeral
    memory, SIGBUS disposition and mask, memory, and the environment. *)
Record thread := mk_thread {
  ctx_handle : option libephmem_handle;
  in_attempt : bool;
  env_mask : bool;                          (* the mask saved by sigsetjmp *)
  pkey_access : bool;
  sigbus : sigaction_t;
  sigbus_blocked : bool;
  memory : gmap Z Z;                        (* ephemeral memory *)
  local : gmap Z Z;                         (* main memory *)
  events : list event;
  pkey_answers : list bool                  (* success of each pkey_set *)
}.

Definition with_context (t : thread) (h : option libephmem_handle) (b : bool) : thread :=
  mk_thread h b (env_mask t) (pkey_access t) (sigbus t) (sigbus_blocked t) (memory t) (local t)
    (events t) (pkey_answers t).
Definition with_env (t : thread) (m : bool) : thread :=
  mk_thread (ctx_handle t) (in_attempt t) m (pkey_access t) (sigbus t) (sigbus_blocked t) (memory t) (local t)
    (events t) (pkey_answers t).
Definition with_pkey (t : thread) (b : bool) (a : list bool) : thread :=
  mk_thread (ctx_handle t) (in_attempt t) (env_mask t) b (sigbus t) (sigbus_blocked t) (memory t) (local t)
    (events t) a.
Definition with_sigbus (t : thread) (a : sigaction_t) (blocked : bool) : thread :=
  mk_thread (ctx_handle t) (in_attempt t) (env_mask t) (pkey_access t) a blocked (memory t) (local t)
    (events t) (pkey_answers t).
Definition with_memory (t : thread) (m : gmap Z Z) : thread :=
  mk_thread (ctx_handle t) (in_attempt t) (env_mask t) (pkey_access t) (sigbus t) (sigbus_blocked t) m (local t)
    (events t) (pkey_answers t).
Definition with_local (t : thread) (m : gmap Z Z) : thread :=
  mk_thread (ctx_handle t) (in_attempt t) (env_mask t) (pkey_access t) (sigbus t) (sigbus_blocked t) (memory t) m
    (events t) (pkey_answers t).
Definition with_events (t : thread) (e : list event) : thread :=
  mk_thread (ctx_handle t) (in_attempt t) (env_mask t) (pkey_access t) (sigbus t) (sigbus_blocked t) (memory t)
    (local t) e (pkey_answers t).

(** How running ends: normally, with [siglongjmp] to the saved environment,
    or with the death of the process. *)
Inductive outcome : Type :=
  | Finished (t : thread)
  | Jumped (t : thread)
  | Killed (sig : signal_number).

(** ** The signal handler *)

Definition addr_in_range (addr : Z) (h : libephmem_handle) : bool :=
  (handle_ptr h <=? addr) && (addr <? wrapu 64 (handle_ptr h + handle_size h)).

Definition sync_sigbus (c : si_code) : bool :=
  match c with BUS_MCEERR_AR | BUS_ADRERR | BUS_OBJERR => true | _ => false end.

(** [true]: [siglongjmp], which restores the mask; [false]: the handler
    returned, having reset the disposition. *)
Definition libephmem_sig_handler (c : si_code) (si_addr : Z) (t : thread) : bool * thread :=
  match ctx_handle t with
  | Some h =>
      if in_attempt t && sync_sigbus c && addr_in_range si_addr h
      then (true, with_sigbus t (sigbus t) (env_mask t))
      else (false, with_sigbus t SIG_DFL (sigbus_blocked t))
  | None => (false, with_sigbus t SIG_DFL (sigbus_blocked t))
  end.

(** The kernel runs the handler with SIGBUS blocked ([sa_flags] has no
    [SA_NODEFER]) and unblocks it when the handler returns. *)
Definition handle_sigbus (c : si_code) (si_addr : Z) (t : thread) : bool * thread :=
  let '(jump, t) := libephmem_sig_handler c si_addr (with_sigbus t (sigbus t) true) in
  if jump then (true, t) else (false, with_sigbus t (sigbus t) false).

(** Delivery at an access to [x], then the rest [k].  A synchronous fault
    that is not caught is raised again when the handler returns, now with
    the default action. *)
Definition deliver (e : event) (x : Z) (t : thread) (k : thread -> outcome) : outcome :=
  match e with
  | Nothing => k t
  | Fault c =>
      if sigbus_blocked t then Killed SIGBUS
      else
        match sigbus t with
        | SIG_DFL => Killed SIGBUS
        | libephmem_sig_handler_installed =>
            let '(jump, t) := handle_sigbus c x t in
            if jump then Jumped t else Killed SIGBUS
        end
  | Async c a =>
      if sigbus_blocked t then k t
      else
        match sigbus t with
        | SIG_DFL => Killed SIGBUS
        | libephmem_sig_handler_installed =>
            let '(jump, t) := handle_sigbus c a t in
            if jump then Jumped t else k t
        end
  end.

Section Run.
Variable using_pkeys : bool.

(** An access to ephemeral memory. *)
Definition access (x : Z) (t : thread) (k : thread -> outcome) : outcome :=
  if using_pkeys && negb (pkey_access t) then Killed SIGSEGV
  else
    match events t with
    | [] => k t
    | e :: es => deliver e x (with_events t es) k
    end.

(** [pkey_set(ephmem_pkey, rights)] *)
Definition pkey_set (allow : bool) (t : thread) : bool * thread :=
  match pkey_answers t with
  | false :: a => (false, with_pkey t (pkey_access t) a)
  | true :: a => (true, with_pkey t allow a)
  | [] => (true, with_pkey t allow [])
  end.

Definition pkey_set_if (allow : bool) (t : thread) : bool * thread :=
  if using_pkeys then pkey_set allow t else (true, t).

(** [libephmem_attempt]; [fn] runs the function, [k] what the caller does
    with the result. *)
Definition libephmem_attempt (handle : option libephmem_handle) (fn : option (Z -> Z -> thread -> outcome))
    (t : thread) (k : Z -> thread -> outcome) : outcome :=
  match handle, fn with
  | Some h, Some fn =>
      if in_attempt t then k (-1) t
      else
        let '(ok, t) := pkey_set_if true t in
        if negb ok then k (-1) t
        else
          let t := with_env t (sigbus_blocked t) in        (* sigsetjmp(env, 1) *)
          let finish r t :=
            let t := with_context t (ctx_handle t) false in
            let '(ok, t) := pkey_set_if false t in
            if negb ok then k (-1) t else k r t in
          match fn (handle_ptr h) (handle_size h) (with_context t (Some h) true) with
          | Finished t => finish 0 t
          | Jumped t => finish 1 t
          | Killed s => Killed s
          end
  | _, _ => k (-1) t
  end.

(** ** Programs *)

Inductive prog : Type :=
  | Done
  | Store (x b : Z) (p : prog)
  | Load (x : Z) (p : Z -> prog)
  | Local (x b : Z) (p : prog)              (* a store to main memory *)
  | Attempt (h : option libephmem_handle) (fn : option (Z -> Z -> prog)) (p : Z -> prog).

Definition read (m : gmap Z Z) (x : Z) : Z := default 0 (m !! x).

Fixpoint run (p : prog) (t : thread) {struct p} : outcome :=
  match p with
  | Done => Finished t
  | Store x b p => access x t (fun t => run p (with_memory t (<[x := b]> (memory t))))
  | Load x p => access x t (fun t => run (p (read (memory t) x)) t)
  | Local x b p => run p (with_local t (<[x := b]> (local t)))
  | Attempt h fn p =>
      libephmem_attempt h
        (match fn with
         | Some f => Some (fun ptr size t => run (f ptr size) t)
         | None => None
         end) t (fun r t => run (p r) t)
  end.

(** ** Copies *)

(** [memcpy] into ephemeral memory, byte by byte. *)
Fixpoint memcpy_in (x : Z) (src : bytes) (p : prog) : prog :=
  match src with
  | [] => p
  | b :: src => Store x b (memcpy_in (x + 1) src p)
  end.

(** [memcpy] out of ephemeral memory to the main memory at [dst]. *)
Fixpoint memcpy_out (x dst : Z) (len : nat) (p : prog) : prog :=
  match len with
  | O => p
  | S len => Load x (fun b => Local dst b (memcpy_out (x + 1) (dst + 1) len p))
  end.

(** [libephmem_put] of the bytes [src]; a null handle is dereferenced. *)
Definition libephmem_put (src : bytes) (dst : option libephmem_handle) (offset : Z) (p : Z -> prog) :
    option prog :=
  match dst with
  | None => None
  | Some h =>
      let len := Z.of_nat (length src) in
      if (handle_size h <? offset) || (handle_size h - offset <? len) then Some (p (-1))
      else Some (Attempt dst (Some (fun dst_ptr _ => memcpy_in (dst_ptr + offset) src Done)) p)
  end.

Definition libephmem_get (src : option libephmem_handle) (dst : Z) (offset : Z) (len : nat) (p : Z -> prog) :
    option prog :=
  match src with
  | None => None
  | Some h =>
      if (handle_size h <? offset) || (handle_size h - offset <? Z.of_nat len) then Some (p (-1))
      else Some (Attempt src (Some (fun src_ptr _ => memcpy_out (src_ptr + offset) dst len Done)) p)
  end.

(** A call through a pointer that may be null. *)
Definition call (p : option prog) (t : thread) : outcome :=
  match p with Some p => run p t | None => Killed SIGSEGV end.

(** ** Attempts contain revocation *)

(** The environment of the theorems: every fault is a revocation, which the
    kernel reports as a nonexistent address, an object error or a memory
    error, no other SIGBUS arrives, and [pkey_set] succeeds. *)
Definition revocation (e : event) : Prop :=
  match e with
  | Nothing => True
  | Fault c => c = BUS_ADRERR \/ c = BUS_OBJERR \/ c = BUS_MCEERR_AR
  | Async _ _ => False
  end.

(** The addresses of the allocation, which does not wrap around. *)
Definition wf_handle (h : libephmem_handle) : Prop :=
  0 <= handle_ptr h /\ 0 <= handle_size h /\ handle_ptr h + handle_size h < 2 ^ 64.
Definition in_alloc (h : libephmem_handle) (x : Z) : Prop :=
  handle_ptr h <= x < handle_ptr h + handle_size h.

Lemma in_handle h x : wf_handle h -> in_alloc h x -> addr_in_range x h = true.
Proof.
  intros (H1 & H2 & H3) Hx. unfold addr_in_range, in_alloc in *. rewrite wrapu_small by lia.
  apply andb_true_iff. split; [apply Z.leb_le|apply Z.ltb_lt]; lia.
Qed.

Definition armed (t : thread) : Prop :=
  sigbus t = libephmem_sig_handler_installed /\ sigbus_blocked t = false /\
  Forall revocation (events t) /\ Forall (eq true) (pkey_answers t).

(** Outside of attempts, and in the attempt context of [h]. *)
Definition idle (t : thread) : Prop :=
  armed t /\ in_attempt t = false /\ (using_pkeys = true -> pkey_access t = false).
Definition inside (h : libephmem_handle) (t : thread) : Prop :=
  armed t /\ in_attempt t = true /\ (using_pkeys = true -> pkey_access t = true) /\
  ctx_handle t = Some h /\ env_mask t = false.

(** From [t] to [t'] the environment did nothing, or revoked memory last. *)
Definition consumed (revoked : bool) (t t' : thread) : Prop :=
  exists pre, Forall (eq Nothing) pre /\
    if revoked then exists c, events t = pre ++ Fault c :: events t' else events t = pre ++ events t'.

Ltac thread_solve :=
  unfold idle, inside, armed in *; simpl in *; destruct_and?; split_and?; try done; try congruence.

Lemma consumed_refl t : consumed false t t.
Proof. exists []. split; [constructor|done]. Qed.

Lemma consumed_trans b t t1 t2 : consumed false t t1 -> consumed b t1 t2 -> consumed b t t2.
Proof.
  intros (pre & Hpre & E) (pre' & Hpre' & E'). exists (pre ++ pre'). split; [by apply Forall_app|].
  destruct b; [destruct E' as [c E']; exists c|]; rewrite E, E', <- app_assoc; done.
Qed.

Lemma access_inside h x t k : inside h t -> addr_in_range x h = true ->
  (exists t1, access x t k = k t1 /\ inside h t1 /\ consumed false t t1 /\
     memory t1 = memory t /\ local t1 = local t) \/
  (exists t1, access x t k = Jumped t1 /\ inside h t1 /\ consumed true t t1 /\
     memory t1 = memory t /\ local t1 = local t).
Proof.
  intros Hin Hx. unfold access.
  replace (using_pkeys && negb (pkey_access t)) with false
    by (destruct Hin as (_ & _ & Hk & _); destruct using_pkeys; [by rewrite Hk|done]).
  destruct (events t) as [|e es] eqn:Ee.
  { left. exists t. split_and!; auto using consumed_refl. }
  assert (Forall revocation es /\ revocation e) as [Hes He]
    by (destruct Hin as ((_ & _ & H & _) & _); rewrite Ee in H; by inversion H).
  destruct e as [|c|]; simpl in He; [left|right|done].
  - eexists. split; [reflexivity|]. split_and!; try done; [by thread_solve|].
    exists [Nothing]. split; [by repeat constructor|]. by rewrite Ee.
  - assert (sync_sigbus c = true) as Hsync by (destruct He as [->|[->| ->]]; done).
    assert (Hin' := Hin). destruct Hin' as ((Ha & Hb & _ & Hp) & Hat & Hk & Hc & Hm).
    unfold deliver, handle_sigbus, libephmem_sig_handler. simpl. rewrite Hb, Ha, Hc, Hat, Hsync, Hx. simpl.
    eexists. split; [reflexivity|]. split_and!; try done.
    exists []. split; [constructor|]. exists c. by rewrite Ee.
Qed.

(** A body that accesses only the memory of the handle it runs on; attempts
    nested in it are refused. *)
Fixpoint stays_in (h : libephmem_handle) (p : prog) : Prop :=
  match p with
  | Done => True
  | Store x _ p => in_alloc h x /\ stays_in h p
  | Load x p => in_alloc h x /\ forall b, stays_in h (p b)
  | Local _ _ p => stays_in h p
  | Attempt _ _ p => stays_in h (p (-1))
  end.

(** The end of a body: it finished undisturbed or was cut off by a
    revocation, and memory out of the range of the handle is as before. *)
Definition body_end (h : libephmem_handle) (t : thread) (o : outcome) : Prop :=
  exists revoked t', o = (if revoked : bool then Jumped t' else Finished t') /\ inside h t' /\
    consumed revoked t t' /\ (forall x, ~ in_alloc h x -> memory t' !! x = memory t !! x).

Lemma body_end_step h t t1 o : consumed false t t1 ->
  (forall x, ~ in_alloc h x -> memory t1 !! x = memory t !! x) ->
  body_end h t1 o -> body_end h t o.
Proof.
  intros Hc Hm (r & t' & Ho & Hi & Hc' & Hm'). exists r, t'. split_and!; try done.
  - by eapply consumed_trans.
  - intros. by rewrite Hm', Hm.
Qed.

Lemma attempt_nested h fn t k : in_attempt t = true -> libephmem_attempt h fn t k = k (-1) t.
Proof. intros H. unfold libephmem_attempt. destruct h, fn; by rewrite ?H. Qed.

Lemma run_inside h p : wf_handle h -> forall t, stays_in h p -> inside h t -> body_end h t (run p t).
Proof.
  intros Hw. induction p as [|x b p IH|x p IH|x b p IH|h' fn p IH]; intros t Hs Hin; simpl in Hs |- *.
  - exists false, t. split_and!; auto using consumed_refl.
  - destruct Hs as [Hx Hs].
    destruct (access_inside h x t (fun t => run p (with_memory t (<[x:=b]> (memory t)))) Hin (in_handle _ _ Hw Hx))
      as [(t1 & -> & Hi & Hc & Hm & _)|(t1 & -> & Hi & Hc & Hm & _)].
    + eapply (body_end_step h t); [|..|apply (IH _ Hs)]; try done.
      intros y Hy. simpl. rewrite lookup_insert_ne by congruence. by rewrite Hm.
    + exists true, t1. split_and!; try done. intros. by rewrite Hm.
  - destruct Hs as [Hx Hs].
    destruct (access_inside h x t (fun t => run (p (read (memory t) x)) t) Hin
      (in_handle _ _ Hw Hx))
      as [(t1 & -> & Hi & Hc & Hm & _)|(t1 & -> & Hi & Hc & Hm & _)].
    + eapply (body_end_step h t); [done| |by apply IH]. intros. by rewrite Hm.
    + exists true, t1. split_and!; try done. intros. by rewrite Hm.
  - by apply (IH (with_local t (<[x:=b]> (local t)))).
  - rewrite attempt_nested by apply Hin. by apply IH.
Qed.

(** The thread when the body starts and when the attempt returns. *)
Definition enter (h : libephmem_handle) (t : thread) : thread :=
  let t := (pkey_set_if true t).2 in with_context (with_env t (sigbus_blocked t)) (Some h) true.
Definition leave (t : thread) : thread := (pkey_set_if false (with_context t (ctx_handle t) false)).2.

Lemma pkey_set_if_ok b t : Forall (eq true) (pkey_answers t) ->
  pkey_set_if b t = (true, if using_pkeys then with_pkey t b (tail (pkey_answers t)) else t).
Proof.
  intros H. unfold pkey_set_if, pkey_set. destruct using_pkeys; [|done].
  destruct H as [|x a <- Ha]; [|done]. by destruct t.
Qed.

Lemma enter_inside h t : idle t ->
  inside h (enter h t) /\ events (enter h t) = events t /\ memory (enter h t) = memory t /\
  local (enter h t) = local t.
Proof.
  intros ((Ha & Hb & He & Hp) & Hi & Hk). unfold enter. rewrite pkey_set_if_ok by done.
  unfold idle, inside, armed. destruct using_pkeys; simpl; split_and!; try done; by destruct Hp.
Qed.

Lemma leave_idle h t : inside h t ->
  idle (leave t) /\ events (leave t) = events t /\ memory (leave t) = memory t /\ local (leave t) = local t.
Proof.
  intros ((Ha & Hb & He & Hp) & Hi & Hk & Hc & Hm). unfold leave. rewrite pkey_set_if_ok by done.
  unfold idle, inside, armed. destruct using_pkeys; simpl; split_and!; try done; by destruct Hp.
Qed.

Lemma attempt_unfold h fn t k : idle t ->
  (forall s, fn (handle_ptr h) (handle_size h) (enter h t) <> Killed s) ->
  (forall t', fn (handle_ptr h) (handle_size h) (enter h t) = Finished t' \/
              fn (handle_ptr h) (handle_size h) (enter h t) = Jumped t' -> inside h t') ->
  libephmem_attempt (Some h) (Some fn) t k =
    match fn (handle_ptr h) (handle_size h) (enter h t) with
    | Finished t' => k 0 (leave t')
    | Jumped t' => k 1 (leave t')
    | Killed s => Killed s
    end.
Proof.
  intros Hi Hk Hin. unfold libephmem_attempt. destruct Hi as ((Ha & Hb & He & Hp) & -> & Hpk).
  unfold enter in *. rewrite pkey_set_if_ok in * by done. cbv iota beta. cbn [negb snd] in *.
  destruct (fn _ _ _) as [t'|t'|s] eqn:E; [..|done];
    (specialize (Hin t' ltac:(auto)); destruct Hin as ((_ & _ & _ & Hp') & _));
    unfold leave; rewrite pkey_set_if_ok by done; done.
Qed.

(** What an attempt does, for a body that ends well. *)
Lemma attempt_spec h fn t k : idle t ->
  body_end h (enter h t) (fn (handle_ptr h) (handle_size h) (enter h t)) ->
  exists (revoked : bool) t1, fn (handle_ptr h) (handle_size h) (enter h t) =
      (if revoked then Jumped t1 else Finished t1) /\
    inside h t1 /\ consumed revoked t (leave t1) /\ idle (leave t1) /\
    (forall x, ~ in_alloc h x -> memory (leave t1) !! x = memory t !! x) /\
    libephmem_attempt (Some h) (Some fn) t k = k (if revoked then 1 else 0) (leave t1).
Proof.
  intros Hi (r & t1 & E & Hin & Hc & Hm). exists r, t1.
  destruct (enter_inside h t Hi) as (_ & He1 & He2 & _). destruct (leave_idle h t1 Hin) as (Hl & Hl1 & Hl2 & _).
  split_and!; try done.
  - unfold consumed in *. by rewrite Hl1, <- He1.
  - intros. by rewrite Hl2, Hm, He2.
  - rewrite attempt_unfold, E; [by destruct r|done|..]; intros; rewrite E in *; destruct r; naive_solver.
Qed.


(** A program that touches ephemeral memory in attempts only. *)
Fixpoint disciplined (p : prog) : Prop :=
  match p with
  | Done => True
  | Store _ _ _ | Load _ _ => False
  | Local _ _ p => disciplined p
  | Attempt (Some h) (Some fn) p =>
      wf_handle h /\ stays_in h (fn (handle_ptr h) (handle_size h)) /\ forall r, disciplined (p r)
  | Attempt _ _ p => disciplined (p (-1))
  end.

Lemma disciplined_run p : forall t, disciplined p -> idle t ->
  exists t', run p t = Finished t' /\ idle t'.
Proof.
  induction p as [|x b p IH|x p IH|x b p IH|h fn p IH]; intros t Hd Hi; cbn [disciplined] in Hd; try done.
  - by exists t.
  - by apply (IH (with_local t (<[x:=b]> (local t)))).
  - destruct h as [h|], fn as [fn|]; [|by apply (IH (-1))..]. destruct Hd as (Hw & Hs & Hd).
    destruct (enter_inside h t Hi) as (Hin & _).
    destruct (attempt_spec h (fun ptr size => run (fn ptr size)) t (fun r t => run (p r) t) Hi)
      as (r & t1 & _ & _ & _ & Hl & _ & E); [by apply run_inside|].
    destruct (IH _ (leave t1) (Hd (if r then 1 else 0)) Hl) as (t' & E' & Hi'). exists t'. split; [|done].
    rewrite <- E'. exact E.
Qed.


(** ** Put and get *)

Fixpoint write_range (m : gmap Z Z) (x : Z) (bs : bytes) : gmap Z Z :=
  match bs with
  | [] => m
  | b :: bs => write_range (<[x := b]> m) (x + 1) bs
  end.

Fixpoint read_range (m : gmap Z Z) (x : Z) (len : nat) : bytes :=
  match len with
  | O => []
  | S len => read m x :: read_range m (x + 1) len
  end.

Lemma write_range_before bs : forall m x y, y < x -> write_range m x bs !! y = m !! y.
Proof.
  induction bs as [|b bs IH]; intros m x y Hy; [done|]. simpl. rewrite IH by lia. by rewrite lookup_insert_ne by lia.
Qed.

Lemma read_write_range bs : forall m x, read_range (write_range m x bs) x (length bs) = bs.
Proof.
  induction bs as [|b bs IH]; intros m x; [done|]. simpl. rewrite IH. f_equal. unfold read.
  rewrite write_range_before by lia. by rewrite lookup_insert_eq.
Qed.

(** [n] bytes were copied, all of them unless the copy was cut off. *)
Definition copied (revoked : bool) (n len : nat) : Prop := if revoked then (n < len)%nat else n = len.

Lemma memcpy_in_spec h src : forall x t, inside h t ->
  (forall i, 0 <= i < Z.of_nat (length src) -> addr_in_range (x + i) h = true) ->
  exists (revoked : bool) n t', run (memcpy_in x src Done) t = (if revoked then Jumped t' else Finished t') /\
    inside h t' /\ consumed revoked t t' /\ local t' = local t /\
    memory t' = write_range (memory t) x (take n src) /\ copied revoked n (length src).
Proof.
  induction src as [|b src IH]; intros x t Hin Hx; cbn [memcpy_in run].
  { exists false, 0%nat, t. split_and!; auto using consumed_refl. done. }
  assert (addr_in_range x h = true) as H0 by (rewrite <- (Z.add_0_r x); apply Hx; cbn; lia).
  destruct (access_inside h x t (fun t => run (memcpy_in (x + 1) src Done) (with_memory t (<[x:=b]> (memory t)))) Hin H0)
    as [(t1 & -> & Hi & Hc & Hm & Hl)|(t1 & -> & Hi & Hc & Hm & Hl)].
  - destruct (IH (x + 1) (with_memory t1 (<[x:=b]> (memory t1)))) as (r & n & t' & E & Hi' & Hc' & Hl' & Hm' & Hn).
    { done. }
    { intros i Hi'. rewrite <- Z.add_assoc. apply Hx. cbn. lia. }
    exists r, (S n), t'. split_and!; try done.
    + by eapply consumed_trans.
    + by rewrite Hl', <- Hl.
    + rewrite Hm'. cbn. by rewrite Hm.
    + unfold copied in *. destruct r; cbn; lia.
  - exists true, 0%nat, t1. split_and!; try done. cbn. lia.
Qed.

Lemma memcpy_out_spec h len : forall x dst t, inside h t ->
  (forall i, 0 <= i < Z.of_nat len -> addr_in_range (x + i) h = true) ->
  exists (revoked : bool) n t', run (memcpy_out x dst len Done) t = (if revoked then Jumped t' else Finished t') /\
    inside h t' /\ consumed revoked t t' /\ memory t' = memory t /\
    local t' = write_range (local t) dst (take n (read_range (memory t) x len)) /\ copied revoked n len.
Proof.
  induction len as [|len IH]; intros x dst t Hin Hx; cbn [memcpy_out run].
  { exists false, 0%nat, t. split_and!; auto using consumed_refl. done. }
  assert (addr_in_range x h = true) as H0 by (rewrite <- (Z.add_0_r x); apply Hx; lia).
  destruct (access_inside h x t (fun t => run (memcpy_out (x + 1) (dst + 1) len Done)
      (with_local t (<[dst:=read (memory t) x]> (local t)))) Hin H0)
    as [(t1 & -> & Hi & Hc & Hm & Hl)|(t1 & -> & Hi & Hc & Hm & Hl)].
  - destruct (IH (x + 1) (dst + 1) (with_local t1 (<[dst:=read (memory t1) x]> (local t1))))
      as (r & n & t' & E & Hi' & Hc' & Hm' & Hl' & Hn).
    { done. }
    { intros i Hi'. rewrite <- Z.add_assoc. apply Hx. lia. }
    exists r, (S n), t'. split_and!; try done.
    + by eapply consumed_trans.
    + rewrite Hm'. done.
    + rewrite Hl'. cbn. by rewrite Hm, Hl.
    + unfold copied in *. destruct r; lia.
  - exists true, 0%nat, t1. split_and!; try done. cbn. lia.
Qed.

(** The result code of an attempt, and a range that fits in a handle. *)
Definition code (revoked : bool) : Z := if revoked then 1 else 0.
Definition fits (h : libephmem_handle) (offset len : Z) : Prop := 0 <= offset /\ offset + len <= handle_size h.

Lemma fits_in_range h offset len : wf_handle h -> fits h offset len ->
  forall i, 0 <= i < len -> addr_in_range (handle_ptr h + offset + i) h = true.
Proof. intros Hw [H1 H2] i Hi. apply in_handle; [done|]. unfold in_alloc. lia. Qed.

Lemma fits_guard h offset len : 0 <= len -> fits h offset len ->
  (handle_size h <? offset) || (handle_size h - offset <? len) = false.
Proof. intros Hl [H1 H2]. zcases; simpl; lia || done. Qed.

Lemma range_frame h offset bs m x : fits h offset (Z.of_nat (length bs)) ->
  ~ in_alloc h x -> write_range m (handle_ptr h + offset) bs !! x = m !! x.
Proof.
  intros [H1 H2] Hx. unfold in_alloc in Hx.
  assert (forall bs m y, (x < y \/ y + Z.of_nat (length bs) <= x) -> write_range m y bs !! x = m !! x) as Hg.
  { clear. induction bs as [|b bs IH]; intros m y Hy; [done|]. simpl in *. rewrite IH by lia.
    by rewrite lookup_insert_ne by lia. }
  apply Hg. lia.
Qed.

Lemma put_run src h offset p t : idle t -> wf_handle h -> fits h offset (Z.of_nat (length src)) ->
  exists revoked n t', call (libephmem_put src (Some h) offset p) t = run (p (code revoked)) t' /\
    idle t' /\ consumed revoked t t' /\ local t' = local t /\
    memory t' = write_range (memory t) (handle_ptr h + offset) (take n src) /\ copied revoked n (length src).
Proof.
  intros Hi Hw Hf. unfold libephmem_put. rewrite fits_guard by (lia || done). cbn [call].
  destruct (enter_inside h t Hi) as (Hin & He & Hme & Hle).
  destruct (memcpy_in_spec h src (handle_ptr h + offset) (enter h t) Hin) as (r & n & t1 & E & Hin1 & Hc & Hl & Hm & Hn).
  { by apply fits_in_range. }
  destruct (attempt_spec h (fun ptr _ => run (memcpy_in (ptr + offset) src Done)) t (fun r t => run (p r) t) Hi)
    as (r' & t1' & E1 & _ & Hc' & Hi' & Hfr & E2).
  { exists r, t1. split_and!; try done. intros x Hx. rewrite Hm. apply range_frame; [|done].
    destruct Hf. rewrite length_take. split; lia. }
  rewrite E in E1. assert (r' = r /\ t1' = t1) as [-> ->] by (destruct r, r'; naive_solver).
  destruct (leave_idle h t1 Hin1) as (_ & _ & Hm' & Hl').
  exists r, n, (leave t1). split_and!; try done; [by rewrite Hl', Hl|by rewrite Hm', Hm, Hme].
Qed.

Lemma get_run h dst offset len p t : idle t -> wf_handle h -> fits h offset (Z.of_nat len) ->
  exists revoked n t', call (libephmem_get (Some h) dst offset len p) t = run (p (code revoked)) t' /\
    idle t' /\ consumed revoked t t' /\ memory t' = memory t /\
    local t' = write_range (local t) dst (take n (read_range (memory t) (handle_ptr h + offset) len)) /\
    copied revoked n len.
Proof.
  intros Hi Hw Hf. unfold libephmem_get. rewrite fits_guard by (lia || done). cbn [call].
  destruct (enter_inside h t Hi) as (Hin & He & Hme & Hle).
  destruct (memcpy_out_spec h len (handle_ptr h + offset) dst (enter h t) Hin) as (r & n & t1 & E & Hin1 & Hc & Hm & Hl & Hn).
  { by apply fits_in_range. }
  destruct (attempt_spec h (fun ptr _ => run (memcpy_out (ptr + offset) dst len Done)) t (fun r t => run (p r) t) Hi)
    as (r' & t1' & E1 & _ & Hc' & Hi' & Hfr & E2).
  { exists r, t1. split_and!; try done. intros x Hx. by rewrite Hm. }
  rewrite E in E1. assert (r' = r /\ t1' = t1) as [-> ->] by (destruct r, r'; naive_solver).
  destruct (leave_idle h t1 Hin1) as (_ & _ & Hm' & Hl').
  exists r, n, (leave t1). split_and!; try done; [by rewrite Hm', Hm|by rewrite Hl', Hl, Hle, Hme].
Qed.

(** [libephmem_put] refuses with -1, before touching anything, exactly
    the requests that do not fit in the allocation.  A request that fits
    returns 0 with all bytes of the source written at the offset, or 1 with a
    proper prefix of them written; nothing else changes. *)
Theorem put_spec src h offset p t : idle t -> wf_handle h -> 0 <= offset ->
  if handle_size h <? offset + Z.of_nat (length src) then
    call (libephmem_put src (Some h) offset p) t = run (p (-1)) t
  else
    exists revoked n t', call (libephmem_put src (Some h) offset p) t = run (p (code revoked)) t' /\
      idle t' /\ consumed revoked t t' /\ local t' = local t /\
      memory t' = write_range (memory t) (handle_ptr h + offset) (take n src) /\ copied revoked n (length src).
Proof.
  intros Hi Hw Ho. destruct (Z.ltb_spec (handle_size h) (offset + Z.of_nat (length src))).
  - unfold libephmem_put. zcases; simpl; (done || lia).
  - apply put_run; [done..|]. split; lia.
Qed.

(** [libephmem_get] with the same bounds; the bytes delivered to main
    memory are a prefix of the ones in the allocation, all of them when it
    returns 0, and ephemeral memory does not change. *)
Theorem get_spec h dst offset len p t : idle t -> wf_handle h -> 0 <= offset ->
  if handle_size h <? offset + Z.of_nat len then
    call (libephmem_get (Some h) dst offset len p) t = run (p (-1)) t
  else
    exists revoked n t', call (libephmem_get (Some h) dst offset len p) t = run (p (code revoked)) t' /\
      idle t' /\ consumed revoked t t' /\ memory t' = memory t /\
      local t' = write_range (local t) dst (take n (read_range (memory t) (handle_ptr h + offset) len)) /\
      copied revoked n len.
Proof.
  intros Hi Hw Ho. destruct (Z.ltb_spec (handle_size h) (offset + Z.of_nat len)).
  - unfold libephmem_get. zcases; simpl; (done || lia).
  - apply get_run; [done..|]. split; lia.
Qed.

(** [put] followed by [get] of the same range. *)
Definition put_get (src : bytes) (h : libephmem_handle) (offset dst : Z) (q : Z -> Z -> prog) : prog :=
  default Done (libephmem_put src (Some h) offset (fun r1 =>
    default Done (libephmem_get (Some h) dst offset (length src) (fun r2 => q r1 r2)))).

Lemma call_default p t : is_Some p -> run (default Done p) t = call p t.
Proof. by destruct 1 as [? ->]. Qed.

(** When both return 0, [get] delivers to main memory the bytes [put]
    stored, whatever is revoked in between or later. *)
Theorem put_get_roundtrip src h offset dst q t : idle t -> wf_handle h ->
  fits h offset (Z.of_nat (length src)) ->
  exists rv1 rv2 t', run (put_get src h offset dst q) t = run (q (code rv1) (code rv2)) t' /\ idle t' /\
    (rv1 = false -> rv2 = false -> read_range (local t') dst (length src) = src).
Proof.
  intros Hi Hw Hf. unfold put_get. set (k := fun r1 => default Done _).
  rewrite call_default by (unfold libephmem_put; case_match; eauto).
  destruct (put_run src h offset k t Hi Hw Hf) as (r1 & n1 & t1 & -> & Hi1 & _ & _ & Hm1 & Hn1). unfold k.
  rewrite call_default by (unfold libephmem_get; case_match; eauto).
  destruct (get_run h dst offset (length src) (fun r2 => q (code r1) r2) t1 Hi1 Hw Hf)
    as (r2 & n2 & t2 & -> & Hi2 & _ & _ & Hl2 & Hn2).
  exists r1, r2, t2. split_and!; try done. intros -> ->. unfold copied in Hn1, Hn2. subst n1 n2.
  rewrite Hl2, Hm1, firstn_all, read_write_range, firstn_all. apply read_write_range.
Qed.

(** ** Outside of attempts *)

(** With protection keys, access to ephemeral memory is withdrawn again
    after every attempt, finished or cut off: at the end of any program that
    accesses it in attempts only, a stray access kills the process instead of
    reaching memory that may be gone. *)
Theorem access_withdrawn p t : using_pkeys = true -> disciplined p -> idle t ->
  exists t', run p t = Finished t' /\ forall x k, access x t' k = Killed SIGSEGV.
Proof.
  intros Hu Hd Hi. destruct (disciplined_run p t Hd Hi) as (t' & E & _ & _ & Hk). exists t'. split; [done|].
  intros x k. unfold access. by rewrite Hk, Hu.
Qed.

(** C40: a SIGBUS that is not a synchronous fault (sent by [kill], say) does
    not terminate the process: the handler resets the disposition and
    returns, the interrupted code goes on, and the next revocation kills the
    process even in an attempt context. *)
Theorem async_sigbus_disarms c a es x t k :
  sigbus t = libephmem_sig_handler_installed -> sigbus_blocked t = false ->
  using_pkeys && negb (pkey_access t) = false ->
  events t = Async c a :: es -> sync_sigbus c = false ->
  exists t', access x t k = k t' /\ sigbus t' = SIG_DFL /\ in_attempt t' = in_attempt t /\ events t' = es /\
    forall c' es' y k', es = Fault c' :: es' -> access y t' k' = Killed SIGBUS.
Proof.
  intros Hs Hb Hp He Hc. unfold access, deliver, handle_sigbus, libephmem_sig_handler. rewrite Hp, He. simpl.
  rewrite Hb, Hs. exists (with_sigbus (with_events t es) SIG_DFL false).
  split_and!; try done.
  - destruct (ctx_handle t); [|done]. by rewrite Hc, andb_false_r.
  - intros c' es' y k' ->. simpl. by rewrite Hp.
Qed.
End Run.

(** ** Examples *)

Definition ex_handle : libephmem_handle := mk_handle 4096 8 None.
Definition ex_thread (e : list event) : thread :=
  mk_thread None false false false libephmem_sig_handler_installed false ∅ ∅ e [].

Lemma ex_idle e : Forall revocation e -> idle true (ex_thread e).
Proof. intros. unfold idle, armed, ex_thread. simpl. by split_and!. Qed.

Lemma ex_wf : wf_handle ex_handle.
Proof. unfold wf_handle. simpl. lia. Qed.

Lemma ex_stays : stays_in ex_handle (memcpy_in 4096 (str "hello") Done).
Proof. unfold in_alloc. simpl. unfold in_alloc. simpl. split_and!; done. Qed.

(** The third byte of five is revoked. *)
Definition revoke_third : list event := [Nothing; Nothing; Fault BUS_ADRERR].

Lemma revoke_third_ok : Forall revocation revoke_third.
Proof. by repeat constructor. Qed.



Lemma put_spec_witness :
  call true (libephmem_put (str "hello") (Some ex_handle) 4 (fun r => Local 0 r Done)) (ex_thread []) =
    run true (Local 0 (-1) Done) (ex_thread []) /\
  exists revoked n t', call true (libephmem_put (str "hello") (Some ex_handle) 3 (fun r => Local 0 r Done))
    (ex_thread revoke_third) = run true (Local 0 (code revoked) Done) t' /\
    memory t' = write_range ∅ 4099 (take n (str "hello")).
Proof.
  split.
  - apply (put_spec true (str "hello") ex_handle 4 (fun r => Local 0 r Done) (ex_thread []));
      [by apply ex_idle|apply ex_wf|lia].
  - destruct (put_spec true (str "hello") ex_handle 3 (fun r => Local 0 r Done) (ex_thread revoke_third))
      as (r & n & t' & E & _ & _ & _ & Hm & _);
      [apply ex_idle, revoke_third_ok|apply ex_wf|lia|]. exists r, n, t'. split; [exact E|exact Hm].
Defined.

Lemma get_spec_witness :
  exists revoked n t', call true (libephmem_get (Some ex_handle) 64 3 5 (fun r => Local 0 r Done))
    (ex_thread revoke_third) = run true (Local 0 (code revoked) Done) t' /\ copied revoked n 5.
Proof.
  destruct (get_spec true ex_handle 64 3 5 (fun r => Local 0 r Done) (ex_thread revoke_third))
    as (r & n & t' & E & _ & _ & _ & _ & Hn);
    [apply ex_idle, revoke_third_ok|apply ex_wf|lia|]. exists r, n, t'. split; [exact E|exact Hn].
Defined.

Lemma put_get_roundtrip_witness :
  exists rv1 rv2 t', run true (put_get (str "hello") ex_handle 3 64 (fun _ _ => Done)) (ex_thread []) =
    run true Done t' /\ (rv1 = false -> rv2 = false -> read_range (local t') 64 5 = str "hello").
Proof.
  destruct (put_get_roundtrip true (str "hello") ex_handle 3 64 (fun _ _ => Done) (ex_thread []))
    as (r1 & r2 & t' & E & _ & H);
    [by apply ex_idle|apply ex_wf|split; simpl; lia|]. exists r1, r2, t'. split; [exact E|exact H].
Defined.

Lemma access_withdrawn_witness :
  exists t', run true (Attempt (Some ex_handle) (Some (fun ptr _ => memcpy_in ptr (str "hello") Done)) (fun _ => Done))
      (ex_thread revoke_third) = Finished t' /\
    forall x k, access true x t' k = Killed SIGSEGV.
Proof.
  apply (access_withdrawn true (Attempt (Some ex_handle) (Some (fun ptr _ => memcpy_in ptr (str "hello") Done))
    (fun _ => Done)) (ex_thread revoke_third)).
  - reflexivity.
  - split; [apply ex_wf|split; [apply ex_stays|done]].
  - apply ex_idle, revoke_third_ok.
Defined.

Lemma async_sigbus_disarms_witness :
  exists t', access false 4096 (ex_thread [Async SI_USER 0; Fault BUS_ADRERR]) Finished = Finished t' /\
    access false 4096 t' Finished = Killed SIGBUS.
Proof.
  destruct (async_sigbus_disarms false SI_USER 0 [Fault BUS_ADRERR] 4096
    (ex_thread [Async SI_USER 0; Fault BUS_ADRERR]) Finished) as (t' & E & _ & _ & _ & H); try reflexivity.
  exists t'. split; [exact E|]. by apply (H BUS_ADRERR []).
Defined.

(** A revocation in the third byte: two bytes written, result 1. *)
Example put_revoked :
  run true (default Done (libephmem_put (str "hello") (Some ex_handle) 3 (fun r => Local 0 r Done)))
    (ex_thread revoke_third) =
  Finished (mk_thread (Some ex_handle) false false false libephmem_sig_handler_installed false
    {[4099 := chr "h"; 4100 := chr "e"]} {[0 := 1]} [] []).
Proof. vm_compute. reflexivity. Qed.

(** The header promises -1 for invalid arguments; a null handle is
    dereferenced by the bounds check. *)
Example put_null : call true (libephmem_put (str "x") None 0 (fun r => Local 0 r Done)) (ex_thread []) = Killed SIGSEGV.
Proof. reflexivity. Qed.

(** -1 does not mean that nothing happened: when access cannot be withdrawn
    after the copy, all bytes are written and access stays enabled. *)
Example put_done_but_refused :
  run true (default Done (libephmem_put (str "a") (Some ex_handle) 0 (fun r => Local 0 r Done)))
    (mk_thread None false false false libephmem_sig_handler_installed false ∅ ∅ [] [true; false]) =
  Finished (mk_thread (Some ex_handle) false false true libephmem_sig_handler_installed false
    {[4096 := chr "a"]} {[0 := -1]} [] []).
Proof. vm_compute. reflexivity. Qed.
