(* ===== verification/EphStore.v ===== *)
(** The interface between ephemeral memory and its clients.  [EphOps] are the
    calls a client makes, [EphStore] what it relies on: an attempt answers 0
    when it ran undisturbed and 1 when memory was revoked, and touches no
    memory but that of its handle.  [BlockCache] is proved against this
    interface; [EphThread] implements it with the attempt contexts of
    [EphAttempt], and the script of answers below is a simple instance for
    examples. *)
From S2P Require Import Prelude.

(** A block of memory, as the [int]s in it. *)
Abbreviation block := (list Z).

Definition is_int (z : Z) : Prop := - 2 ^ 31 <= z < 2 ^ 31.

Definition wf_block (size : Z) (b : block) : Prop := length b = Z.to_nat (size / 4) /\ Forall is_int b.

(** [eph_attempt h fn] is [libephmem_attempt] on a lambda that reads the
    [int]s of the memory of [h] in order and stores what [fn] makes of them in
    a captured variable; it returns the answer of the call and the variable.
    [eph_put b h len] is [libephmem_put] of the first [len] bytes of [b] at
    offset 0. *)
Class EphOps (handle W : Type) := {
  eph_alloc : Z -> W -> option handle * W;
  eph_attempt : handle -> (block -> Z) -> W -> comp (Z * Z * W);
  eph_put : block -> handle -> Z -> W -> comp (Z * W);
  eph_free : handle -> W -> W
}.

(** The answer of an attempt. *)
Definition answer (revoked : bool) : Z := if revoked then 1 else 0.

(** [live w hs]: the handles [hs], of [size] bytes each, are allocated and the
    caller is outside of attempt contexts. *)
Class EphStore (size : Z) (handle W : Type) `{EphOps handle W} := {
  live : W -> list handle -> Prop;
  content : W -> handle -> block;
  live_alloc w hs h w' : live w hs -> eph_alloc size w = (Some h, w') -> live w' (hs ++ [h]);
  live_attempt w hs h fn : live w hs -> h ∈ hs ->
    exists (revoked : bool) s w', eph_attempt h fn w = Ret (answer revoked, s, w') /\ live w' hs /\
      (forall h', h' ∈ hs -> content w' h' = content w h') /\ (revoked = false -> s = fn (content w h));
  live_put w hs i h b : live w hs -> hs !! i = Some h -> wf_block size b ->
    exists (revoked : bool) w', eph_put b h size w = Ret (answer revoked, w') /\ live w' hs /\
      (forall j h', j <> i -> hs !! j = Some h' -> content w' h' = content w h') /\
      (revoked = false -> content w' h = b);
  live_free w hs i h : live w hs -> hs !! i = Some h ->
    live (eph_free h w) (delete i hs) /\
    (forall j h', j <> i -> hs !! j = Some h' -> content (eph_free h w) h' = content w h')
}.

Arguments live {size handle W _ _} w hs.
Arguments content {size handle W _ _} w h.
Arguments live_alloc {size handle W _ _} w hs h w'.
Arguments live_attempt {size handle W _ _} w hs h fn.
Arguments live_put {size handle W _ _} w hs i h b.
Arguments live_free {size handle W _ _} w hs i h.

(** ** A script of answers

    Handles are numbers; the list says of each attempt in turn whether it is
    cut off. *)
Record script := mk_script { answers : list bool; next_handle : nat; contents : gmap nat block }.

Definition next_answer (w : script) : bool * script :=
  (default false (head (answers w)), mk_script (tail (answers w)) (next_handle w) (contents w)).

#[export] Instance script_ops : EphOps nat script := {
  eph_alloc _ w := (Some (next_handle w), mk_script (answers w) (S (next_handle w)) (contents w));
  eph_attempt h fn w :=
    let '(r, w) := next_answer w in
    Ret (answer r, if r then 0 else fn (default [] (contents w !! h)), w);
  eph_put b h _ w :=
    let '(r, w) := next_answer w in
    Ret (answer r, if r then w else mk_script (answers w) (next_handle w) (<[h := b]> (contents w)));
  eph_free h w := mk_script (answers w) (next_handle w) (delete h (contents w))
}.

Lemma NoDup_lookup_ne {A} (l : list A) i j x y : NoDup l -> l !! i = Some x -> l !! j = Some y -> j <> i -> y <> x.
Proof. intros Hd Ei Ej Hij ->. by apply Hij, (NoDup_lookup _ _ _ _ Hd Ej). Qed.

Definition script_live (w : script) (hs : list nat) : Prop := NoDup hs /\ Forall (fun h => (h < next_handle w)%nat) hs.
Definition script_content (w : script) (h : nat) : block := default [] (contents w !! h).

#[export] Instance script_store size : EphStore size nat script.
Proof.
  refine {| live := script_live; content := script_content |}.
  - intros w hs h w' [Hd Hf] [= <- <-]. split.
    + apply NoDup_app. split_and!; [done| |apply NoDup_singleton].
      intros x Hx ->%list_elem_of_singleton. rewrite Forall_forall in Hf. specialize (Hf _ Hx). lia.
    + apply Forall_app. split; [|constructor; [simpl; lia|constructor]].
      eapply Forall_impl; [exact Hf|]. simpl. lia.
  - intros w hs h fn Hl _. exists (default false (head (answers w))). eexists _, _. split; [reflexivity|].
    split_and!; try done. by intros ->.
  - intros w hs i h b [Hd Hf] Ei Hb. exists (default false (head (answers w))). eexists. split; [reflexivity|].
    unfold script_content. destruct (default false (head (answers w))); split_and!; try done; simpl.
    + intros j h' Hj Ej. rewrite lookup_insert_ne; [done|].
      intros ->. by apply (NoDup_lookup_ne _ _ _ _ _ Hd Ei Ej Hj).
    + by rewrite lookup_insert_eq.
  - intros w hs i h [Hd Hf] Ei. unfold script_content. split; [split|]; simpl.
    + by apply (sublist_NoDup _ hs), sublist_delete.
    + by apply Forall_delete.
    + intros j h' Hj Ej. rewrite lookup_delete_ne; [done|].
      intros ->. by apply (NoDup_lookup_ne _ _ _ _ _ Hd Ei Ej Hj).
Defined.
