(* ===== verification/BlockCache.v ===== *)
(** The two-tier block cache of [src/ubmks/libephmem_poc.cpp]: blocks are
    cached in main memory and, when evicted from there, in ephemeral memory,
    which may be revoked at any access.  [setup] is [main] up to its loop,
    [step] one turn of the loop.

    Vectors are lists with checked accesses (an access out of range is
    [buffer_overrun]), [std::map] is [gmap], a block is the list of its ints.
    Ephemeral memory is behind the interface [EphStore]: the cache keeps
    handles, and [w] is the rest of the world, which the calls change. *)
From S2P Require Import Prelude EphStore.

(** ** Vectors *)

Definition vget {A} (v : list A) (i : Z) : comp A :=
  if 0 <=? i then match v !! Z.to_nat i with Some x => Ret x | None => Throw buffer_overrun end
  else Throw buffer_overrun.
Definition vset {A} (v : list A) (i : Z) (x : A) : comp (list A) :=
  if (0 <=? i) && (i <? Z.of_nat (length v)) then Ret (<[Z.to_nat i := x]> v) else Throw buffer_overrun.
Definition verase {A} (v : list A) (i : Z) : comp (list A) :=
  if (0 <=? i) && (i <? Z.of_nat (length v)) then Ret (delete (Z.to_nat i) v) else Throw buffer_overrun.

(** Conversion of an [unsigned long] to [int]. *)
Definition to_int (z : Z) : Z := let x := wrapu 32 z in if x <? 2 ^ 31 then x else x - 2 ^ 32.

(** ** State *)

Record cache (handle : Type) := mk_cache {
  main_memory_set : gmap Z Z;               (* block id to index *)
  main_memory : list block;
  main_memory_rmap : list Z;                (* index to block id, or -1 *)
  max_main_memory_blocks : Z;
  eph_memory_set : gmap Z Z;
  eph_memory : list handle;
  eph_memory_rmap : list Z;
  max_eph_memory_blocks : Z;
  block_selector : Z;                       (* upper bounds of the draws *)
  main_memory_eviction_selector : Z;
  eph_memory_eviction_selector : Z
}.
Arguments mk_cache {handle} _ _ _ _ _ _ _ _ _ _ _.
Arguments main_memory_set {handle} _.
Arguments main_memory {handle} _.
Arguments main_memory_rmap {handle} _.
Arguments max_main_memory_blocks {handle} _.
Arguments eph_memory_set {handle} _.
Arguments eph_memory {handle} _.
Arguments eph_memory_rmap {handle} _.
Arguments max_eph_memory_blocks {handle} _.
Arguments block_selector {handle} _.
Arguments main_memory_eviction_selector {handle} _.
Arguments eph_memory_eviction_selector {handle} _.

(** The random numbers of a turn, the time it takes and whether the
    statistics are due. *)
Record turn := mk_turn { rand_block : Z; rand_main : Z; rand_eph : Z; duration : Z; print_due : bool }.

(** A draw from [std::uniform_int_distribution<int>(0, hi)]. *)
Definition select (hi r : Z) : Z := r mod (hi + 1).

Inductive hit : Set := MainHit | EphHit | Miss.

(** ** Operations *)

Definition compute_block_sum (b : block) (block_size : Z) : Z :=
  foldl Z.add 0 (take (Z.to_nat (block_size / 4)) b).

Definition fill_block (b : block) (block_size value : Z) : block :=
  replicate (Z.to_nat (block_size / 4)) value ++ drop (Z.to_nat (block_size / 4)) b.

(** The loop that points the blocks of the slots from [i] on at their
    indices; [n] is the number of turns left. *)
Fixpoint reindex (n : nat) (i : Z) (rmap : list Z) (set : gmap Z Z) : comp (gmap Z Z) :=
  match n with
  | O => Ret set
  | S n =>
      let* id := vget rmap i in
      reindex n (i + 1) rmap (if id =? -1 then set else <[id := to_int i]> set)
  end.

Section Operations.
Context {handle W : Type} {Ops : EphOps handle W}.

Definition with_main (c : cache handle) (s : gmap Z Z) (m : list block) (r : list Z) : cache handle :=
  mk_cache s m r (max_main_memory_blocks c) (eph_memory_set c) (eph_memory c) (eph_memory_rmap c)
    (max_eph_memory_blocks c) (block_selector c) (main_memory_eviction_selector c) (eph_memory_eviction_selector c).
Definition with_eph (c : cache handle) (s : gmap Z Z) (m : list handle) (r : list Z) : cache handle :=
  mk_cache (main_memory_set c) (main_memory c) (main_memory_rmap c) (max_main_memory_blocks c) s m r
    (max_eph_memory_blocks c) (block_selector c) (main_memory_eviction_selector c) (eph_memory_eviction_selector c).
Definition with_eph_max (c : cache handle) (n sel : Z) : cache handle :=
  mk_cache (main_memory_set c) (main_memory c) (main_memory_rmap c) (max_main_memory_blocks c)
    (eph_memory_set c) (eph_memory c) (eph_memory_rmap c) n (block_selector c) (main_memory_eviction_selector c) sel.

(** The end of a turn: an exit code, or the access that was made. *)
Inductive verdict : Type :=
  | Exit (code : Z)
  | Access (block_id sum : Z) (h : hit) (c : cache handle) (w : W).

Definition handle_revoked_ephmem (bad_index : Z) (c : cache handle) (w : W) : comp (cache handle * W) :=
  let* revoked_block_id := vget (eph_memory_rmap c) bad_index in
  let* h := vget (eph_memory c) bad_index in
  let w := eph_free h w in
  let set := if revoked_block_id =? -1 then eph_memory_set c else delete revoked_block_id (eph_memory_set c) in
  let* mem := verase (eph_memory c) bad_index in
  let* rmap := verase (eph_memory_rmap c) bad_index in
  let max := wrapu 64 (max_eph_memory_blocks c - 1) in
  let* set := reindex (Z.to_nat (max - bad_index)) bad_index rmap set in
  Ret (with_eph_max (with_eph c set mem rmap) max (if 0 <? max then to_int (max - 1) else 0), w).

Variable BLOCK_SIZE : Z.

(** The slot of ephemeral memory a block is evicted to, -1 for none; [inr]
    is the exit code. *)
Definition find_eph_slot (t : turn) (c : cache handle) : comp ((Z * cache handle) + Z) :=
  if (max_eph_memory_blocks c <=? Z.of_nat (size (eph_memory_set c))) && (0 <? max_eph_memory_blocks c) then
    let i := select (eph_memory_eviction_selector c) (rand_eph t) in
    let* id := vget (eph_memory_rmap c) i in
    if id =? -1 then Ret (inr 1)
    else
      let* rmap := vset (eph_memory_rmap c) i (-1) in
      Ret (inl (i, with_eph c (delete id (eph_memory_set c)) (eph_memory c) rmap))
  else if 0 <? max_eph_memory_blocks c then Ret (inl (to_int (Z.of_nat (size (eph_memory_set c))), c))
  else Ret (inl (-1, c)).

(** The move of the evicted block to ephemeral memory. *)
Definition move_to_eph (evict_block_id main_mem_index eph_mem_index : Z) (c : cache handle) (w : W) :
    comp ((cache handle * W) + Z) :=
  if eph_mem_index =? -1 then Ret (inl (c, w))
  else
    let* h := vget (eph_memory c) eph_mem_index in
    let* block_to_evict := vget (main_memory c) main_mem_index in
    let* '(attempt_result, w) := eph_put block_to_evict h BLOCK_SIZE w in
    if attempt_result =? 1 then
      let* '(c, w) := handle_revoked_ephmem eph_mem_index c w in
      Ret (inl (c, w))
    else if attempt_result =? -1 then Ret (inr 1)
    else
      let* rmap := vset (eph_memory_rmap c) eph_mem_index evict_block_id in
      Ret (inl (with_eph c (<[evict_block_id := eph_mem_index]> (eph_memory_set c)) (eph_memory c) rmap, w)).

(** The index in main memory for the block that is read in. *)
Definition find_main_slot (t : turn) (c : cache handle) (w : W) : comp ((Z * cache handle * W) + Z) :=
  if (max_main_memory_blocks c <=? Z.of_nat (size (main_memory_set c))) && (0 <? max_main_memory_blocks c) then
    let i := select (main_memory_eviction_selector c) (rand_main t) in
    let* evict_block_id := vget (main_memory_rmap c) i in
    if evict_block_id =? -1 then Ret (inr 1)
    else
      let* slot := find_eph_slot t c in
      match slot with
      | inr code => Ret (inr code)
      | inl (eph_mem_index, c) =>
          let* rmap := vset (main_memory_rmap c) i (-1) in
          let c := with_main c (delete evict_block_id (main_memory_set c)) (main_memory c) rmap in
          let* r := move_to_eph evict_block_id i eph_mem_index c w in
          match r with
          | inr code => Ret (inr code)
          | inl (c, w) => Ret (inl (i, c, w))
          end
      end
  else Ret (inl (to_int (Z.of_nat (size (main_memory_set c))), c, w)).

(** A block in neither memory is read from disk. *)
Definition read_in (t : turn) (block_id : Z) (c : cache handle) (w : W) : comp verdict :=
  let* slot := find_main_slot t c w in
  match slot with
  | inr code => Ret (Exit code)
  | inl (i, c, w) =>
      let* b := vget (main_memory c) i in
      let b := fill_block b BLOCK_SIZE block_id in
      let* mem := vset (main_memory c) i b in
      let* rmap := vset (main_memory_rmap c) i block_id in
      Ret (Access block_id (compute_block_sum b BLOCK_SIZE) Miss
             (with_main c (<[block_id := i]> (main_memory_set c)) mem rmap) w)
  end.

Definition step (t : turn) (c : cache handle) (w : W) : comp verdict :=
  let block_id := select (block_selector c) (rand_block t) in
  match main_memory_set c !! block_id with
  | Some i =>
      let* b := vget (main_memory c) i in
      Ret (Access block_id (compute_block_sum b BLOCK_SIZE) MainHit c w)
  | None =>
      match eph_memory_set c !! block_id with
      | Some i =>
          let* h := vget (eph_memory c) i in
          let* '(attempt_result, sum, w) := eph_attempt h (fun b => compute_block_sum b BLOCK_SIZE) w in
          if attempt_result =? 1 then
            let* '(c, w) := handle_revoked_ephmem i c w in
            read_in t block_id c w
          else if attempt_result =? -1 then Ret (Exit 1)
          else Ret (Access block_id sum EphHit c w)
      | None => read_in t block_id c w
      end
  end.

(** The loop that allocates the ephemeral memory. *)
Fixpoint alloc_handles (n : nat) (eph_memory : list handle) (w : W) : option (list handle) * W :=
  match n with
  | O => (Some eph_memory, w)
  | S n =>
      let '(h, w) := eph_alloc BLOCK_SIZE w in
      match h with
      | None => (None, w)
      | Some h => alloc_handles n (eph_memory ++ [h]) w
      end
  end.

(** [main] up to the loop, for the parsed arguments; [reserved] is what
    [libephmem_reserve] returns, and fresh main memory is zero. *)
Definition setup (total_blocks max_main max_eph : Z) (reserved : Z -> Z) (mmap_ok : bool) (w : W) :
    (cache handle * W) + Z :=
  if (total_blocks =? 0) || (max_main =? 0) then inr 1
  else if total_blocks <? wrapu 64 (max_main + max_eph) then inr 1
  else
    let max_eph :=
      if 0 <? max_eph then
        let n := reserved (wrapu 64 (max_eph * BLOCK_SIZE)) / BLOCK_SIZE in
        if n <? max_eph then n else max_eph
      else max_eph in
    if negb mmap_ok then inr 1
    else
      match alloc_handles (Z.to_nat max_eph) [] w with
      | (None, _) => inr 1
      | (Some hs, w) =>
          inl (mk_cache ∅ (replicate (Z.to_nat max_main) (replicate (Z.to_nat (BLOCK_SIZE / 4)) 0))
            (replicate (Z.to_nat max_main) (-1)) max_main
            ∅ hs (replicate (Z.to_nat max_eph) (-1)) max_eph
            (to_int (total_blocks - 1)) (to_int (max_main - 1)) (if 0 <? max_eph then to_int (max_eph - 1) else 0), w)
      end.
End Operations.

Arguments verdict : clear implicits.

(** ** Statistics *)

Record stats := mk_stats {
  total_time_us : Z; total_accesses : Z; recent_time_us : Z; recent_accesses : Z;
  main_mem_hit_time : Z; eph_mem_hit_time : Z; miss_time : Z;
  main_mem_accesses : Z; eph_mem_accesses : Z; miss_accesses : Z
}.

Definition add64 (a b : Z) : Z := wrapu 64 (a + b).

Definition time_keeping (d : Z) (h : hit) (print_due : bool) (s : stats) : stats :=
  let main := match h with MainHit => true | _ => false end in
  let eph := match h with EphHit => true | _ => false end in
  let miss := match h with Miss => true | _ => false end in
  let add (b : bool) x y := if b then add64 x y else x in
  let s := mk_stats (add64 (total_time_us s) d) (add64 (total_accesses s) 1)
    (add64 (recent_time_us s) d) (add64 (recent_accesses s) 1)
    (add main (main_mem_hit_time s) d) (add eph (eph_mem_hit_time s) d) (add miss (miss_time s) d)
    (add main (main_mem_accesses s) 1) (add eph (eph_mem_accesses s) 1) (add miss (miss_accesses s) 1) in
  if print_due then mk_stats (total_time_us s) (total_accesses s) 0 0 0 0 0 0 0 0 else s.

(** ** Slots and maps *)

Lemma vget_ok {A} (v : list A) i x : 0 <= i -> v !! Z.to_nat i = Some x -> vget v i = Ret x.
Proof. intros Hi E. unfold vget. destruct (Z.leb_spec 0 i); [|lia]. by rewrite E. Qed.

Lemma vget_lt {A} (v : list A) i : 0 <= i < Z.of_nat (length v) ->
  exists x, v !! Z.to_nat i = Some x /\ vget v i = Ret x.
Proof.
  intros Hi. destruct (lookup_lt_is_Some_2 v (Z.to_nat i)) as [x E]; [lia|]. exists x. split; [done|].
  apply vget_ok; [lia|done].
Qed.

Lemma to_int_small z : 0 <= z < 2 ^ 31 -> to_int z = z.
Proof. intros Hz. unfold to_int. rewrite wrapu_small by lia. destruct (Z.ltb_spec z (2 ^ 31)); lia. Qed.

Lemma vset_ok {A} (v : list A) i x : 0 <= i < Z.of_nat (length v) -> vset v i x = Ret (<[Z.to_nat i := x]> v).
Proof. intros Hi. unfold vset. zcases; simpl; lia || done. Qed.

Lemma verase_ok {A} (v : list A) i : 0 <= i < Z.of_nat (length v) -> verase v i = Ret (delete (Z.to_nat i) v).
Proof. intros Hi. unfold verase. zcases; simpl; lia || done. Qed.

(** The map and the reverse map of a memory agree. *)
Definition indexes (set : gmap Z Z) (rmap : list Z) : Prop :=
  forall b i, set !! b = Some i <-> 0 <= i /\ rmap !! Z.to_nat i = Some b /\ b <> -1.

Lemma indexes_lookup set rmap : indexes set rmap ->
  forall b i, set !! b = Some i <-> 0 <= i /\ rmap !! Z.to_nat i = Some b /\ b <> -1.
Proof. done. Qed.

Lemma indexes_nat set rmap (n : nat) b : indexes set rmap -> rmap !! n = Some b -> b <> -1 ->
  set !! b = Some (Z.of_nat n).
Proof. intros H E Hb. apply H. rewrite Nat2Z.id. split_and!; [lia|done|done]. Qed.

Lemma indexes_inj set rmap (n m : nat) b : indexes set rmap -> rmap !! n = Some b -> rmap !! m = Some b ->
  b <> -1 -> n = m.
Proof.
  intros H E1 E2 Hb. apply (indexes_nat _ _ _ _ H) in E1, E2; [|done..]. rewrite E1 in E2. injection E2. lia.
Qed.

Lemma indexes_none set rmap b : indexes set rmap -> set !! b = None -> b <> -1 -> forall n : nat, rmap !! n <> Some b.
Proof. intros H E Hb n En. apply (indexes_nat _ _ _ _ H) in En; [|done]. congruence. Qed.

Lemma indexes_erase set rmap i b : indexes set rmap -> 0 <= i -> rmap !! Z.to_nat i = Some b -> b <> -1 ->
  indexes (delete b set) (<[Z.to_nat i := -1]> rmap).
Proof.
  intros H Hi E Hb b' i'. rewrite lookup_delete_Some, list_lookup_insert_Some, (indexes_lookup _ _ H). split.
  - intros (Hne & Hi' & E' & Hb'). split_and!; [done| |done]. right. split; [|done]. intros Eq.
    rewrite <- Eq, E in E'. congruence.
  - intros (Hi' & [(_ & <- & _)|(Hne & E')] & Hb'); [done|]. split_and!; try done. intros <-.
    by pose proof (indexes_inj _ _ _ _ _ H E E' Hb).
Qed.

Lemma indexes_insert set rmap i b : indexes set rmap -> 0 <= i -> rmap !! Z.to_nat i = Some (-1) ->
  set !! b = None -> b <> -1 -> indexes (<[b := i]> set) (<[Z.to_nat i := b]> rmap).
Proof.
  intros H Hi E Hn Hb b' i'. rewrite lookup_insert_Some, list_lookup_insert_Some, (indexes_lookup _ _ H). split.
  - intros [[<- <-]|(Hne & Hi' & E' & Hb')]; (split_and!; [done| |done]).
    + left. split_and!; [done|done|]. by eapply lookup_lt_Some.
    + right. split; [|done]. intros Eq. rewrite <- Eq, E in E'. congruence.
  - intros (Hi' & [(Eq & <- & _)|(Hne & E')] & Hb').
    + left. split; [done|]. lia.
    + right. split_and!; try done. intros <-. by apply (indexes_none _ _ _ H Hn Hb (Z.to_nat i')).
Qed.

Lemma indexes_snoc set rmap x : indexes set (rmap ++ [x]) -> indexes (if x =? -1 then set else delete x set) rmap.
Proof.
  intros H. assert (forall b i, rmap !! i = Some b -> (rmap ++ [x]) !! i = Some b) as Hl.
  { intros b i E. rewrite lookup_app_l; [done|]. by eapply lookup_lt_Some. }
  assert ((rmap ++ [x]) !! length rmap = Some x) as Hx by by apply list_lookup_middle.
  intros b i. destruct (Z.eqb_spec x (-1)) as [->|Hne].
  - rewrite (indexes_lookup _ _ H). split; [|naive_solver]. intros (Hi & E & Hb). split_and!; try done.
    apply lookup_snoc_Some in E as [[_ E]|[_ E]]; [done|congruence].
  - rewrite lookup_delete_Some, (indexes_lookup _ _ H). split.
    + intros (Hxb & Hi & E & Hb). split_and!; try done. apply lookup_snoc_Some in E as [[_ E]|[_ E]]; [done|congruence].
    + intros (Hi & E & Hb). split_and!; auto. intros <-. pose proof (lookup_lt_Some _ _ _ E).
      pose proof (indexes_inj _ _ _ _ _ H (Hl _ _ E) Hx Hb). lia.
Qed.

Definition occupied (rmap : list Z) : list Z := filter (fun b => b <> -1) rmap.

Lemma indexes_size rmap : forall set, indexes set rmap -> size set = length (occupied rmap).
Proof.
  unfold occupied. induction rmap as [|x rmap IH] using rev_ind; intros set H.
  - simpl. apply map_size_empty_iff. apply map_eq. intros b. rewrite lookup_empty.
    destruct (set !! b) eqn:E; [|done]. apply H in E as (_ & E & _). done.
  - pose proof (IH _ (indexes_snoc _ _ _ H)) as IHs. rewrite filter_app, length_app, <- IHs.
    destruct (Z.eqb_spec x (-1)) as [->|Hx].
    + rewrite filter_cons_False by auto. simpl. lia.
    + rewrite filter_cons_True by done. simpl.
      assert (set !! x = Some (Z.of_nat (length rmap))) as E.
      { eapply indexes_nat; [done| |done]. by apply list_lookup_middle. }
      rewrite map_size_delete_Some by (by eexists).
      assert (size set <> 0%nat) by (intros Hz; apply map_size_empty_inv in Hz; subst; by rewrite lookup_empty in E).
      lia.
Qed.

(** Slots from [p] on hold the index they had before the slot below [p] was
    removed. *)
Definition shifted (p : nat) (set : gmap Z Z) (rmap : list Z) : Prop :=
  forall b v, set !! b = Some v <->
    b <> -1 /\ exists j : nat, rmap !! j = Some b /\ v = Z.of_nat (if (j <? p)%nat then j else S j).

Lemma shifted_inj p set rmap (n m : nat) b : shifted p set rmap -> rmap !! n = Some b -> rmap !! m = Some b ->
  b <> -1 -> n = m.
Proof.
  intros H E1 E2 Hb.
  pose proof (proj2 (H b _) (conj Hb (ex_intro _ n (conj E1 eq_refl)))) as H1.
  pose proof (proj2 (H b _) (conj Hb (ex_intro _ m (conj E2 eq_refl)))) as H2.
  rewrite H1 in H2. injection H2 as H2. apply Nat2Z.inj in H2.
  destruct (Nat.ltb_spec n p), (Nat.ltb_spec m p); lia.
Qed.

Lemma shifted_start set rmap (i : nat) id : indexes set rmap -> rmap !! i = Some id ->
  shifted i (if id =? -1 then set else delete id set) (delete i rmap).
Proof.
  intros H Ei b v.
  assert (set !! b = Some v /\ b <> id <->
    b <> -1 /\ exists j, delete i rmap !! j = Some b /\ v = Z.of_nat (if (j <? i)%nat then j else S j)) as Hg.
  { rewrite (indexes_lookup _ _ H). split.
    - intros ((Hv & E & Hb) & Hid). split; [done|].
      assert (Z.to_nat v <> i) as Hne by (intros Eq; rewrite Eq, Ei in E; congruence).
      destruct (Nat.lt_ge_cases (Z.to_nat v) i).
      + exists (Z.to_nat v). rewrite list_lookup_delete_lt by done. split; [done|].
        destruct (Nat.ltb_spec (Z.to_nat v) i); lia.
      + exists (pred (Z.to_nat v)). rewrite list_lookup_delete_ge by lia.
        replace (S (pred (Z.to_nat v))) with (Z.to_nat v) by lia. split; [done|].
        destruct (Nat.ltb_spec (pred (Z.to_nat v)) i); lia.
    - intros (Hb & j & E & ->). destruct (Nat.ltb_spec j i) as [Hj|Hj].
      + rewrite list_lookup_delete_lt in E by done. rewrite Nat2Z.id. split_and!; try done; try lia.
        intros ->. pose proof (indexes_inj _ _ _ _ _ H E Ei Hb). lia.
      + rewrite list_lookup_delete_ge in E by done. rewrite Nat2Z.id. split_and!; try done; try lia.
        intros ->. pose proof (indexes_inj _ _ _ _ _ H E Ei Hb). lia. }
  rewrite <- Hg. destruct (Z.eqb_spec id (-1)) as [->|Hid].
  - split; [|naive_solver]. intros E. split; [done|]. apply H in E. naive_solver.
  - rewrite lookup_delete_Some. naive_solver.
Qed.

Lemma shifted_step p set rmap id : shifted p set rmap -> rmap !! p = Some id ->
  shifted (S p) (if id =? -1 then set else <[id := Z.of_nat p]> set) rmap.
Proof.
  intros H Ep b v.
  assert (forall j, j <> p -> (if (j <? S p)%nat then j else S j) = (if (j <? p)%nat then j else S j)) as Hj.
  { intros j Hj. destruct (Nat.ltb_spec j (S p)), (Nat.ltb_spec j p); lia. }
  destruct (Z.eqb_spec id (-1)) as [->|Hid].
  - rewrite (H b v). split; intros (Hb & j & E & Ev); (split; [done|]; exists j; split; [done|]);
      (assert (j <> p) by (intros ->; congruence)); by rewrite Hj in *.
  - rewrite lookup_insert_Some. split.
    + intros [[<- <-]|[Hne E]].
      * split; [done|]. exists p. split; [done|]. destruct (Nat.ltb_spec p (S p)); lia.
      * apply H in E as (Hb & j & E & ->). split; [done|]. exists j. split; [done|].
        rewrite Hj; [done|]. intros ->. congruence.
    + intros (Hb & j & E & ->). destruct (Nat.eq_dec j p) as [->|Hne].
      * left. split; [congruence|]. destruct (Nat.ltb_spec p (S p)); lia.
      * right. split; [intros ->; by pose proof (shifted_inj _ _ _ _ _ _ H E Ep Hb)|].
        apply H. split; [done|]. exists j. by rewrite Hj.
Qed.

Lemma shifted_end set rmap p : shifted p set rmap -> (length rmap <= p)%nat -> indexes set rmap.
Proof.
  intros H Hp b v. rewrite (H b v). split.
  - intros (Hb & j & E & ->). pose proof (lookup_lt_Some _ _ _ E).
    destruct (Nat.ltb_spec j p); [|lia]. rewrite Nat2Z.id. split_and!; [lia|done|done].
  - intros (Hv & E & Hb). split; [done|]. exists (Z.to_nat v). split; [done|]. pose proof (lookup_lt_Some _ _ _ E).
    destruct (Nat.ltb_spec (Z.to_nat v) p); lia.
Qed.

Lemma reindex_ok n : forall (p : nat) rmap set, shifted p set rmap -> (p + n = length rmap)%nat ->
  Z.of_nat (length rmap) <= 2 ^ 31 ->
  exists set', reindex n (Z.of_nat p) rmap set = Ret set' /\ indexes set' rmap.
Proof.
  induction n as [|n IH]; intros p rmap set H Hn Hmax; cbn [reindex].
  - exists set. split; [done|]. eapply shifted_end; [done|lia].
  - destruct (vget_lt rmap (Z.of_nat p)) as (id & E & ->); [lia|]. cbn [comp_bind]. rewrite Nat2Z.id in E.
    rewrite to_int_small by lia. replace (Z.of_nat p + 1) with (Z.of_nat (S p)) by lia.
    apply IH; [by apply shifted_step|lia|lia].
Qed.

(** ** The invariant *)

Section Invariant.
Variable BLOCK_SIZE : Z.
Context {handle W : Type} {Ops : EphOps handle W} {Store : EphStore BLOCK_SIZE handle W}.
Abbreviation ints := (Z.to_nat (BLOCK_SIZE / 4)).

(** The data of a block: its id in every int. *)
Definition is_data (id : Z) (b : block) : Prop := take ints b = replicate ints id.

Definition stored (rmap : list Z) (mem : list block) : Prop :=
  forall n id, rmap !! n = Some id -> id <> -1 -> exists b, mem !! n = Some b /\ is_data id b.

(** Occupied slots come first. *)
Definition packed (rmap : list Z) : Prop :=
  exists ids k, rmap = ids ++ replicate k (-1) /\ Forall (fun b => b <> -1) ids.

Definition tier (set : gmap Z Z) (mem : list block) (rmap : list Z) (max : Z) : Prop :=
  indexes set rmap /\ stored rmap mem /\ Z.of_nat (length mem) = max /\ Z.of_nat (length rmap) = max.

Definition disjoint_sets (s1 s2 : gmap Z Z) : Prop := forall b, s1 !! b = None \/ s2 !! b = None.

(** The blocks in ephemeral memory. *)
Definition blocks (c : cache handle) (w : W) : list block := content w <$> eph_memory c.

Definition eph_ok (c : cache handle) (w : W) : Prop :=
  tier (eph_memory_set c) (blocks c w) (eph_memory_rmap c) (max_eph_memory_blocks c) /\
  0 <= max_eph_memory_blocks c <= 2 ^ 31 /\
  eph_memory_eviction_selector c = (if 0 <? max_eph_memory_blocks c then max_eph_memory_blocks c - 1 else 0) /\
  live w (eph_memory c).

Definition main_ok (c : cache handle) : Prop :=
  tier (main_memory_set c) (main_memory c) (main_memory_rmap c) (max_main_memory_blocks c) /\
  0 < max_main_memory_blocks c <= 2 ^ 31 /\ main_memory_eviction_selector c = max_main_memory_blocks c - 1 /\
  Forall (wf_block BLOCK_SIZE) (main_memory c).

Definition inv (c : cache handle) (w : W) : Prop :=
  main_ok c /\ packed (main_memory_rmap c) /\ eph_ok c w /\ packed (eph_memory_rmap c) /\
  disjoint_sets (main_memory_set c) (eph_memory_set c) /\ 0 <= block_selector c < 2 ^ 31.

(** What the calls do to the blocks. *)
Lemma attempt_blocks w hs n h fn : live w hs -> hs !! n = Some h ->
  exists (revoked : bool) s w', eph_attempt h fn w = Ret (answer revoked, s, w') /\ live w' hs /\
    content w' <$> hs = content w <$> hs /\ (revoked = false -> s = fn (content w h)).
Proof.
  intros Hl E. destruct (live_attempt w hs h fn Hl) as (r & s & w' & E' & Hl' & Hc & Hs);
    [by eapply list_elem_of_lookup_2|].
  exists r, s, w'. split_and!; try done. by apply list_fmap_ext; intros j h' Ej; apply Hc, (list_elem_of_lookup_2 _ j).
Qed.

Lemma put_blocks w hs n h b : live w hs -> hs !! n = Some h -> wf_block BLOCK_SIZE b ->
  exists (revoked : bool) w', eph_put b h BLOCK_SIZE w = Ret (answer revoked, w') /\ live w' hs /\
    if revoked then forall m, m <> n -> (content w' <$> hs) !! m = (content w <$> hs) !! m
    else content w' <$> hs = <[n := b]> (content w <$> hs).
Proof.
  intros Hl E Hb. destruct (live_put w hs n h b Hl E Hb) as (r & w' & E' & Hl' & Hc & Hs).
  assert (forall m, m <> n -> (content w' <$> hs) !! m = (content w <$> hs) !! m) as Ho.
  { intros m Hm. rewrite !list_lookup_fmap. destruct (hs !! m) as [h'|] eqn:Em; [|done]. simpl. f_equal. by eapply Hc. }
  exists r, w'. split_and!; try done. destruct r; [done|]. apply list_eq. intros m.
  destruct (Nat.eq_dec m n) as [->|Hm]; [|by rewrite list_lookup_insert_ne, Ho].
  rewrite list_lookup_insert_eq by (rewrite length_fmap; by eapply lookup_lt_Some).
  rewrite list_lookup_fmap, E. simpl. by rewrite Hs.
Qed.

Lemma free_blocks w hs n h : live w hs -> hs !! n = Some h ->
  live (eph_free h w) (delete n hs) /\
  content (eph_free h w) <$> delete n hs = delete n (content w <$> hs).
Proof.
  intros Hl E. destruct (live_free w hs n h Hl E) as [Hl' Hc]. split; [done|]. apply list_eq. intros m.
  rewrite list_lookup_fmap. destruct (Nat.lt_ge_cases m n).
  - rewrite !list_lookup_delete_lt, list_lookup_fmap by done. destruct (hs !! m) eqn:Em; [|done]. simpl. f_equal.
    eapply Hc; [|exact Em]. lia.
  - rewrite !list_lookup_delete_ge, list_lookup_fmap by done. destruct (hs !! S m) eqn:Em; [|done]. simpl. f_equal.
    eapply Hc; [|exact Em]. lia.
Qed.

Lemma select_range hi r : 0 <= hi -> 0 <= select hi r <= hi.
Proof. intros. unfold select. pose proof (Z.mod_pos_bound r (hi + 1)). lia. Qed.

Lemma occupied_packed ids k : Forall (fun b => b <> -1) ids -> length (occupied (ids ++ replicate k (-1))) = length ids.
Proof.
  intros H. unfold occupied. rewrite filter_app, length_app.
  assert (filter (fun b => b <> -1) (replicate k (-1)) = []) as ->.
  { induction k; simpl; [done|]. rewrite filter_cons_False by auto. done. }
  simpl. rewrite Nat.add_0_r. induction H; [done|]. rewrite filter_cons_True by done. simpl. congruence.
Qed.

(** A free slot that can be filled or removed. *)
Definition hole (rmap : list Z) (i : nat) : Prop :=
  rmap !! i = Some (-1) /\ packed (delete i rmap) /\ forall x, x <> -1 -> packed (<[i := x]> rmap).

Lemma packed_all ids : Forall (fun b => b <> -1) ids -> packed ids.
Proof. intros H. exists ids, 0%nat. simpl. by rewrite app_nil_r. Qed.

Lemma packed_delete rmap i id : packed rmap -> rmap !! i = Some id -> id <> -1 -> packed (delete i rmap).
Proof.
  intros (ids & k & -> & Hids) E Hid. destruct (Nat.lt_ge_cases i (length ids)) as [Hi|Hi].
  - exists (delete i ids), k. split; [by apply delete_app_l|by apply Forall_delete].
  - rewrite lookup_app_r in E by done. by apply lookup_replicate in E as [-> _].
Qed.

Lemma full_hole rmap i : Forall (fun b => b <> -1) rmap -> (i < length rmap)%nat -> hole (<[i := -1]> rmap) i.
Proof.
  intros H Hi. split_and!.
  - by apply list_lookup_insert_eq.
  - apply packed_all. rewrite delete_insert_same. by apply Forall_delete.
  - intros x Hx. rewrite list_insert_insert_eq. apply packed_all. by apply Forall_insert.
Qed.

Lemma next_hole ids k : Forall (fun b => b <> -1) ids -> hole (ids ++ replicate (S k) (-1)) (length ids).
Proof.
  intros H. split_and!.
  - by apply list_lookup_middle.
  - exists ids, k. split; [|done]. apply delete_middle.
  - intros x Hx. exists (ids ++ [x]), k. rewrite <- app_assoc. simpl. rewrite insert_app_r_alt, Nat.sub_diag by lia.
    split; [done|]. apply Forall_app. by repeat constructor.
Qed.

(** A memory is full, or its next slot is free. *)
Lemma tier_size set mem rmap max : tier set mem rmap max -> packed rmap ->
  (max <= Z.of_nat (size set) /\ Forall (fun b => b <> -1) rmap) \/
  (Z.of_nat (size set) < max /\ hole rmap (size set)).
Proof.
  intros (Hx & _ & _ & Hl) (ids & k & -> & Hids). rewrite (indexes_size _ _ Hx), occupied_packed by done.
  rewrite length_app, length_replicate in Hl. destruct k as [|k].
  - left. split; [lia|]. simpl. by rewrite app_nil_r.
  - right. split; [lia|]. by apply next_hole.
Qed.

(** ** The operations *)

Definition same_main (c c' : cache handle) : Prop :=
  main_memory_set c' = main_memory_set c /\ main_memory c' = main_memory c /\
  main_memory_rmap c' = main_memory_rmap c /\ max_main_memory_blocks c' = max_main_memory_blocks c /\
  block_selector c' = block_selector c /\ main_memory_eviction_selector c' = main_memory_eviction_selector c.

Definition absent (b : Z) (c : cache handle) : Prop := eph_memory_set c !! b = None.

Lemma main_ok_same c c' : same_main c c' -> main_ok c -> main_ok c'.
Proof. unfold main_ok. intros (-> & -> & -> & -> & _ & ->). done. Qed.

Lemma indexes_absent set rmap b : indexes set rmap -> (b <> -1 -> forall n : nat, rmap !! n <> Some b) ->
  set !! b = None.
Proof. intros H Hn. destruct (set !! b) eqn:E; [|done]. apply H in E as (_ & E & Hb). by apply Hn in E. Qed.

Lemma lookup_delete_list {A} (l : list A) i n x : delete i l !! n = Some x ->
  exists m, m <> i /\ l !! m = Some x /\ forall k : list A, delete i k !! n = k !! m.
Proof.
  intros E. destruct (Nat.lt_ge_cases n i).
  - exists n. rewrite list_lookup_delete_lt in E by done. split_and!; [lia|done|].
    intros. by apply list_lookup_delete_lt.
  - exists (S n). rewrite list_lookup_delete_ge in E by done. split_and!; [lia|done|].
    intros. by apply list_lookup_delete_ge.
Qed.

Lemma stored_delete rmap mem i : length rmap = length mem -> stored rmap mem ->
  stored (delete i rmap) (delete i mem).
Proof.
  intros Hl H n id E Hid. destruct (Nat.lt_ge_cases n i).
  - rewrite list_lookup_delete_lt in E by done. rewrite list_lookup_delete_lt by done. by apply H.
  - rewrite list_lookup_delete_ge in E by done. rewrite list_lookup_delete_ge by done. by apply H.
Qed.

Lemma stored_insert rmap mem i id b : stored rmap mem -> (i < length mem)%nat -> is_data id b ->
  stored (<[i := id]> rmap) (<[i := b]> mem).
Proof.
  intros H Hi Hb n id' E Hid. apply list_lookup_insert_Some in E as [(-> & -> & _)|(Hne & E)].
  - exists b. by rewrite list_lookup_insert_eq.
  - destruct (H _ _ E Hid) as (b' & E' & Hb'). exists b'. by rewrite list_lookup_insert_ne.
Qed.

Lemma stored_free rmap mem i : stored rmap mem -> stored (<[i := -1]> rmap) mem.
Proof.
  intros H n id' E Hid. apply list_lookup_insert_Some in E as [(_ & <- & _)|(Hne & E)]; [done|]. by apply H.
Qed.

(** A revoked slot disappears with the block in it; all other blocks stay. *)
Lemma revoke_ok c w i : eph_ok c w -> 0 <= i < max_eph_memory_blocks c ->
  exists c' w', handle_revoked_ephmem i c w = Ret (c', w') /\ eph_ok c' w' /\ same_main c c' /\
    eph_memory_rmap c' = delete (Z.to_nat i) (eph_memory_rmap c) /\
    max_eph_memory_blocks c' = max_eph_memory_blocks c - 1 /\
    (forall b, absent b c -> absent b c') /\
    (forall b, eph_memory_set c !! b = Some i -> absent b c').
Proof.
  intros ((Hx & Hst & Hm & Hr) & Hmax & Hsel & Hlive) Hi. unfold handle_revoked_ephmem, blocks in *.
  rewrite length_fmap in Hm.
  destruct (vget_lt (eph_memory_rmap c) i) as (id & Eid & ->); [lia|]. cbn [comp_bind].
  destruct (vget_lt (eph_memory c) i) as (h & Eh & ->); [lia|]. cbn [comp_bind].
  destruct (free_blocks w _ _ _ Hlive Eh) as [Hlive' Hbl].
  rewrite !verase_ok by lia. cbn [comp_bind]. rewrite wrapu_small by lia.
  assert (length (delete (Z.to_nat i) (eph_memory_rmap c)) = pred (length (eph_memory_rmap c))) as Hd
    by (rewrite length_delete; [lia|by eexists]).
  assert (length (delete (Z.to_nat i) (eph_memory c)) = pred (length (eph_memory c))) as Hd'
    by (rewrite length_delete; [lia|by eexists]).
  destruct (reindex_ok (Z.to_nat (max_eph_memory_blocks c - 1 - i)) (Z.to_nat i) (delete (Z.to_nat i) (eph_memory_rmap c))
    (if id =? -1 then eph_memory_set c else delete id (eph_memory_set c))) as (set' & E & Hx').
  { by apply shifted_start. }
  { rewrite Hd. lia. }
  { rewrite Hd. lia. }
  rewrite Z2Nat.id in E by lia. rewrite E. cbn [comp_bind]. eexists _, _. split; [reflexivity|].
  unfold eph_ok, tier, same_main, absent, blocks. simpl. rewrite Hbl, <- list_fmap_delete, length_fmap.
  split_and!; try done; try lia.
  - rewrite list_fmap_delete. apply stored_delete; [rewrite length_fmap; lia|done].
  - destruct (Z.ltb_spec 0 (max_eph_memory_blocks c - 1)); [apply to_int_small; lia|done].
  - intros b Hb. apply (indexes_absent _ _ _ Hx'). intros Hb1 n En.
    destruct (lookup_delete_list _ _ _ _ En) as (m & _ & Em & _). by apply (indexes_none _ _ _ Hx Hb Hb1 m).
  - intros b Hb. apply (indexes_absent _ _ _ Hx'). intros Hb1 n En.
    destruct (lookup_delete_list _ _ _ _ En) as (m & Hmi & Em & _).
    apply Hx in Hb as (_ & Eb & _). by pose proof (indexes_inj _ _ _ _ _ Hx Em Eb Hb1).
Qed.

(** The put into a free slot was cut off: its contents do not matter. *)
Lemma revoke_free c w w' i : eph_ok c w -> 0 <= i < max_eph_memory_blocks c ->
  eph_memory_rmap c !! Z.to_nat i = Some (-1) -> live w' (eph_memory c) ->
  (forall m, m <> Z.to_nat i -> (content w' <$> eph_memory c) !! m = (content w <$> eph_memory c) !! m) ->
  exists c' w2, handle_revoked_ephmem i c w' = Ret (c', w2) /\ eph_ok c' w2 /\ same_main c c' /\
    eph_memory_rmap c' = delete (Z.to_nat i) (eph_memory_rmap c) /\ (forall b, absent b c -> absent b c').
Proof.
  intros ((Hx & Hst & Hm & Hr) & Hmax & Hsel & _) Hi Hh Hlive Hbl.
  destruct (revoke_ok c w' i) as (c' & w2 & E & Hok & Hs & Er & _ & Hab & _); [|done|by exists c', w2].
  unfold eph_ok, tier, blocks in *. rewrite length_fmap in *. split_and!; try done; try lia.
  intros m id Em Hid. rewrite Hbl; [by apply Hst|]. intros ->. congruence.
Qed.

Lemma eph_slot_ok t c w : eph_ok c w -> packed (eph_memory_rmap c) ->
  (max_eph_memory_blocks c = 0 /\ find_eph_slot t c = Ret (inl (-1, c))) \/
  exists i c', find_eph_slot t c = Ret (inl (i, c')) /\ eph_ok c' w /\ same_main c c' /\
    0 <= i < max_eph_memory_blocks c' /\ hole (eph_memory_rmap c') (Z.to_nat i) /\
    (forall b, absent b c -> absent b c').
Proof.
  intros Hok Hp. assert (Hok' := Hok). destruct Hok' as ((Hx & Hst & Hm & Hr) & Hmax & Hsel & Hlive). unfold find_eph_slot.
  destruct (Z.ltb_spec 0 (max_eph_memory_blocks c)) as [H0|H0].
  2: { left. split; [lia|]. by rewrite andb_false_r. }
  right. destruct (tier_size _ _ _ _ (conj Hx (conj Hst (conj Hm Hr))) Hp) as [[Hsz Hfull]|[Hsz Hhole]].
  - rewrite (proj2 (Z.leb_le _ _)) by done. simpl. rewrite Hsel.
    destruct (select_range (max_eph_memory_blocks c - 1) (rand_eph t)) as [Hs1 Hs2]; [lia|].
    set (i := select _ _) in *. destruct (vget_lt (eph_memory_rmap c) i) as (id & Eid & ->); [lia|].
    cbn [comp_bind]. pose proof (proj1 (Forall_lookup _ _) Hfull _ _ Eid) as Hid. simpl in Hid.
    destruct (Z.eqb_spec id (-1)); [done|]. rewrite vset_ok by lia. cbn [comp_bind].
    assert (hole (<[Z.to_nat i := -1]> (eph_memory_rmap c)) (Z.to_nat i)) as Hhole by (apply full_hole; [done|lia]).
    eexists _, _. split; [reflexivity|]. unfold eph_ok, tier, same_main, absent, blocks in *. simpl.
    rewrite length_insert. split_and!; try done; try lia; try apply Hhole.
    + by apply indexes_erase.
    + by apply stored_free.
    + intros b Hb. rewrite lookup_delete_None. by right.
  - destruct (Z.leb_spec (max_eph_memory_blocks c) (Z.of_nat (size (eph_memory_set c)))); [lia|]. simpl.
    eexists _, c. split; [reflexivity|]. rewrite to_int_small, Nat2Z.id by lia. unfold same_main. split_and!; try done; try lia; apply Hhole.
Qed.

Lemma move_ok id mi i c w b : eph_ok c w -> 0 <= i < max_eph_memory_blocks c ->
  hole (eph_memory_rmap c) (Z.to_nat i) -> absent id c -> id <> -1 ->
  0 <= mi -> main_memory c !! Z.to_nat mi = Some b -> is_data id b -> wf_block BLOCK_SIZE b ->
  exists c' w', move_to_eph BLOCK_SIZE id mi i c w = Ret (inl (c', w')) /\ eph_ok c' w' /\
    packed (eph_memory_rmap c') /\ same_main c c' /\
    (forall b, b <> id -> absent b c -> absent b c').
Proof.
  intros Hok Hi (Hh & Hdel & Hins) Ha Hid Hmi Eb Hb Hwf. assert (Hok' := Hok).
  destruct Hok' as ((Hx & Hst & Hm & Hr) & Hmax & Hsel & Hlive). unfold move_to_eph, blocks in *.
  rewrite length_fmap in Hm.
  destruct (Z.eqb_spec i (-1)); [lia|]. destruct (vget_lt (eph_memory c) i) as (h & Eh & ->); [lia|]. cbn [comp_bind].
  rewrite (vget_ok _ _ _ Hmi Eb). cbn [comp_bind].
  destruct (put_blocks w _ _ _ _ Hlive Eh Hwf) as (r & w' & -> & Hlive' & Hbl). cbn [comp_bind].
  destruct r; cbn [answer Z.eqb Pos.eqb].
  - destruct (revoke_free c w w' i) as (c' & w2 & -> & Hok' & Hs & Er & Hab); try done. cbn [comp_bind].
    exists c', w2. split_and!; try done; [by rewrite Er|auto].
  - rewrite !vset_ok by lia. cbn [comp_bind].
    eexists _, _. split; [reflexivity|]. unfold eph_ok, tier, same_main, absent, blocks. simpl. rewrite Hbl, !length_insert.
    rewrite length_fmap. split_and!; try done; try lia.
    + apply indexes_insert; [done|lia|done..].
    + apply stored_insert; [done|rewrite length_fmap; lia|done].
    + by apply Hins.
    + intros b' Hb' Hn. by rewrite lookup_insert_ne.
Qed.

(** The next slot of main memory: the invariant holds but for the hole. *)
Lemma main_slot_ok t c w : inv c w ->
  exists i c' w', find_main_slot BLOCK_SIZE t c w = Ret (inl (i, c', w')) /\ main_ok c' /\ eph_ok c' w' /\ packed (eph_memory_rmap c') /\
    0 <= i < max_main_memory_blocks c' /\ hole (main_memory_rmap c') (Z.to_nat i) /\
    disjoint_sets (main_memory_set c') (eph_memory_set c') /\ block_selector c' = block_selector c /\
    (forall b, main_memory_set c !! b = None -> absent b c -> main_memory_set c' !! b = None /\ absent b c').
Proof.
  intros (Hmok & Hmp & Heok & Hep & Hdis & Hbs). assert (Hm' := Hmok).
  destruct Hm' as ((Hx & Hst & Hm & Hr) & Hmax & Hsel & Hwf). unfold find_main_slot.
  rewrite (proj2 (Z.ltb_lt 0 _)) by lia. rewrite andb_true_r.
  destruct (tier_size _ _ _ _ (conj Hx (conj Hst (conj Hm Hr))) Hmp) as [[Hsz Hfull]|[Hsz Hhole]].
  2: { destruct (Z.leb_spec (max_main_memory_blocks c) (Z.of_nat (size (main_memory_set c)))); [lia|].
       eexists _, c, w. split; [reflexivity|]. rewrite to_int_small, Nat2Z.id by lia. split_and!; try done; try lia; apply Hhole || apply Hep. }
  rewrite (proj2 (Z.leb_le _ _)) by done. rewrite Hsel.
  destruct (select_range (max_main_memory_blocks c - 1) (rand_main t)) as [Hs1 Hs2]; [lia|].
  set (i := select _ _) in *. destruct (vget_lt (main_memory_rmap c) i) as (id & Eid & ->); [lia|].
  cbn [comp_bind]. pose proof (proj1 (Forall_lookup _ _) Hfull _ _ Eid) as Hid. simpl in Hid.
  destruct (Z.eqb_spec id (-1)); [done|].
  destruct (Hst _ _ Eid Hid) as (b & Eb & Hdata).
  assert (main_memory_set c !! id = Some i) as Eset by (apply Hx; done).
  assert (absent id c) as Hab by (destruct (Hdis id); [congruence|done]).
  assert (indexes (delete id (main_memory_set c)) (<[Z.to_nat i := -1]> (main_memory_rmap c))) as Hx1
    by by apply indexes_erase.
  assert (hole (<[Z.to_nat i := -1]> (main_memory_rmap c)) (Z.to_nat i)) as Hh1 by (apply full_hole; [done|lia]).
  assert (forall c1, same_main c c1 -> main_ok (with_main c1 (delete id (main_memory_set c1)) (main_memory c1)
    (<[Z.to_nat i := -1]> (main_memory_rmap c1)))) as Hmok1.
  { intros c1 (E1 & E2 & E3 & E4 & E5 & E6). unfold main_ok, tier. simpl. rewrite E1, E2, E3, E4, E6, length_insert.
    split_and!; try done; try lia. by apply stored_free. }
  destruct (eph_slot_ok t c w Heok Hep) as [[H0 ->]|(ei & c1 & -> & Heok1 & Hs & Hei & Hh & Hab1)]; cbn [comp_bind].
  - rewrite vset_ok by lia. unfold move_to_eph. cbn [comp_bind Z.eqb Pos.eqb]. eexists _, _, _. split; [reflexivity|].
    split; [by apply Hmok1|]. split_and!; try done; simpl; try lia; try apply Hh1.
    + intros b'. simpl. destruct (Hdis b') as [E'|E']; [left|by right]. apply lookup_delete_None. by right.
    + intros b' Hb' Hn. split; [|done]. apply lookup_delete_None. by right.
  - assert (Hs' := Hs). destruct Hs' as (E1 & E2 & E3 & E4 & E5 & E6). rewrite E1, E2, E3, vset_ok by lia. cbn [comp_bind].
    set (c2 := with_main _ _ _ _).
    destruct (move_ok id i ei c2 w b) as (c3 & w3 & -> & Heok3 & Hp3 & Hs3 & Hab3); try done; [by apply Hab1|by apply (Forall_lookup_1 _ _ _ _ Hwf Eb)|].
    cbn [comp_bind]. exists i, c3, w3. split; [reflexivity|].
    assert (main_ok c2) as Hmok2 by (specialize (Hmok1 c1 Hs); by rewrite E1, E2, E3 in Hmok1).
    split; [by eapply main_ok_same|]. destruct Hs3 as (F1 & F2 & F3 & F4 & F5 & F6).
    split; [done|]. split; [done|]. rewrite F1, F3, F4, F5. simpl. rewrite E4, E5.
    split_and!; try done; try lia; try apply Hh1.
    + intros b'. destruct (Z.eq_dec b' id) as [->|Hne]; [left; apply lookup_delete_eq|].
      destruct (Hdis b') as [E'|E']; [left; by rewrite lookup_delete_ne|right]. by apply Hab3, Hab1.
    + intros b' Hb' Hn. split; [apply lookup_delete_None; by right|].
      apply Hab3; [congruence|]. by apply Hab1.
Qed.

Lemma data_sum id b : 0 <= BLOCK_SIZE -> is_data id b -> compute_block_sum b BLOCK_SIZE = id * (BLOCK_SIZE / 4).
Proof.
  intros HB H. unfold compute_block_sum. rewrite H.
  assert (forall n acc, foldl Z.add acc (replicate n id) = acc + id * Z.of_nat n) as Hs.
  { induction n as [|n IH]; intros acc; cbn [replicate foldl]; [|rewrite IH]; lia. }
  rewrite Hs, Z2Nat.id; [lia|]. apply Z.div_pos; lia.
Qed.

Lemma fill_data b id : is_data id (fill_block b BLOCK_SIZE id).
Proof. unfold is_data, fill_block. by rewrite take_app_length' by by rewrite length_replicate. Qed.

Lemma fill_wf b id : wf_block BLOCK_SIZE b -> is_int id -> wf_block BLOCK_SIZE (fill_block b BLOCK_SIZE id).
Proof.
  intros [Hl Hf] Hid. unfold fill_block. rewrite drop_ge, app_nil_r by lia.
  split; [apply length_replicate|by apply Forall_replicate].
Qed.

Lemma read_in_ok t id c w : 0 <= BLOCK_SIZE -> inv c w -> 0 <= id < 2 ^ 31 ->
  main_memory_set c !! id = None -> absent id c ->
  exists c' w', read_in BLOCK_SIZE t id c w = Ret (Access id (id * (BLOCK_SIZE / 4)) Miss c' w') /\ inv c' w' /\
    block_selector c' = block_selector c /\ is_Some (main_memory_set c' !! id).
Proof.
  intros HB Hinv Hid Hm Ha. unfold read_in.
  destruct (main_slot_ok t c w Hinv) as (i & c1 & w1 & -> & Hmok & Heok & Hep & Hi & Hh & Hdis & Hsel & Hab).
  destruct (Hab id Hm Ha) as [Hm1 Ha1]. destruct Hh as (Hh & _ & Hins).
  assert (Hmok' := Hmok). destruct Hmok' as ((Hx & Hst & Hlm & Hlr) & Hmax & Hms & Hwf). cbn [comp_bind].
  destruct (vget_lt (main_memory c1) i) as (b & Eb & ->); [lia|]. assert (id <> -1) by lia. cbn [comp_bind].
  rewrite !vset_ok by lia. cbn [comp_bind]. rewrite (data_sum id) by (done || apply fill_data).
  eexists _, _. split; [reflexivity|]. simpl. split; [|split; [done|rewrite lookup_insert_eq; by eexists]].
  unfold inv, main_ok, tier. simpl. rewrite !length_insert. split_and!; try done; try apply Heok; try lia.
  - apply indexes_insert; [done|lia|done..].
  - apply stored_insert; [done|lia|apply fill_data].
  - apply Forall_insert; [done|]. apply fill_wf; [by apply (Forall_lookup_1 _ _ _ _ Hwf Eb)|unfold is_int; lia].
  - by apply Hins.
  - intros b'. destruct (Z.eq_dec b' id) as [->|Hne]; [by right|]. rewrite lookup_insert_ne by done. apply Hdis.
  - rewrite Hsel. apply Hinv.
  - rewrite Hsel. apply Hinv.
Qed.

(** The contract of one turn. *)
Definition turn_ok (t : turn) (c : cache handle) (v : verdict handle W) : Prop :=
  match v with
  | Exit _ => False
  | Access id sum h c' w' =>
      id = select (block_selector c) (rand_block t) /\ sum = id * (BLOCK_SIZE / 4) /\ inv c' w' /\
      block_selector c' = block_selector c /\ (h = EphHit \/ is_Some (main_memory_set c' !! id))
  end.

(** An occupied slot is revoked. *)
Lemma revoke_inv c w i id : inv c w -> eph_memory_set c !! id = Some i ->
  exists c' w', handle_revoked_ephmem i c w = Ret (c', w') /\ inv c' w' /\ same_main c c' /\
    eph_memory_rmap c' = delete (Z.to_nat i) (eph_memory_rmap c) /\
    max_eph_memory_blocks c' = max_eph_memory_blocks c - 1 /\
    (forall b, absent b c -> absent b c') /\ (forall b, eph_memory_set c !! b = Some i -> absent b c').
Proof.
  intros (Hmok & Hmp & Heok & Hep & Hdis & Hbs) Eid. assert (Heok' := Heok).
  destruct Heok' as ((Hx & _ & _ & Hl) & _). assert (E := Eid). apply Hx in E as (Hi & Er & Hid).
  pose proof (lookup_lt_Some _ _ _ Er).
  destruct (revoke_ok c w i Heok) as (c' & w' & E & Heok1 & Hs & Er1 & Hmax & Hab & Hgone); [lia|].
  exists c', w'. split_and!; try done. assert (Hs' := Hs). destruct Hs' as (E1 & E2 & E3 & E4 & E5 & E6).
  unfold inv. rewrite E1, E3, E5, Er1. split; [by eapply main_ok_same|]. split_and!; try done; try apply Heok1; try lia.
  - by eapply packed_delete.
  - intros b. destruct (Hdis b); [by left|right]. by apply Hab.
Qed.

(** The block is found in ephemeral memory: the attempt reads it, or the
    slot is dropped. *)
Lemma eph_hit_ok c w id i : 0 <= BLOCK_SIZE -> inv c w -> eph_memory_set c !! id = Some i ->
  exists h (revoked : bool) s w', vget (eph_memory c) i = Ret h /\
    eph_attempt h (fun b => compute_block_sum b BLOCK_SIZE) w = Ret (answer revoked, s, w') /\
    if revoked then exists c1 w1, handle_revoked_ephmem i c w' = Ret (c1, w1) /\ inv c1 w1 /\ same_main c c1 /\ absent id c1
    else s = id * (BLOCK_SIZE / 4) /\ inv c w'.
Proof.
  intros HB (Hmok & Hmp & Heok & Hep & Hdis & Hbs) Ee.
  destruct Heok as ((Hx & Hst & Hl & Hl') & Hmax & Hsel & Hlive). unfold blocks in *.
  assert (Ee' := Ee). apply Hx in Ee' as (Hi & Er & Hid).
  destruct (Hst _ _ Er Hid) as (b & Eb & Hb). pose proof (lookup_lt_Some _ _ _ Er).
  rewrite list_lookup_fmap in Eb. destruct (eph_memory c !! Z.to_nat i) as [h|] eqn:Eh; [|done].
  injection Eb as Eb. destruct (attempt_blocks w _ _ _ (fun b => compute_block_sum b BLOCK_SIZE) Hlive Eh)
    as (r & s & w' & E & Hlive' & Hbl & Hs).
  exists h, r, s, w'. split; [by apply vget_ok|]. split; [done|].
  assert (eph_ok c w') as Heok' by (unfold eph_ok, blocks; by rewrite Hbl).
  destruct r; [|split; [rewrite Hs by done; by rewrite Eb, (data_sum id)|by repeat (split; [done|])]].
  destruct (revoke_inv c w' i id) as (c1 & w1 & -> & Hinv1 & Hs' & _ & _ & _ & Hgone);
    [by repeat (split; [done|])|done|]. exists c1, w1. split_and!; try done. by apply Hgone.
Qed.

Lemma step_ok t c w : 0 <= BLOCK_SIZE -> inv c w ->
  exists v, step BLOCK_SIZE t c w = Ret v /\ turn_ok t c v.
Proof.
  intros HB Hinv. assert (Hinv' := Hinv). destruct Hinv' as (Hmok & Hmp & Heok & Hep & Hdis & Hbs).
  unfold step. destruct (select_range (block_selector c) (rand_block t)) as [Hr1 Hr2]; [lia|].
  set (id := select _ _) in *.
  assert (forall c1 w1, inv c1 w1 -> same_main c c1 -> main_memory_set c !! id = None -> absent id c1 ->
    exists v, read_in BLOCK_SIZE t id c1 w1 = Ret v /\ turn_ok t c v) as Hread.
  { intros c1 w1 H1 (H2 & _ & _ & _ & H3 & _) H4 H5.
    destruct (read_in_ok t id c1 w1) as (c2 & w2 & E & H6 & H7 & H8); try done; [lia|congruence|].
    eexists. split; [exact E|]. simpl. split_and!; try done; [congruence|by right]. }
  destruct (main_memory_set c !! id) as [i|] eqn:Em.
  - destruct Hmok as ((Hx & Hst & _ & _) & _ & _). assert (Em' := Em). apply Hx in Em' as (Hi & Er & Hid).
    destruct (Hst _ _ Er Hid) as (b & Eb & Hb). rewrite (vget_ok _ _ _ Hi Eb). cbn [comp_bind].
    rewrite (data_sum id) by done. eexists. split; [reflexivity|]. simpl. split_and!; try done. right. by rewrite Em.
  - destruct (eph_memory_set c !! id) as [i|] eqn:Ee; [|by apply Hread].
    destruct (eph_hit_ok c w id i HB Hinv Ee) as (h & r & s & w' & -> & E & Hr). cbn [comp_bind]. rewrite E.
    cbn [comp_bind]. destruct r; cbn [answer Z.eqb Pos.eqb].
    + destruct Hr as (c1 & w1 & -> & Hinv1 & Hs & Hab). cbn [comp_bind]. by apply Hread.
    + destruct Hr as [-> Hinv']. eexists. split; [reflexivity|]. simpl. split_and!; try done. by left.
Qed.

(** ** Properties *)

(** The main loop over a sequence of turns: the ids and sums of the accesses. *)
Fixpoint run_turns (ts : list turn) (c : cache handle) (w : W) : comp (list (Z * Z) * cache handle * W + Z) :=
  match ts with
  | [] => Ret (inl ([], c, w))
  | t :: ts =>
      let* v := step BLOCK_SIZE t c w in
      match v with
      | Exit code => Ret (inr code)
      | Access id sum _ c w =>
          let* r := run_turns ts c w in
          match r with
          | inr code => Ret (inr code)
          | inl (out, c, w) => Ret (inl ((id, sum) :: out, c, w))
          end
      end
  end.

(** The ids and sums a run over blocks 0 to [hi] has to print. *)
Definition expected (hi : Z) (ts : list turn) : list (Z * Z) :=
  map (fun t => let id := select hi (rand_block t) in (id, id * (BLOCK_SIZE / 4))) ts.

Lemma run_turns_ok ts : forall c w, 0 <= BLOCK_SIZE -> inv c w ->
  exists c' w', run_turns ts c w = Ret (inl (expected (block_selector c) ts, c', w')) /\ inv c' w'.
Proof.
  induction ts as [|t ts IH]; intros c w HB Hinv; cbn [run_turns]; [by exists c, w|].
  destruct (step_ok t c w HB Hinv) as (v & -> & Hv). cbn [comp_bind]. destruct v as [|id sum h c1 w1]; [done|].
  destruct Hv as (-> & -> & Hinv1 & Hsel & _).
  destruct (IH c1 w1 HB Hinv1) as (c2 & w2 & -> & Hinv2). cbn [comp_bind].
  exists c2, w2. by rewrite Hsel.
Qed.

Lemma alloc_handles_live n : forall hs w hs' w', live w hs -> alloc_handles BLOCK_SIZE n hs w = (Some hs', w') ->
  live w' hs' /\ length hs' = (length hs + n)%nat.
Proof.
  induction n as [|n IH]; intros hs w hs' w' Hl E; cbn [alloc_handles] in E.
  - injection E as <- <-. by rewrite Nat.add_0_r.
  - destruct (eph_alloc BLOCK_SIZE w) as [[h|] w1] eqn:Ea; [|done].
    apply IH in E as [Hl' Hn]; [|by eapply live_alloc]. split; [done|]. rewrite Hn, length_app. simpl. lia.
Qed.

Lemma setup_inv total max_main max_eph reserved mmap_ok w c w' : 0 < BLOCK_SIZE ->
  0 <= total <= 2 ^ 31 -> 0 <= max_main -> 0 <= max_eph -> max_main + max_eph < 2 ^ 64 ->
  (forall n, 0 <= reserved n) -> live w [] ->
  setup BLOCK_SIZE total max_main max_eph reserved mmap_ok w = inl (c, w') ->
  inv c w' /\ block_selector c = total - 1.
Proof.
  intros HB Ht Hm He Hsum Hres Hlive. unfold setup. destruct (Z.eqb_spec total 0), (Z.eqb_spec max_main 0); try done. simpl.
  rewrite (wrapu_small _ (max_main + max_eph)) by lia.
  destruct (Z.ltb_spec total (max_main + max_eph)); [done|]. set (nb := reserved _ / BLOCK_SIZE).
  assert (0 <= nb) as Hn by (apply Z.div_pos; [apply Hres|done]).
  set (me := if 0 <? max_eph then _ else _).
  assert (0 <= me <= max_eph) as Hme.
  { unfold me. destruct (Z.ltb_spec 0 max_eph); [|lia]. destruct (Z.ltb_spec nb max_eph); lia. }
  clearbody me. destruct mmap_ok; [|done]. simpl.
  destruct (alloc_handles BLOCK_SIZE (Z.to_nat me) [] w) as [[hs|] w1] eqn:Ea; [|done]. intros [= <- <-].
  apply alloc_handles_live in Ea as [Hl Hlen]; [|done]. simpl in Hlen.
  assert (forall k, indexes ∅ (replicate k (-1))) as Hx.
  { intros k b i. rewrite lookup_empty. split; [done|]. intros (_ & E & Hb). by apply lookup_replicate in E as [-> _]. }
  assert (forall k mem, stored (replicate k (-1)) mem) as Hst.
  { intros k mem j b E Hb. by apply lookup_replicate in E as [-> _]. }
  assert (forall k, packed (replicate k (-1))) as Hp by (intros k; exists [], k; split; [done|constructor]).
  unfold inv, main_ok, eph_ok, tier, blocks. simpl.
  rewrite length_fmap, Hlen, !length_replicate, !Z2Nat.id, (to_int_small (max_main - 1)), (to_int_small (total - 1)) by lia.
  split_and!; try done; try lia.
  - apply Forall_replicate. split; [apply length_replicate|]. apply Forall_replicate. unfold is_int. lia.
  - destruct (Z.ltb_spec 0 me); [apply to_int_small; lia|done].
  - intros b. by left.
Qed.

(** C6: coherence of the cache. Let the blocks have a positive size, let
    there be at most 2^31 of them ([0 <= total <= 2^31]; with more the bound
    of the random draws wraps around) and let the two memories have
    non-negative numbers of slots whose sum is below 2^64 (beyond it the
    check of the sizes in [setup] wraps around); no reservation is negative and
    nothing is allocated. From a successful start within these bounds, for
    every sequence of random draws and over every ephemeral memory that
    keeps the contract of [EphStore], whatever is revoked and whenever, the
    program runs on: no vector is accessed out of range, none of its "should
    not happen" exits is taken, and every access returns the sum of the
    block asked for, whether it was in main memory, in ephemeral memory or
    had to be read. *)
Theorem cache_coherent total max_main max_eph reserved mmap_ok w c w' ts : 0 < BLOCK_SIZE ->
  0 <= total <= 2 ^ 31 -> 0 <= max_main -> 0 <= max_eph -> max_main + max_eph < 2 ^ 64 ->
  (forall n, 0 <= reserved n) -> live w [] ->
  setup BLOCK_SIZE total max_main max_eph reserved mmap_ok w = inl (c, w') ->
  exists c2 w2, run_turns ts c w' = Ret (inl (expected (total - 1) ts, c2, w2)).
Proof.
  intros HB Ht Hm He Hsum Hres Hl Hs.
  destruct (setup_inv _ _ _ _ _ _ _ _ HB Ht Hm He Hsum Hres Hl Hs) as [Hinv Hsel].
  destruct (run_turns_ok ts c w' ltac:(lia) Hinv) as (c2 & w2 & E & _). exists c2, w2. by rewrite E, Hsel.
Qed.

(** C39: every turn preserves the invariant of the cache (the maps and the
    reverse maps are inverse to each other, occupied slots come first, every
    slot holds the data of its block, no block is in both memories) and
    leaves the block it accessed in main memory unless it was read from
    ephemeral memory. *)
Theorem step_preserves_inv t c w : 0 <= BLOCK_SIZE -> inv c w ->
  exists v, step BLOCK_SIZE t c w = Ret v /\ turn_ok t c v.
Proof. apply step_ok. Qed.

(** A revocation drops the revoked slot and nothing else: the block in
    it is forgotten, every other block is still cached, at an index that
    holds its data, and the eviction selector matches the new size. *)
Theorem revoke_drops_one_slot c w i id : inv c w -> eph_memory_set c !! id = Some i ->
  exists c' w', handle_revoked_ephmem i c w = Ret (c', w') /\ inv c' w' /\ same_main c c' /\
    max_eph_memory_blocks c' = max_eph_memory_blocks c - 1 /\
    forall b, is_Some (eph_memory_set c' !! b) <-> b <> id /\ is_Some (eph_memory_set c !! b).
Proof.
  intros Hinv Eid. destruct (revoke_inv c w i id Hinv Eid) as (c' & w' & E & Hinv1 & Hs & Er1 & Hmax & Hab & Hgone).
  destruct Hinv as (_ & _ & ((Hx & _ & _ & Hl) & _) & _). assert (E' := Eid). apply Hx in E' as (Hi & Er & Hid).
  exists c', w'. split; [done|]. split; [done|]. destruct Hinv1 as (_ & _ & Heok1 & _).
  split; [done|]. split; [done|]. intros b. split.
  - intros Hb. split; [intros ->; rewrite Hgone in Hb by done; by destruct Hb|].
    apply not_eq_None_Some. intros Hn. rewrite Hab in Hb by done. by destruct Hb.
  - intros (Hne & j & Ej). apply Hx in Ej as (Hj & Ej & Hb). destruct Heok1 as ((Hx1 & _) & _).
    assert (Z.to_nat j <> Z.to_nat i) by (intros Eq; rewrite Eq, Er in Ej; congruence).
    destruct (Nat.lt_ge_cases (Z.to_nat j) (Z.to_nat i)).
    + exists (Z.of_nat (Z.to_nat j)). eapply indexes_nat; [done| |done].
      by rewrite Er1, list_lookup_delete_lt.
    + exists (Z.of_nat (pred (Z.to_nat j))). eapply indexes_nat; [done| |done].
      rewrite Er1, list_lookup_delete_ge by lia. by replace (S (pred (Z.to_nat j))) with (Z.to_nat j) by lia.
Qed.
End Invariant.

(** The accesses and times by kind of memory add up to the recent totals. *)
Definition balanced (s : stats) : Prop :=
  recent_accesses s = wrapu 64 (main_mem_accesses s + eph_mem_accesses s + miss_accesses s) /\
  recent_time_us s = wrapu 64 (main_mem_hit_time s + eph_mem_hit_time s + miss_time s).

Definition stats_init : stats := mk_stats 0 0 0 0 0 0 0 0 0 0.

Lemma wrapu_add w a b : wrapu w (wrapu w a + b) = wrapu w (a + b).
Proof. apply Zplus_mod_idemp_l. Qed.

Lemma wrapu_add_term w a b x y : x = a + b -> wrapu w (wrapu w (a + y) + b) = wrapu w (x + y).
Proof. intros ->. rewrite wrapu_add. f_equal. lia. Qed.

Lemma time_keeping_balanced d h due s : balanced s -> balanced (time_keeping d h due s).
Proof.
  unfold balanced, time_keeping, add64. intros [E1 E2]. destruct due; simpl; [done|]. rewrite E1, E2, !wrapu_add.
  destruct h; simpl; split; symmetry.
  1,2: rewrite <- !Z.add_assoc; rewrite (wrapu_add_term _ _ _ _ _ eq_refl); f_equal; lia.
  1,2: rewrite (Z.add_comm (_ s) (wrapu _ _)), <- Z.add_assoc, (wrapu_add_term _ _ _ _ _ eq_refl); f_equal; lia.
  1,2: rewrite Z.add_comm, (wrapu_add_term _ _ _ _ _ eq_refl); f_equal; lia.
Qed.

(** The statistics balance after every sequence of turns: accesses and
    times by kind of memory add up to the recent totals, counters that wrap
    around and the periodic reset included. *)
Theorem stats_balanced (turns : list (Z * hit * bool)) :
  balanced (foldl (fun s '(d, h, due) => time_keeping d h due s) stats_init turns).
Proof.
  assert (balanced stats_init) as H by done. revert H. generalize stats_init.
  induction turns as [|[[d h] due] turns IH]; intros s H; [done|]. simpl. by apply IH, time_keeping_balanced.
Qed.


(** ** Examples *)

(** Ephemeral memory that answers the attempts from a script. *)
Definition ex_world (l : list bool) : script := mk_script l 0 ∅.

(** Blocks of four ints, two in main memory and two in ephemeral memory. *)
Definition ex_start (l : list bool) : cache nat * script :=
  match setup 16 8 2 2 (fun n => n) true (ex_world l) with
  | inl r => r
  | inr _ => (mk_cache ∅ [] [] 0 ∅ [] [] 0 0 0 0, ex_world l)
  end.

(** Blocks 0 to 4 are read, block 1 is found in ephemeral memory, and the
    memory of block 2 is revoked. *)
Definition ex_turns : list turn :=
  [mk_turn 0 0 0 5 false; mk_turn 1 0 0 5 false; mk_turn 2 1 0 5 false; mk_turn 3 1 0 5 false;
   mk_turn 1 0 0 1 false; mk_turn 2 0 0 5 false; mk_turn 4 1 0 5 true].

(** Two puts and an attempt succeed, an attempt and a put are cut off. *)
Definition ex_answers : list bool := [false; false; false; true; true].

Lemma ex_live l : live (size:=16) (ex_world l) [].
Proof. split; constructor. Qed.

Example run_ex_turns :
  match run_turns 16 ex_turns (ex_start ex_answers).1 (ex_start ex_answers).2 with
  | Ret (inl (out, c, _)) =>
      out = [(0, 0); (1, 4); (2, 8); (3, 12); (1, 4); (2, 8); (4, 16)] /\ max_eph_memory_blocks c = 0
  | _ => False
  end.
Proof. vm_compute. split; reflexivity. Qed.

Lemma cache_coherent_witness :
  exists c2 w2, run_turns 16 ex_turns (ex_start ex_answers).1 (ex_start ex_answers).2 =
    Ret (inl (expected 16 7 ex_turns, c2, w2)).
Proof.
  apply (cache_coherent 16 8 2 2 (fun n => Z.max 0 n) true (ex_world ex_answers)); try lia.
  - apply ex_live.
  - vm_compute. reflexivity.
Defined.

Lemma ex_inv l : inv 16 (ex_start l).1 (ex_start l).2.
Proof.
  apply (setup_inv 16 8 2 2 (fun n => Z.max 0 n) true (ex_world l)); try lia; [apply ex_live|]. reflexivity.
Qed.

Lemma step_preserves_inv_witness :
  exists v, step 16 (mk_turn 5 0 0 1 false) (ex_start []).1 (ex_start []).2 = Ret v /\
    turn_ok 16 (mk_turn 5 0 0 1 false) (ex_start []).1 v.
Proof. apply (step_preserves_inv 16 (mk_turn 5 0 0 1 false)); [lia|apply ex_inv]. Defined.

(** The cache after a block moved to ephemeral memory. *)
Definition ex_cache3 : cache nat * script :=
  match run_turns 16 (take 3 ex_turns) (ex_start []).1 (ex_start []).2 with
  | Ret (inl (_, c, w)) => (c, w)
  | _ => ex_start []
  end.

Lemma ex_inv3 : inv 16 ex_cache3.1 ex_cache3.2.
Proof.
  destruct (run_turns_ok 16 (take 3 ex_turns) (ex_start []).1 (ex_start []).2) as (c & w & E & Hinv);
    [lia|apply ex_inv|]. unfold ex_cache3. rewrite E. exact Hinv.
Qed.

Lemma revoke_drops_one_slot_witness :
  exists c' w', handle_revoked_ephmem 0 ex_cache3.1 ex_cache3.2 = Ret (c', w') /\ inv 16 c' w' /\
    max_eph_memory_blocks c' = 1.
Proof.
  destruct (revoke_drops_one_slot 16 ex_cache3.1 ex_cache3.2 0 1 ex_inv3) as (c' & w' & E & Hinv & _ & Hm & _).
  - vm_compute. reflexivity.
  - exists c', w'. split; [exact E|]. split; [exact Hinv|]. rewrite Hm. vm_compute. reflexivity.
Defined.

(** The check of the arguments is made on [unsigned long], where the sum
    wraps around: here it lets pass a cache with more slots than blocks. *)
Example setup_check_wraps :
  match setup 16 1 2 (2 ^ 64 - 1) (fun _ => 0) true (ex_world []) with
  | inl (c, _) => max_main_memory_blocks c = 2 /\ block_selector c = 0
  | inr _ => False
  end.
Proof. vm_compute. split; reflexivity. Qed.

(** A number of blocks over 2^31 turns into a negative bound of the draws. *)
Example setup_narrows_blocks :
  match setup 16 (2 ^ 31 + 1) 2 0 (fun _ => 0) true (ex_world []) with
  | inl (c, _) => block_selector c = - 2 ^ 31
  | inr _ => False
  end.
Proof. vm_compute. reflexivity. Qed.
