(* ===== verification/EphThread.v ===== *)
(** Ephemeral memory as the library provides it: the interface [EphStore]
    implemented by [libephmem_alloc], [libephmem_attempt], [libephmem_put] and
    [libephmem_free], run on a thread whose memory is revoked at any access;
    and the cache of [BlockCache] on top of it.

    The library is initialised.  The program's variables [sum] and
    [attempt_result] are cells of the main memory of the thread. *)
From S2P Require Import Prelude EphInit EphHandle EphAttempt EphStore BlockCache.

(** ** Ints in memory *)

Definition int_bytes (v : Z) : bytes :=
  let u := wrapu 32 v in [u mod 256; u / 256 mod 256; u / 65536 mod 256; u / 16777216].

Definition int_of_bytes (b0 b1 b2 b3 : Z) : Z := to_signed 32 (b0 + 256 * b1 + 65536 * b2 + 16777216 * b3).

Definition load_int (x : Z) (k : Z -> prog) : prog :=
  Load x (fun b0 => Load (x + 1) (fun b1 => Load (x + 2) (fun b2 => Load (x + 3) (fun b3 =>
    k (int_of_bytes b0 b1 b2 b3))))).

(** The loop over the ints of a block. *)
Fixpoint read_ints (x : Z) (n : nat) (k : block -> prog) : prog :=
  match n with
  | O => k []
  | S n => load_int x (fun v => read_ints (x + 4) n (fun b => k (v :: b)))
  end.

Definition int_at (m : gmap Z Z) (x : Z) : Z :=
  int_of_bytes (read m x) (read m (x + 1)) (read m (x + 2)) (read m (x + 3)).

Fixpoint ints_at (m : gmap Z Z) (x : Z) (n : nat) : block :=
  match n with
  | O => []
  | S n => int_at m x :: ints_at m (x + 4) n
  end.

Lemma int_of_int_bytes v : is_int v -> 
  match int_bytes v with [b0; b1; b2; b3] => int_of_bytes b0 b1 b2 b3 = v | _ => False end.
Proof.
  intros Hv. unfold int_bytes, int_of_bytes. set (u := wrapu 32 v).
  assert (0 <= u < 2 ^ 32) by (apply wrapu_range; lia).
  replace (_ + _ + _ + _) with u by dlia. unfold to_signed. rewrite (wrapu_small 32 u) by done.
  unfold u, wrapu, is_int in *. zcases; dlia.
Qed.

(** ** The world of a program *)

Definition sum_var : Z := 0.
Definition attempt_result_var : Z := 8.

(** The thread, the resources of the process and the answers to the
    allocations to come. *)
Record world := mk_world {
  thr : thread;
  proc : process;
  files : list file_answers
}.

Definition with_thr (w : world) (t : thread) : world := mk_world t (proc w) (files w).

(** How a call that was run to its end looks to the program. *)
Definition observe (w : world) (o : outcome) : comp (Z * world) :=
  match o with
  | Finished t => Ret (read (local t) attempt_result_var, with_thr w t)
  | Jumped _ => Throw undefined_behaviour
  | Killed _ => Throw killed
  end.

(** Fresh memory is zero. *)
Fixpoint zero_range (m : gmap Z Z) (x : Z) (n : nat) : gmap Z Z :=
  match n with
  | O => m
  | S n => zero_range (delete x m) (x + 1) n
  end.

Section Thread.
Variable g : globals.
Abbreviation using_pkeys := (libephmem_using_pkey g).

Definition sum_attempt (h : libephmem_handle) (fn : block -> Z) : prog :=
  Attempt (Some h) (Some (fun ptr size =>
    read_ints ptr (Z.to_nat (size / 4)) (fun b => Local sum_var (fn b) Done)))
    (fun r => Local attempt_result_var r Done).

Definition thread_attempt (h : libephmem_handle) (fn : block -> Z) (w : world) : comp (Z * Z * world) :=
  let* '(r, w) := observe w (run using_pkeys (sum_attempt h fn) (thr w)) in
  Ret (r, read (local (thr w)) sum_var, w).

Definition thread_put (b : block) (h : libephmem_handle) (len : Z) (w : world) : comp (Z * world) :=
  observe w (call using_pkeys
    (libephmem_put (flat_map int_bytes (take (Z.to_nat (len / 4)) b)) (Some h) 0 (fun r => Local attempt_result_var r Done))
    (thr w)).

Definition thread_alloc (size : Z) (w : world) : option libephmem_handle * world :=
  match files w with
  | [] => (None, w)
  | fa :: fs =>
      let '(h, p) := alloc g fa size (proc w) in
      let t := match h with
        | Some h => with_memory (thr w) (zero_range (memory (thr w)) (handle_ptr h) (Z.to_nat size))
        | None => thr w
        end in
      (h, mk_world t p fs)
  end.

Definition thread_free (h : libephmem_handle) (w : world) : world :=
  mk_world (thr w) (libephmem_free (Some h) (proc w)) (files w).

#[local] Instance thread_ops : EphOps libephmem_handle world := {
  eph_alloc := thread_alloc;
  eph_attempt := thread_attempt;
  eph_put := thread_put;
  eph_free := thread_free
}.

(** ** Reading in an attempt *)

(** From [t] to [t'] memory was only read; the last read was cut off if [r]. *)
Definition quiet (h : libephmem_handle) (r : bool) (t t' : thread) : Prop :=
  inside using_pkeys h t' /\ consumed r t t' /\ memory t' = memory t /\ local t' = local t.

Lemma quiet_trans h r t t1 t2 : quiet h false t t1 -> quiet h r t1 t2 -> quiet h r t t2.
Proof.
  intros (_ & H1 & H2 & H3) (H4 & H5 & H6 & H7). split_and!; [done| |congruence..]. by eapply consumed_trans.
Qed.

Lemma load_quiet h x k t : inside using_pkeys h t -> addr_in_range x h = true ->
  exists (r : bool) t', run using_pkeys (Load x k) t =
      (if r then Jumped t' else run using_pkeys (k (read (memory t) x)) t') /\ quiet h r t t'.
Proof.
  intros Hin Hx. cbn [run].
  destruct (access_inside _ h x t (fun t => run using_pkeys (k (read (memory t) x)) t) Hin Hx)
    as [(t1 & -> & Hi & Hc & Hm & Hl)|(t1 & -> & Hi & Hc & Hm & Hl)].
  - exists false, t1. unfold quiet. split_and!; try done. by rewrite Hm.
  - exists true, t1. unfold quiet. by split_and!.
Qed.

(** One load, then the rest of the program [IH]. *)
Lemma load_then h x k t q m : inside using_pkeys h t -> addr_in_range x h = true -> memory t = m ->
  (forall t1, inside using_pkeys h t1 -> memory t1 = m ->
    exists (r : bool) t', run using_pkeys (k (read m x)) t1 = (if r then Jumped t' else q t') /\ quiet h r t1 t') ->
  exists (r : bool) t', run using_pkeys (Load x k) t = (if r then Jumped t' else q t') /\ quiet h r t t'.
Proof.
  intros Hin Hx Hm HI. destruct (load_quiet h x k t Hin Hx) as (r & t1 & -> & Hq).
  destruct r; [by exists true, t1|]. destruct (HI t1) as (r & t2 & E & Hq2); [apply Hq|by rewrite <- Hm; apply Hq|].
  exists r, t2. rewrite Hm, E. split; [done|]. by eapply quiet_trans.
Qed.

Lemma read_ints_quiet h m n : forall x k t, inside using_pkeys h t -> memory t = m ->
  (forall i, 0 <= i < 4 * Z.of_nat n -> addr_in_range (x + i) h = true) ->
  exists (r : bool) t', run using_pkeys (read_ints x n k) t =
      (if r then Jumped t' else run using_pkeys (k (ints_at m x n)) t') /\ quiet h r t t'.
Proof.
  induction n as [|n IH]; intros x k t Hin Hm Hx.
  - exists false, t. unfold quiet. split_and!; auto using consumed_refl.
  - cbn [read_ints]. unfold load_int.
    assert (addr_in_range x h = true) by (rewrite <- (Z.add_0_r x); apply Hx; lia).
    do 4 (apply (load_then h _ _ _ _ m); [done|first [done|apply Hx; lia]|done|]; clear t Hin Hm; intros t Hin Hm).
    apply (IH (x + 4) (fun b => k (int_at m x :: b)) t Hin Hm).
    intros i Hi. rewrite <- Z.add_assoc. apply Hx. lia.
Qed.

(** ** The calls *)

Variable size : Z.
Hypothesis Hsize : 0 <= size /\ size mod 4 = 0.

(** Allocations apart from each other. *)
Definition apart (x y : Z) : Prop := x + size <= y \/ y + size <= x.

Fixpoint spread (l : list Z) : Prop :=
  match l with
  | [] => True
  | x :: l => Forall (apart x) l /\ spread l
  end.

Definition addresses (w : world) (hs : list libephmem_handle) : list Z :=
  map handle_ptr hs ++ filter (fun x => x <> -1) (map mmap_answer (files w)).

Definition thread_live (w : world) (hs : list libephmem_handle) : Prop :=
  idle using_pkeys (thr w) /\ Forall (fun h => handle_size h = size) hs /\
  spread (addresses w hs) /\ Forall (fun x => 0 <= x /\ x + size < 2 ^ 64) (addresses w hs).

Definition thread_content (w : world) (h : libephmem_handle) : block :=
  ints_at (memory (thr w)) (handle_ptr h) (Z.to_nat (size / 4)).

Lemma spread_delete l : forall i, spread l -> spread (delete i l).
Proof.
  induction l as [|x l IH]; intros [|i]; simpl; try done; [by intros [_ ?]|].
  intros [Hf Hs]. split; [by apply Forall_delete|by apply IH].
Qed.

Lemma spread_lookup l : forall i j x y, spread l -> l !! i = Some x -> l !! j = Some y -> i <> j -> apart x y.
Proof.
  induction l as [|z l IH]; intros i j x y; [done|]. intros [Hf Hs] Ei Ej Hij. rewrite Forall_lookup in Hf.
  destruct i as [|i], j as [|j]; simplify_eq/=.
  - by eapply Hf.
  - destruct (Hf _ _ Ei); [by right|by left].
  - eapply (IH i j); [done..|lia].
Qed.

Lemma ints_at_ext m m' n : forall x, (forall i, 0 <= i < 4 * Z.of_nat n -> m !! (x + i) = m' !! (x + i)) ->
  ints_at m x n = ints_at m' x n.
Proof.
  induction n as [|n IH]; intros x Hm; [done|]. simpl. f_equal.
  - unfold int_at, read. rewrite <- !Hm by lia. rewrite <- (Z.add_0_r x) at 1 5. by rewrite Hm by lia.
  - apply IH. intros i Hi. rewrite <- Z.add_assoc. apply Hm. lia.
Qed.

Lemma thread_wf w hs h : thread_live w hs -> h ∈ hs -> wf_handle h /\ handle_size h = size.
Proof.
  intros (_ & Hs & _ & Ha) Hh. rewrite Forall_forall in Hs. rewrite Forall_forall in Ha. specialize (Hs _ Hh).
  split; [|done]. unfold wf_handle. rewrite Hs. destruct (Ha (handle_ptr h)); [|lia].
  apply elem_of_app. left. by apply list_elem_of_fmap_2.
Qed.

(** Bytes outside of the other allocations do not matter to a handle. *)
Lemma content_frame w w' hs i j h h' : thread_live w hs -> hs !! i = Some h -> hs !! j = Some h' -> j <> i ->
  (forall x, ~ in_alloc h x -> memory (thr w') !! x = memory (thr w) !! x) ->
  thread_content w' h' = thread_content w h'.
Proof.
  intros Hl Ei Ej Hij Hm. unfold thread_content. apply ints_at_ext. intros x Hx. apply Hm. unfold in_alloc.
  destruct (thread_wf w hs h Hl) as [_ Hs]; [by eapply list_elem_of_lookup_2|].
  destruct Hl as (_ & _ & Hsp & _). assert (apart (handle_ptr h') (handle_ptr h)) as Ha.
  { eapply (spread_lookup _ j i); [exact Hsp|apply lookup_app_l_Some; by rewrite list_lookup_fmap, ?Ej, ?Ei..|done]. }
  rewrite Hs. assert (4 * Z.of_nat (Z.to_nat (size / 4)) = size) as E by dlia. rewrite E in Hx.
  unfold apart in Ha. lia.
Qed.

(** What the calls do to the thread. *)
Lemma attempt_run w hs h fn : thread_live w hs -> h ∈ hs ->
  exists (revoked : bool) t', run using_pkeys (sum_attempt h fn) (thr w) =
      Finished (with_local t' (<[attempt_result_var := answer revoked]> (local t'))) /\
    idle using_pkeys t' /\ memory t' = memory (thr w) /\
    (revoked = false -> local t' !! sum_var = Some (fn (thread_content w h))).
Proof.
  intros Hl Hh. destruct (thread_wf w hs h Hl Hh) as [Hw Hs]. destruct Hl as (Hi & _).
  destruct (enter_inside using_pkeys h (thr w) Hi) as (Hin & _ & Hm & _).
  set (body := fun ptr sz t => run using_pkeys
    (read_ints ptr (Z.to_nat (sz / 4)) (fun b => Local sum_var (fn b) Done)) t).
  change (run using_pkeys (sum_attempt h fn) (thr w)) with (libephmem_attempt using_pkeys (Some h) (Some body) (thr w)
    (fun r t => run using_pkeys (Local attempt_result_var r Done) t)).
  destruct (read_ints_quiet h (memory (thr w)) (Z.to_nat (size / 4)) (handle_ptr h)
    (fun b => Local sum_var (fn b) Done) _ Hin Hm) as (r & t1 & E & Hin1 & Hc & Hm1 & Hl1).
  { intros i Hi'. apply in_handle; [done|]. unfold in_alloc. rewrite Hs. dlia. }
  rewrite <- Hs in E at 1. cbn [run] in E.
  set (t2 := if r then t1 else with_local t1 (<[sum_var := fn (thread_content w h)]> (local t1))).
  assert (body (handle_ptr h) (handle_size h) (enter using_pkeys h (thr w)) = if r then Jumped t2 else Finished t2) as E2
    by (unfold body, t2; rewrite E; by destruct r).
  destruct (attempt_spec using_pkeys h body (thr w) (fun r t => run using_pkeys (Local attempt_result_var r Done) t) Hi)
    as (r' & t1' & E1 & Hin2 & _ & Hi' & _ & Ea).
  { exists r, t2. split_and!; [done|by destruct r|by destruct r|]. intros x _. unfold t2. destruct r; simpl; by rewrite Hm1. }
  rewrite E2 in E1. assert (r' = r /\ t1' = t2) as [-> ->] by (destruct r, r'; naive_solver).
  exists r, (leave using_pkeys t2). rewrite Ea. destruct (leave_idle using_pkeys h t2 Hin2) as (_ & _ & Hm2 & Hl2).
  split_and!; try done.
  - rewrite Hm2. unfold t2. destruct r; simpl; by rewrite Hm1, Hm.
  - intros ->. rewrite Hl2. unfold t2. simpl. by rewrite lookup_insert_eq.
Qed.

Lemma ints_at_write b : forall m x, Forall is_int b -> ints_at (write_range m x (flat_map int_bytes b)) x (length b) = b.
Proof.
  induction b as [|v b IH]; intros m x Hb; [done|]. apply Forall_cons in Hb as [Hv Hb].
  cbn [flat_map int_bytes app write_range length ints_at]. f_equal.
  - unfold int_at, read. rewrite !write_range_before by lia.
    rewrite lookup_insert_ne, lookup_insert_ne, lookup_insert_ne, lookup_insert_eq by lia.
    rewrite lookup_insert_ne, lookup_insert_ne, lookup_insert_eq by lia.
    replace (x + 2) with (x + 1 + 1) by lia. rewrite lookup_insert_ne, lookup_insert_eq by lia.
    replace (x + 3) with (x + 1 + 1 + 1) by lia. rewrite lookup_insert_eq. apply (int_of_int_bytes v Hv).
  - replace (x + 4) with (x + 1 + 1 + 1 + 1) by lia. by apply IH.
Qed.

Lemma length_int_bytes b : length (flat_map int_bytes b) = (4 * length b)%nat.
Proof. induction b as [|v b IH]; [done|]. cbn [flat_map]. rewrite length_app, IH. simpl. lia. Qed.

Lemma thread_put_spec w hs i h b : thread_live w hs -> hs !! i = Some h -> wf_block size b ->
  exists (revoked : bool) t', thread_put b h size w = Ret (answer revoked, with_thr w t') /\
    idle using_pkeys t' /\ (forall x, ~ in_alloc h x -> memory t' !! x = memory (thr w) !! x) /\
    (revoked = false -> thread_content (with_thr w t') h = b).
Proof.
  intros Hl Ei [Hlen Hb]. assert (h ∈ hs) as Hh by by eapply list_elem_of_lookup_2.
  destruct (thread_wf w hs h Hl Hh) as [Hw Hs]. destruct Hl as (Hi & _). unfold thread_put.
  rewrite take_ge by lia. assert (fits h 0 (Z.of_nat (length (flat_map int_bytes b)))) as Hf.
  { split; [lia|]. rewrite length_int_bytes, Hlen, Hs. dlia. }
  destruct (put_run using_pkeys (flat_map int_bytes b) h 0 (fun r => Local attempt_result_var r Done) (thr w) Hi Hw Hf)
    as (r & n & t1 & E & Hi1 & _ & Hl1 & Hm1 & Hn).
  rewrite E. cbn [run observe]. exists r. eexists. split.
  { unfold with_local, EphAttempt.read. cbn [local]. rewrite lookup_insert_eq. reflexivity. }
  split; [done|]. rewrite Z.add_0_r in Hm1. split.
  - intros x Hx. cbn [memory]. rewrite Hm1, <- (Z.add_0_r (handle_ptr h)). apply range_frame; [|done].
    destruct Hf. rewrite length_take. split; lia.
  - intros ->. unfold copied in Hn. unfold thread_content. cbn [thr with_thr memory]. rewrite Hm1, Hn, firstn_all.
    rewrite <- Hlen. by apply ints_at_write.
Qed.

Lemma addresses_delete w hs i h p : hs !! i = Some h ->
  addresses (mk_world (thr w) p (files w)) (delete i hs) = delete i (addresses w hs).
Proof.
  intros E. unfold addresses. cbn [files]. rewrite delete_app_l by (rewrite length_map; by eapply lookup_lt_Some).
  f_equal. apply list_fmap_delete.
Qed.

Lemma alloc_some fa p h p' : alloc g fa size p = (Some h, p') ->
  handle_ptr h = mmap_answer fa /\ handle_size h = size /\ mmap_answer fa <> -1.
Proof.
  unfold alloc, libephmem_create_file. destruct (negb _); [done|].
  destruct (Z.eqb_spec (open_answer fa) (-1)); [done|]. destruct (negb (ftruncate_answer fa)); [done|].
  destruct (Z.eqb_spec (mmap_answer fa) (-1)); [done|].
  destruct using_pkeys; [destruct (pkey_mprotect_answer fa)|]; by intros [= <- _].
Qed.

(** The attempt contexts keep the contract of ephemeral memory. *)
#[local] Instance thread_store : @EphStore size libephmem_handle world thread_ops.
Proof using Hsize.
  refine {| live := thread_live; content := thread_content |}.
  - intros w hs h w' (Hi & Hs & Hsp & Ha) E. simpl in E. unfold thread_alloc in E.
    destruct (files w) as [|fa fs] eqn:Ef; [done|].
    destruct (alloc g fa size (proc w)) as [o p] eqn:Eal. destruct o as [h'|]; [|done]. injection E as <- <-.
    destruct (alloc_some _ _ _ _ Eal) as (Ep & Es & Hne).
    assert (addresses (mk_world (with_memory (thr w) (zero_range (memory (thr w)) (handle_ptr h') (Z.to_nat size))) p fs) (hs ++ [h'])
      = addresses w hs) as Eq.
    { unfold addresses. cbn [files]. rewrite Ef, map_app, <- app_assoc. cbn [map].
      rewrite filter_cons_True by done. by rewrite Ep. }
    unfold thread_live. rewrite Eq. split; [done|]. split; [|done]. apply Forall_app. by repeat constructor.
  - intros w hs h fn Hl Hh. destruct (attempt_run w hs h fn Hl Hh) as (r & t' & E & Hi & Hm & Hs).
    exists r. simpl. unfold thread_attempt. rewrite E. cbn [observe comp_bind].
    unfold with_local at 1, EphAttempt.read at 1. cbn [local]. rewrite lookup_insert_eq. cbn [default].
    eexists _, _. split; [reflexivity|]. destruct Hl as (_ & Hl). split; [by split|split].
    + intros h' _. unfold thread_content. simpl. by rewrite Hm.
    + intros ->. unfold EphAttempt.read. simpl. rewrite lookup_insert_ne by done. by rewrite Hs.
  - intros w hs i h b Hl Ei Hb. destruct (thread_put_spec w hs i h b Hl Ei Hb) as (r & t' & E & Hi & Hm & Hc).
    exists r, (with_thr w t'). split; [done|]. split; [|split; [|done]].
    + destruct Hl as (_ & Hl). by split.
    + intros j h' Hj Ej. by apply (content_frame w (with_thr w t') hs i j h h' Hl Ei Ej Hj).
  - intros w hs i h Hl Ei. split.
    + destruct Hl as (Hi & Hs & Hsp & Ha). simpl. unfold thread_free, thread_live. rewrite (addresses_delete w hs i h) by done.
      split; [done|]. split; [by apply Forall_delete|]. split; [by apply spread_delete|by apply Forall_delete].
    + done.
Defined.

(** ** The cache on revocable memory *)

(** C5: the cache on top of the library.  Let the blocks have a positive
    size that is a multiple of four bytes, let there be at most 2^31 of them
    ([0 <= total <= 2^31]), let the two memories have non-negative numbers of
    slots whose sum is below 2^64, let no reservation be negative, and let
    the program start successfully on a thread outside of attempts, with the
    handler installed, nothing allocated, no SIGBUS but the revocations of
    memory (at any byte accessed) and no failure of [pkey_set].  Then, for
    every sequence of random draws, the program is never killed and never
    ends: each access returns the sum of the block asked for, and every turn
    ends outside of attempt contexts with access to ephemeral memory
    withdrawn. *)
Theorem cache_survives total max_main max_eph reserved mmap_ok w c w' ts : 0 < size ->
  0 <= total <= 2 ^ 31 -> 0 <= max_main -> 0 <= max_eph -> max_main + max_eph < 2 ^ 64 ->
  (forall n, 0 <= reserved n) -> thread_live w [] ->
  setup size total max_main max_eph reserved mmap_ok w = inl (c, w') ->
  exists c2 w2, run_turns size ts c w' = Ret (inl (expected size (total - 1) ts, c2, w2)) /\
    idle using_pkeys (thr w2).
Proof using Hsize.
  intros HB Ht Hm He Hsum Hres Hl Hs.
  destruct (setup_inv size (Store:=thread_store) _ _ _ _ _ _ _ _ HB Ht Hm He Hsum Hres Hl Hs) as [Hinv Hsel].
  destruct (run_turns_ok size (Store:=thread_store) ts c w' ltac:(lia) Hinv) as (c2 & w2 & E & Hinv2).
  exists c2, w2. rewrite E, Hsel. split; [done|].
  destruct Hinv2 as (_ & _ & (_ & _ & _ & Hi & _) & _). exact Hi.
Qed.
End Thread.

(** ** Example *)

(** Protection keys are in use; two allocations succeed. *)
Definition ex_globals : globals := mk_globals true [] [] 3 1 true.

(** The first put copies its 16 bytes, the second loses its memory at the
    last byte, and the block found in ephemeral memory is lost at its second
    byte when it is read. *)
Definition ex_events : list event :=
  replicate 31 Nothing ++ [Fault BUS_ADRERR] ++ replicate 17 Nothing ++ [Fault BUS_MCEERR_AR].

Definition ex_world : world :=
  mk_world (ex_thread ex_events) (mk_process {[0; 1; 2; 3]} ∅ 0 libephmem_sig_handler_installed None)
    [mk_file_answers 4 true 4096 true; mk_file_answers 5 true 8192 true].

Definition ex_run (ts : list turn) : comp (list (Z * Z) * cache libephmem_handle * world + Z) :=
  match setup (Ops:=thread_ops ex_globals) 16 8 2 2 (fun n => n) true ex_world with
  | inl (c, w) => run_turns (Ops:=thread_ops ex_globals) 16 ts c w
  | inr code => Ret (inr code)
  end.

Definition ex_draws : list turn :=
  [mk_turn 7 0 0 5 false; mk_turn 6 0 0 5 false; mk_turn 5 0 0 5 false; mk_turn 4 0 0 5 false;
   mk_turn 7 0 0 1 false; mk_turn 7 0 0 5 false; mk_turn 3 0 0 5 false].

(** Both allocations are lost in the end, and released. *)
Example ex_run_survives :
  match ex_run ex_draws with
  | Ret (inl (out, c, w)) =>
      out = expected 16 7 ex_draws /\ eph_memory c = [] /\ live_handles (proc w) = 0%nat /\
      open_fds (proc w) = {[0; 1; 2; 3]}
  | _ => False
  end.
Proof. vm_compute. split_and!; reflexivity. Qed.

Lemma ex_thread_live : thread_live ex_globals 16 ex_world [].
Proof.
  assert (Forall revocation ex_events) as He by (unfold ex_events; repeat (apply Forall_app; split);
    [by apply Forall_replicate|by repeat constructor|by apply Forall_replicate|by repeat constructor]).
  split; [by apply ex_idle|]. split; [constructor|]. unfold addresses. simpl. unfold apart.
  repeat constructor; lia.
Qed.

Lemma cache_survives_witness :
  exists c w', setup (Ops:=thread_ops ex_globals) 16 8 2 2 (fun n => Z.max 0 n) true ex_world = inl (c, w') /\
  exists c2 w2, run_turns (Ops:=thread_ops ex_globals) 16 ex_draws c w' = Ret (inl (expected 16 7 ex_draws, c2, w2)) /\
    idle true (thr w2).
Proof.
  assert (exists c w', setup (Ops:=thread_ops ex_globals) 16 8 2 2 (fun n => Z.max 0 n) true ex_world = inl (c, w'))
    as (c & w' & E) by (eexists _, _; vm_compute; reflexivity).
  exists c, w'. split; [exact E|].
  apply (cache_survives ex_globals 16 ltac:(split; [lia|reflexivity]) 8 2 2 (fun n => Z.max 0 n) true ex_world); try lia.
  - apply ex_thread_live.
  - exact E.
Defined.
