(* ===== verification/FaultTrace.v ===== *)
(** What a tracer of page faults has to report, and a generic tracer that is
    proved to report it.  The tracers of [src/bpf] ([PfTrace], [KvmPfTrace])
    are instances: each shows that its BPF programs are the steps of this
    one.

    A call of a probe carries what the kernel's helpers answer: the id of the
    current thread and its process ([bpf_get_current_pid_tgid]), the name of
    the command, the time, and whether the map and the ring buffer had room. *)
From S2P Require Import Prelude.

(** [pid_t tgid = pid_tgid >> 32] *)
Definition tgid_of (pid_tgid : Z) : Z := to_signed 32 (Z.shiftr pid_tgid 32).

(** [bpf_strncmp(s, n, t) == 0]: equal up to [n] characters or a NUL; a
    character past the end of the literal is the NUL. *)
Fixpoint strncmp_eq (n : nat) (s t : bytes) : bool :=
  match n with
  | O => true
  | S n =>
      let c := default 0 (head s) in
      (c =? default 0 (head t)) && ((c =? 0) || strncmp_eq n (tail s) (tail t))
  end.

Definition TASK_COMM_LEN : nat := 16.

(** What a tracer records: an event [E] begun from the arguments [I] of the
    probe, changed by marks [K] in between, and finished at the return, which
    is not reported for some results [R]. *)
Class TracerOps (E I K R : Type) := {
  begin_event : Z -> I -> E;
  mark_event : K -> E -> E;
  finish_event : Z -> E -> E;
  skipped : R -> bool
}.

Section Trace.
Context {E I K R : Type} `{TracerOps E I K R}.
Variable target_comm : bytes.

Inductive call :=
  | Fault (pid_tgid : Z) (comm : bytes) (now : Z) (args : I) (update_ok : bool)
  | Mark (pid_tgid : Z) (k : K)
  | Return (pid_tgid : Z) (now : Z) (ret : R) (reserve_ok : bool).

Definition caller (c : call) : Z :=
  match c with Fault p _ _ _ _ | Mark p _ | Return p _ _ _ => p end.

(** ** What is to be reported

    Of the calls made so far, the latest first: the fault the thread [t] is
    in, and the events reported, the oldest first. *)
Fixpoint open_fault (t : Z) (past : list call) : option E :=
  match past with
  | [] => None
  | Fault p _ now args ok :: past =>
      if decide (p = t /\ ok = true) then Some (begin_event now args) else open_fault t past
  | Mark p k :: past => if decide (p = t) then mark_event k <$> open_fault t past else open_fault t past
  | Return p _ _ _ :: past => if decide (p = t) then None else open_fault t past
  end.

Definition report (c : call) (past : list call) : list E :=
  match c with
  | Return p now ret ok =>
      if skipped ret || negb ok then []
      else match open_fault p past with Some e => [finish_event now e] | None => [] end
  | _ => []
  end.

Fixpoint reports (past : list call) : list E :=
  match past with
  | [] => []
  | c :: past => reports past ++ report c past
  end.

(** The calls of the traced process [T].  As long as there is none ([T] is
    0), the first fault of a command with the name asked for chooses it. *)
Definition of_process (T : Z) (cs : list call) : list call := filter (fun c => tgid_of (caller c) = T) cs.

Fixpoint traced (T : Z) (cs : list call) : list call :=
  if T =? 0 then
    match cs with
    | [] => []
    | Fault p comm _ _ _ :: cs =>
        if strncmp_eq TASK_COMM_LEN comm target_comm then traced (tgid_of p) cs else traced 0 cs
    | _ :: cs => traced 0 cs
    end
  else of_process T cs.

(** ** The tracer *)

Record tracer := mk_tracer { fault_events : gmap Z E; rb : list E; trace_tgid : Z }.

Definition with_events (s : tracer) m := mk_tracer m (rb s) (trace_tgid s).
Definition with_rb (s : tracer) r := mk_tracer (fault_events s) r (trace_tgid s).
Definition with_tgid (s : tracer) t := mk_tracer (fault_events s) (rb s) t.

Definition step (s : tracer) (c : call) : tracer :=
  let tgid := tgid_of (caller c) in
  match c with
  | Fault pid_tgid comm now args update_ok =>
      if trace_tgid s =? 0 then
        if strncmp_eq TASK_COMM_LEN comm target_comm then with_tgid s tgid else s
      else if negb (tgid =? trace_tgid s) then s
      else if update_ok then with_events s (<[pid_tgid := begin_event now args]> (fault_events s)) else s
  | Mark pid_tgid k =>
      if negb (tgid =? trace_tgid s) then s
      else with_events s (alter (mark_event k) pid_tgid (fault_events s))
  | Return pid_tgid now ret reserve_ok =>
      if negb (tgid =? trace_tgid s) then s
      else
        match fault_events s !! pid_tgid with
        | None => s
        | Some e =>
            let s := if skipped ret || negb reserve_ok then s else with_rb s (rb s ++ [finish_event now e]) in
            with_events s (delete pid_tgid (fault_events s))
        end
  end.

Definition run (s : tracer) (cs : list call) : tracer := fold_left step cs s.

Definition init (T : Z) : tracer := mk_tracer ∅ [] T.

(** ** The tracer reports what is to be reported *)

(** The state after the calls [past] of the traced process. *)
Definition tracks (past : list call) (s : tracer) : Prop :=
  trace_tgid s <> 0 /\ rb s = reports past /\
  forall t, tgid_of t = trace_tgid s -> fault_events s !! t = open_fault t past.

Lemma step_other s c : trace_tgid s <> 0 -> tgid_of (caller c) <> trace_tgid s -> step s c = s.
Proof.
  intros H0 Hc. apply Z.eqb_neq in Hc. destruct c; cbn [step caller] in *; rewrite Hc; try done.
  by destruct (Z.eqb_spec (trace_tgid s) 0).
Qed.

Lemma step_tracks past s c : tracks past s -> tgid_of (caller c) = trace_tgid s -> tracks (c :: past) (step s c).
Proof.
  intros (H0 & Hr & Hm) Hc. pose proof (Hm _ Hc) as Hcaller.
  destruct c as [p comm now args ok|p k|p now ret ok]; cbn [step caller] in *; rewrite Hc, Z.eqb_refl; cbn [negb].
  - destruct (Z.eqb_spec (trace_tgid s) 0) as [|_]; [done|]. destruct ok.
    + split_and!; [done|simpl; by rewrite app_nil_r|]. intros t Ht. cbn. rewrite lookup_insert.
      repeat case_decide; naive_solver.
    + split_and!; [done|simpl; by rewrite app_nil_r|]. intros t Ht. cbn. rewrite decide_False by naive_solver. auto.
  - split_and!; [done|simpl; by rewrite app_nil_r|]. intros t Ht. cbn. rewrite lookup_alter.
    case_decide; [|auto]. subst. by rewrite Hm.
  - rewrite Hcaller. destruct (open_fault p past) as [e|] eqn:Eo.
    + split_and!.
      * by destruct (_ || _).
      * cbn. rewrite Eo. destruct (_ || _); cbn; rewrite Hr; [by rewrite app_nil_r|done].
      * intros t Ht. cbn [open_fault]. destruct (_ || _); cbn in *; rewrite lookup_delete; case_decide; auto.
    + split_and!; [done| |].
      * cbn. rewrite Eo. destruct (_ || _); cbn; by rewrite app_nil_r.
      * intros t Ht. cbn. case_decide; [subst|]; by rewrite Hm.
Qed.

Lemma run_tracks cs : forall past s, tracks past s ->
  tracks (rev (of_process (trace_tgid s) cs) ++ past) (run s cs).
Proof.
  induction cs as [|c cs IH]; intros past s Hs; [done|]. cbn [run fold_left]. unfold of_process. rewrite filter_cons.
  destruct (decide (tgid_of (caller c) = trace_tgid s)) as [Hc|Hc].
  - pose proof (step_tracks _ _ _ Hs Hc) as Hs'.
    assert (trace_tgid (step s c) = trace_tgid s) as Et.
    { destruct Hs as (H0 & _). destruct c; cbn [step].
      - destruct (Z.eqb_spec (trace_tgid s) 0); [done|]. by repeat case_match.
      - by repeat case_match.
      - by repeat case_match. }
    cbn [rev]. rewrite <- app_assoc. cbn [app]. rewrite <- Et. by apply IH.
  - rewrite step_other by (try apply Hs; done). by apply IH.
Qed.

Lemma init_idle c : (match c with Fault _ _ _ _ _ => False | _ => True end) -> step (init 0) c = init 0.
Proof.
  destruct c as [|p k|p now ret ok]; intros Hc; [done|..]; cbn [step init trace_tgid fault_events];
    by destruct (tgid_of _ =? 0).
Qed.

Lemma run_reports cs : forall T, rb (run (init T) cs) = reports (rev (traced T cs)).
Proof.
  assert (forall T cs, T <> 0 -> rb (run (init T) cs) = reports (rev (of_process T cs))) as Hrun.
  { intros T cs' HT. destruct (run_tracks cs' [] (init T)) as (_ & Hr & _).
    - split_and!; [done|done|]. intros t _. apply lookup_empty.
    - by rewrite app_nil_r in Hr. }
  intros T. destruct (decide (T = 0)) as [->|HT].
  2: { rewrite Hrun by done. destruct cs; cbn [traced]; by rewrite (proj2 (Z.eqb_neq T 0) HT). }
  induction cs as [|c cs IH]; [done|]. cbn [run fold_left].
  destruct c as [p comm now args ok|p k|p now ret ok]; [|rewrite init_idle by done; exact IH..].
  cbn [step init trace_tgid caller]. cbn [traced]. rewrite Z.eqb_refl.
  destruct (strncmp_eq _ comm target_comm); [|exact IH]. cbn [with_tgid fault_events rb].
  change (mk_tracer ∅ [] (tgid_of p)) with (init (tgid_of p)).
  destruct (decide (tgid_of p = 0)) as [->|HT]; [exact IH|].
  etransitivity; [by apply (Hrun (tgid_of p) cs)|].
  destruct cs; cbn [traced]; by rewrite (proj2 (Z.eqb_neq (tgid_of p) 0) HT).
Qed.

(** Only threads of the traced process are ever in the map. *)
Lemma run_events_traced cs T : T <> 0 -> forall t, is_Some (fault_events (run (init T) cs) !! t) -> tgid_of t = T.
Proof.
  intros HT. assert (forall s, trace_tgid s = T -> (forall t, is_Some (fault_events s !! t) -> tgid_of t = T) ->
    trace_tgid (run s cs) = T /\ forall t, is_Some (fault_events (run s cs) !! t) -> tgid_of t = T) as Hinv.
  { induction cs as [|c cs IH]; intros s Hs Hm; [done|]. apply IH.
    - destruct c; cbn [step]; repeat case_match; subst; try done; lia.
    - intros t. destruct c as [p comm now args ok|p k|p now ret ok]; cbn [step caller].
      + destruct (Z.eqb_spec (trace_tgid s) 0); [lia|].
        destruct (Z.eqb_spec (tgid_of p) (trace_tgid s)); cbn [negb]; [|auto]. destruct ok; [|auto].
        cbn. intros [->|[_ Ht]]%lookup_insert_is_Some; [congruence|auto].
      + case_match; [auto|]. cbn. rewrite lookup_alter_is_Some. auto.
      + case_match; [auto|]. destruct (fault_events s !! p); [|auto]. cbn. rewrite lookup_delete_is_Some.
        intros [_ Ht]. apply Hm. by destruct (_ || _). }
  intros t. apply Hinv; [done|]. intros t'. cbn. rewrite lookup_empty. by intros [].
Qed.

(** ** A complete fault is reported *)

Definition marks_of (t : Z) (cs : list call) (e : E) : E :=
  fold_left (fun e c => match c with Mark p k => if decide (p = t) then mark_event k e else e | _ => e end) cs e.

(** No call of [cs] begins or ends a fault of the thread [t]. *)
Definition undisturbed (t : Z) (cs : list call) : Prop :=
  Forall (fun c => match c with
                   | Fault p _ _ _ ok => p = t -> ok = false
                   | Mark _ _ => True
                   | Return p _ _ _ => p <> t
                   end) cs.

Lemma open_fault_undisturbed t mid : undisturbed t mid -> forall past e, open_fault t past = Some e ->
  open_fault t (rev mid ++ past) = Some (marks_of t mid e).
Proof.
  induction 1 as [|c mid Hc _ IH]; intros past e He; [done|]. cbn [rev marks_of fold_left].
  rewrite <- app_assoc. cbn [app]. apply IH. destruct c as [p comm now args ok|p k|p now ret ok]; cbn [open_fault].
  - rewrite decide_False; [done|]. intros [-> ->]. by specialize (Hc eq_refl).
  - case_decide; [|done]. by rewrite He.
  - by rewrite decide_False.
Qed.

Lemma reports_app cs past : exists more, reports (rev cs ++ past) = reports past ++ more.
Proof.
  revert past. induction cs as [|c cs IH]; intros past; [exists []; by rewrite app_nil_r|].
  cbn [rev]. rewrite <- app_assoc. destruct (IH ([c] ++ past)) as [more ->]. cbn [app reports].
  eexists. by rewrite <- app_assoc.
Qed.

Lemma complete_fault_reported T pre mid post p comm t0 args t1 ret :
  T <> 0 -> tgid_of p = T -> skipped ret = false -> undisturbed p mid ->
  finish_event t1 (marks_of p mid (begin_event t0 args)) ∈
    rb (run (init T) (pre ++ Fault p comm t0 args true :: mid ++ Return p t1 ret true :: post)).
Proof.
  intros HT Hp Hret Hmid. rewrite run_reports.
  assert (forall cs, traced T cs = of_process T cs) as ->.
  { intros []; cbn [traced]; by rewrite (proj2 (Z.eqb_neq T 0) HT). }
  unfold of_process. rewrite filter_app, filter_cons_True, filter_app, filter_cons_True by done.
  set (mid' := filter _ mid).
  assert (undisturbed p mid') as Hmid'.
  { apply Forall_forall. intros c [_ Hin]%list_elem_of_filter. by apply (proj1 (Forall_forall _ _) Hmid). }
  assert (forall e, marks_of p mid e = marks_of p mid' e) as Hmarks.
  { clear Hmid Hmid'. unfold mid'. clear mid'. induction mid as [|c mid IH]; intros e; [done|].
    rewrite filter_cons. case_decide as Hc; cbn [marks_of fold_left]; [apply IH|]. rewrite <- IH.
    unfold marks_of. f_equal. destruct c; try done. case_decide; [|done]. subst. done. }
  rewrite Hmarks, rev_app_distr. cbn [rev]. rewrite !rev_app_distr. cbn [rev app]. rewrite <- !app_assoc. cbn [app].
  destruct (reports_app (of_process T post) (Return p t1 ret true ::
    rev mid' ++ Fault p comm t0 args true :: rev (of_process T pre))) as [more Emore].
  unfold of_process in Emore. rewrite Emore. apply elem_of_app. left. cbn [reports report].
  rewrite Hret. cbn [negb orb]. rewrite (open_fault_undisturbed p mid' Hmid' _ (begin_event t0 args)).
  - apply elem_of_app. right. by left.
  - cbn. by rewrite decide_True.
Qed.
End Trace.
