(* ===== verification/TraceTool.v ===== *)
(** The user-space half of the page-fault tracers ([main] of
    [src/bpf/pf_trace.c] and [src/bpf/kvm_pf_trace.c], which differ in the
    event they print): the choice of the target from the command line, and
    the loop that prints the events of the ring buffer until it is told to
    stop. *)
From S2P Require Import Prelude CLib FaultTrace.

(** [atoi]: [strtol] converted to [int]. *)
Definition atoi (s : bytes) : Z := to_signed 32 (st_value (strtoll s)).

(** [strncpy] into an array of [n] characters. *)
Definition strncpy (n : nat) (s : bytes) : bytes := take n (s ++ replicate n 0).

(** ["%x"] *)
Fixpoint to_hex_aux (fuel : nat) (n : Z) (acc : bytes) : bytes :=
  match fuel with
  | O => acc
  | S fuel =>
      let acc := hex_digit (n mod 16) :: acc in
      if n <? 16 then acc else to_hex_aux fuel (n / 16) acc
  end.
Definition to_hex (n : Z) : bytes := to_hex_aux (S (Z.to_nat (Z.log2 n))) n [].

Example to_hex_ex : to_hex 0x1254 = str "1254" /\ to_hex 0 = str "0".
Proof. vm_compute. done. Qed.

Definition EINTR : Z := 4.

Section Tool.
Context {E : Type}.

(** The read-only data and the variable of the BPF object that are set before
    it is loaded. *)
Record target := mk_target { target_comm : bytes; trace_pid : Z }.

Definition select_target (comm : bytes) : target :=
  let pid := atoi comm in
  if pid =? 0 then mk_target (strncpy TASK_COMM_LEN comm) 0
  else mk_target (replicate TASK_COMM_LEN 0) pid.

(** What the system answers: whether the BPF object can be opened, the
    results of loading and attaching it, whether there is a ring buffer, and
    for each turn of the loop whether the stop file exists, the result of
    [ring_buffer__poll] and the events it hands to [handle_event]. *)
Record system := mk_system {
  skel_opens : bool;
  load_err : Z;
  attach_err : Z;
  ring_buffer_ok : bool;
  turns : list (bool * Z * list E)
}.

Variable print_event : E -> bytes.
Variable header : bytes.

(** [handle_event] *)
Definition handle_event (data : E) (stdout : bytes) : bytes := stdout ++ print_event data.

(** [err] and the output after the loop. *)
Fixpoint poll_loop (turns : list (bool * Z * list E)) (err : Z) (stdout : bytes) : comp (Z * bytes) :=
  match turns with
  | [] => OutOfFuel
  | (stop, res, events) :: turns =>
      if (stop : bool) then Ret (err, stdout)
      else
        let stdout := fold_left (fun o e => handle_event e o) events stdout in
        if res =? - EINTR then Ret (res, stdout)
        else if res <? 0 then Ret (res, stdout)
        else poll_loop turns res stdout
  end.

(** The exit code, the output, and the target the BPF object was given. *)
Definition tool_main (args : list bytes) (sys : system) : comp (Z * bytes * option target) :=
  match args with
  | [comm] =>
      if (TASK_COMM_LEN <=? length comm)%nat then Ret (1, [], None)
      else if negb (skel_opens sys) then Ret (1, [], None)
      else
        let tg := Some (select_target comm) in
        if negb (load_err sys =? 0) then Ret (load_err sys, [], tg)
        else if negb (attach_err sys =? 0) then Ret (attach_err sys, [], tg)
        else if negb (ring_buffer_ok sys) then Ret (-1, [], tg)
        else let* '(err, stdout) := poll_loop (turns sys) 0 header in Ret (err, stdout, tg)
  | _ => Ret (1, [], None)
  end.

Lemma print_events evs stdout :
  fold_left (fun o e => handle_event e o) evs stdout = stdout ++ flat_map print_event evs.
Proof.
  revert stdout. induction evs as [|e evs IH]; intros stdout; cbn; [by rewrite app_nil_r|].
  rewrite IH. unfold handle_event. by rewrite <- app_assoc.
Qed.

(** The turns up to the one that ends the loop, and its result. *)
Lemma poll_loop_stops ts evs err stdout res :
  Forall (fun t => t.1.1 = false /\ 0 <= t.1.2) ts ->
  poll_loop (ts ++ (true, res, evs) :: []) err stdout =
  Ret (default err (last (map (fun t => t.1.2) ts)), stdout ++ flat_map print_event (flat_map snd ts)).
Proof.
  intros Hts. revert err stdout. induction Hts as [|[[stop r] es] ts [Hstop Hr] _ IH]; intros err stdout.
  { cbn. by rewrite app_nil_r. }
  cbn in Hstop, Hr. subst stop. cbn [app poll_loop]. unfold EINTR.
  destruct (Z.eqb_spec r (- (4))); [lia|]. destruct (Z.ltb_spec r 0); [lia|]. rewrite IH, print_events. f_equal. f_equal.
  - cbn [map fst snd]. rewrite last_cons. by destruct (last _).
  - cbn [flat_map snd]. by rewrite flat_map_app, app_assoc.
Qed.
End Tool.

(** A command whose name begins with digits is taken for a process id. *)
Example command_7zip : select_target (str "7zip") = mk_target (replicate 16 0) 7.
Proof. vm_compute. reflexivity. Qed.
