(* ===== verification/PfTrace.v ===== *)
(** The page-fault tracer: the BPF programs of [src/bpf/pf_trace.bpf.c] and
    its tool [src/bpf/pf_trace.c], as an instance of [FaultTrace] and
    [TraceTool]. *)
From S2P Require Import Prelude CLib FaultTrace TraceTool.

(** [enum pf_type] *)
Inductive pf_type := PF_TYPE_BASE | PF_TYPE_THP | PF_TYPE_HUGETLB.

Definition pf_type_value (t : pf_type) : Z :=
  match t with PF_TYPE_BASE => 0 | PF_TYPE_THP => 1 | PF_TYPE_HUGETLB => 2 end.

Record pf_trace_event := mk_event { fault_time_ns : Z; flags : Z; type : pf_type }.

Section PfTrace.
(** The constant of the kernel's [vmlinux.h], which the build generates. *)
Variable VM_FAULT_RETRY : Z.
Variable target_comm : bytes.

#[local] Instance pf_ops : TracerOps pf_trace_event Z pf_type Z := {
  begin_event now flags := mk_event now flags PF_TYPE_BASE;
  mark_event t e := mk_event (fault_time_ns e) (flags e) t;
  finish_event now e := mk_event (wrapu 64 (now - fault_time_ns e)) (flags e) (type e);
  skipped ret := ret =? VM_FAULT_RETRY
}.

Implicit Types (s : tracer (E := pf_trace_event)).

(** [BPF_KPROBE(handle_mm_fault)] *)
Definition handle_mm_fault (pid_tgid : Z) (comm : bytes) (ts flags : Z) (update_ok : bool) s : tracer :=
  let tgid := tgid_of pid_tgid in
  if trace_tgid s =? 0 then
    if strncmp_eq TASK_COMM_LEN comm target_comm then with_tgid s tgid else s
  else if negb (tgid =? trace_tgid s) then s
  else
    let event := mk_event ts flags PF_TYPE_BASE in
    if update_ok then with_events s (<[pid_tgid := event]> (fault_events s)) else s.

(** [BPF_KRETPROBE(handle_mm_fault_ret)] *)
Definition handle_mm_fault_ret (pid_tgid ts ret : Z) (reserve_ok : bool) s : tracer :=
  let tgid := tgid_of pid_tgid in
  if negb (tgid =? trace_tgid s) then s
  else
    match fault_events s !! pid_tgid with
    | None => s
    | Some event =>
        let s :=
          if ret =? VM_FAULT_RETRY then s
          else
            let event := mk_event (wrapu 64 (ts - fault_time_ns event)) (flags event) (type event) in
            let s := with_events s (<[pid_tgid := event]> (fault_events s)) in
            if reserve_ok then with_rb s (rb s ++ [event]) else s in
        with_events s (delete pid_tgid (fault_events s))
    end.

Definition mark_huge_fault (pid_tgid : Z) (t : pf_type) s : tracer :=
  let tgid := tgid_of pid_tgid in
  if negb (tgid =? trace_tgid s) then s
  else
    match fault_events s !! pid_tgid with
    | None => s
    | Some event => with_events s (<[pid_tgid := mk_event (fault_time_ns event) (flags event) t]> (fault_events s))
    end.

(** The two kprobes that mark a fault. *)
Definition do_huge_pmd_anonymous_page (pid_tgid : Z) s : tracer := mark_huge_fault pid_tgid PF_TYPE_THP s.
Definition hugetlb_fault (pid_tgid : Z) s : tracer := mark_huge_fault pid_tgid PF_TYPE_HUGETLB s.

Definition pf_step s (c : call) : tracer :=
  match c with
  | Fault p comm now flags ok => handle_mm_fault p comm now flags ok s
  | Mark p PF_TYPE_THP => do_huge_pmd_anonymous_page p s
  | Mark p PF_TYPE_HUGETLB => hugetlb_fault p s
  | Mark p PF_TYPE_BASE => s
  | Return p now ret ok => handle_mm_fault_ret p now ret ok s
  end.

Definition pf_run s (cs : list call) : tracer := fold_left pf_step cs s.

(** No probe marks a fault as a base fault. *)
Definition marks_huge (c : call (I := Z) (K := pf_type) (R := Z)) : Prop :=
  match c with Mark _ PF_TYPE_BASE => False | _ => True end.

Lemma mark_huge_fault_step p t s : mark_huge_fault p t s = step target_comm s (Mark p t).
Proof.
  unfold mark_huge_fault. cbn [step caller]. destruct (negb _); [done|].
  assert (alter (mark_event t) p (fault_events s) =
    match fault_events s !! p with
    | None => fault_events s
    | Some e => <[p := mark_event t e]> (fault_events s)
    end) as ->.
  { apply map_eq. intros t'. rewrite lookup_alter. destruct (fault_events s !! p) as [e|] eqn:Ee.
    - rewrite lookup_insert. by case_decide.
    - case_decide; [|done]. subst. by rewrite Ee. }
  destruct (fault_events s !! p); [done|]. by destruct s.
Qed.

Lemma pf_step_generic s c : marks_huge c -> pf_step s c = step target_comm s c.
Proof.
  destruct c as [p comm now fl ok|p t|p now ret ok]; intros Hc; [done| |].
  - destruct t; [destruct Hc|exact (mark_huge_fault_step p PF_TYPE_THP s)|exact (mark_huge_fault_step p PF_TYPE_HUGETLB s)].
  - cbn [pf_step step caller]. unfold handle_mm_fault_ret. cbn [skipped pf_ops finish_event].
    destruct (negb (_ =? _)); [done|]. destruct (fault_events s !! p) as [e|]; [|done].
    destruct (ret =? VM_FAULT_RETRY); [done|]. destruct ok; unfold with_events, with_rb; cbn;
      by rewrite delete_insert_eq.
Qed.

Lemma pf_run_generic cs s : Forall marks_huge cs -> pf_run s cs = run target_comm s cs.
Proof.
  intros Hcs. revert s. induction Hcs as [|c cs Hc _ IH]; intros s; [done|]. cbn [pf_run run fold_left].
  rewrite pf_step_generic by done. apply IH.
Qed.

(** C16: the tracer refines its specification: whatever sequence of probes
    fires, with whatever failures of the map and the ring buffer, the ring
    buffer receives exactly the events that are to be reported for the
    traced process, in the order in which its faults return. *)
Theorem pf_trace_refines T cs : Forall marks_huge cs ->
  rb (pf_run (init T) cs) = reports (rev (traced target_comm T cs)).
Proof. intros Hcs. rewrite pf_run_generic by done. apply run_reports. Qed.

(** A mark changes the type only. *)
Lemma marks_keep t cs e0 :
  fault_time_ns (marks_of t cs e0) = fault_time_ns e0 /\ flags (marks_of t cs e0) = flags e0.
Proof.
  unfold marks_of. revert e0. induction cs as [|c cs IH]; intros e0; [done|]. cbn [fold_left].
  destruct c as [|q k|]; try apply IH. case_decide; [|apply IH]. by destruct (IH (mark_event k e0)) as [-> ->].
Qed.

(** C36: every fault of the traced process that is recorded at its start and
    has room in the ring buffer at its return is reported, unless it is
    retried: with its duration modulo 2^64 and the last mark in between,
    whatever other threads do. *)
Theorem pf_fault_reported T pre mid post p comm t0 fl t1 ret :
  T <> 0 -> tgid_of p = T -> ret <> VM_FAULT_RETRY ->
  Forall marks_huge (pre ++ Fault p comm t0 fl true :: mid ++ Return p t1 ret true :: post) -> undisturbed p mid ->
  let e := marks_of p mid (mk_event t0 fl PF_TYPE_BASE) in
  mk_event (wrapu 64 (t1 - t0)) fl (type e) ∈
    rb (pf_run (init T) (pre ++ Fault p comm t0 fl true :: mid ++ Return p t1 ret true :: post)).
Proof.
  intros HT Hp Hret Hcs Hmid e. rewrite pf_run_generic by done.
  assert (mk_event (wrapu 64 (t1 - t0)) fl (type e) = finish_event t1 e) as ->.
  { unfold finish_event, pf_ops, e. by destruct (marks_keep p mid (mk_event t0 fl PF_TYPE_BASE)) as [-> ->]. }
  unfold e. change (mk_event t0 fl PF_TYPE_BASE) with (begin_event t0 fl).
  apply (complete_fault_reported target_comm); [done|done|by apply Z.eqb_neq|done].
Qed.
End PfTrace.

(** ** The tool *)

(** ["%lu,%x,%u\n"] *)
Definition print_pf_event (e : pf_trace_event) : bytes :=
  to_dec (fault_time_ns e) ++ str "," ++ to_hex (flags e) ++ str "," ++ to_dec (pf_type_value (type e)) ++ [10].

Definition pf_header : bytes := str "fault_ns, flags (hex), huge_fault" ++ [10].

Definition pf_main : list bytes -> system -> comp (Z * bytes * option target) := tool_main print_pf_event pf_header.

(** A traced fault, its mark, and its report. *)
Example pf_ex :
  let p := Z.shiftl 42 32 + 43 in
  rb (pf_run 0x400 (str "x") (init 42) [Fault p [] 100 0x255 true; Mark p PF_TYPE_THP; Return p 350 0 true]) =
  [mk_event 250 0x255 PF_TYPE_THP].
Proof. vm_compute. reflexivity. Qed.

Definition sample_calls : list (call (I := Z) (K := pf_type) (R := Z)) :=
  let p := Z.shiftl 42 32 + 43 in
  [Fault p (str "x") 100 0x255 true; Mark p PF_TYPE_THP; Return p 350 0 true].

Lemma pf_trace_refines_witness : rb (pf_run 0x400 (str "x") (init 0) ([Return 7 1 0 true; Fault (Z.shiftl 42 32) (str "x") 1 2 true] ++ sample_calls)) =
  [mk_event 250 0x255 PF_TYPE_THP].
Proof.
  etransitivity; [apply (pf_trace_refines 0x400 (str "x") 0); repeat constructor|]. vm_compute. reflexivity.
Defined.

Lemma pf_fault_reported_witness :
  mk_event (wrapu 64 (350 - 100)) 0x255 PF_TYPE_THP ∈ rb (pf_run 0x400 (str "x") (init 42) sample_calls).
Proof.
  apply (pf_fault_reported 0x400 (str "x") 42 [] [Mark (Z.shiftl 42 32 + 43) PF_TYPE_THP] [] (Z.shiftl 42 32 + 43)
    (str "x") 100 0x255 350 0); [done|reflexivity|done|repeat constructor|repeat constructor].
Defined.

(** The result of a fault is a set of flags, but it is compared with the flag
    for a retry as a whole: a retry that also read from disk
    (VM_FAULT_RETRY | VM_FAULT_MAJOR) is reported as a complete fault. *)
Example major_retry_reported :
  let p := Z.shiftl 42 32 + 43 in
  rb (pf_run 0x400 (str "x") (init 42) [Fault p [] 100 0 true; Return p 350 (Z.lor 0x400 4) true]) =
  [mk_event 250 0 PF_TYPE_BASE].
Proof. vm_compute. reflexivity. Qed.

(** A normal stop exits with the number of events of the last poll. *)
Example pf_exit_code :
  pf_main [str "42"] (mk_system true 0 0 true [(false, 1, [mk_event 250 0x255 PF_TYPE_THP]); (true, 0, [])]) =
  Ret (1, pf_header ++ str "250,255,1" ++ [10], Some (mk_target (replicate 16 0) 42)).
Proof. vm_compute. reflexivity. Qed.
