(* ===== verification/KvmPfTrace.v ===== *)
(** The tracer of page faults in virtual machines: the BPF programs of
    [src/bpf/kvm_pf_trace.bpf.c] and its tool [src/bpf/kvm_pf_trace.c], as an
    instance of [FaultTrace] and [TraceTool]. *)
From S2P Require Import Prelude CLib FaultTrace TraceTool.

(** [enum fault_type] *)
Inductive fault_type := FAULT_TYPE_NONE | FAULT_TYPE_GUEST_FINAL | FAULT_TYPE_GUEST_PAGE.

Definition fault_type_value (t : fault_type) : Z :=
  match t with FAULT_TYPE_NONE => 0 | FAULT_TYPE_GUEST_FINAL => 1 | FAULT_TYPE_GUEST_PAGE => 2 end.

Record kvm_pf_trace_event := mk_kvm_event { kvm_fault_time_ns : Z; kvm_fault_type : fault_type }.

Definition PFERR_GUEST_FINAL_MASK : Z := Z.shiftl 1 32.
Definition PFERR_GUEST_PAGE_MASK : Z := Z.shiftl 1 33.

Definition classify (error_code : Z) : fault_type :=
  if negb (Z.land error_code PFERR_GUEST_FINAL_MASK =? 0) then FAULT_TYPE_GUEST_FINAL
  else if negb (Z.land error_code PFERR_GUEST_PAGE_MASK =? 0) then FAULT_TYPE_GUEST_PAGE
  else FAULT_TYPE_NONE.

(** There is no probe in between, and every return is reported. *)
#[export] Instance kvm_ops : TracerOps kvm_pf_trace_event Z Empty_set Z := {
  begin_event now error_code := mk_kvm_event now (classify error_code);
  mark_event _ e := e;
  finish_event now e := mk_kvm_event (wrapu 64 (now - kvm_fault_time_ns e)) (kvm_fault_type e);
  skipped _ := false
}.

Section KvmTrace.
Variable target_comm : bytes.
Implicit Types (s : tracer (E := kvm_pf_trace_event)).

(** [BPF_KPROBE(kvm_mmu_page_fault)] *)
Definition kvm_mmu_page_fault (pid_tgid : Z) (comm : bytes) (ts error_code : Z) (update_ok : bool) s : tracer :=
  let tgid := tgid_of pid_tgid in
  if trace_tgid s =? 0 then
    if strncmp_eq TASK_COMM_LEN comm target_comm then with_tgid s tgid else s
  else if negb (tgid =? trace_tgid s) then s
  else
    let event :=
      mk_kvm_event ts
        (if negb (Z.land error_code PFERR_GUEST_FINAL_MASK =? 0) then FAULT_TYPE_GUEST_FINAL
         else if negb (Z.land error_code PFERR_GUEST_PAGE_MASK =? 0) then FAULT_TYPE_GUEST_PAGE
         else FAULT_TYPE_NONE) in
    if update_ok then with_events s (<[pid_tgid := event]> (fault_events s)) else s.

(** [BPF_KRETPROBE(kvm_mmu_page_fault_ret)] *)
Definition kvm_mmu_page_fault_ret (pid_tgid ts : Z) (reserve_ok : bool) s : tracer :=
  let tgid := tgid_of pid_tgid in
  if negb (tgid =? trace_tgid s) then s
  else
    match fault_events s !! pid_tgid with
    | None => s
    | Some event =>
        let event := mk_kvm_event (wrapu 64 (ts - kvm_fault_time_ns event)) (kvm_fault_type event) in
        let s := with_events s (<[pid_tgid := event]> (fault_events s)) in
        let s := if reserve_ok then with_rb s (rb s ++ [event]) else s in
        with_events s (delete pid_tgid (fault_events s))
    end.

Definition kvm_step s (c : call (I := Z) (K := Empty_set) (R := Z)) : tracer :=
  match c with
  | Fault p comm now error_code ok => kvm_mmu_page_fault p comm now error_code ok s
  | Mark _ k => match k with end
  | Return p now ret ok => kvm_mmu_page_fault_ret p now ok s
  end.

Definition kvm_run s (cs : list (call (I := Z) (K := Empty_set) (R := Z))) : tracer := fold_left kvm_step cs s.

Lemma kvm_step_generic s c : kvm_step s c = step target_comm s c.
Proof.
  destruct c as [p comm now fl ok|p []|p now ret ok]; [done|].
  cbn [kvm_step step caller]. unfold kvm_mmu_page_fault_ret. cbn [skipped kvm_ops finish_event].
  destruct (negb (_ =? _)); [done|]. destruct (fault_events s !! p) as [e|]; [|done].
  destruct ok; unfold with_events, with_rb; cbn; by rewrite delete_insert_eq.
Qed.

(** C17: the tracer of virtual machines refines its specification, for every
    sequence of probes and failures: the ring buffer receives exactly the
    events to be reported for the traced process, in order, each with its
    duration and the kind of guest fault that its error code says. *)
Theorem kvm_trace_refines T cs : rb (kvm_run (init T) cs) = reports (rev (traced target_comm T cs)).
Proof.
  rewrite <- run_reports. f_equal. generalize (init (E := kvm_pf_trace_event) T).
  induction cs as [|c cs IH]; intros s; [done|]. cbn [kvm_run run fold_left]. rewrite kvm_step_generic. apply IH.
Qed.
End KvmTrace.

(** ** The tool *)

(** ["%lu,%d\n"] *)
Definition print_kvm_event (e : kvm_pf_trace_event) : bytes :=
  to_dec (kvm_fault_time_ns e) ++ str "," ++ to_dec (fault_type_value (kvm_fault_type e)) ++ [10].

Definition kvm_header : bytes := str "fault_ns, error_code" ++ [10].

Definition kvm_main : list bytes -> system -> comp (Z * bytes * option target) := tool_main print_kvm_event kvm_header.

Example kvm_ex :
  let p := Z.shiftl 42 32 + 43 in
  rb (kvm_run (str "qemu") (init 0)
    [Fault p (str "bash") 5 0 true; Fault p (str "qemu") 10 0 true; Return p 20 0 true;
     Fault p (str "qemu") 100 (Z.shiftl 3 32) true; Return p 350 1 true]) =
  [mk_kvm_event 250 FAULT_TYPE_GUEST_FINAL].
Proof. vm_compute. reflexivity. Qed.
